(* ===== verification/_CoqProject ===== *)
-Q . S2P
Prelude.v
Bytes.v
Backend.v
Disk.v
Vdi.v
VdiOpen.v
VdiDisk.v
Qcow.v
Superblock.v
Image.v
Inode.v
CylGroup.v
Alloc.v
Groups.v
BlockMap.v
BlockLookup.v
FileIO.v
Dirent.v
Directory.v
Node.v
Path.v
VdiParent.v
QcowOpen.v
QcowCheck.v
QcowRead.v
QcowChain.v
QcowState.v
QcowAlloc.v
QcowRefs.v
QcowWrite.v
QcowDisk.v
Lookup.v
Label.v
Open.v
Policy.v
Mutate.v
Attributes.v
Session.v
Transact.v
Size.v
GrowGroups.v
Resize.v
GrowSafe.v
GrowPlan.v
GrowDisk.v
FormatPlan.v
Format.v
FormatSuper.v
FormatGroups.v
FormatDisk.v
FormatFrame.v
FormatRuns.v
FormatImage.v
MkImg.v
MkImgDisk.v
