(* ===== verification/Prelude.v ===== *)
(** * nextufs: a verified model of the filesystem core

    nextufs reads and changes NeXT UFS filesystems inside disk images.  This library
    models its core in C -- storage backends, the image with its undo log, cylinder groups
    and their allocators, block maps, files, directories, paths, disk labels, the mutations
    with their transactions and write sessions, the commands that make and grow filesystems,
    and the formatter ported from BSD newfs -- function by function, and proves what makes
    it correct.  The port of fsck and the other commands around the library are not modelled.

    ** Conventions

    Effectful C functions are programs of the monad [M W] below: a world goes in, a result
    ([Ok] or the negated errno as [Err]) and the changed world come out, also when the
    result is an error.  Unsigned integers are values of [Z] with their wrap-around written
    where the code can reach it ([w8], [w16], [w32], [w64], [s64]); buffers and file
    contents are functions from offsets to bytes.  What the host answers -- allocation
    failures, short, interrupted and failing transfers, failures of the undo file -- is a
    script carried by the world, and a theorem covers every script unless it restricts
    them; "Assumptions" below lists those that do.  Preservation facts are instances of [Stable R m]: every run of [m], failing or not, relates the
    worlds before and after by the preorder [R]; [solve_stable] proves them structurally
    from the [stable] hint database.

    ** The parts, from the bottom up

    - Bytes.v: field readers and writers of layout.c and image.c, with round trips.
    - Backend.v: [struct nextufs_image_backend_ops] as the class [Backend], what clients
      rely on as the class [BackendSpec], the exact transfer loops of layout.c over host
      files, the raw backend.  The loops take as fuel the length of the script plus the
      bytes wanted; [write_exact_fd_correct] and [read_exact_fd_correct] show that it
      never runs out.
    - Disk.v: what an image is to its users, an abstract disk with its runs of requests.
    - Vdi.v, VdiOpen.v, VdiDisk.v, VdiParent.v: the VDI backend of image.c.  Vdi.v has the
      state, the transfers, the allocation of blocks with its rollback, the invariant, and
      the [BackendSpec] instance over any parent backend; VdiOpen.v decodes and checks
      header and block map; VdiDisk.v states the contract (runs of the abstract disk,
      reopening, termination); VdiParent.v is the search for the parent's file.
    - Qcow.v, QcowOpen.v, QcowCheck.v, QcowRead.v, QcowChain.v: the QCOW2 backend of
      qcow2.c.  Qcow.v has [struct qcow], reading, copy on write, the refcounts and their
      growth; QcowOpen.v header, extensions, validation and the chain of backing files;
      QcowCheck.v what validation establishes; QcowRead.v and QcowChain.v the disk an
      opened chain presents, with the class [ReadSpec] between the images of a chain.
    - QcowState.v, QcowAlloc.v, QcowRefs.v, QcowWrite.v, QcowDisk.v: writing to QCOW2
      images.  QcowState.v is the invariant: where tables lie, what every host cluster is
      used for, refcounts as numbers of uses, copied flags; QcowAlloc.v shows that new
      clusters, refcount blocks and the moving refcount table keep it, QcowRefs.v that
      dropping a reference does, QcowWrite.v that copy on write changes the disk as asked;
      QcowDisk.v starts from an opened file and states the contract.
    - Superblock.v: decoding and nextufs_image_validate, and the addresses of groups and
      inodes, which validation keeps inside the slice.
    - Image.v: [struct nextufs_image], checked reads and writes, transaction.c byte for
      byte, the dirty mark.  The rollback loop runs with the length of the undo file as
      fuel; [rollback_terminates] shows that more changes nothing.
    - Inode.v: the inode codec and inode slots.
    - CylGroup.v, Alloc.v, Groups.v: alloc.c.  CylGroup.v is what happens to a group
      header in memory (maps, run summary, rotational tables), Alloc.v reads, changes and
      writes one group and the totals, Groups.v is the search over all groups and its
      ENOSPC, proved for backends of the class [Roomy].
    - BlockMap.v, BlockLookup.v: direct and indirect block addresses, as image.c reads and
      alloc.c changes them, against the block map as a function.
    - FileIO.v: nextufs_inode_read_data and symbolic links of image.c, file_mutate.c.
    - Dirent.v, Directory.v: directory records and directories (layout.c, directory.c,
      dir_mutate.c).
    - Node.v, Path.v, Lookup.v: node.c and path.c; Lookup.v has the name space as a
      relation and the refinement of the lookup.
    - Label.v, Open.v: label.c, and finding a filesystem in an opened source (image.c).
    - Policy.v, Mutate.v, Session.v: mutate.c -- who may change what, the bodies of the
      path operations, the transactions and sessions around them.
    - Attributes.v, Transact.v: what chmod, chown and utimes change and for whom; what
      any operation leaves behind when it fails, one-shot or in a session.
    - Size.v: the numbers and sizes of command lines (size.c).
    - GrowGroups.v, Resize.v, GrowSafe.v, GrowPlan.v, GrowDisk.v: resize.c.  GrowGroups.v
      computes on group headers in memory (freeing a range, taking the enlarged summary
      area, new headers), Resize.v is the command from its arguments to its exit status;
      GrowSafe.v follows the undo log through it, GrowPlan.v is about the sizes and the
      superblock it computes, GrowDisk.v about the groups on the disk.
    - FormatPlan.v, Format.v: mkimg_format/.  FormatPlan.v is nextufs_format up to its last
      refusal (geometry, rotational tables, groups, inodes), Format.v the writing: the group
      headers of initcg, the first directories of fsinit, superblocks and summaries.
      FormatSuper.v proves what the next open makes of the superblock, FormatGroups.v what a
      new header says, FormatDisk.v what the whole run leaves on the disk, FormatFrame.v what
      no run touches, FormatRuns.v that it succeeds, FormatImage.v what the result is as an
      opened image.
    - MkImg.v, MkImgDisk.v: the mkimg command (mkimg.c, source.c) from its arguments to its
      exit status, and what it leaves: the target, the labels, the filesystem, as the
      opening of Open.v finds them.

    ** What the theorems show

    - Transactions: [one_shot_atomic], [session_history], [session_close_mark] over all
      operations of the path interface, on top of [rollback_restores],
      [rollback_terminates] and [clean_mark_protocol].
    - Storage: the transfer loops; VDI images refine an abstract disk
      ([vdi_requests_refine]), survive reopening ([vdi_reopen]) and their loops end
      ([vdi_transfers_terminate]); [vdi_find_parent_correct].  An accepted QCOW2 image has
      the refcounts its tables ask for ([validate_tables_sound]) and reads, with its backing
      files, as one disk ([qcow2_reads]); what is written to it refines the abstract disk
      and keeps refcounts and copied flags right, until a failure after which every write
      and sync is refused ([qcow2_requests_refine], [qcow2_writes_terminate]).
    - Layout: [validated_addresses_in_bounds], [inode_write_read],
      [opened_for_writing_sane], [label_write_path_correct].
    - Allocation: every allocator returns free, unreserved things, marks exactly them and
      keeps maps, run summary, group counters and totals in agreement; freeing undoes it;
      ENOSPC means full.
    - Block maps and files: [set_inode_data_block_correct], [lookups_agree],
      [inode_read_data_correct], [symlink_roundtrip].
    - Names: [insert_in_block_correct], [remove_in_dirblk_correct], [find_name_correct],
      [path_split_correct], [lookup_refines].
    - Policy: [check_access_correct], [chmod_correct], [chown_correct],
      [attributes_keep_types].
    - Growing: a pass that fails leaves the file as it was ([failed_grow_changes_nothing]); one that
      succeeds keeps all accounts and touches no file ([grow_groups_sound]); its superblock
      is valid within limits ([grown_superblock_valid]); [parse_size_bytes_correct].
    - Formatting: which filesystems a later open accepts ([formatted_superblock_valid]);
      for those the run succeeds on a host without failures ([format_succeeds]) and leaves
      groups whose accounts agree ([format_makes_sound_groups]: the hypothesis of the
      theorems on allocation and growing) and a root directory with lost+found
      ([format_makes_empty_tree]).
    - Making images: status 0 means that the image opens for writing, sound and under its
      label ([mkimg_image_opens]); on a host without failures an acceptable request ends so
      ([mkimg_succeeds]); targets that may not be overwritten are left alone
      ([mkimg_keeps_existing]).
    - Faults of the code, shown on small examples: [short_undo_write_corrupts],
      [device_enospc_leaks], [write_escapes_slice], [remove_after_free_record_corrupts],
      [grow_below_file_size_loses_data]; and in general: [boot_blocks_overwritten],
      [label_size_wraps].

    ** Assumptions

    Where a theorem needs more than the state of the program, the code is not right without
    it; each theorem says which of these it takes.
    - The undo file stays full once it is ([log_sticky]): after an fwrite to it has come up
      short, no later one succeeds.  When it fails first, how much it then took, ftello,
      and the reads of a rollback are free.  [rollback_restores], [one_shot_atomic],
      [session_history] and [failed_grow_changes_nothing] take it;
      [short_undo_write_corrupts] is a run with an undo file that fails once and then works.
    - The device does not answer ENOSPC ([Roomy]): [allocate_frags_anycg_correct],
      [enospc_means_full] and [set_inode_data_block_correct]; [device_enospc_leaks] is a
      run with a device that does.
    - The plan of a format [fits]: [format_makes_sound_groups], [format_makes_empty_tree]
      and [format_succeeds].  The formatter does not check it; [formatted_superblock_valid]
      shows that it decides whether the image can be opened again.
    - The target of a grow is not below the size of the file, and a slice with a label begins
      beyond the area scanned for labels: [failed_grow_changes_nothing];
      [grow_below_file_size_loses_data] is a run with a smaller target.
    - A host without failures, for statements that something succeeds: [format_succeeds],
      [mkimg_succeeds], the opening in [mkimg_image_opens] and [vdi_reopen], the last part
      of [qcow2_reads].

    ** Bounds and fuel

    Besides the two loops above: the VDI transfers take the size divided by the block size
    plus two as fuel ([vdi_transfers_terminate]), the QCOW2 transfers likewise
    and the loop of ensure_refcounts has one round for every cluster an image can have
    ([qcow2_reads] and [qcow2_writes_terminate] show that none of them runs out); walks over records of a directory block
    take its size, since every record accepted has a positive length; path lookup has
    the code's own depth limit of sixteen links, and the rest of the path as structural
    argument.  The block-wise walk over a range of fragments ([block_parts]) takes their
    number, since every part has at least one; how often a grow may start over after moving
    data is an argument of [resize_grow].  Loops over block, group or fragment numbers are
    folds over [seqZ].

    ** Not modelled

    - The recursion of nextufs_init_backend that opens the parent of a VDI image: its
      result is an argument.
    - Locks ([flock]), the closing of file descriptors, and concurrent processes.
    - info.c, report.c: printing.  Of mkimg the host's side (does the target exist, which
      calls on it fail) is a record of answers, [target_host].
    - The other commands and the FUSE mount; the port of fsck (fsck/), which keeps its own
      buffer cache and global tables and shares no code with the core.
    - Of the formatter: the printed messages, and separate descriptors for reading and
      writing: both are the one host file.  Its [int] arithmetic is exact; the ranges
      nextufs_mkimg_main requires exclude an overflow but for the product fs_ncyl * fs_spc
      of a last group that is given up within one cylinder of 2 TiB, which C leaves
      undefined ([trim_product]).  A plan with that overflow does not fit.
    - The effect of create, unlink, link and rename on the name space as a whole is
      modelled but not yet stated as a theorem; their parts are. *)
From stdpp Require Export base numbers list.
From Stdlib Require Export ZArith Lia.
#[global] Open Scope Z_scope.
#[global] Set Default Goal Selector "!".

Declare Scope nextufs_scope.
Delimit Scope nextufs_scope with nextufs.
#[global] Open Scope nextufs_scope.

(** ** Error codes: the errno values the sources return (negated) *)
Inductive errno :=
  | EPERM | ENOENT | EINTR | EIO | ENOMEM | EACCES | EEXIST | ENOTDIR | EISDIR
  | EINVAL | EFBIG | ENOSPC | EROFS | EMLINK | ENAMETOOLONG | ENOTEMPTY | ELOOP
  | EOVERFLOW | EUCLEAN | ESTALE | ENOTSUP | ECANCELED
  | EOther (code : Z).

#[export] Instance errno_eq_dec : EqDecision errno.
Proof. solve_decision. Defined.

(** A C routine returning [int]: [0] (with its out-parameters) or [-errno]. *)
Inductive result (A : Type) :=
  | Ok (a : A)
  | Err (e : errno).
Arguments Ok {A} a.
Arguments Err {A} e.

#[export] Instance result_eq_dec `{EqDecision A} : EqDecision (result A).
Proof. solve_decision. Defined.

Definition is_ok {A} (r : result A) : bool :=
  match r with Ok _ => true | Err _ => false end.

(** ** The state-and-error monad: a failure keeps the state reached so far *)
Definition M (W A : Type) : Type := W -> result A * W.

Definition ret {W A} (a : A) : M W A := fun w => (Ok a, w).
Definition fail {W A} (e : errno) : M W A := fun w => (Err e, w).
Definition bind {W A B} (m : M W A) (k : A -> M W B) : M W B :=
  fun w => match m w with
           | (Ok a, w1) => k a w1
           | (Err e, w1) => (Err e, w1)
           end.
(** The caller inspects the return code itself. *)
Definition attempt {W A} (m : M W A) : M W (result A) :=
  fun w => let (r, w1) := m w in (Ok r, w1).
Definition of_result {W A} (r : result A) : M W A := fun w => (r, w).
Definition fail_if {W} (b : bool) (e : errno) : M W unit :=
  if b then fail e else ret tt.

Notation "'let!' x ':=' m 'in' k" := (bind m (fun x => k))
  (at level 10, x name, m at level 100, k at level 200,
   format "'[v' 'let!'  x  ':='  m  'in' '/' k ']'") : nextufs_scope.
Notation "'let!' ' p ':=' m 'in' k" := (bind m (fun p => k))
  (at level 10, p strict pattern, m at level 100, k at level 200)
  : nextufs_scope.
Notation "m ;;; k" := (bind m (fun _ => k))
  (at level 100, k at level 200, right associativity,
   format "'[v' m ';;;' '/' k ']'") : nextufs_scope.

(** Loops over an index range, without and with an accumulator. *)
Fixpoint for_each {W A} (l : list A) (f : A -> M W unit) : M W unit :=
  match l with
  | [] => ret tt
  | x :: l => bind (f x) (fun _ => for_each l f)
  end.
Fixpoint fold_each {W A B} (l : list A) (f : A -> B -> M W B) (b : B) : M W B :=
  match l with
  | [] => ret b
  | x :: l => bind (f x b) (fun b => fold_each l f b)
  end.

(** The same with an early exit: [true] stops the loop. *)
Fixpoint fold_until {W A B} (l : list A) (f : A -> B -> M W (B * bool)) (b : B) : M W (B * bool) :=
  match l with
  | [] => ret (b, false)
  | x :: l => bind (f x b) (fun r => if snd r then ret r else fold_until l f (fst r))
  end.

(** Replace an error code by another one: [if (f(...) < 0) return -E]. *)
Definition map_err {W A} (e : errno) (m : M W A) : M W A :=
  fun w => match m w with
           | (Ok a, w1) => (Ok a, w1)
           | (Err _, w1) => (Err e, w1)
           end.

(** ** Fixed-width integers *)
Definition w8 (z : Z) : Z := z mod 2 ^ 8.
Definition w16 (z : Z) : Z := z mod 2 ^ 16.
Definition w32 (z : Z) : Z := z mod 2 ^ 32.
Definition w64 (z : Z) : Z := z mod 2 ^ 64.
(** Conversion to a signed 64-bit [off_t]. *)
Definition s64 (z : Z) : Z := (z + 2 ^ 63) mod 2 ^ 64 - 2 ^ 63.
Definition UINT64_MAX : Z := 2 ^ 64 - 1.
Definition INT32_MAX : Z := 2 ^ 31 - 1.
Definition INT16_MAX : Z := 2 ^ 15 - 1.

(** ** Inversion of monadic runs *)
Section monad.
Context {W A B : Type}.
Implicit Types (m : M W A) (k : A -> M W B) (w : W).

Lemma bind_ok m k w b w' :
  bind m k w = (Ok b, w') ->
  exists a w1, m w = (Ok a, w1) /\ k a w1 = (Ok b, w').
Proof. unfold bind. destruct (m w) as [[a|e] w1] eqn:E; naive_solver. Qed.

Lemma bind_inv m k w r w' :
  bind m k w = (r, w') ->
  (exists a w1, m w = (Ok a, w1) /\ k a w1 = (r, w')) \/
  (exists e, m w = (Err e, w') /\ r = Err e).
Proof. unfold bind. destruct (m w) as [[a|e] w1] eqn:E; naive_solver. Qed.

Lemma attempt_inv m w r w' :
  attempt m w = (r, w') -> exists x, r = Ok x /\ m w = (x, w').
Proof. unfold attempt. destruct (m w) as [x w1]. intros [= <- <-]. eauto. Qed.

Lemma map_err_ok e m w a w' :
  map_err e m w = (Ok a, w') -> m w = (Ok a, w').
Proof. unfold map_err. destruct (m w) as [[?|?] ?]; naive_solver. Qed.

Lemma bind_run m k w a w1 : m w = (Ok a, w1) -> bind m k w = k a w1.
Proof. unfold bind. intros ->. done. Qed.

Lemma bind_assoc {D} m k (l : B -> M W D) w :
  bind m (fun a => bind (k a) l) w = bind (bind m k) l w.
Proof. unfold bind. by destruct (m w) as [[?|?] ?]. Qed.

Lemma bind_err m k w e w1 : m w = (Err e, w1) -> bind m k w = (Err e, w1).
Proof. unfold bind. intros ->. done. Qed.
End monad.

Lemma fail_if_ok {W} b e (w : W) u w' :
  fail_if b e w = (Ok u, w') -> b = false /\ w' = w.
Proof. unfold fail_if, fail, ret. destruct b; naive_solver. Qed.

(** One step of symbolic execution of a successful run in a hypothesis. *)
Ltac inv_step H :=
  lazymatch type of H with
  | bind _ _ _ = (Ok _, _) =>
      let a := fresh "a" in let w1 := fresh "w" in
      let H1 := fresh "Hrun" in
      apply bind_ok in H as (a & w1 & H1 & H)
  | ret _ _ = _ => unfold ret in H; simplify_eq
  | fail _ _ = _ => unfold fail in H; simplify_eq
  | fail_if _ _ _ = (Ok _, _) => apply fail_if_ok in H as [? ?]; subst
  | of_result _ _ = _ => unfold of_result in H; simplify_eq
  | attempt _ _ = _ =>
      let x := fresh "x" in let H1 := fresh "Hrun" in
      apply attempt_inv in H as (x & ? & H1); simplify_eq
  | map_err _ _ _ = (Ok _, _) => apply map_err_ok in H
  end.

(** ** Preservation: every run of [m], failing or not, relates the worlds by a
    preorder.  Invariants and frame conditions are all stated this way. *)
Class Stable {W A} (R : W -> W -> Prop) (m : M W A) : Prop :=
  stable : forall w r w', m w = (r, w') -> R w w'.

Create HintDb stable.
#[export] Hint Constants Opaque : stable.

Section stable.
Context {W : Type} (R : W -> W -> Prop) `{!PreOrder R}.

Lemma stable_ret {A} (a : A) : Stable R (ret a).
Proof. intros w r w' [= <- <-]. reflexivity. Qed.
Lemma stable_fail {A} e : Stable R (fail (A:=A) e).
Proof. intros w r w' [= <- <-]. reflexivity. Qed.
Lemma stable_of_result {A} (x : result A) : Stable R (of_result x).
Proof. intros w r w' [= <- <-]. reflexivity. Qed.
Lemma stable_fail_if b e : Stable R (fail_if b e).
Proof. destruct b; [apply stable_fail | apply stable_ret]. Qed.
Lemma stable_bind {A B} (m : M W A) (k : A -> M W B) :
  Stable R m -> (forall a, Stable R (k a)) -> Stable R (bind m k).
Proof.
  intros Hm Hk w r w' H. apply bind_inv in H as [(a & w1 & H1 & H2)|(e & H1 & _)].
  - etrans; [by eapply Hm | by eapply Hk].
  - by eapply Hm.
Qed.
Lemma stable_attempt {A} (m : M W A) : Stable R m -> Stable R (attempt m).
Proof. intros Hm w r w' H. apply attempt_inv in H as (x & _ & H). by eapply Hm. Qed.
Lemma stable_for_each {A} (l : list A) (f : A -> M W unit) :
  (forall x, Stable R (f x)) -> Stable R (for_each l f).
Proof.
  intros Hf. induction l as [|x l IH]; cbn; [apply stable_ret|].
  apply stable_bind; [apply Hf|]. by intros _.
Qed.
Lemma stable_fold_each_in {A B} (l : list A) (f : A -> B -> M W B) : forall b,
  (forall x b, x ∈ l -> Stable R (f x b)) -> Stable R (fold_each l f b).
Proof.
  induction l as [|x l IH]; intros b Hf; cbn; [apply stable_ret|].
  apply stable_bind; [apply Hf; by left|]. intros b'. apply IH. intros y c Hy. apply Hf. by right.
Qed.
Lemma stable_fold_each {A B} (l : list A) (f : A -> B -> M W B) : forall b,
  (forall x b, Stable R (f x b)) -> Stable R (fold_each l f b).
Proof. intros b Hf. apply stable_fold_each_in. auto. Qed.
Lemma stable_fold_until {A B} (l : list A) (f : A -> B -> M W (B * bool)) : forall b,
  (forall x b, Stable R (f x b)) -> Stable R (fold_until l f b).
Proof.
  intros b Hf. revert b. induction l as [|x l IH]; intros b; cbn; [apply stable_ret|].
  apply stable_bind; [apply Hf|]. intros [b' [|]]; cbn; [apply stable_ret|done].
Qed.
Lemma stable_map_err {A} e (m : M W A) : Stable R m -> Stable R (map_err e m).
Proof.
  intros Hm w r w' H. unfold map_err in H.
  destruct (m w) as [[?|?] ?] eqn:E; simplify_eq; by eapply Hm.
Qed.
End stable.
#[export] Hint Resolve stable_ret stable_fail stable_of_result stable_fail_if
  stable_attempt stable_map_err : stable.

(** Structural proof that a program preserves [R]; leaves go to [stable]. *)
Ltac stable_step :=
  lazymatch goal with
  | |- Stable _ (bind _ _) =>
      apply stable_bind; [by typeclasses eauto with typeclass_instances| |]
  | |- Stable _ (ret _) => apply stable_ret; by typeclasses eauto with typeclass_instances
  | |- Stable _ (fail _) => apply stable_fail; by typeclasses eauto with typeclass_instances
  | |- Stable _ (of_result _) =>
      apply stable_of_result; by typeclasses eauto with typeclass_instances
  | |- Stable _ (fail_if _ _) =>
      apply stable_fail_if; by typeclasses eauto with typeclass_instances
  | |- Stable _ (attempt _) => apply stable_attempt
  | |- Stable _ (map_err _ _) => apply stable_map_err
  | |- Stable _ (for_each _ _) =>
      apply stable_for_each; [by typeclasses eauto with typeclass_instances|]
  | |- Stable _ (fold_each _ _ _) =>
      apply stable_fold_each; [by typeclasses eauto with typeclass_instances|]
  | |- Stable _ (fold_until _ _ _) =>
      apply stable_fold_until; [by typeclasses eauto with typeclass_instances|]
  | |- Stable _ (match _ with _ => _ end) => case_match
  | |- Stable _ (let _ := _ in _) => cbv zeta
  | |- Stable _ _ => solve [eauto with stable]
  | |- forall _, _ => intro
  end.
Ltac solve_stable := repeat stable_step.

(** Boolean tests that failed, as facts of arithmetic. *)
Ltac bool_to_prop :=
  repeat match goal with
         | H : negb _ = false |- _ => apply negb_false_iff in H
         | H : (_ =? _) = true |- _ => apply Z.eqb_eq in H
         | H : (_ =? _) = false |- _ => apply Z.eqb_neq in H
         | H : (_ <? _) = false |- _ => apply Z.ltb_ge in H
         | H : (_ <=? _) = false |- _ => apply Z.leb_gt in H
         | H : (_ || _) = false |- _ => apply orb_false_iff in H; destruct H
         | H : (_ && _) = false |- _ => clear H
         end.

(** ** Iteration *)

(** [for (i = 0; i < n; i++)] with an early exit carrying a value. *)
Definition find_first {A} (f : Z -> option A) (l : list Z) : option A :=
  foldr (fun i acc => match f i with Some a => Some a | None => acc end) None l.

Lemma find_first_some {A} (f : Z -> option A) l a :
  find_first f l = Some a ->
  exists l1 i l2, l = l1 ++ i :: l2 /\ f i = Some a /\ Forall (fun j => f j = None) l1.
Proof.
  induction l as [|i l IH]; [done|]. cbn. destruct (f i) eqn:E.
  - intros [= ->]. exists [], i, l. auto.
  - intros (l1 & j & l2 & -> & Hj & Hall)%IH.
    exists (i :: l1), j, l2. split_and!; [done|done|by constructor].
Qed.

Lemma find_first_none {A} (f : Z -> option A) l :
  find_first f l = None <-> Forall (fun j => f j = None) l.
Proof.
  induction l as [|i l IH]; [done|]. cbn. rewrite Forall_cons, <- IH.
  destruct (f i); naive_solver.
Qed.

Lemma find_first_ext {A} (f g : Z -> option A) l :
  (forall i, i ∈ l -> f i = g i) -> find_first f l = find_first g l.
Proof.
  induction l as [|i l IH]; intros H; cbn; [done|]. rewrite H by by left.
  destruct (g i); [done|]. apply IH. intros j Hj. apply H. by right.
Qed.
Lemma find_first_at {A} (f : Z -> option A) i (a : A) n :
  0 <= i < n -> f i = Some a -> (forall j, 0 <= j < i -> f j = None) ->
  find_first f (seqZ 0 n) = Some a.
Proof.
  intros Hi Hf Hbefore. destruct (find_first f (seqZ 0 n)) as [b|] eqn:E.
  - apply find_first_some in E as (l1 & j & l2 & Hl & Hj & Hall).
    assert (Hjl : 0 <= j < n).
    { assert (H : j ∈ seqZ 0 n) by (rewrite Hl, elem_of_app, elem_of_cons; auto).
      apply elem_of_seqZ in H. lia. }
    destruct (decide (j < i)) as [Hlt|Hge]; [rewrite Hbefore in Hj by lia; done|].
    destruct (decide (j = i)) as [->|Hne]; [congruence|]. exfalso.
    assert (Hin : i ∈ l1).
    { assert (H : i ∈ l1 ++ j :: l2) by (rewrite <- Hl; apply elem_of_seqZ; lia).
      apply elem_of_app in H as [|[->|H]%elem_of_cons]; [done|done|]. exfalso.
      assert (Hlk : exists a b, (a < b)%nat /\ seqZ 0 n !! a = Some j /\ seqZ 0 n !! b = Some i).
      { apply list_elem_of_lookup in H as [k Hk]. exists (length l1), (length l1 + S k)%nat.
        rewrite Hl. split; [lia|]. split; [by apply list_lookup_middle|].
        rewrite lookup_app_r by lia. by replace (length l1 + S k - length l1)%nat with (S k) by lia. }
      destruct Hlk as (p & q & Hpq & Hp & Hq). apply lookup_seqZ in Hp, Hq. lia. }
    rewrite Forall_forall in Hall. rewrite (Hall i Hin) in Hf. done.
  - apply find_first_none in E. rewrite Forall_forall in E.
    rewrite (E i) in Hf; [done|]. apply elem_of_seqZ. lia.
Qed.

(** ** Arithmetic facts used throughout *)
Lemma wrap_small n z : 0 <= z < 2 ^ n -> z mod 2 ^ n = z.
Proof. intros. by apply Z.mod_small. Qed.

Lemma w32_small z : 0 <= z < 2 ^ 32 -> w32 z = z.
Proof. apply wrap_small. Qed.
Lemma w32_range z : 0 <= w32 z < 2 ^ 32.
Proof. by apply Z.mod_pos_bound. Qed.
Lemma w64_small z : 0 <= z < 2 ^ 64 -> w64 z = z.
Proof. apply wrap_small. Qed.
Lemma s64_small z : - 2 ^ 63 <= z < 2 ^ 63 -> s64 z = z.
Proof. intros. unfold s64. rewrite Z.mod_small; lia. Qed.
Lemma w8_range z : 0 <= w8 z < 2 ^ 8.
Proof. by apply Z.mod_pos_bound. Qed.
Lemma w16_range z : 0 <= w16 z < 2 ^ 16.
Proof. by apply Z.mod_pos_bound. Qed.
Lemma w32_w32 z : w32 (w32 z) = w32 z.
Proof. apply Z.mod_mod. lia. Qed.
Lemma w32_add_l a b : w32 (w32 a + b) = w32 (a + b).
Proof. unfold w32. apply Zplus_mod_idemp_l. Qed.

#[export] Hint Resolve w32_range w8_range w16_range : core.

(** ** Finite sums *)
Definition sumZ (f : Z -> Z) (n : Z) : Z := foldr (fun k acc => f k + acc) 0 (seqZ 0 n).

Lemma foldr_sum_ext (f g : Z -> Z) l :
  (forall k, k ∈ l -> f k = g k) ->
  foldr (fun k acc => f k + acc) 0 l = foldr (fun k acc => g k + acc) 0 l.
Proof.
  induction l as [|k l IH]; intros H; cbn; [done|].
  rewrite H by (by left). rewrite IH; [done|]. intros ??. apply H. by right.
Qed.
Lemma sumZ_ext f g n : (forall k, 0 <= k < n -> f k = g k) -> sumZ f n = sumZ g n.
Proof.
  intros H. apply foldr_sum_ext. intros k Hk%elem_of_seqZ. apply H. lia.
Qed.
Lemma foldr_sum_update (f g : Z -> Z) l k :
  NoDup l -> k ∈ l -> (forall j, j ∈ l -> j <> k -> f j = g j) ->
  foldr (fun k acc => g k + acc) 0 l = foldr (fun k acc => f k + acc) 0 l - f k + g k.
Proof.
  induction 1 as [|x l Hx Hl IH]; [by intros ?%elem_of_nil|].
  intros [->|Hk]%elem_of_cons Hfg; cbn.
  - rewrite (foldr_sum_ext g f l); [lia|]. intros j Hj. symmetry.
    apply Hfg; [by right|]. by intros ->.
  - rewrite IH; [|done|].
    + rewrite (Hfg x); [lia|by left|]. by intros ->.
    + intros j Hj. apply Hfg. by right.
Qed.
Lemma sumZ_update f g n k :
  0 <= k < n -> (forall j, 0 <= j < n -> j <> k -> f j = g j) ->
  sumZ g n = sumZ f n - f k + g k.
Proof.
  intros Hk H. apply foldr_sum_update; [apply NoDup_seqZ|apply elem_of_seqZ; lia|].
  intros j Hj%elem_of_seqZ. apply H. lia.
Qed.
Lemma foldr_sum_bounds (f : Z -> Z) m l :
  (forall k, 0 <= f k <= m) ->
  0 <= foldr (fun k acc => f k + acc) 0 l <= m * Z.of_nat (length l).
Proof.
  intros Hf. induction l as [|k l IH]; cbn [foldr length]; [lia|]. specialize (Hf k). lia.
Qed.
Lemma sumZ_bounds f m n :
  0 <= n -> (forall k, 0 <= f k <= m) -> 0 <= sumZ f n <= m * n.
Proof.
  intros Hn Hf. pose proof (foldr_sum_bounds f m (seqZ 0 n) Hf) as H.
  rewrite length_seqZ, Z2Nat.id in H by done. done.
Qed.
Lemma sumZ_term f n k :
  0 <= k < n -> (forall j, 0 <= f j) -> f k <= sumZ f n.
Proof.
  intros Hk Hf.
  rewrite (sumZ_update (fun j => if decide (j = k) then 0 else f j) f n k Hk).
  - rewrite decide_True by done.
    enough (0 <= sumZ (fun j => if decide (j = k) then 0 else f j) n) by lia.
    unfold sumZ. induction (seqZ 0 n) as [|x l IH]; cbn; [lia|].
    destruct (decide (x = k)); [lia|]. specialize (Hf x). lia.
  - intros j _ Hj. by rewrite decide_False.
Qed.

(** ** Loop invariants over an index range *)
Lemma seqZ_snoc m n : 0 <= n -> seqZ m (n + 1) = seqZ m n ++ [m + n].
Proof. intros. rewrite seqZ_app by lia. f_equal. Qed.
Lemma sumZ_snoc f n : 0 <= n -> sumZ f (n + 1) = sumZ f n + f n.
Proof.
  intros Hn. unfold sumZ. rewrite seqZ_snoc, foldr_app by done. rewrite Z.add_0_l. cbn [foldr].
  generalize (seqZ 0 n). intros l. induction l as [|k l IH]; cbn [foldr]; [lia|].
  rewrite IH. lia.
Qed.
Lemma sumZ_ones n : 0 <= n -> sumZ (fun _ => 1) n = n.
Proof.
  apply (natlike_ind (fun n => sumZ (fun _ => 1) n = n)); [done|].
  intros k Hk IH. rewrite <- Z.add_1_r, sumZ_snoc, IH by done. done.
Qed.
(** Terms that vanish from [n] on add nothing. *)
Lemma sumZ_tail f n m : 0 <= n <= m -> (forall k, n <= k < m -> f k = 0) -> sumZ f m = sumZ f n.
Proof.
  intros Hn Hf.
  assert (H : forall d, 0 <= d -> n + d <= m -> sumZ f (n + d) = sumZ f n).
  { apply (natlike_ind (fun d => n + d <= m -> sumZ f (n + d) = sumZ f n)).
    - intros _. by rewrite Z.add_0_r.
    - intros d Hd IH Hle. rewrite <- Z.add_1_r, Z.add_assoc, sumZ_snoc, IH by lia.
      rewrite Hf by lia. lia. }
  replace m with (n + (m - n)) by lia. apply H; lia.
Qed.
Lemma fold_each_inv {W B} (P : Z -> B -> W -> Prop) (f : Z -> B -> M W B) : forall n a b w b' w',
  0 <= n -> P a b w ->
  (forall i b w b' w', a <= i < a + n -> P i b w -> f i b w = (Ok b', w') -> P (i + 1) b' w') ->
  fold_each (seqZ a n) f b w = (Ok b', w') -> P (a + n) b' w'.
Proof.
  intros n a b w b' w' Hn HP Hstep H. remember (seqZ a n) as l eqn:Hl.
  revert a n b w Hn HP Hstep Hl H. induction l as [|x l IH]; intros a n b w Hn HP Hstep Hl H.
  - cbn in H. unfold ret in H. simplify_eq. assert (n = 0) as ->.
    { assert (Hlen : length (seqZ a n) = 0%nat) by by rewrite <- Hl.
      rewrite length_seqZ in Hlen. lia. }
    by rewrite Z.add_0_r.
  - destruct (decide (n = 0)) as [->|Hn0]; [done|].
    rewrite seqZ_cons in Hl by lia. injection Hl as -> Hl. cbn [fold_each] in H. inv_step H.
    replace (a + n) with (Z.succ a + Z.pred n) by lia.
    apply (IH (Z.succ a) (Z.pred n) a0 w0); [lia| |intros i b1 w1 b2 w2 Hi; apply Hstep; lia|
      done|done].
    replace (Z.succ a) with (a + 1) by lia. eapply Hstep; [lia|exact HP|exact Hrun].
Qed.
Lemma for_each_inv {W} (P : Z -> W -> Prop) (f : Z -> M W unit) n a w w' :
  0 <= n -> P a w ->
  (forall i w w', a <= i < a + n -> P i w -> f i w = (Ok tt, w') -> P (i + 1) w') ->
  for_each (seqZ a n) f w = (Ok tt, w') -> P (a + n) w'.
Proof.
  intros Hn HP Hstep H.
  apply (fold_each_inv (fun i (_ : unit) w => P i w) (fun i _ => f i) n a tt w tt w');
    [done|done|intros i [] w1 [] w2; apply Hstep|].
  rewrite <- H. clear. generalize (seqZ a n). intros l. revert w.
  induction l as [|x l IH]; intros w; cbn; [done|]. unfold bind.
  destruct (f x w) as [[[]|e] w1]; [apply IH|done].
Qed.
Lemma fold_until_inv {W A B} (P : B -> W -> Prop) (f : A -> B -> M W (B * bool)) l : forall b w r w',
  P b w -> (forall x b w r w', P b w -> f x b w = (Ok r, w') -> P (fst r) w') ->
  fold_until l f b w = (Ok r, w') -> P (fst r) w'.
Proof.
  induction l as [|x l IH]; intros b w r w' HP Hstep H; cbn [fold_until] in H.
  { injection H as <- <-. done. }
  inv_step H. specialize (Hstep _ _ _ _ _ HP Hrun) as HP'. destruct (snd a).
  - injection H as <- <-. done.
  - by eapply IH.
Qed.

(** ** Transfers cut at block boundaries *)

(** The blocks of [off, off + n) that are left after [got] bytes *)
Definition blocks_left (bs n off got : Z) : Z :=
  if got <? n then (off + n - 1) / bs - (off + got) / bs + 1 else 0.
Lemma blocks_left_bounds bs n off got : 0 < bs -> 0 <= blocks_left bs n off got /\
  (got < n -> 1 <= blocks_left bs n off got).
Proof.
  intros Hb. unfold blocks_left. destruct (Z.ltb_spec got n); [|lia].
  pose proof (Z.div_le_mono (off + got) (off + n - 1) bs ltac:(lia) ltac:(lia)). lia.
Qed.
Lemma blocks_left_step bs n off got (c := Z.min (bs - (off + got) mod bs) (n - got)) :
  0 < bs -> got < n -> 0 < c /\ blocks_left bs n off (got + c) <= blocks_left bs n off got - 1.
Proof.
  intros Hb Hg. pose proof (Z.mod_pos_bound (off + got) bs Hb) as Hm. split; [lia|].
  unfold blocks_left. destruct (Z.ltb_spec got n); [|lia].
  pose proof (Z.div_le_mono (off + got) (off + n - 1) bs ltac:(lia) ltac:(lia)).
  destruct (Z.ltb_spec (got + c) n); [|lia].
  replace ((off + (got + c)) / bs) with ((off + got) / bs + 1); [lia|].
  apply (Z.div_unique_pos _ _ _ 0); [lia|].
  pose proof (Z.div_mod (off + got) bs ltac:(lia)). lia.
Qed.
Lemma blocks_left_shift bs n off c : blocks_left bs (n - c) (off + c) 0 = blocks_left bs n off c.
Proof.
  unfold blocks_left. rewrite Z.add_0_r. replace (off + c + (n - c) - 1) with (off + n - 1) by lia.
  destruct (Z.ltb_spec 0 (n - c)), (Z.ltb_spec c n); (lia || done).
Qed.
Lemma blocks_left_fuel bs n off : 0 < bs -> 0 <= n -> blocks_left bs n off 0 <= n / bs + 2.
Proof.
  intros Hb Hn. unfold blocks_left. pose proof (Z.div_pos n bs Hn ltac:(lia)) as Hq.
  destruct (Z.ltb_spec 0 n); [|lia]. rewrite Z.add_0_r.
  assert ((off + n - 1) / bs <= off / bs + n / bs + 1); [|lia].
  pose proof (Z.div_mod (off + n - 1) bs ltac:(lia)).
  pose proof (Z.mod_pos_bound (off + n - 1) bs ltac:(lia)).
  pose proof (Z.div_mod off bs ltac:(lia)).
  pose proof (Z.mod_pos_bound off bs ltac:(lia)).
  pose proof (Z.div_mod n bs ltac:(lia)).
  pose proof (Z.mod_pos_bound n bs ltac:(lia)). nia.
Qed.
(** Positions inside one block *)
Lemma in_block bs g i : 0 < bs -> 0 <= i < bs - g mod bs ->
  (g + i) / bs = g / bs /\ (g + i) mod bs = g mod bs + i.
Proof.
  intros Hb Hi. pose proof (Z.mod_pos_bound g bs Hb). pose proof (Z.div_mod g bs ltac:(lia)) as Hg.
  replace (g + i) with ((g mod bs + i) + (g / bs) * bs) by lia.
  rewrite Z.div_add, Z.mod_add by lia. rewrite Z.div_small, Z.mod_small by lia. lia.
Qed.
