(* ===== verification/Bytes.v ===== *)
(** * Byte buffers and integer codecs

    A C byte array (or the contents of a file) is a function from offsets to
    byte values.  Pointer arithmetic [p + off] is [slice].  The big-endian
    accessors are those of src/src/core/layout.c, the little-endian ones and
    [read_be64] those of src/src/core/image.c. *)
From S2P Require Import Prelude.

Definition buf : Type := Z -> Z.

Definition zeros : buf := fun _ => 0.
Definition upd (b : buf) (i v : Z) : buf := fun j => if j =? i then w8 v else b j.
Definition slice (b : buf) (off : Z) : buf := fun i => b (off + i).
(** [memcpy(dst + off, src, n)] *)
Definition blit (dst : buf) (off : Z) (src : buf) (n : Z) : buf :=
  fun i => if (off <=? i) && (i <? off + n) then src (i - off) else dst i.
(** [memset(dst + off, v, n)] *)
Definition fill (dst : buf) (off v n : Z) : buf := blit dst off (fun _ => w8 v) n.

Definition read_be16 (p : buf) (off : Z) : Z :=
  Z.lor (Z.shiftl (p off) 8) (p (off + 1)).
Definition read_be32 (p : buf) (off : Z) : Z :=
  Z.lor (Z.lor (Z.lor (Z.shiftl (p off) 24) (Z.shiftl (p (off + 1)) 16))
           (Z.shiftl (p (off + 2)) 8)) (p (off + 3)).
Definition read_be64 (p : buf) (off : Z) : Z :=
  Z.lor (Z.shiftl (read_be32 p off) 32) (read_be32 p (off + 4)).
Definition read_le32 (p : buf) (off : Z) : Z :=
  Z.lor (Z.lor (Z.lor (p off) (Z.shiftl (p (off + 1)) 8))
           (Z.shiftl (p (off + 2)) 16)) (Z.shiftl (p (off + 3)) 24).
Definition read_le64 (p : buf) (off : Z) : Z :=
  Z.lor (read_le32 p off) (Z.shiftl (read_le32 p (off + 4)) 32).

Definition write_be16 (p : buf) (off v : Z) : buf :=
  let p := upd p off (Z.shiftr v 8) in
  upd p (off + 1) v.
Definition write_be32 (p : buf) (off v : Z) : buf :=
  let p := upd p off (Z.shiftr v 24) in
  let p := upd p (off + 1) (Z.shiftr v 16) in
  let p := upd p (off + 2) (Z.shiftr v 8) in
  upd p (off + 3) v.
Definition write_be64 (p : buf) (off v : Z) : buf :=
  let p := write_be32 p off (w32 (Z.shiftr v 32)) in
  write_be32 p (off + 4) (w32 v).
Definition write_le32 (p : buf) (off v : Z) : buf :=
  let p := upd p off v in
  let p := upd p (off + 1) (Z.shiftr v 8) in
  let p := upd p (off + 2) (Z.shiftr v 16) in
  upd p (off + 3) (Z.shiftr v 24).
(** The native layout of a 64-bit integer of a C struct (little-endian host). *)
Definition write_le64 (p : buf) (off v : Z) : buf :=
  let p := write_le32 p off (w32 v) in
  write_le32 p (off + 4) (w32 (Z.shiftr v 32)).

(** ** Equality of buffers is pointwise; on a window it is [eq_on] *)
#[export] Instance buf_equiv : Equiv buf := pointwise_relation Z eq.
#[export] Instance buf_equivalence : Equivalence (≡@{buf}).
Proof. unfold equiv, buf_equiv. apply _. Qed.

Definition eq_on (off n : Z) (a b : buf) : Prop :=
  forall i, off <= i < off + n -> a i = b i.

(** Every element of the buffer is a byte. *)
Definition wf_buf (b : buf) : Prop := forall i, 0 <= b i < 2 ^ 8.

#[export] Instance slice_proper : Proper ((≡) ==> (=) ==> (≡)) slice.
Proof. intros a b Hab i ? <- j. apply Hab. Qed.
#[export] Instance blit_proper :
  Proper ((≡) ==> (=) ==> (≡) ==> (=) ==> (≡)) blit.
Proof.
  intros a b Hab o ? <- s t Hst n ? <- i. unfold blit.
  case_match; [apply Hst | apply Hab].
Qed.
#[export] Instance upd_proper : Proper ((≡) ==> (=) ==> (=) ==> (≡)) upd.
Proof. intros a b Hab i ? <- v ? <- j. unfold upd. case_match; [done|apply Hab]. Qed.
#[export] Instance wf_buf_proper : Proper ((≡) ==> iff) wf_buf.
Proof. intros a b Hab. split; intros H i; [rewrite <- (Hab i)|rewrite (Hab i)]; apply H. Qed.

(** Case analysis on a read of an updated or copied buffer. *)
Ltac buf_solve :=
  unfold upd, blit, fill, slice, zeros in *;
  repeat (case_match; try lia); try done; try (f_equal; lia).

Lemma upd_same b i v : upd b i v i = w8 v.
Proof. unfold upd. by rewrite Z.eqb_refl. Qed.
Lemma upd_other b i j v : i <> j -> upd b i v j = b j.
Proof. intros. buf_solve. Qed.
Lemma blit_in dst off src n i :
  off <= i < off + n -> blit dst off src n i = src (i - off).
Proof. intros. buf_solve. Qed.
Lemma blit_out dst off src n i :
  ~ (off <= i < off + n) -> blit dst off src n i = dst i.
Proof. intros. buf_solve. Qed.

Lemma wf_zeros : wf_buf zeros.
Proof. intros i. unfold zeros. lia. Qed.
Lemma wf_upd b i v : wf_buf b -> wf_buf (upd b i v).
Proof. intros H j. unfold upd. case_match; [apply w8_range | apply H]. Qed.
Lemma wf_slice b off : wf_buf b -> wf_buf (slice b off).
Proof. intros H i. apply H. Qed.
Lemma wf_blit dst off src n : wf_buf dst -> wf_buf src -> wf_buf (blit dst off src n).
Proof. intros H1 H2 i. unfold blit. case_match; auto. Qed.
Lemma wf_fill dst off v n : wf_buf dst -> wf_buf (fill dst off v n).
Proof. intros H. apply wf_blit; [done|]. intros i. apply w8_range. Qed.
Lemma wf_write_be16 b off v : wf_buf b -> wf_buf (write_be16 b off v).
Proof. intros. by repeat apply wf_upd. Qed.
Lemma wf_write_be32 b off v : wf_buf b -> wf_buf (write_be32 b off v).
Proof. intros. by repeat apply wf_upd. Qed.
Lemma wf_write_be64 b off v : wf_buf b -> wf_buf (write_be64 b off v).
Proof. intros. by repeat apply wf_upd. Qed.
Lemma wf_write_le32 b off v : wf_buf b -> wf_buf (write_le32 b off v).
Proof. intros. by repeat apply wf_upd. Qed.
Create HintDb bytes.
#[export] Hint Resolve wf_zeros wf_upd wf_slice wf_blit wf_fill wf_write_be16 wf_write_le32
  wf_write_be32 wf_write_be64 : bytes.

(** ** Codecs as sums of powers of 256 *)
Lemma lor_add a b n :
  0 <= n -> 0 <= b < 2 ^ n -> Z.lor (Z.shiftl a n) b = a * 2 ^ n + b.
Proof.
  intros Hn Hb. rewrite <- Z.shiftl_mul_pow2 by lia.
  rewrite <- Z.lxor_lor, Z.add_nocarry_lxor; [done| |];
  apply Z.bits_inj'; intros i Hi; rewrite Z.land_spec, Z.bits_0;
  (destruct (decide (i < n));
   [rewrite Z.shiftl_spec_low by lia; done
   |replace (Z.testbit b i) with false; [by rewrite andb_false_r|];
    rewrite <- (Z.mod_small b (2 ^ n)) by lia;
    by rewrite Z.mod_pow2_bits_high by lia]).
Qed.

Section decode.
Context (b : buf) (Hb : wf_buf b).

Lemma read_be16_eq off : read_be16 b off = b off * 2 ^ 8 + b (off + 1).
Proof. unfold read_be16. apply lor_add; [lia|apply Hb]. Qed.

Lemma read_be32_eq off :
  read_be32 b off =
    b off * 2 ^ 24 + b (off + 1) * 2 ^ 16 + b (off + 2) * 2 ^ 8 + b (off + 3).
Proof.
  unfold read_be32.
  pose proof (Hb off). pose proof (Hb (off + 1)).
  pose proof (Hb (off + 2)). pose proof (Hb (off + 3)).
  rewrite <- !Z.lor_assoc.
  rewrite (lor_add (b (off + 2)) _ 8) by lia.
  rewrite (lor_add (b (off + 1)) _ 16) by lia.
  rewrite (lor_add (b off) _ 24) by lia. lia.
Qed.

Lemma read_le32_eq off :
  read_le32 b off =
    b off + b (off + 1) * 2 ^ 8 + b (off + 2) * 2 ^ 16 + b (off + 3) * 2 ^ 24.
Proof.
  unfold read_le32.
  pose proof (Hb off). pose proof (Hb (off + 1)).
  pose proof (Hb (off + 2)). pose proof (Hb (off + 3)).
  rewrite (Z.lor_comm (b off)), (lor_add (b (off + 1)) _ 8) by lia.
  rewrite (Z.lor_comm _ (Z.shiftl _ 16)), (lor_add (b (off + 2)) _ 16) by lia.
  rewrite (Z.lor_comm _ (Z.shiftl _ 24)), (lor_add (b (off + 3)) _ 24) by lia. lia.
Qed.

Lemma read_be16_range off : 0 <= read_be16 b off < 2 ^ 16.
Proof. rewrite read_be16_eq. pose proof (Hb off). pose proof (Hb (off + 1)). lia. Qed.
Lemma read_be32_range off : 0 <= read_be32 b off < 2 ^ 32.
Proof.
  rewrite read_be32_eq. pose proof (Hb off). pose proof (Hb (off + 1)).
  pose proof (Hb (off + 2)). pose proof (Hb (off + 3)). lia.
Qed.
Lemma read_le32_range off : 0 <= read_le32 b off < 2 ^ 32.
Proof.
  rewrite read_le32_eq. pose proof (Hb off). pose proof (Hb (off + 1)).
  pose proof (Hb (off + 2)). pose proof (Hb (off + 3)). lia.
Qed.
Lemma read_be64_eq off :
  read_be64 b off = read_be32 b off * 2 ^ 32 + read_be32 b (off + 4).
Proof. unfold read_be64. apply lor_add; [lia|apply read_be32_range]. Qed.
Lemma read_be64_range off : 0 <= read_be64 b off < 2 ^ 64.
Proof.
  rewrite read_be64_eq. pose proof (read_be32_range off).
  pose proof (read_be32_range (off + 4)). lia.
Qed.
Lemma read_le64_eq off :
  read_le64 b off = read_le32 b off + read_le32 b (off + 4) * 2 ^ 32.
Proof.
  unfold read_le64. rewrite Z.lor_comm, lor_add; [lia|lia|apply read_le32_range].
Qed.
Lemma read_le64_range off : 0 <= read_le64 b off < 2 ^ 64.
Proof.
  rewrite read_le64_eq. pose proof (read_le32_range off).
  pose proof (read_le32_range (off + 4)). lia.
Qed.
End decode.

(** Reads only depend on the bytes they cover. *)
Lemma read_be16_eq_on a b off : eq_on off 2 a b -> read_be16 a off = read_be16 b off.
Proof. intros H. unfold read_be16. rewrite !H by lia. done. Qed.
Lemma read_be32_eq_on a b off : eq_on off 4 a b -> read_be32 a off = read_be32 b off.
Proof. intros H. unfold read_be32. rewrite !H by lia. done. Qed.
Lemma read_be64_eq_on a b off : eq_on off 8 a b -> read_be64 a off = read_be64 b off.
Proof.
  intros H. unfold read_be64.
  rewrite (read_be32_eq_on a b off), (read_be32_eq_on a b (off + 4)); [done| |];
  intros i Hi; apply H; lia.
Qed.
Lemma read_le32_eq_on a b off : eq_on off 4 a b -> read_le32 a off = read_le32 b off.
Proof. intros H. unfold read_le32. rewrite !H by lia. done. Qed.
Lemma read_le64_eq_on a b off : eq_on off 8 a b -> read_le64 a off = read_le64 b off.
Proof.
  intros H. unfold read_le64.
  rewrite (read_le32_eq_on a b off), (read_le32_eq_on a b (off + 4)); [done| |];
  intros i Hi; apply H; lia.
Qed.

(** What a write leaves at each offset. *)
Lemma write_be16_at b off v i :
  write_be16 b off v i =
    if i =? off + 1 then w8 v else if i =? off then w8 (Z.shiftr v 8) else b i.
Proof. done. Qed.
Lemma write_be32_at b off v i :
  write_be32 b off v i =
    if i =? off + 3 then w8 v else if i =? off + 2 then w8 (Z.shiftr v 8)
    else if i =? off + 1 then w8 (Z.shiftr v 16)
    else if i =? off then w8 (Z.shiftr v 24) else b i.
Proof. done. Qed.
Lemma write_le32_at b off v i :
  write_le32 b off v i =
    if i =? off + 3 then w8 (Z.shiftr v 24) else if i =? off + 2 then w8 (Z.shiftr v 16)
    else if i =? off + 1 then w8 (Z.shiftr v 8)
    else if i =? off then w8 v else b i.
Proof. done. Qed.

Lemma write_be16_out b off v i :
  ~ (off <= i < off + 2) -> write_be16 b off v i = b i.
Proof. intros. rewrite write_be16_at. repeat (case_match; try lia). Qed.
Lemma write_be32_out b off v i :
  ~ (off <= i < off + 4) -> write_be32 b off v i = b i.
Proof. intros. rewrite write_be32_at. repeat (case_match; try lia). Qed.
Lemma write_le32_out b off v i :
  ~ (off <= i < off + 4) -> write_le32 b off v i = b i.
Proof. intros. rewrite write_le32_at. repeat (case_match; try lia). Qed.
Lemma write_be64_out b off v i :
  ~ (off <= i < off + 8) -> write_be64 b off v i = b i.
Proof. intros. unfold write_be64. rewrite !write_be32_out by lia. done. Qed.
Lemma write_le64_out b off v i :
  ~ (off <= i < off + 8) -> write_le64 b off v i = b i.
Proof. intros. unfold write_le64. rewrite !write_le32_out by lia. done. Qed.

(** ** Reading back *)
Ltac at_solve :=
  repeat (case_match; try lia).

Lemma read_write_be16 b off v : read_be16 (write_be16 b off v) off = w16 v.
Proof.
  unfold read_be16. rewrite !write_be16_at, Z.eqb_refl. at_solve.
  pose proof (w8_range v). rewrite lor_add by lia.
  unfold w8, w16. rewrite Z.shiftr_div_pow2 by lia.
  replace (2 ^ 16) with (2 ^ 8 * 2 ^ 8) by done. rewrite Z.rem_mul_r by lia. lia.
Qed.

Lemma bytes32 v :
  w8 (Z.shiftr v 24) * 2 ^ 24 + w8 (Z.shiftr v 16) * 2 ^ 16 +
  w8 (Z.shiftr v 8) * 2 ^ 8 + w8 v = w32 v.
Proof.
  unfold w8, w32. rewrite !Z.shiftr_div_pow2 by lia.
  replace (v / 2 ^ 24) with (v / 2 ^ 8 / 2 ^ 8 / 2 ^ 8) by by rewrite !Z.div_div by lia.
  replace (v / 2 ^ 16) with (v / 2 ^ 8 / 2 ^ 8) by by rewrite !Z.div_div by lia.
  replace (2 ^ 32) with (2 ^ 8 * (2 ^ 8 * (2 ^ 8 * 2 ^ 8))) by done.
  rewrite !Z.rem_mul_r by lia. lia.
Qed.

Lemma read_write_be32 b off v : read_be32 (write_be32 b off v) off = w32 v.
Proof.
  unfold read_be32. rewrite !write_be32_at, Z.eqb_refl. at_solve.
  pose proof (w8_range v). pose proof (w8_range (Z.shiftr v 8)).
  pose proof (w8_range (Z.shiftr v 16)).
  rewrite <- !Z.lor_assoc, (lor_add _ (w8 v) 8) by lia.
  rewrite (lor_add _ _ 16) by lia. rewrite (lor_add _ _ 24) by lia.
  rewrite <- bytes32. lia.
Qed.

Lemma read_write_le32 b off v : read_le32 (write_le32 b off v) off = w32 v.
Proof.
  unfold read_le32. rewrite !write_le32_at, Z.eqb_refl. at_solve.
  pose proof (w8_range v). pose proof (w8_range (Z.shiftr v 8)).
  pose proof (w8_range (Z.shiftr v 16)). pose proof (w8_range (Z.shiftr v 24)).
  rewrite (Z.lor_comm (w8 v)), (lor_add _ (w8 v) 8) by lia.
  rewrite (Z.lor_comm _ (Z.shiftl _ 16)), (lor_add _ _ 16) by lia.
  rewrite (Z.lor_comm _ (Z.shiftl _ 24)), (lor_add _ _ 24) by lia.
  rewrite <- bytes32. lia.
Qed.

Lemma read_be16_write_other b off v o :
  o + 2 <= off \/ off + 2 <= o -> read_be16 (write_be16 b off v) o = read_be16 b o.
Proof. intros. apply read_be16_eq_on. intros i ?. apply write_be16_out. lia. Qed.
Lemma read_be32_write_other b off v o :
  o + 4 <= off \/ off + 4 <= o -> read_be32 (write_be32 b off v) o = read_be32 b o.
Proof. intros. apply read_be32_eq_on. intros i ?. apply write_be32_out. lia. Qed.
Lemma read_be32_write16_other b off v o :
  o + 4 <= off \/ off + 2 <= o -> read_be32 (write_be16 b off v) o = read_be32 b o.
Proof. intros. apply read_be32_eq_on. intros i ?. apply write_be16_out. lia. Qed.
Lemma read_be16_write32_other b off v o :
  o + 2 <= off \/ off + 4 <= o -> read_be16 (write_be32 b off v) o = read_be16 b o.
Proof. intros. apply read_be16_eq_on. intros i ?. apply write_be32_out. lia. Qed.
Lemma read_be32_upd_other b j v o :
  ~ (o <= j < o + 4) -> read_be32 (upd b j v) o = read_be32 b o.
Proof. intros. apply read_be32_eq_on. intros i ?. apply upd_other. lia. Qed.

Lemma w32_hi_lo v :
  0 <= v < 2 ^ 64 -> w32 (w32 (Z.shiftr v 32)) * 2 ^ 32 + w32 (w32 v) = v.
Proof.
  intros. rewrite !w32_w32. unfold w32. rewrite Z.shiftr_div_pow2 by lia.
  rewrite (Z.mod_small (v / 2 ^ 32)) by
    (split; [apply Z.div_pos | apply Z.div_lt_upper_bound]; lia).
  rewrite (Z.mul_comm (v / _)). symmetry. by apply Z.div_mod.
Qed.

Lemma read_write_be64 b off v :
  0 <= v < 2 ^ 64 -> read_be64 (write_be64 b off v) off = v.
Proof.
  intros Hv. unfold read_be64, write_be64.
  rewrite read_write_be32, (read_be32_write_other _ (off + 4)) by lia.
  rewrite read_write_be32, lor_add by (try apply w32_range; lia).
  by apply w32_hi_lo.
Qed.

Lemma read_write_le64 b off v :
  0 <= v < 2 ^ 64 -> read_le64 (write_le64 b off v) off = v.
Proof.
  intros Hv. unfold read_le64, write_le64.
  rewrite read_write_le32.
  rewrite (read_le32_eq_on _ (write_le32 b off (w32 v)) off)
    by (intros i ?; apply write_le32_out; lia).
  rewrite read_write_le32, Z.lor_comm, lor_add by (try apply w32_range; lia).
  by apply w32_hi_lo.
Qed.

Lemma slice_read_be32 b o off : read_be32 (slice b o) off = read_be32 b (o + off).
Proof.
  unfold read_be32, slice.
  by replace (o + off + 1) with (o + (off + 1)) by lia;
  replace (o + off + 2) with (o + (off + 2)) by lia;
  replace (o + off + 3) with (o + (off + 3)) by lia.
Qed.

(** ** Runs of consecutive 32-bit words *)
Fixpoint read_be32s (p : buf) (off : Z) (n : nat) : list Z :=
  match n with
  | O => []
  | S n => read_be32 p off :: read_be32s p (off + 4) n
  end.
Fixpoint write_be32s (p : buf) (off : Z) (l : list Z) : buf :=
  match l with
  | [] => p
  | v :: l => write_be32s (write_be32 p off v) (off + 4) l
  end.

Lemma read_be32s_length p n : forall off, length (read_be32s p off n) = n.
Proof. induction n as [|n IH]; intros off; cbn; [done|by rewrite IH]. Qed.
Lemma read_be32s_range p n : wf_buf p ->
  forall off, Forall (fun v => 0 <= v < 2 ^ 32) (read_be32s p off n).
Proof.
  intros Hp. induction n as [|n IH]; intros off; cbn; constructor; [|done].
  by apply read_be32_range.
Qed.
Lemma wf_write_be32s l : forall p off, wf_buf p -> wf_buf (write_be32s p off l).
Proof. induction l as [|v l IH]; intros p off Hp; cbn; [done|]. auto with bytes. Qed.
#[export] Hint Resolve wf_write_be32s : bytes.
Lemma write_be32s_out l : forall p off i,
  ~ (off <= i < off + 4 * Z.of_nat (length l)) -> write_be32s p off l i = p i.
Proof.
  induction l as [|v l IH]; intros p off i Hi; cbn in *; [done|].
  rewrite IH by lia. apply write_be32_out. lia.
Qed.
Lemma read_be32s_eq_on a b n : forall off,
  eq_on off (4 * Z.of_nat n) a b -> read_be32s a off n = read_be32s b off n.
Proof.
  induction n as [|n IH]; intros off H; cbn; [done|]. f_equal.
  - apply read_be32_eq_on. intros i ?. apply H. lia.
  - apply IH. intros i ?. apply H. lia.
Qed.
Lemma read_write_be32s l : forall p off,
  read_be32s (write_be32s p off l) off (length l) = map w32 l.
Proof.
  induction l as [|v l IH]; intros p off; cbn; [done|]. f_equal; [|apply IH].
  rewrite (read_be32_eq_on _ (write_be32 p off v)); [apply read_write_be32|].
  intros i ?. apply write_be32s_out. lia.
Qed.
Lemma map_w32_id l : Forall (fun v => 0 <= v < 2 ^ 32) l -> map w32 l = l.
Proof.
  induction 1 as [|v l Hv Hl IH]; cbn; [done|]. rewrite IH. f_equal. by apply wrap_small.
Qed.

(** Drop the last write to a buffer when it misses the window being read. *)
Ltac missed_write f :=
  lazymatch f with
  | write_be16 _ _ _ => apply write_be16_out
  | write_be32 _ _ _ => apply write_be32_out
  | write_be64 _ _ _ => apply write_be64_out
  | write_be32s _ _ _ => apply write_be32s_out
  | upd _ _ _ => apply upd_other
  end; cbn [length] in *; lia.
Ltac below f :=
  lazymatch f with
  | write_be16 ?p _ _ => p
  | write_be32 ?p _ _ => p
  | write_be64 ?p _ _ => p
  | write_be32s ?p _ _ => p
  | upd ?p _ _ => p
  end.
Ltac skip_write :=
  let i := fresh "i" in let Hi := fresh "Hi" in
  match goal with
  | |- context [read_be16 ?f ?o] =>
      let p := below f in
      rewrite (read_be16_eq_on f p o) by (intros i Hi; missed_write f)
  | |- context [read_be32 ?f ?o] =>
      let p := below f in
      rewrite (read_be32_eq_on f p o) by (intros i Hi; missed_write f)
  | |- context [read_be64 ?f ?o] =>
      let p := below f in
      rewrite (read_be64_eq_on f p o) by (intros i Hi; missed_write f)
  | |- context [read_be32s ?f ?o ?n] =>
      let p := below f in
      rewrite (read_be32s_eq_on f p n o) by (intros i Hi; missed_write f)
  end.
Ltac skip_writes := repeat skip_write.

(** Writing the words read from a buffer copies its bytes. *)
Lemma byte_of_word a0 a1 a2 a3 :
  0 <= a0 < 2 ^ 8 -> 0 <= a1 < 2 ^ 8 -> 0 <= a2 < 2 ^ 8 -> 0 <= a3 < 2 ^ 8 ->
  let v := a0 * 2 ^ 24 + a1 * 2 ^ 16 + a2 * 2 ^ 8 + a3 in
  w8 (Z.shiftr v 24) = a0 /\ w8 (Z.shiftr v 16) = a1 /\
  w8 (Z.shiftr v 8) = a2 /\ w8 v = a3.
Proof.
  intros ? ? ? ? v. unfold w8. rewrite !Z.shiftr_div_pow2 by lia. unfold v.
  split_and!; Z.to_euclidean_division_equations; lia.
Qed.
Lemma write_read_be32 a b off i : wf_buf a ->
  write_be32 b off (read_be32 a off) i = if (off <=? i) && (i <? off + 4) then a i else b i.
Proof.
  intros Ha. rewrite (read_be32_eq a Ha). destruct (byte_of_word (a off) (a (off + 1))
    (a (off + 2)) (a (off + 3))) as (H0 & H1 & H2 & H3); [apply Ha..|].
  rewrite write_be32_at. set (v := _ + a (off + 3)) in *.
  destruct (Z.eqb_spec i (off + 3)) as [->|?];
    [|destruct (Z.eqb_spec i (off + 2)) as [->|?];
      [|destruct (Z.eqb_spec i (off + 1)) as [->|?];
        [|destruct (Z.eqb_spec i off) as [->|?]]]];
    match goal with |- context [(?x <=? ?y) && (?y <? ?z)] =>
      destruct (Z.leb_spec x y), (Z.ltb_spec y z) end; cbn [andb]; (done || lia).
Qed.
Lemma write_read_be32s a n : wf_buf a -> forall b off i,
  write_be32s b off (read_be32s a off n) i =
    if (off <=? i) && (i <? off + 4 * Z.of_nat n) then a i else b i.
Proof.
  intros Ha. induction n as [|n IH]; intros b off i; cbn [write_be32s read_be32s].
  - destruct (Z.leb_spec off i), (Z.ltb_spec i (off + 4 * Z.of_nat 0)); cbn [andb]; lia || done.
  - rewrite IH, write_read_be32 by done.
    repeat match goal with
    | |- context [?x <=? ?y] => destruct (Z.leb_spec x y)
    | |- context [?x <? ?y] => destruct (Z.ltb_spec x y)
    end; cbn [andb]; lia || done.
Qed.
