(* ===== verification/Backend.v ===== *)
(** * The storage backend interface and the raw backend

    [Backend] is [struct nextufs_image_backend_ops] of
    include/nextufs_internal.h; [BackendSpec] is what the filesystem code relies
    on.  The raw backend of src/src/core/image.c implements it over host files,
    through the exact-transfer loops of src/src/core/layout.c.  A host file
    carries a script of system-call outcomes (short transfers, interrupted and
    failing calls), so every theorem covers every such script. *)
From S2P Require Import Prelude.
From S2P Require Import Bytes.

(** Values stored in a [uint8_t] array. *)
Definition to_bytes (b : buf) : buf := fun i => w8 (b i).

Lemma wf_to_bytes b : wf_buf (to_bytes b).
Proof. intros i. apply w8_range. Qed.
Lemma to_bytes_id b i : wf_buf b -> to_bytes b i = b i.
Proof. intros H. apply wrap_small, H. Qed.
#[export] Hint Resolve wf_to_bytes : bytes.

Class Backend (C : Type) := {
  bk_read : Z -> Z -> M C buf;             (* size, offset *)
  bk_write : buf -> Z -> Z -> M C unit;    (* buf, size, offset *)
  bk_fsync : M C unit;
}.

(** The guest-visible contents and what each operation does to them. *)
Class BackendSpec (C : Type) `{!Backend C} := {
  bk_view : C -> buf;
  bk_inv : C -> Prop;
  bk_view_wf c : bk_inv c -> wf_buf (bk_view c);
  bk_read_spec n off c r c' :
    bk_inv c -> 0 <= off -> bk_read n off c = (r, c') ->
    bk_inv c' /\ bk_view c' ≡ bk_view c /\
    forall b, r = Ok b -> eq_on 0 n b (slice (bk_view c) off);
  bk_read_wf n off c b c' :
    bk_inv c -> bk_read n off c = (Ok b, c') -> wf_buf b;
  bk_write_spec b n off c r c' :
    bk_inv c -> 0 <= off -> bk_write b n off c = (r, c') ->
    bk_inv c' /\
    (forall i, ~ (off <= i < off + n) -> bk_view c' i = bk_view c i) /\
    (r = Ok tt -> bk_view c' ≡ blit (bk_view c) off (to_bytes b) n);
  bk_fsync_spec c r c' :
    bk_inv c -> bk_fsync c = (r, c') -> bk_inv c' /\ bk_view c' ≡ bk_view c;
}.

(** ** Host files and the system calls used on them *)
Inductive io_outcome :=
  | IoCount (n : Z)        (* the call transfers at most [n] bytes *)
  | IoErr (e : errno).

Record file := File {
  f_data : buf;
  f_size : Z;
  f_script : list io_outcome;       (* outcomes of the next transfers *)
  f_sync : list (option errno);     (* outcomes of the next fsync calls *)
}.

Definition file_inv (f : file) : Prop :=
  0 <= f_size f /\ wf_buf (f_data f) /\
  forall i, i < 0 \/ f_size f <= i -> f_data f i = 0.

Definition next_outcome (f : file) (full : Z) : io_outcome * file :=
  match f_script f with
  | [] => (IoCount full, f)
  | o :: s =>
      (match o with IoCount n => IoCount (Z.min full (Z.max 0 n)) | IoErr e => IoErr e end,
       File (f_data f) (f_size f) s (f_sync f))
  end.

(** [pread]: a count (zero at end of file) and the bytes, or an errno. *)
Definition pread (size off : Z) : M file (Z * buf) := fun f =>
  let full := Z.min size (Z.max 0 (f_size f - off)) in
  match next_outcome f full with
  | (IoCount n, f') => (Ok (n, slice (f_data f) off), f')
  | (IoErr e, f') => (Err e, f')
  end.

(** [pwrite]: a write past the end extends the file. *)
Definition pwrite (b : buf) (size off : Z) : M file Z := fun f =>
  match next_outcome f size with
  | (IoCount n, f') =>
      (Ok n, File (blit (f_data f) off (to_bytes b) n)
               (if n =? 0 then f_size f else Z.max (f_size f) (off + n))
               (f_script f') (f_sync f'))
  | (IoErr e, f') => (Err e, f')
  end.

Definition fsync : M file unit := fun f =>
  match f_sync f with
  | [] => (Ok tt, f)
  | o :: s =>
      (match o with Some e => Err e | None => Ok tt end,
       File (f_data f) (f_size f) (f_script f) s)
  end.

(** ** nextufs__read_exact_fd, nextufs__write_exact_fd *)

(** [None] is "the loop is still running when the fuel is used up". *)
Fixpoint read_loop (fuel : nat) (size off : Z) (out : buf) (got : Z) (f : file)
    : option (result buf * file) :=
  match fuel with
  | O => None
  | S fuel =>
      if got <? size then
        match pread (size - got) (off + got) f with
        | (Err e, f1) =>
            if decide (e = EINTR) then read_loop fuel size off out got f1
            else Some (Err e, f1)
        | (Ok (n, src), f1) =>
            if n =? 0 then Some (Err EIO, f1)
            else read_loop fuel size off (blit out got src n) (got + n) f1
        end
      else Some (Ok out, f)
  end.

Fixpoint write_loop (fuel : nat) (b : buf) (size off : Z) (got : Z) (f : file)
    : option (result unit * file) :=
  match fuel with
  | O => None
  | S fuel =>
      if got <? size then
        match pwrite (slice b got) (size - got) (off + got) f with
        | (Err e, f1) =>
            if decide (e = EINTR) then write_loop fuel b size off got f1
            else Some (Err e, f1)
        | (Ok n, f1) =>
            if n =? 0 then Some (Err EIO, f1)
            else write_loop fuel b size off (got + n) f1
        end
      else Some (Ok tt, f)
  end.

(** Once the script is exhausted at most two more calls run. *)
Definition io_fuel (f : file) : nat := S (S (S (length (f_script f)))).

Definition read_exact_fd (size off : Z) : M file buf := fun f =>
  match read_loop (io_fuel f) size off zeros 0 f with
  | Some r => r
  | None => (Err EIO, f)
  end.

Definition write_exact_fd (b : buf) (size off : Z) : M file unit := fun f =>
  match write_loop (io_fuel f) b size off 0 f with
  | Some r => r
  | None => (Err EIO, f)
  end.

(** ** The raw backend *)
Definition raw_backend_read (size off : Z) : M file buf := read_exact_fd size off.
Definition raw_backend_write (b : buf) (size off : Z) : M file unit :=
  write_exact_fd b size off.
Definition raw_backend_fsync : M file unit := fsync.

#[export] Instance raw_backend : Backend file := {|
  bk_read := raw_backend_read;
  bk_write := raw_backend_write;
  bk_fsync := raw_backend_fsync;
|}.

(** ** System calls *)
Section syscalls.
Implicit Types (f : file).

Lemma next_outcome_frame f full o f1 :
  next_outcome f full = (o, f1) ->
  f_data f1 = f_data f /\ f_size f1 = f_size f /\ f_sync f1 = f_sync f /\
  ((f_script f = [] /\ f_script f1 = [] /\ o = IoCount full) \/
   (length (f_script f) = S (length (f_script f1)) /\
    forall n, 0 <= full -> o = IoCount n -> 0 <= n <= full)).
Proof.
  unfold next_outcome. destruct (f_script f) as [|x s] eqn:E.
  - intros [= <- <-]. split_and!; auto.
  - intros [= <- <-]. split_and!; [done..|]. right. split; [done|].
    intros n ?. destruct x; intros [= <-]. lia.
Qed.

Lemma next_outcome_count f full n f1 :
  0 <= full -> next_outcome f full = (IoCount n, f1) -> 0 <= n <= full.
Proof.
  intros ? H. apply next_outcome_frame in H as (_ & _ & _ & [(_ & _ & [= ->])|(_ & H)]);
  [lia|eauto].
Qed.

Lemma pread_frame size off f r f1 :
  pread size off f = (r, f1) ->
  f_data f1 = f_data f /\ f_size f1 = f_size f /\ f_sync f1 = f_sync f.
Proof.
  unfold pread. destruct (next_outcome f _) as [[n|e] f'] eqn:E;
  intros [= <- <-]; by apply next_outcome_frame in E as (? & ? & ? & _).
Qed.

Lemma pread_ok size off f n b f1 :
  0 <= size -> pread size off f = (Ok (n, b), f1) ->
  0 <= n <= size /\ b = slice (f_data f) off.
Proof.
  unfold pread. intros Hs.
  destruct (next_outcome f _) as [[m|e] f'] eqn:E; intros [= <- <- <-].
  apply next_outcome_count in E; [split; [lia|done]|lia].
Qed.

(** A transfer consumes an entry of the script, or none is left and the call
    does all it can. *)
Lemma pread_progress size off f r f1 :
  pread size off f = (r, f1) ->
  (length (f_script f) = S (length (f_script f1))) \/
  (f_script f = [] /\ f_script f1 = [] /\
   r = Ok (Z.min size (Z.max 0 (f_size f - off)), slice (f_data f) off)).
Proof.
  unfold pread. destruct (next_outcome f _) as [[n|e] f'] eqn:E; intros [= <- <-];
  apply next_outcome_frame in E as (_ & _ & _ & [(? & ? & [= ->])|(? & _)]); auto.
Qed.

Lemma pwrite_inv b size off f r f1 :
  file_inv f -> 0 <= size -> 0 <= off -> pwrite b size off f = (r, f1) ->
  file_inv f1 /\ f_sync f1 = f_sync f.
Proof.
  intros (Hsz & Hwf & Hz) ? ?. unfold pwrite.
  destruct (next_outcome f _) as [[n|e] f'] eqn:E; intros [= <- <-].
  - pose proof (next_outcome_count f size n f' ltac:(done) E).
    apply next_outcome_frame in E as (Hd & _ & Hs & _). split; [|done].
    unfold file_inv; cbn. split_and!.
    + case_match; lia.
    + apply wf_blit; [done|apply wf_to_bytes].
    + intros i Hi. rewrite blit_out; [apply Hz|]; destruct (Z.eqb_spec n 0); lia.
  - apply next_outcome_frame in E as (Hd & Hs & Hy & _).
    unfold file_inv. by rewrite Hd, Hs, Hy.
Qed.

Lemma pwrite_data b size off f r f1 :
  0 <= size -> pwrite b size off f = (r, f1) ->
  match r with
  | Ok n => 0 <= n <= size /\ f_data f1 = blit (f_data f) off (to_bytes b) n
  | Err _ => f_data f1 = f_data f
  end.
Proof.
  intros ?. unfold pwrite.
  destruct (next_outcome f _) as [[n|e] f'] eqn:E; intros [= <- <-].
  - by apply next_outcome_count in E.
  - by apply next_outcome_frame in E as (? & _).
Qed.

Lemma pwrite_progress b size off f r f1 :
  pwrite b size off f = (r, f1) ->
  (length (f_script f) = S (length (f_script f1))) \/
  (f_script f = [] /\ f_script f1 = [] /\ r = Ok size).
Proof.
  unfold pwrite. destruct (next_outcome f _) as [[n|e] f'] eqn:E; intros [= <- <-];
  apply next_outcome_frame in E as (_ & _ & _ & [(? & ? & [= ->])|(? & _)]); auto.
Qed.

Lemma fsync_frame f r f1 :
  fsync f = (r, f1) -> f_data f1 = f_data f /\ f_size f1 = f_size f.
Proof. cbv [fsync]. destruct (f_sync f); intros [= <- <-]; done. Qed.
End syscalls.

(** ** The transfer loops *)
Lemma read_loop_spec fuel : forall size off out got f r f',
  0 <= got -> eq_on 0 got out (slice (f_data f) off) ->
  read_loop fuel size off out got f = Some (r, f') ->
  f_data f' = f_data f /\ f_size f' = f_size f /\ f_sync f' = f_sync f /\
  forall b, r = Ok b -> eq_on 0 size b (slice (f_data f) off).
Proof.
  induction fuel as [|fuel IH]; intros size off out got f r f' Hd Hout; [done|].
  cbn [read_loop]. destruct (Z.ltb_spec got size) as [Hlt|Hge].
  2: { intros [= <- <-]. split_and!; [done..|]. intros b [= <-] i ?. apply Hout. lia. }
  destruct (pread _ _ f) as [[[n src]|e] f1] eqn:E;
    pose proof (pread_frame _ _ _ _ _ E) as (Hf1 & Hf2 & Hf3).
  - apply pread_ok in E as [Hn ->]; [|lia].
    destruct (n =? 0); [intros [= <- <-]; by split_and!|].
    intros H. apply IH in H as (H1 & H2 & H3 & H4).
    + split_and!; [congruence..|]. intros b Hb. specialize (H4 b Hb). by rewrite Hf1 in H4.
    + lia.
    + rewrite Hf1. intros i Hi. unfold blit, slice. case_match; [f_equal; lia|].
      apply Hout. lia.
  - case_decide; [|intros [= <- <-]; by split_and!].
    intros Hl. rewrite <- Hf1 in Hout. apply IH in Hl as (H1 & H2 & H3 & H4); [|done..].
    split_and!; [congruence..|]. intros b Hb. specialize (H4 b Hb). by rewrite Hf1 in H4.
Qed.

Lemma read_loop_total fuel : forall size off out got f,
  (length (f_script f) + 3 <= fuel)%nat ->
  exists x, read_loop fuel size off out got f = Some x.
Proof.
  assert (Hdone : forall fuel size off out got f, size <= got ->
    exists x, read_loop (S fuel) size off out got f = Some x).
  { intros fuel' size off out got f ?. cbn. destruct (Z.ltb_spec got size); [lia|eauto]. }
  assert (Heof : forall fuel size off out got f, f_script f = [] ->
    Z.max 0 (f_size f - (off + got)) = 0 ->
    exists x, read_loop (S fuel) size off out got f = Some x).
  { intros fuel' size off out got f Hs Hz. cbn.
    destruct (Z.ltb_spec got size); [|eauto].
    destruct (pread _ _ f) as [r f1] eqn:E.
    apply pread_progress in E as [E|(_ & _ & ->)]; [by rewrite Hs in E|].
    destruct (Z.eqb_spec (Z.min (size - got) (Z.max 0 (f_size f - (off + got)))) 0);
    [eauto|lia]. }
  induction fuel as [|fuel IH]; intros size off out got f Hfuel; [lia|].
  cbn [read_loop]. destruct (Z.ltb_spec got size); [|eauto].
  destruct (pread _ _ f) as [r f1] eqn:E.
  pose proof (pread_frame _ _ _ _ _ E) as (_ & Hsz & _).
  apply pread_progress in E as [E|(Hs & Hs1 & ->)].
  - destruct r as [[n src]|e]; [destruct (n =? 0); [eauto|]|case_decide; [|eauto]];
    apply IH; lia.
  - destruct (Z.eqb_spec (Z.min (size - got) (Z.max 0 (f_size f - (off + got)))) 0);
    [eauto|]. rewrite Hs in Hfuel. cbn in Hfuel.
    destruct fuel as [|fuel]; [lia|].
    destruct (decide (size - got <= Z.max 0 (f_size f - (off + got)))).
    + apply Hdone. lia.
    + apply Heof; [done|]. lia.
Qed.

Lemma write_loop_spec fuel : forall b size off got f r f',
  file_inv f -> 0 <= got -> 0 <= off ->
  write_loop fuel b size off got f = Some (r, f') ->
  file_inv f' /\ f_sync f' = f_sync f /\
  (forall i, ~ (off + got <= i < off + size) -> f_data f' i = f_data f i) /\
  (r = Ok tt -> forall i, off + got <= i < off + size -> f_data f' i = w8 (b (i - off))).
Proof.
  induction fuel as [|fuel IH]; intros b size off got f r f' Hinv Hd Ho; [done|].
  cbn [write_loop]. destruct (Z.ltb_spec got size) as [Hlt|Hge].
  2: { intros [= <- <-]. split_and!; [done..|]. intros _ i ?. lia. }
  destruct (pwrite _ _ _ f) as [r1 f1] eqn:E.
  assert (file_inv f1 /\ f_sync f1 = f_sync f) as [Hinv1 Hsync]
    by (eapply pwrite_inv in E; [done|done|lia|lia]).
  apply pwrite_data in E; [|lia].
  destruct r1 as [n|e].
  - destruct E as [Hn Hdata].
    assert (Hframe : forall i, ~ (off + got <= i < off + size) -> f_data f1 i = f_data f i).
    { intros i ?. rewrite Hdata, blit_out; [done|lia]. }
    destruct (Z.eqb_spec n 0).
    { intros [= <- <-]. split_and!; [done..|]. intros [=]. }
    intros H. apply IH in H as (H1 & H2 & H3 & H4); [|done|lia|done].
    split_and!; [done|congruence| |].
    + intros i ?. rewrite H3 by lia. apply Hframe. lia.
    + intros Hr i ?. destruct (decide (off + (got + n) <= i)); [apply H4; [done|lia]|].
      rewrite H3 by lia. rewrite Hdata, blit_in by lia. unfold to_bytes, slice.
      do 2 f_equal. lia.
  - case_decide.
    + intros Hl. apply IH in Hl as (H1 & H2 & H3 & H4); [|done..].
      rewrite E in H3. split_and!; [done|congruence|done|done].
    + intros [= <- <-]. rewrite E. split_and!; [done..|]. intros [=].
Qed.

Lemma write_loop_total fuel : forall b size off got f,
  (length (f_script f) + 3 <= fuel)%nat -> exists x, write_loop fuel b size off got f = Some x.
Proof.
  induction fuel as [|fuel IH]; intros b size off got f Hfuel; [lia|].
  cbn [write_loop]. destruct (Z.ltb_spec got size); [|eauto].
  destruct (pwrite _ _ _ f) as [r f1] eqn:E.
  apply pwrite_progress in E as [E|(Hs & Hs1 & ->)].
  - destruct r as [n|e]; [destruct (n =? 0); [eauto|]|case_decide; [|eauto]]; apply IH; lia.
  - destruct (Z.eqb_spec (size - got) 0); [eauto|].
    destruct fuel as [|fuel]; [rewrite Hs in Hfuel; cbn in Hfuel; lia|].
    cbn. destruct (Z.ltb_spec (got + (size - got)) size); [lia|eauto].
Qed.

(** ** Exact transfers *)
Lemma read_exact_fd_run size off f :
  exists r f', read_loop (io_fuel f) size off zeros 0 f = Some (r, f') /\
               read_exact_fd size off f = (r, f').
Proof.
  destruct (read_loop_total (io_fuel f) size off zeros 0 f) as [[r f'] E];
    [unfold io_fuel; lia|].
  exists r, f'. split; [done|]. unfold read_exact_fd. by rewrite E.
Qed.

Lemma write_exact_fd_run b size off f :
  exists r f', write_loop (io_fuel f) b size off 0 f = Some (r, f') /\
               write_exact_fd b size off f = (r, f').
Proof.
  destruct (write_loop_total (io_fuel f) b size off 0 f) as [[r f'] E];
    [unfold io_fuel; lia|].
  exists r, f'. split; [done|]. unfold write_exact_fd. by rewrite E.
Qed.

Lemma read_exact_fd_spec size off f r f' :
  read_exact_fd size off f = (r, f') ->
  f_data f' = f_data f /\ f_size f' = f_size f /\ f_sync f' = f_sync f /\
  forall b, r = Ok b -> eq_on 0 size b (slice (f_data f) off).
Proof.
  destruct (read_exact_fd_run size off f) as (r1 & f1 & Hloop & ->). intros [= -> ->].
  eapply read_loop_spec; [| |done]; [lia|]. intros i ?. lia.
Qed.

Lemma read_loop_wf fuel : forall size off out got f b f',
  wf_buf (f_data f) -> wf_buf out ->
  read_loop fuel size off out got f = Some (Ok b, f') -> wf_buf b.
Proof.
  induction fuel as [|fuel IH]; intros size off out got f b f' Hf Hout; [done|].
  cbn [read_loop]. destruct (got <? size); [|by intros [= <- <-]].
  destruct (pread _ _ f) as [[[n src]|e] f1] eqn:E;
    pose proof (pread_frame _ _ _ _ _ E) as (Hf1 & _ & _).
  - assert (src = slice (f_data f) (off + got)) as ->.
    { unfold pread in E. destruct (next_outcome f _) as [[?|?] ?]; by simplify_eq. }
    destruct (n =? 0); [done|]. apply IH; [by rewrite Hf1|auto with bytes].
  - case_decide; [|done]. apply IH; [by rewrite Hf1|done].
Qed.

Lemma write_exact_fd_spec b size off f r f' :
  file_inv f -> 0 <= off -> write_exact_fd b size off f = (r, f') ->
  file_inv f' /\ f_sync f' = f_sync f /\
  (forall i, ~ (off <= i < off + size) -> f_data f' i = f_data f i) /\
  (r = Ok tt -> f_data f' ≡ blit (f_data f) off (to_bytes b) size).
Proof.
  intros Hinv Ho. destruct (write_exact_fd_run b size off f) as (r1 & f1 & Hloop & ->).
  intros [= -> ->]. apply write_loop_spec in Hloop as (H1 & H2 & H3 & H4); [|done|lia|done].
  rewrite Z.add_0_r in *. split_and!; [done..|].
  intros Hr i. unfold blit, to_bytes.
  case_match eqn:E; [apply H4; [done|lia]|apply H3; lia].
Qed.

(** Writing never shortens a file, and a complete write reaches its end. *)
Lemma write_loop_size fuel : forall b size off got f r f',
  write_loop fuel b size off got f = Some (r, f') ->
  f_size f <= f_size f' /\ (r = Ok tt -> got < size -> off + size <= f_size f').
Proof.
  induction fuel as [|fuel IH]; intros b size off got f r f'; [done|].
  cbn [write_loop]. destruct (Z.ltb_spec got size) as [Hlt|Hge].
  2: { intros [= <- <-]. split; [lia|lia]. }
  destruct (pwrite _ _ _ f) as [r1 f1] eqn:E. unfold pwrite in E.
  destruct (next_outcome f (size - got)) as [o f2] eqn:Eo.
  pose proof (next_outcome_frame _ _ _ _ Eo) as (_ & Hs & _).
  destruct o as [n|e]; injection E as <- <-.
  - apply next_outcome_count in Eo; [|lia]. destruct (Z.eqb_spec n 0) as [->|Hn].
    + intros [= <- <-]. split; [cbn; lia|done].
    + intros Hl. apply IH in Hl as [H1 H2]. cbn [f_size] in H1.
      split; [lia|]. intros Hr _. destruct (Z.ltb_spec (got + n) size); [auto|].
      assert (n = size - got) as -> by lia. lia.
  - case_decide; [|intros [= <- <-]; split; [lia|done]].
    intros Hl. apply IH in Hl as [H1 H2]. split; [lia|auto].
Qed.
Lemma write_exact_fd_size b size off f r f' :
  write_exact_fd b size off f = (r, f') ->
  f_size f <= f_size f' /\ (r = Ok tt -> 0 < size -> off + size <= f_size f').
Proof.
  destruct (write_exact_fd_run b size off f) as (r1 & f1 & Hloop & ->). intros [= -> ->].
  by apply write_loop_size in Hloop.
Qed.

(** Nor does the file grow beyond what is written. *)
Lemma pwrite_size b size off f r f' :
  0 <= size -> pwrite b size off f = (r, f') -> f_size f' <= Z.max (f_size f) (off + size).
Proof.
  intros Hs. unfold pwrite. destruct (next_outcome f _) as [[n|e] f1] eqn:E; intros [= <- <-].
  - apply next_outcome_count in E; [|done]. cbn. destruct (Z.eqb_spec n 0); lia.
  - apply next_outcome_frame in E as (_ & -> & _). lia.
Qed.
Lemma write_loop_bound fuel : forall b size off got f r f',
  0 <= got -> write_loop fuel b size off got f = Some (r, f') ->
  f_size f' <= Z.max (f_size f) (off + size).
Proof.
  induction fuel as [|fuel IH]; intros b size off got f r f' Hg; [done|].
  cbn [write_loop]. destruct (Z.ltb_spec got size) as [Hlt|Hge]; [|intros [= _ <-]; lia].
  destruct (pwrite _ _ _ f) as [[n|e] f1] eqn:E; pose proof (pwrite_size _ (size - got) _ _ _ _ ltac:(lia) E).
  - apply pwrite_data in E as [Hn _]; [|lia]. destruct (n =? 0); [intros [= _ <-]; lia|].
    intros Hl. apply IH in Hl; lia.
  - case_decide; [|intros [= _ <-]; lia]. intros Hl. apply IH in Hl; lia.
Qed.
Lemma write_exact_fd_bound b size off f r f' :
  write_exact_fd b size off f = (r, f') -> f_size f' <= Z.max (f_size f) (off + size).
Proof.
  destruct (write_exact_fd_run b size off f) as (r1 & f1 & Hl & ->). intros [= _ <-].
  by eapply write_loop_bound, Hl.
Qed.

#[export] Instance raw_backend_spec : BackendSpec file.
Proof.
  refine (Build_BackendSpec file _ f_data file_inv _ _ _ _ _).
  - by intros c (_ & ? & _).
  - intros n off c r c' Hinv ? H. cbn in H.
    apply read_exact_fd_spec in H as (Hd & Hs & _ & Hok).
    unfold file_inv in *. rewrite Hd, Hs. done.
  - intros n off c b c' (_ & Hwf & _) H. cbn in H. unfold raw_backend_read in H.
    destruct (read_exact_fd_run n off c) as (r1 & f1 & Hloop & Hr). rewrite Hr in H.
    injection H as -> ->. by apply read_loop_wf in Hloop; [|done|apply wf_zeros].
  - intros b n off c r c' Hinv ? H. cbn in H.
    by apply write_exact_fd_spec in H as (? & _ & ? & ?).
  - intros c r c' Hinv H. cbn in H. unfold raw_backend_fsync in H.
    apply fsync_frame in H as [Hd Hs]. unfold file_inv in *. by rewrite Hd, Hs.
Defined.

(** Short transfers and interrupted calls, but no failing ones. *)
Definition benign (o : io_outcome) : Prop :=
  match o with IoCount n => 0 < n | IoErr e => e = EINTR end.

Lemma next_outcome_benign f full :
  Forall benign (f_script f) -> 0 < full ->
  exists o f1, next_outcome f full = (o, f1) /\ Forall benign (f_script f1) /\
    f_size f1 = f_size f /\ f_data f1 = f_data f /\
    match o with IoCount n => 0 < n <= full | IoErr e => e = EINTR end.
Proof.
  unfold next_outcome. intros Hall Hf. destruct (f_script f) as [|o s] eqn:E.
  - eexists _, _. split; [done|]. rewrite E. split_and!; [done..|]. lia.
  - apply Forall_cons in Hall as [Ho Hs]. eexists _, _. split; [done|].
    split_and!; [done..|]. destruct o as [n|e]; cbn in *; [lia|done].
Qed.

Lemma read_loop_benign fuel : forall size off out got f r f',
  Forall benign (f_script f) -> 0 <= got -> 0 <= off -> off + size <= f_size f ->
  read_loop fuel size off out got f = Some (r, f') -> is_ok r = true.
Proof.
  induction fuel as [|fuel IH]; intros size off out got f r f' Hall Hg Ho Hsz; [done|].
  cbn [read_loop]. destruct (Z.ltb_spec got size) as [Hlt|]; [|by intros [= <- <-]].
  unfold pread.
  destruct (next_outcome_benign f
    (Z.min (size - got) (Z.max 0 (f_size f - (off + got)))) Hall) as
    (o & f1 & -> & Hall1 & Hs & Hd & Hcase); [lia|].
  destruct o as [n|e].
  - destruct (Z.eqb_spec n 0); [lia|]. apply IH; [done|lia|done|lia].
  - subst e. rewrite decide_True by done. apply IH; [done|lia|done|lia].
Qed.

Lemma write_loop_benign fuel : forall b size off got f r f',
  Forall benign (f_script f) ->
  write_loop fuel b size off got f = Some (r, f') -> is_ok r = true.
Proof.
  induction fuel as [|fuel IH]; intros b size off got f r f' Hall; [done|].
  cbn [write_loop]. destruct (Z.ltb_spec got size) as [Hlt|]; [|by intros [= <- <-]].
  unfold pwrite.
  destruct (next_outcome_benign f (size - got) Hall) as
    (o & f1 & -> & Hall1 & Hs & Hd & Hcase); [lia|].
  destruct o as [n|e].
  - destruct (Z.eqb_spec n 0); [lia|]. by apply IH.
  - subst e. rewrite decide_True by done. by apply IH.
Qed.

(** A complete read lies inside the file. *)
Lemma read_loop_inside fuel : forall size off out got f b f',
  got <= 0 \/ off + got <= f_size f ->
  read_loop fuel size off out got f = Some (Ok b, f') -> 0 < size -> off + size <= f_size f.
Proof.
  induction fuel as [|fuel IH]; intros size off out got f b f' Hg; [done|].
  cbn [read_loop]. destruct (Z.ltb_spec got size) as [Hlt|]; [|intros _ ?; lia].
  destruct (pread _ _ f) as [[[n src]|e] f1] eqn:E;
    pose proof (pread_frame _ _ _ _ _ E) as (_ & Hs & _); rewrite <- Hs.
  - unfold pread in E.
    destruct (next_outcome f _) as [o f2] eqn:Eo; destruct o as [m|e]; [|done].
    injection E as <- _ <-. apply next_outcome_count in Eo; [|lia].
    destruct (Z.eqb_spec m 0); [done|]. apply IH. right. lia.
  - case_decide; [|done]. apply IH. by rewrite Hs.
Qed.
Lemma read_exact_fd_inside size off f b f' :
  read_exact_fd size off f = (Ok b, f') -> 0 < size -> off + size <= f_size f.
Proof.
  destruct (read_exact_fd_run size off f) as (r1 & f1 & Hloop & ->). intros [= -> ->].
  by eapply read_loop_inside, Hloop; left.
Qed.

(** On a host without scripted outcomes every read inside the file succeeds. *)
Lemma read_loop_script fuel : forall size off out got f r f',
  f_script f = [] -> read_loop fuel size off out got f = Some (r, f') -> f' = f.
Proof.
  induction fuel as [|fuel IH]; intros size off out got f r f' Hs; [done|].
  cbn [read_loop]. destruct (got <? size); [|by intros [= _ <-]].
  unfold pread, next_outcome. rewrite Hs. destruct (_ =? 0); [by intros [= _ <-]|by apply IH].
Qed.
Lemma read_calm size off f : f_script f = [] -> 0 <= off -> off + size <= f_size f ->
  exists b, read_exact_fd size off f = (Ok b, f).
Proof.
  intros Hs Ho Hsz. destruct (read_exact_fd_run size off f) as (r1 & f1 & Hloop & ->).
  pose proof (read_loop_script _ _ _ _ _ _ _ _ Hs Hloop) as ->.
  apply read_loop_benign in Hloop; [|by rewrite Hs|lia|done|done].
  destruct r1 as [b|e]; [by exists b|done].
Qed.

(** ** Properties *)

(** Exact reads always return (the loop of nextufs__read_exact_fd stops for
    every outcome script), what they return on success is exactly the requested
    bytes, the file is unchanged, and when every system call is merely short or
    interrupted and the range lies inside the file, they succeed. *)
Theorem read_exact_fd_correct size off f (Ho : 0 <= off) (Hn : 0 <= size) :
  (exists x, read_loop (io_fuel f) size off zeros 0 f = Some x) /\
  exists r f', read_exact_fd size off f = (r, f') /\
    f_data f' = f_data f /\ f_size f' = f_size f /\
    (forall b, r = Ok b -> eq_on 0 size b (slice (f_data f) off)) /\
    (Forall benign (f_script f) -> off + size <= f_size f -> is_ok r = true).
Proof.
  destruct (read_exact_fd_run size off f) as (r & f' & Hloop & Hrun).
  split; [eauto|]. exists r, f'.
  pose proof (read_exact_fd_spec _ _ _ _ _ Hrun) as (? & ? & _ & ?).
  split_and!; [done..|]. intros. eapply read_loop_benign; [| | | |done]; [done|lia..].
Qed.

Lemma read_exact_fd_correct_witness :
  let f := File (fun i => i mod 256) 100 [IoErr EINTR; IoCount 3; IoErr EINTR] [] in
  (exists x, read_loop (io_fuel f) 10 5 zeros 0 f = Some x) /\
  exists r f', read_exact_fd 10 5 f = (r, f') /\
    f_data f' = f_data f /\ f_size f' = f_size f /\
    (forall b, r = Ok b -> eq_on 0 10 b (slice (f_data f) 5)) /\
    (Forall benign (f_script f) -> 5 + 10 <= f_size f -> is_ok r = true).
Proof. intros f. apply (read_exact_fd_correct 10 5 f); lia. Defined.

(** C35. Exact writes always return; bytes outside the range never change, on
    success the range holds exactly the buffer, the file invariant is kept on
    every path, and short or interrupted calls alone never make one fail. *)
Theorem write_exact_fd_correct b size off f (Hf : file_inv f) (Ho : 0 <= off) :
  (exists x, write_loop (io_fuel f) b size off 0 f = Some x) /\
  exists r f', write_exact_fd b size off f = (r, f') /\ file_inv f' /\
    (forall i, ~ (off <= i < off + size) -> f_data f' i = f_data f i) /\
    (r = Ok tt -> f_data f' ≡ blit (f_data f) off (to_bytes b) size) /\
    (Forall benign (f_script f) -> r = Ok tt).
Proof.
  destruct (write_exact_fd_run b size off f) as (r & f' & Hloop & Hrun).
  split; [eauto|]. exists r, f'.
  pose proof (write_exact_fd_spec _ _ _ _ _ _ Hf Ho Hrun) as (? & _ & ? & ?).
  split_and!; [done..|]. intros Hb. eapply write_loop_benign in Hb; [|done].
  by destruct r as [[]|].
Qed.

Lemma file_inv_zeros n s y : 0 <= n -> file_inv (File zeros n s y).
Proof. intros. split_and!; [done|apply wf_zeros|done]. Qed.

Lemma write_exact_fd_correct_witness :
  let f := File zeros 100 [IoCount 1; IoErr EINTR] [] in
  let b := fun i => i + 250 in
  (exists x, write_loop (io_fuel f) b 8 95 0 f = Some x) /\
  exists r f', write_exact_fd b 8 95 f = (r, f') /\ file_inv f' /\
    (forall i, ~ (95 <= i < 95 + 8) -> f_data f' i = f_data f i) /\
    (r = Ok tt -> f_data f' ≡ blit (f_data f) 95 (to_bytes b) 8) /\
    (Forall benign (f_script f) -> r = Ok tt).
Proof.
  intros f b. apply (write_exact_fd_correct b 8 95 f); [|lia].
  by apply file_inv_zeros.
Defined.
