(* ===== verification/Disk.v ===== *)
(** * The abstract disk

    What an image is to its users: an array of bytes of a fixed size that answers reads,
    writes and fsyncs; and sequences of such requests to a backend. *)
From S2P Require Import Prelude.
From S2P Require Import Bytes.
From S2P Require Import Backend.

(** ** The abstract disk *)
Inductive request :=
  | Read (size off : Z)
  | Write (b : buf) (size off : Z)
  | Sync.
Inductive response :=
  | Contents (b : buf)
  | Nothing.
Definition inside (disk n off : Z) : Prop := 0 <= off /\ off + n <= disk.
Inductive disk_step (disk : Z) (s : buf) : request -> result response -> buf -> Prop :=
  | read_step n off b s' : inside disk n off -> eq_on 0 n b (slice s off) -> wf_buf b -> s' ≡ s ->
      disk_step disk s (Read n off) (Ok (Contents b)) s'
  | write_step b n off s' : inside disk n off -> s' ≡ blit s off (to_bytes b) n ->
      disk_step disk s (Write b n off) (Ok Nothing) s'
  | sync_step s' : s' ≡ s -> disk_step disk s Sync (Ok Nothing) s'
  | failed_write b n off e s' : (forall i, ~ (off <= i < off + n) -> s' i = s i) ->
      (~ inside disk n off -> s' ≡ s) ->
      disk_step disk s (Write b n off) (Err e) s'
  | failed_step q e s' : s' ≡ s -> disk_step disk s q (Err e) s'.
Inductive disk_run (disk : Z) : buf -> list request -> list (result response) -> buf -> Prop :=
  | run_nil s : disk_run disk s [] [] s
  | run_cons s q r s1 qs rs s2 :
      disk_step disk s q r s1 -> disk_run disk s1 qs rs s2 -> disk_run disk s (q :: qs) (r :: rs) s2.

(** ** Requests to a backend *)
Section requests.
Context {C : Type} `{!Backend C}.
Definition serve (q : request) : M C response :=
  match q with
  | Read n off => let! b := bk_read n off in ret (Contents b)
  | Write b n off => bk_write b n off ;;; ret Nothing
  | Sync => bk_fsync ;;; ret Nothing
  end.
Fixpoint serve_all (qs : list request) (d : C) : list (result response) * C :=
  match qs with
  | [] => ([], d)
  | q :: qs =>
      let (r, d) := serve q d in
      let (rs, d) := serve_all qs d in
      (r :: rs, d)
  end.
End requests.
