(* ===== verification/Vdi.v ===== *)
(** * VDI images as a backend

    The second implementation of [struct nextufs_image_backend_ops] in
    src/src/core/image.c: a dynamic or differencing VDI file, whose block map says for
    every block of the disk whether it is stored in the file, reads as zeros or is
    inherited from the parent image.  The parent is any other backend, so chains of
    differencing images are chains of type class instances.  [BackendSpec] for it makes
    every theorem about the filesystem code hold on VDI images. *)
From S2P Require Import Prelude.
From S2P Require Import Bytes.
From S2P Require Import Backend.

Definition QCOW2_MAGIC : Z := 0x514649fb.
Definition VDI_SIGNATURE : Z := 0xbeda107f.
Definition VDI_TYPE_DYNAMIC : Z := 1.
Definition VDI_TYPE_DIFF : Z := 4.
Definition VDI_MAP_UNALLOCATED : Z := 0xffffffff.
Definition VDI_MAP_ZERO : Z := 0xfffffffe.
Definition VDI_SIG_OFF : Z := 0x40.
Definition VDI_VERSION_OFF : Z := 0x44.
Definition VDI_HEADER_SIZE_OFF : Z := 0x48.
Definition VDI_TYPE_OFF : Z := 0x4c.
Definition VDI_BLOCKS_OFFSET_OFF : Z := 0x154.
Definition VDI_DATA_OFFSET_OFF : Z := 0x158.
Definition VDI_SECTOR_SIZE_OFF : Z := 0x168.
Definition VDI_DISK_SIZE_OFF : Z := 0x170.
Definition VDI_BLOCK_SIZE_OFF : Z := 0x178.
Definition VDI_BLOCK_EXTRA_OFF : Z := 0x17c.
Definition VDI_BLOCK_COUNT_OFF : Z := 0x180.
Definition VDI_BLOCKS_ALLOC_OFF : Z := 0x184.
Definition VDI_UUID_PARENT_OFF : Z := 0x1a8.

(** [struct nextufs_vdi_backend]; the parent comes with its [image_size].  The host
    heap is the list of the outcomes of the next allocations. *)
Record vdi (P : Type) := Vdi {
  v_file : file;
  v_map_offset : Z;
  v_data_offset : Z;
  v_block_size : Z;
  v_block_extra : Z;
  v_block_count : Z;
  v_allocated : Z;
  v_disk_size : Z;
  v_map : Z -> Z;
  v_parent : option (P * Z);
  v_failed : bool;
  v_heap : list bool;
}.
Arguments Vdi {P}.
Arguments v_file {P}. Arguments v_map_offset {P}. Arguments v_data_offset {P}.
Arguments v_block_size {P}. Arguments v_block_extra {P}. Arguments v_block_count {P}.
Arguments v_allocated {P}. Arguments v_disk_size {P}. Arguments v_map {P}.
Arguments v_parent {P}. Arguments v_failed {P}. Arguments v_heap {P}.

Definition with_file {P} (d : vdi P) (f : file) : vdi P :=
  Vdi f (v_map_offset d) (v_data_offset d) (v_block_size d) (v_block_extra d)
    (v_block_count d) (v_allocated d) (v_disk_size d) (v_map d) (v_parent d) (v_failed d) (v_heap d).
Definition with_parent {P} (d : vdi P) (p : option (P * Z)) : vdi P :=
  Vdi (v_file d) (v_map_offset d) (v_data_offset d) (v_block_size d) (v_block_extra d)
    (v_block_count d) (v_allocated d) (v_disk_size d) (v_map d) p (v_failed d) (v_heap d).
Definition with_heap {P} (d : vdi P) (h : list bool) : vdi P :=
  Vdi (v_file d) (v_map_offset d) (v_data_offset d) (v_block_size d) (v_block_extra d)
    (v_block_count d) (v_allocated d) (v_disk_size d) (v_map d) (v_parent d) (v_failed d) h.
Definition with_failed {P} (d : vdi P) : vdi P :=
  Vdi (v_file d) (v_map_offset d) (v_data_offset d) (v_block_size d) (v_block_extra d)
    (v_block_count d) (v_allocated d) (v_disk_size d) (v_map d) (v_parent d) true (v_heap d).
Definition with_map {P} (d : vdi P) (map : Z -> Z) (allocated : Z) : vdi P :=
  Vdi (v_file d) (v_map_offset d) (v_data_offset d) (v_block_size d) (v_block_extra d)
    (v_block_count d) allocated (v_disk_size d) map (v_parent d) (v_failed d) (v_heap d).
Definition set_entry (map : Z -> Z) (i e : Z) : Z -> Z := fun j => if j =? i then e else map j.

(** The entry names a block of the file. *)
Definition stored (e : Z) : bool :=
  negb (e =? VDI_MAP_UNALLOCATED) && negb (e =? VDI_MAP_ZERO).
Definition stride {P} (d : vdi P) : Z := v_block_size d + v_block_extra d.
Definition block_file_off {P} (d : vdi P) (entry : Z) : Z := v_data_offset d + entry * stride d.
Definition guest_file_off {P} (d : vdi P) (entry guest_off : Z) : Z :=
  block_file_off d entry + v_block_extra d + guest_off mod v_block_size d.

Section vdi.
Context {P : Type} `{!Backend P}.
Local Abbreviation M := (M (vdi P)).

Definition on_file {A} (m : Prelude.M file A) : M A := fun d =>
  let (r, f) := m (v_file d) in (r, with_file d f).
Definition get_vdi : M (vdi P) := fun d => (Ok d, d).
Definition put_vdi (d : vdi P) : M unit := fun _ => (Ok tt, d).
Definition vdi_alloc : M unit := fun d =>
  match v_heap d with
  | [] => (Ok tt, d)
  | ok :: h => ((if ok : bool then Ok tt else Err ENOMEM), with_heap d h)
  end.
(** nextufs__read_exact on the parent image. *)
Definition parent_read (size offset : Z) : M buf := fun d =>
  match v_parent d with
  | None => (Err EINVAL, d)
  | Some (p, psize) =>
      if (offset <? 0) || (psize <? offset) || (psize - offset <? size) then (Err EINVAL, d)
      else let (r, p') := bk_read size offset p in (r, with_parent d (Some (p', psize)))
  end.

(** ** Reading *)
Definition read_chunk (guest_off chunk : Z) : M buf :=
  let! d := get_vdi in
  let entry := v_map d (w32 (guest_off / v_block_size d)) in
  if entry =? VDI_MAP_UNALLOCATED then
    match v_parent d with
    | Some (_, psize) =>
        if psize <=? guest_off then ret zeros
        else
          let parent_chunk := Z.min chunk (psize - guest_off) in
          let! b := map_err EIO (parent_read parent_chunk guest_off) in
          ret (blit zeros 0 b parent_chunk)
    | None => ret zeros
    end
  else if entry =? VDI_MAP_ZERO then ret zeros
  else map_err EIO (on_file (read_exact_fd chunk (guest_file_off d entry guest_off))).

Fixpoint vdi_read_loop (fuel : nat) (size offset got : Z) (out : buf) : M buf :=
  if got <? size then
    match fuel with
    | O => fail EIO
    | S fuel =>
        let! d := get_vdi in
        let guest_off := offset + got in
        if v_block_count d <=? w32 (guest_off / v_block_size d) then fail EIO
        else
          let chunk := Z.min (v_block_size d - guest_off mod v_block_size d) (size - got) in
          let! b := read_chunk guest_off chunk in
          vdi_read_loop fuel size offset (got + chunk) (blit out got b chunk)
    end
  else ret out.
(** The blocks a transfer can touch. *)
Definition vdi_fuel (d : vdi P) (size : Z) : nat := Z.to_nat (size / v_block_size d + 2).
Definition outside (d : vdi P) (size offset : Z) : bool :=
  (offset <? 0) || (v_disk_size d <? offset) || (v_disk_size d - offset <? size).
Definition vdi_backend_read (size offset : Z) : M buf :=
  let! d := get_vdi in
  if outside d size offset then fail EIO
  else vdi_read_loop (vdi_fuel d size) size offset 0 zeros.

(** ** Writing *)
Definition vdi_write_le32 (off value : Z) : M unit :=
  on_file (write_exact_fd (write_le32 zeros 0 value) 4 off).
Definition map_entry_off (d : vdi P) (block_index : Z) : Z := v_map_offset d + block_index * 4.
(** The new block's contents. *)
Definition inherited_block (block_index : Z) : M buf :=
  let! d := get_vdi in
  let guest_off := block_index * v_block_size d in
  match v_parent d with
  | Some (_, psize) =>
      if v_map d block_index =? VDI_MAP_UNALLOCATED then
        let inherited := Z.min (v_block_size d)
                           (if guest_off <? psize then psize - guest_off else 0) in
        if inherited =? 0 then ret zeros
        else let! b := parent_read inherited guest_off in ret (blit zeros 0 b inherited)
      else ret zeros
  | None => ret zeros
  end.
(** The count is published before its map reference; both are put back on errors. *)
Definition publish (block_index new_entry : Z) : M unit :=
  let! d := get_vdi in
  let! rc := attempt (vdi_write_le32 VDI_BLOCKS_ALLOC_OFF (new_entry + 1) ;;;
                      vdi_write_le32 (map_entry_off d block_index) new_entry) in
  match rc with
  | Ok _ =>
      let! d := get_vdi in
      put_vdi (with_map d (set_entry (v_map d) block_index new_entry) (v_allocated d + 1))
  | Err e =>
      let! map_rc := attempt (vdi_write_le32 (map_entry_off d block_index) (v_map d block_index)) in
      let! count_rc := attempt (vdi_write_le32 VDI_BLOCKS_ALLOC_OFF (v_allocated d)) in
      if negb (is_ok map_rc) || negb (is_ok count_rc) then
        let! d := get_vdi in put_vdi (with_failed d) ;;; fail EUCLEAN
      else fail e
  end.
Definition vdi_materialize_block (block_index : Z) : M unit :=
  let! d := get_vdi in
  if stored (v_map d block_index) then ret tt
  else if v_block_count d <=? v_allocated d then fail ENOSPC
  else
    vdi_alloc ;;;
    let! block := inherited_block block_index in
    let new_entry := v_allocated d in
    let off := block_file_off d new_entry in
    (if v_block_extra d =? 0 then ret tt
     else vdi_alloc ;;; on_file (write_exact_fd zeros (v_block_extra d) off)) ;;;
    on_file (write_exact_fd block (v_block_size d) (off + v_block_extra d)) ;;;
    publish block_index new_entry.

Fixpoint vdi_write_loop (fuel : nat) (b : buf) (size offset got : Z) : M unit :=
  if got <? size then
    match fuel with
    | O => fail EIO
    | S fuel =>
        let! d := get_vdi in
        let guest_off := offset + got in
        let block_index := w32 (guest_off / v_block_size d) in
        if v_block_count d <=? block_index then fail EIO
        else
          vdi_materialize_block block_index ;;;
          let! d := get_vdi in
          let entry := v_map d block_index in
          if negb (stored entry) then fail EIO
          else
            let chunk := Z.min (v_block_size d - guest_off mod v_block_size d) (size - got) in
            on_file (write_exact_fd (slice b got) chunk (guest_file_off d entry guest_off)) ;;;
            vdi_write_loop fuel b size offset (got + chunk)
    end
  else ret tt.
Definition vdi_backend_write (b : buf) (size offset : Z) : M unit :=
  let! d := get_vdi in
  if v_failed d then fail EUCLEAN
  else if outside d size offset then fail EIO
  else vdi_write_loop (vdi_fuel d size) b size offset 0.
Definition vdi_backend_fsync : M unit := on_file fsync.

#[export] Instance vdi_backend : Backend (vdi P) := {|
  bk_read := vdi_backend_read;
  bk_write := vdi_backend_write;
  bk_fsync := vdi_backend_fsync;
|}.
End vdi.

(** ** The disk a VDI file presents *)
Ltac vdi_offsets :=
  unfold VDI_SIG_OFF, VDI_VERSION_OFF, VDI_HEADER_SIZE_OFF, VDI_TYPE_OFF, VDI_BLOCKS_OFFSET_OFF,
    VDI_DATA_OFFSET_OFF, VDI_SECTOR_SIZE_OFF, VDI_DISK_SIZE_OFF, VDI_BLOCK_SIZE_OFF,
    VDI_BLOCK_EXTRA_OFF, VDI_BLOCK_COUNT_OFF, VDI_BLOCKS_ALLOC_OFF, VDI_UUID_PARENT_OFF in *; lia.

Section vdi_facts.
Context {P : Type} `{HB : Backend P, HS : !BackendSpec P}.
Implicit Types (d : vdi P).

Definition inherited_byte (p : option (P * Z)) (i : Z) : Z :=
  match p with
  | Some (p, psize) => if i <? psize then bk_view p i else 0
  | None => 0
  end.
Definition entry_byte d (e i : Z) : Z :=
  if e =? VDI_MAP_UNALLOCATED then inherited_byte (v_parent d) i
  else if e =? VDI_MAP_ZERO then 0
  else f_data (v_file d) (guest_file_off d e i).
Definition guest d : buf := fun i =>
  if (0 <=? i) && (i <? v_disk_size d) then entry_byte d (v_map d (i / v_block_size d)) i else 0.

Definition parent_inv (p : option (P * Z)) : Prop :=
  match p with Some (p, psize) => bk_inv p /\ 0 <= psize | None => True end.

(** What a validated header guarantees and every operation keeps. *)
Record vdi_geometry d : Prop := VdiGeometry {
  vg_bs : 0 < v_block_size d <= 32 * 1024 * 1024;
  vg_extra : 0 <= v_block_extra d <= 4096;
  vg_count : 0 < v_block_count d <= 16 * 1024 * 1024;
  vg_disk : 0 < v_disk_size d <= v_block_count d * v_block_size d /\ v_disk_size d < 2 ^ 63;
  vg_exact : v_block_count d = (v_disk_size d + v_block_size d - 1) / v_block_size d;
  vg_layout : VDI_BLOCKS_ALLOC_OFF + 4 <= v_map_offset d /\
    v_map_offset d + v_block_count d * 4 <= v_data_offset d;
}.
(** The header of the file says what is in memory ... *)
Record header_holds d : Prop := HeaderHolds {
  hh_magic : read_be32 (f_data (v_file d)) 0 <> QCOW2_MAGIC;
  hh_sig : read_le32 (f_data (v_file d)) VDI_SIG_OFF = VDI_SIGNATURE;
  hh_version : read_le32 (f_data (v_file d)) VDI_VERSION_OFF = 0x00010001;
  hh_size : VDI_UUID_PARENT_OFF + 16 <= VDI_SIG_OFF + read_le32 (f_data (v_file d)) VDI_HEADER_SIZE_OFF;
  hh_map_after : 0x48 + read_le32 (f_data (v_file d)) VDI_HEADER_SIZE_OFF <= v_map_offset d;
  hh_type : read_le32 (f_data (v_file d)) VDI_TYPE_OFF =
    match v_parent d with Some _ => VDI_TYPE_DIFF | None => VDI_TYPE_DYNAMIC end;
  hh_map : read_le32 (f_data (v_file d)) VDI_BLOCKS_OFFSET_OFF = v_map_offset d;
  hh_data : read_le32 (f_data (v_file d)) VDI_DATA_OFFSET_OFF = v_data_offset d;
  hh_sector : read_le32 (f_data (v_file d)) VDI_SECTOR_SIZE_OFF <> 0;
  hh_disk : read_le64 (f_data (v_file d)) VDI_DISK_SIZE_OFF = v_disk_size d;
  hh_bs : read_le32 (f_data (v_file d)) VDI_BLOCK_SIZE_OFF = v_block_size d;
  hh_extra : read_le32 (f_data (v_file d)) VDI_BLOCK_EXTRA_OFF = v_block_extra d;
  hh_count : read_le32 (f_data (v_file d)) VDI_BLOCK_COUNT_OFF = v_block_count d;
}.
(** ... and so do the count of blocks and the block map. *)
Definition published d : Prop :=
  read_le32 (f_data (v_file d)) VDI_BLOCKS_ALLOC_OFF = v_allocated d /\
  forall b, 0 <= b < v_block_count d ->
    read_le32 (f_data (v_file d)) (map_entry_off d b) = v_map d b.

Record vdi_inv d : Prop := VdiInv {
  vi_file : file_inv (v_file d);
  vi_parent : parent_inv (v_parent d);
  vi_geo : vdi_geometry d;
  vi_alloc : 0 <= v_allocated d <= v_block_count d;
  vi_map : forall b, 0 <= b < v_block_count d -> stored (v_map d b) = true ->
    0 <= v_map d b < v_allocated d;
  vi_inj : forall a b, 0 <= a < v_block_count d -> 0 <= b < v_block_count d -> a <> b ->
    stored (v_map d a) = true -> v_map d a <> v_map d b;
  vi_size : block_file_off d (v_allocated d) <= f_size (v_file d);
  vi_hdr : 512 <= f_size (v_file d);
  vi_header : header_holds d;
  vi_disk : v_failed d = false -> published d;
}.

(** Everything the operations never change. *)
Definition fixed d : Z * Z * Z * Z * Z * Z :=
  (v_map_offset d, v_data_offset d, v_block_size d, v_block_extra d, v_block_count d, v_disk_size d).

(** The end of the blocks in use. *)
Definition data_end d : Z := block_file_off d (v_allocated d).
(** Steps that change neither the parameters, nor the block map, nor the file up to
    [data_end]. *)
Record kept d d' : Prop := Kept {
  kp_fixed : fixed d' = fixed d;
  kp_map : v_map d' = v_map d /\ v_allocated d' = v_allocated d;
  kp_failed : v_failed d' = false -> v_failed d = false;
  kp_file : file_inv (v_file d) -> file_inv (v_file d');
  kp_data : forall i, i < data_end d -> f_data (v_file d') i = f_data (v_file d) i;
  kp_size : f_size (v_file d) <= f_size (v_file d');
  kp_parent : match v_parent d, v_parent d' with
    | Some (p, n), Some (p', n') => n' = n /\ (bk_inv p -> bk_inv p' /\ bk_view p' ≡ bk_view p)
    | None, None => True
    | _, _ => False end;
}.

Lemma fixed_inv d d' : fixed d' = fixed d ->
  v_map_offset d' = v_map_offset d /\ v_data_offset d' = v_data_offset d /\
  v_block_size d' = v_block_size d /\ v_block_extra d' = v_block_extra d /\
  v_block_count d' = v_block_count d /\ v_disk_size d' = v_disk_size d.
Proof. unfold fixed. intros [= -> -> -> -> -> ->]. done. Qed.
Lemma fixed_geometry d d' : fixed d' = fixed d -> vdi_geometry d -> vdi_geometry d'.
Proof.
  intros (E1 & E2 & E3 & E4 & E5 & E6)%fixed_inv []. constructor; by rewrite ?E1, ?E2, ?E3, ?E4, ?E5, ?E6.
Qed.
Lemma fixed_file_off d d' e i : fixed d' = fixed d ->
  guest_file_off d' e i = guest_file_off d e i /\ block_file_off d' e = block_file_off d e.
Proof.
  intros (_ & E2 & E3 & E4 & _)%fixed_inv. unfold guest_file_off, block_file_off, stride.
  by rewrite E2, E3, E4.
Qed.
Lemma kept_data_end d d' : kept d d' -> data_end d' = data_end d.
Proof.
  intros [F [_ M] _ _ _ _ _]. unfold data_end. rewrite M. by apply fixed_file_off; [exact 0|].
Qed.
#[export] Instance kept_preorder : PreOrder kept.
Proof.
  split.
  - intros d. constructor; try done. by destruct (v_parent d) as [[]|].
  - intros d1 d2 d3 H1 H2. pose proof (kept_data_end _ _ H1) as E.
    destruct H1 as [F1 [M1 A1] B1 I1 D1 S1 P1], H2 as [F2 [M2 A2] B2 I2 D2 S2 P2].
    constructor; auto; [congruence|split; congruence| |lia|].
    + intros i Hi. rewrite D2 by by rewrite E. auto.
    + destruct (v_parent d1) as [[p1 n1]|], (v_parent d2) as [[p2 n2]|],
        (v_parent d3) as [[p3 n3]|]; try done.
      destruct P1 as [-> H1], P2 as [-> H2]. split; [done|]. intros Hi.
      destruct (H1 Hi) as [Hi2 V1]. destruct (H2 Hi2) as [Hi3 V2]. split; [done|]. by etrans.
Qed.

(** Where a stored block lies *)
Lemma stored_region d e i : vdi_geometry d -> 0 <= e ->
  v_data_offset d <= block_file_off d e /\
  block_file_off d e + v_block_extra d <= guest_file_off d e i < block_file_off d (e + 1).
Proof.
  intros [Hb He Hc Hd _ _] Hpos. unfold guest_file_off, block_file_off, stride.
  pose proof (Z.mod_pos_bound i (v_block_size d) ltac:(lia)).
  assert (0 <= e * (v_block_size d + v_block_extra d)) by (apply Z.mul_nonneg_nonneg; lia).
  rewrite Z.mul_add_distr_r. lia.
Qed.
Lemma block_file_off_mono d a b : vdi_geometry d -> a <= b -> block_file_off d a <= block_file_off d b.
Proof. intros [Hb He _ _ _ _] H. unfold block_file_off, stride. nia. Qed.
Lemma data_end_after d : vdi_inv d -> v_data_offset d <= data_end d.
Proof.
  intros Hd. unfold data_end. etrans; [|apply (block_file_off_mono d 0)].
  - unfold block_file_off. lia.
  - apply Hd.
  - apply Hd.
Qed.

Lemma kept_inherited d d' i : kept d d' -> parent_inv (v_parent d) ->
  parent_inv (v_parent d') /\ inherited_byte (v_parent d') i = inherited_byte (v_parent d) i.
Proof.
  intros [_ _ _ _ _ _ Hp]. destruct (v_parent d) as [[p n]|], (v_parent d') as [[p' n']|]; try done.
  destruct Hp as [-> Hp]. cbn. intros [Hi Hn]. destruct (Hp Hi) as [Hi' Hv].
  split; [done|]. case_match; [apply Hv|done].
Qed.
Lemma kept_le32 d d' off : kept d d' -> off + 4 <= data_end d ->
  read_le32 (f_data (v_file d')) off = read_le32 (f_data (v_file d)) off.
Proof. intros [_ _ _ _ Hd _ _] Ho. apply read_le32_eq_on. intros i Hi. apply Hd. lia. Qed.
Lemma kept_header d d' : kept d d' -> VDI_BLOCKS_ALLOC_OFF <= data_end d ->
  header_holds d -> header_holds d'.
Proof.
  intros Hk Hend []. pose proof (fixed_inv _ _ (kp_fixed _ _ Hk)) as (E1 & E2 & E3 & E4 & E5 & E6).
  assert (Hp : match v_parent d' with Some _ => VDI_TYPE_DIFF | None => VDI_TYPE_DYNAMIC end =
               match v_parent d with Some _ => VDI_TYPE_DIFF | None => VDI_TYPE_DYNAMIC end).
  { pose proof (kp_parent _ _ Hk). by destruct (v_parent d) as [[]|], (v_parent d') as [[]|]. }
  assert (H8 : read_le64 (f_data (v_file d')) VDI_DISK_SIZE_OFF =
               read_le64 (f_data (v_file d)) VDI_DISK_SIZE_OFF).
  { apply read_le64_eq_on. intros i Hi. apply Hk. unfold VDI_DISK_SIZE_OFF, VDI_BLOCKS_ALLOC_OFF in *. lia. }
  assert (Hmg : read_be32 (f_data (v_file d')) 0 = read_be32 (f_data (v_file d)) 0).
  { apply read_be32_eq_on. intros i Hi. apply Hk. vdi_offsets. }
  constructor; rewrite ?E1, ?E2, ?E3, ?E4, ?E5, ?E6, ?Hp, ?H8, ?Hmg; try done;
    rewrite (kept_le32 d d') by (done || vdi_offsets); done.
Qed.
Lemma kept_inv d d' : kept d d' -> vdi_inv d -> vdi_inv d'.
Proof.
  intros Hk Hd. pose proof (data_end_after _ Hd) as Hend. pose proof (kept_data_end _ _ Hk) as Ee.
  pose proof (fixed_inv _ _ (kp_fixed _ _ Hk)) as (E1 & E2 & E3 & E4 & E5 & E6).
  pose proof Hk as [F [M A] B I D S _]. destruct Hd as [If Ip Ig Ia Im Ii Is I5 Ih Id].
  pose proof (vg_layout _ Ig) as [L1 L2]. pose proof (vg_count _ Ig) as L3.
  unfold VDI_BLOCKS_ALLOC_OFF in L1.
  constructor.
  - auto.
  - by apply (kept_inherited _ _ 0 Hk).
  - by apply (fixed_geometry d).
  - by rewrite A, E5.
  - intros b. rewrite M, A, E5. apply Im.
  - intros a b. rewrite M, E5. apply Ii.
  - fold (data_end d'). rewrite Ee. unfold data_end. lia.
  - lia.
  - apply (kept_header d); [done| |done]. unfold VDI_BLOCKS_ALLOC_OFF. lia.
  - intros Hf. destruct (Id (B Hf)) as [P1 P2]. split.
    + rewrite A, (kept_le32 d d'); [done|done|]. unfold VDI_BLOCKS_ALLOC_OFF. lia.
    + intros b. unfold map_entry_off. rewrite E1, E5, M. intros Hb.
      rewrite (kept_le32 d d'); [by apply P2|done|]. lia.
Qed.
Lemma kept_guest d d' : kept d d' -> vdi_inv d -> guest d' ≡ guest d.
Proof.
  intros Hk Hd i. pose proof (fixed_inv _ _ (kp_fixed _ _ Hk)) as (_ & _ & E3 & _ & _ & E6).
  pose proof Hk as [F [M A] B I D S _].
  unfold guest, entry_byte. rewrite E3, E6, M.
  destruct ((0 <=? i) && (i <? v_disk_size d)) eqn:Ei; [|done].
  set (e := v_map d (i / v_block_size d)).
  destruct (e =? VDI_MAP_UNALLOCATED) eqn:Eu; [by apply kept_inherited, Hd|].
  destruct (e =? VDI_MAP_ZERO) eqn:Ez; [done|].
  rewrite (proj1 (fixed_file_off d d' e i F)). apply D.
  pose proof (vi_geo _ Hd) as Hg. rewrite andb_true_iff, Z.leb_le, Z.ltb_lt in Ei.
  pose proof (vg_bs _ Hg). pose proof (vg_disk _ Hg).
  assert (He : 0 <= e < v_allocated d).
  { apply (vi_map _ Hd); [|unfold stored; fold e; by rewrite Eu, Ez].
    split; [apply Z.div_pos; lia|apply Z.div_lt_upper_bound; lia]. }
  pose proof (stored_region d e i Hg ltac:(lia)).
  pose proof (block_file_off_mono d (e + 1) (v_allocated d) Hg ltac:(lia)). unfold data_end. lia.
Qed.

(** Only the host's scripts and answers move. *)
Lemma host_kept d f h : f_data f = f_data (v_file d) -> f_size f = f_size (v_file d) ->
  kept d (with_heap (with_file d f) h).
Proof.
  intros Hd Hs. constructor; cbn; try done.
  - unfold file_inv. by rewrite Hd, Hs.
  - intros i _. by rewrite Hd.
  - lia.
  - by destruct (v_parent d) as [[]|].
Qed.
Lemma get_vdi_kept : Stable kept (get_vdi (P:=P)).
Proof. by intros d r d' [= <- <-]. Qed.
Lemma vdi_alloc_kept : Stable kept (vdi_alloc (P:=P)).
Proof.
  intros d r d'. unfold vdi_alloc. destruct (v_heap d) as [|ok h]; intros [= <- <-]; [done|].
  replace (with_heap d h) with (with_heap (with_file d (v_file d)) h) by by destruct d.
  by apply host_kept.
Qed.
Lemma file_kept d f : f_data f = f_data (v_file d) -> f_size f = f_size (v_file d) ->
  kept d (with_file d f).
Proof.
  intros Hd Hs. replace (with_file d f) with (with_heap (with_file d f) (v_heap d)) by by destruct d.
  by apply host_kept.
Qed.
Lemma read_file_kept n off : Stable kept (on_file (P:=P) (read_exact_fd n off)).
Proof.
  intros d r d' H. unfold on_file in H. destruct (read_exact_fd n off (v_file d)) as [x f] eqn:E.
  injection H as <- <-. apply read_exact_fd_spec in E as (Hd & Hs & _). by apply file_kept.
Qed.
Lemma fsync_file_kept : Stable kept (on_file (P:=P) fsync).
Proof.
  intros d r d' H. unfold on_file in H. destruct (fsync (v_file d)) as [x f] eqn:E.
  injection H as <- <-. apply fsync_frame in E as [Hd Hs]. by apply file_kept.
Qed.
Lemma parent_read_kept n off : Stable kept (parent_read (P:=P) n off).
Proof.
  intros d r d' H. unfold parent_read in H. destruct (v_parent d) as [[p psize]|] eqn:E.
  2: { by injection H as <- <-. }
  destruct (_ || _) eqn:Eb; [by injection H as <- <-|]. bool_to_prop.
  destruct (bk_read n off p) as [x p'] eqn:Er. injection H as <- <-.
  constructor; try done. rewrite E. cbn [v_parent with_parent]. split; [done|].
  intros Hi. by apply bk_read_spec in Er as (Hi' & Hv & _); [|done|lia].
Qed.
Local Hint Resolve get_vdi_kept vdi_alloc_kept read_file_kept parent_read_kept : stable.
Lemma read_chunk_kept g n : Stable kept (read_chunk (P:=P) g n).
Proof. unfold read_chunk. solve_stable. Qed.
Lemma inherited_block_kept b : Stable kept (inherited_block (P:=P) b).
Proof. unfold inherited_block. solve_stable. Qed.
Local Hint Resolve read_chunk_kept inherited_block_kept : stable.
Lemma vdi_read_loop_kept fuel : forall n off got out,
  Stable kept (vdi_read_loop (P:=P) fuel n off got out).
Proof. induction fuel as [|fuel IH]; intros n off got out; cbn [vdi_read_loop]; solve_stable; by auto. Qed.

Lemma block_index_range d g : vdi_geometry d -> 0 <= g < v_disk_size d ->
  0 <= g / v_block_size d < v_block_count d /\ w32 (g / v_block_size d) = g / v_block_size d.
Proof.
  intros [Hb _ Hc Hd _ _] Hg. assert (H : 0 <= g / v_block_size d < v_block_count d).
  { split; [apply Z.div_pos; lia|]. apply Z.div_lt_upper_bound; lia. }
  split; [done|]. apply w32_small. lia.
Qed.

(** *** Reads *)
Lemma parent_read_ok n off d b d' p psize :
  v_parent d = Some (p, psize) -> bk_inv p -> parent_read n off d = (Ok b, d') ->
  eq_on 0 n b (slice (bk_view p) off) /\ wf_buf b.
Proof.
  intros Ep Hi Hr. unfold parent_read in Hr. rewrite Ep in Hr.
  destruct (_ || _) eqn:Eb; [done|]. bool_to_prop.
  destruct (bk_read n off p) as [x p'] eqn:Er. injection Hr as -> _.
  pose proof (bk_read_wf _ _ _ _ _ Hi Er) as Hwf.
  apply bk_read_spec in Er as (_ & _ & Hok); [|done|lia]. auto.
Qed.
Lemma file_read_ok n off d b d' :
  file_inv (v_file d) -> on_file (read_exact_fd n off) d = (Ok b, d') ->
  eq_on 0 n b (slice (f_data (v_file d)) off) /\ wf_buf b.
Proof.
  intros Hi Hr. unfold on_file in Hr.
  destruct (read_exact_fd n off (v_file d)) as [x f] eqn:E. injection Hr as -> _.
  pose proof (bk_read_wf n off (v_file d) b f Hi E) as Hwf.
  apply read_exact_fd_spec in E as (_ & _ & _ & Hok). auto.
Qed.

Lemma read_chunk_ok g n d b d' :
  vdi_inv d -> 0 <= g -> 0 < n -> g + n <= v_disk_size d ->
  n <= v_block_size d - g mod v_block_size d ->
  read_chunk g n d = (Ok b, d') -> eq_on 0 n b (slice (guest d) g) /\ wf_buf b.
Proof.
  intros Hd Hg Hn Hend Hin Hr. pose proof (vi_geo _ Hd) as Hgeo.
  pose proof (block_index_range d g Hgeo ltac:(lia)) as [_ Hw].
  assert (Hbyte : forall i, 0 <= i < n ->
    slice (guest d) g i = entry_byte d (v_map d (g / v_block_size d)) (g + i)).
  { intros i Hi. unfold slice, guest.
    destruct (in_block (v_block_size d) g i) as [-> _]; [apply Hgeo|lia|].
    destruct (Z.leb_spec 0 (g + i)); [|lia]. by destruct (Z.ltb_spec (g + i) (v_disk_size d)); [|lia]. }
  unfold read_chunk in Hr. rewrite (bind_run _ _ d d d) in Hr by done. rewrite Hw in Hr.
  set (e := v_map d (g / v_block_size d)) in *. unfold entry_byte in Hbyte.
  destruct (e =? VDI_MAP_UNALLOCATED).
  { pose proof (vi_parent _ Hd) as Hp. unfold inherited_byte in Hbyte.
    destruct (v_parent d) as [[p psize]|] eqn:Ep; cbn [parent_inv] in Hp.
    - destruct (Z.leb_spec psize g).
      + injection Hr as <- _. split; [|apply wf_zeros]. intros i Hi. rewrite Z.add_0_l in *.
        rewrite Hbyte by lia. by destruct (Z.ltb_spec (g + i) psize); [lia|].
      + apply bind_ok in Hr as (x & d1 & H1 & Hr). injection Hr as <- <-.
        apply map_err_ok, (parent_read_ok _ _ _ _ _ p psize) in H1 as [Hx Hwf]; [|done|apply Hp].
        split; [|auto with bytes]. intros i Hi. rewrite Z.add_0_l in Hi. rewrite Hbyte by lia.
        unfold blit. case_match eqn:E.
        * rewrite Z.sub_0_r, Hx by lia. by destruct (Z.ltb_spec (g + i) psize); [|lia].
        * by destruct (Z.ltb_spec (g + i) psize); [lia|].
    - injection Hr as <- _. split; [|apply wf_zeros]. intros i Hi. by rewrite Hbyte by lia. }
  destruct (e =? VDI_MAP_ZERO).
  { injection Hr as <- _. split; [|apply wf_zeros]. intros i Hi. by rewrite Hbyte by lia. }
  apply map_err_ok, file_read_ok in Hr as [Hx Hwf]; [|apply Hd]. split; [|done].
  intros i Hi. rewrite Hbyte, Hx by lia. unfold slice, guest_file_off.
  destruct (in_block (v_block_size d) g i) as [_ ->]; [apply Hgeo|lia|]. f_equal. lia.
Qed.

(** One block after another, with fuel for all of them. *)
Lemma vdi_read_loop_ok fuel : forall n off got out d b d',
  vdi_inv d -> 0 <= off -> 0 <= got -> off + n <= v_disk_size d ->
  wf_buf out -> eq_on 0 got out (slice (guest d) off) ->
  vdi_read_loop fuel n off got out d = (Ok b, d') ->
  eq_on 0 n b (slice (guest d) off) /\ wf_buf b.
Proof.
  induction fuel as [|fuel IH]; intros n off got out d b d' Hd Ho Hg Hend Hwf Hout Hr;
    cbn [vdi_read_loop] in Hr; destruct (Z.ltb_spec got n) as [Hlt|Hge];
    try (injection Hr as <- _; split; [intros i Hi; apply Hout; lia|done]); [done|].
  rewrite (bind_run _ _ d d d) in Hr by done. cbv zeta in Hr.
  destruct (_ <=? _) in Hr; [done|].
  set (n1 := Z.min _ (n - got)) in Hr.
  pose proof (vi_geo _ Hd) as Hgeo. pose proof (vg_bs _ Hgeo) as Hb.
  pose proof (Z.mod_pos_bound (off + got) (v_block_size d) ltac:(lia)) as Hm.
  apply bind_ok in Hr as (x & d1 & H1 & Hr). pose proof (read_chunk_kept _ _ _ _ _ H1) as Hq.
  apply read_chunk_ok in H1 as [Hx Hxwf]; [|done|lia|lia|lia|lia].
  pose proof (kept_guest _ _ Hq Hd) as Hv.
  pose proof (fixed_inv _ _ (kp_fixed _ _ Hq)) as (_ & _ & _ & _ & _ & E6).
  apply IH in Hr as [Hres Hwf']; [|by eapply kept_inv|done|lia|by rewrite E6|auto with bytes|].
  - split; [|done]. intros i Hi. rewrite Hres by done. unfold slice. apply Hv.
  - intros i Hi. unfold slice. rewrite (Hv _). unfold blit. case_match eqn:E.
    + rewrite Hx by lia. unfold slice. f_equal. lia.
    + apply Hout. lia.
Qed.

Lemma vdi_read_spec n off d r d' :
  vdi_inv d -> vdi_backend_read n off d = (r, d') ->
  vdi_inv d' /\ guest d' ≡ guest d /\
  forall b, r = Ok b -> eq_on 0 n b (slice (guest d) off) /\ wf_buf b.
Proof.
  intros Hd Hr. unfold vdi_backend_read in Hr. rewrite (bind_run _ _ d d d) in Hr by done.
  destruct (outside d n off) eqn:Eo; [injection Hr as <- <-; by split_and!|].
  unfold outside in Eo. bool_to_prop. pose proof (vdi_read_loop_kept _ _ _ _ _ _ _ _ Hr) as Hq.
  split; [by eapply kept_inv|]. split; [by apply kept_guest|]. intros b ->.
  apply vdi_read_loop_ok in Hr; [done|done|lia|lia|lia|apply wf_zeros|]. intros i Hi. lia.
Qed.

(** *** Writes to the file *)
Lemma write_file_spec b n off d r d' :
  on_file (write_exact_fd b n off) d = (r, d') -> file_inv (v_file d) -> 0 <= off ->
  exists f, d' = with_file d f /\ file_inv f /\
    (forall i, ~ (off <= i < off + n) -> f_data f i = f_data (v_file d) i) /\
    f_size (v_file d) <= f_size f /\
    (r = Ok tt -> f_data f ≡ blit (f_data (v_file d)) off (to_bytes b) n /\
                  (0 < n -> off + n <= f_size f)).
Proof.
  intros Hr Hi Ho. unfold on_file in Hr.
  destruct (write_exact_fd b n off (v_file d)) as [x f] eqn:E. injection Hr as <- <-.
  pose proof (write_exact_fd_size _ _ _ _ _ _ E) as [Hs Hs'].
  apply write_exact_fd_spec in E as (? & _ & ? & ?); [|done|done].
  exists f. split_and!; auto.
Qed.
(** A write behind the blocks in use *)
Lemma write_beyond_kept b n off d r d' :
  vdi_inv d -> data_end d <= off -> on_file (write_exact_fd b n off) d = (r, d') -> kept d d'.
Proof.
  intros Hd Hoff Hr. pose proof (data_end_after _ Hd). pose proof (vg_layout _ (vi_geo _ Hd)).
  pose proof (vg_count _ (vi_geo _ Hd)).
  apply write_file_spec in Hr as (f & -> & Hf & Hfr & Hs & _); [|apply Hd|vdi_offsets].
  constructor; try done.
  - intros i Hi. apply Hfr. lia.
  - cbn. by destruct (v_parent d) as [[]|].
Qed.

(** Writes of the count and of map entries *)
Definition meta d (i : Z) : Prop :=
  VDI_BLOCKS_ALLOC_OFF <= i < VDI_BLOCKS_ALLOC_OFF + 4 \/
  v_map_offset d <= i < v_map_offset d + v_block_count d * 4.
Record meta_only d (f : file) : Prop := MetaOnly {
  mo_inv : file_inv f;
  mo_data : forall i, ~ meta d i -> f_data f i = f_data (v_file d) i;
  mo_size : f_size (v_file d) <= f_size f;
}.
Lemma meta_only_trans d f1 f2 : meta_only d f1 -> meta_only (with_file d f1) f2 -> meta_only d f2.
Proof.
  intros [I1 D1 S1] [I2 D2 S2]. cbn in *. constructor; [done| |lia].
  intros i Hi. rewrite D2 by done. by apply D1.
Qed.
Lemma le32_written d off v r d' :
  vdi_write_le32 off v d = (r, d') -> file_inv (v_file d) -> 0 <= off ->
  (forall i, off <= i < off + 4 -> meta d i) ->
  exists f, d' = with_file d f /\ meta_only d f /\
    (forall i, ~ (off <= i < off + 4) -> f_data f i = f_data (v_file d) i) /\
    (r = Ok tt -> read_le32 (f_data f) off = w32 v).
Proof.
  intros Hr Hi Ho Hm. apply write_file_spec in Hr as (f & -> & Hf & Hfr & Hs & Hok); [|done|done].
  exists f. split; [done|]. split; [constructor; [done| |done]|split; [done|]].
  - intros i Hn. apply Hfr. intros ?. by apply Hn, Hm.
  - intros [Hv _]%Hok. rewrite <- (read_write_le32 zeros 0 v).
    replace (read_le32 (f_data f) off) with (read_le32 (slice (f_data f) off) 0)
      by (unfold read_le32, slice; by rewrite Z.add_0_r).
    apply read_le32_eq_on. intros i Hi4. unfold slice. rewrite (Hv _), blit_in by lia.
    rewrite to_bytes_id by (unfold write_le32; repeat apply wf_upd; apply wf_zeros). f_equal. lia.
Qed.

Lemma meta_header d f : vdi_inv d -> meta_only d f -> header_holds (with_file d f).
Proof.
  intros Hd [_ Hf _]. destruct (vi_header _ Hd). pose proof (vg_layout _ (vi_geo _ Hd)) as [L _].
  assert (H4 : forall off, off + 4 <= VDI_BLOCKS_ALLOC_OFF ->
    read_le32 (f_data f) off = read_le32 (f_data (v_file d)) off).
  { intros off Ho. apply read_le32_eq_on. intros i Hi. apply Hf. unfold meta. lia. }
  assert (H8 : read_le64 (f_data f) VDI_DISK_SIZE_OFF = read_le64 (f_data (v_file d)) VDI_DISK_SIZE_OFF).
  { apply read_le64_eq_on. intros i Hi. apply Hf. unfold meta. vdi_offsets. }
  assert (Hmg : read_be32 (f_data f) 0 = read_be32 (f_data (v_file d)) 0).
  { apply read_be32_eq_on. intros i Hi. apply Hf. unfold meta. vdi_offsets. }
  constructor; cbn [v_file with_file v_map_offset v_data_offset v_block_size v_block_extra
    v_block_count v_disk_size v_parent]; rewrite ?H8, ?Hmg; try done; rewrite H4 by vdi_offsets; done.
Qed.
Lemma meta_below d i : vdi_inv d -> v_data_offset d <= i -> ~ meta d i.
Proof.
  intros Hd Hi. pose proof (vg_layout _ (vi_geo _ Hd)) as [L1 L2].
  pose proof (vg_count _ (vi_geo _ Hd)). unfold meta. vdi_offsets.
Qed.
Lemma meta_guest d f : vdi_inv d -> meta_only d f -> guest (with_file d f) ≡ guest d.
Proof.
  intros Hd Hf i. unfold guest, entry_byte. cbn [v_file with_file v_disk_size v_map v_parent v_block_size].
  destruct ((0 <=? i) && (i <? v_disk_size d)) eqn:Ei; [|done].
  set (e := v_map d (i / v_block_size d)).
  destruct (e =? VDI_MAP_UNALLOCATED) eqn:Eu; [done|].
  destruct (e =? VDI_MAP_ZERO) eqn:Ez; [done|]. apply (mo_data _ _ Hf), meta_below; [done|].
  rewrite andb_true_iff, Z.leb_le, Z.ltb_lt in Ei. pose proof (vi_geo _ Hd) as Hg.
  pose proof (vg_bs _ Hg). pose proof (vg_disk _ Hg). pose proof (vg_extra _ Hg).
  assert (He : 0 <= e < v_allocated d).
  { apply (vi_map _ Hd); [|unfold stored; fold e; by rewrite Eu, Ez].
    split; [apply Z.div_pos; lia|apply Z.div_lt_upper_bound; lia]. }
  change (guest_file_off (with_file d f) e i) with (guest_file_off d e i).
  pose proof (stored_region d e i Hg ltac:(lia)). lia.
Qed.

(** *** Giving a block a place in the file *)
Lemma not_stored e : stored e = false -> e = VDI_MAP_UNALLOCATED \/ e = VDI_MAP_ZERO.
Proof.
  unfold stored. destruct (Z.eqb_spec e VDI_MAP_UNALLOCATED); [by left|].
  destruct (Z.eqb_spec e VDI_MAP_ZERO); [by right|done].
Qed.
Lemma inherited_block_ok idx d b d' :
  vdi_inv d -> stored (v_map d idx) = false -> inherited_block idx d = (Ok b, d') ->
  wf_buf b /\ forall j, 0 <= j < v_block_size d ->
    b j = entry_byte d (v_map d idx) (idx * v_block_size d + j).
Proof.
  intros Hd Hst Hr. unfold inherited_block in Hr. rewrite (bind_run _ _ d d d) in Hr by done.
  apply not_stored in Hst. unfold entry_byte, inherited_byte.
  pose proof (vi_parent _ Hd) as Hp.
  destruct (v_parent d) as [[p psize]|] eqn:Ep; cbn [parent_inv] in Hp.
  2: { injection Hr as <- _. split; [apply wf_zeros|]. intros j _. destruct Hst as [->| ->]; done. }
  destruct (Z.eqb_spec (v_map d idx) VDI_MAP_UNALLOCATED) as [_|Hne].
  2: { injection Hr as <- _. split; [apply wf_zeros|]. intros j _. by destruct Hst as [?| ->]. }
  set (g := idx * v_block_size d) in *.
  set (inh := Z.min _ _) in Hr. assert (Hin : forall j, 0 <= j < v_block_size d ->
    (j < inh <-> g + j < psize)).
  { intros j Hj. unfold inh. destruct (Z.ltb_spec g psize); lia. }
  destruct (Z.eqb_spec inh 0) as [H0|H0].
  { injection Hr as <- _. split; [apply wf_zeros|]. intros j Hj. specialize (Hin j Hj).
    by destruct (Z.ltb_spec (g + j) psize); [lia|]. }
  apply bind_ok in Hr as (x & d1 & H1 & Hr). injection Hr as <- _.
  apply (parent_read_ok _ _ _ _ _ p psize) in H1 as [Hx Hwf]; [|done|apply Hp].
  split; [auto with bytes|]. intros j Hj. specialize (Hin j Hj). unfold blit. case_match eqn:E.
  - rewrite Z.sub_0_r, Hx by lia. unfold slice. by destruct (Z.ltb_spec (g + j) psize); [|lia].
  - by destruct (Z.ltb_spec (g + j) psize); [lia|].
Qed.

Lemma entry_window d idx : vdi_inv d -> 0 <= idx < v_block_count d ->
  (forall i, map_entry_off d idx <= i < map_entry_off d idx + 4 -> meta d i) /\
  0 <= map_entry_off d idx /\ VDI_BLOCKS_ALLOC_OFF + 4 <= map_entry_off d idx.
Proof.
  intros Hd Hi. pose proof (vg_layout _ (vi_geo _ Hd)) as [L1 L2]. unfold map_entry_off, meta.
  split_and!; [intros i Hi'; right; lia|vdi_offsets|lia].
Qed.

(** [rc] of the two writes, in either order of the two places. *)
Lemma two_written offa va offb vb d r d' :
  (vdi_write_le32 offa va ;;; vdi_write_le32 offb vb) d = (r, d') ->
  vdi_inv d -> 0 <= offa -> 0 <= offb ->
  (forall i, offa <= i < offa + 4 -> meta d i) -> (forall i, offb <= i < offb + 4 -> meta d i) ->
  exists f, d' = with_file d f /\ meta_only d f /\
    (forall i, ~ (offa <= i < offa + 4) -> ~ (offb <= i < offb + 4) ->
       f_data f i = f_data (v_file d) i) /\
    (r = Ok tt -> read_le32 (f_data f) offb = w32 vb /\
       (offa + 4 <= offb \/ offb + 4 <= offa -> read_le32 (f_data f) offa = w32 va)).
Proof.
  intros Hr Hd Ha Hb Hma Hmb.
  apply bind_inv in Hr as [([] & d1 & H1 & Hr)|(e & H1 & ->)];
    apply le32_written in H1 as (f1 & -> & Hf1 & Hfr1 & Hok1); [|apply Hd|done|done| |apply Hd|done|done].
  2: { exists f1. split_and!; [done|done|auto|done]. }
  apply le32_written in Hr as (f2 & -> & Hf2 & Hfr2 & Hok2); [|apply Hf1|done|done].
  exists f2. split; [done|]. split; [by eapply meta_only_trans|]. split.
  - intros i Hi1 Hi2. rewrite Hfr2 by done. by apply Hfr1.
  - intros Hr. split; [by apply Hok2|]. intros Hdis. rewrite <- (Hok1 eq_refl).
    apply read_le32_eq_on. intros i Hi. apply Hfr2. lia.
Qed.

(** The block has its place and contents; only the map does not say so yet. *)
Record placed d idx : Prop := Placed {
  pc_idx : 0 <= idx < v_block_count d;
  pc_free : stored (v_map d idx) = false;
  pc_room : v_allocated d < v_block_count d;
  pc_size : block_file_off d (v_allocated d + 1) <= f_size (v_file d);
  pc_data : forall j, 0 <= j < v_block_size d ->
    f_data (v_file d) (block_file_off d (v_allocated d) + v_block_extra d + j) =
    entry_byte d (v_map d idx) (idx * v_block_size d + j);
}.
Lemma new_stored d : vdi_inv d -> v_allocated d < v_block_count d -> stored (v_allocated d) = true.
Proof.
  intros Hd Hr. pose proof (vg_count _ (vi_geo _ Hd)). pose proof (vi_alloc _ Hd).
  unfold stored, VDI_MAP_UNALLOCATED, VDI_MAP_ZERO.
  destruct (Z.eqb_spec (v_allocated d) 0xffffffff); [lia|].
  by destruct (Z.eqb_spec (v_allocated d) 0xfffffffe); [lia|].
Qed.

(** The state after the map entry has been published. *)
Lemma published_inv d idx f :
  vdi_inv d -> placed d idx -> meta_only d f ->
  read_le32 (f_data f) VDI_BLOCKS_ALLOC_OFF = v_allocated d + 1 ->
  read_le32 (f_data f) (map_entry_off d idx) = v_allocated d ->
  (forall b, 0 <= b < v_block_count d -> b <> idx ->
     read_le32 (f_data f) (map_entry_off d b) = read_le32 (f_data (v_file d)) (map_entry_off d b)) ->
  let d' := with_map (with_file d f) (set_entry (v_map d) idx (v_allocated d)) (v_allocated d + 1) in
  vdi_inv d' /\ guest d' ≡ guest d.
Proof.
  intros Hd Hp Hf Hcount Hentry Hothers d'. pose proof (vi_geo _ Hd) as Hg.
  pose proof (meta_header _ _ Hd Hf) as Hh. pose proof (pc_room _ _ Hp). pose proof (vi_alloc _ Hd).
  split.
  - constructor; cbn [v_file v_parent v_map v_allocated v_block_count v_failed d' with_map with_file].
    + apply Hf.
    + apply Hd.
    + by apply (fixed_geometry d).
    + lia.
    + intros b Hb. unfold set_entry. destruct (Z.eqb_spec b idx); [lia|].
      intros Hs. pose proof (vi_map _ Hd b Hb Hs). lia.
    + intros a b Ha Hb Hne. unfold set_entry.
      destruct (Z.eqb_spec a idx) as [->|], (Z.eqb_spec b idx) as [->|]; try done.
      * intros _ He. pose proof (vi_map _ Hd b Hb) as Hm. rewrite <- He in Hm.
        specialize (Hm (new_stored _ Hd ltac:(lia))). lia.
      * intros Hs He. pose proof (vi_map _ Hd a Ha Hs). lia.
      * by apply (vi_inj _ Hd).
    + pose proof (pc_size _ _ Hp). pose proof (mo_size _ _ Hf).
      change (block_file_off d' (v_allocated d + 1)) with (block_file_off d (v_allocated d + 1)). lia.
    + pose proof (mo_size _ _ Hf). pose proof (vi_hdr _ Hd). lia.
    + destruct Hh. by constructor.
    + intros Hfail. split; [done|]. intros b Hb. change (0 <= b < v_block_count d) in Hb.
      change (read_le32 (f_data f) (map_entry_off d b) = set_entry (v_map d) idx (v_allocated d) b).
      unfold set_entry.
      destruct (Z.eqb_spec b idx) as [->|]; [done|]. rewrite Hothers by done.
      by apply (vi_disk _ Hd Hfail).
  - intros i. rewrite <- (meta_guest _ _ Hd Hf i). unfold guest.
    cbn [v_disk_size v_block_size v_map d' with_map with_file].
    destruct ((0 <=? i) && (i <? v_disk_size d)) eqn:Ei; [|done].
    rewrite andb_true_iff, Z.leb_le, Z.ltb_lt in Ei. unfold set_entry.
    destruct (Z.eqb_spec (i / v_block_size d) idx) as [Hb|]; [|done].
    unfold entry_byte at 1. pose proof (new_stored _ Hd ltac:(lia)) as Hs.
    unfold stored in Hs. rewrite andb_true_iff, !negb_true_iff in Hs. destruct Hs as [-> ->].
    pose proof (vg_bs _ Hg). pose proof (Z.mod_pos_bound i (v_block_size d) ltac:(lia)).
    change (guest_file_off d' (v_allocated d) i) with (guest_file_off d (v_allocated d) i).
    cbn [v_file d' with_map with_file].
    rewrite (mo_data _ _ Hf).
    + unfold guest_file_off. rewrite (pc_data _ _ Hp) by done.
      rewrite <- Hb at 2. replace (i / v_block_size d * v_block_size d + i mod v_block_size d) with i
        by (pose proof (Z.div_mod i (v_block_size d) ltac:(lia)); lia).
      rewrite Hb. unfold entry_byte. by destruct (not_stored _ (pc_free _ _ Hp)) as [->| ->].
    + apply meta_below; [done|]. pose proof (stored_region d (v_allocated d) i Hg ltac:(lia)).
      pose proof (vg_extra _ Hg). lia.
Qed.

Lemma meta_inv d f (d2 := with_file d f) :
  vdi_inv d -> meta_only d f ->
  vdi_inv (with_failed d2) /\ ((v_failed d = false -> published d2) -> vdi_inv d2).
Proof.
  intros Hd Hf. pose proof (meta_header _ _ Hd Hf) as Hh.
  pose proof (mo_size _ _ Hf). pose proof (vi_size _ Hd). pose proof (vi_hdr _ Hd).
  assert (Hg : forall x, fixed x = fixed d -> vdi_geometry x)
    by (intros x Hx; apply (fixed_geometry d x Hx), Hd).
  split; [|intros Hpub]; (constructor;
    [apply Hf|apply Hd|by apply Hg|apply Hd|apply (vi_map _ Hd)|apply (vi_inj _ Hd)| | | |]).
  - change (block_file_off d (v_allocated d) <= f_size f). lia.
  - change (512 <= f_size f). lia.
  - destruct Hh. by constructor.
  - intros [=].
  - change (block_file_off d (v_allocated d) <= f_size f). lia.
  - change (512 <= f_size f). lia.
  - exact Hh.
  - exact Hpub.
Qed.

Lemma entries_apart d a b : a <> b ->
  map_entry_off d a + 4 <= map_entry_off d b \/ map_entry_off d b + 4 <= map_entry_off d a.
Proof. unfold map_entry_off. lia. Qed.

Lemma publish_ok idx d r d' :
  vdi_inv d -> placed d idx -> publish idx (v_allocated d) d = (r, d') ->
  vdi_inv d' /\ guest d' ≡ guest d /\ fixed d' = fixed d /\
  (r = Ok tt -> stored (v_map d' idx) = true).
Proof.
  intros Hd Hp Hr. unfold publish in Hr. rewrite (bind_run _ _ d d d) in Hr by done.
  pose proof (vg_count _ (vi_geo _ Hd)) as Hcnt. pose proof (vi_alloc _ Hd) as Hal.
  pose proof (pc_room _ _ Hp) as Hroom.
  destruct (entry_window _ _ Hd (pc_idx _ _ Hp)) as (Hwin & Hpos & Hsep).
  assert (Hcw : forall i, VDI_BLOCKS_ALLOC_OFF <= i < VDI_BLOCKS_ALLOC_OFF + 4 -> meta d i)
    by (intros i Hi; by left).
  apply bind_inv in Hr as [(rc & d1 & H1 & Hr)|(e & H1 & _)];
    apply attempt_inv in H1 as (y & Hy & H1); [|done]. injection Hy as <-.
  apply two_written in H1 as (f1 & -> & Hf1 & Hfr1 & Hok1); try done; try vdi_offsets.
  destruct rc as [[]|e].
  - rewrite (bind_run _ _ _ _ _ (eq_refl : get_vdi (with_file d f1) = _)) in Hr.
    injection Hr as <- <-. destruct (Hok1 eq_refl) as [He Hc]. specialize (Hc (or_introl Hsep)).
    rewrite w32_small in He, Hc by lia.
    destruct (published_inv d idx f1 Hd Hp Hf1 Hc He) as [Hi Hg].
    { intros b Hb Hne. apply read_le32_eq_on. intros i Hi.
      destruct (entries_apart d b idx Hne); apply Hfr1; try lia;
        destruct (entry_window _ _ Hd Hb) as (_ & _ & ?); vdi_offsets. }
    split_and!; [exact Hi|exact Hg|done|]. intros _. cbn [v_map with_map]. unfold set_entry.
    rewrite Z.eqb_refl. apply new_stored; [done|lia].
  - apply bind_inv in Hr as [(rm & d2 & H2 & Hr)|(x & H2 & _)];
      apply attempt_inv in H2 as (y & Hy & H2); [|done]. injection Hy as <-.
    apply le32_written in H2 as (f2 & -> & Hf2 & Hfr2 & Hok2); [|apply Hf1|done|done].
    apply bind_inv in Hr as [(rcn & d3 & H3 & Hr)|(x & H3 & _)];
      apply attempt_inv in H3 as (y & Hy & H3); [|done]. injection Hy as <-.
    apply le32_written in H3 as (f3 & -> & Hf3 & Hfr3 & Hok3); [|apply Hf2|vdi_offsets|done].
    assert (Hf : meta_only d f3).
    { eapply meta_only_trans; [exact Hf1|]. eapply meta_only_trans; [exact Hf2|exact Hf3]. }
    change (with_file (with_file (with_file d f1) f2) f3) with (with_file d f3) in Hr.
    destruct (meta_inv d f3 Hd Hf) as [Hfail Hok].
    pose proof (meta_guest _ _ Hd Hf) as Hgst.
    destruct (negb (is_ok rm) || negb (is_ok rcn)) eqn:E.
    { rewrite (bind_run _ _ _ _ _ (eq_refl : get_vdi (with_file d f3) = _)) in Hr.
      rewrite (bind_run _ _ _ tt (with_failed (with_file d f3))) in Hr by done.
      injection Hr as <- <-. by split_and!. }
    injection Hr as <- <-. rewrite orb_false_iff, !negb_false_iff in E.
    destruct rm as [[]|], rcn as [[]|]; try (by destruct E).
    split_and!; [|done|done|done]. apply Hok. intros Hnf.
    specialize (Hok2 eq_refl). specialize (Hok3 eq_refl). cbn [v_map v_allocated with_file] in Hok2, Hok3.
    split; cbn [v_file v_allocated v_block_count v_map with_file].
    + rewrite Hok3. apply w32_small. lia.
    + intros b Hb. change (map_entry_off (with_file d f3) b) with (map_entry_off d b).
      destruct (entry_window _ _ Hd Hb) as (_ & _ & Hsepb).
      destruct (vi_disk _ Hd Hnf) as [_ Hpub]. specialize (Hpub b Hb).
      rewrite (read_le32_eq_on (f_data f3) (f_data f2)) by (intros i Hi; apply Hfr3; vdi_offsets).
      destruct (decide (b = idx)) as [->|Hne].
      * change (map_entry_off (with_file d f1) idx) with (map_entry_off d idx) in Hok2.
        rewrite Hok2, w32_small; [done|]. rewrite <- Hpub. apply read_le32_range.
        apply (vi_file _ Hd).
      * rewrite <- Hpub. apply read_le32_eq_on. intros i Hi.
        destruct (entries_apart d b idx Hne); rewrite Hfr2, Hfr1; try done; vdi_offsets.
Qed.

(** A step that keeps the disk *)
Definition presents d d' : Prop := vdi_inv d' /\ guest d' ≡ guest d /\ fixed d' = fixed d.
Lemma kept_presents d d' : kept d d' -> vdi_inv d -> presents d d'.
Proof. intros Hk Hd. split_and!; [by eapply kept_inv|by apply kept_guest|apply Hk]. Qed.
Lemma presents_trans d1 d2 d3 : presents d1 d2 -> presents d2 d3 -> presents d1 d3.
Proof. intros (_ & G1 & F1) (I2 & G2 & F2). split_and!; [done|by etrans|congruence]. Qed.

Lemma entry_byte_kept d d' e i : kept d d' -> parent_inv (v_parent d) -> stored e = false ->
  entry_byte d' e i = entry_byte d e i.
Proof.
  intros Hk Hp He. unfold entry_byte. destruct (not_stored _ He) as [->| ->]; [|done].
  by apply kept_inherited.
Qed.

(** The new block written in full *)
Lemma block_placed d d3 idx block d4 :
  vdi_inv d -> vdi_inv d3 -> kept d d3 -> 0 <= idx < v_block_count d ->
  stored (v_map d idx) = false -> v_allocated d < v_block_count d -> wf_buf block ->
  (forall j, 0 <= j < v_block_size d -> block j = entry_byte d (v_map d idx) (idx * v_block_size d + j)) ->
  on_file (write_exact_fd block (v_block_size d) (data_end d + v_block_extra d)) d3 = (Ok tt, d4) ->
  kept d3 d4 /\ vdi_inv d4 /\ placed d4 idx.
Proof.
  intros Hd Hd3 Hk Hidx Hst Hroom Hwf Hblock Hr.
  pose proof (kept_data_end _ _ Hk) as Ee. pose proof (vg_extra _ (vi_geo _ Hd)) as Hx.
  pose proof (vg_bs _ (vi_geo _ Hd)) as Hb. pose proof (data_end_after _ Hd) as Hda.
  pose proof (vg_layout _ (vi_geo _ Hd)) as [L1 L2]. pose proof (vg_count _ (vi_geo _ Hd)).
  assert (Hk4 : kept d3 d4) by (eapply write_beyond_kept; [done| |exact Hr]; rewrite Ee; lia).
  assert (Hd4 : vdi_inv d4) by by eapply kept_inv. split; [done|]. split; [done|].
  assert (Hall : kept d d4) by by etrans.
  pose proof (kept_data_end _ _ Hall) as Ee4. unfold data_end in Ee4.
  pose proof (fixed_inv _ _ (kp_fixed _ _ Hall)) as (_ & _ & E3 & E4 & E5 & _).
  destruct (kp_map _ _ Hall) as [Em Ea].
  apply write_file_spec in Hr as (f & -> & _ & _ & _ & Hok); [|apply Hd3|vdi_offsets].
  destruct (Hok eq_refl) as [Hv Hs]. specialize (Hs ltac:(lia)).
  assert (Hend : block_file_off d (v_allocated d + 1) =
                 data_end d + v_block_extra d + v_block_size d)
    by (unfold data_end, block_file_off, stride; lia).
  constructor.
  - by rewrite E5.
  - by rewrite Em.
  - by rewrite Ea, E5.
  - rewrite Ea. rewrite (proj2 (fixed_file_off d (with_file d3 f) (v_allocated d + 1) 0 (kp_fixed _ _ Hall))).
    cbn [v_file with_file]. lia.
  - intros j. rewrite E3, E4, Em, Ee4. fold (data_end d). intros Hj.
    rewrite (entry_byte_kept d _ _ _ Hall) by (done || apply Hd).
    cbn [v_file with_file]. rewrite (Hv _), blit_in, to_bytes_id by (done || lia).
    rewrite <- Hblock by done. f_equal. lia.
Qed.

Lemma extra_kept d : vdi_inv d -> forall n off r d', data_end d <= off ->
  (if n =? 0 then ret tt else vdi_alloc ;;; on_file (write_exact_fd zeros n off)) d = (r, d') ->
  kept d d'.
Proof.
  intros Hd n off r d' Hoff Hr. destruct (n =? 0); [by injection Hr as _ <-|].
  apply bind_inv in Hr as [(u & d1 & H1 & Hr)|(e & H1 & _)]; apply vdi_alloc_kept in H1; [|done].
  etrans; [exact H1|]. eapply write_beyond_kept; [by eapply kept_inv| |exact Hr].
  by rewrite (kept_data_end _ _ H1).
Qed.

Lemma materialize_ok idx d r d' :
  vdi_inv d -> 0 <= idx < v_block_count d -> vdi_materialize_block idx d = (r, d') ->
  presents d d' /\ (r = Ok tt -> stored (v_map d' idx) = true).
Proof.
  intros Hd Hidx Hr. unfold vdi_materialize_block in Hr.
  rewrite (bind_run _ _ d d d) in Hr by done.
  assert (Hrefl : presents d d) by by split_and!.
  destruct (stored (v_map d idx)) eqn:Hst; [by injection Hr as <- <-|].
  destruct (Z.leb_spec (v_block_count d) (v_allocated d)) as [|Hroom]; [by injection Hr as <- <-|].
  apply bind_inv in Hr as [(u & d1 & H1 & Hr)|(e & H1 & ->)]; apply vdi_alloc_kept in H1 as K1.
  2: { split; [by apply kept_presents|done]. }
  assert (Hd1 : vdi_inv d1) by by eapply kept_inv.
  destruct (kp_map _ _ K1) as [Em1 Ea1].
  pose proof (fixed_inv _ _ (kp_fixed _ _ K1)) as (_ & _ & E3 & E4 & E5 & _).
  apply bind_inv in Hr as [(block & d2 & H2 & Hr)|(e & H2 & ->)];
    pose proof (inherited_block_kept _ _ _ _ H2) as K2.
  2: { split; [apply kept_presents; [by etrans|done]|done]. }
  apply inherited_block_ok in H2 as [Hwf Hblock]; [|done|by rewrite Em1].
  assert (K02 : kept d d2) by by etrans. assert (Hd2 : vdi_inv d2) by by eapply kept_inv.
  fold (data_end d) in Hr. pose proof (kept_data_end _ _ K02) as Ee2.
  apply bind_inv in Hr as [(u3 & d3 & H3 & Hr)|(e & H3 & ->)];
    (apply extra_kept in H3 as K3; [|done|by rewrite Ee2]).
  2: { split; [apply kept_presents; [by etrans|done]|done]. }
  assert (K03 : kept d d3) by by etrans. assert (Hd3 : vdi_inv d3) by by eapply kept_inv.
  apply bind_inv in Hr as [([] & d4 & H4 & Hr)|(e & H4 & ->)].
  2: { pose proof (kept_data_end _ _ K03) as Ee3. pose proof (vg_extra _ (vi_geo _ Hd)).
       split; [|done]. apply kept_presents; [|done]. etrans; [exact K03|].
       eapply write_beyond_kept; [done| |exact H4]. rewrite Ee3. lia. }
  apply (block_placed d d3 idx block) in H4 as (K4 & Hd4 & Hp); try done.
  2: { intros j Hj. rewrite Hblock by by rewrite E3. rewrite Em1, E3.
       apply entry_byte_kept; [done|apply Hd|done]. }
  assert (K04 : kept d d4) by by etrans. destruct (kp_map _ _ K04) as [_ Ea4].
  rewrite <- Ea4 in Hr. apply publish_ok in Hr as (Hi & Hg & Hfx & Hok); [|done|done].
  split; [|done]. eapply presents_trans; [by apply kept_presents|by split_and!].
Qed.

(** Data written into a stored block *)
Lemma data_inv d f : vdi_inv d -> file_inv f -> f_size (v_file d) <= f_size f ->
  (forall i, i < v_data_offset d -> f_data f i = f_data (v_file d) i) -> vdi_inv (with_file d f).
Proof.
  intros Hd Hf Hs Hlow. pose proof (vg_layout _ (vi_geo _ Hd)) as [L1 L2].
  pose proof (vg_count _ (vi_geo _ Hd)).
  assert (H4 : forall off, off + 4 <= v_data_offset d ->
    read_le32 (f_data f) off = read_le32 (f_data (v_file d)) off).
  { intros off Ho. apply read_le32_eq_on. intros i Hi. apply Hlow. lia. }
  pose proof (vi_size _ Hd). pose proof (vi_hdr _ Hd). constructor.
  - done.
  - apply Hd.
  - apply (fixed_geometry d); [done|apply Hd].
  - apply (vi_alloc _ Hd).
  - apply (vi_map _ Hd).
  - apply (vi_inj _ Hd).
  - change (block_file_off d (v_allocated d) <= f_size f). lia.
  - change (512 <= f_size f). lia.
  - destruct (vi_header _ Hd).
    assert (H8 : read_le64 (f_data f) VDI_DISK_SIZE_OFF = read_le64 (f_data (v_file d)) VDI_DISK_SIZE_OFF).
    { apply read_le64_eq_on. intros i Hi. apply Hlow. vdi_offsets. }
    assert (Hmg : read_be32 (f_data f) 0 = read_be32 (f_data (v_file d)) 0).
    { apply read_be32_eq_on. intros i Hi. apply Hlow. vdi_offsets. }
    constructor; cbn [v_file with_file v_map_offset v_data_offset v_block_size v_block_extra
      v_block_count v_disk_size v_parent]; rewrite ?H8, ?Hmg; try done; rewrite H4 by vdi_offsets; done.
  - intros [P1 P2]%(vi_disk _ Hd). split; cbn [v_file with_file].
    + rewrite H4 by vdi_offsets. done.
    + intros b Hb. unfold map_entry_off in *. cbn [v_map_offset v_block_count v_map with_file] in *.
      rewrite H4 by lia. by apply P2.
Qed.

Lemma write_stored src g n d r d' (e := v_map d (g / v_block_size d)) :
  vdi_inv d -> 0 <= g -> 0 < n -> g + n <= v_disk_size d ->
  n <= v_block_size d - g mod v_block_size d -> stored e = true ->
  on_file (write_exact_fd src n (guest_file_off d e g)) d = (r, d') ->
  vdi_inv d' /\ fixed d' = fixed d /\
  (forall i, ~ (g <= i < g + n) -> guest d' i = guest d i) /\
  (r = Ok tt -> forall i, g <= i < g + n -> guest d' i = w8 (src (i - g))).
Proof.
  intros Hd Hg Hn Hend Hin Hst Hr. pose proof (vi_geo _ Hd) as Hgeo.
  pose proof (vg_bs _ Hgeo) as Hb. pose proof (vg_extra _ Hgeo) as Hx.
  destruct (block_index_range d g Hgeo ltac:(lia)) as [Hidx _].
  pose proof (vi_map _ Hd _ Hidx Hst) as He. fold e in He.
  pose proof (stored_region d e g Hgeo ltac:(lia)) as [Hlo Hpos].
  pose proof (vg_layout _ Hgeo) as [L1 L2]. pose proof (vg_count _ Hgeo).
  apply write_file_spec in Hr as (f & -> & Hf & Hfr & Hs & Hok); [|apply Hd|vdi_offsets].
  split; [|split; [done|split]].
  - apply data_inv; try done. intros i Hi. apply Hfr. lia.
  - intros i Hi. unfold guest. cbn [v_disk_size v_block_size v_map with_file].
    destruct ((0 <=? i) && (i <? v_disk_size d)) eqn:Ei; [|done].
    rewrite andb_true_iff, Z.leb_le, Z.ltb_lt in Ei. unfold entry_byte. cbn [v_file v_parent with_file].
    set (e2 := v_map d (i / v_block_size d)).
    destruct (e2 =? VDI_MAP_UNALLOCATED) eqn:Eu; [done|].
    destruct (e2 =? VDI_MAP_ZERO) eqn:Ez; [done|].
    assert (Hst2 : stored e2 = true) by (unfold stored; by rewrite Eu, Ez).
    destruct (block_index_range d i Hgeo ltac:(lia)) as [Hidx2 _].
    pose proof (vi_map _ Hd _ Hidx2 Hst2) as He2. fold e2 in He2.
    change (guest_file_off (with_file d f) e2 i) with (guest_file_off d e2 i).
    apply Hfr. intros Hbad.
    pose proof (stored_region d e2 i Hgeo ltac:(lia)) as [_ Hpos2].
    destruct (in_block (v_block_size d) g (n - 1) ltac:(lia) ltac:(lia)) as [_ Hlast].
    assert (Hend2 : guest_file_off d e g + n <= block_file_off d (e + 1)).
    { unfold guest_file_off, block_file_off, stride. rewrite Z.mul_add_distr_r. lia. }
    destruct (decide (e2 = e)) as [Hee|Hne].
    + assert (Hblk : i / v_block_size d = g / v_block_size d).
      { destruct (decide (i / v_block_size d = g / v_block_size d)) as [|Hne]; [done|].
        exfalso. by apply (vi_inj _ Hd _ _ Hidx2 Hidx Hne Hst2). }
      apply Hi. unfold guest_file_off in Hbad. rewrite Hee in Hbad.
      pose proof (Z.div_mod g (v_block_size d) ltac:(lia)).
      pose proof (Z.div_mod i (v_block_size d) ltac:(lia)). rewrite Hblk in *. lia.
    + destruct (decide (e2 < e)).
      * pose proof (block_file_off_mono d (e2 + 1) e Hgeo ltac:(lia)). lia.
      * pose proof (block_file_off_mono d (e + 1) e2 Hgeo ltac:(lia)). lia.
  - intros [Hv _]%Hok i Hi. unfold guest. cbn [v_disk_size v_block_size v_map with_file].
    destruct (in_block (v_block_size d) g (i - g) ltac:(lia) ltac:(lia)) as [Hblk Hmod].
    replace (g + (i - g)) with i in Hblk, Hmod by lia.
    destruct (Z.leb_spec 0 i); [|lia]. destruct (Z.ltb_spec i (v_disk_size d)); [|lia]. cbn [andb].
    rewrite Hblk. fold e. unfold entry_byte. unfold stored in Hst.
    rewrite andb_true_iff, !negb_true_iff in Hst. destruct Hst as [-> ->]. cbn [v_file with_file].
    rewrite (Hv _). change (guest_file_off (with_file d f) e i) with (guest_file_off d e i).
    assert (Hoff : guest_file_off d e i = guest_file_off d e g + (i - g))
      by (unfold guest_file_off; rewrite Hmod; lia).
    rewrite Hoff, blit_in by lia. unfold to_bytes. do 2 f_equal. lia.
Qed.

Lemma vdi_write_loop_ok fuel : forall b n off got d r d',
  vdi_inv d -> 0 <= off -> 0 <= got -> off + n <= v_disk_size d ->
  vdi_write_loop fuel b n off got d = (r, d') ->
  vdi_inv d' /\ fixed d' = fixed d /\ (forall i, ~ (off + got <= i < off + n) -> guest d' i = guest d i) /\
  (r = Ok tt -> forall i, off + got <= i < off + n -> guest d' i = w8 (b (i - off))).
Proof.
  induction fuel as [|fuel IH]; intros b n off got d r d' Hd Ho Hg Hend Hr;
    cbn [vdi_write_loop] in Hr; destruct (Z.ltb_spec got n) as [Hlt|Hge];
    try (injection Hr as <- <-; by split_and!; [|..|intros _ i Hi; lia]).
  { injection Hr as <- <-. by split_and!. }
  rewrite (bind_run _ _ d d d) in Hr by done. cbv zeta in Hr.
  pose proof (vi_geo _ Hd) as Hgeo. pose proof (vg_bs _ Hgeo) as Hb.
  destruct (block_index_range d (off + got) Hgeo ltac:(lia)) as [Hidx Hw]. rewrite Hw in Hr.
  destruct (Z.leb_spec (v_block_count d) ((off + got) / v_block_size d)); [lia|].
  apply bind_inv in Hr as [(u & d1 & H1 & Hr)|(e & H1 & ->)];
    apply materialize_ok in H1 as [(Hd1 & Hg1 & Hf1) Hst]; try done.
  destruct u. specialize (Hst eq_refl).
  pose proof (fixed_inv _ _ Hf1) as (_ & _ & E3 & _ & _ & E6).
  rewrite (bind_run _ _ d1 d1 d1), Hst in Hr by done. cbn [negb] in Hr. rewrite <- E3 in Hr, Hst.
  set (k := Z.min _ (n - got)) in Hr.
  pose proof (Z.mod_pos_bound (off + got) (v_block_size d1) ltac:(lia)) as Hm.
  apply bind_inv in Hr as [([] & d2 & H2 & Hr)|(e & H2 & ->)];
    (apply write_stored in H2 as (Hd2 & Hf2 & Hfr2 & Hok2); [|done|lia|lia|lia|lia|done]).
  2: { split_and!; [done|by rewrite Hf2| |done]. intros i Hi. rewrite Hfr2 by lia. apply Hg1. }
  pose proof (fixed_inv _ _ Hf2) as (_ & _ & _ & _ & _ & F6).
  apply IH in Hr as (Hd' & Hfx & Hfr & Hok); [|done|done|lia|lia].
  split_and!; [done|by rewrite Hfx, Hf2| |].
  - intros i Hi. rewrite Hfr, Hfr2 by lia. apply Hg1.
  - intros Hr1 i Hi. destruct (decide (off + got + k <= i)); [apply Hok; [done|lia]|].
    rewrite Hfr by lia. rewrite (Hok2 eq_refl) by lia. unfold slice. do 2 f_equal. lia.
Qed.

Lemma vdi_write_spec b n off d r d' :
  vdi_inv d -> vdi_backend_write b n off d = (r, d') ->
  vdi_inv d' /\ fixed d' = fixed d /\ (forall i, ~ (off <= i < off + n) -> guest d' i = guest d i) /\
  (r = Ok tt -> guest d' ≡ blit (guest d) off (to_bytes b) n).
Proof.
  intros Hd Hr. unfold vdi_backend_write in Hr. rewrite (bind_run _ _ d d d) in Hr by done.
  destruct (v_failed d); [by injection Hr as <- <-|].
  destruct (outside d n off) eqn:Eo; [by injection Hr as <- <-|].
  unfold outside in Eo. bool_to_prop.
  apply vdi_write_loop_ok in Hr as (Hi & Hfx & Hfr & Hok); [|done|lia|lia|lia].
  rewrite Z.add_0_r in *. split_and!; [done|done|done|]. intros Hr i. unfold blit, to_bytes.
  case_match eqn:E; [apply Hok; [done|lia]|apply Hfr; lia].
Qed.

Lemma guest_wf d : vdi_inv d -> wf_buf (guest d).
Proof.
  intros Hd i. unfold guest, entry_byte, inherited_byte. pose proof (vi_parent _ Hd) as Hp.
  destruct ((0 <=? i) && (i <? v_disk_size d)); [|lia].
  destruct (_ =? VDI_MAP_UNALLOCATED).
  { destruct (v_parent d) as [[p psize]|]; [|lia]. destruct (i <? psize); [|lia].
    apply (bk_view_wf p), Hp. }
  destruct (_ =? VDI_MAP_ZERO); [lia|]. apply (vi_file _ Hd).
Qed.

#[export] Instance vdi_backend_spec : BackendSpec (vdi P).
Proof.
  refine (Build_BackendSpec (vdi P) _ guest vdi_inv _ _ _ _ _).
  - exact guest_wf.
  - intros n off c r c' Hi _ Hr. apply vdi_read_spec in Hr as (? & ? & Hok); [|done].
    split_and!; [done..|]. intros b Hb. by apply Hok.
  - intros n off c b c' Hi Hr. apply vdi_read_spec in Hr as (_ & _ & Hok); [|done]. by apply Hok.
  - intros b n off c r c' Hi _ Hr. apply vdi_write_spec in Hr as (? & _ & ?); [done|done].
  - intros c r c' Hi Hr. apply fsync_file_kept in Hr as Hk.
    split; [by eapply kept_inv|by apply kept_guest].
Defined.
End vdi_facts.
