(* ===== verification/VdiOpen.v ===== *)
(** * Opening VDI images

    The VDI branch of nextufs_init_backend in src/src/core/image.c: the header and its
    checks, the block map with its alias check, the parent.  The answer of the search for
    the parent (VdiParent.v) and of opening it is an argument.  An opened image satisfies
    the invariant of Vdi.v, and what the backend has written is what opening the file again
    finds. *)
From S2P Require Import Prelude.
From S2P Require Import Bytes.
From S2P Require Import Backend.
From S2P Require Import Vdi.

Definition INT64_MAX : Z := 2 ^ 63 - 1.

(** ** The header *)
Definition is_qcow2 (hdr : buf) : bool := read_be32 hdr 0 =? QCOW2_MAGIC.
Definition is_vdi (hdr : buf) : bool := read_le32 hdr VDI_SIG_OFF =? VDI_SIGNATURE.
Definition bad_vdi_header (hdr : buf) : bool :=
  (VDI_SIG_OFF + read_le32 hdr VDI_HEADER_SIZE_OFF <? VDI_UUID_PARENT_OFF + 16) ||
  negb (read_le32 hdr VDI_VERSION_OFF =? 0x00010001).
Definition decode_vdi {P} (f : file) (heap : list bool) (hdr : buf) : vdi P :=
  Vdi f (read_le32 hdr VDI_BLOCKS_OFFSET_OFF) (read_le32 hdr VDI_DATA_OFFSET_OFF)
    (read_le32 hdr VDI_BLOCK_SIZE_OFF) (read_le32 hdr VDI_BLOCK_EXTRA_OFF)
    (read_le32 hdr VDI_BLOCK_COUNT_OFF) (read_le32 hdr VDI_BLOCKS_ALLOC_OFF)
    (read_le64 hdr VDI_DISK_SIZE_OFF) (fun _ => 0) None false heap.
Definition bad_vdi {P} (hdr : buf) (d : vdi P) (st_size : Z) : bool :=
  (negb (read_le32 hdr VDI_TYPE_OFF =? VDI_TYPE_DYNAMIC) &&
   negb (read_le32 hdr VDI_TYPE_OFF =? VDI_TYPE_DIFF)) ||
  (read_le32 hdr VDI_SECTOR_SIZE_OFF =? 0) || (v_block_size d =? 0) ||
  (v_block_count d =? 0) || (16 * 1024 * 1024 <? v_block_count d) ||
  (v_disk_size d =? 0) || (INT64_MAX <? v_disk_size d) ||
  (32 * 1024 * 1024 <? v_block_size d) || (4096 <? v_block_extra d) ||
  (v_block_count d <? v_allocated d) ||
  negb (v_block_count d =? (v_disk_size d + v_block_size d - 1) / v_block_size d) ||
  (v_map_offset d <? 0x48 + read_le32 hdr VDI_HEADER_SIZE_OFF) ||
  (v_data_offset d <? v_map_offset d + v_block_count d * 4) ||
  (st_size <? v_data_offset d + v_allocated d * (v_block_size d + v_block_extra d)).

(** Decode the entries and reject aliased and out-of-range blocks. *)
Fixpoint read_map (n : nat) (raw : buf) (i allocated : Z) (used : Z -> bool) (map : Z -> Z)
    : option (Z -> Z) :=
  match n with
  | O => Some map
  | S n =>
      let entry := read_le32 raw (i * 4) in
      let map := set_entry map i entry in
      if negb (stored entry) then read_map n raw (i + 1) allocated used map
      else if (allocated <=? entry) || used entry then None
      else read_map n raw (i + 1) allocated (fun e => (e =? entry) || used e) map
  end.

Section open.
Context {P : Type} `{!Backend P}.
Local Abbreviation M := (M (vdi P)).

(** [find_parent] is asked only for a differencing image. *)
Definition vdi_open (hdr : buf) (st_size : Z) (find_parent : result (P * Z)) : M unit :=
  if bad_vdi_header hdr then fail EINVAL
  else
    vdi_alloc ;;;
    let! d := get_vdi in
    let d := decode_vdi (v_file d) (v_heap d) hdr in
    put_vdi d ;;;
    if bad_vdi hdr d st_size then fail EINVAL
    else
      vdi_alloc ;;;
      let! raw := map_err EIO (on_file (read_exact_fd (v_block_count d * 4) (v_map_offset d))) in
      vdi_alloc ;;;
      match read_map (Z.to_nat (v_block_count d)) raw 0 (v_allocated d) (fun _ => false) (v_map d) with
      | None => fail EINVAL
      | Some map =>
          let! d := get_vdi in
          put_vdi (with_map d map (v_allocated d)) ;;;
          if read_le32 hdr VDI_TYPE_OFF =? VDI_TYPE_DIFF then
            let! p := of_result find_parent in
            let! d := get_vdi in
            put_vdi (with_parent d (Some p))
          else ret tt
      end.

(** What the file descriptor shows before anything is known about it. *)
Definition fresh_vdi (f : file) (heap : list bool) : vdi P :=
  Vdi f 0 0 0 0 0 0 0 (fun _ => 0) None false heap.
(** The answer is whether the file is a VDI image; the other formats are opened by other
    parts of the function. *)
Definition vdi_init (find_parent : result (P * Z)) : M bool :=
  let! d := get_vdi in
  let st_size := f_size (v_file d) in
  let! hdr := map_err EIO (on_file (read_exact_fd 512 0)) in
  if is_qcow2 hdr || negb (is_vdi hdr) then ret false
  else vdi_open hdr st_size find_parent ;;; ret true.
End open.

(** ** The block map *)
Lemma read_map_sound n : forall raw i allocated used map map',
  read_map n raw i allocated used map = Some map' ->
  (forall j, i <= j < i + Z.of_nat n -> map' j = read_le32 raw (j * 4)) /\
  (forall j, ~ (i <= j < i + Z.of_nat n) -> map' j = map j) /\
  (forall j, i <= j < i + Z.of_nat n -> stored (map' j) = true ->
     map' j < allocated /\ used (map' j) = false) /\
  (forall j k, i <= j < i + Z.of_nat n -> i <= k < i + Z.of_nat n -> j <> k ->
     stored (map' j) = true -> map' j <> map' k).
Proof.
  induction n as [|n IH]; intros raw i allocated used map map' H; cbn [read_map] in H.
  { injection H as ->. split_and!; intros; lia || done. }
  set (e := read_le32 raw (i * 4)) in *.
  destruct (stored e) eqn:Es; cbn [negb] in H.
  - destruct (_ || _) eqn:Eb in H; [done|]. rewrite orb_false_iff, Z.leb_gt in Eb. destruct Eb as [Ea Eu].
    apply IH in H as (H1 & H2 & H3 & H4).
    assert (Hi : map' i = e).
    { rewrite H2 by lia. unfold set_entry. by rewrite Z.eqb_refl. }
    assert (Hrest : forall j, i < j < i + Z.of_nat (S n) -> stored (map' j) = true -> map' j <> e).
    { intros j Hj Hs He. destruct (H3 j ltac:(lia) Hs) as [_ Hu]. rewrite He, Z.eqb_refl in Hu. done. }
    split_and!.
    + intros j Hj. destruct (decide (j = i)) as [->|]; [done|]. apply H1. lia.
    + intros j Hj. rewrite H2 by lia. unfold set_entry. by destruct (Z.eqb_spec j i); [lia|].
    + intros j Hj Hs. destruct (decide (j = i)) as [->|]; [by rewrite Hi|].
      destruct (H3 j ltac:(lia) Hs) as [? Hu]. rewrite orb_false_iff in Hu. by destruct Hu.
    + intros j k Hj Hk Hne Hs. destruct (decide (j = i)) as [->|].
      * rewrite Hi. intros He. apply (Hrest k ltac:(lia)); [by rewrite <- He|done].
      * destruct (decide (k = i)) as [->|]; [rewrite Hi; apply Hrest; [lia|done]|].
        apply H4; [lia|lia|done|done].
  - apply IH in H as (H1 & H2 & H3 & H4).
    assert (Hi : map' i = e).
    { rewrite H2 by lia. unfold set_entry. by rewrite Z.eqb_refl. }
    split_and!.
    + intros j Hj. destruct (decide (j = i)) as [->|]; [done|]. apply H1. lia.
    + intros j Hj. rewrite H2 by lia. unfold set_entry. by destruct (Z.eqb_spec j i); [lia|].
    + intros j Hj Hs. destruct (decide (j = i)) as [->|]; [by rewrite Hi, Es in Hs|].
      apply H3; [lia|done].
    + intros j k Hj Hk Hne Hs. destruct (decide (j = i)) as [->|]; [by rewrite Hi, Es in Hs|].
      destruct (decide (k = i)) as [->|].
      * rewrite Hi. intros He. by rewrite He, Es in Hs.
      * apply H4; [lia|lia|done|done].
Qed.
(** A map without aliases is accepted. *)
Lemma read_map_complete n : forall raw i allocated used map,
  (forall j, i <= j < i + Z.of_nat n -> stored (read_le32 raw (j * 4)) = true ->
     read_le32 raw (j * 4) < allocated /\ used (read_le32 raw (j * 4)) = false) ->
  (forall j k, i <= j < i + Z.of_nat n -> i <= k < i + Z.of_nat n -> j <> k ->
     stored (read_le32 raw (j * 4)) = true -> read_le32 raw (j * 4) <> read_le32 raw (k * 4)) ->
  is_Some (read_map n raw i allocated used map).
Proof.
  induction n as [|n IH]; intros raw i allocated used map Hin Hne; cbn [read_map]; [by eexists|].
  destruct (stored (read_le32 raw (i * 4))) eqn:Es; cbn [negb].
  - destruct (Hin i ltac:(lia) Es) as [Ha Hu].
    destruct (Z.leb_spec allocated (read_le32 raw (i * 4))); [lia|]. rewrite Hu. cbn [orb].
    apply IH; [|intros; apply Hne; lia || done]. intros j Hj Hs.
    destruct (Hin j ltac:(lia) Hs) as [Ha' Hu']. split; [done|]. rewrite Hu', orb_false_r.
    apply Z.eqb_neq. apply Hne; [lia|lia|lia|done].
  - apply IH; [intros; apply Hin; lia || done|intros; apply Hne; lia || done].
Qed.

Section open_facts.
Context {P : Type} `{HB : Backend P, HS : !BackendSpec P}.
Implicit Types (d : vdi P).

(** Same file contents, ready for the next call. *)
Definition same_data (f f' : file) : Prop :=
  f_data f' = f_data f /\ f_size f' = f_size f.
Lemma kept_same d d' : kept d d' -> fixed d' = fixed d.
Proof. apply kp_fixed. Qed.
Lemma alloc_ok d u d' : vdi_alloc d = (Ok u, d') ->
  exists h, d' = with_heap d h /\ (v_heap d = [] -> h = []).
Proof.
  unfold vdi_alloc. destruct (v_heap d) as [|b h] eqn:E.
  - intros [= _ <-]. exists []. split; [|done]. rewrite <- E. by destruct d.
  - destruct b; [|done]. intros [= _ <-]. by exists h.
Qed.
Lemma read_file_ok n off d b d' : file_inv (v_file d) ->
  on_file (read_exact_fd n off) d = (Ok b, d') ->
  exists f, d' = with_file d f /\ same_data (v_file d) f /\
    eq_on 0 n b (slice (f_data (v_file d)) off) /\ wf_buf b.
Proof.
  intros Hi Hr. pose proof (file_read_ok _ _ _ _ _ Hi Hr) as [Hb Hwf].
  unfold on_file in Hr. destruct (read_exact_fd n off (v_file d)) as [x f] eqn:E.
  injection Hr as -> <-. apply read_exact_fd_spec in E as (Hd & Hs & _).
  exists f. by split_and!.
Qed.
Lemma same_data_inv f f' : same_data f f' -> file_inv f -> file_inv f'.
Proof. intros [Hd Hs]. unfold file_inv. by rewrite Hd, Hs. Qed.

(** The header as it is read agrees with the file. *)
Lemma hdr_le32 hdr data off : eq_on 0 512 hdr (slice data 0) -> 0 <= off -> off + 4 <= 512 ->
  read_le32 hdr off = read_le32 data off.
Proof. intros H ??. apply read_le32_eq_on. intros i Hi. rewrite H by lia. done. Qed.
Lemma hdr_le64 hdr data off : eq_on 0 512 hdr (slice data 0) -> 0 <= off -> off + 8 <= 512 ->
  read_le64 hdr off = read_le64 data off.
Proof. intros H ??. apply read_le64_eq_on. intros i Hi. rewrite H by lia. done. Qed.
Lemma hdr_be32 hdr data off : eq_on 0 512 hdr (slice data 0) -> 0 <= off -> off + 4 <= 512 ->
  read_be32 hdr off = read_be32 data off.
Proof. intros H ??. apply read_be32_eq_on. intros i Hi. rewrite H by lia. done. Qed.

(** The opened state, and its parent. *)
Lemma vdi_open_result hdr st_size fp d d' :
  file_inv (v_file d) -> vdi_open hdr st_size fp d = (Ok tt, d') ->
  exists f h raw map p,
    same_data (v_file d) f /\
    let d0 := decode_vdi f h hdr in
    d' = with_parent (with_map d0 map (v_allocated d0)) p /\
    bad_vdi_header hdr = false /\ bad_vdi hdr d0 st_size = false /\
    eq_on 0 (v_block_count d0 * 4) raw (slice (f_data f) (v_map_offset d0)) /\
    read_map (Z.to_nat (v_block_count d0)) raw 0 (v_allocated d0) (fun _ => false) (fun _ => 0) = Some map /\
    (if read_le32 hdr VDI_TYPE_OFF =? VDI_TYPE_DIFF
     then exists q, fp = Ok q /\ p = Some q else p = None).
Proof.
  intros Hi Hr. unfold vdi_open in Hr. destruct (bad_vdi_header hdr) eqn:Eh; [done|].
  apply bind_ok in Hr as (u1 & d1 & H1 & Hr). apply alloc_ok in H1 as (h1 & -> & _).
  rewrite (bind_run get_vdi _ _ _ _ eq_refl) in Hr. cbn [v_file v_heap with_heap] in Hr.
  set (d0 := decode_vdi (v_file d) h1 hdr) in Hr.
  rewrite (bind_run (put_vdi d0) _ _ tt d0) in Hr by done.
  destruct (bad_vdi hdr d0 st_size) eqn:Eb; [done|].
  apply bind_ok in Hr as (u2 & d2 & H2 & Hr). apply alloc_ok in H2 as (h2 & -> & _).
  apply bind_ok in Hr as (raw & d3 & H3 & Hr). apply map_err_ok in H3.
  apply read_file_ok in H3 as (f & -> & Hsame & Hraw & _); [|exact Hi].
  rewrite <- (proj1 Hsame) in Hraw.
  apply bind_ok in Hr as (u4 & d4 & H4 & Hr). apply alloc_ok in H4 as (h4 & -> & _).
  change (v_map d0) with (fun _ : Z => 0) in Hr.
  destruct (read_map _ _ _ _ _ _) as [map|] eqn:Em; [|done].
  rewrite (bind_run get_vdi _ _ _ _ eq_refl) in Hr.
  match type of Hr with (put_vdi ?x ;;; _) _ = _ => set (d5 := x) in Hr end.
  rewrite (bind_run (put_vdi d5) _ _ tt d5) in Hr by done.
  assert (H5 : d5 = with_map (decode_vdi f h4 hdr) map (v_allocated d0)) by done.
  exists f, h4, raw, map. destruct (read_le32 hdr VDI_TYPE_OFF =? VDI_TYPE_DIFF).
  - apply bind_ok in Hr as (q & d6 & H6 & Hr). unfold of_result in H6. injection H6 as Hq <-.
    rewrite (bind_run get_vdi _ _ _ _ eq_refl) in Hr. injection Hr as <-.
    exists (Some q). split; [done|]. cbv zeta. split_and!; try done. by exists q.
  - injection Hr as <-. exists None. split; [done|]. cbv zeta. by split_and!.
Qed.

(** Tests of the header, as facts *)
Lemma bad_vdi_false hdr d st_size :
  wf_buf hdr -> bad_vdi_header hdr = false -> bad_vdi hdr d st_size = false ->
  0 <= v_block_size d -> 0 <= v_block_extra d -> 0 <= v_block_count d ->
  vdi_geometry d /\ v_allocated d <= v_block_count d /\ block_file_off d (v_allocated d) <= st_size /\
  read_le32 hdr VDI_VERSION_OFF = 0x00010001 /\ read_le32 hdr VDI_SECTOR_SIZE_OFF <> 0 /\
  VDI_UUID_PARENT_OFF + 16 <= VDI_SIG_OFF + read_le32 hdr VDI_HEADER_SIZE_OFF /\
  0x48 + read_le32 hdr VDI_HEADER_SIZE_OFF <= v_map_offset d /\
  (read_le32 hdr VDI_TYPE_OFF = VDI_TYPE_DYNAMIC \/ read_le32 hdr VDI_TYPE_OFF = VDI_TYPE_DIFF).
Proof.
  intros Hwf Hh Hb H1 H2 H3. unfold bad_vdi_header in Hh. unfold bad_vdi in Hb.
  assert (Hty : read_le32 hdr VDI_TYPE_OFF = VDI_TYPE_DYNAMIC \/
                read_le32 hdr VDI_TYPE_OFF = VDI_TYPE_DIFF).
  { destruct (Z.eqb_spec (read_le32 hdr VDI_TYPE_OFF) VDI_TYPE_DYNAMIC); [by left|].
    destruct (Z.eqb_spec (read_le32 hdr VDI_TYPE_OFF) VDI_TYPE_DIFF); [by right|done]. }
  bool_to_prop.
  assert (Heq : v_block_count d = (v_disk_size d + v_block_size d - 1) / v_block_size d) by done.
  assert (Hdisk : v_disk_size d <= v_block_count d * v_block_size d).
  { rewrite Heq. pose proof (Z.div_mod (v_disk_size d + v_block_size d - 1) (v_block_size d) ltac:(lia)).
    pose proof (Z.mod_pos_bound (v_disk_size d + v_block_size d - 1) (v_block_size d) ltac:(lia)). lia. }
  assert (Hpos : 0 < v_disk_size d).
  { assert (1 <= (v_disk_size d + v_block_size d - 1) / v_block_size d) by lia.
    pose proof (Z.mul_div_le (v_disk_size d + v_block_size d - 1) (v_block_size d) ltac:(lia)). nia. }
  unfold INT64_MAX in *. split_and!; try done; try lia.
  constructor; try lia. split; vdi_offsets.
Qed.

Definition parent_answer_ok (fp : result (P * Z)) : Prop :=
  forall q, fp = Ok q -> parent_inv (Some q).

Lemma vdi_init_inv fp f heap d' :
  file_inv f -> parent_answer_ok fp -> vdi_init fp (fresh_vdi f heap) = (Ok true, d') ->
  vdi_inv d' /\ v_failed d' = false /\ f_data (v_file d') = f_data f.
Proof.
  intros Hf Hfp Hr. unfold vdi_init in Hr.
  rewrite (bind_run get_vdi _ _ _ _ eq_refl) in Hr. cbn [v_file fresh_vdi] in Hr.
  apply bind_ok in Hr as (hdr & d1 & H1 & Hr). apply map_err_ok in H1.
  assert (H512 : 512 <= f_size f).
  { unfold on_file in H1. cbn [v_file fresh_vdi] in H1.
    destruct (read_exact_fd 512 0 f) as [x f1] eqn:E. injection H1 as -> _.
    apply read_exact_fd_inside in E; lia. }
  apply read_file_ok in H1 as (f1 & -> & [Hd1 Hs1] & Hhdr & Hhwf); [|exact Hf].
  cbn [v_file fresh_vdi] in Hd1, Hs1, Hhdr.
  destruct (is_qcow2 hdr) eqn:Eq; [done|]. destruct (is_vdi hdr) eqn:Ev; [|done]. cbn [negb orb] in Hr.
  apply bind_ok in Hr as ([] & d2 & Hr & Hl). injection Hl as <-.
  apply vdi_open_result in Hr as (f2 & h & raw & map & p & [Hd2 Hs2] & Hres);
    [|by eapply same_data_inv, Hf].
  cbn [v_file with_file] in Hd2, Hs2. destruct Hres as (-> & Hbh & Hbv & Hraw & Hmap & Hp).
  rewrite Hd1 in Hd2. rewrite Hs1 in Hs2.
  set (d0 := decode_vdi f2 h hdr) in *.
  assert (Hle : forall off, 0 <= off -> off + 4 <= 512 -> read_le32 hdr off = read_le32 (f_data f2) off).
  { intros off H0 H4. rewrite Hd2. by apply hdr_le32. }
  pose proof (fun off => read_le32_range _ Hhwf off) as Hrng.
  pose proof (Hrng VDI_BLOCK_SIZE_OFF) as R1. pose proof (Hrng VDI_BLOCK_EXTRA_OFF) as R2.
  pose proof (Hrng VDI_BLOCK_COUNT_OFF) as R3. pose proof (Hrng VDI_BLOCKS_ALLOC_OFF) as R4.
  apply bad_vdi_false in Hbv as (Hgeo & Hal & Hsz & Hver & Hsec & Hhs & Hmo & Hty);
    [|done|done|apply R1|apply R2|apply R3].
  apply read_map_sound in Hmap as (Hm1 & _ & Hm3 & Hm4).
  pose proof (vg_count _ Hgeo) as Hcnt. rewrite Z2Nat.id in Hm1, Hm3, Hm4 by lia.
  assert (Hm : forall b, 0 <= b < v_block_count d0 ->
    map b = read_le32 (f_data f2) (v_map_offset d0 + b * 4)).
  { intros b Hb. rewrite Hm1 by lia. unfold read_le32. rewrite !Hraw by lia. unfold slice.
    by rewrite !Z.add_assoc. }
  assert (Hfile : file_inv f2) by (unfold file_inv in *; by rewrite Hd2, Hs2).
  split; [|split; [done|exact Hd2]]. constructor.
  - exact Hfile.
  - cbn [v_parent with_parent]. destruct (_ =? VDI_TYPE_DIFF); [|by subst p].
    destruct Hp as (q & -> & ->). by apply Hfp.
  - by apply (fixed_geometry d0).
  - split; [apply R4|exact Hal].
  - intros b Hb Hs. change (0 <= b < v_block_count d0) in Hb. change (stored (map b) = true) in Hs.
    change (0 <= map b < v_allocated d0). split; [|by apply Hm3].
    rewrite Hm by done. apply read_le32_range, Hfile.
  - intros a b Ha Hb Hne Hs. change (0 <= a < v_block_count d0) in Ha.
    change (0 <= b < v_block_count d0) in Hb. apply Hm4; [lia|lia|done|exact Hs].
  - change (block_file_off d0 (v_allocated d0) <= f_size f2). lia.
  - change (512 <= f_size f2). lia.
  - unfold is_qcow2 in Eq. unfold is_vdi in Ev. rewrite Z.eqb_neq in Eq. rewrite Z.eqb_eq in Ev.
    constructor; cbn [v_file with_parent with_map v_parent v_map_offset v_data_offset
      v_block_size v_block_extra v_block_count v_disk_size].
    1: change (v_file d0) with f2; rewrite Hd2, <- (hdr_be32 hdr _ 0 Hhdr) by lia; exact Eq.
    9: change (v_file d0) with f2; rewrite Hd2, <- (hdr_le64 hdr _ _ Hhdr) by vdi_offsets; done.
    all: change (v_file d0) with f2; rewrite <- Hle by vdi_offsets; try done.
    destruct (Z.eqb_spec (read_le32 hdr VDI_TYPE_OFF) VDI_TYPE_DIFF) as [->|Hnd].
    + by destruct Hp as (q & _ & ->).
    + rewrite Hp. by destruct Hty.
  - intros _. split.
    + change (v_file _) with f2. rewrite <- Hle by vdi_offsets. done.
    + intros b Hb. symmetry. by apply Hm.
Qed.

(** ** Opening again *)
Lemma calm_read n off d :
  f_script (v_file d) = [] -> file_inv (v_file d) -> 0 <= off -> off + n <= f_size (v_file d) ->
  exists b, on_file (read_exact_fd n off) d = (Ok b, d) /\
    eq_on 0 n b (slice (f_data (v_file d)) off).
Proof.
  intros Hs Hi Ho Hn. destruct (read_calm n off (v_file d) Hs Ho Hn) as [b Hb].
  exists b. assert (E : on_file (read_exact_fd n off) d = (Ok b, d))
    by (unfold on_file; rewrite Hb; by destruct d).
  split; [done|]. by apply file_read_ok in E as [? _].
Qed.
Lemma header_accepted d hdr :
  vdi_inv d -> v_failed d = false -> eq_on 0 512 hdr (slice (f_data (v_file d)) 0) ->
  let d0 := decode_vdi (P:=P) (v_file d) [] hdr in
  is_qcow2 hdr = false /\ is_vdi hdr = true /\ bad_vdi_header hdr = false /\
  bad_vdi hdr d0 (f_size (v_file d)) = false /\ fixed d0 = fixed d /\
  v_allocated d0 = v_allocated d /\
  (read_le32 hdr VDI_TYPE_OFF =? VDI_TYPE_DIFF) = bool_decide (is_Some (v_parent d)).
Proof.
  intros Hd Hnf Hhdr d0. pose proof (vi_header _ Hd) as Hh. pose proof (vi_geo _ Hd) as Hg.
  assert (Hle : forall off, 0 <= off -> off + 4 <= 512 -> read_le32 hdr off = read_le32 (f_data (v_file d)) off)
    by (intros off ??; by apply hdr_le32).
  assert (Hty : read_le32 hdr VDI_TYPE_OFF =
    match v_parent d with Some _ => VDI_TYPE_DIFF | None => VDI_TYPE_DYNAMIC end)
    by (rewrite Hle by vdi_offsets; apply Hh).
  assert (Hfx : fixed d0 = fixed d).
  { unfold fixed, d0, decode_vdi. cbn [v_map_offset v_data_offset v_block_size v_block_extra v_block_count v_disk_size].
    rewrite !Hle by vdi_offsets. rewrite (hdr_le64 _ _ _ Hhdr) by vdi_offsets.
    by rewrite (hh_map _ Hh), (hh_data _ Hh), (hh_bs _ Hh), (hh_extra _ Hh), (hh_count _ Hh), (hh_disk _ Hh). }
  assert (Hal : v_allocated d0 = v_allocated d).
  { unfold d0, decode_vdi. cbn [v_allocated]. rewrite Hle by vdi_offsets. by apply (vi_disk _ Hd). }
  pose proof (fixed_inv _ _ Hfx) as (E1 & E2 & E3 & E4 & E5 & E6).
  split_and!; try done.
  - unfold is_qcow2. rewrite (hdr_be32 _ _ _ Hhdr) by lia. apply Z.eqb_neq, Hh.
  - unfold is_vdi. rewrite Hle by vdi_offsets. apply Z.eqb_eq, Hh.
  - unfold bad_vdi_header. rewrite !Hle by vdi_offsets. rewrite (hh_version _ Hh), Z.eqb_refl.
    pose proof (hh_size _ Hh). destruct (Z.ltb_spec
      (VDI_SIG_OFF + read_le32 (f_data (v_file d)) VDI_HEADER_SIZE_OFF) (VDI_UUID_PARENT_OFF + 16)); [lia|done].
  - unfold bad_vdi. rewrite Hal, E1, E2, E3, E4, E5, E6, Hty.
    rewrite (Hle VDI_SECTOR_SIZE_OFF), (Hle VDI_HEADER_SIZE_OFF) by vdi_offsets.
    destruct Hg as [G1 G2 G3 [G4 G5] G6 [G7 G8]]. pose proof (vi_alloc _ Hd). pose proof (vi_size _ Hd) as Hsz.
    pose proof (hh_map_after _ Hh). pose proof (hh_sector _ Hh).
    unfold block_file_off, stride in Hsz. unfold INT64_MAX.
    rewrite !orb_false_iff, !negb_false_iff, !Z.eqb_neq, !Z.ltb_ge, Z.eqb_eq.
    split_and!; try lia. by destruct (v_parent d).
  - rewrite Hty. by destruct (v_parent d).
Qed.

Lemma reopen_runs d fp :
  vdi_inv d -> v_failed d = false -> f_script (v_file d) = [] ->
  (forall q, v_parent d = Some q -> fp = Ok q) ->
  exists d', vdi_init fp (fresh_vdi (v_file d) []) = (Ok true, d') /\
    fixed d' = fixed d /\ v_file d' = v_file d /\ v_parent d' = v_parent d /\
    forall b, 0 <= b < v_block_count d -> v_map d' b = v_map d b.
Proof.
  intros Hd Hnf Hs Hfp. pose proof (vi_geo _ Hd) as Hg. pose proof (vg_count _ Hg) as Hcnt.
  pose proof (vg_layout _ Hg) as [L1 L2]. pose proof (data_end_after _ Hd) as Hda.
  pose proof (vi_size _ Hd) as Hsz. fold (data_end d) in Hsz.
  unfold vdi_init. rewrite (bind_run get_vdi _ _ _ _ eq_refl). cbn [v_file fresh_vdi].
  destruct (calm_read 512 0 (fresh_vdi (P:=P) (v_file d) [])) as (hdr & Hr & Hhdr);
    [done|apply Hd|lia|apply Hd|]. cbn [v_file fresh_vdi] in Hhdr.
  rewrite (bind_run (map_err EIO _) _ _ hdr (fresh_vdi (v_file d) [])) by (unfold map_err; by rewrite Hr).
  destruct (header_accepted d hdr Hd Hnf Hhdr) as (-> & -> & Hbh & Hbv & Hfx & Hal & Hty). cbn [negb orb].
  assert (Hopen : exists d', vdi_open hdr (f_size (v_file d)) fp (fresh_vdi (v_file d) []) = (Ok tt, d') /\
    fixed d' = fixed d /\ v_file d' = v_file d /\ v_parent d' = v_parent d /\
    forall b, 0 <= b < v_block_count d -> v_map d' b = v_map d b).
  2: { destruct Hopen as (d' & Ho & Hres). exists d'. by rewrite (bind_run _ _ _ _ _ Ho). }
  unfold vdi_open. rewrite Hbh.
  rewrite (bind_run vdi_alloc _ _ tt (fresh_vdi (v_file d) [])) by done.
  rewrite (bind_run get_vdi _ _ _ _ eq_refl). cbn [v_file v_heap fresh_vdi].
  set (d0 := decode_vdi (v_file d) [] hdr) in *.
  rewrite (bind_run (put_vdi d0) _ _ tt d0) by done. rewrite Hbv.
  rewrite (bind_run vdi_alloc _ _ tt d0) by done.
  pose proof (fixed_inv _ _ Hfx) as (E1 & E2 & E3 & E4 & E5 & E6).
  destruct (calm_read (v_block_count d0 * 4) (v_map_offset d0) d0) as (raw & Hrr & Hraw);
    [done|apply Hd|rewrite E1; vdi_offsets|rewrite E1, E5; change (v_file d0) with (v_file d); lia|].
  rewrite (bind_run (map_err EIO _) _ _ raw d0) by (unfold map_err; by rewrite Hrr).
  rewrite (bind_run vdi_alloc _ _ tt d0) by done.
  change (v_file d0) with (v_file d) in Hraw. rewrite E5 in Hraw |- *. rewrite E1 in Hraw. rewrite Hal.
  destruct (vi_disk _ Hd Hnf) as [_ Hpub].
  assert (Hm : forall b, 0 <= b < v_block_count d -> read_le32 raw (b * 4) = v_map d b).
  { intros b Hb. rewrite <- Hpub by done. unfold map_entry_off, read_le32.
    rewrite !Hraw by lia. unfold slice. by rewrite !Z.add_assoc. }
  destruct (read_map_complete (Z.to_nat (v_block_count d)) raw 0 (v_allocated d) (fun _ => false) (v_map d0))
    as [map Emap].
  { intros j Hj. rewrite Z2Nat.id in Hj by lia. rewrite Hm by lia. intros Hst.
    split; [|done]. apply (vi_map _ Hd); [lia|done]. }
  { intros j k Hj Hk Hne. rewrite Z2Nat.id in Hj, Hk by lia. rewrite !Hm by lia.
    apply (vi_inj _ Hd); lia. }
  rewrite Emap. apply read_map_sound in Emap as (Hm1 & _). rewrite Z2Nat.id in Hm1 by lia.
  rewrite (bind_run get_vdi _ _ _ _ eq_refl).
  set (d1 := with_map d0 map (v_allocated d0)). rewrite (bind_run (put_vdi d1) _ _ tt d1) by done.
  assert (Hmap1 : forall b, 0 <= b < v_block_count d -> map b = v_map d b)
    by (intros b Hb; rewrite Hm1 by lia; by apply Hm).
  rewrite Hty. destruct (v_parent d) as [q|] eqn:Ep.
  - rewrite bool_decide_eq_true_2 by by eexists. rewrite (Hfp q eq_refl).
    rewrite (bind_run (of_result (Ok q)) _ d1 q d1) by done.
    rewrite (bind_run get_vdi _ _ _ _ eq_refl). eexists. split; [done|]. by split_and!.
  - rewrite bool_decide_eq_false_2 by by intros [? [=]]. eexists. split; [done|]. by split_and!.
Qed.

Lemma reopened_guest d d' :
  vdi_inv d -> fixed d' = fixed d -> f_data (v_file d') = f_data (v_file d) ->
  v_parent d' = v_parent d -> (forall b, 0 <= b < v_block_count d -> v_map d' b = v_map d b) ->
  guest d' ≡ guest d.
Proof.
  intros Hd Hfx Hf Hp Hm i. pose proof (fixed_inv _ _ Hfx) as (_ & _ & E3 & _ & _ & E6).
  unfold guest, entry_byte. rewrite E3, E6, Hp, Hf.
  destruct ((0 <=? i) && (i <? v_disk_size d)) eqn:Ei; [|done].
  rewrite andb_true_iff, Z.leb_le, Z.ltb_lt in Ei.
  destruct (block_index_range d i (vi_geo _ Hd) ltac:(lia)) as [Hb _].
  rewrite Hm by done. by rewrite (proj1 (fixed_file_off d d' _ i Hfx)).
Qed.
End open_facts.
