(* ===== verification/VdiDisk.v ===== *)
(** * A VDI file as a disk

    The entry points of the VDI backend in src/src/core/image.c, from nextufs_init_backend
    to the last request, against an abstract disk: an array of bytes of a fixed size.
    Every sequence of requests, on every host, is a run of the abstract disk, and opening
    the file again shows the array the run ended in. *)
From S2P Require Import Prelude.
From S2P Require Import Bytes.
From S2P Require Import Backend.
From S2P Require Import Disk.
From S2P Require Import Vdi.
From S2P Require Import VdiOpen.

Section disk_facts.
Context {P : Type} `{HB : Backend P, HS : !BackendSpec P}.
Implicit Types (d : vdi P).

Lemma outside_false d n off : outside d n off = false <-> inside (v_disk_size d) n off /\ off <= v_disk_size d.
Proof. unfold outside, inside. rewrite !orb_false_iff, !Z.ltb_ge. lia. Qed.
Lemma refused_outside b n off d r d' : ~ inside (v_disk_size d) n off ->
  vdi_backend_write b n off d = (r, d') -> d' = d.
Proof.
  intros Ho Hr. unfold vdi_backend_write in Hr. rewrite (bind_run get_vdi _ _ d d) in Hr by done.
  destruct (v_failed d); [by injection Hr|]. destruct (outside d n off) eqn:E; [by injection Hr|].
  by apply outside_false in E as [? _].
Qed.
Lemma read_kept n off : Stable kept (vdi_backend_read (P:=P) n off).
Proof.
  intros d r d' Hr. unfold vdi_backend_read in Hr. rewrite (bind_run get_vdi _ _ d d) in Hr by done.
  destruct (outside d n off); [by injection Hr as <- <-|]. by eapply vdi_read_loop_kept.
Qed.
Lemma kept_serves d d' q e : vdi_inv d -> kept d d' ->
  vdi_inv d' /\ fixed d' = fixed d /\ disk_step (v_disk_size d) (guest d) q (Err e) (guest d').
Proof.
  intros Hd Hk. split_and!; [by eapply kept_inv|apply Hk|].
  apply failed_step. by apply kept_guest.
Qed.
Lemma serve_spec q d r d' : vdi_inv d -> serve q d = (r, d') ->
  vdi_inv d' /\ fixed d' = fixed d /\ disk_step (v_disk_size d) (guest d) q r (guest d').
Proof.
  intros Hd Hr. destruct q as [n off|b n off|]; cbn [serve] in Hr.
  - apply bind_inv in Hr as [(c & d1 & H1 & [= <- <-])|(e & H1 & ->)];
      pose proof (read_kept n off _ _ _ H1) as Hk; [|by apply kept_serves].
    apply vdi_read_spec in H1 as H2; [|done]. destruct H2 as (Hi & Hg & Hb).
    split_and!; [done|apply Hk|]. destruct (Hb c eq_refl). apply read_step; try done.
    unfold bk_read, vdi_backend, vdi_backend_read in H1.
    rewrite (bind_run get_vdi _ _ d d) in H1 by done.
    destruct (outside d n off) eqn:Eo; [done|]. by apply outside_false in Eo as [? _].
  - apply bind_inv in Hr as [(c & d1 & H1 & [= <- <-])|(e & H1 & ->)];
      apply vdi_write_spec in H1 as H2; try done; destruct H2 as (Hi & Hf & Hfr & Hok).
    + split_and!; [done|done|]. apply write_step; [|apply Hok; by destruct c].
      unfold bk_write, vdi_backend, vdi_backend_write in H1.
      rewrite (bind_run get_vdi _ _ d d) in H1 by done. destruct (v_failed d); [done|].
      destruct (outside d n off) eqn:Eo; [done|]. by apply outside_false in Eo as [? _].
    + split_and!; [done|done|]. apply failed_write; [done|]. intros Ho.
      by apply refused_outside in H1 as ->.
  - apply bind_inv in Hr as [(c & d1 & H1 & [= <- <-])|(e & H1 & ->)];
      pose proof (fsync_file_kept _ _ _ H1) as Hk; [|by apply kept_serves].
    split_and!; [by eapply kept_inv|apply Hk|]. apply sync_step. by apply kept_guest.
Qed.
Lemma serve_all_spec qs : forall d rs d', vdi_inv d -> serve_all qs d = (rs, d') ->
  vdi_inv d' /\ fixed d' = fixed d /\ disk_run (v_disk_size d) (guest d) qs rs (guest d').
Proof.
  induction qs as [|q qs IH]; intros d rs d' Hd Hr; cbn [serve_all] in Hr.
  { injection Hr as <- <-. split_and!; [done|done|constructor]. }
  destruct (serve q d) as [r d1] eqn:E1, (serve_all qs d1) as [rs1 d2] eqn:E2. injection Hr as <- <-.
  apply serve_spec in E1 as (Hi & Hf & Hs); [|done]. apply IH in E2 as (Hi2 & Hf2 & Hr2); [|done].
  pose proof (fixed_inv _ _ Hf) as (_ & _ & _ & _ & _ & E).
  rewrite E in Hr2. split_and!; [done|by rewrite Hf2|by econstructor].
Qed.

(** *** The loops end *)

Lemma fuel_enough d n off : vdi_geometry d -> 0 <= n ->
  blocks_left (v_block_size d) n off 0 <= Z.of_nat (vdi_fuel d n).
Proof.
  intros Hg Hn. pose proof (vg_bs _ Hg). unfold vdi_fuel.
  pose proof (blocks_left_fuel (v_block_size d) n off ltac:(lia) Hn).
  pose proof (Z.div_pos n (v_block_size d) Hn ltac:(lia)). lia.
Qed.
Lemma bind_ext {A B} (m : M (vdi P) A) (k1 k2 : A -> M (vdi P) B) d :
  (forall a d1, m d = (Ok a, d1) -> k1 a d1 = k2 a d1) -> bind m k1 d = bind m k2 d.
Proof. intros Hk. unfold bind. destruct (m d) as [[a|e] d1]; [by apply Hk|done]. Qed.
Lemma read_loop_fuel fuel : forall k n off got out d,
  vdi_geometry d -> blocks_left (v_block_size d) n off got <= Z.of_nat fuel ->
  vdi_read_loop (fuel + k) n off got out d = vdi_read_loop fuel n off got out d.
Proof.
  induction fuel as [|fuel IH]; intros k n off got out d Hg Hl; pose proof (vg_bs _ Hg) as Hb;
    destruct (blocks_left_bounds (v_block_size d) n off got ltac:(lia)) as [_ Hpos].
  { destruct k; cbn [vdi_read_loop Nat.add]; (destruct (Z.ltb_spec got n); [lia|done]). }
  cbn [vdi_read_loop Nat.add]. destruct (Z.ltb_spec got n); [|done].
  rewrite !(bind_run get_vdi _ d d d) by done. cbv zeta. case_match; [done|].
  apply bind_ext. intros b d1 H1. apply read_chunk_kept in H1. pose proof (kp_fixed _ _ H1) as Hf.
  pose proof (fixed_inv _ _ Hf) as (_ & _ & E & _).
  apply IH; [by eapply fixed_geometry|]. rewrite E.
  pose proof (blocks_left_step (v_block_size d) n off got ltac:(lia) ltac:(lia)). lia.
Qed.
Lemma write_loop_fuel fuel : forall k b n off got d,
  vdi_inv d -> 0 <= off -> 0 <= got -> off + n <= v_disk_size d ->
  blocks_left (v_block_size d) n off got <= Z.of_nat fuel ->
  vdi_write_loop (fuel + k) b n off got d = vdi_write_loop fuel b n off got d.
Proof.
  induction fuel as [|fuel IH]; intros k b n off got d Hd Ho Hgot Hend Hl;
    pose proof (vg_bs _ (vi_geo _ Hd)) as Hb;
    destruct (blocks_left_bounds (v_block_size d) n off got ltac:(lia)) as [_ Hpos].
  { destruct k; cbn [vdi_write_loop Nat.add]; (destruct (Z.ltb_spec got n); [lia|done]). }
  cbn [vdi_write_loop Nat.add]. destruct (Z.ltb_spec got n); [|done].
  rewrite !(bind_run get_vdi _ d d d) by done. cbv zeta.
  destruct (block_index_range d (off + got) (vi_geo _ Hd) ltac:(lia)) as [Hidx Hw]. rewrite Hw.
  destruct (Z.leb_spec (v_block_count d) ((off + got) / v_block_size d)); [lia|].
  apply bind_ext. intros [] d1 H1. apply materialize_ok in H1 as [(Hd1 & _ & Hf1) Hst]; [|done|lia].
  specialize (Hst eq_refl). pose proof (fixed_inv _ _ Hf1) as (_ & _ & E3 & _ & _ & E6).
  rewrite !(bind_run get_vdi _ d1 d1 d1) by done. rewrite Hst. cbn [negb].
  apply bind_ext. intros [] d2 H2. rewrite <- E3 in Hst, H2, Hb.
  destruct (blocks_left_step (v_block_size d1) n off got ltac:(lia) ltac:(lia)) as [Hc Hstep].
  apply write_stored in H2 as (Hd2 & Hf2 & _); [|done|lia|lia|lia|lia|done].
  pose proof (fixed_inv _ _ Hf2) as (_ & _ & F3 & _ & _ & F6).
  apply IH; [done|lia|lia|lia|]. rewrite F3. rewrite E3 in Hstep |- *. lia.
Qed.

(** ** Properties *)

(** C16. A VDI file is a disk.  Whatever file was opened successfully, and whatever the host
  answers to the transfers and allocations, every sequence of reads, writes and fsyncs is a
  run of the abstract disk of the size in the header: a successful read returns the bytes of
  the array, a successful write replaces exactly its range, a failing one changes at most its
  range, requests that leave the disk are refused and change nothing.  The invariant of the
  file, its block map and its header holds at the end. *)
Theorem vdi_requests_refine fp f heap d qs rs d'
    (Hf : file_inv f) (Hp : parent_answer_ok fp)
    (Hopen : vdi_init fp (fresh_vdi f heap) = (Ok true, d))
    (Hrun : serve_all qs d = (rs, d')) :
  disk_run (v_disk_size d) (guest d) qs rs (guest d') /\ vdi_inv d' /\
  v_disk_size d' = v_disk_size d /\ v_disk_size d = read_le64 (f_data f) VDI_DISK_SIZE_OFF.
Proof.
  apply vdi_init_inv in Hopen as (Hi & _ & Hd); [|done|done].
  apply serve_all_spec in Hrun as (Hi' & Hfx & Hr); [|done].
  pose proof (fixed_inv _ _ Hfx) as (_ & _ & _ & _ & _ & E).
  split_and!; [done|done|done|]. rewrite <- Hd. symmetry. apply Hi.
Qed.

(** C17. What the disk shows is in the file.  After any sequence of requests that left no
  failed rollback behind, opening the file again, with the same parent and a host that
  fails nothing, succeeds and presents the same disk. *)
Theorem vdi_reopen fp f heap d qs rs d' fp'
    (Hf : file_inv f) (Hp : parent_answer_ok fp)
    (Hopen : vdi_init fp (fresh_vdi f heap) = (Ok true, d))
    (Hrun : serve_all qs d = (rs, d'))
    (Hsafe : v_failed d' = false) (Hcalm : f_script (v_file d') = [])
    (Hp' : parent_answer_ok fp') (Hparent : forall q, v_parent d' = Some q -> fp' = Ok q) :
  exists d2, vdi_init fp' (fresh_vdi (v_file d') []) = (Ok true, d2) /\
    vdi_inv d2 /\ v_disk_size d2 = v_disk_size d /\ guest d2 ≡ guest d'.
Proof.
  apply vdi_init_inv in Hopen as (Hi & _ & Hd); [|done|done].
  apply serve_all_spec in Hrun as (Hi' & Hfx & _); [|done].
  destruct (reopen_runs d' fp' Hi' Hsafe Hcalm Hparent) as (d2 & Hr & Hf2 & Hfile & Hpar & Hmap).
  pose proof (fixed_inv _ _ Hfx) as (_ & _ & _ & _ & _ & E).
  pose proof (fixed_inv _ _ Hf2) as (_ & _ & _ & _ & _ & E2).
  exists d2. split_and!; [done| |by rewrite E2, E|].
  - by apply vdi_init_inv in Hr as [? _]; [|apply Hi'|].
  - apply reopened_guest; [done|done|by rewrite Hfile|done|done].
Qed.

(** The loops end.  A transfer visits at most one block more than its size fills: with any
  larger bound on the number of iterations, reads and writes of every opened image give the
  same result, on every host. *)
Theorem vdi_transfers_terminate d b n off fuel
    (Hd : vdi_inv d) (Hn : 0 <= n) (Hin : outside d n off = false)
    (Hfuel : (vdi_fuel d n <= fuel)%nat) :
  vdi_read_loop fuel n off 0 zeros d = vdi_backend_read n off d /\
  (v_failed d = false -> vdi_write_loop fuel b n off 0 d = vdi_backend_write b n off d).
Proof.
  pose proof (fuel_enough d n off (vi_geo _ Hd) Hn) as He.
  replace fuel with (vdi_fuel d n + (fuel - vdi_fuel d n))%nat by lia.
  unfold vdi_backend_read, vdi_backend_write. rewrite !(bind_run get_vdi _ d d d) by done. rewrite Hin.
  apply outside_false in Hin as [[Ho Hend] _]. split.
  - apply read_loop_fuel; [apply Hd|done].
  - intros ->. by apply write_loop_fuel.
Qed.
End disk_facts.

(** ** A small image: two blocks of 512 bytes, none allocated, no parent *)
Definition small_header : buf :=
  foldr (fun '(off, v) p => write_le32 p off v) zeros
    [(VDI_SIG_OFF, VDI_SIGNATURE); (VDI_VERSION_OFF, 0x00010001); (VDI_HEADER_SIZE_OFF, 0x190);
     (VDI_TYPE_OFF, VDI_TYPE_DYNAMIC); (VDI_BLOCKS_OFFSET_OFF, 512); (VDI_DATA_OFFSET_OFF, 520);
     (VDI_SECTOR_SIZE_OFF, 512); (VDI_DISK_SIZE_OFF, 1024); (VDI_BLOCK_SIZE_OFF, 512);
     (VDI_BLOCK_COUNT_OFF, 2); (512, VDI_MAP_UNALLOCATED); (516, VDI_MAP_UNALLOCATED)].
Definition small_file : file := File small_header 520 [] [].
Definition no_parent : result (file * Z) := Err ENOENT.
Definition small_requests : list request :=
  [Write (fun i => 65 + i) 4 510; Read 8 508; Sync; Write zeros 8 1020].
Definition small_open : result bool * vdi file := vdi_init no_parent (fresh_vdi small_file []).
Definition small_run : list (result response) * vdi file := serve_all small_requests (snd small_open).

Lemma small_file_ok : file_inv small_file.
Proof.
  split; [done|]. split.
  - unfold small_file, small_header. cbn [f_data foldr]. auto 20 with bytes.
  - intros i Hi. cbn [f_size f_data small_file] in *. unfold small_header. cbn [foldr].
    rewrite !write_le32_out by vdi_offsets. done.
Qed.
Lemma no_parent_ok : parent_answer_ok no_parent.
Proof. by intros q. Qed.
Lemma small_opens : fst small_open = Ok true.
Proof. vm_compute. reflexivity. Qed.
(** Both blocks are allocated by the first write, the last one leaves the disk. *)
Example small_answers :
  map is_ok (fst small_run) = [true; true; true; false] /\
  v_allocated (snd small_run) = 2 /\ f_size (v_file (snd small_run)) = 1544 /\
  map (guest (snd small_run)) [509; 510; 511; 512; 513; 514] = [0; 65; 66; 67; 68; 0].
Proof. vm_compute. split_and!; reflexivity. Qed.
Lemma small_run_inv : vdi_inv (snd small_run).
Proof.
  assert (Ho : vdi_init no_parent (fresh_vdi small_file []) = (Ok true, snd small_open)).
  { rewrite <- small_opens. unfold small_open. apply surjective_pairing. }
  apply vdi_init_inv in Ho as (Hi & _); [|exact small_file_ok|exact no_parent_ok].
  apply (serve_all_spec small_requests (snd small_open) (fst small_run)); [exact Hi|].
  unfold small_run. apply surjective_pairing.
Qed.

Lemma vdi_requests_refine_witness :
  disk_run (v_disk_size (snd small_open)) (guest (snd small_open)) small_requests
    (fst small_run) (guest (snd small_run)) /\
  vdi_inv (snd small_run) /\ v_disk_size (snd small_run) = v_disk_size (snd small_open) /\
  v_disk_size (snd small_open) = read_le64 (f_data small_file) VDI_DISK_SIZE_OFF.
Proof.
  apply (vdi_requests_refine no_parent small_file []).
  - exact small_file_ok.
  - exact no_parent_ok.
  - rewrite <- small_opens. unfold small_open. apply surjective_pairing.
  - unfold small_run. apply surjective_pairing.
Defined.
Lemma vdi_reopen_witness :
  exists d2, vdi_init no_parent (fresh_vdi (v_file (snd small_run)) []) = (Ok true, d2) /\
    vdi_inv d2 /\ v_disk_size d2 = v_disk_size (snd small_open) /\ guest d2 ≡ guest (snd small_run).
Proof.
  apply (vdi_reopen no_parent small_file [] (snd small_open) small_requests (fst small_run)).
  - exact small_file_ok.
  - exact no_parent_ok.
  - rewrite <- small_opens. unfold small_open. apply surjective_pairing.
  - unfold small_run. apply surjective_pairing.
  - vm_compute. reflexivity.
  - vm_compute. reflexivity.
  - exact no_parent_ok.
  - assert (Hp : v_parent (snd small_run) = None) by (vm_compute; reflexivity).
    intros q. rewrite Hp. discriminate.
Defined.
Lemma vdi_transfers_terminate_witness :
  vdi_read_loop 9 4 510 0 zeros (snd small_run) = vdi_backend_read 4 510 (snd small_run) /\
  (v_failed (snd small_run) = false ->
   vdi_write_loop 9 (fun i => 65 + i) 4 510 0 (snd small_run) =
   vdi_backend_write (fun i => 65 + i) 4 510 (snd small_run)).
Proof.
  apply vdi_transfers_terminate.
  - exact small_run_inv.
  - lia.
  - vm_compute. reflexivity.
  - assert (Hf : vdi_fuel (snd small_run) 4 = 2%nat) by (vm_compute; reflexivity).
    rewrite Hf. lia.
Defined.
