(* ===== verification/Qcow.v ===== *)
(** * QCOW2 images: state, reading, cluster allocation and writing

    src/src/core/qcow2.c after opening: the third implementation of
    [struct nextufs_image_backend_ops].  [qcow] is [struct qcow]; its parent, a [struct qcow]
    again, is any backend together with its size, so that a chain of images is a type of the
    recursion in QcowOpen.v.  Arrays are functions from their index.  Refcounts of the host
    clusters, the refcount table and the L1 table live in memory, L2 tables in the file. *)
From S2P Require Import Prelude.
From S2P Require Import Bytes.
From S2P Require Import Backend.

Definition QCOW_MAGIC : Z := 0x514649fb.
Definition QCOW_OFFSET : Z := 0x00fffffffffffe00.
Definition QCOW_COPIED : Z := 2 ^ 63.
Definition QCOW_COMPRESSED : Z := 2 ^ 62.
Definition QCOW_ZERO : Z := 1.
Definition QCOW_MAX_CLUSTERS : Z := 16 * 1024 * 1024.
Definition QCOW_MAX_L1_BYTES : Z := 32 * 1024 * 1024.
Definition QCOW_MAX_REF_BYTES : Z := 8 * 1024 * 1024.
Definition UINT16_MAX : Z := 0xffff.

(** [struct qcow]; the parent comes with its [size], the host heap is the list of the
    outcomes of the next allocations. *)
Record qcow (P : Type) := Qcow {
  q_file : file;
  q_raw : bool;
  q_writable : bool;
  q_failed : bool;
  q_changed : bool;
  q_table_dirty : bool;
  q_table_moved : bool;
  q_version : Z;
  q_cluster_size : Z;
  q_l1_size : Z;
  q_ref_clusters : Z;
  q_size : Z;
  q_file_size : Z;
  q_l1_offset : Z;
  q_ref_offset : Z;
  q_l1 : Z -> Z;
  q_ref_table : Z -> Z;
  q_ref_entries : Z;
  q_host_count : Z;
  q_host_capacity : Z;
  q_refs : Z -> Z;
  q_tags : Z -> Z;
  q_ref_dirty : Z -> bool;
  q_parent : option (P * Z);
  q_heap : list bool;
}.
Arguments Qcow {P}.
Arguments q_file {P}. Arguments q_raw {P}. Arguments q_writable {P}. Arguments q_failed {P}.
Arguments q_changed {P}. Arguments q_table_dirty {P}. Arguments q_table_moved {P}.
Arguments q_version {P}. Arguments q_cluster_size {P}. Arguments q_l1_size {P}.
Arguments q_ref_clusters {P}. Arguments q_size {P}. Arguments q_file_size {P}.
Arguments q_l1_offset {P}. Arguments q_ref_offset {P}. Arguments q_l1 {P}.
Arguments q_ref_table {P}. Arguments q_ref_entries {P}. Arguments q_host_count {P}.
Arguments q_host_capacity {P}. Arguments q_refs {P}. Arguments q_tags {P}.
Arguments q_ref_dirty {P}. Arguments q_parent {P}. Arguments q_heap {P}.

(** Updates of the fields *)
Definition set_file {P} (q : qcow P) (x : file) : qcow P :=
  Qcow x (q_raw q) (q_writable q) (q_failed q) (q_changed q) (q_table_dirty q)
    (q_table_moved q) (q_version q) (q_cluster_size q) (q_l1_size q) (q_ref_clusters q)
    (q_size q) (q_file_size q) (q_l1_offset q) (q_ref_offset q) (q_l1 q) (q_ref_table q)
    (q_ref_entries q) (q_host_count q) (q_host_capacity q) (q_refs q) (q_tags q)
    (q_ref_dirty q) (q_parent q) (q_heap q).
Definition set_failed {P} (q : qcow P) (x : bool) : qcow P :=
  Qcow (q_file q) (q_raw q) (q_writable q) x (q_changed q) (q_table_dirty q) (q_table_moved q)
    (q_version q) (q_cluster_size q) (q_l1_size q) (q_ref_clusters q) (q_size q)
    (q_file_size q) (q_l1_offset q) (q_ref_offset q) (q_l1 q) (q_ref_table q) (q_ref_entries q)
    (q_host_count q) (q_host_capacity q) (q_refs q) (q_tags q) (q_ref_dirty q) (q_parent q)
    (q_heap q).
Definition set_changed {P} (q : qcow P) (x : bool) : qcow P :=
  Qcow (q_file q) (q_raw q) (q_writable q) (q_failed q) x (q_table_dirty q) (q_table_moved q)
    (q_version q) (q_cluster_size q) (q_l1_size q) (q_ref_clusters q) (q_size q)
    (q_file_size q) (q_l1_offset q) (q_ref_offset q) (q_l1 q) (q_ref_table q) (q_ref_entries q)
    (q_host_count q) (q_host_capacity q) (q_refs q) (q_tags q) (q_ref_dirty q) (q_parent q)
    (q_heap q).
Definition set_table_dirty {P} (q : qcow P) (x : bool) : qcow P :=
  Qcow (q_file q) (q_raw q) (q_writable q) (q_failed q) (q_changed q) x (q_table_moved q)
    (q_version q) (q_cluster_size q) (q_l1_size q) (q_ref_clusters q) (q_size q)
    (q_file_size q) (q_l1_offset q) (q_ref_offset q) (q_l1 q) (q_ref_table q) (q_ref_entries q)
    (q_host_count q) (q_host_capacity q) (q_refs q) (q_tags q) (q_ref_dirty q) (q_parent q)
    (q_heap q).
Definition set_table_moved {P} (q : qcow P) (x : bool) : qcow P :=
  Qcow (q_file q) (q_raw q) (q_writable q) (q_failed q) (q_changed q) (q_table_dirty q) x
    (q_version q) (q_cluster_size q) (q_l1_size q) (q_ref_clusters q) (q_size q)
    (q_file_size q) (q_l1_offset q) (q_ref_offset q) (q_l1 q) (q_ref_table q) (q_ref_entries q)
    (q_host_count q) (q_host_capacity q) (q_refs q) (q_tags q) (q_ref_dirty q) (q_parent q)
    (q_heap q).
Definition set_l1 {P} (q : qcow P) (x : Z -> Z) : qcow P :=
  Qcow (q_file q) (q_raw q) (q_writable q) (q_failed q) (q_changed q) (q_table_dirty q)
    (q_table_moved q) (q_version q) (q_cluster_size q) (q_l1_size q) (q_ref_clusters q)
    (q_size q) (q_file_size q) (q_l1_offset q) (q_ref_offset q) x (q_ref_table q)
    (q_ref_entries q) (q_host_count q) (q_host_capacity q) (q_refs q) (q_tags q)
    (q_ref_dirty q) (q_parent q) (q_heap q).
Definition set_ref_table {P} (q : qcow P) (x : Z -> Z) : qcow P :=
  Qcow (q_file q) (q_raw q) (q_writable q) (q_failed q) (q_changed q) (q_table_dirty q)
    (q_table_moved q) (q_version q) (q_cluster_size q) (q_l1_size q) (q_ref_clusters q)
    (q_size q) (q_file_size q) (q_l1_offset q) (q_ref_offset q) (q_l1 q) x (q_ref_entries q)
    (q_host_count q) (q_host_capacity q) (q_refs q) (q_tags q) (q_ref_dirty q) (q_parent q)
    (q_heap q).
Definition set_table_size {P} (q : qcow P) (x : Z) (y : Z) : qcow P :=
  Qcow (q_file q) (q_raw q) (q_writable q) (q_failed q) (q_changed q) (q_table_dirty q)
    (q_table_moved q) (q_version q) (q_cluster_size q) (q_l1_size q) y (q_size q)
    (q_file_size q) (q_l1_offset q) (q_ref_offset q) (q_l1 q) (q_ref_table q) x
    (q_host_count q) (q_host_capacity q) (q_refs q) (q_tags q) (q_ref_dirty q) (q_parent q)
    (q_heap q).
Definition set_ref_offset {P} (q : qcow P) (x : Z) : qcow P :=
  Qcow (q_file q) (q_raw q) (q_writable q) (q_failed q) (q_changed q) (q_table_dirty q)
    (q_table_moved q) (q_version q) (q_cluster_size q) (q_l1_size q) (q_ref_clusters q)
    (q_size q) (q_file_size q) (q_l1_offset q) x (q_l1 q) (q_ref_table q) (q_ref_entries q)
    (q_host_count q) (q_host_capacity q) (q_refs q) (q_tags q) (q_ref_dirty q) (q_parent q)
    (q_heap q).
Definition set_hosts {P} (q : qcow P) (x : Z) (y : Z) : qcow P :=
  Qcow (q_file q) (q_raw q) (q_writable q) (q_failed q) (q_changed q) (q_table_dirty q)
    (q_table_moved q) (q_version q) (q_cluster_size q) (q_l1_size q) (q_ref_clusters q)
    (q_size q) x (q_l1_offset q) (q_ref_offset q) (q_l1 q) (q_ref_table q) (q_ref_entries q) y
    (q_host_capacity q) (q_refs q) (q_tags q) (q_ref_dirty q) (q_parent q) (q_heap q).
Definition set_host_capacity {P} (q : qcow P) (x : Z) : qcow P :=
  Qcow (q_file q) (q_raw q) (q_writable q) (q_failed q) (q_changed q) (q_table_dirty q)
    (q_table_moved q) (q_version q) (q_cluster_size q) (q_l1_size q) (q_ref_clusters q)
    (q_size q) (q_file_size q) (q_l1_offset q) (q_ref_offset q) (q_l1 q) (q_ref_table q)
    (q_ref_entries q) (q_host_count q) x (q_refs q) (q_tags q) (q_ref_dirty q) (q_parent q)
    (q_heap q).
Definition set_refs {P} (q : qcow P) (x : Z -> Z) : qcow P :=
  Qcow (q_file q) (q_raw q) (q_writable q) (q_failed q) (q_changed q) (q_table_dirty q)
    (q_table_moved q) (q_version q) (q_cluster_size q) (q_l1_size q) (q_ref_clusters q)
    (q_size q) (q_file_size q) (q_l1_offset q) (q_ref_offset q) (q_l1 q) (q_ref_table q)
    (q_ref_entries q) (q_host_count q) (q_host_capacity q) x (q_tags q) (q_ref_dirty q)
    (q_parent q) (q_heap q).
Definition set_tags {P} (q : qcow P) (x : Z -> Z) : qcow P :=
  Qcow (q_file q) (q_raw q) (q_writable q) (q_failed q) (q_changed q) (q_table_dirty q)
    (q_table_moved q) (q_version q) (q_cluster_size q) (q_l1_size q) (q_ref_clusters q)
    (q_size q) (q_file_size q) (q_l1_offset q) (q_ref_offset q) (q_l1 q) (q_ref_table q)
    (q_ref_entries q) (q_host_count q) (q_host_capacity q) (q_refs q) x (q_ref_dirty q)
    (q_parent q) (q_heap q).
Definition set_ref_dirty {P} (q : qcow P) (x : Z -> bool) : qcow P :=
  Qcow (q_file q) (q_raw q) (q_writable q) (q_failed q) (q_changed q) (q_table_dirty q)
    (q_table_moved q) (q_version q) (q_cluster_size q) (q_l1_size q) (q_ref_clusters q)
    (q_size q) (q_file_size q) (q_l1_offset q) (q_ref_offset q) (q_l1 q) (q_ref_table q)
    (q_ref_entries q) (q_host_count q) (q_host_capacity q) (q_refs q) (q_tags q) x (q_parent q)
    (q_heap q).
Definition set_parent {P} (q : qcow P) (x : option (P * Z)) : qcow P :=
  Qcow (q_file q) (q_raw q) (q_writable q) (q_failed q) (q_changed q) (q_table_dirty q)
    (q_table_moved q) (q_version q) (q_cluster_size q) (q_l1_size q) (q_ref_clusters q)
    (q_size q) (q_file_size q) (q_l1_offset q) (q_ref_offset q) (q_l1 q) (q_ref_table q)
    (q_ref_entries q) (q_host_count q) (q_host_capacity q) (q_refs q) (q_tags q)
    (q_ref_dirty q) x (q_heap q).
Definition set_heap {P} (q : qcow P) (x : list bool) : qcow P :=
  Qcow (q_file q) (q_raw q) (q_writable q) (q_failed q) (q_changed q) (q_table_dirty q)
    (q_table_moved q) (q_version q) (q_cluster_size q) (q_l1_size q) (q_ref_clusters q)
    (q_size q) (q_file_size q) (q_l1_offset q) (q_ref_offset q) (q_l1 q) (q_ref_table q)
    (q_ref_entries q) (q_host_count q) (q_host_capacity q) (q_refs q) (q_tags q)
    (q_ref_dirty q) (q_parent q) x.

(** Tables as functions of the index *)
Definition set_at {A} (t : Z -> A) (i : Z) (a : A) : Z -> A := fun j => if j =? i then a else t j.
Definition set_range {A} (t : Z -> A) (first count : Z) (a : A) : Z -> A :=
  fun j => if (first <=? j) && (j <? first + count) then a else t j.
Definition be64 (b : buf) (off : Z) : Z := read_be64 b off.
Definition offset_of (entry : Z) : Z := Z.land entry QCOW_OFFSET.
Definition has_flag (entry flag : Z) : bool := negb (Z.land entry flag =? 0).
Definition entries_per_l2 {P} (q : qcow P) : Z := q_cluster_size q / 8.
Definition refs_per_block {P} (q : qcow P) : Z := q_cluster_size q / 2.

(** Loops whose body says whether to go on, for at most [n] rounds; [false] is running out.
    The bound is a binary number so that large ones cost nothing. *)
Fixpoint rounds {W} (n : positive) (body : M W bool) : M W bool :=
  match n with
  | xH => let! more := body in ret (negb more)
  | xO n =>
      let! finished := rounds n body in
      if (finished : bool) then ret true else rounds n body
  | xI n =>
      let! more := body in
      if negb more then ret true
      else let! finished := rounds n body in
           if (finished : bool) then ret true else rounds n body
  end.

(** [ftruncate] that extends the file: the new bytes are zeros. *)
Definition ftruncate (size : Z) : M file unit := fun f =>
  match next_outcome f 0 with
  | (IoErr e, f') => (Err e, f')
  | (IoCount _, f') =>
      (Ok tt, File (fun i => if i <? size then f_data f i else 0) size (f_script f') (f_sync f'))
  end.

Section qcow.
Context {P : Type} `{!Backend P}.
Local Abbreviation M := (M (qcow P)).

Definition get_q : M (qcow P) := fun q => (Ok q, q).
Definition modify (f : qcow P -> qcow P) : M unit := fun q => (Ok tt, f q).
Definition on_fd {A} (m : Prelude.M file A) : M A := fun q =>
  let (r, f) := m (q_file q) in (r, set_file q f).
Definition q_alloc : M unit := fun q =>
  match q_heap q with
  | [] => (Ok tt, q)
  | ok :: h => ((if ok : bool then Ok tt else Err ENOMEM), set_heap q h)
  end.

(** ** Access to the file *)
Definition range_valid (q : qcow P) (off bytes : Z) : bool :=
  (off <=? q_file_size q) && (bytes <=? q_file_size q - off).
Definition read_at (bytes off : Z) : M buf :=
  let! q := get_q in
  if negb (range_valid q off bytes) then fail EINVAL
  else on_fd (read_exact_fd bytes off).
Definition read_u64 (off : Z) : M Z :=
  let! b := read_at 8 off in ret (be64 b 0).
Definition mark_failed : M unit := modify (fun q => set_failed q true).
Definition write_at (b : buf) (bytes off : Z) : M unit :=
  let! rc := attempt (on_fd (write_exact_fd b bytes off)) in
  match rc with
  | Ok _ => ret tt
  | Err e => mark_failed ;;; fail e
  end.
Definition write_u64 (off value : Z) : M unit := write_at (write_be64 zeros 0 value) 8 off.
Definition sync_fd : M unit :=
  let! rc := attempt (on_fd fsync) in
  match rc with
  | Ok _ => ret tt
  | Err e => mark_failed ;;; fail e
  end.

(** ** Reading *)
Definition parent_read (bytes offset : Z) : M buf := fun q =>
  match q_parent q with
  | None => (Err EINVAL, q)
  | Some (p, psize) =>
      let (r, p') := bk_read bytes offset p in (r, set_parent q (Some (p', psize)))
  end.
(** The part of a cluster that comes from the parent, or zeros. *)
Definition read_inherited (pos chunk : Z) : M buf :=
  let! q := get_q in
  match q_parent q with
  | Some (_, psize) =>
      if pos <? psize then
        let inherited := Z.min (psize - pos) chunk in
        let! b := parent_read inherited pos in ret (blit zeros 0 b inherited)
      else ret zeros
  | None => ret zeros
  end.
Definition l2_entry (guest : Z) : M Z :=
  let! q := get_q in
  let l2 := offset_of (q_l1 q (guest / entries_per_l2 q)) in
  if l2 =? 0 then ret 0 else read_u64 (l2 + guest mod entries_per_l2 q * 8).
Definition read_chunk (pos chunk : Z) : M buf :=
  let! q := get_q in
  let! entry := l2_entry (pos / q_cluster_size q) in
  if has_flag entry QCOW_ZERO then ret zeros
  else if negb (offset_of entry =? 0) then
    read_at chunk (offset_of entry + pos mod q_cluster_size q)
  else read_inherited pos chunk.
Fixpoint read_loop (fuel : nat) (bytes pos got : Z) (out : buf) : M buf :=
  if bytes =? 0 then ret out
  else
    match fuel with
    | O => fail EIO
    | S fuel =>
        let! q := get_q in
        let within := pos mod q_cluster_size q in
        let chunk := Z.min (q_cluster_size q - within) bytes in
        let! b := read_chunk pos chunk in
        read_loop fuel (bytes - chunk) (pos + chunk) (got + chunk) (blit out got b chunk)
    end.
(** The clusters a transfer can touch *)
Definition transfer_fuel (q : qcow P) (bytes : Z) : nat :=
  Z.to_nat (bytes / q_cluster_size q + 2).
Definition outside (q : qcow P) (bytes offset : Z) : bool :=
  (offset <? 0) || (q_size q <? offset) || (q_size q - offset <? bytes).
Definition qcow_read (bytes offset : Z) : M buf :=
  let! q := get_q in
  if outside q bytes offset then fail EINVAL
  else if q_raw q then read_at bytes offset
  else read_loop (transfer_fuel q bytes) bytes offset 0 zeros.

(** ** Refcounts *)
(** Dirty is persisted before any structural or guest-data modification. *)
Definition begin_write : M unit :=
  let! q := get_q in
  if q_failed q then fail EIO
  else if q_changed q then ret tt
  else
    (if q_version q =? 3 then write_u64 72 1 ;;; sync_fd else ret tt) ;;;
    modify (fun q => set_changed q true).
Definition ref_changed (q : qcow P) (cluster : Z) : qcow P :=
  let block := cluster / refs_per_block q in
  if block <? q_ref_entries q then set_ref_dirty q (set_at (q_ref_dirty q) block true) else q.
(** The capacity doubles from the old one up to the limit. *)
Fixpoint grow_capacity (fuel : nat) (capacity count : Z) : Z :=
  match fuel with
  | O => capacity
  | S fuel =>
      if capacity <? count
      then grow_capacity fuel
             (if QCOW_MAX_CLUSTERS / 2 <? capacity then QCOW_MAX_CLUSTERS else capacity * 2) count
      else capacity
  end.
Definition reserve_hosts (count : Z) : M unit :=
  let! q := get_q in
  if QCOW_MAX_CLUSTERS <? count then fail EFBIG
  else if count <=? q_host_capacity q then ret tt
  else
    let capacity := grow_capacity 25 (if q_host_capacity q =? 0 then 16 else q_host_capacity q) count in
    q_alloc ;;;
    q_alloc ;;;
    modify (fun q =>
      let added := capacity - q_host_capacity q in
      let q := set_refs q (set_range (q_refs q) (q_host_capacity q) added 0) in
      let q := set_tags q (set_range (q_tags q) (q_host_capacity q) added 0) in
      set_host_capacity q capacity).
(** Reserve physical space only; ensure_refcounts bootstraps its own metadata. *)
Definition append_hosts (count tag : Z) : M Z :=
  let! q := get_q in
  let first := q_host_count q in
  if QCOW_MAX_CLUSTERS - first <? count then fail EFBIG
  else
    reserve_hosts (first + count) ;;;
    let end_ := (first + count) * q_cluster_size q in
    if QCOW_OFFSET <? end_ then mark_failed ;;; fail EFBIG
    else
      let! rc := attempt (on_fd (ftruncate end_)) in
      match rc with
      | Err e => mark_failed ;;; fail e
      | Ok _ =>
          modify (fun q =>
            let q := set_hosts q end_ (q_host_count q + count) in
            foldl (fun q i =>
              ref_changed (set_tags (set_refs q (set_at (q_refs q) i 1)) (set_at (q_tags q) i tag)) i)
              q (seqZ first count)) ;;;
          ret (first * q_cluster_size q)
      end.

(** One refcount block as it is written *)
Definition ref_block (q : qcow P) (i : Z) : buf :=
  foldr (fun j b =>
      let n := i * refs_per_block q + j in
      if n <? q_host_count q then write_be16 b (j * 2) (q_refs q n) else b)
    zeros (seqZ 0 (refs_per_block q)).
Definition table_cluster (q : qcow P) (i : Z) : buf :=
  foldr (fun j b => write_be64 b (j * 8) (q_ref_table q (i + j))) zeros (seqZ 0 (entries_per_l2 q)).
Definition flush_block (i : Z) : M unit :=
  let! q := get_q in
  if negb (q_ref_dirty q i) then ret tt
  else if q_ref_table q i =? 0 then fail EINVAL
  else
    write_at (ref_block q i) (q_cluster_size q) (q_ref_table q i) ;;;
    modify (fun q => set_ref_dirty q (set_at (q_ref_dirty q) i false)).
Definition flush_table : M unit :=
  let! q := get_q in
  for_each (seqZ 0 ((q_ref_entries q + entries_per_l2 q - 1) / entries_per_l2 q)) (fun k =>
    let i := k * entries_per_l2 q in
    write_at (table_cluster q i) (q_cluster_size q) (q_ref_offset q + i * 8)).
Definition flush_refcounts : M unit :=
  q_alloc ;;;
  let! q := get_q in
  for_each (seqZ 0 (q_ref_entries q)) flush_block ;;;
  let! q := get_q in
  (if q_table_dirty q then flush_table ;;; modify (fun q => set_table_dirty q false) else ret tt) ;;;
  sync_fd ;;;
  let! q := get_q in
  if q_table_moved q then
    let fields := write_be32 (write_be64 zeros 0 (q_ref_offset q)) 8 (q_ref_clusters q) in
    write_at fields 12 48 ;;;
    sync_fd ;;;
    modify (fun q => set_table_moved q false)
  else ret tt.

(** ** Allocation *)
Definition blocks_required (q : qcow P) (pending : Z) : Z :=
  (q_host_count q + pending + refs_per_block q - 1) / refs_per_block q.
Fixpoint double_until (fuel : nat) (entries required : Z) : Z :=
  match fuel with
  | O => entries
  | S fuel => if entries <? required then double_until fuel (entries * 2) required else entries
  end.
(** The table moves to the end of the file, its old clusters are given back. *)
Definition move_table (required : Z) : M unit :=
  let! q := get_q in
  let entries := double_until 25 (q_ref_entries q) required in
  let old_offset := q_ref_offset q in
  let old_clusters := q_ref_clusters q in
  if QCOW_MAX_REF_BYTES <? entries * 8 then fail EFBIG
  else
    q_alloc ;;;
    q_alloc ;;;
    modify (fun q =>
      let added := entries - q_ref_entries q in
      let q := set_ref_dirty q (set_range (q_ref_dirty q) (q_ref_entries q) added false) in
      let q := set_ref_table q (set_range (q_ref_table q) (q_ref_entries q) added 0) in
      set_table_size q entries (entries / entries_per_l2 q)) ;;;
    let! off := append_hosts (entries / entries_per_l2 q) 1 in
    modify (fun q =>
      let q := set_table_moved (set_table_dirty (set_ref_offset q off) true) true in
      foldl (fun q i =>
        let q := set_refs q (set_at (q_refs q) i (w16 (q_refs q i - 1))) in
        ref_changed (set_tags q (set_at (q_tags q) i 0)) i)
        q (seqZ (old_offset / q_cluster_size q) old_clusters)).
Definition add_ref_block (i : Z) : M unit :=
  let! q := get_q in
  if negb (q_ref_table q i =? 0) then ret tt
  else
    let! off := append_hosts 1 1 in
    modify (fun q =>
      let q := set_ref_table q (set_at (q_ref_table q) i off) in
      set_table_dirty (set_ref_dirty q (set_at (q_ref_dirty q) i true)) true).
(** One round of the loop; it goes on until the blocks cover themselves. *)
Definition refcount_round (pending : Z) : M bool :=
  let! q := get_q in
  let required := blocks_required q pending in
  if q_ref_entries q <? required then move_table required ;;; ret true
  else
    for_each (seqZ 0 required) add_ref_block ;;;
    let! q := get_q in
    ret (negb (blocks_required q pending =? required)).
(** Every round but the last one appends a cluster. *)
Definition refcount_rounds : positive := 16777218.
Definition ensure_refcounts (pending : Z) : M unit :=
  let! finished := rounds refcount_rounds (refcount_round pending) in
  if (finished : bool) then ret tt else fail EIO.

Definition allocate_cluster (b : buf) (tag : Z) : M Z :=
  ensure_refcounts 1 ;;;
  let! off := append_hosts 1 tag in
  let! q := get_q in
  write_at b (q_cluster_size q) off ;;;
  flush_refcounts ;;;
  ret off.

(** Copied flags must describe the remaining unique mapping after COW. *)
Definition refresh_l2 (l2 off : Z) : M unit :=
  let! q := get_q in
  for_each (seqZ 0 (entries_per_l2 q)) (fun j =>
    let! entry := read_u64 (l2 + j * 8) in
    if offset_of entry =? off then write_u64 (l2 + j * 8) (Z.lor entry QCOW_COPIED) else ret tt).
Definition refresh_copied_flags (off tag : Z) : M unit :=
  let! q := get_q in
  for_each (seqZ 0 (q_l1_size q)) (fun i =>
    let! q := get_q in
    let l2 := offset_of (q_l1 q i) in
    if l2 =? 0 then ret tt
    else if (tag =? 3) && (l2 =? off) then
      write_u64 (q_l1_offset q + i * 8) (Z.lor l2 QCOW_COPIED) ;;;
      modify (fun q => set_l1 q (set_at (q_l1 q) i (Z.lor l2 QCOW_COPIED)))
    else if tag =? 2 then refresh_l2 l2 off
    else ret tt) ;;;
  sync_fd.
Definition drop_reference (off : Z) : M unit :=
  let! q := get_q in
  let n := off / q_cluster_size q in
  let tag := q_tags q n in
  if q_refs q n =? 0 then fail EINVAL
  else
    modify (fun q =>
      let q := set_refs q (set_at (q_refs q) n (q_refs q n - 1)) in
      let q := if q_refs q n =? 0 then set_tags q (set_at (q_tags q) n 0) else q in
      ref_changed q n) ;;;
    flush_refcounts ;;;
    let! q := get_q in
    if q_refs q n =? 1 then refresh_copied_flags off tag else ret tt.

(** ** Writing *)
Definition writable_l2 (index : Z) : M Z :=
  let! q := get_q in
  let old := offset_of (q_l1 q index) in
  if negb (old =? 0) && (q_refs q (old / q_cluster_size q) =? 1) then ret old
  else
    let! b := (if old =? 0 then ret zeros
               else let! b := read_at (q_cluster_size q) old in
                    ret (blit zeros 0 b (q_cluster_size q))) in
    let! off := allocate_cluster b 3 in
    write_u64 (q_l1_offset q + index * 8) (Z.lor off QCOW_COPIED) ;;;
    sync_fd ;;;
    modify (fun q => set_l1 q (set_at (q_l1 q) index (Z.lor off QCOW_COPIED))) ;;;
    (if old =? 0 then ret tt else drop_reference old) ;;;
    ret off.
(** One cluster of a write: copy on write, unless the cluster is this image's alone. *)
Definition write_chunk (b : buf) (pos chunk : Z) : M unit :=
  let! q := get_q in
  let guest := pos / q_cluster_size q in
  let within := pos mod q_cluster_size q in
  let! l2 := writable_l2 (guest / entries_per_l2 q) in
  let entry_off := l2 + guest mod entries_per_l2 q * 8 in
  let! entry := read_u64 entry_off in
  let data := offset_of entry in
  let! q := get_q in
  if (data =? 0) || has_flag entry QCOW_ZERO || negb (q_refs q (data / q_cluster_size q) =? 1) then
    let inherited := Z.min (q_size q - guest * q_cluster_size q) (q_cluster_size q) in
    let! old := qcow_read inherited (guest * q_cluster_size q) in
    let block := blit (blit zeros 0 old inherited) within (to_bytes b) chunk in
    let! off := allocate_cluster block 2 in
    write_u64 entry_off (Z.lor off QCOW_COPIED) ;;;
    sync_fd ;;;
    (if data =? 0 then ret tt else drop_reference data)
  else write_at b chunk (data + within).
Fixpoint write_loop (fuel : nat) (b : buf) (bytes pos : Z) : M unit :=
  if bytes =? 0 then ret tt
  else
    match fuel with
    | O => fail EIO
    | S fuel =>
        let! q := get_q in
        let chunk := Z.min (q_cluster_size q - pos mod q_cluster_size q) bytes in
        write_chunk b pos chunk ;;;
        write_loop fuel (slice b chunk) (bytes - chunk) (pos + chunk)
    end.
Definition qcow_write (b : buf) (bytes offset : Z) : M unit :=
  let! q := get_q in
  if negb (q_writable q) then fail EROFS
  else if outside q bytes offset then fail EINVAL
  else if bytes =? 0 then ret tt
  else
    q_alloc ;;;
    let! rc := attempt (begin_write ;;; write_loop (transfer_fuel q bytes) b bytes offset) in
    match rc with
    | Ok _ => ret tt
    | Err e => mark_failed ;;; fail e
    end.

Definition qcow_sync : M unit :=
  let! q := get_q in
  if q_failed q then fail EIO
  else if negb (q_changed q) then ret tt
  else
    let! rc := attempt flush_refcounts in
    match rc with
    | Err e => mark_failed ;;; fail e
    | Ok _ =>
        (if q_version q =? 3 then
           let! rc := attempt (write_u64 72 0 ;;; sync_fd) in
           match rc with
           | Ok _ => ret tt
           | Err e =>
               (* best effort: a failed flush is not advertised as a clean image *)
               attempt (write_u64 72 1) ;;; attempt sync_fd ;;; fail e
           end
         else ret tt) ;;;
        modify (fun q => set_changed q false)
    end.
(** What closing does to the file, before the descriptors are closed. *)
Definition qcow_close : M unit :=
  let! q := get_q in
  if q_writable q && q_changed q && negb (q_failed q)
  then attempt qcow_sync ;;; ret tt else ret tt.

#[export] Instance qcow_backend : Backend (qcow P) := {|
  bk_read := qcow_read;
  bk_write := qcow_write;
  bk_fsync := qcow_sync;
|}.
End qcow.
