(* ===== verification/Superblock.v ===== *)
(** * The superblock

    [superblock] is [struct nextufs_superblock] (include/nextufs_image.h);
    [decode_superblock] and [image_validate] are the functions of
    src/src/core/image.c, [cgstart], [cg_block_offset] and [inode_offset] the
    address computations of src/src/core/layout.c. *)
From S2P Require Import Prelude.
From S2P Require Import Bytes.

Record superblock := Superblock {
  sb_off : Z;
  cg_off : Z;
  ino_off : Z;
  data_off : Z;
  cg_delta : Z;
  cg_cyc_mask : Z;
  write_time : Z;
  frag_count : Z;
  data_frag_count : Z;
  cg_count : Z;
  block_size : Z;
  frag_size : Z;
  frags_per_block : Z;
  minfree : Z;
  rotdelay : Z;
  rps : Z;
  block_mask : Z;
  frag_mask : Z;
  block_shift : Z;
  frag_shift_calc : Z;
  maxcontig : Z;
  maxbpg : Z;
  frag_shift : Z;
  fsbtodb : Z;
  super_size : Z;
  csum_mask : Z;
  csum_shift : Z;
  nindir : Z;
  inodes_per_block : Z;
  sectors_per_frag : Z;
  optim : Z;
  cyl_summary_addr : Z;
  csum_size : Z;
  cg_size : Z;
  tracks_per_cyl : Z;
  sectors_per_track : Z;
  sectors_per_cyl : Z;
  ncyl : Z;
  cpg : Z;
  inodes_per_group : Z;
  frags_per_group : Z;
  dir_count : Z;
  free_block_count : Z;
  free_inode_count : Z;
  free_frag_count : Z;
  sb_state : Z;
  fs_magic : Z;
}.

Definition UFS_FS_MAGIC : Z := 0x11954.
Definition UFS_SBLOCK_OFFSET : Z := 0x2000.
Definition UFS_SUPER_MAGIC_OFFSET : Z := 0x55c.
Definition UFS_INODE_SIZE : Z := 128.
Definition CG_FREE_OFF : Z := 984.

Definition decode_superblock (b : buf) : superblock := {|
  sb_off := read_be32 b 0x08;
  cg_off := read_be32 b 0x0c;
  ino_off := read_be32 b 0x10;
  data_off := read_be32 b 0x14;
  cg_delta := read_be32 b 0x18;
  cg_cyc_mask := read_be32 b 0x1c;
  write_time := read_be32 b 0x20;
  frag_count := read_be32 b 0x24;
  data_frag_count := read_be32 b 0x28;
  cg_count := read_be32 b 0x2c;
  block_size := read_be32 b 0x30;
  frag_size := read_be32 b 0x34;
  frags_per_block := read_be32 b 0x38;
  minfree := read_be32 b 0x3c;
  rotdelay := read_be32 b 0x40;
  rps := read_be32 b 0x44;
  block_mask := read_be32 b 0x48;
  frag_mask := read_be32 b 0x4c;
  block_shift := read_be32 b 0x50;
  frag_shift_calc := read_be32 b 0x54;
  maxcontig := read_be32 b 0x58;
  maxbpg := read_be32 b 0x5c;
  frag_shift := read_be32 b 0x60;
  fsbtodb := read_be32 b 0x64;
  super_size := read_be32 b 0x68;
  csum_mask := read_be32 b 0x6c;
  csum_shift := read_be32 b 0x70;
  nindir := read_be32 b 0x74;
  inodes_per_block := read_be32 b 0x78;
  sectors_per_frag := read_be32 b 0x7c;
  optim := read_be32 b 0x80;
  cyl_summary_addr := read_be32 b 0x98;
  csum_size := read_be32 b 0x9c;
  cg_size := read_be32 b 0xa0;
  tracks_per_cyl := read_be32 b 0xa4;
  sectors_per_track := read_be32 b 0xa8;
  sectors_per_cyl := read_be32 b 0xac;
  ncyl := read_be32 b 0xb0;
  cpg := read_be32 b 0xb4;
  inodes_per_group := read_be32 b 0xb8;
  frags_per_group := read_be32 b 0xbc;
  dir_count := read_be32 b 0xc0;
  free_block_count := read_be32 b 0xc4;
  free_inode_count := read_be32 b 0xc8;
  free_frag_count := read_be32 b 0xcc;
  sb_state := b 0xd1;
  fs_magic := read_be32 b UFS_SUPER_MAGIC_OFFSET;
|}.

(** [~x] on a [uint32_t] *)
Definition not32 (x : Z) : Z := w32 (Z.lnot x).

(** Where the groups and their inodes lie.  [slice_base] is the byte offset of
    the filesystem in the image. *)
Definition cgstart (sb : superblock) (cg : Z) : Z :=
  let cgbase := frags_per_group sb * cg in
  let cyc_mask_bits := not32 (cg_cyc_mask sb) in
  w64 (cgbase + cg_delta sb * Z.land cg cyc_mask_bits).

Definition cg_block_offset (sb : superblock) (slice_base cg : Z) : Z :=
  slice_base + s64 ((cgstart sb cg + cg_off sb) * frag_size sb).

(** [-1] when the geometry cannot address inodes at all. *)
Definition inode_offset (sb : superblock) (slice_base inode_no : Z) : Z :=
  if (inodes_per_group sb =? 0) || (frags_per_group sb =? 0) ||
     (inodes_per_block sb =? 0)
  then -1
  else
    let cg := inode_no / inodes_per_group sb in
    let inum_in_group := inode_no mod inodes_per_group sb in
    let cgbase := frags_per_group sb * cg in
    let cgstart := w64 (cgbase + cg_delta sb * Z.land cg (not32 (cg_cyc_mask sb))) in
    let cgimin := w64 (cgstart + ino_off sb) in
    let frag_addr := w64 (cgimin + Z.shiftl (inum_in_group / inodes_per_block sb)
                                     (frag_shift sb)) in
    let inode_slot := inum_in_group mod inodes_per_block sb in
    slice_base + s64 (frag_addr * frag_size sb) + inode_slot * UFS_INODE_SIZE.

(** The disjunction of nextufs_image_validate: [true] rejects the geometry.
    Split in two for readability; the order of the tests is the source's. *)
Definition bad_shapes (s : superblock) : bool :=
  negb (fs_magic s =? UFS_FS_MAGIC) ||
  (32 <=? block_shift s) || (32 <=? frag_shift_calc s) || (32 <=? csum_shift s) ||
  negb (Z.shiftl 1 (block_shift s) =? block_size s) ||
  negb (Z.shiftl 1 (frag_shift_calc s) =? frag_size s) ||
  negb (block_mask s =? not32 (w32 (block_size s - 1))) ||
  negb (frag_mask s =? not32 (w32 (frag_size s - 1))) ||
  negb (Z.shiftl 1 (csum_shift s) =? block_size s / 16) ||
  negb (csum_mask s =? not32 (w32 (block_size s / 16 - 1))) ||
  (negb (sectors_per_frag s =? frag_size s / 1024) &&
   negb (sectors_per_frag s =? frag_size s / 2048)) ||
  negb (cpg s * sectors_per_cyl s =? frags_per_group s * sectors_per_frag s) ||
  (ncyl s =? 0) || (cg_count s * cpg s <? ncyl s) ||
  (ncyl s <=? w32 (cg_count s - 1) * cpg s) ||
  (frag_count s <? data_frag_count s) ||
  ((inodes_per_block s =? 0) ||
   negb (inodes_per_group s mod inodes_per_block s =? 0)) ||
  (INT32_MAX <? ncyl s * sectors_per_cyl s) ||
  (frags_per_group s <? cg_delta s * not32 (cg_cyc_mask s) + data_off s) ||
  (INT32_MAX <? cg_count s * inodes_per_group s) ||
  (INT32_MAX <? frag_count s * (frag_size s / 1024)).

Definition bad_sizes (s : superblock) : bool :=
  (block_size s <? 4096) || (8192 <? block_size s) ||
  negb (Z.land (block_size s) (block_size s - 1) =? 0) ||
  (frag_size s <? 1024) || (block_size s <? frag_size s) ||
  negb (Z.land (frag_size s) (frag_size s - 1) =? 0) ||
  negb (frags_per_block s =? block_size s / frag_size s) ||
  (8 <? frags_per_block s) || (3 <? frag_shift s) ||
  negb (Z.shiftl 1 (frag_shift s) =? frags_per_block s) ||
  negb (inodes_per_block s =? block_size s / UFS_INODE_SIZE) ||
  negb (nindir s =? block_size s / 4) || (inodes_per_group s =? 0) ||
  (2048 <? inodes_per_group s) || (frags_per_group s =? 0) ||
  (frag_count s =? 0) || (cg_count s =? 0) ||
  negb (cg_count s =? (frag_count s + frags_per_group s - 1) / frags_per_group s) ||
  (cg_size s <? CG_FREE_OFF) || (block_size s <? cg_size s) ||
  (cg_size s <? CG_FREE_OFF + (frags_per_group s + 7) / 8) ||
  (super_size s <? 0x560) || (8192 <? super_size s) || (cpg s =? 0) ||
  (32 <? cpg s) || (sectors_per_cyl s =? 0) || (sectors_per_track s =? 0) ||
  (sectors_per_frag s =? 0) || (16 <? sectors_per_frag s) ||
  (4 <? fsbtodb s) || negb (Z.shiftl 1 (fsbtodb s) =? sectors_per_frag s) ||
  (csum_size s <? cg_count s * 16) ||
  (w32 (32 * block_size s) <? csum_size s) || (cg_off s <? sb_off s) ||
  (ino_off s <=? cg_off s) || (data_off s <=? ino_off s) ||
  (data_off s <? ino_off s +
     (inodes_per_group s * UFS_INODE_SIZE + frag_size s - 1) / frag_size s).

Definition bad_extent (s : superblock) (slice_base slice_size : Z) : bool :=
  let bytes := frag_count s * frag_size s in
  let last := cgstart s (cg_count s - 1) in
  (slice_base <? 0) || (slice_size <? 0) || (slice_size <? bytes) ||
  (frag_count s <? w64 (last + data_off s)) ||
  (bytes <? cyl_summary_addr s * frag_size s + csum_size s).

Definition image_validate (s : superblock) (slice_base slice_size : Z) : result unit :=
  if bad_shapes s || bad_sizes s then Err EINVAL
  else if bad_extent s slice_base slice_size then Err EINVAL
  else Ok tt.

(** Every field of a decoded superblock is a 32-bit integer. *)
Record sb_wf (s : superblock) : Prop := SbWf {
  wf_sb_off : 0 <= sb_off s < 2 ^ 32;
  wf_cg_off : 0 <= cg_off s < 2 ^ 32;
  wf_ino_off : 0 <= ino_off s < 2 ^ 32;
  wf_data_off : 0 <= data_off s < 2 ^ 32;
  wf_cg_delta : 0 <= cg_delta s < 2 ^ 32;
  wf_cg_cyc_mask : 0 <= cg_cyc_mask s < 2 ^ 32;
  wf_write_time : 0 <= write_time s < 2 ^ 32;
  wf_frag_count : 0 <= frag_count s < 2 ^ 32;
  wf_data_frag_count : 0 <= data_frag_count s < 2 ^ 32;
  wf_cg_count : 0 <= cg_count s < 2 ^ 32;
  wf_block_size : 0 <= block_size s < 2 ^ 32;
  wf_frag_size : 0 <= frag_size s < 2 ^ 32;
  wf_frags_per_block : 0 <= frags_per_block s < 2 ^ 32;
  wf_minfree : 0 <= minfree s < 2 ^ 32;
  wf_rotdelay : 0 <= rotdelay s < 2 ^ 32;
  wf_rps : 0 <= rps s < 2 ^ 32;
  wf_block_mask : 0 <= block_mask s < 2 ^ 32;
  wf_frag_mask : 0 <= frag_mask s < 2 ^ 32;
  wf_block_shift : 0 <= block_shift s < 2 ^ 32;
  wf_frag_shift_calc : 0 <= frag_shift_calc s < 2 ^ 32;
  wf_maxcontig : 0 <= maxcontig s < 2 ^ 32;
  wf_maxbpg : 0 <= maxbpg s < 2 ^ 32;
  wf_frag_shift : 0 <= frag_shift s < 2 ^ 32;
  wf_fsbtodb : 0 <= fsbtodb s < 2 ^ 32;
  wf_super_size : 0 <= super_size s < 2 ^ 32;
  wf_csum_mask : 0 <= csum_mask s < 2 ^ 32;
  wf_csum_shift : 0 <= csum_shift s < 2 ^ 32;
  wf_nindir : 0 <= nindir s < 2 ^ 32;
  wf_inodes_per_block : 0 <= inodes_per_block s < 2 ^ 32;
  wf_sectors_per_frag : 0 <= sectors_per_frag s < 2 ^ 32;
  wf_optim : 0 <= optim s < 2 ^ 32;
  wf_cyl_summary_addr : 0 <= cyl_summary_addr s < 2 ^ 32;
  wf_csum_size : 0 <= csum_size s < 2 ^ 32;
  wf_cg_size : 0 <= cg_size s < 2 ^ 32;
  wf_tracks_per_cyl : 0 <= tracks_per_cyl s < 2 ^ 32;
  wf_sectors_per_track : 0 <= sectors_per_track s < 2 ^ 32;
  wf_sectors_per_cyl : 0 <= sectors_per_cyl s < 2 ^ 32;
  wf_ncyl : 0 <= ncyl s < 2 ^ 32;
  wf_cpg : 0 <= cpg s < 2 ^ 32;
  wf_inodes_per_group : 0 <= inodes_per_group s < 2 ^ 32;
  wf_frags_per_group : 0 <= frags_per_group s < 2 ^ 32;
  wf_dir_count : 0 <= dir_count s < 2 ^ 32;
  wf_free_block_count : 0 <= free_block_count s < 2 ^ 32;
  wf_free_inode_count : 0 <= free_inode_count s < 2 ^ 32;
  wf_free_frag_count : 0 <= free_frag_count s < 2 ^ 32;
  wf_sb_state : 0 <= sb_state s < 2 ^ 8;
}.

Lemma decode_superblock_wf b : wf_buf b -> sb_wf (decode_superblock b).
Proof. intros H. constructor; cbn; try by apply read_be32_range. apply H. Qed.

(** ** What validation guarantees *)
Record geometry (s : superblock) : Prop := Geometry {
  geo_block_size : block_size s = 4096 \/ block_size s = 8192;
  geo_fpb : frags_per_block s = 1 \/ frags_per_block s = 2 \/
            frags_per_block s = 4 \/ frags_per_block s = 8;
  geo_frag_size : frag_size s * frags_per_block s = block_size s;
  geo_frag_shift : 2 ^ frag_shift s = frags_per_block s /\ 0 <= frag_shift s <= 3;
  geo_frag_min : 1024 <= frag_size s;
  geo_ipb : inodes_per_block s * UFS_INODE_SIZE = block_size s;
  geo_ipg : 0 < inodes_per_group s <= 2048;
  geo_ipg_mult : inodes_per_group s mod inodes_per_block s = 0;
  geo_fpg : 0 < frags_per_group s;
  geo_cg_count : 0 < cg_count s;
  geo_cg_count_eq :
    cg_count s = (frag_count s + frags_per_group s - 1) / frags_per_group s;
  geo_inodes : cg_count s * inodes_per_group s <= INT32_MAX;
  geo_frags : frag_count s * (frag_size s / 1024) <= INT32_MAX;
  geo_cg_size : CG_FREE_OFF <= cg_size s <= block_size s;
  geo_cg_map : CG_FREE_OFF + (frags_per_group s + 7) / 8 <= cg_size s;
  geo_stagger : cg_delta s * not32 (cg_cyc_mask s) + data_off s <= frags_per_group s;
  geo_order : sb_off s <= cg_off s < ino_off s /\ ino_off s < data_off s;
  geo_inode_table :
    ino_off s + (inodes_per_group s * UFS_INODE_SIZE + frag_size s - 1) / frag_size s
      <= data_off s;
  geo_spc : 0 < sectors_per_cyl s /\ 0 < sectors_per_track s;
  geo_csum : cg_count s * 16 <= csum_size s;
  geo_minmax : 0 < frag_count s < 2 ^ 32;
}.

Ltac split_orb H :=
  repeat match type of H with
         | (_ || _) = false => apply orb_false_iff in H; destruct H as [H ?]
         end.

Lemma pow2_le_8192 k :
  0 <= k < 32 -> 1024 <= Z.shiftl 1 k <= 8192 ->
  Z.shiftl 1 k = 1024 \/ Z.shiftl 1 k = 2048 \/ Z.shiftl 1 k = 4096 \/ Z.shiftl 1 k = 8192.
Proof.
  rewrite Z.shiftl_1_l. intros Hk Hb.
  assert (10 <= k) by (apply (Z.pow_le_mono_r_iff 2); lia).
  assert (k <= 13) by (apply (Z.pow_le_mono_r_iff 2); lia).
  assert (k = 10 \/ k = 11 \/ k = 12 \/ k = 13) as [->|[->|[->| ->]]] by lia; auto.
Qed.

Lemma pow2_le_8 k :
  0 <= k <= 3 -> 2 ^ k = 1 \/ 2 ^ k = 2 \/ 2 ^ k = 4 \/ 2 ^ k = 8.
Proof.
  intros. assert (k = 0 \/ k = 1 \/ k = 2 \/ k = 3) as [->|[->|[->| ->]]] by lia; auto.
Qed.

Lemma validate_geometry s slice_base slice_size :
  sb_wf s -> image_validate s slice_base slice_size = Ok tt -> geometry s.
Proof.
  intros Hwf H. unfold image_validate in H.
  destruct (bad_shapes s || bad_sizes s) eqn:E; [done|].
  apply orb_false_iff in E as [E1 E2]. clear H.
  unfold bad_shapes in E1. unfold bad_sizes in E2. split_orb E1. split_orb E2.
  bool_to_prop.
  pose proof (wf_block_shift _ Hwf). pose proof (wf_frag_shift_calc _ Hwf).
  pose proof (wf_frag_shift _ Hwf).
  assert (Hbs : Z.shiftl 1 (block_shift s) = block_size s) by done.
  assert (Hfs : Z.shiftl 1 (frag_shift_calc s) = frag_size s) by done.
  pose proof (pow2_le_8192 (block_shift s)) as Hb. rewrite Hbs in Hb.
  pose proof (pow2_le_8192 (frag_shift_calc s)) as Hf. rewrite Hfs in Hf.
  pose proof (pow2_le_8 (frag_shift s) ltac:(lia)) as Hp.
  assert (Hshift : 2 ^ frag_shift s = frags_per_block s) by by rewrite <- Z.shiftl_1_l.
  specialize (Hb ltac:(lia) ltac:(lia)). specialize (Hf ltac:(lia) ltac:(lia)).
  assert (Hblock : block_size s = 4096 \/ block_size s = 8192) by (clear Hf; lia).
  rename Hf into Hfrag.
  assert (Hfpb : frags_per_block s = block_size s / frag_size s) by done.
  pose proof (wf_inodes_per_group _ Hwf). pose proof (wf_frags_per_group _ Hwf).
  pose proof (wf_cg_count _ Hwf). pose proof (wf_frag_count _ Hwf).
  pose proof (wf_sectors_per_cyl _ Hwf). pose proof (wf_sectors_per_track _ Hwf).
  assert (Hm : frag_size s * frags_per_block s = block_size s).
  { assert (frag_size s <= block_size s) as Hle by done.
    clear - Hfpb Hblock Hfrag Hle. rewrite Hfpb.
    destruct Hblock as [E | E], Hfrag as [F | [F | [F | F]]]; 
    first [by rewrite E, F | lia]. }
  assert (Hipb : inodes_per_block s = block_size s / UFS_INODE_SIZE) by done.
  clear Hb Hfs Hbs.
  constructor; try done; try (clear Hblock Hfrag; lia).
  rewrite Hipb. unfold UFS_INODE_SIZE.
  by destruct Hblock as [-> | ->].
Qed.

(** ** Addresses under a validated geometry *)
Lemma land_le_r a b : 0 <= a -> 0 <= b -> 0 <= Z.land a b <= b.
Proof.
  intros Ha Hb. split; [apply Z.land_nonneg; lia|].
  rewrite Z.land_comm. apply Z.ldiff_le; [done|].
  apply Z.bits_inj'. intros n Hn. rewrite Z.ldiff_spec, Z.land_spec, Z.bits_0.
  by destruct (Z.testbit a n), (Z.testbit b n).
Qed.

Section geometry.
Context (s : superblock) (base size : Z).
Hypothesis Hwf : sb_wf s.
Hypothesis Hvalid : image_validate s base size = Ok tt.

Lemma valid_geometry : geometry s.
Proof. by eapply validate_geometry. Qed.

Lemma valid_extent : bad_extent s base size = false.
Proof.
  unfold image_validate in Hvalid.
  destruct (bad_shapes s || bad_sizes s), (bad_extent s base size); done.
Qed.

Lemma cgstart_bounds cg :
  0 <= cg < cg_count s ->
  cgstart s cg = frags_per_group s * cg +
                 cg_delta s * Z.land cg (not32 (cg_cyc_mask s)) /\
  frags_per_group s * cg <= cgstart s cg /\
  cgstart s cg + data_off s <= frags_per_group s * (cg + 1).
Proof.
  intros Hcg. pose proof valid_geometry as G.
  pose proof (geo_stagger _ G). pose proof (wf_cg_delta _ Hwf).
  pose proof (wf_frags_per_group _ Hwf). pose proof (wf_cg_count _ Hwf).
  pose proof (wf_data_off _ Hwf).
  assert (Hl : 0 <= Z.land cg (not32 (cg_cyc_mask s)) <= not32 (cg_cyc_mask s))
    by (apply land_le_r; [lia|apply w32_range]).
  unfold cgstart. set (m := Z.land _ _) in *. set (n := not32 _) in *.
  assert (0 <= cg_delta s * m <= cg_delta s * n) by nia.
  assert (0 <= frags_per_group s * cg) by nia.
  assert (frags_per_group s * cg <= (2 ^ 32 - 1) * (2 ^ 32 - 2)) by nia.
  rewrite w64_small by lia. lia.
Qed.

Lemma group_end cg :
  0 <= cg < cg_count s -> cgstart s cg + data_off s <= frag_count s.
Proof.
  intros Hcg. pose proof valid_geometry as G. pose proof valid_extent as He.
  unfold bad_extent in He. bool_to_prop.
  destruct (decide (cg = cg_count s - 1)) as [->|].
  - pose proof (cgstart_bounds (cg_count s - 1) ltac:(lia)) as (_ & ? & ?).
    pose proof (wf_frags_per_group _ Hwf). pose proof (wf_cg_count _ Hwf).
    pose proof (wf_data_off _ Hwf).
    rewrite w64_small in *; [done|nia].
  - pose proof (cgstart_bounds cg Hcg) as (_ & _ & ?).
    pose proof (geo_cg_count_eq _ G). pose proof (geo_fpg _ G).
    assert (cg + 2 <= (frag_count s + frags_per_group s - 1) / frags_per_group s) by lia.
    assert (frags_per_group s * (cg + 2) <= frag_count s + frags_per_group s - 1).
    { pose proof (Z.mul_div_le (frag_count s + frags_per_group s - 1)
        (frags_per_group s) ltac:(lia)). nia. }
    nia.
Qed.

Lemma bytes_bound :
  0 <= base /\ 0 < frag_count s * frag_size s <= size /\
  frag_count s * frag_size s < 2 ^ 46.
Proof.
  pose proof valid_geometry as G. pose proof valid_extent as He.
  unfold bad_extent in He. bool_to_prop.
  pose proof (geo_frag_size _ G). pose proof (geo_block_size _ G).
  pose proof (geo_fpb _ G). pose proof (geo_minmax _ G). pose proof (geo_frag_min _ G).
  assert (frag_size s <= 8192) by lia. nia.
Qed.

(** One fragment of cylinder-group header always fits before the data. *)
Lemma header_fits : cg_off s * frag_size s + cg_size s <= data_off s * frag_size s.
Proof.
  pose proof valid_geometry as G. pose proof (geo_order _ G).
  pose proof (geo_inode_table _ G) as Ht. pose proof (geo_ipg _ G).
  pose proof (geo_ipg_mult _ G) as Hm. pose proof (geo_ipb _ G).
  pose proof (geo_frag_min _ G). pose proof (geo_cg_size _ G).
  assert (Hipb : 0 < inodes_per_block s).
  { pose proof (geo_block_size _ G). unfold UFS_INODE_SIZE in *. lia. }
  assert (Hge : inodes_per_block s <= inodes_per_group s).
  { apply Z.mod_divide in Hm; [|lia]. apply Z.divide_pos_le; [lia|done]. }
  set (q := (inodes_per_group s * UFS_INODE_SIZE + frag_size s - 1) / frag_size s) in *.
  assert (inodes_per_group s * UFS_INODE_SIZE <= q * frag_size s).
  { pose proof (Z.mul_succ_div_gt
      (inodes_per_group s * UFS_INODE_SIZE + frag_size s - 1) (frag_size s)). nia. }
  unfold UFS_INODE_SIZE in *. nia.
Qed.

Lemma cg_block_offset_eq cg :
  0 <= cg < cg_count s ->
  cg_block_offset s base cg = base + (cgstart s cg + cg_off s) * frag_size s.
Proof.
  intros Hcg. pose proof (cgstart_bounds cg Hcg) as (_ & ? & _).
  pose proof (group_end cg Hcg). pose proof bytes_bound. pose proof valid_geometry as G.
  pose proof (geo_order _ G). pose proof (wf_cg_off _ Hwf). pose proof (geo_frag_min _ G).
  pose proof (geo_fpg _ G).
  unfold cg_block_offset. rewrite s64_small; [done|].
  assert (0 <= frags_per_group s * cg) by nia. nia.
Qed.

Lemma cg_block_bounds cg :
  0 <= cg < cg_count s ->
  base + frags_per_group s * cg * frag_size s <= cg_block_offset s base cg /\
  cg_block_offset s base cg + cg_size s <=
    base + frags_per_group s * (cg + 1) * frag_size s /\
  cg_block_offset s base cg + cg_size s <= base + frag_count s * frag_size s.
Proof.
  intros Hcg. rewrite cg_block_offset_eq by done.
  pose proof (cgstart_bounds cg Hcg) as (_ & ? & ?). pose proof (group_end cg Hcg).
  pose proof header_fits. pose proof valid_geometry as G. pose proof (geo_frag_min _ G).
  pose proof (wf_cg_off _ Hwf). split_and!; nia.
Qed.

(** The slot arithmetic is a plain array of 128-byte inodes. *)
Lemma inode_offset_eq ino :
  0 <= ino < cg_count s * inodes_per_group s ->
  inode_offset s base ino =
    base + (cgstart s (ino / inodes_per_group s) + ino_off s) * frag_size s +
    UFS_INODE_SIZE * (ino mod inodes_per_group s).
Proof.
  intros Hi. pose proof valid_geometry as G.
  pose proof (geo_ipg _ G) as Hipg. pose proof (geo_ipb _ G) as Hipb.
  pose proof (geo_block_size _ G). pose proof (geo_fpg _ G).
  pose proof (geo_frag_shift _ G) as [Hsh Hsh3]. pose proof (geo_frag_size _ G).
  pose proof (geo_frag_min _ G). pose proof (geo_order _ G).
  pose proof (wf_cg_off _ Hwf). pose proof (wf_sb_off _ Hwf).
  assert (Hcg : 0 <= ino / inodes_per_group s < cg_count s).
  { split; [apply Z.div_pos; lia|apply Z.div_lt_upper_bound; lia]. }
  pose proof (cgstart_bounds _ Hcg) as (Hst & ? & _). pose proof (group_end _ Hcg).
  pose proof bytes_bound as (_ & _ & Hbytes).
  pose proof (Z.mod_pos_bound ino (inodes_per_group s) ltac:(lia)) as Hmod.
  pose proof (geo_inode_table _ G) as Htab.
  set (q := (_ + _ - 1) / _) in Htab.
  assert (Hq : inodes_per_group s * UFS_INODE_SIZE <= q * frag_size s).
  { pose proof (Z.mul_succ_div_gt
      (inodes_per_group s * UFS_INODE_SIZE + frag_size s - 1) (frag_size s)). nia. }
  unfold inode_offset.
  assert (inodes_per_block s <> 0) by (unfold UFS_INODE_SIZE in *; lia).
  rewrite !(proj2 (Z.eqb_neq _ _)) by lia. cbn [orb].
  set (cg := ino / inodes_per_group s) in *. set (k := ino mod inodes_per_group s) in *.
  fold (cgstart s cg). set (st := cgstart s cg) in *.
  assert (0 <= frags_per_group s * cg) by nia.
  rewrite Z.shiftl_mul_pow2, Hsh by lia.
  pose proof (Z.div_mod k (inodes_per_block s) ltac:(lia)) as Hk.
  set (d := k / inodes_per_block s) in *. set (m := k mod inodes_per_block s) in *.
  assert (0 <= d) by (apply Z.div_pos; unfold UFS_INODE_SIZE in *; lia).
  assert (Hm : 0 <= m < inodes_per_block s)
    by (apply Z.mod_pos_bound; unfold UFS_INODE_SIZE in *; lia).
  assert (Hd : d * frags_per_block s * frag_size s + m * UFS_INODE_SIZE = UFS_INODE_SIZE * k).
  { rewrite Hk. unfold UFS_INODE_SIZE in *. nia. }
  assert (Hfrag : 0 <= d * frags_per_block s * frag_size s <= q * frag_size s).
  { unfold UFS_INODE_SIZE in *. pose proof (geo_fpb _ G). nia. }
  assert (0 <= d * frags_per_block s <= q) by nia.
  assert (data_off s < 2 ^ 32) by apply (wf_data_off _ Hwf).
  assert (st < 2 ^ 32) by (pose proof (geo_minmax _ G); lia).
  rewrite (w64_small (st + ino_off s)), w64_small by lia.
  assert ((st + ino_off s + d * frags_per_block s) <= frag_count s) by lia.
  rewrite s64_small by nia. lia.
Qed.

Lemma inode_slot_bounds ino :
  0 <= ino < cg_count s * inodes_per_group s ->
  let cg := ino / inodes_per_group s in
  base + (frags_per_group s * cg + ino_off s) * frag_size s <= inode_offset s base ino /\
  inode_offset s base ino + UFS_INODE_SIZE <=
    base + (cgstart s cg + data_off s) * frag_size s /\
  inode_offset s base ino + UFS_INODE_SIZE <= base + frag_count s * frag_size s.
Proof.
  intros Hi cg. rewrite inode_offset_eq by done. pose proof valid_geometry as G.
  pose proof (geo_ipg _ G) as Hipg. pose proof (geo_frag_min _ G).
  assert (Hcg : 0 <= cg < cg_count s).
  { unfold cg. split; [apply Z.div_pos; lia|apply Z.div_lt_upper_bound; lia]. }
  pose proof (cgstart_bounds _ Hcg) as (_ & ? & _). pose proof (group_end _ Hcg).
  pose proof (Z.mod_pos_bound ino (inodes_per_group s) ltac:(lia)) as Hmod.
  pose proof (geo_inode_table _ G) as Htab.
  set (q := (_ + _ - 1) / _) in Htab.
  assert (Hq : inodes_per_group s * UFS_INODE_SIZE <= q * frag_size s).
  { pose proof (Z.mul_succ_div_gt
      (inodes_per_group s * UFS_INODE_SIZE + frag_size s - 1) (frag_size s)). nia. }
  fold cg. unfold UFS_INODE_SIZE in *.
  assert (128 * (ino mod inodes_per_group s) + 128 <= q * frag_size s) by lia.
  split_and!; nia.
Qed.
End geometry.

(** ** A small filesystem for the witnesses: two groups of 256 1K fragments *)
Definition mini_sb : superblock := {|
  sb_off := 16; cg_off := 24; ino_off := 32; data_off := 40; cg_delta := 0;
  cg_cyc_mask := 0xffffffff; write_time := 0; frag_count := 512;
  data_frag_count := 430; cg_count := 2; block_size := 8192; frag_size := 1024;
  frags_per_block := 8; minfree := 10; rotdelay := 0; rps := 60;
  block_mask := 0xffffe000; frag_mask := 0xfffffc00; block_shift := 13;
  frag_shift_calc := 10; maxcontig := 1; maxbpg := 256; frag_shift := 3;
  fsbtodb := 0; super_size := 1380; csum_mask := 0xfffffe00; csum_shift := 9;
  nindir := 2048; inodes_per_block := 64; sectors_per_frag := 1; optim := 0;
  cyl_summary_addr := 40; csum_size := 1024; cg_size := 2048;
  tracks_per_cyl := 1; sectors_per_track := 16; sectors_per_cyl := 16;
  ncyl := 32; cpg := 16; inodes_per_group := 64; frags_per_group := 256;
  dir_count := 1; free_block_count := 54; free_inode_count := 125;
  free_frag_count := 0; sb_state := 1; fs_magic := UFS_FS_MAGIC;
|}.

Lemma mini_sb_wf : sb_wf mini_sb.
Proof. constructor; cbn; lia. Qed.
Lemma mini_sb_valid : image_validate mini_sb 0 (512 * 1024) = Ok tt.
Proof. reflexivity. Qed.

(** ** Properties *)

(** C5. A superblock accepted by nextufs_image_validate describes geometry in
    which every cylinder-group header and every inode slot the address
    computations produce lies inside its own group and inside the filesystem,
    so no 64-bit product wraps and no metadata access leaves the slice. *)
Theorem validated_addresses_in_bounds s base size
    (Hwf : sb_wf s) (Hv : image_validate s base size = Ok tt) :
  (forall cg, 0 <= cg < cg_count s ->
     base + frags_per_group s * cg * frag_size s <= cg_block_offset s base cg /\
     cg_block_offset s base cg + cg_size s <=
       base + frags_per_group s * (cg + 1) * frag_size s /\
     cg_block_offset s base cg + cg_size s <= base + size) /\
  (forall ino, 0 <= ino < cg_count s * inodes_per_group s ->
     let cg := ino / inodes_per_group s in
     base + (frags_per_group s * cg + ino_off s) * frag_size s <= inode_offset s base ino /\
     inode_offset s base ino + UFS_INODE_SIZE <=
       base + frags_per_group s * (cg + 1) * frag_size s /\
     inode_offset s base ino + UFS_INODE_SIZE <= base + size).
Proof.
  pose proof (bytes_bound s base size Hwf Hv).
  pose proof (valid_geometry s base size Hwf Hv) as G. pose proof (geo_frag_min _ G).
  split.
  - intros cg Hcg. pose proof (cg_block_bounds s base size Hwf Hv cg Hcg). lia.
  - intros ino Hi cg.
    assert (Hcg : 0 <= cg < cg_count s).
    { pose proof (geo_ipg _ G). unfold cg.
      split; [apply Z.div_pos; lia|apply Z.div_lt_upper_bound; lia]. }
    pose proof (inode_slot_bounds s base size Hwf Hv ino Hi) as (? & ? & ?).
    pose proof (cgstart_bounds s base size Hwf Hv cg Hcg) as (_ & _ & ?).
    fold cg in H1, H2. split_and!; [done|nia|lia].
Qed.

Lemma validated_addresses_in_bounds_witness :
  let s := mini_sb in
  (forall cg, 0 <= cg < cg_count s ->
     0 + frags_per_group s * cg * frag_size s <= cg_block_offset s 0 cg /\
     cg_block_offset s 0 cg + cg_size s <=
       0 + frags_per_group s * (cg + 1) * frag_size s /\
     cg_block_offset s 0 cg + cg_size s <= 0 + 512 * 1024) /\
  (forall ino, 0 <= ino < cg_count s * inodes_per_group s ->
     let cg := ino / inodes_per_group s in
     0 + (frags_per_group s * cg + ino_off s) * frag_size s <= inode_offset s 0 ino /\
     inode_offset s 0 ino + UFS_INODE_SIZE <=
       0 + frags_per_group s * (cg + 1) * frag_size s /\
     inode_offset s 0 ino + UFS_INODE_SIZE <= 0 + 512 * 1024).
Proof.
  intros s. apply (validated_addresses_in_bounds mini_sb 0 (512 * 1024)).
  - exact mini_sb_wf.
  - exact mini_sb_valid.
Defined.

(** Distinct inode numbers have disjoint 128-byte slots on disk: writing
    one inode can never touch another. *)
Lemma inode_slots_disjoint s base size i j
    (Hwf : sb_wf s) (Hv : image_validate s base size = Ok tt)
    (Hi : 0 <= i < cg_count s * inodes_per_group s)
    (Hj : 0 <= j < cg_count s * inodes_per_group s) (Hne : i <> j) :
  inode_offset s base i + UFS_INODE_SIZE <= inode_offset s base j \/
  inode_offset s base j + UFS_INODE_SIZE <= inode_offset s base i.
Proof.
  pose proof (valid_geometry s base size Hwf Hv) as G.
  pose proof (geo_ipg _ G). pose proof (geo_fpg _ G). pose proof (geo_frag_min _ G).
  assert (forall a b, 0 <= a < cg_count s * inodes_per_group s ->
    0 <= b < cg_count s * inodes_per_group s ->
    a / inodes_per_group s < b / inodes_per_group s ->
    inode_offset s base a + UFS_INODE_SIZE <= inode_offset s base b) as Hlt.
  { intros a b Ha Hb Hab.
    pose proof (inode_slot_bounds s base size Hwf Hv a Ha) as (_ & Ha1 & _).
    pose proof (inode_slot_bounds s base size Hwf Hv b Hb) as (Hb1 & _ & _).
    cbv zeta in Ha1, Hb1.
    assert (Hcg : 0 <= a / inodes_per_group s < cg_count s).
    { split; [apply Z.div_pos; lia|apply Z.div_lt_upper_bound; lia]. }
    pose proof (cgstart_bounds s base size Hwf Hv _ Hcg) as (_ & _ & Hc).
    pose proof (wf_ino_off _ Hwf).
    assert (cgstart s (a / inodes_per_group s) + data_off s <=
            frags_per_group s * (b / inodes_per_group s) + ino_off s) by nia.
    nia. }
  destruct (Z.lt_trichotomy (i / inodes_per_group s) (j / inodes_per_group s))
    as [?|[Heq|?]]; [left; by apply Hlt| |right; by apply Hlt].
  rewrite (inode_offset_eq s base size Hwf Hv i Hi), (inode_offset_eq s base size Hwf Hv j Hj), Heq.
  pose proof (Z.div_mod i (inodes_per_group s) ltac:(lia)).
  pose proof (Z.div_mod j (inodes_per_group s) ltac:(lia)).
  unfold UFS_INODE_SIZE. rewrite Heq in *. lia.
Qed.
