(* ===== verification/Image.v ===== *)
(** * Images, checked image access and the operation-local undo log

    [image] is [struct nextufs_image]; [world] is everything an operation can
    change behind the [const] image pointer: the backend context, the
    transaction object and the outcomes of the host environment.  The accessors
    are those of src/src/core/layout.c, the undo log is
    src/src/core/transaction.c (byte for byte: the log file holds the saved bytes
    followed by a native [struct undo_record]), the clean/dirty protocol is
    nextufs__write_begin and nextufs__write_finish of src/src/core/image.c. *)
From S2P Require Import Prelude.
From S2P Require Import Bytes.
From S2P Require Import Backend.
From S2P Require Import Superblock.

Inductive source_format := SOURCE_RAW | SOURCE_VDI | SOURCE_QCOW2.

Record image := Image {
  backend_open : bool;             (* backend_ops != NULL *)
  writable : bool;
  unprivileged : bool;
  restore_clean : bool;
  fs_write_active : bool;
  source_is_container : bool;
  img_source_format : source_format;
  image_size : Z;
  slice_base : Z;
  slice_size : Z;
  img_label_off : Z;
  label_version : Z;
  label_secsize : Z;
  label_front : Z;
  label_name : list Z;
  img_rootpartition : Z;
  used_disk_label : bool;
  sb : superblock;
}.

Definition with_sb (img : image) (s : superblock) : image :=
  Image (backend_open img) (writable img) (unprivileged img) (restore_clean img)
    (fs_write_active img) (source_is_container img) (img_source_format img)
    (image_size img) (slice_base img) (slice_size img) (img_label_off img)
    (label_version img) (label_secsize img) (label_front img) (label_name img)
    (img_rootpartition img) (used_disk_label img) s.
Definition with_flags (img : image) (unpriv clean active : bool) : image :=
  Image (backend_open img) (writable img) unpriv clean active
    (source_is_container img) (img_source_format img)
    (image_size img) (slice_base img) (slice_size img) (img_label_off img)
    (label_version img) (label_secsize img) (label_front img) (label_name img)
    (img_rootpartition img) (used_disk_label img) (sb img).
Definition with_state (s : superblock) (st : Z) : superblock :=
  Superblock (sb_off s) (cg_off s) (ino_off s) (data_off s) (cg_delta s)
    (cg_cyc_mask s) (write_time s) (frag_count s) (data_frag_count s) (cg_count s)
    (block_size s) (frag_size s) (frags_per_block s) (minfree s) (rotdelay s)
    (rps s) (block_mask s) (frag_mask s) (block_shift s) (frag_shift_calc s)
    (maxcontig s) (maxbpg s) (frag_shift s) (fsbtodb s) (super_size s)
    (csum_mask s) (csum_shift s) (nindir s) (inodes_per_block s)
    (sectors_per_frag s) (optim s) (cyl_summary_addr s) (csum_size s) (cg_size s)
    (tracks_per_cyl s) (sectors_per_track s) (sectors_per_cyl s) (ncyl s) (cpg s)
    (inodes_per_group s) (frags_per_group s) (dir_count s) (free_block_count s)
    (free_inode_count s) (free_frag_count s) st (fs_magic s).

(** ** The host environment: clock, allocator and undo file outcomes *)
Record env := Env {
  ev_time : nat -> Z;                  (* time(NULL) *)
  ev_malloc : nat -> bool;             (* does this allocation succeed? *)
  ev_tmpfile : nat -> option errno;    (* why tmpfile() fails *)
  ev_log : nat -> option Z;            (* short count of an fwrite to the undo file *)
  ev_tell : nat -> bool;               (* does ftello of the undo file work? *)
  ev_fetch : nat -> bool;              (* do fseeko and fread of the undo file work? *)
  ev_tick : nat;
}.
Definition tick (e : env) : env :=
  Env (ev_time e) (ev_malloc e) (ev_tmpfile e) (ev_log e) (ev_tell e) (ev_fetch e)
    (S (ev_tick e)).

(** [struct nextufs_transaction]: the temporary file, its position and [end]. *)
Record txn := Txn { tx_log : buf; tx_pos : Z; tx_end : Z }.

Record world (C : Type) := World {
  w_ctx : C;
  w_tx : option txn;
  w_env : env;
}.
Arguments World {C} _ _ _.
Arguments w_ctx {C} _.
Arguments w_tx {C} _.
Arguments w_env {C} _.

Section image.
Context {C : Type} `{!Backend C}.
Local Abbreviation M := (M (world C)).

Definition lift {A} (m : Prelude.M C A) : M A := fun w =>
  let (r, c) := m (w_ctx w) in (r, World c (w_tx w) (w_env w)).
Definition get_tx : M (option txn) := fun w => (Ok (w_tx w), w).
Definition put_tx (t : option txn) : M unit := fun w =>
  (Ok tt, World (w_ctx w) t (w_env w)).
Definition ask {A} (f : env -> nat -> A) : M A := fun w =>
  (Ok (f (w_env w) (ev_tick (w_env w))), World (w_ctx w) (w_tx w) (tick (w_env w))).

(** A request above PTRDIFF_MAX never succeeds. *)
Definition malloc (size : Z) : M unit :=
  let! ok := ask ev_malloc in
  fail_if (negb ok || (2 ^ 63 - 1 <? w64 size)) ENOMEM.
Definition time_now : M Z := let! t := ask ev_time in ret (w32 t).

(** ** nextufs__read_exact *)
Definition read_exact (img : image) (size offset : Z) : M buf :=
  let size := w64 size in
  if negb (backend_open img) then fail EINVAL
  else if (offset <? 0) || (image_size img <? offset) ||
          (image_size img - offset <? size) then fail EINVAL
  else lift (bk_read size offset).

(** ** Undo log *)
Definition transaction_begin : M unit :=
  malloc 16 ;;;
  let! why := ask ev_tmpfile in
  match why with
  | Some e => fail e
  | None => put_tx (Some (Txn zeros 0 0))
  end.

(** [fwrite(src, 1, n, tx->log) == n]; a short write advances the position. *)
Definition log_append (src : buf) (n : Z) : M bool :=
  let! out := ask ev_log in
  let! t := get_tx in
  match t with
  | None => ret true
  | Some t =>
      let k := match out with None => n | Some k => Z.min (n - 1) (Z.max 0 k) end in
      put_tx (Some (Txn (blit (tx_log t) (tx_pos t) (to_bytes src) k)
                        (tx_pos t + k) (tx_end t))) ;;;
      ret (match out with None => true | Some _ => false end)
  end.

(** [struct undo_record] as it lies in memory *)
Definition undo_record (offset size : Z) : buf :=
  write_le64 (write_le64 zeros 0 (w64 offset)) 8 size.

Definition transaction_record (img : image) (size offset : Z) : M unit :=
  let! t := get_tx in
  match t with
  | None => ret tt
  | Some _ =>
      if size =? 0 then ret tt
      else
        malloc size ;;;
        let! b := read_exact img size offset in
        let! ok := log_append b size in
        fail_if (negb ok) EIO ;;;
        let! ok := log_append (undo_record offset size) 16 in
        fail_if (negb ok) EIO ;;;
        let! told := ask ev_tell in
        let! t := get_tx in
        match told, t with
        | true, Some t => put_tx (Some (Txn (tx_log t) (tx_pos t) (tx_pos t)))
        | _, _ => fail EIO
        end
  end.

(** ** nextufs__write_exact, nextufs__image_fsync *)
Definition write_exact (img : image) (b : buf) (size offset : Z) : M unit :=
  let size := w64 size in
  if negb (backend_open img) then fail EINVAL
  else if negb (writable img) then fail EROFS
  else if (offset <? 0) || (image_size img <? offset) ||
          (image_size img - offset <? size) then fail EINVAL
  else
    transaction_record img size offset ;;;
    lift (bk_write b size offset).

Definition image_fsync (img : image) : M unit :=
  if negb (backend_open img) then fail EINVAL
  else if negb (writable img) then ret tt
  else lift bk_fsync.

Definition image_pread (img : image) (size offset : Z) : M buf :=
  if (offset <? 0) || (slice_size img <? offset) ||
     (slice_size img - offset <? w64 size) then fail EINVAL
  else read_exact img size (slice_base img + offset).

Definition image_pwrite (img : image) (b : buf) (size offset : Z) : M unit :=
  if (offset <? 0) || (slice_size img <? offset) ||
     (slice_size img - offset <? w64 size) then fail EINVAL
  else write_exact img b size (slice_base img + offset).

(** One record of the undo log, newest first.  [Ok true]: restored;
    [Ok false]: the restoration failed. *)
Definition undo_one (t : txn) : M (bool * Z) :=
  let! fetched := ask ev_fetch in
  if (tx_end t - 16 <? 0) || negb fetched then ret (false, tx_end t)
  else
    let offset := s64 (read_le64 (tx_log t) (tx_end t - 16)) in
    let size := read_le64 (tx_log t) (tx_end t - 16 + 8) in
    let end' := tx_end t - s64 (w64 (16 + size)) in
    let! r := attempt (malloc size) in
    match r with
    | Err _ => ret (false, end')
    | Ok _ =>
        let! fetched := ask ev_fetch in
        if (end' <? 0) || (tx_pos t <? end' + size) || negb fetched
        then ret (false, end')
        else
          let! r := attempt (lift (bk_write (slice (tx_log t) end') size offset)) in
          ret (is_ok r, end')
    end.

Fixpoint undo_loop (fuel : nat) (t : txn) : M bool :=
  if 0 <? tx_end t then
    match fuel with
    | O => ret false
    | S fuel =>
        let! '(ok, end') := undo_one t in
        if (ok : bool) then undo_loop fuel (Txn (tx_log t) (tx_pos t) end') else ret false
    end
  else ret true.

(** Each restored record is at least 16 bytes of log. *)
Definition undo_fuel (t : txn) : nat := S (Z.to_nat (tx_end t / 16)).

(** nextufs__transaction_end: the operation's status in, the final one out. *)
Definition transaction_end (status : result unit) : M unit :=
  let! t := get_tx in
  match t with
  | None => of_result status
  | Some t =>
      put_tx None ;;;
      match status with
      | Ok _ => ret tt
      | Err e =>
          let! restored := undo_loop (undo_fuel t) t in
          let! synced := attempt (lift bk_fsync) in
          if restored && is_ok synced then fail e else fail EUCLEAN
      end
  end.

(** ** nextufs__image_refresh, nextufs__write_begin, nextufs__write_finish *)
Definition image_refresh (img : image) : M image :=
  let! b := read_exact img 2048 (slice_base img + UFS_SBLOCK_OFFSET) in
  let s := decode_superblock b in
  of_result (image_validate s (slice_base img) (slice_size img)) ;;;
  ret (with_sb img s).

Definition state_off (img : image) : Z := slice_base img + UFS_SBLOCK_OFFSET + 0xd1.
Definition write_state (img : image) (st : Z) : M unit :=
  write_exact img (fun _ => st) 1 (state_off img).

Definition write_begin (img : image) : M image :=
  let original := sb_state (sb img) in
  let state := if original =? 1 then 2 else 3 in
  let! rc := attempt (write_state img state ;;; image_fsync img) in
  match rc with
  | Ok _ =>
      ret (with_sb (with_flags img (unprivileged img) (original =? 1) true)
                   (with_state (sb img) state))
  | Err e =>
      attempt (write_state img original) ;;;
      attempt (image_fsync img) ;;;
      fail e
  end.

(** The superblock state and [restore_clean] of the caller's image change only
    on success; the returned image is the caller's. *)
Definition write_finish (img : image) (safe : bool) : M image :=
  if negb safe || negb (restore_clean img) then ret img
  else
    image_fsync img ;;;
    let! rc := attempt (write_state img 1 ;;; image_fsync img) in
    match rc with
    | Ok _ => ret (with_sb (with_flags img (unprivileged img) false (fs_write_active img))
                           (with_state (sb img) 1))
    | Err e =>
        attempt (write_state img 2) ;;;
        attempt (image_fsync img) ;;;
        fail e
    end.
End image.

(** A saved range and its record fit in one [off_t]. *)
Definition image_ok (img : image) : Prop := 0 <= image_size img < 2 ^ 63 - 16.

(** The host's answers are fixed functions of the number of questions asked. *)
Definition env_same (e e' : env) : Prop :=
  ev_time e' = ev_time e /\ ev_malloc e' = ev_malloc e /\
  ev_tmpfile e' = ev_tmpfile e /\ ev_log e' = ev_log e /\
  ev_tell e' = ev_tell e /\ ev_fetch e' = ev_fetch e /\ (ev_tick e <= ev_tick e')%nat.
#[export] Instance env_same_preorder : PreOrder env_same.
Proof.
  split; [by intros e; unfold env_same; split_and!|]. unfold env_same.
  intros ??? (?&?&?&?&?&?&?) (?&?&?&?&?&?&?). split_and!; try congruence. lia.
Qed.
#[export] Hint Resolve Nat.le_succ_diag_r : core.

(** The undo file stays full: once an fwrite to it has come up short, every later
    one does too.  Its first failure may come at any time and take any number of
    bytes; ftello, fseeko and fread may fail or not at each call. *)
Definition log_sticky (e : env) : Prop :=
  forall n m, (n <= m)%nat -> ev_log e n <> None -> ev_log e m <> None.
(** It is full from now on. *)
Definition log_dead (e : env) : Prop :=
  forall m, (ev_tick e <= m)%nat -> ev_log e m <> None.

Lemma log_sticky_same e e' : env_same e e' -> log_sticky e -> log_sticky e'.
Proof. intros (_ & _ & _ & H & _) ? n m. rewrite H. eauto. Qed.
Lemma log_dead_same e e' : env_same e e' -> log_dead e -> log_dead e'.
Proof. intros (_ & _ & _ & H & _ & _ & Ht) Hd m ?. rewrite H. apply Hd. lia. Qed.
Lemma log_reliable_sticky e : (forall n, ev_log e n = None) -> log_sticky e.
Proof. intros H n m _ Hn. by rewrite H in Hn. Qed.

Section image_facts.
Context {C : Type} `{HB : Backend C, HS : !BackendSpec C}.
Implicit Types (w : world C).

Definition view w : buf := bk_view (w_ctx w).

(** Reads and environment questions: nothing but the clock moves. *)
Record quiet w w' : Prop := Quiet {
  quiet_inv : bk_inv (w_ctx w) -> bk_inv (w_ctx w');
  quiet_view : bk_inv (w_ctx w) -> view w' ≡ view w;
  quiet_tx : w_tx w' = w_tx w;
  quiet_env : env_same (w_env w) (w_env w');
}.
#[export] Instance quiet_preorder : PreOrder quiet.
Proof.
  split; [by constructor|]. intros w1 w2 w3 [I1 V1 T1 E1] [I2 V2 T2 E2].
  constructor; [by auto| |congruence|by etrans].
  intros Hi. etrans; [apply V2; auto|]. by apply V1.
Qed.

Lemma ask_quiet {A} (f : env -> nat -> A) : Stable quiet (ask f).
Proof. intros w r w' [= <- <-]. by constructor. Qed.
Lemma get_tx_quiet : Stable quiet (get_tx (C:=C)).
Proof. intros w r w' [= <- <-]. by constructor. Qed.
Local Hint Resolve ask_quiet get_tx_quiet : stable.
Lemma malloc_quiet n : Stable quiet (malloc n).
Proof. unfold malloc. solve_stable. Qed.
Lemma time_now_quiet : Stable quiet time_now.
Proof. unfold time_now. solve_stable. Qed.

Lemma read_exact_quiet img n off : Stable quiet (read_exact img n off).
Proof.
  unfold read_exact. solve_stable. intros w r w' Hr.
  unfold lift in Hr. destruct (bk_read _ _ _) as [r1 c1] eqn:E. simplify_eq.
  constructor; cbn; [| |done|done]; intros Hinv;
    (apply bk_read_spec in E; [|done|lia]); apply E.
Qed.

Lemma fsync_quiet : Stable quiet (lift bk_fsync).
Proof.
  intros w r w' Hr. unfold lift in Hr. destruct (bk_fsync _) as [r1 c1] eqn:E. simplify_eq.
  constructor; cbn; [| |done|done]; intros Hinv; by eapply bk_fsync_spec.
Qed.
Local Hint Resolve fsync_quiet : stable.
Lemma image_fsync_quiet img : Stable quiet (image_fsync img).
Proof. unfold image_fsync. solve_stable. Qed.

Lemma read_exact_ok img n off w b w' :
  read_exact img n off w = (Ok b, w') -> bk_inv (w_ctx w) ->
  0 <= off /\ off + w64 n <= image_size img /\ eq_on 0 (w64 n) b (slice (view w) off).
Proof.
  unfold read_exact. intros Hr Hinv.
  destruct (negb (backend_open img)); [by inv_step Hr|].
  destruct (_ || _) eqn:E; [by inv_step Hr|]. bool_to_prop.
  unfold lift in Hr. destruct (bk_read _ _ _) as [r1 c1] eqn:Ebk. simplify_eq.
  apply bk_read_spec in Ebk as (_ & _ & Hok); [|done|lia].
  split_and!; [lia|lia|]. by apply Hok.
Qed.

Lemma read_exact_wf img n off w b w' :
  read_exact img n off w = (Ok b, w') -> bk_inv (w_ctx w) -> wf_buf b.
Proof.
  unfold read_exact. intros Hr Hinv.
  destruct (negb (backend_open img)); [by inv_step Hr|].
  destruct (_ || _) eqn:E; [by inv_step Hr|].
  unfold lift in Hr. destruct (bk_read _ _ _) as [r1 c1] eqn:Ebk. simplify_eq.
  by eapply bk_read_wf.
Qed.

(** A checked read inside the image fails only when the device does. *)
Lemma read_exact_device img n off w e w' :
  read_exact img n off w = (Err e, w') -> backend_open img = true ->
  0 <= n < 2 ^ 64 -> 0 <= off -> off + n <= image_size img ->
  fst (bk_read n off (w_ctx w)) = Err e.
Proof.
  unfold read_exact. intros Hr Hop Hn Ho Hs. rewrite Hop, w64_small in Hr by done.
  cbn [negb] in Hr.
  destruct (Z.ltb_spec off 0); [lia|]. destruct (Z.ltb_spec (image_size img) off); [lia|].
  destruct (Z.ltb_spec (image_size img - off) n); [lia|]. cbn [orb] in Hr.
  unfold lift in Hr. destruct (bk_read n off (w_ctx w)) as [x c]. by injection Hr as -> _.
Qed.

(** ** Writes outside a transaction *)
Lemma lift_write_spec b n off w r w' :
  lift (bk_write b n off) w = (r, w') -> bk_inv (w_ctx w) -> 0 <= off ->
  bk_inv (w_ctx w') /\ w_tx w' = w_tx w /\ w_env w' = w_env w /\
  (forall i, ~ (off <= i < off + n) -> view w' i = view w i) /\
  (r = Ok tt -> view w' ≡ blit (view w) off (to_bytes b) n).
Proof.
  unfold lift. intros Hr Hinv Ho. destruct (bk_write _ _ _ _) as [r1 c1] eqn:E.
  simplify_eq. by apply bk_write_spec in E as (? & ? & ?).
Qed.

(** ** The undo log as a list of saved ranges, newest first *)
Record saved := Saved { sv_off : Z; sv_size : Z; sv_data : buf }.

Fixpoint undo (rs : list saved) (v : buf) : buf :=
  match rs with
  | [] => v
  | r :: rs => undo rs (blit v (sv_off r) (sv_data r) (sv_size r))
  end.

Fixpoint log_holds (log : buf) (endp : Z) (rs : list saved) : Prop :=
  match rs with
  | [] => endp = 0
  | Saved off n d :: rs =>
      let start := endp - 16 - n in
      0 <= off < 2 ^ 63 /\ 0 <= n < 2 ^ 63 - 16 /\ 0 <= start /\
      wf_buf d /\ eq_on 0 n (slice log start) d /\
      read_le64 log (start + n) = off /\ read_le64 log (start + n + 8) = n /\
      log_holds log start rs
  end.

(** The log restores what [P] asks of the saved ranges, read backwards from
    [end].  Between two records the position may lie beyond [end]: by a whole record
    whose ftello failed, or by what the undo file took before it was full for good. *)
Definition restorable (P : list saved -> Prop) w : Prop :=
  bk_inv (w_ctx w) /\ log_sticky (w_env w) /\
  exists t, w_tx w = Some t /\ wf_buf (tx_log t) /\ tx_end t <= tx_pos t /\
    (exists rs, log_holds (tx_log t) (tx_end t) rs /\ P rs) /\
    (log_dead (w_env w) \/ exists rs, log_holds (tx_log t) (tx_pos t) rs /\ P rs).

(** The transaction's log undoes the view back to [d0]. *)
Definition undoable (d0 : buf) w : Prop :=
  restorable (fun rs => undo rs (view w) ≡ d0) w.

Lemma restorable_step (P Q : list saved -> Prop) w w' :
  restorable P w -> (forall rs, P rs -> Q rs) -> (bk_inv (w_ctx w) -> bk_inv (w_ctx w')) ->
  w_tx w' = w_tx w -> env_same (w_env w) (w_env w') -> restorable Q w'.
Proof.
  intros (Hi & Hl & t & Ht & Hwf & Hp & (rs & Hr & HP) & Hd) HPQ Hi' Ht' He.
  split; [auto|]. split; [by eapply log_sticky_same|]. exists t. rewrite Ht'.
  split_and!; [done..|eauto|]. destruct Hd as [Hd|(rs' & ? & ?)]; [left|right; eauto].
  by eapply log_dead_same.
Qed.

#[export] Instance undo_proper rs : Proper ((≡) ==> (≡)) (undo rs).
Proof.
  induction rs as [|r rs IH]; intros v v' Hv; cbn; [done|]. apply IH. by rewrite Hv.
Qed.

Lemma log_holds_nonneg log rs : forall endp, log_holds log endp rs -> 0 <= endp.
Proof. destruct rs as [|[o n d] rs]; cbn; intros endp; lia. Qed.

Lemma log_holds_ext log log' rs : forall endp,
  (forall i, 0 <= i < endp -> log' i = log i) ->
  log_holds log endp rs -> log_holds log' endp rs.
Proof.
  induction rs as [|[o n d] rs IH]; intros endp Heq; cbn; [done|].
  intros (? & ? & ? & ? & Hd & Ho & Hn & Hrs).
  assert (forall k, 0 <= k -> k + 8 <= endp -> read_le64 log' k = read_le64 log k) as Hle.
  { intros k ??. apply read_le64_eq_on. intros i ?. apply Heq. lia. }
  rewrite !Hle by lia. split_and!; try lia; try done.
  - intros i Hi. unfold slice. rewrite Heq by lia. by apply Hd.
  - apply IH; [intros i ?; apply Heq; lia|done].
Qed.

(** Preservation of the rollback point across every kind of step. *)
Definition carries w w' : Prop := forall d0, undoable d0 w -> undoable d0 w'.
#[export] Instance carries_preorder : PreOrder carries.
Proof. split; [by intros ??|]. intros ??? H1 H2 d0 ?. by apply H2, H1. Qed.

Lemma quiet_undoable d0 w w' : quiet w w' -> undoable d0 w -> undoable d0 w'.
Proof.
  intros [Hi Hv Ht He] Hu. eapply restorable_step; [exact Hu| |done..].
  intros rs Hrs. rewrite <- Hrs. f_equiv. apply Hv, Hu.
Qed.
Lemma quiet_carries {A} (m : M (world C) A) : Stable quiet m -> Stable carries m.
Proof. intros Hq w r w' Hm d0. eapply quiet_undoable, Hq, Hm. Qed.

(** After the record, the range may change arbitrarily and still be undone. *)
Definition shielded off n (d0 : buf) w : Prop :=
  restorable (fun rs => forall v', (forall i, ~ (off <= i < off + n) -> v' i = view w i) ->
    undo rs v' ≡ d0) w.

Lemma shielded_undoable off n d0 w : shielded off n d0 w -> undoable d0 w.
Proof. intros Hs. eapply restorable_step; [exact Hs| |done..]. intros rs HP. by apply HP. Qed.

(** An fwrite to the undo file puts all or some of the bytes at the position;
    falling short, it does so for good. *)
Lemma log_append_run src n w t :
  log_sticky (w_env w) -> w_tx w = Some t -> 0 < n ->
  exists b k w', log_append src n w = (Ok b, w') /\ w_ctx w' = w_ctx w /\
    env_same (w_env w) (w_env w') /\ 0 <= k /\
    w_tx w' = Some (Txn (blit (tx_log t) (tx_pos t) (to_bytes src) k)
                        (tx_pos t + k) (tx_end t)) /\
    (if b then k = n /\ ~ log_dead (w_env w) else log_dead (w_env w')).
Proof.
  intros Hst Ht Hn. unfold log_append, bind, ask, get_tx, put_tx, ret.
  cbn. rewrite Ht. cbn. destruct (ev_log (w_env w) (ev_tick (w_env w))) as [k|] eqn:E.
  - exists false, (Z.min (n - 1) (Z.max 0 k)). eexists. split; [done|].
    split_and!; [done..|lia|done|]. intros m Hm. cbn in *. apply (Hst (ev_tick (w_env w))); [lia|congruence].
  - exists true, n. eexists. split; [done|]. split_and!; [done..|lia|done|done|].
    intros Hd. by apply (Hd _ (le_n _)) in E.
Qed.

Lemma undo_record_fields offset size :
  0 <= offset < 2 ^ 63 -> 0 <= size < 2 ^ 63 ->
  read_le64 (undo_record offset size) 0 = offset /\
  read_le64 (undo_record offset size) 8 = size /\
  (forall i, to_bytes (undo_record offset size) i = undo_record offset size i).
Proof.
  intros. unfold undo_record. rewrite w64_small by lia. split_and!.
  - rewrite (read_le64_eq_on _ (write_le64 zeros 0 offset)).
    + apply read_write_le64. lia.
    + intros i ?. apply write_le64_out. lia.
  - apply read_write_le64. lia.
  - intros i. apply to_bytes_id. unfold write_le64, write_le32.
    repeat apply wf_upd. apply wf_zeros.
Qed.

(** Appending one saved range and its record to the log. *)
Lemma log_holds_append log p b rs off n :
  0 <= off < 2 ^ 63 -> 0 <= n < 2 ^ 63 - 16 ->
  log_holds log p rs ->
  log_holds (blit (blit log p (to_bytes b) n) (p + n) (to_bytes (undo_record off n)) 16)
    (p + n + 16) (Saved off n (to_bytes b) :: rs).
Proof.
  intros Hoff Hn Hlog. pose proof (log_holds_nonneg _ _ _ Hlog).
  destruct (undo_record_fields off n) as (Ho & Hs & Hid); [lia..|].
  cbn. replace (p + n + 16 - 16 - n) with p by lia.
  set (log' := blit _ _ _ _).
  assert (Hrec : forall k, 0 <= k <= 8 ->
    read_le64 log' (p + n + k) = read_le64 (undo_record off n) k).
  { intros k ?. unfold read_le64, read_le32, log'.
    rewrite !blit_in by lia. rewrite !Hid. repeat f_equal; lia. }
  split_and!; try lia; try apply wf_to_bytes.
  - intros i ?. unfold slice, log'. rewrite blit_out, blit_in by lia. f_equal. lia.
  - rewrite <- (Z.add_0_r (p + n)). by rewrite Hrec by lia.
  - by rewrite Hrec by lia.
  - eapply log_holds_ext; [|done]. intros i ?. unfold log'. by rewrite !blit_out by lia.
Qed.

(** Bytes beyond a restoring log leave it restoring. *)
Lemma log_holds_beyond log p k (src : buf) e rs :
  e <= p -> log_holds log e rs -> log_holds (blit log p src k) e rs.
Proof. intros ?. apply log_holds_ext. intros i ?. by rewrite blit_out by lia. Qed.

(** The saved range goes to the log, then its record: either both do, before [k]
    goes on, or the log is dead, and restores from [end] as before. *)
Lemma record_logged (P : list saved -> Prop) (k : M (world C) unit) b n off w w' r :
  restorable P w -> 0 <= off < 2 ^ 63 -> 0 < n < 2 ^ 63 - 16 ->
  (let! ok := log_append b n in
   fail_if (negb ok) EIO ;;;
   let! ok := log_append (undo_record off n) 16 in
   fail_if (negb ok) EIO ;;; k) w = (r, w') ->
  (restorable P w' /\ w_ctx w' = w_ctx w /\ r <> Ok tt) \/
  (exists w1 t rs, k w1 = (r, w') /\ w_ctx w1 = w_ctx w /\ env_same (w_env w) (w_env w1) /\
     w_tx w1 = Some t /\ wf_buf (tx_log t) /\ tx_end t <= tx_pos t /\
     (exists rs0, log_holds (tx_log t) (tx_end t) rs0 /\ P rs0) /\
     log_holds (tx_log t) (tx_pos t) (Saved off n (to_bytes b) :: rs) /\ P rs).
Proof.
  intros (Hinv & Hst & t & Ht & Hwf & Hp & (rs & Hl & HP) & Hd) Ho Hn Hr.
  destruct (log_append_run b n w t Hst Ht) as (ok1 & k1 & w2 & E1 & Ec1 & Ee1 & Hk1 & Et1 & Hok1);
    [lia|].
  rewrite (bind_run _ _ _ _ _ E1) in Hr. destruct ok1; cbn [negb] in Hr.
  2: { rewrite (bind_err _ _ _ EIO w2) in Hr by done. injection Hr as <- <-.
    left. split; [|done]. split_and!; [by rewrite Ec1|by eapply log_sticky_same|].
    eexists. split; [exact Et1|]. cbn. split_and!; [by auto with bytes|lia| |by left].
    exists rs. split; [|done]. apply log_holds_beyond; [lia|done]. }
  rewrite (bind_run (fail_if false EIO) _ w2 tt w2) in Hr by done.
  destruct Hok1 as [-> Hlive]. destruct Hd as [Hd|(rs' & Hl' & HP')]; [done|].
  assert (Hst2 : log_sticky (w_env w2)) by by eapply log_sticky_same.
  destruct (log_append_run (undo_record off n) 16 w2 _ Hst2 Et1)
    as (ok2 & k2 & w3 & E2 & Ec2 & Ee2 & Hk2 & Et2 & Hok2); [lia|]. cbn in Et2.
  rewrite (bind_run _ _ _ _ _ E2) in Hr.
  assert (Hctx : w_ctx w3 = w_ctx w) by congruence.
  assert (Henv : env_same (w_env w) (w_env w3)) by by etrans.
  destruct ok2; cbn [negb] in Hr.
  - right. rewrite (bind_run (fail_if false EIO) _ w3 tt w3) in Hr by done.
    destruct Hok2 as [-> _]. eexists w3, _, rs'. split; [exact Hr|].
    split; [done|]. split; [done|]. split; [exact Et2|]. cbn [tx_log tx_pos tx_end].
    split_and!; [by auto 6 with bytes|lia| | |done].
    + exists rs. split; [|done]. do 2 (apply log_holds_beyond; [lia|]). done.
    + apply log_holds_append; [lia|lia|done].
  - left. rewrite (bind_err _ _ _ EIO w3) in Hr by done. injection Hr as <- <-. split; [|done].
    split_and!; [by rewrite Hctx|by eapply log_sticky_same|].
    eexists. split; [exact Et2|]. cbn. split_and!; [by auto 6 with bytes|lia| |by left].
    exists rs. split; [|done]. do 2 (apply log_holds_beyond; [lia|]). done.
Qed.

Lemma transaction_record_spec img n off w r w' d0 :
  image_ok img -> 0 <= off -> 0 <= n -> off + n <= image_size img ->
  undoable d0 w -> transaction_record img n off w = (r, w') ->
  undoable d0 w' /\ (r = Ok tt -> shielded off n d0 w').
Proof.
  intros Himg Ho Hn Hsz Hw Hr. pose proof Hw as (Hinv & Hst & t & Ht & _).
  unfold transaction_record in Hr. unfold bind at 1, get_tx in Hr. rewrite Ht in Hr.
  destruct (Z.eqb_spec n 0) as [->|Hn0].
  { inv_step Hr. split; [done|]. intros _. eapply restorable_step; [exact Hw| |done..].
    intros rs Hrs v' Hv'. rewrite <- Hrs. f_equiv. intros i. apply Hv'. lia. }
  apply bind_inv in Hr as [(u & w1 & Hm & Hr)|(e & Hm & ->)];
    apply malloc_quiet in Hm as Hq1; [|split; [by eapply quiet_undoable|done]].
  apply bind_inv in Hr as [(b & w2 & Hrd & Hr)|(e & Hrd & ->)];
    apply read_exact_quiet in Hrd as Hq2;
    [|split; [apply (quiet_undoable d0 w); [by etrans|done]|done]].
  apply read_exact_ok in Hrd as (_ & _ & Hb); [|by apply Hq1].
  assert (Hq : quiet w w2) by by etrans. unfold image_ok in Himg. rewrite w64_small in Hb by lia.
  pose proof (quiet_undoable _ _ _ Hq Hw) as Hu2.
  assert (Hput : forall rs v', undo rs (view w2) ≡ d0 ->
    (forall i, ~ (off <= i < off + n) -> v' i = view w2 i) ->
    undo (Saved off n (to_bytes b) :: rs) v' ≡ d0).
  { intros rs v' Hrs Hv'. cbn. rewrite <- Hrs. f_equiv. intros i.
    unfold blit. case_match eqn:E; cbn [sv_off sv_size sv_data] in *; [|apply Hv'; lia].
    unfold to_bytes. rewrite Hb by lia. unfold slice. replace (off + (i - off)) with i by lia.
    destruct Hq1 as [Q1i Q1v _ _]. destruct Hq as [_ Qv _ _].
    rewrite (Q1v Hinv i), (Qv Hinv i). apply wrap_small. by apply bk_view_wf. }
  apply (record_logged _ _ _ _ _ _ _ _ Hu2) in Hr
    as [(Hr & Hc & Hne)|(w3 & t3 & rs & Hr & Hc & He & Ht3 & Hwf & Hp & (rs0 & Hl0 & HP0) & Hl & HP)];
    [| |lia|lia].
  { split; [|done]. unfold undoable, view in *. by rewrite Hc. }
  assert (Hv3 : view w3 = view w2) by (unfold view; by rewrite Hc).
  assert (Hi3 : bk_inv (w_ctx w3)) by (rewrite Hc; apply Hq, Hinv).
  assert (Hst3 : log_sticky (w_env w3))
    by (eapply log_sticky_same; [exact He|]; eapply log_sticky_same; [apply Hq|done]).
  unfold bind, ask, get_tx, put_tx in Hr. cbn in Hr. rewrite Ht3 in Hr.
  destruct (ev_tell _ _); unfold fail in Hr; cbn in Hr; injection Hr as <- <-.
  2: { split; [|done]. split_and!; [done|done|]. eexists. split; [reflexivity|].
    unfold view. cbn. rewrite Hc. split_and!; [done..|by exists rs0|right].
    exists (Saved off n (to_bytes b) :: rs). split; [done|by apply Hput]. }
  match goal with |- undoable d0 ?w' /\ _ => enough (shielded off n d0 w') as Hsh
    by (split; [by eapply shielded_undoable|done]) end.
  split_and!; [done|done|]. eexists. split; [reflexivity|]. cbn [tx_log tx_pos tx_end].
  split_and!; [done|lia| |right]; exists (Saved off n (to_bytes b) :: rs);
    (split; [done|]); intros v' Hv'; apply Hput; try done; intros i Hi;
    rewrite <- Hv3; by apply Hv'.
Qed.

Lemma write_exact_carries img b n off :
  image_ok img -> Stable carries (write_exact img b n off).
Proof.
  intros Himg w r w' Hr d0 Hw. unfold write_exact in Hr.
  destruct (negb (backend_open img)); [by inv_step Hr|].
  destruct (negb (writable img)); [by inv_step Hr|].
  destruct (_ || _) eqn:E; [by inv_step Hr|]. bool_to_prop.
  pose proof (Z.mod_pos_bound n (2 ^ 64) ltac:(lia)). fold (w64 n) in *.
  apply bind_inv in Hr as [(u & w1 & Hrec & Hr)|(e & Hrec & ->)];
    (edestruct (transaction_record_spec img (w64 n) off w) as [Hu Hs];
     [exact Himg|lia|lia|lia|exact Hw|exact Hrec|]); [|done].
  destruct u. specialize (Hs eq_refl).
  apply lift_write_spec in Hr as (Hinv' & Ht' & He' & Hfr & _); [|apply Hs|lia].
  eapply restorable_step; [exact Hs| |done|done|by rewrite He'].
  intros rs HP. by apply HP.
Qed.

(** ** Rolling back *)

(** The transaction object is in the caller's hands; the rest of the world
    keeps its invariant. *)
Definition settled w w' : Prop :=
  (bk_inv (w_ctx w) -> bk_inv (w_ctx w')) /\ w_tx w' = w_tx w /\
  env_same (w_env w) (w_env w').
#[export] Instance settled_preorder : PreOrder settled.
Proof.
  split; [by intros w; split_and!|]. intros ??? (? & ? & ?) (? & ? & ?).
  split_and!; [auto|congruence|by etrans].
Qed.

Lemma malloc_run n w : exists r w', malloc n w = (r, w') /\ quiet w w' /\
  (r = Ok tt -> w64 n <= 2 ^ 63 - 1) /\
  (ev_malloc (w_env w) (ev_tick (w_env w)) = true -> 0 <= n <= 2 ^ 63 - 1 -> r = Ok tt).
Proof.
  destruct (malloc n w) as [r w'] eqn:E. exists r, w'. split; [done|].
  split; [by apply malloc_quiet in E|].
  unfold malloc, bind, ask, fail_if, fail, ret in E. destruct (ev_malloc _ _); cbn in E.
  - destruct (Z.ltb_spec (2 ^ 63 - 1) (w64 n)) as [Hlt|Hge]; simplify_eq.
    + split; [done|]. intros _ ?. rewrite w64_small in Hlt; lia.
    + by split; [|].
  - by simplify_eq.
Qed.

Lemma undo_one_spec t off n d rs w r w' :
  bk_inv (w_ctx w) -> tx_end t <= tx_pos t ->
  wf_buf (tx_log t) -> log_holds (tx_log t) (tx_end t) (Saved off n d :: rs) ->
  undo_one t w = (r, w') ->
  settled w w' /\
  exists ok end', r = Ok (ok, end') /\
    (ok = true -> end' = tx_end t - 16 - n /\ view w' ≡ blit (view w) off d n).
Proof.
  intros Hinv Hpos Hlw (Hoff & Hn & Hst & Hwf & Hd & Ho & Hsz & Hlog) Hr.
  unfold undo_one in Hr.
  set (w1 := World (w_ctx w) (w_tx w) (tick (w_env w))) in Hr.
  rewrite (bind_run (ask ev_fetch) _ w _ w1) in Hr by done.
  assert (Hq1 : quiet w w1) by by constructor.
  destruct (_ || _); [unfold ret in Hr; simplify_eq; split; [by split_and!|by do 2 eexists]|].
  set (start := tx_end t - 16 - n) in *.
  replace (tx_end t - 16) with (start + n) in Hr by lia. rewrite Ho, Hsz in Hr.
  rewrite (s64_small off), (w64_small (16 + n)), (s64_small (16 + n)) in Hr by lia.
  replace (tx_end t - (16 + n)) with start in Hr by lia.
  destruct (malloc_run n w1) as (rm & w2 & Em & Hq2 & _ & _).
  rewrite (bind_run (attempt (malloc n)) _ w1 rm w2) in Hr
    by (unfold attempt; by rewrite Em).
  assert (Hq : quiet w w2) by by etrans. destruct Hq as [Qi Qv Qt Qe].
  destruct rm as [[]|em].
  2: { unfold ret in Hr. simplify_eq. split; [by split_and!|]. by do 2 eexists. }
  set (w3 := World (w_ctx w2) (w_tx w2) (tick (w_env w2))) in Hr.
  rewrite (bind_run (ask ev_fetch) _ w2 _ w3) in Hr by done.
  assert (He3 : env_same (w_env w) (w_env w3)) by (etrans; [exact Qe|done]).
  destruct (_ || _).
  { unfold ret in Hr. simplify_eq. split; [by split_and!|by do 2 eexists]. }
  apply bind_inv in Hr as [(x & w4 & Hwr & Hr)|(e & Hwr & _)];
    apply attempt_inv in Hwr as (y & Hy & Hwr); [|done].
  unfold ret in Hr. simplify_eq.
  apply lift_write_spec in Hwr as (Hi4 & Ht4 & He4 & _ & Hok); [|by apply Qi|lia].
  split; [split_and!; [done|by rewrite Ht4|by rewrite He4]|].
  do 2 eexists. split; [done|]. intros Hy. split; [done|]. destruct y as [[]|]; [|done].
  rewrite Hok by done. intros i. unfold blit. case_match eqn:E.
  - rewrite to_bytes_id by auto with bytes. apply Hd. lia.
  - by apply Qv.
Qed.

Lemma log_holds_length log rs : forall endp,
  log_holds log endp rs -> 16 * Z.of_nat (length rs) <= endp.
Proof.
  induction rs as [|[o n d] rs IH]; intros endp; cbn [log_holds length]; [lia|].
  intros (_ & ? & _ & _ & _ & _ & _ & Hrs). apply IH in Hrs. lia.
Qed.

Lemma undo_loop_spec fuel : forall rs t w r w',
  bk_inv (w_ctx w) -> tx_end t <= tx_pos t ->
  wf_buf (tx_log t) -> log_holds (tx_log t) (tx_end t) rs ->
  (length rs <= fuel)%nat -> undo_loop fuel t w = (r, w') ->
  settled w w' /\ exists ok, r = Ok ok /\ (ok = true -> view w' ≡ undo rs (view w)).
Proof.
  induction fuel as [|fuel IH]; intros rs t w r w' Hinv Hpos Hwf Hlog Hf Hr;
  (destruct rs as [|[off n d] rs]; cbn [length] in Hf; [|try lia]).
  1, 2: cbn in Hlog, Hr; destruct (Z.ltb_spec 0 (tx_end t)); [lia|];
    unfold ret in Hr; simplify_eq; split; [reflexivity|by eexists].
  cbn [undo_loop] in Hr.
  pose proof (log_holds_length _ _ _ Hlog) as Hlen. cbn [length] in Hlen.
  destruct (Z.ltb_spec 0 (tx_end t)); [|lia].
  apply bind_inv in Hr as [(x & w1 & H1 & Hr)|(e & H1 & _)];
  apply (undo_one_spec t off n d rs) in H1 as (Hs & ok & end' & Hok & Hv); try done.
  simplify_eq. destruct ok.
  2: { unfold ret in Hr. simplify_eq. split; [done|by eexists]. }
  destruct (Hv eq_refl) as [-> Hv1]. destruct Hs as (Hi1 & Ht1 & He1).
  destruct Hlog as (? & ? & ? & ? & ? & ? & ? & Hlog).
  apply (IH rs) in Hr as (Hs2 & ok & -> & Hv2); cbn; try done.
  - split; [etrans; [|done]; by split_and!|]. exists ok. split; [done|].
    intros ?. rewrite Hv2 by done. by rewrite Hv1.
  - auto.
  - lia.
  - lia.
Qed.

(** A failing operation ends with the image as one of the logs [P] accepts has it. *)
Lemma transaction_end_restores P e w r w' :
  restorable P w -> transaction_end (Err e) w = (r, w') ->
  bk_inv (w_ctx w') /\ w_tx w' = None /\ env_same (w_env w) (w_env w') /\
  ((r = Err e /\ exists rs, P rs /\ view w' ≡ undo rs (view w)) \/ r = Err EUCLEAN).
Proof.
  intros (Hinv & _ & t & Ht & Hwf & Hpos & (rs & Hlog & HP) & _) Hr.
  unfold transaction_end in Hr. unfold bind at 1, get_tx in Hr. rewrite Ht in Hr.
  set (w0 := World (w_ctx w) None (w_env w)).
  rewrite (bind_run _ _ w tt w0) in Hr by done.
  assert (Hfuel : (length rs <= undo_fuel t)%nat).
  { pose proof (log_holds_length _ _ _ Hlog). unfold undo_fuel.
    assert (Z.of_nat (length rs) <= tx_end t / 16) by (apply Z.div_le_lower_bound; lia).
    lia. }
  destruct (undo_loop (undo_fuel t) t w0) as [r1 w1] eqn:E.
  destruct (undo_loop_spec (undo_fuel t) rs t w0 r1 w1)
    as ((Hi1 & Ht1 & He1) & ok & -> & Hv); try done.
  rewrite (bind_run _ _ _ _ _ E) in Hr.
  destruct (lift bk_fsync w1) as [sy w2] eqn:Es.
  rewrite (bind_run _ _ w1 sy w2) in Hr by (unfold attempt; by rewrite Es).
  apply fsync_quiet in Es as [Qi Qv Qt Qe].
  assert (Hgen : bk_inv (w_ctx w2) /\ w_tx w2 = None /\ env_same (w_env w) (w_env w2)).
  { split_and!; [auto|by rewrite Qt, Ht1|]. etrans; [exact He1|done]. }
  destruct Hgen as (? & ? & ?).
  destruct ok, sy as [[]|]; cbn in Hr; unfold fail in Hr; simplify_eq;
    split_and!; auto. left. split; [done|]. exists rs. split; [done|].
  rewrite Qv by auto. by apply Hv.
Qed.
Lemma transaction_end_err e d0 w r w' :
  undoable d0 w -> transaction_end (Err e) w = (r, w') ->
  bk_inv (w_ctx w') /\ w_tx w' = None /\ env_same (w_env w) (w_env w') /\
  ((r = Err e /\ view w' ≡ d0) \/ r = Err EUCLEAN).
Proof.
  intros Hu Hr. eapply transaction_end_restores in Hr as (? & ? & ? & Hend); [|exact Hu].
  split_and!; [done..|]. destruct Hend as [(-> & rs & HP & Hv)|]; [left|by right].
  split; [done|]. by rewrite Hv.
Qed.

Lemma transaction_end_ok w r w' :
  transaction_end (Ok tt) w = (r, w') ->
  r = Ok tt /\ w_tx w' = None /\ w_ctx w' = w_ctx w /\ w_env w' = w_env w.
Proof.
  unfold transaction_end, bind, get_tx, put_tx, of_result, ret.
  destruct (w_tx w) eqn:E; intros [= <- <-]; auto.
Qed.

Lemma transaction_begin_spec w r w' :
  bk_inv (w_ctx w) -> log_sticky (w_env w) -> transaction_begin w = (r, w') ->
  bk_inv (w_ctx w') /\ view w' ≡ view w /\ env_same (w_env w) (w_env w') /\
  match r with Ok _ => undoable (view w) w' | Err _ => w_tx w' = w_tx w end.
Proof.
  intros Hinv Hrel Hr. unfold transaction_begin in Hr.
  apply bind_inv in Hr as [(u & w1 & Hm & Hr)|(e & Hm & ->)];
    apply malloc_quiet in Hm as [Qi Qv Qt Qe]; [|by split_and!; auto].
  assert (Ht : env_same (w_env w) (tick (w_env w1))) by (etrans; [exact Qe|done]).
  unfold bind, ask, fail, put_tx in Hr. destruct (ev_tmpfile _ _) as [e|].
  { injection Hr as <- <-. split_and!; [by apply Qi|by apply Qv|apply Ht..|done]. }
  injection Hr as <- <-. split_and!; [by apply Qi|by apply Qv|apply Ht..|].
  split_and!; cbn; [by apply Qi|by eapply log_sticky_same|].
  exists (Txn zeros 0 0). split_and!; [done|apply wf_zeros|done| |right];
    (exists []; split; [done|by apply Qv]).
Qed.

(** ** Termination of the rollback, whatever the undo file holds *)
Lemma undo_one_shrinks t w ok end' w' :
  wf_buf (tx_log t) -> tx_pos t < 2 ^ 63 -> 0 <= tx_end t ->
  undo_one t w = (Ok (ok, end'), w') -> ok = true -> 0 <= end' <= tx_end t - 16.
Proof.
  intros Hwf Hpos Hend Hr Hok. unfold undo_one in Hr.
  inv_step Hr. destruct (_ || _) eqn:E1 in Hr; [unfold ret in Hr; by simplify_eq|].
  apply orb_false_iff in E1 as [E1 _]. apply Z.ltb_ge in E1.
  pose proof (read_le64_range _ Hwf (tx_end t - 16 + 8)) as Hn.
  set (n := read_le64 _ _) in *.
  inv_step Hr. inv_step Hrun0. destruct x as [[]|].
  2: { unfold ret in Hr. by simplify_eq. }
  destruct (malloc_run n w0) as (rm & wm & Em & _ & Hle & _).
  rewrite Em in Hrun1. simplify_eq. specialize (Hle eq_refl). rewrite w64_small in Hle by lia.
  inv_step Hr. destruct (_ || _) eqn:E2 in Hr; [unfold ret in Hr; by simplify_eq|].
  apply orb_false_iff in E2 as [E2 _]. apply orb_false_iff in E2 as [E2 E3].
  apply Z.ltb_ge in E2. apply Z.ltb_ge in E3.
  inv_step Hr. unfold ret in Hr. simplify_eq.
  rewrite w64_small in E2, E3 |- * by lia.
  destruct (decide (16 + n < 2 ^ 63)); [rewrite s64_small in * by lia; lia|].
  exfalso. unfold s64 in E3.
  rewrite <- (Z_mod_plus_full _ (-1)), Z.mod_small in E3 by lia. lia.
Qed.

Lemma undo_loop_fuel f1 : forall f2 t w,
  wf_buf (tx_log t) -> tx_pos t < 2 ^ 63 -> 0 <= tx_end t ->
  (undo_fuel t <= f1)%nat -> (undo_fuel t <= f2)%nat ->
  undo_loop f1 t w = undo_loop f2 t w.
Proof.
  induction f1 as [|f1 IH]; intros [|f2] t w Hwf Hpos Hend H1 H2;
    try (unfold undo_fuel in *; lia).
  cbn [undo_loop]. destruct (Z.ltb_spec 0 (tx_end t)); [|done].
  unfold bind. destruct (undo_one t w) as [[[[] end']|e] w1] eqn:E; try done.
  eapply undo_one_shrinks in E; [|done..].
  assert (end' / 16 + 1 <= tx_end t / 16).
  { rewrite <- Z.div_add by lia. apply Z.div_le_mono; lia. }
  pose proof (Z.div_pos end' 16 ltac:(lia) ltac:(lia)).
  apply IH; cbn; try done; [lia|unfold undo_fuel in *; cbn in *; lia..].
Qed.

(** ** What a checked write does to the view, inside a transaction or not *)

(** Everything but the transaction is as under [quiet]. *)
Record viewed w w' : Prop := Viewed {
  viewed_inv : bk_inv (w_ctx w) -> bk_inv (w_ctx w');
  viewed_view : bk_inv (w_ctx w) -> view w' ≡ view w;
  viewed_env : env_same (w_env w) (w_env w');
}.
#[export] Instance viewed_preorder : PreOrder viewed.
Proof.
  split; [by constructor|]. intros w1 w2 w3 [I1 V1 E1] [I2 V2 E2].
  constructor; [by auto| |by etrans].
  intros Hi. etrans; [apply V2; auto|]. by apply V1.
Qed.
Lemma quiet_viewed {A} (m : M (world C) A) : Stable quiet m -> Stable viewed m.
Proof. intros Hq w r w' Hm. by destruct (Hq _ _ _ Hm). Qed.
Lemma put_tx_viewed t : Stable viewed (put_tx t).
Proof. by intros w r w' [= <- <-]. Qed.
Local Hint Resolve put_tx_viewed : stable.
Local Hint Extern 3 (Stable viewed _) => (apply quiet_viewed; solve [auto with stable]) : stable.
Local Hint Resolve malloc_quiet read_exact_quiet : stable.
Lemma log_append_viewed src n : Stable viewed (log_append src n).
Proof. unfold log_append. solve_stable. Qed.
Local Hint Resolve log_append_viewed : stable.
Lemma transaction_record_viewed img n off : Stable viewed (transaction_record img n off).
Proof. unfold transaction_record. solve_stable. Qed.

Lemma write_exact_spec img b n off w r w' :
  write_exact img b n off w = (r, w') -> bk_inv (w_ctx w) ->
  bk_inv (w_ctx w') /\ env_same (w_env w) (w_env w') /\
  (forall i, ~ (off <= i < off + w64 n) -> view w' i = view w i) /\
  (r = Ok tt -> view w' ≡ blit (view w) off (to_bytes b) (w64 n) /\
                0 <= off /\ off + w64 n <= image_size img /\
                writable img = true /\ backend_open img = true).
Proof.
  unfold write_exact. intros Hr Hinv.
  destruct (negb (backend_open img)) eqn:Eb; [by inv_step Hr|].
  destruct (negb (writable img)) eqn:Ew; [by inv_step Hr|].
  destruct (_ || _) eqn:E; [by inv_step Hr|]. bool_to_prop.
  apply bind_inv in Hr as [(u & w1 & Hrec & Hr)|(e & Hrec & ->)];
    apply transaction_record_viewed in Hrec as [Qi Qv Qe].
  2: { split_and!; auto; [|done]. intros i _. by apply Qv. }
  apply lift_write_spec in Hr as (Hi & _ & He & Hfr & Hok); [|auto|lia].
  split_and!; [done|by etrans; [exact Qe|rewrite He]| |].
  { intros i ?. rewrite Hfr by done. by apply Qv. }
  intros Hu. split_and!; [|lia|lia|by destruct (writable img)|by destruct (backend_open img)]. rewrite Hok by done.
  by rewrite (Qv Hinv).
Qed.

Lemma w64_range n : 0 <= w64 n < 2 ^ 64.
Proof. by apply Z.mod_pos_bound. Qed.

(** ** The clean/dirty mark *)
Lemma write_state_spec img st w r w' :
  write_state img st w = (r, w') -> bk_inv (w_ctx w) ->
  bk_inv (w_ctx w') /\ env_same (w_env w) (w_env w') /\
  (forall i, i <> state_off img -> view w' i = view w i) /\
  (r = Ok tt -> view w' (state_off img) = w8 st).
Proof.
  intros Hr Hinv. apply write_exact_spec in Hr as (Hi & He & Hfr & Hok); [|done].
  rewrite (w64_small 1) in * by lia. split_and!; [done|done|intros i ?; apply Hfr; lia|].
  intros (Hv & _)%Hok. rewrite Hv. by rewrite blit_in by lia.
Qed.

(** Writing a state byte and flushing it, however that ends. *)
Lemma write_state_sync img st w r w' :
  (write_state img st ;;; image_fsync img) w = (r, w') -> bk_inv (w_ctx w) ->
  bk_inv (w_ctx w') /\ (forall i, i <> state_off img -> view w' i = view w i) /\
  (r = Ok tt -> view w' (state_off img) = w8 st).
Proof.
  intros Hr Hinv. apply bind_inv in Hr as [(u & w1 & H1 & Hr)|(e & H1 & ->)];
    apply write_state_spec in H1 as (Hi & _ & Hfr & Hok); [|done| |done]; [|by split_and!].
  destruct u. specialize (Hok eq_refl). apply image_fsync_quiet in Hr as [Qi Qv _ _].
  split_and!; [auto| |].
  - intros i ?. rewrite (Qv Hi i). by apply Hfr.
  - intros _. by rewrite (Qv Hi _).
Qed.

(** A client that issues any sequence of checked writes, ignoring failures. *)
Fixpoint issue_writes (img : image) (l : list (buf * Z * Z)) : M (world C) unit :=
  match l with
  | [] => ret tt
  | (b, n, off) :: l => attempt (write_exact img b n off) ;;; issue_writes img l
  end.

Lemma issue_writes_carries img l : image_ok img -> Stable carries (issue_writes img l).
Proof.
  intros Himg. induction l as [|[[b n] off] l IH]; cbn; [solve_stable|].
  apply stable_bind; [apply _| |by intros _].
  apply stable_attempt. by apply write_exact_carries.
Qed.

(** ** Any operation between begin and end that only touches the image through
    checked writes is all or nothing. *)
Lemma transactional_restores {A} (body : M (world C) A) e w r w' :
  Stable carries body -> bk_inv (w_ctx w) -> log_sticky (w_env w) ->
  (transaction_begin ;;; attempt body ;;; transaction_end (Err e)) w = (r, w') ->
  exists e', r = Err e' /\ (e' <> EUCLEAN -> view w' ≡ view w) /\ bk_inv (w_ctx w').
Proof.
  intros Hb Hinv Hrel Hr.
  apply bind_inv in Hr as [(u & w1 & H1 & Hr)|(x & H1 & ->)];
    apply transaction_begin_spec in H1 as (Hi1 & Hv1 & He1 & Hu1); try done; [|by eauto].
  apply bind_inv in Hr as [(v & w2 & H2 & Hr)|(x & H2 & _)];
    apply attempt_inv in H2 as (y & Hy & H2); [|done].
  apply (Hb _ _ _ H2) in Hu1.
  apply (transaction_end_err _ (view w)) in Hr as (Hi & _ & _ & [[-> Hv]| ->]); naive_solver.
Qed.
End image_facts.
#[export] Hint Resolve ask_quiet get_tx_quiet malloc_quiet time_now_quiet
  read_exact_quiet fsync_quiet image_fsync_quiet write_exact_carries : stable.
#[export] Hint Extern 4 (Stable carries _) => (apply quiet_carries; solve [eauto with stable])
  : stable.

(** A failing-free host around a raw image file. *)
Definition calm_env : env :=
  Env (fun _ => 1000) (fun _ => true) (fun _ => None) (fun _ => None)
    (fun _ => true) (fun _ => true) 0.
Lemma calm_env_sticky : log_sticky calm_env.
Proof. by apply log_reliable_sticky. Qed.
Definition raw_world (f : file) : world file := World f None calm_env.
Definition mini_image : image :=
  Image true true false false false false SOURCE_RAW (512 * 1024) 0 (512 * 1024)
    0 0 0 0 [] 0 false mini_sb.
Lemma mini_image_ok : image_ok mini_image.
Proof. unfold image_ok. cbn. lia. Qed.

(** ** Properties *)
Section image_properties.
Context {C : Type} `{HB : Backend C, HS : !BackendSpec C}.

(** C3. The operation-local undo log is sound for an undo file that, once an fwrite
  to it has come up short, takes no further record ([log_sticky]; without this the
  conclusion fails, [short_undo_write_corrupts]).  Whatever sequence of checked
  writes is issued after nextufs__transaction_begin, and whichever of them fail,
  short or partial device writes and a full undo file included, and whatever fails
  in reading the log back, for an image below 2^63 - 16 bytes nextufs__transaction_end with an error status leaves every
  byte of the image as it was, unless it reports EUCLEAN. *)
Theorem rollback_restores img l e (w w' : world C) r
  (Himg : image_ok img) (Hinv : bk_inv (w_ctx w)) (Hfull : log_sticky (w_env w))
  (Hrun : (transaction_begin ;;; attempt (issue_writes img l) ;;;
           transaction_end (Err e)) w = (r, w')) :
exists e', r = Err e' /\ (e' <> EUCLEAN -> view w' ≡ view w).
Proof.
apply transactional_restores in Hrun as (e' & ? & ? & _); eauto using issue_writes_carries.
Qed.

(** The rollback loop terminates on every undo file, corrupt ones included:
  each restored record takes at least sixteen bytes off the end, so any fuel
  above the model's computes the same result. *)
Theorem rollback_terminates (t : txn) (w : world C) (more : nat)
  (Hwf : wf_buf (tx_log t)) (Hpos : tx_pos t < 2 ^ 63) (Hend : 0 <= tx_end t) :
undo_loop (undo_fuel t + more) t w = undo_loop (undo_fuel t) t w.
Proof. apply undo_loop_fuel; auto; lia. Qed.

(** The clean/dirty protocol: a successful nextufs__write_begin leaves the
  superblock state byte at 2 (or 3 if it was not clean before), and a later
  successful safe nextufs__write_finish turns it back to 1 exactly when it was
  1 before; no other byte of the image is touched by either. *)
Theorem clean_mark_protocol img img1 img2 (w w1 w2 : world C)
  (Hinv : bk_inv (w_ctx w))
  (Hbegin : write_begin img w = (Ok img1, w1))
  (Hfinish : write_finish img1 true w1 = (Ok img2, w2)) :
let clean := sb_state (sb img) =? 1 in
view w1 (state_off img) = (if clean then 2 else 3) /\
sb_state (sb img1) = (if clean then 2 else 3) /\
view w2 (state_off img) = (if clean then 1 else 3) /\
(forall i, i <> state_off img -> view w1 i = view w i /\ view w2 i = view w i).
Proof.
cbn zeta. unfold write_begin in Hbegin. inv_step Hbegin. inv_step Hrun.
destruct x as [[]|]; [|by repeat inv_step Hbegin]. inv_step Hbegin.
apply write_state_sync in Hrun0 as (Hi1 & Hfr1 & Hv1); [|done].
specialize (Hv1 eq_refl). unfold write_finish in Hfinish. cbn in Hfinish.
destruct (sb_state (sb img) =? 1); cbn in Hfinish.
- inv_step Hfinish. apply image_fsync_quiet in Hrun as [Qi Qv _ _].
  inv_step Hfinish. inv_step Hrun.
  destruct x as [[]|]; [|by repeat inv_step Hfinish]. inv_step Hfinish.
  apply write_state_sync in Hrun0 as (Hi2 & Hfr2 & Hv2); [|auto].
  specialize (Hv2 eq_refl).
  split_and!; [done|done|exact Hv2|]. intros i Hi. split; [by apply Hfr1|].
  rewrite Hfr2, (Qv Hi1 i) by done. by apply Hfr1.
- inv_step Hfinish. split_and!; [done..|]. intros i Hi. by split; apply Hfr1.
Qed.

(** nextufs__pwrite is confined to the filesystem slice: a run, failing or
  not, changes no byte outside the requested range, the range of a successful
  one lies inside the slice and the image, and exactly the given bytes are
  stored there. *)
Theorem image_pwrite_confined img b n off (w w' : world C) r
  (Hinv : bk_inv (w_ctx w)) (Hbase : 0 <= slice_base img)
  (Hrun : image_pwrite img b n off w = (r, w')) :
(forall i, ~ (slice_base img + off <= i < slice_base img + off + w64 n /\
              0 <= off /\ off + w64 n <= slice_size img) -> view w' i = view w i) /\
(r = Ok tt ->
   0 <= off /\ off + w64 n <= slice_size img /\
   slice_base img + off + w64 n <= image_size img /\
   view w' ≡ blit (view w) (slice_base img + off) (to_bytes b) (w64 n)).
Proof.
unfold image_pwrite in Hrun. destruct (_ || _) eqn:E.
{ inv_step Hrun. by split. }
bool_to_prop. apply write_exact_spec in Hrun as (_ & _ & Hfr & Hok); [|done].
split; [intros i Hi; apply Hfr; lia|]. intros (? & ? & ? & _)%Hok. split_and!; try lia; done.
Qed.
End image_properties.

(** ** Witnesses *)

(** A raw image of zeros whose device accepts one write in full, then fails the
    next one after three bytes. *)
Definition flaky_file : file :=
  File zeros (512 * 1024)
    [IoCount 4; IoCount 4; IoCount 4; IoCount 3; IoErr EIO] [].

Lemma raw_world_inv n s y : 0 <= n -> bk_inv (w_ctx (raw_world (File zeros n s y))).
Proof. intros. by apply file_inv_zeros. Qed.

(** An undo file that takes two records, then three bytes of the next, then nothing. *)
Definition full_env : env :=
  Env (fun _ => 1000) (fun _ => true) (fun _ => None)
    (fun n => if (n <? 11)%nat then None else Some (if (n =? 11)%nat then 3 else 0))
    (fun _ => true) (fun _ => true) 0.
Lemma full_env_sticky : log_sticky full_env.
Proof.
  intros n m Hnm. cbn [ev_log full_env].
  destruct (Nat.ltb_spec n 11); [done|]. destruct (Nat.ltb_spec m 11); [lia|done].
Qed.

Lemma rollback_restores_witness :
  let w := World flaky_file None full_env in
  let run := (transaction_begin ;;;
              attempt (issue_writes mini_image
                         [(fun _ => 7, 4, 8192); (fun _ => 9, 4, 8194); (fun _ => 3, 4, 0);
                          (fun _ => 5, 1, 9000)]) ;;;
              transaction_end (Err EIO)) w in
  fst run = Err EIO /\ view (snd run) ≡ view w.
Proof.
  intros w run.
  assert (Hr : fst run = Err EIO) by (vm_compute; reflexivity).
  split; [exact Hr|].
  destruct (rollback_restores mini_image
              [(fun _ => 7, 4, 8192); (fun _ => 9, 4, 8194); (fun _ => 3, 4, 0);
               (fun _ => 5, 1, 9000)] EIO w (snd run) (fst run))
    as (e' & He & Hv).
  - exact mini_image_ok.
  - apply raw_world_inv. lia.
  - exact full_env_sticky.
  - apply surjective_pairing.
  - rewrite Hr in He. injection He as <-. apply Hv. discriminate.
Defined.

Lemma rollback_terminates_witness :
  let t := Txn (write_le64 zeros 8 5) 64 40 in
  undo_loop (undo_fuel t + 10) t (raw_world flaky_file) =
  undo_loop (undo_fuel t) t (raw_world flaky_file).
Proof.
  apply (rollback_terminates (Txn (write_le64 zeros 8 5) 64 40) (raw_world flaky_file) 10).
  - cbn [tx_log]. unfold write_le64, write_le32. repeat apply wf_upd. apply wf_zeros.
  - reflexivity.
  - discriminate.
Defined.

Definition clean_image : image := with_sb mini_image (with_state mini_sb 1).
Definition calm_file : file := File zeros (512 * 1024) [] [].

Lemma clean_mark_protocol_witness :
  exists img1 w1 img2 w2,
    write_begin clean_image (raw_world calm_file) = (Ok img1, w1) /\
    write_finish img1 true w1 = (Ok img2, w2) /\
    view w1 (state_off clean_image) = 2 /\ view w2 (state_off clean_image) = 1.
Proof.
  do 4 eexists. split; [reflexivity|]. split; [reflexivity|].
  pose proof (clean_mark_protocol clean_image _ _ (raw_world calm_file) _ _
    (raw_world_inv (512 * 1024) [] [] ltac:(lia)) eq_refl eq_refl) as (Ha & _ & Hb & _).
  split; [exact Ha|exact Hb].
Defined.

Lemma image_pwrite_confined_witness :
  let run := image_pwrite mini_image (fun _ => 7) 4 100 (raw_world calm_file) in
  fst run = Ok tt /\
  view (snd run) ≡ blit zeros 100 (to_bytes (fun _ => 7)) (w64 4).
Proof.
  intros run. assert (Hr : fst run = Ok tt) by reflexivity. split; [exact Hr|].
  destruct (image_pwrite_confined mini_image (fun _ => 7) 4 100
              (raw_world calm_file) (snd run) (fst run)) as (_ & Hok).
  - apply raw_world_inv. lia.
  - discriminate.
  - apply surjective_pairing.
  - apply Hok, Hr.
Defined.

(** ** A short write of the undo file *)

(** The undo file takes 16 of 32 bytes once and recovers, as a full temporary
    filesystem does after another process frees space. *)
Definition torn_file : file :=
  File (blit zeros 9000 (undo_record 100 20) 16) (512 * 1024) [] [].
Definition torn_env : env :=
  Env (fun _ => 1000) (fun _ => true) (fun _ => None)
    (fun n => if (n =? 7)%nat then Some 16 else None) (fun _ => true) (fun _ => true) 0.

(** The undo log is not self-delimiting after a short write: when the undo
    file takes part of a saved range and the operation goes on writing (as its
    cleanup paths do), the backward walk reads image bytes as a record.  Here the
    rollback reports the operation's own error, not EUCLEAN, although the first
    write is still in place and unrelated bytes were overwritten. *)
Example short_undo_write_corrupts :
  let w := World torn_file None torn_env in
  let run := (transaction_begin ;;;
    attempt (issue_writes mini_image
      [(fun _ => 7, 4, 8192); (fun _ => 9, 32, 9000); (fun _ => 5, 4, 10000)]) ;;;
    transaction_end (Err EIO)) w in
  fst run = Err EIO /\
  view w 8192 = 0 /\ view (snd run) 8192 = 7 /\
  view w 105 = 0 /\ view (snd run) 105 = 32.
Proof. vm_compute. split_and!; reflexivity. Qed.
