(* ===== verification/Inode.v ===== *)
(** * Inodes on disk

    [inode] is [struct nextufs_inode]; [decode_inode] and
    nextufs_inode_read are from src/src/core/image.c, nextufs__write_inode_raw is
    from src/src/core/layout.c. *)
From S2P Require Import Prelude.
From S2P Require Import Bytes.
From S2P Require Import Backend.
From S2P Require Import Superblock.
From S2P Require Import Image.

Record inode := Inode {
  i_mode : Z;
  i_nlink : Z;
  i_uid : Z;
  i_gid : Z;
  i_size : Z;
  i_atime : Z;
  i_mtime : Z;
  i_ctime : Z;
  i_db : list Z;        (* db[12] *)
  i_ib : list Z;        (* ib[3] *)
  i_flags : Z;
  i_blocks : Z;
  i_gen : Z;
}.

(** The C types of the fields. *)
Record inode_wf (ino : inode) : Prop := InodeWf {
  iw_mode : 0 <= i_mode ino < 2 ^ 16;
  iw_nlink : 0 <= i_nlink ino < 2 ^ 16;
  iw_uid : 0 <= i_uid ino < 2 ^ 16;
  iw_gid : 0 <= i_gid ino < 2 ^ 16;
  iw_size : 0 <= i_size ino < 2 ^ 64;
  iw_atime : 0 <= i_atime ino < 2 ^ 32;
  iw_mtime : 0 <= i_mtime ino < 2 ^ 32;
  iw_ctime : 0 <= i_ctime ino < 2 ^ 32;
  iw_db : Forall (fun v => 0 <= v < 2 ^ 32) (i_db ino);
  iw_db_length : length (i_db ino) = 12%nat;
  iw_ib : Forall (fun v => 0 <= v < 2 ^ 32) (i_ib ino);
  iw_ib_length : length (i_ib ino) = 3%nat;
  iw_flags : 0 <= i_flags ino < 2 ^ 32;
  iw_blocks : 0 <= i_blocks ino < 2 ^ 32;
  iw_gen : 0 <= i_gen ino < 2 ^ 32;
}.

Definition decode_inode (b : buf) : inode := {|
  i_mode := read_be16 b 0x00;
  i_nlink := read_be16 b 0x02;
  i_uid := read_be16 b 0x04;
  i_gid := read_be16 b 0x06;
  i_size := read_be64 b 0x08;
  i_atime := read_be32 b 0x10;
  i_mtime := read_be32 b 0x18;
  i_ctime := read_be32 b 0x20;
  i_db := read_be32s b 0x28 12;
  i_ib := read_be32s b 0x58 3;
  i_flags := read_be32 b 0x64;
  i_blocks := read_be32 b 0x68;
  i_gen := read_be32 b 0x6c;
|}.

(** The 128 bytes nextufs__write_inode_raw builds. *)
Definition encode_inode (ino : inode) : buf :=
  let raw := zeros in
  let raw := write_be16 raw 0x00 (i_mode ino) in
  let raw := write_be16 raw 0x02 (i_nlink ino) in
  let raw := write_be16 raw 0x04 (i_uid ino) in
  let raw := write_be16 raw 0x06 (i_gid ino) in
  let raw := write_be64 raw 0x08 (i_size ino) in
  let raw := write_be32 raw 0x10 (i_atime ino) in
  let raw := write_be32 raw 0x18 (i_mtime ino) in
  let raw := write_be32 raw 0x20 (i_ctime ino) in
  let raw := write_be32s raw 0x28 (i_db ino) in
  let raw := write_be32s raw 0x58 (i_ib ino) in
  let raw := write_be32 raw 0x64 (i_flags ino) in
  let raw := write_be32 raw 0x68 (i_blocks ino) in
  write_be32 raw 0x6c (i_gen ino).

Section inode_io.
Context {C : Type} `{!Backend C}.

Definition write_inode_raw (img : image) (inode_no : Z) (ino : inode) : M (world C) unit :=
  let off := inode_offset (sb img) (slice_base img) inode_no in
  if off <? 0 then fail EINVAL
  else write_exact img (encode_inode ino) UFS_INODE_SIZE off.

(** The inode and its byte offset. *)
Definition inode_read (img : image) (inode_no : Z) : M (world C) (inode * Z) :=
  if negb (is_ok (image_validate (sb img) (slice_base img) (slice_size img))) ||
     (cg_count (sb img) * inodes_per_group (sb img) <=? inode_no)
  then fail EINVAL
  else
    let off := inode_offset (sb img) (slice_base img) inode_no in
    if off <? 0 then fail EINVAL
    else
      let! ibuf := read_exact img UFS_INODE_SIZE off in
      let ino := decode_inode ibuf in
      if INT32_MAX <? i_size ino then fail EFBIG
      else ret (ino, off).
End inode_io.

Lemma decode_inode_wf b : wf_buf b -> inode_wf (decode_inode b).
Proof.
  intros H. constructor; cbn [decode_inode i_mode i_nlink i_uid i_gid i_size i_atime
    i_mtime i_ctime i_db i_ib i_flags i_blocks i_gen];
  auto using read_be16_range, read_be32_range, read_be64_range, read_be32s_range,
    read_be32s_length.
Qed.

Lemma decode_inode_eq_on a b : eq_on 0 UFS_INODE_SIZE a b -> decode_inode a = decode_inode b.
Proof.
  intros H. unfold decode_inode.
  f_equal;
  lazymatch goal with
  | |- read_be16 _ _ = _ => apply read_be16_eq_on
  | |- read_be32 _ _ = _ => apply read_be32_eq_on
  | |- read_be64 _ _ = _ => apply read_be64_eq_on
  | |- read_be32s _ _ _ = _ => apply read_be32s_eq_on
  end; intros i Hi; apply H; unfold UFS_INODE_SIZE; lia.
Qed.

Lemma encode_inode_wf ino : wf_buf (encode_inode ino).
Proof. unfold encode_inode. auto 15 with bytes. Qed.

Lemma decode_encode ino : inode_wf ino -> decode_inode (encode_inode ino) = ino.
Proof.
  intros [? ? ? ? ? ? ? ? Hdb Ldb Hib Lib ? ? ?]. destruct ino. cbn in *.
  unfold decode_inode, encode_inode. cbn -[write_be32s read_be32s zeros].
  f_equal; skip_writes;
  rewrite ?read_write_be16, ?read_write_be32, ?read_write_be64 by done;
  try (by apply wrap_small); try done.
  - rewrite <- Ldb. rewrite read_write_be32s. by apply map_w32_id.
  - rewrite <- Lib. rewrite read_write_be32s. by apply map_w32_id.
Qed.

(** An image opened on a validated filesystem that fits the device. *)
Record image_sane (img : image) : Prop := ImageSane {
  sane_ok : image_ok img;
  sane_wf : sb_wf (sb img);
  sane_valid : image_validate (sb img) (slice_base img) (slice_size img) = Ok tt;
  sane_fits : slice_base img + slice_size img <= image_size img;
}.
Lemma mini_image_sane : image_sane mini_image.
Proof.
  constructor; [exact mini_image_ok|exact mini_sb_wf|exact mini_sb_valid|].
  cbn. lia.
Qed.

Lemma inode_offset_bounds img n :
  image_sane img -> 0 <= n < cg_count (sb img) * inodes_per_group (sb img) ->
  0 <= slice_base img <= inode_offset (sb img) (slice_base img) n /\
  inode_offset (sb img) (slice_base img) n + UFS_INODE_SIZE <= image_size img.
Proof.
  intros [Hok Hwf Hv Hfit] Hn.
  pose proof (bytes_bound _ _ _ Hwf Hv). pose proof (valid_geometry _ _ _ Hwf Hv) as G.
  pose proof (inode_slot_bounds _ _ _ Hwf Hv n Hn) as (? & ? & ?).
  pose proof (geo_ipg _ G). pose proof (geo_fpg _ G). pose proof (geo_frag_min _ G).
  pose proof (wf_ino_off _ Hwf).
  assert (0 <= n / inodes_per_group (sb img)) by (apply Z.div_pos; lia).
  assert (Hcg : 0 <= n / inodes_per_group (sb img) < cg_count (sb img))
    by (split; [done|apply Z.div_lt_upper_bound; lia]).
  pose proof (cgstart_bounds _ _ _ Hwf Hv _ Hcg) as (_ & _ & ?).
  pose proof (group_end _ _ _ Hwf Hv _ Hcg).
  split; [nia|]. nia.
Qed.

Section inode_facts.
Context {C : Type} `{HB : Backend C, HS : !BackendSpec C}.

Lemma inode_read_quiet img n : Stable quiet (inode_read (C:=C) img n).
Proof.
  unfold inode_read. pose proof (read_exact_quiet (C:=C)).
  solve_stable.
Qed.
Lemma write_inode_raw_carries img n ino :
  image_ok img -> Stable carries (write_inode_raw (C:=C) img n ino).
Proof.
  intros Himg. unfold write_inode_raw.
  case_match; [solve_stable|by apply write_exact_carries].
Qed.

(** What reading an inode returns. *)
Lemma inode_read_ok img n (w w' : world C) ino off :
  inode_read img n w = (Ok (ino, off), w') -> bk_inv (w_ctx w) ->
  off = inode_offset (sb img) (slice_base img) n /\ 0 <= off /\
  image_validate (sb img) (slice_base img) (slice_size img) = Ok tt /\
  n < cg_count (sb img) * inodes_per_group (sb img) /\
  ino = decode_inode (slice (view w) off) /\ inode_wf ino /\ i_size ino <= INT32_MAX.
Proof.
  intros Hr Hinv. unfold inode_read in Hr.
  destruct (negb _ || _) eqn:E; [by inv_step Hr|]. bool_to_prop.
  destruct (Z.ltb_spec (inode_offset (sb img) (slice_base img) n) 0); [by inv_step Hr|].
  inv_step Hr. apply read_exact_ok in Hrun as (_ & _ & Hb); [|done].
  destruct (Z.ltb_spec INT32_MAX (i_size (decode_inode a))); inv_step Hr.
  rewrite w64_small in Hb by (unfold UFS_INODE_SIZE; lia).
  apply decode_inode_eq_on in Hb. rewrite Hb in *.
  split_and!; try done.
  - destruct (image_validate _ _ _) as [[]|]; done.
  - apply decode_inode_wf, wf_slice. by apply bk_view_wf.
Qed.

(** Writing an inode replaces exactly its slot. *)
Lemma write_inode_raw_ok img n ino (w w' : world C) :
  write_inode_raw img n ino w = (Ok tt, w') -> bk_inv (w_ctx w) ->
  let off := inode_offset (sb img) (slice_base img) n in
  bk_inv (w_ctx w') /\ env_same (w_env w) (w_env w') /\
  0 <= off /\ backend_open img = true /\
  view w' ≡ blit (view w) off (encode_inode ino) UFS_INODE_SIZE.
Proof.
  cbv zeta. unfold write_inode_raw. intros Hr Hinv.
  destruct (Z.ltb_spec (inode_offset (sb img) (slice_base img) n) 0); [by inv_step Hr|].
  apply write_exact_spec in Hr as (? & ? & _ & Hok); [|done].
  destruct (Hok eq_refl) as (Hv & _ & _ & _ & ?). rewrite w64_small in Hv by (unfold UFS_INODE_SIZE; lia).
  split_and!; [done..|]. intros i. rewrite (Hv i). unfold blit. case_match; [|done].
  apply to_bytes_id, encode_inode_wf.
Qed.
End inode_facts.
#[export] Hint Resolve inode_read_quiet : stable.

(** ** Properties *)

(** C24. Inode slots are faithful storage: after nextufs__write_inode_raw succeeds
    on an inode number of a validated filesystem, nextufs_inode_read of that
    number returns exactly the inode written (unless the device itself fails the
    read), and every other inode decodes as before. *)
Theorem inode_write_read `{HB : Backend C, HS : !BackendSpec C}
    img n ino (w w1 w2 : world C) r
    (Himg : image_sane img) (Hinv : bk_inv (w_ctx w))
    (Hwf : inode_wf ino) (Hsize : i_size ino <= INT32_MAX)
    (Hn : 0 <= n < cg_count (sb img) * inodes_per_group (sb img))
    (Hwrite : write_inode_raw img n ino w = (Ok tt, w1))
    (Hread : inode_read img n w1 = (r, w2)) :
  let off m := inode_offset (sb img) (slice_base img) m in
  (r = Ok (ino, off n) \/
   exists e, r = Err e /\ fst (bk_read UFS_INODE_SIZE (off n) (w_ctx w1)) = Err e) /\
  forall m, 0 <= m < cg_count (sb img) * inodes_per_group (sb img) -> m <> n ->
    decode_inode (slice (view w1) (off m)) = decode_inode (slice (view w) (off m)).
Proof.
  intros off. apply write_inode_raw_ok in Hwrite as (Hi1 & _ & _ & Hopen & Hv); [|done].
  pose proof (inode_offset_bounds _ n Himg Hn) as [[? ?] ?]. fold (off n) in *.
  pose proof Himg as [Hok Hswf Hvalid _]. split.
  - destruct r as [[ino' off']|e].
    + apply inode_read_ok in Hread as (-> & _ & _ & _ & -> & _); [|done]. left.
      fold (off n). do 2 f_equal.
      rewrite (decode_inode_eq_on _ (encode_inode ino)); [by apply decode_encode|].
      intros i Hi. unfold slice. rewrite (Hv (off n + i)), blit_in by lia. f_equal. lia.
    + right. exists e. split; [done|]. unfold inode_read in Hread.
      rewrite Hvalid in Hread. cbn [is_ok negb orb] in Hread.
      destruct (Z.leb_spec (cg_count (sb img) * inodes_per_group (sb img)) n); [lia|].
      fold (off n) in Hread. destruct (Z.ltb_spec (off n) 0); [lia|].
      apply bind_inv in Hread as [(b & w3 & Hrd & Hread)|(x & Hrd & [= ->])].
      * apply read_exact_ok in Hrd as (_ & _ & Hb); [|done]. exfalso.
        assert (Hd : decode_inode b = ino).
        { rewrite <- (decode_encode ino) by done. apply decode_inode_eq_on.
          intros i Hi. rewrite Hb by done. unfold slice.
          rewrite (Hv (off n + i)), blit_in by lia. f_equal. lia. }
        rewrite Hd in Hread. destruct (Z.ltb_spec INT32_MAX (i_size ino)); [lia|].
        by inv_step Hread.
      * by eapply read_exact_device.
  - intros m Hm Hne. apply decode_inode_eq_on. intros i Hi. unfold slice.
    rewrite (Hv _). apply blit_out. fold (off m).
    pose proof (inode_slots_disjoint _ _ _ n m Hswf Hvalid Hn Hm ltac:(done)).
    fold (off n) (off m) in *. lia.
Qed.

Definition sample_inode : inode :=
  Inode 0x81a4 1 10 20 700 5 6 7 [40; 0; 0; 0; 0; 0; 0; 0; 0; 0; 0; 0] [0; 0; 0] 0 2 9.
Lemma sample_inode_wf : inode_wf sample_inode.
Proof. constructor; cbn; try lia; repeat constructor; lia. Qed.

Lemma inode_write_read_witness :
  let run1 := write_inode_raw mini_image 5 sample_inode (raw_world calm_file) in
  let run2 := inode_read mini_image 5 (snd run1) in
  fst run1 = Ok tt /\
  fst run2 = Ok (sample_inode, inode_offset mini_sb 0 5).
Proof.
  intros run1 run2.
  assert (Hw : fst run1 = Ok tt) by (vm_compute; reflexivity). split; [exact Hw|].
  destruct (inode_write_read mini_image 5 sample_inode (raw_world calm_file)
              (snd run1) (snd run2) (fst run2)) as [[Hr|(e & _ & He)] _].
  - exact mini_image_sane.
  - apply raw_world_inv. lia.
  - exact sample_inode_wf.
  - discriminate.
  - cbn. lia.
  - rewrite <- Hw. apply surjective_pairing.
  - apply surjective_pairing.
  - exact Hr.
  - exfalso. assert (Hok : is_ok (fst (bk_read UFS_INODE_SIZE
      (inode_offset mini_sb 0 5) (w_ctx (snd run1)))) = true) by (vm_compute; reflexivity).
    cbn [sb slice_base mini_image] in He. rewrite He in Hok. discriminate Hok.
Defined.
