(* ===== verification/CylGroup.v ===== *)
(** * Cylinder-group headers in memory: bitmaps and counters

    The buffer computations of src/src/core/alloc.c between reading a cylinder
    group and writing it back: bitmap tests and updates, the search loops of the
    allocators, the fragment-run summary and the rotational tables.  A run of
    free fragments is a run of one bits in the map at [CG_FREE_OFF]. *)
From stdpp Require Import sets.
From S2P Require Import Prelude.
From S2P Require Import Bytes.
From S2P Require Import Superblock.

Definition CG_MAGIC : Z := 0x00090255.
Definition NRPOS : Z := 8.
Definition CG_TIME_OFF : Z := 8.
Definition CG_NDBLK_OFF : Z := 20.
Definition CG_CS_NDIR_OFF : Z := 24.
Definition CG_CS_NBFREE_OFF : Z := 28.
Definition CG_CS_NIFREE_OFF : Z := 32.
Definition CG_CS_NFFREE_OFF : Z := 36.
Definition CG_ROTOR_OFF : Z := 40.
Definition CG_IROTOR_OFF : Z := 48.
Definition CG_FRSUM_OFF : Z := 52.
Definition CG_BTOT_OFF : Z := 84.
Definition CG_BPOS_OFF : Z := 212.
Definition CG_IUSED_OFF : Z := 724.
Definition CG_MAGIC_OFF : Z := 980.

(** ** Bitmaps *)
Definition bit_test (b : buf) (off i : Z) : bool :=
  negb (Z.land (b (off + i / 8)) (Z.shiftl 1 (i mod 8)) =? 0).
Definition bit_set (b : buf) (off i : Z) : buf :=
  upd b (off + i / 8) (Z.lor (b (off + i / 8)) (Z.shiftl 1 (i mod 8))).
Definition bit_clear (b : buf) (off i : Z) : buf :=
  upd b (off + i / 8) (Z.land (b (off + i / 8)) (w8 (Z.lnot (Z.shiftl 1 (i mod 8))))).

Definition block_is_free (b : buf) (frag_base frags : Z) : bool :=
  forallb (fun i => bit_test b CG_FREE_OFF (frag_base + i)) (seqZ 0 frags).
Definition set_run_bits (b : buf) (frag_base frags : Z) : bool :=
  forallb (fun i => bit_test b CG_FREE_OFF (frag_base + i)) (seqZ 0 frags).
Definition clear_block_bits (b : buf) (frag_base frags : Z) : buf :=
  foldl (fun b i => bit_clear b CG_FREE_OFF (frag_base + i)) b (seqZ 0 frags).

(** ** The fragment-run summary of one block *)

(** The inner loop: the length of the run of free fragments starting at [i]. *)
Fixpoint run_from (fuel : nat) (free : Z -> bool) (fpb i run : Z) : Z :=
  match fuel with
  | O => run
  | S fuel =>
      if (i + run <? fpb) && free (i + run) then run_from fuel free fpb i (run + 1)
      else run
  end.
Fixpoint count_runs (fuel : nat) (free : Z -> bool) (fpb i : Z) (counts : list Z) : list Z :=
  match fuel with
  | O => counts
  | S fuel =>
      if i <? fpb then
        let run := run_from (Z.to_nat fpb) free fpb i 0 in
        let counts :=
          if (0 <? run) && (run <? fpb) then alter (fun c => c + 1) (Z.to_nat run) counts
          else counts in
        count_runs fuel free fpb (i + (if 0 <? run then run else 1)) counts
      else counts
  end.
Definition count_free_runs_in_block (b : buf) (block_frag_base fpb : Z) : list Z :=
  count_runs (S (Z.to_nat fpb)) (fun i => bit_test b CG_FREE_OFF (block_frag_base + i))
    fpb 0 (replicate (Z.to_nat (fpb + 1)) 0).

Definition apply_cg_frsum_delta (b : buf) (before after : list Z) (fpb : Z) : buf :=
  foldl (fun b i =>
      let frsum_off := CG_FRSUM_OFF + i * 4 in
      let v := read_be32 b frsum_off in
      let delta := nth (Z.to_nat i) after 0 - nth (Z.to_nat i) before 0 in
      if delta =? 0 then b else write_be32 b frsum_off (v + delta))
    b (seqZ 1 (fpb - 1)).

(** ** Taking and returning fragments *)

(** One counter of the header moves by [d], modulo 2^32. *)
Definition add_be32 (b : buf) (off d : Z) : buf := write_be32 b off (read_be32 b off + d).

(** Part of a block that is already split: the inner body of
    nextufs__allocate_frags_in_group's first loop, and of
    nextufs__extend_fragment_run. *)
Definition take_fragments (b : buf) (fpb block_base start frags now : Z) : buf :=
  let before := count_free_runs_in_block b block_base fpb in
  let b := clear_block_bits b start frags in
  let after := count_free_runs_in_block b block_base fpb in
  let b := apply_cg_frsum_delta b before after fpb in
  let b := add_be32 b CG_CS_NFFREE_OFF (- frags) in
  write_be32 b CG_TIME_OFF now.

(** The block totals by cylinder and rotational position. *)
Definition adjust_positions (s : superblock) (b : buf) (local_frag d : Z) : buf :=
  let sector := w32 (local_frag * sectors_per_frag s) in
  let cylno := sector / sectors_per_cyl s in
  let rotpos := w32 (sector mod sectors_per_cyl s mod sectors_per_track s * NRPOS) /
                sectors_per_track s in
  if (cylno <? 32) && (rotpos <? NRPOS) then
    let b := add_be32 b (CG_BTOT_OFF + cylno * 4) d in
    let bposp := CG_BPOS_OFF + (cylno * NRPOS + rotpos) * 2 in
    write_be16 b bposp (read_be16 b bposp + d)
  else b.

(** The second loop's body: split the free block at [local_frag]. *)
Definition take_block (s : superblock) (b : buf) (local_frag frags_needed now : Z) : buf :=
  let b := clear_block_bits b local_frag frags_needed in
  let b := write_be32 b CG_ROTOR_OFF local_frag in
  let b := add_be32 b CG_CS_NBFREE_OFF (-1) in
  let free_frags := frags_per_block s - frags_needed in
  let b := add_be32 b CG_CS_NFFREE_OFF free_frags in
  let b := if 0 <? free_frags then add_be32 b (CG_FRSUM_OFF + free_frags * 4) 1 else b in
  let b := write_be32 b CG_TIME_OFF now in
  adjust_positions s b local_frag (-1).

(** The starts of the blocks below [limit]: [for (f = 0; f < limit; f += fpb)]. *)
Definition block_starts (limit fpb : Z) : list Z :=
  map (fun k => k * fpb) (seqZ 0 ((limit + fpb - 1) / fpb)).

(** First loop: a run in a block that is not entirely free. *)
Definition find_partial (s : superblock) (b : buf) (limit frags_needed : Z)
    : option (Z * Z) :=
  let fpb := frags_per_block s in
  find_first (fun local_frag =>
      let end' := Z.min (local_frag + fpb) limit in
      if (end' - local_frag =? fpb) && block_is_free b local_frag fpb then None
      else
        find_first (fun start =>
            if set_run_bits b start frags_needed then Some (local_frag, start) else None)
          (seqZ local_frag (end' - frags_needed - local_frag + 1)))
    (block_starts limit fpb).

(** Second loop: an entirely free block. *)
Definition find_block (s : superblock) (b : buf) (limit : Z) : option Z :=
  let fpb := frags_per_block s in
  find_first (fun local_frag =>
      if (local_frag + fpb <=? limit) && block_is_free b local_frag fpb
      then Some local_frag else None)
    (block_starts limit fpb).

(** The search of nextufs__allocate_frags_in_group: which run is taken. *)
Inductive choice :=
  | Partial (local_frag start : Z)
  | Whole (local_frag : Z).
Definition try_partial (s : superblock) (b : buf) (limit frags_needed : Z)
    : option (Z * Z) :=
  if (frags_needed <? frags_per_block s) &&
     (frags_needed <=? read_be32 b CG_CS_NFFREE_OFF)
  then find_partial s b limit frags_needed else None.
Definition choose_run (s : superblock) (b : buf) (limit frags_needed : Z) : option choice :=
  match try_partial s b limit frags_needed with
  | Some (local_frag, start) => Some (Partial local_frag start)
  | None =>
      if read_be32 b CG_CS_NBFREE_OFF =? 0 then None
      else match find_block s b limit with
           | Some local_frag => Some (Whole local_frag)
           | None => None
           end
  end.

(** The run taken, the new header and the changes of the free-block and
    free-fragment totals. *)
Definition apply_choice (s : superblock) (b : buf) (frags_needed now : Z) (c : choice)
    : Z * buf * Z * Z :=
  let fpb := frags_per_block s in
  match c with
  | Partial local_frag start =>
      (start, take_fragments b fpb local_frag start frags_needed now, 0, - frags_needed)
  | Whole local_frag =>
      (local_frag, take_block s b local_frag frags_needed now, -1, fpb - frags_needed)
  end.
Definition allocate_in_header (s : superblock) (b : buf) (limit frags_needed now : Z)
    : option (Z * buf * Z * Z) :=
  match choose_run s b limit frags_needed with
  | None => None
  | Some c => Some (apply_choice s b frags_needed now c)
  end.

(** The setting loop of nextufs__free_fragment_run: [None] when a fragment of the
    run is free already. *)
Fixpoint set_free_bits (b : buf) (bits : list Z) : option buf :=
  match bits with
  | [] => Some b
  | bit :: bits =>
      if bit_test b CG_FREE_OFF bit then None
      else set_free_bits (bit_set b CG_FREE_OFF bit) bits
  end.

(** nextufs__free_fragment_run on the header: the new header and the changes of
    the free-block and free-fragment totals. *)
Definition give_fragments (s : superblock) (b : buf) (local_frag frags now : Z)
    : option (buf * Z * Z) :=
  let fpb := frags_per_block s in
  let block_base := local_frag - local_frag mod fpb in
  let before := count_free_runs_in_block b block_base fpb in
  match set_free_bits b (seqZ local_frag frags) with
  | None => None
  | Some b =>
      let after := count_free_runs_in_block b block_base fpb in
      let b := apply_cg_frsum_delta b before after fpb in
      let '(b, d_nbfree, d_nffree) :=
        if block_is_free b block_base fpb then
          let b := add_be32 b CG_CS_NFFREE_OFF (frags - fpb) in
          let b := add_be32 b CG_CS_NBFREE_OFF 1 in
          (adjust_positions s b block_base 1, 1, frags - fpb)
        else (add_be32 b CG_CS_NFFREE_OFF frags, 0, frags) in
      Some (write_be32 b CG_TIME_OFF now, d_nbfree, d_nffree)
  end.

(** ** Inode bitmap *)
Definition is_dir_mode (mode : Z) : bool := Z.land mode 0xf000 =? 0x4000.

(** The rotor search of allocate_inode_in_group. *)
Definition find_inode (s : superblock) (b : buf) (cg : Z) : option Z :=
  let ipg := inodes_per_group s in
  let rotor := read_be32 b CG_IROTOR_OFF in
  let start := if ipg <=? rotor then 0 else rotor in
  find_first (fun i =>
      let idx := (start + i) mod ipg in
      if (negb (cg =? 0) || (2 <=? idx)) && negb (bit_test b CG_IUSED_OFF idx)
      then Some idx else None)
    (seqZ 0 ipg).

Definition take_inode (b : buf) (idx mode now : Z) : buf :=
  let b := bit_set b CG_IUSED_OFF idx in
  let b := write_be32 b CG_IROTOR_OFF idx in
  let b := add_be32 b CG_CS_NIFREE_OFF (-1) in
  let b := write_be32 b CG_TIME_OFF now in
  if is_dir_mode mode then add_be32 b CG_CS_NDIR_OFF 1 else b.

Definition give_inode (b : buf) (idx mode now : Z) : option buf :=
  if negb (bit_test b CG_IUSED_OFF idx) then None
  else
    let b := bit_clear b CG_IUSED_OFF idx in
    let b := add_be32 b CG_CS_NIFREE_OFF 1 in
    let b := write_be32 b CG_TIME_OFF now in
    Some (if is_dir_mode mode then add_be32 b CG_CS_NDIR_OFF (-1) else b).

(** ** Bitmap lemmas *)
Lemma land_bit_zero x k : 0 <= k -> (Z.land x (Z.shiftl 1 k) =? 0) = negb (Z.testbit x k).
Proof.
  intros Hk. destruct (Z.testbit x k) eqn:E; cbn.
  - apply Z.eqb_neq. intros H0.
    assert (Z.testbit (Z.land x (Z.shiftl 1 k)) k = false) as Hf by by rewrite H0, Z.bits_0.
    rewrite Z.land_spec, E, Z.shiftl_spec, Z.sub_diag in Hf by done. done.
  - apply Z.eqb_eq, Z.bits_inj'. intros n Hn. rewrite Z.land_spec, Z.bits_0.
    rewrite Z.shiftl_spec by done. destruct (decide (n = k)) as [->|Hne]; [by rewrite E|].
    destruct (decide (n < k)); [rewrite (Z.testbit_neg_r 1) by lia; apply andb_false_r|].
    rewrite (Z.bits_above_log2 1) by (cbn; lia). apply andb_false_r.
Qed.

Lemma bit_test_testbit b off i : bit_test b off i = Z.testbit (b (off + i / 8)) (i mod 8).
Proof.
  unfold bit_test. rewrite land_bit_zero by (apply Z.mod_pos_bound; lia).
  apply negb_involutive.
Qed.

Lemma w8_testbit x k : 0 <= k < 8 -> Z.testbit (w8 x) k = Z.testbit x k.
Proof. intros. unfold w8. by rewrite Z.mod_pow2_bits_low by lia. Qed.

Lemma div_mod_inj i j : i / 8 = j / 8 -> i mod 8 = j mod 8 -> i = j.
Proof. intros. rewrite (Z.div_mod i 8), (Z.div_mod j 8) by lia. congruence. Qed.

Lemma testbit_one k n : 0 <= n -> Z.testbit (Z.shiftl 1 k) n = (n =? k).
Proof.
  intros Hn. rewrite Z.shiftl_spec by done. destruct (Z.eqb_spec n k) as [->|].
  - by rewrite Z.sub_diag.
  - destruct (decide (n < k)); [by rewrite Z.testbit_neg_r by lia|].
    by rewrite Z.bits_above_log2 by (cbn; lia).
Qed.

Lemma bit_test_set b off i j :
  bit_test (bit_set b off i) off j = (j =? i) || bit_test b off j.
Proof.
  rewrite !bit_test_testbit. unfold bit_set, upd.
  pose proof (Z.mod_pos_bound j 8 ltac:(lia)).
  destruct (Z.eqb_spec (off + j / 8) (off + i / 8)) as [Heq|Hne].
  - assert (j / 8 = i / 8) as Hq by lia.
    rewrite w8_testbit, Z.lor_spec, testbit_one, Hq by lia.
    destruct (Z.eqb_spec j i) as [->|Hji]; [by rewrite Z.eqb_refl, orb_true_r|].
    destruct (Z.eqb_spec (j mod 8) (i mod 8)) as [Hm|]; [|by rewrite orb_false_r].
    by destruct Hji; apply div_mod_inj.
  - destruct (Z.eqb_spec j i) as [->|]; [lia|done].
Qed.

Lemma bit_test_clear b off i j :
  bit_test (bit_clear b off i) off j = negb (j =? i) && bit_test b off j.
Proof.
  rewrite !bit_test_testbit. unfold bit_clear, upd.
  pose proof (Z.mod_pos_bound j 8 ltac:(lia)).
  destruct (Z.eqb_spec (off + j / 8) (off + i / 8)) as [Heq|Hne].
  - assert (j / 8 = i / 8) as Hq by lia.
    rewrite w8_testbit, Z.land_spec, w8_testbit, Z.lnot_spec, testbit_one, Hq by lia.
    destruct (Z.eqb_spec j i) as [->|Hji]; [by rewrite Z.eqb_refl, andb_false_r|].
    destruct (Z.eqb_spec (j mod 8) (i mod 8)) as [Hm|]; [|by rewrite andb_true_r].
    by destruct Hji; apply div_mod_inj.
  - destruct (Z.eqb_spec j i) as [->|]; [lia|done].
Qed.

(** A bit depends on one byte only. *)
Lemma bit_test_byte a b off i :
  a (off + i / 8) = b (off + i / 8) -> bit_test a off i = bit_test b off i.
Proof. intros H. unfold bit_test. by rewrite H. Qed.

Lemma wf_bit_set b off i : wf_buf b -> wf_buf (bit_set b off i).
Proof. apply wf_upd. Qed.
Lemma wf_bit_clear b off i : wf_buf b -> wf_buf (bit_clear b off i).
Proof. apply wf_upd. Qed.
Lemma wf_add_be32 b off d : wf_buf b -> wf_buf (add_be32 b off d).
Proof. apply wf_write_be32. Qed.
#[export] Hint Resolve wf_bit_set wf_bit_clear wf_add_be32 : bytes.

Lemma forallb_seqZ (f : Z -> bool) m n :
  forallb f (seqZ m n) = true <-> forall i, m <= i < m + n -> f i = true.
Proof.
  rewrite forallb_forall. split; intros H i Hi.
  - apply H. apply list_elem_of_In, elem_of_seqZ. lia.
  - apply H. apply list_elem_of_In, elem_of_seqZ in Hi. lia.
Qed.


Lemma clear_block_bits_test b base frags j :
  bit_test (clear_block_bits b base frags) CG_FREE_OFF j =
  negb ((base <=? j) && (j <? base + frags)) && bit_test b CG_FREE_OFF j.
Proof.
  unfold clear_block_bits. destruct (decide (0 <= frags)) as [Hf|Hf].
  - revert frags Hf. apply natlike_ind.
    + cbn. destruct (Z.leb_spec base j), (Z.ltb_spec j (base + 0)); done || lia.
    + intros n Hn IH. rewrite <- Z.add_1_r, seqZ_snoc, foldl_app by done. cbn [foldl].
      rewrite bit_test_clear, IH, andb_assoc. f_equal.
      destruct (Z.eqb_spec j (base + (0 + n))), (Z.leb_spec base j),
        (Z.ltb_spec j (base + n)), (Z.ltb_spec j (base + (n + 1))); done || lia.
  - rewrite (seqZ_nil 0 frags) by lia. cbn.
    destruct (Z.leb_spec base j), (Z.ltb_spec j (base + frags)); done || lia.
Qed.

Lemma set_free_bits_spec bits : forall b b',
  set_free_bits b bits = Some b' ->
  (forall i, i ∈ bits -> bit_test b CG_FREE_OFF i = false) /\ NoDup bits /\
  (forall j, bit_test b' CG_FREE_OFF j = bool_decide (j ∈ bits) || bit_test b CG_FREE_OFF j).
Proof.
  induction bits as [|i bits IH]; intros b b' H; cbn in H.
  - simplify_eq. split_and!; [set_solver|constructor|]. intros j.
    rewrite bool_decide_false; [done|set_solver].
  - destruct (bit_test b CG_FREE_OFF i) eqn:E; [done|]. apply IH in H as (Hf & Hnd & Ht).
    assert (Hi : i ∉ bits).
    { intros Hi%Hf. rewrite bit_test_set, Z.eqb_refl in Hi. done. }
    split_and!; [|by constructor|].
    + intros j [->|Hj]%elem_of_cons; [done|]. apply Hf in Hj.
      rewrite bit_test_set in Hj. by apply orb_false_iff in Hj as [_ ?].
    + intros j. rewrite Ht, bit_test_set, orb_assoc. f_equal.
      destruct (Z.eqb_spec j i) as [->|Hne].
      * rewrite orb_true_r. symmetry. apply bool_decide_true. set_solver.
      * rewrite orb_false_r. apply bool_decide_ext. set_solver.
Qed.

Lemma set_free_bits_total l : forall b,
  NoDup l -> (forall i, i ∈ l -> bit_test b CG_FREE_OFF i = false) ->
  is_Some (set_free_bits b l).
Proof.
  induction l as [|i l IH]; intros b Hnd Hl; cbn; [done|].
  rewrite (Hl i) by (by left). apply NoDup_cons in Hnd as [Hi Hnd].
  apply IH; [done|]. intros j Hj. rewrite bit_test_set, Hl by (by right).
  destruct (Z.eqb_spec j i) as [->|]; done.
Qed.

(** ** Blocks as lists of bits *)
Definition blk (b : buf) (fpb k : Z) : list bool :=
  map (fun i => bit_test b CG_FREE_OFF (k * fpb + i)) (seqZ 0 fpb).
Definition entire (l : list bool) : bool := forallb id l.
Definition whole_count (l : list bool) : Z := if entire l then 1 else 0.
Definition frag_count_of (l : list bool) : Z :=
  if entire l then 0 else Z.of_nat (length (filter (fun x => x = true) l)).

(** The lengths of the maximal runs of free fragments. *)
Fixpoint runs (l : list bool) (cur : Z) : list Z :=
  match l with
  | [] => if 0 <? cur then [cur] else []
  | true :: l => runs l (cur + 1)
  | false :: l => (if 0 <? cur then [cur] else []) ++ runs l 0
  end.
Definition run_count (j : Z) (l : list bool) : Z :=
  Z.of_nat (length (filter (fun r => r = j) (runs l 0))).
(** [counts[0 .. fpb]] as the summary defines it. *)
Definition run_table (fpb : Z) (l : list bool) : list Z :=
  map (fun j => if (0 <? j) && (j <? fpb) then run_count j l else 0) (seqZ 0 (fpb + 1)).

(** [memset] of a range of a bit list. *)
Definition set_range (l : list bool) (s m : Z) (v : bool) : list bool :=
  map (fun i => if (s <=? i) && (i <? s + m) then v else nth (Z.to_nat i) l false)
    (seqZ 0 (Z.of_nat (length l))).
Definition range_is (l : list bool) (s m : Z) (v : bool) : bool :=
  forallb (fun i => Bool.eqb (nth (Z.to_nat i) l false) v) (seqZ s m).

Fixpoint all_bools (n : nat) : list (list bool) :=
  match n with
  | O => [[]]
  | S n => map (cons true) (all_bools n) ++ map (cons false) (all_bools n)
  end.
Lemma all_bools_complete l : In l (all_bools (length l)).
Proof.
  induction l as [|[] l IH]; cbn; [by left| |]; apply in_or_app; [left|right];
  by apply in_map.
Qed.

(** A boolean statement about every block of every legal size. *)
Definition block_sizes : list Z := [1; 2; 4; 8].
Definition every_block (P : Z -> list bool -> bool) : bool :=
  forallb (fun n => forallb (P n) (all_bools (Z.to_nat n))) block_sizes.
Lemma every_block_spec P n l :
  every_block P = true -> In n block_sizes -> length l = Z.to_nat n -> P n l = true.
Proof.
  intros H Hn Hl. unfold every_block in H. rewrite forallb_forall in H.
  specialize (H n Hn). rewrite forallb_forall in H. apply H. rewrite <- Hl.
  apply all_bools_complete.
Qed.

(** Every block with a proper range [s, s + m) inside. *)
Definition every_range (P : Z -> list bool -> Z -> Z -> bool) : bool :=
  every_block (fun n l => forallb (fun s => forallb (fun m =>
      if s + m <=? n then P n l s m else true) (seqZ 1 n)) (seqZ 0 n)).
Lemma every_range_spec P n l s m :
  every_range P = true -> In n block_sizes -> length l = Z.to_nat n ->
  0 <= s -> 0 < m -> s + m <= n -> P n l s m = true.
Proof.
  intros H Hn Hl Hs Hm Hsm. eapply every_block_spec in H; [|done..]. cbn beta in H.
  rewrite forallb_seqZ in H. specialize (H s ltac:(lia)). rewrite forallb_seqZ in H.
  specialize (H m ltac:(lia)). by destruct (Z.leb_spec (s + m) n); [|lia].
Qed.

(** ** The summary loop computes the table of run lengths *)
Lemma run_from_ext free1 free2 fpb i fuel : forall run,
  (forall j, 0 <= j < fpb -> free1 j = free2 j) -> 0 <= i -> 0 <= run ->
  run_from fuel free1 fpb i run = run_from fuel free2 fpb i run.
Proof.
  induction fuel as [|fuel IH]; intros run H Hi Hr; cbn; [done|].
  destruct (Z.ltb_spec (i + run) fpb); [|done]. rewrite H by lia. cbn.
  rewrite IH by (done || lia). done.
Qed.
Lemma count_runs_ext free1 free2 fpb fuel : forall i counts,
  (forall j, 0 <= j < fpb -> free1 j = free2 j) -> 0 <= i ->
  count_runs fuel free1 fpb i counts = count_runs fuel free2 fpb i counts.
Proof.
  induction fuel as [|fuel IH]; intros i counts H Hi; cbn; [done|].
  rewrite (run_from_ext free1 free2) by (done || lia).
  case_match; [|done]. apply IH; [done|]. case_match; [|lia].
  match goal with E : (0 <? _) = true |- _ => apply Z.ltb_lt in E end. lia.
Qed.
Lemma nth_map_seqZ {A} (f : Z -> A) n i d :
  0 <= i < n -> nth (Z.to_nat i) (map f (seqZ 0 n)) d = f i.
Proof.
  intros Hi. apply nth_lookup_Some. rewrite list_lookup_fmap.
  rewrite lookup_seqZ_lt by lia. cbn. f_equal. f_equal. lia.
Qed.
Lemma blk_length b fpb k : length (blk b fpb k) = Z.to_nat fpb.
Proof. unfold blk. by rewrite length_map, length_seqZ. Qed.
Lemma blk_nth b fpb k i :
  0 <= i < fpb -> nth (Z.to_nat i) (blk b fpb k) false = bit_test b CG_FREE_OFF (k * fpb + i).
Proof. apply (nth_map_seqZ (fun i => bit_test b CG_FREE_OFF (k * fpb + i))). Qed.

Lemma count_free_runs_table b fpb k :
  In fpb block_sizes ->
  count_free_runs_in_block b (k * fpb) fpb = run_table fpb (blk b fpb k).
Proof.
  intros Hf. unfold count_free_runs_in_block.
  rewrite (count_runs_ext _ (fun i => nth (Z.to_nat i) (blk b fpb k) false))
    by (done || intros j Hj; by rewrite blk_nth by done).
  assert (every_block (fun fpb l => bool_decide
    (count_runs (S (Z.to_nat fpb)) (fun i => nth (Z.to_nat i) l false) fpb 0
       (replicate (Z.to_nat (fpb + 1)) 0) = run_table fpb l)) = true) as H
    by (vm_compute; reflexivity).
  eapply every_block_spec in H; [|done|by rewrite blk_length].
  by apply bool_decide_eq_true in H.
Qed.

(** ** Which bits and which words each step changes *)
Definition bits_after (a b : buf) (lo m : Z) (v : bool) : Prop :=
  forall j, 0 <= j -> bit_test a CG_FREE_OFF j =
            if (lo <=? j) && (j <? lo + m) then v else bit_test b CG_FREE_OFF j.

Lemma blk_ext a b fpb k :
  (forall i, 0 <= i < fpb ->
     bit_test a CG_FREE_OFF (k * fpb + i) = bit_test b CG_FREE_OFF (k * fpb + i)) ->
  blk a fpb k = blk b fpb k.
Proof.
  intros H. unfold blk. apply list_fmap_ext. intros ? i Hi.
  apply lookup_seqZ in Hi. apply H. lia.
Qed.

Lemma blk_set_range a b fpb k s m v :
  0 < fpb -> 0 <= k -> 0 <= s -> s + m <= fpb -> bits_after a b (k * fpb + s) m v ->
  blk a fpb k = set_range (blk b fpb k) s m v /\
  forall k', 0 <= k' -> k' <> k -> blk a fpb k' = blk b fpb k'.
Proof.
  intros Hf Hk0 Hs Hm Hb. split.
  - unfold set_range. rewrite blk_length, Z2Nat.id by lia.
    unfold blk at 1. apply list_fmap_ext. intros ? i Hi. apply lookup_seqZ in Hi.
    rewrite blk_nth by lia. rewrite Hb by nia.
    destruct (Z.leb_spec (k * fpb + s) (k * fpb + i)), (Z.leb_spec s i); try lia;
    destruct (Z.ltb_spec (k * fpb + i) (k * fpb + s + m)), (Z.ltb_spec i (s + m)); done || lia.
  - intros k' Hk' Hk. apply blk_ext. intros i Hi. rewrite Hb by nia.
    destruct (Z.leb_spec (k * fpb + s) (k' * fpb + i)); [|done].
    destruct (Z.ltb_spec (k' * fpb + i) (k * fpb + s + m)); [|done].
    destruct (decide (k' < k)); nia.
Qed.

Lemma range_is_blk b fpb k s m v :
  0 <= s -> s + m <= fpb ->
  range_is (blk b fpb k) s m v = true <->
  forall j, k * fpb + s <= j < k * fpb + s + m -> bit_test b CG_FREE_OFF j = v.
Proof.
  intros Hs Hm. unfold range_is. rewrite forallb_seqZ. split; intros H j Hj.
  - specialize (H (j - k * fpb) ltac:(lia)). apply eqb_prop in H.
    rewrite blk_nth in H by lia. rewrite <- H. f_equal. lia.
  - rewrite blk_nth by lia. rewrite H by lia. apply eqb_reflx.
Qed.

Lemma clear_block_bits_after b lo m : bits_after (clear_block_bits b lo m) b lo m false.
Proof.
  intros j _. rewrite clear_block_bits_test. by destruct ((lo <=? j) && (j <? lo + m)).
Qed.
Lemma set_free_bits_after b lo m b' :
  set_free_bits b (seqZ lo m) = Some b' ->
  bits_after b' b lo m true /\
  forall j, lo <= j < lo + m -> bit_test b CG_FREE_OFF j = false.
Proof.
  intros (Hf & _ & Ht)%set_free_bits_spec. split.
  - intros j _. rewrite Ht. destruct (Z.leb_spec lo j), (Z.ltb_spec j (lo + m));
    first [ rewrite bool_decide_true by (apply elem_of_seqZ; lia)
          | rewrite bool_decide_false by (rewrite elem_of_seqZ; lia) ]; done.
  - intros j Hj. apply Hf, elem_of_seqZ. done.
Qed.

Lemma bits_after_trans a b c lo m v :
  (forall j, 0 <= j -> bit_test a CG_FREE_OFF j = bit_test b CG_FREE_OFF j) ->
  bits_after b c lo m v -> bits_after a c lo m v.
Proof. intros H1 H2 j Hj. by rewrite H1, H2. Qed.

(** Header words do not overlap the map. *)
Lemma bit_test_high a b j :
  (forall i, CG_FREE_OFF <= i -> a i = b i) -> 0 <= j ->
  bit_test a CG_FREE_OFF j = bit_test b CG_FREE_OFF j.
Proof.
  intros H Hj. apply bit_test_byte, H. pose proof (Z.div_pos j 8 Hj ltac:(lia)). lia.
Qed.

Lemma add_be32_out b off d i : ~ (off <= i < off + 4) -> add_be32 b off d i = b i.
Proof. apply write_be32_out. Qed.
Lemma read_add_be32 b off d : read_be32 (add_be32 b off d) off = w32 (read_be32 b off + d).
Proof. apply read_write_be32. Qed.
Lemma bit_set_out b off j i : i <> off + j / 8 -> bit_set b off j i = b i.
Proof. intros. by apply upd_other, not_eq_sym. Qed.
Lemma bit_clear_out b off j i : i <> off + j / 8 -> bit_clear b off j i = b i.
Proof. intros. by apply upd_other, not_eq_sym. Qed.
Lemma clear_block_bits_out b lo m i :
  0 <= lo -> i < CG_FREE_OFF -> clear_block_bits b lo m i = b i.
Proof.
  intros Hlo Hi. unfold clear_block_bits.
  assert (forall l b, Forall (fun k => 0 <= k) l ->
    foldl (fun b k => bit_clear b CG_FREE_OFF (lo + k)) b l i = b i) as Hgen.
  { intros l. induction l as [|k l IH]; intros b0 Hall; cbn; [done|].
    apply Forall_cons in Hall as [Hk Hall]. rewrite IH by done.
    apply bit_clear_out. pose proof (Z.div_pos (lo + k) 8 ltac:(lia) ltac:(lia)). lia. }
  apply Hgen, Forall_forall. intros k Hk%elem_of_seqZ. lia.
Qed.
Lemma set_free_bits_out bits : forall b b' i,
  set_free_bits b bits = Some b' -> Forall (fun k => 0 <= k) bits ->
  i < CG_FREE_OFF -> b' i = b i.
Proof.
  induction bits as [|k bits IH]; intros b b' i H Hall Hi; cbn in H; [by simplify_eq|].
  apply Forall_cons in Hall as [Hk Hall]. case_match; [done|].
  rewrite (IH _ _ _ H) by done. apply bit_set_out.
  pose proof (Z.div_pos k 8 ltac:(lia) ltac:(lia)). lia.
Qed.
Lemma set_free_bits_wf bits : forall b b',
  set_free_bits b bits = Some b' -> wf_buf b -> wf_buf b'.
Proof.
  induction bits as [|k bits IH]; intros b b' H Hb; cbn in H; [by simplify_eq|].
  case_match; [done|]. eapply IH; [done|]. auto with bytes.
Qed.
Lemma clear_block_bits_wf b lo m : wf_buf b -> wf_buf (clear_block_bits b lo m).
Proof.
  unfold clear_block_bits. generalize (seqZ 0 m). intros l. revert b.
  induction l as [|k l IH]; intros b Hb; cbn; [done|]. auto with bytes.
Qed.
#[export] Hint Resolve clear_block_bits_wf : bytes.

(** ** The run summary after a delta *)
Definition frsum_step (before after : list Z) (b : buf) (i : Z) : buf :=
  let frsum_off := CG_FRSUM_OFF + i * 4 in
  let v := read_be32 b frsum_off in
  let delta := nth (Z.to_nat i) after 0 - nth (Z.to_nat i) before 0 in
  if delta =? 0 then b else write_be32 b frsum_off (v + delta).

Lemma frsum_fold before after l : forall b,
  NoDup l -> wf_buf b ->
  let b' := foldl (frsum_step before after) b l in
  wf_buf b' /\
  (forall o, Forall (fun i => ~ (CG_FRSUM_OFF + i * 4 <= o < CG_FRSUM_OFF + i * 4 + 4)) l ->
     b' o = b o) /\
  (forall j, j ∈ l -> read_be32 b' (CG_FRSUM_OFF + j * 4) =
     w32 (read_be32 b (CG_FRSUM_OFF + j * 4) +
          (nth (Z.to_nat j) after 0 - nth (Z.to_nat j) before 0))).
Proof.
  induction l as [|i l IH]; intros b Hnd Hb; cbn [foldl].
  { split_and!; [done|done|]. by intros j ?%elem_of_nil. }
  apply NoDup_cons in Hnd as [Hi Hnd].
  assert (Hstep : wf_buf (frsum_step before after b i) /\
    (forall o, ~ (CG_FRSUM_OFF + i * 4 <= o < CG_FRSUM_OFF + i * 4 + 4) ->
       frsum_step before after b i o = b o) /\
    read_be32 (frsum_step before after b i) (CG_FRSUM_OFF + i * 4) =
      w32 (read_be32 b (CG_FRSUM_OFF + i * 4) +
           (nth (Z.to_nat i) after 0 - nth (Z.to_nat i) before 0))).
  { unfold frsum_step. case_match eqn:E.
    - apply Z.eqb_eq in E. rewrite E, Z.add_0_r, w32_small by by apply read_be32_range. done.
    - split_and!; [auto with bytes|intros; by apply write_be32_out|apply read_write_be32]. }
  destruct Hstep as (Hw & Hout & Hval).
  destruct (IH (frsum_step before after b i) Hnd Hw) as (Hw' & Hout' & Hval').
  split_and!; [done| |].
  - intros o [Ho Hall]%Forall_cons. rewrite Hout' by done. by apply Hout.
  - intros j [->|Hj]%elem_of_cons.
    + rewrite <- Hval. apply read_be32_eq_on. intros o Ho. apply Hout', Forall_forall.
      intros x Hx ?. assert (x = i) by lia. by subst.
    + rewrite Hval' by done. do 2 f_equal. apply read_be32_eq_on. intros o Ho. apply Hout.
      intros ?. assert (j = i) by lia. by subst.
Qed.

Lemma apply_delta_spec b before after fpb :
  wf_buf b ->
  let b' := apply_cg_frsum_delta b before after fpb in
  wf_buf b' /\
  (forall o, ~ (CG_FRSUM_OFF + 4 <= o < CG_FRSUM_OFF + fpb * 4) -> b' o = b o) /\
  (forall j, 1 <= j < fpb -> read_be32 b' (CG_FRSUM_OFF + j * 4) =
     w32 (read_be32 b (CG_FRSUM_OFF + j * 4) +
          (nth (Z.to_nat j) after 0 - nth (Z.to_nat j) before 0))).
Proof.
  intros Hb b'. change b' with (foldl (frsum_step before after) b (seqZ 1 (fpb - 1))).
  destruct (frsum_fold before after (seqZ 1 (fpb - 1)) b) as (Hw & Hout & Hval);
    [apply NoDup_seqZ|done|].
  split_and!; [done| |].
  - intros o Ho. apply Hout, Forall_forall. intros i Hi%elem_of_seqZ. lia.
  - intros j Hj. apply Hval, elem_of_seqZ. lia.
Qed.

Lemma run_table_nth fpb l j :
  1 <= j < fpb -> nth (Z.to_nat j) (run_table fpb l) 0 = run_count j l.
Proof.
  intros Hj. unfold run_table.
  rewrite (nth_map_seqZ (fun j => if (0 <? j) && (j <? fpb) then run_count j l else 0)) by lia.
  destruct (Z.ltb_spec 0 j), (Z.ltb_spec j fpb); done || lia.
Qed.

(** The rotational tables lie between the run summary and the inode map. *)
Lemma adjust_positions_spec s b lf d :
  0 < sectors_per_cyl s -> 0 < sectors_per_track s -> wf_buf b ->
  wf_buf (adjust_positions s b lf d) /\
  forall o, ~ (CG_BTOT_OFF <= o < CG_IUSED_OFF) -> adjust_positions s b lf d o = b o.
Proof.
  intros Hc Ht Hb. unfold adjust_positions.
  set (sector := w32 _). set (cyl := sector / _). set (rot := w32 _ / _).
  assert (0 <= cyl) by (apply Z.div_pos; [apply w32_range|done]).
  assert (0 <= rot) by (apply Z.div_pos; [apply w32_range|done]).
  unfold CG_BTOT_OFF, CG_BPOS_OFF, CG_IUSED_OFF, NRPOS in *. case_match eqn:E.
  - apply andb_true_iff in E as [E1 E2]. apply Z.ltb_lt in E1, E2.
    split; [auto with bytes|]. intros o Ho.
    rewrite write_be16_out, add_be32_out by lia. done.
  - done.
Qed.

(** ** The accounting invariant of one group *)
Definition blocks (s : superblock) (b : buf) : Z :=
  (read_be32 b CG_NDBLK_OFF + frags_per_block s - 1) / frags_per_block s.

(** The counters of the header agree with its map, and no fragment beyond the
    group's real size is marked free. *)
Record acct (s : superblock) (b : buf) : Prop := Acct {
  ac_blocks : read_be32 b CG_CS_NBFREE_OFF =
    sumZ (fun k => whole_count (blk b (frags_per_block s) k)) (blocks s b);
  ac_frags : read_be32 b CG_CS_NFFREE_OFF =
    sumZ (fun k => frag_count_of (blk b (frags_per_block s) k)) (blocks s b);
  ac_runs : forall j, 1 <= j < frags_per_block s ->
    read_be32 b (CG_FRSUM_OFF + j * 4) =
    sumZ (fun k => run_count j (blk b (frags_per_block s) k)) (blocks s b);
  ac_tail : forall i, read_be32 b CG_NDBLK_OFF <= i < blocks s b * frags_per_block s ->
    bit_test b CG_FREE_OFF i = false;
}.

(** A group small enough for its map: what image validation and the limit test
    of the allocator give. *)
Definition group_small (s : superblock) (b : buf) : Prop :=
  In (frags_per_block s) block_sizes /\ read_be32 b CG_NDBLK_OFF <= 2 ^ 20.

Lemma block_size_pos fpb : In fpb block_sizes -> 1 <= fpb <= 8.
Proof. cbn. lia. Qed.

Lemma counts_bounded fpb b k j :
  In fpb block_sizes ->
  0 <= whole_count (blk b fpb k) <= 8 /\ 0 <= frag_count_of (blk b fpb k) <= 8 /\
  0 <= run_count j (blk b fpb k) <= 8.
Proof.
  intros Hf.
  assert (every_block (fun n l => (0 <=? whole_count l) && (whole_count l <=? 8) &&
    (0 <=? frag_count_of l) && (frag_count_of l <=? 8) &&
    (Z.of_nat (length (runs l 0)) <=? 8)) = true) as H by (vm_compute; reflexivity).
  eapply every_block_spec in H; [|exact Hf|apply (blk_length b fpb k)].
  cbn beta in H. rewrite !andb_true_iff, !Z.leb_le in H.
  pose proof (length_filter (fun r => r = j) (runs (blk b fpb k) 0)) as Hl.
  unfold run_count. lia.
Qed.

Lemma blocks_bound s b : wf_buf b -> group_small s b ->
  0 <= blocks s b <= 2 ^ 20 + 8 /\
  read_be32 b CG_NDBLK_OFF <= blocks s b * frags_per_block s.
Proof.
  intros Hb [Hf Hl]. pose proof (block_size_pos _ Hf).
  pose proof (read_be32_range b Hb CG_NDBLK_OFF). unfold blocks.
  set (n := read_be32 b CG_NDBLK_OFF) in *. set (f := frags_per_block s) in *.
  pose proof (Z.div_mod (n + f - 1) f ltac:(lia)).
  pose proof (Z.mod_pos_bound (n + f - 1) f ltac:(lia)).
  split; [|nia]. split; [apply Z.div_pos; lia|]. apply Z.div_le_upper_bound; nia.
Qed.

(** A counter that moves by the change of one block's contribution still agrees
    with the map. *)
Lemma counter_step (f : list bool -> Z) fpb n b b' k off :
  0 <= k < n -> n <= 2 ^ 20 + 8 -> (forall k, 0 <= f (blk b' fpb k) <= 8) ->
  (forall k', 0 <= k' -> k' <> k -> blk b' fpb k' = blk b fpb k') ->
  read_be32 b off = sumZ (fun k => f (blk b fpb k)) n ->
  read_be32 b' off = w32 (read_be32 b off + (f (blk b' fpb k) - f (blk b fpb k))) ->
  read_be32 b' off = sumZ (fun k => f (blk b' fpb k)) n.
Proof.
  intros Hk Hn Hf Hsame H0 ->.
  rewrite H0, (sumZ_update (fun k => f (blk b fpb k)) (fun k => f (blk b' fpb k)) n k Hk)
    by (intros j ??; by rewrite Hsame by lia).
  pose proof (sumZ_bounds (fun k => f (blk b' fpb k)) 8 n ltac:(lia) Hf) as Hb.
  rewrite (sumZ_update (fun k => f (blk b fpb k)) (fun k => f (blk b' fpb k)) n k Hk) in Hb
    by (intros j ??; by rewrite Hsame by lia).
  rewrite w32_small; lia.
Qed.

Lemma acct_step s b b' lo m v k off :
  let fpb := frags_per_block s in
  wf_buf b -> group_small s b -> acct s b ->
  0 <= k < blocks s b -> 0 <= off -> 0 <= m -> off + m <= fpb -> lo = k * fpb + off ->
  lo + m <= read_be32 b CG_NDBLK_OFF ->
  bits_after b' b lo m v ->
  read_be32 b' CG_NDBLK_OFF = read_be32 b CG_NDBLK_OFF ->
  (forall f c, In (f, c) [(whole_count, CG_CS_NBFREE_OFF); (frag_count_of, CG_CS_NFFREE_OFF)] ->
     read_be32 b' c = w32 (read_be32 b c +
       (f (set_range (blk b fpb k) off m v) - f (blk b fpb k)))) ->
  (forall j, 1 <= j < fpb -> read_be32 b' (CG_FRSUM_OFF + j * 4) =
     w32 (read_be32 b (CG_FRSUM_OFF + j * 4) +
       (run_count j (set_range (blk b fpb k) off m v) - run_count j (blk b fpb k)))) ->
  acct s b'.
Proof.
  intros fpb Hb Hs [A1 A2 A3 A4] Hk Ho Hm Hom -> Hlim Hbits Hnd Hc Hr.
  pose proof (blocks_bound s b Hb Hs) as [Hn _]. destruct Hs as [Hf _].
  pose proof (block_size_pos _ Hf).
  destruct (blk_set_range b' b fpb k off m v) as [Hblk Hsame];
    [subst fpb; lia|lia|done|done|done|].
  assert (Hbl : blocks s b' = blocks s b) by (unfold blocks; by rewrite Hnd).
  assert (Hcb : forall j k, 0 <= whole_count (blk b' fpb k) <= 8 /\
    0 <= frag_count_of (blk b' fpb k) <= 8 /\ 0 <= run_count j (blk b' fpb k) <= 8)
    by (intros; by apply counts_bounded).
  constructor; rewrite ?Hbl.
  - apply (counter_step whole_count fpb _ b b' k); try done; [lia| |].
    + intros k0. by apply (Hcb 0).
    + rewrite Hblk. apply Hc. by left.
  - apply (counter_step frag_count_of fpb _ b b' k); try done; [lia| |].
    + intros k0. by apply (Hcb 0).
    + rewrite Hblk. apply Hc. by right; left.
  - intros j Hj. apply (counter_step (run_count j) fpb _ b b' k); try done; [lia| | |].
    + intros k0. by apply (Hcb j).
    + by apply A3.
    + rewrite Hblk. by apply Hr.
  - intros i Hi. rewrite Hnd in Hi. pose proof (read_be32_range b Hb CG_NDBLK_OFF).
    rewrite Hbits by lia. destruct (Z.leb_spec (k * fpb + off) i), 
      (Z.ltb_spec i (k * fpb + off + m)); cbn [andb]; try (by apply A4).
    lia.
Qed.

(** ** Taking part of a split block *)
Lemma take_fragments_spec b fpb base start m now :
  wf_buf b -> 0 <= start -> fpb <= 8 ->
  let b' := take_fragments b fpb base start m now in
  let before := count_free_runs_in_block b base fpb in
  let after := count_free_runs_in_block (clear_block_bits b start m) base fpb in
  wf_buf b' /\ bits_after b' b start m false /\
  read_be32 b' CG_CS_NFFREE_OFF = w32 (read_be32 b CG_CS_NFFREE_OFF - m) /\
  (forall j, 1 <= j < fpb -> read_be32 b' (CG_FRSUM_OFF + j * 4) =
     w32 (read_be32 b (CG_FRSUM_OFF + j * 4) +
          (nth (Z.to_nat j) after 0 - nth (Z.to_nat j) before 0))) /\
  (forall o, o < CG_FREE_OFF -> ~ (8 <= o < 12) -> ~ (36 <= o < 40) -> ~ (56 <= o < 84) ->
     b' o = b o).
Proof.
  intros Hb Hst Hf b' before after.
  assert (Hc : wf_buf (clear_block_bits b start m)) by auto with bytes.
  destruct (apply_delta_spec (clear_block_bits b start m) before after fpb Hc)
    as (Hw & Hout & Hval). unfold b', take_fragments. fold before after.
  set (b1 := apply_cg_frsum_delta _ _ _ _) in *.
  unfold CG_CS_NFFREE_OFF, CG_TIME_OFF, CG_FRSUM_OFF in *.
  split_and!.
  - auto with bytes.
  - apply bits_after_trans with (clear_block_bits b start m); [|apply clear_block_bits_after].
    intros j Hj. apply bit_test_high; [|done]. intros i Hi. unfold CG_FREE_OFF in Hi.
    rewrite write_be32_out, add_be32_out by lia. apply Hout. lia.
  - rewrite read_be32_write_other, read_add_be32 by lia. f_equal. unfold Z.sub. f_equal.
    apply read_be32_eq_on. intros i Hi. rewrite Hout by lia.
    apply clear_block_bits_out; unfold CG_FREE_OFF; lia.
  - intros j Hj.
    rewrite (read_be32_eq_on _ b1) by (intros i Hi; rewrite write_be32_out, add_be32_out by lia; done).
    rewrite Hval by done. do 2 f_equal. apply read_be32_eq_on. intros i Hi.
    apply clear_block_bits_out; unfold CG_FREE_OFF; lia.
  - intros o Ho ???. rewrite write_be32_out, add_be32_out, Hout by lia.
    by apply clear_block_bits_out.
Qed.

Lemma check_partial : every_range (fun n l s m =>
  negb (range_is l s m true) || entire l ||
  (negb (entire (set_range l s m false)) &&
   (frag_count_of (set_range l s m false) =? frag_count_of l - m) &&
   (m <=? frag_count_of l))) = true.
Proof. vm_compute. reflexivity. Qed.

(** Counters of a block that loses a proper part. *)
Lemma partial_counts n l s m :
  In n block_sizes -> length l = Z.to_nat n -> 0 <= s -> 0 < m -> s + m <= n ->
  range_is l s m true = true -> entire l = false ->
  entire (set_range l s m false) = false /\
  frag_count_of (set_range l s m false) = frag_count_of l - m /\ m <= frag_count_of l.
Proof.
  intros Hn Hl Hs Hm Hsm Hr He.
  pose proof (every_range_spec _ n l s m check_partial Hn Hl Hs Hm Hsm) as H.
  cbn beta in H. rewrite Hr, He in H. cbn [negb orb] in H.
  rewrite !andb_true_iff, negb_true_iff, Z.eqb_eq, Z.leb_le in H. tauto.
Qed.

Lemma take_fragments_acct s b k off m now :
  let fpb := frags_per_block s in
  let b' := take_fragments b fpb (k * fpb) (k * fpb + off) m now in
  wf_buf b -> group_small s b -> acct s b -> 0 <= k < blocks s b ->
  0 <= off -> 0 < m -> off + m <= fpb ->
  k * fpb + off + m <= read_be32 b CG_NDBLK_OFF ->
  range_is (blk b fpb k) off m true = true -> entire (blk b fpb k) = false ->
  acct s b' /\ read_be32 b' CG_CS_NFFREE_OFF = read_be32 b CG_CS_NFFREE_OFF - m.
Proof.
  intros fpb b' Hb Hs Ha Hk Ho Hm Hom Hlim Hr He. pose proof Hs as [Hf _].
  pose proof (block_size_pos _ Hf).
  destruct (take_fragments_spec b fpb (k * fpb) (k * fpb + off) m now)
    as (Hw & Hbits & Hn & Hruns & Hout); [done|subst fpb; nia|subst fpb; lia|].
  fold b' in Hw, Hbits, Hn, Hruns, Hout.
  assert (Hl : length (blk b fpb k) = Z.to_nat fpb) by apply blk_length.
  destruct (partial_counts fpb _ off m Hf Hl Ho Hm Hom Hr He) as (He' & Hfc & Hle).
  destruct (blk_set_range (clear_block_bits b (k * fpb + off) m) b fpb k off m false)
    as [Hblk _]; [subst fpb; lia|lia|done|done|apply clear_block_bits_after|].
  split.
  - apply (acct_step s b b' (k * fpb + off) m false k off); try done; [lia| | |].
    + apply read_be32_eq_on. unfold CG_NDBLK_OFF. intros i Hi.
      apply Hout; unfold CG_FREE_OFF; lia.
    + intros f c [[= <- <-]|[[= <- <-]|[]]].
      * unfold whole_count. fold fpb. rewrite He, He', Z.sub_diag, Z.add_0_r.
        rewrite w32_small by by apply read_be32_range.
        apply read_be32_eq_on. unfold CG_CS_NBFREE_OFF. intros i Hi.
        apply Hout; unfold CG_FREE_OFF; lia.
      * rewrite Hn. f_equal. fold fpb. lia.
    + intros j Hj. rewrite Hruns by done. do 2 f_equal. fold fpb.
      rewrite !count_free_runs_table by done. rewrite Hblk, !run_table_nth by done. done.
  - rewrite Hn, w32_small; [done|].
    pose proof (read_be32_range b Hb CG_CS_NFFREE_OFF).
    pose proof (ac_frags _ _ Ha) as Hsum. fold fpb in Hsum.
    pose proof (sumZ_term (fun k => frag_count_of (blk b fpb k)) (blocks s b) k Hk) as Ht.
    cbn beta in Ht. specialize (Ht ltac:(intros j; by apply (counts_bounded fpb b j 0))).
    lia.
Qed.

(** ** Splitting a free block *)
Lemma check_whole : every_range (fun n l s m =>
  negb (s =? 0) || negb (entire l) ||
  let l' := set_range l s m false in
  (whole_count l' =? 0) && (frag_count_of l' =? n - m) && (frag_count_of l =? 0) &&
  forallb (fun j => run_count j l' - run_count j l =? (if j =? n - m then 1 else 0))
    (seqZ 1 (n - 1))) = true.
Proof. vm_compute. reflexivity. Qed.

Lemma whole_counts n l m :
  In n block_sizes -> length l = Z.to_nat n -> 0 < m <= n -> entire l = true ->
  let l' := set_range l 0 m false in
  whole_count l' = 0 /\ frag_count_of l' = n - m /\ frag_count_of l = 0 /\
  forall j, 1 <= j < n ->
    run_count j l' - run_count j l = if j =? n - m then 1 else 0.
Proof.
  intros Hn Hl Hm He.
  pose proof (every_range_spec _ n l 0 m check_whole Hn Hl ltac:(lia) ltac:(lia) ltac:(lia)) as H.
  cbn beta zeta in H. rewrite He in H. cbn [negb orb Z.eqb] in H.
  rewrite !andb_true_iff, !Z.eqb_eq, forallb_seqZ in H. destruct H as [[[? ?] ?] Hj].
  split_and!; try done. intros j ?. apply Z.eqb_eq, Hj. lia.
Qed.

Lemma take_block_spec s b lf m now :
  wf_buf b -> 0 <= lf -> 0 < m <= frags_per_block s -> frags_per_block s <= 8 ->
  0 < sectors_per_cyl s -> 0 < sectors_per_track s ->
  let b' := take_block s b lf m now in
  let d := frags_per_block s - m in
  wf_buf b' /\ bits_after b' b lf m false /\
  read_be32 b' CG_CS_NBFREE_OFF = w32 (read_be32 b CG_CS_NBFREE_OFF - 1) /\
  read_be32 b' CG_CS_NFFREE_OFF = w32 (read_be32 b CG_CS_NFFREE_OFF + d) /\
  (forall j, 1 <= j < frags_per_block s -> read_be32 b' (CG_FRSUM_OFF + j * 4) =
     w32 (read_be32 b (CG_FRSUM_OFF + j * 4) + if j =? d then 1 else 0)) /\
  (forall o, o < CG_FREE_OFF -> ~ (8 <= o < 12) -> ~ (28 <= o < 32) -> ~ (36 <= o < 44) ->
     ~ (56 <= o < 84) -> ~ (CG_BTOT_OFF <= o < CG_IUSED_OFF) -> b' o = b o).
Proof.
  intros Hb Hlf Hm Hf Hc Ht b' d.
  assert (Hclr : wf_buf (clear_block_bits b lf m)) by auto with bytes.
  set (b1 := clear_block_bits b lf m) in *.
  set (b2 := write_be32 b1 CG_ROTOR_OFF lf).
  set (b3 := add_be32 b2 CG_CS_NBFREE_OFF (-1)).
  set (b4 := add_be32 b3 CG_CS_NFFREE_OFF d).
  set (b5 := if 0 <? d then add_be32 b4 (CG_FRSUM_OFF + d * 4) 1 else b4).
  set (b6 := write_be32 b5 CG_TIME_OFF now).
  change b' with (adjust_positions s b6 lf (-1)).
  assert (H5 : wf_buf b5 /\ forall o, ~ (0 < d /\ CG_FRSUM_OFF + d * 4 <= o < CG_FRSUM_OFF + d * 4 + 4) ->
    b5 o = b4 o).
  { unfold b5. destruct (Z.ltb_spec 0 d); split; try (unfold b4, b3, b2; by auto with bytes).
    intros o Ho. apply add_be32_out. lia. }
  destruct H5 as [H5w H5o].
  destruct (adjust_positions_spec s b6 lf (-1) Hc Ht) as [Hw Hout]; [unfold b6; auto with bytes|].
  assert (Hlow : forall o, o < CG_FREE_OFF -> b1 o = b o)
    by (intros; by apply clear_block_bits_out).
  unfold CG_CS_NFFREE_OFF, CG_CS_NBFREE_OFF, CG_ROTOR_OFF, CG_TIME_OFF, CG_FRSUM_OFF,
    CG_BTOT_OFF, CG_IUSED_OFF, CG_FREE_OFF in *.
  assert (Hword : forall o, o + 4 <= 84 ->
    read_be32 (adjust_positions s b6 lf (-1)) o = read_be32 b6 o).
  { intros o Ho. apply read_be32_eq_on. intros i Hi. apply Hout. lia. }
  split_and!.
  - done.
  - apply bits_after_trans with b1; [|apply clear_block_bits_after].
    intros j Hj. apply bit_test_high; [|done]. unfold CG_FREE_OFF. intros i Hi.
    rewrite Hout by lia. unfold b6. rewrite write_be32_out, H5o by lia.
    unfold b4, b3, b2. by rewrite !add_be32_out, write_be32_out by lia.
  - rewrite Hword by lia. unfold b6. rewrite read_be32_write_other by lia.
    rewrite (read_be32_eq_on b5 b3) by
      (intros i Hi; rewrite H5o by lia; apply add_be32_out; lia).
    unfold b3. rewrite read_add_be32. unfold b2. rewrite read_be32_write_other by lia.
    f_equal. unfold Z.sub. f_equal. apply read_be32_eq_on. intros i Hi. apply Hlow. lia.
  - rewrite Hword by lia. unfold b6. rewrite read_be32_write_other by lia.
    rewrite (read_be32_eq_on b5 b4) by (intros i Hi; apply H5o; lia).
    unfold b4. rewrite read_add_be32. do 2 f_equal. apply read_be32_eq_on. intros i Hi.
    unfold b3, b2. rewrite add_be32_out, write_be32_out by lia. apply Hlow. lia.
  - intros j Hj. rewrite Hword by lia. unfold b6. rewrite read_be32_write_other by lia.
    assert (H4 : read_be32 b4 (52 + j * 4) = read_be32 b (52 + j * 4)).
    { apply read_be32_eq_on. intros i Hi. unfold b4, b3, b2.
      rewrite !add_be32_out, write_be32_out by lia. apply Hlow. lia. }
    unfold b5. destruct (Z.eqb_spec j d) as [->|Hne].
    + destruct (Z.ltb_spec 0 d); [|lia]. by rewrite read_add_be32, H4.
    + rewrite Z.add_0_r, w32_small by by apply read_be32_range. rewrite <- H4.
      destruct (0 <? d); [|done]. apply read_be32_eq_on. intros i Hi. apply add_be32_out. lia.
  - intros o ??????. rewrite Hout by lia. unfold b6. rewrite write_be32_out, H5o by lia.
    unfold b4, b3, b2. rewrite !add_be32_out, write_be32_out by lia. by apply Hlow.
Qed.

Lemma take_block_acct s b k m now :
  let fpb := frags_per_block s in
  let b' := take_block s b (k * fpb) m now in
  wf_buf b -> group_small s b -> acct s b -> 0 <= k < blocks s b ->
  0 < sectors_per_cyl s -> 0 < sectors_per_track s -> 0 < m <= fpb ->
  k * fpb + m <= read_be32 b CG_NDBLK_OFF -> entire (blk b fpb k) = true ->
  acct s b' /\ read_be32 b' CG_CS_NBFREE_OFF = read_be32 b CG_CS_NBFREE_OFF - 1 /\
  read_be32 b' CG_CS_NFFREE_OFF = read_be32 b CG_CS_NFFREE_OFF + (fpb - m).
Proof.
  intros fpb b' Hb Hs Ha Hk Hc Ht Hm Hlim He. pose proof Hs as [Hf _].
  pose proof (block_size_pos _ Hf).
  destruct (take_block_spec s b (k * fpb) m now)
    as (Hw & Hbits & Hnb & Hnf & Hruns & Hout); try done; [subst fpb; nia|lia|].
  fold b' in Hw, Hbits, Hnb, Hnf, Hruns, Hout. fold fpb in Hnf, Hruns.
  assert (Hl : length (blk b fpb k) = Z.to_nat fpb) by apply blk_length.
  destruct (whole_counts fpb _ m Hf Hl ltac:(lia) He) as (Hwc & Hfc & Hf0 & Hrc).
  assert (Hwc0 : whole_count (blk b fpb k) = 1) by (unfold whole_count; by rewrite He).
  assert (Hacct : acct s b').
  { apply (acct_step s b b' (k * fpb) m false k 0); try done; try lia.
    - apply read_be32_eq_on. unfold CG_NDBLK_OFF. intros i Hi.
      apply Hout; unfold CG_FREE_OFF, CG_BTOT_OFF; lia.
    - intros f c [[= <- <-]|[[= <- <-]|[]]]; fold fpb.
      + by rewrite Hnb, Hwc, Hwc0.
      + rewrite Hnf, Hfc, Hf0. f_equal. lia.
    - intros j Hj. rewrite Hruns by done. do 2 f_equal. fold fpb. by rewrite Hrc. }
  split; [done|].
  pose proof (ac_blocks _ _ Ha) as Hsb. pose proof (ac_frags _ _ Ha) as Hsf.
  pose proof (ac_blocks _ _ Hacct) as Hsb'. pose proof (ac_frags _ _ Hacct) as Hsf'.
  pose proof (read_be32_range b Hb CG_CS_NBFREE_OFF).
  pose proof (blocks_bound s b Hb Hs) as [Hn _].
  pose proof (sumZ_term (fun k => whole_count (blk b fpb k)) (blocks s b) k Hk) as Ht1.
  cbn beta in Ht1. specialize (Ht1 ltac:(intros j; by apply (counts_bounded fpb b j 0))).
  pose proof (sumZ_bounds (fun k => frag_count_of (blk b fpb k)) 8 (blocks s b) ltac:(lia)
    ltac:(intros j; by apply (counts_bounded fpb b j 0))).
  fold fpb in Hsb, Hsf. rewrite Hnb, Hnf, !w32_small; lia.
Qed.

(** ** Returning a run *)
Lemma check_give : every_range (fun n l s m =>
  negb (range_is l s m false) ||
  let l' := set_range l s m true in
  (whole_count l' - whole_count l =? (if entire l' then 1 else 0)) &&
  (frag_count_of l' - frag_count_of l =? (if entire l' then m - n else m))) = true.
Proof. vm_compute. reflexivity. Qed.

Lemma give_counts n l s m :
  In n block_sizes -> length l = Z.to_nat n -> 0 <= s -> 0 < m -> s + m <= n ->
  range_is l s m false = true ->
  let l' := set_range l s m true in
  whole_count l' - whole_count l = (if entire l' then 1 else 0) /\
  frag_count_of l' - frag_count_of l = (if entire l' then m - n else m).
Proof.
  intros Hn Hl Hs Hm Hsm Hr.
  pose proof (every_range_spec _ n l s m check_give Hn Hl Hs Hm Hsm) as H.
  cbn beta zeta in H. rewrite Hr in H. cbn [negb orb] in H.
  by rewrite andb_true_iff, !Z.eqb_eq in H.
Qed.

Lemma block_is_free_blk b fpb k :
  block_is_free b (k * fpb) fpb = entire (blk b fpb k).
Proof.
  unfold block_is_free, entire, blk. induction (seqZ 0 fpb) as [|i l IH]; cbn; [done|].
  by rewrite IH.
Qed.

Lemma block_base_eq fpb k off :
  0 <= off < fpb -> (k * fpb + off) - (k * fpb + off) mod fpb = k * fpb.
Proof.
  intros H. rewrite Z.add_comm, Z_mod_plus_full, Z.mod_small by lia. lia.
Qed.

Lemma give_fragments_spec s b k off m now b' dnb dnf :
  let fpb := frags_per_block s in
  wf_buf b -> In fpb block_sizes -> 0 <= k -> 0 <= off -> 0 < m -> off + m <= fpb ->
  0 < sectors_per_cyl s -> 0 < sectors_per_track s ->
  give_fragments s b (k * fpb + off) m now = Some (b', dnb, dnf) ->
  let l' := set_range (blk b fpb k) off m true in
  wf_buf b' /\ bits_after b' b (k * fpb + off) m true /\
  range_is (blk b fpb k) off m false = true /\
  dnb = (if entire l' then 1 else 0) /\ dnf = (if entire l' then m - fpb else m) /\
  read_be32 b' CG_CS_NBFREE_OFF = w32 (read_be32 b CG_CS_NBFREE_OFF + dnb) /\
  read_be32 b' CG_CS_NFFREE_OFF = w32 (read_be32 b CG_CS_NFFREE_OFF + dnf) /\
  (forall j, 1 <= j < fpb -> read_be32 b' (CG_FRSUM_OFF + j * 4) =
     w32 (read_be32 b (CG_FRSUM_OFF + j * 4) +
          (run_count j l' - run_count j (blk b fpb k)))) /\
  (forall o, o < CG_FREE_OFF -> ~ (8 <= o < 12) -> ~ (28 <= o < 32) -> ~ (36 <= o < 40) ->
     ~ (56 <= o < 84) -> ~ (CG_BTOT_OFF <= o < CG_IUSED_OFF) -> b' o = b o).
Proof.
  intros fpb Hb Hf Hk Ho Hm Hom Hc Ht Hg l'. pose proof (block_size_pos _ Hf).
  unfold give_fragments in Hg. fold fpb in Hg. rewrite block_base_eq in Hg by lia.
  destruct (set_free_bits _ _) as [b1|] eqn:E; [|done].
  pose proof (set_free_bits_after _ _ _ _ E) as [Hb1 Hfree].
  pose proof (set_free_bits_wf _ _ _ E Hb) as Hw1.
  assert (Hlow1 : forall o, o < CG_FREE_OFF -> b1 o = b o).
  { intros o. eapply set_free_bits_out; [done|]. apply Forall_forall.
    intros x Hx%elem_of_seqZ. nia. }
  destruct (blk_set_range b1 b fpb k off m true) as [Hblk _]; [lia|done|done|done|done|].
  fold l' in Hblk. rewrite !count_free_runs_table, Hblk in Hg by done.
  destruct (apply_delta_spec b1 (run_table fpb (blk b fpb k)) (run_table fpb l') fpb Hw1)
    as (Hw2 & Hout2 & Hval2).
  set (b2 := apply_cg_frsum_delta _ _ _ _) in *.
  assert (Hfull : block_is_free b2 (k * fpb) fpb = entire l').
  { rewrite block_is_free_blk, <- Hblk. f_equal. apply blk_ext. intros i Hi.
    apply bit_test_high; [|nia]. unfold CG_FREE_OFF, CG_FRSUM_OFF in *.
    intros o Hoo. apply Hout2. lia. }
  rewrite Hfull in Hg.
  assert (Hframe2 : forall o, o < CG_FREE_OFF -> ~ (56 <= o < 84) -> b2 o = b o).
  { intros o Hoo Hno. unfold CG_FRSUM_OFF in *. rewrite Hout2 by lia. by apply Hlow1. }
  assert (Hruns2 : forall j, 1 <= j < fpb -> read_be32 b2 (CG_FRSUM_OFF + j * 4) =
     w32 (read_be32 b (CG_FRSUM_OFF + j * 4) +
          (run_count j l' - run_count j (blk b fpb k)))).
  { intros j Hj. rewrite Hval2, !run_table_nth by done. do 2 f_equal.
    apply read_be32_eq_on. unfold CG_FRSUM_OFF. intros i Hi.
    apply Hlow1. unfold CG_FREE_OFF. lia. }
  assert (Hbits2 : bits_after b2 b (k * fpb + off) m true).
  { apply bits_after_trans with b1; [|done]. intros j Hj. apply bit_test_high; [|done].
    unfold CG_FREE_OFF, CG_FRSUM_OFF in *. intros i Hi. apply Hout2. lia. }
  assert (Hr : range_is (blk b fpb k) off m false = true) by by apply range_is_blk.
  unfold CG_CS_NFFREE_OFF, CG_CS_NBFREE_OFF, CG_TIME_OFF, CG_FRSUM_OFF,
    CG_BTOT_OFF, CG_IUSED_OFF, CG_FREE_OFF in *.
  destruct (entire l') eqn:El.
  - set (b3 := add_be32 b2 36 (m - fpb)) in *. set (b4 := add_be32 b3 28 1) in *.
    destruct (adjust_positions_spec s b4 (k * fpb) 1 Hc Ht) as [Hw5 Hout5];
      [unfold b4, b3; auto with bytes|].
    unfold CG_BTOT_OFF, CG_IUSED_OFF in Hout5. simplify_eq.
    split_and!; try done.
    + auto with bytes.
    + apply bits_after_trans with b2; [|done]. intros j Hj. apply bit_test_high; [|done].
      unfold CG_FREE_OFF. intros i Hi. rewrite write_be32_out, Hout5 by lia.
      unfold b4, b3. by rewrite !add_be32_out by lia.
    + rewrite read_be32_write_other by lia.
      rewrite (read_be32_eq_on _ b4) by (intros i Hi; apply Hout5; lia).
      unfold b4. rewrite read_add_be32. do 2 f_equal. apply read_be32_eq_on. intros i Hi.
      unfold b3. rewrite add_be32_out by lia. apply Hframe2; lia.
    + rewrite read_be32_write_other by lia.
      rewrite (read_be32_eq_on _ b3) by
        (intros i Hi; rewrite Hout5 by lia; apply add_be32_out; lia).
      unfold b3. rewrite read_add_be32. do 2 f_equal. apply read_be32_eq_on. intros i Hi.
      apply Hframe2; lia.
    + intros j Hj. rewrite read_be32_write_other by lia.
      rewrite (read_be32_eq_on _ b2).
      * by apply Hruns2.
      * intros i Hi. rewrite Hout5 by lia. unfold b4, b3. by rewrite !add_be32_out by lia.
    + intros o ??????. rewrite write_be32_out, Hout5 by lia. unfold b4, b3.
      rewrite !add_be32_out by lia. by apply Hframe2.
  - simplify_eq. split_and!; try done.
    + auto with bytes.
    + apply bits_after_trans with b2; [|done]. intros j Hj. apply bit_test_high; [|done].
      unfold CG_FREE_OFF. intros i Hi. by rewrite write_be32_out, add_be32_out by lia.
    + rewrite Z.add_0_r, w32_small by by apply read_be32_range.
      apply read_be32_eq_on. intros i Hi. rewrite write_be32_out, add_be32_out by lia.
      apply Hframe2; lia.
    + rewrite read_be32_write_other, read_add_be32 by lia. do 2 f_equal.
      apply read_be32_eq_on. intros i Hi. apply Hframe2; lia.
    + intros j Hj. rewrite read_be32_write_other by lia.
      rewrite (read_be32_eq_on _ b2) by (intros i Hi; apply add_be32_out; lia).
      by apply Hruns2.
    + intros o ??????. rewrite write_be32_out, add_be32_out by lia. by apply Hframe2.
Qed.

Lemma give_fragments_acct s b k off m now b' dnb dnf :
  let fpb := frags_per_block s in
  wf_buf b -> group_small s b -> acct s b -> 0 <= k < blocks s b ->
  0 <= off -> 0 < m -> off + m <= fpb -> 0 < sectors_per_cyl s -> 0 < sectors_per_track s ->
  k * fpb + off + m <= read_be32 b CG_NDBLK_OFF ->
  give_fragments s b (k * fpb + off) m now = Some (b', dnb, dnf) ->
  acct s b' /\ read_be32 b' CG_CS_NBFREE_OFF = read_be32 b CG_CS_NBFREE_OFF + dnb /\
  read_be32 b' CG_CS_NFFREE_OFF = read_be32 b CG_CS_NFFREE_OFF + dnf.
Proof.
  intros fpb Hb Hs Ha Hk Ho Hm Hom Hc Ht Hlim Hg. pose proof Hs as [Hf _].
  pose proof (block_size_pos _ Hf).
  destruct (give_fragments_spec s b k off m now b' dnb dnf)
    as (Hw & Hbits & Hr & Hdb & Hdf & Hnb & Hnf & Hruns & Hout); try done; [lia|].
  fold fpb in Hdb, Hdf, Hr, Hruns, Hbits.
  assert (Hl : length (blk b fpb k) = Z.to_nat fpb) by apply blk_length.
  destruct (give_counts fpb _ off m Hf Hl Ho Hm Hom Hr) as (Hwc & Hfc).
  assert (Hacct : acct s b').
  { apply (acct_step s b b' (k * fpb + off) m true k off); try done; try lia.
    - apply read_be32_eq_on. unfold CG_NDBLK_OFF. intros i Hi.
      apply Hout; unfold CG_FREE_OFF, CG_BTOT_OFF; lia.
    - intros f c [[= <- <-]|[[= <- <-]|[]]]; fold fpb.
      + by rewrite Hnb, Hwc, Hdb.
      + by rewrite Hnf, Hfc, Hdf. }
  split; [done|].
  pose proof (ac_blocks _ _ Ha) as Hsb. pose proof (ac_frags _ _ Ha) as Hsf.
  pose proof (blocks_bound s b Hb Hs) as [Hn _].
  pose proof (sumZ_term (fun k => whole_count (blk b fpb k)) (blocks s b) k Hk
    ltac:(intros j; by apply (counts_bounded fpb b j 0))) as Hb1.
  pose proof (sumZ_term (fun k => frag_count_of (blk b fpb k)) (blocks s b) k Hk
    ltac:(intros j; by apply (counts_bounded fpb b j 0))) as Hf1.
  pose proof (sumZ_bounds (fun k => whole_count (blk b fpb k)) 8 (blocks s b) ltac:(lia)
    ltac:(intros j; by apply (counts_bounded fpb b j 0))).
  pose proof (sumZ_bounds (fun k => frag_count_of (blk b fpb k)) 8 (blocks s b) ltac:(lia)
    ltac:(intros j; by apply (counts_bounded fpb b j 0))).
  cbn beta in Hb1, Hf1. fold fpb in Hsb, Hsf.
  assert (Hl' : length (set_range (blk b fpb k) off m true) = Z.to_nat fpb).
  { unfold set_range. rewrite length_map, length_seqZ, Hl. lia. }
  assert (0 <= frag_count_of (set_range (blk b fpb k) off m true)).
  { unfold frag_count_of. case_match; lia. }
  rewrite Hnb, Hnf.
  destruct (entire (set_range (blk b fpb k) off m true)); rewrite !w32_small; lia.
Qed.

(** ** The search of the allocator *)

(** A run of [m] free fragments at [off] inside block [k], below the limit. *)
Definition free_run (s : superblock) (b : buf) (m k off : Z) : Prop :=
  let fpb := frags_per_block s in
  0 <= k < blocks s b /\ 0 <= off /\ off + m <= fpb /\
  k * fpb + off + m <= read_be32 b CG_NDBLK_OFF /\
  range_is (blk b fpb k) off m true = true.

Lemma set_run_bits_range b fpb k off m :
  0 <= off -> off + m <= fpb ->
  set_run_bits b (k * fpb + off) m = range_is (blk b fpb k) off m true.
Proof.
  intros Ho Hm. apply eq_true_iff_eq. unfold set_run_bits. split; intros H.
  - apply range_is_blk; [done|done|]. rewrite forallb_seqZ in H. intros j Hj.
    specialize (H (j - (k * fpb + off)) ltac:(lia)). rewrite <- H. f_equal. lia.
  - apply forallb_seqZ. intros i Hi. rewrite range_is_blk in H by done. apply H. lia.
Qed.

Lemma entire_range b fpb k : 0 <= fpb ->
  entire (blk b fpb k) = true <-> range_is (blk b fpb k) 0 fpb true = true.
Proof.
  intros Hf. rewrite <- set_run_bits_range, <- block_is_free_blk by lia.
  by rewrite Z.add_0_r.
Qed.

Lemma elem_block_starts limit fpb lf :
  lf ∈ block_starts limit fpb <-> exists k, 0 <= k < (limit + fpb - 1) / fpb /\ lf = k * fpb.
Proof.
  unfold block_starts. rewrite list_elem_of_fmap. split.
  - intros (k & -> & Hk%elem_of_seqZ). exists k. split; [lia|done].
  - intros (k & Hk & ->). exists k. split; [done|]. apply elem_of_seqZ. lia.
Qed.

Lemma find_first_elem {A} (f : Z -> option A) l a :
  find_first f l = Some a -> exists i, i ∈ l /\ f i = Some a.
Proof.
  intros (l1 & i & l2 & -> & Hi & _)%find_first_some. exists i. split; [|done].
  apply elem_of_app. right. by left.
Qed.
Lemma find_first_none_at {A} (f : Z -> option A) l i :
  find_first f l = None -> i ∈ l -> f i = None.
Proof. rewrite find_first_none, Forall_forall. auto. Qed.

(** A block that is entirely free lies below the limit. *)
Lemma entire_below s b k :
  wf_buf b -> In (frags_per_block s) block_sizes -> acct s b -> 0 <= k < blocks s b ->
  entire (blk b (frags_per_block s) k) = true ->
  k * frags_per_block s + frags_per_block s <= read_be32 b CG_NDBLK_OFF.
Proof.
  intros Hb Hf Ha Hk He. pose proof (block_size_pos _ Hf).
  rewrite entire_range, range_is_blk in He by lia.
  destruct (decide (k * frags_per_block s + frags_per_block s <= read_be32 b CG_NDBLK_OFF));
    [done|]. exfalso.
  set (i := k * frags_per_block s + frags_per_block s - 1).
  assert (Hi : bit_test b CG_FREE_OFF i = true) by (apply He; unfold i; lia).
  rewrite (ac_tail _ _ Ha) in Hi; [done|]. unfold i. split; [lia|]. nia.
Qed.

Lemma choose_run_sound s b m c :
  wf_buf b -> In (frags_per_block s) block_sizes -> acct s b ->
  0 < m <= frags_per_block s ->
  choose_run s b (read_be32 b CG_NDBLK_OFF) m = Some c ->
  exists k off, free_run s b m k off /\
    match c with
    | Partial lf start => lf = k * frags_per_block s /\ start = lf + off /\
        entire (blk b (frags_per_block s) k) = false
    | Whole lf => lf = k * frags_per_block s /\ off = 0 /\
        entire (blk b (frags_per_block s) k) = true
    end.
Proof.
  intros Hb Hf Ha Hm H. pose proof (block_size_pos _ Hf).
  set (fpb := frags_per_block s) in *.
  unfold choose_run in H.
  destruct (try_partial _ _ _ _) as [[lf start]|] eqn:E; unfold try_partial in E.
  - simplify_eq. destruct (_ && _); [|done].
    unfold find_partial in E. apply find_first_elem in E as (lf' & Hin & E).
    apply elem_block_starts in Hin as (k & Hk & ->). fold fpb in E, Hk.
    destruct (_ && _) eqn:Efull in E; [done|].
    apply find_first_elem in E as (st & Hst%elem_of_seqZ & E).
    destruct (set_run_bits b st m) eqn:Erun; [|done]. simplify_eq.
    exists k, (start - k * fpb).
    replace start with (k * fpb + (start - k * fpb)) in Erun by lia.
    rewrite set_run_bits_range in Erun by lia.
    assert (Hk' : 0 <= k < blocks s b) by done.
    split; [split_and!; fold fpb; try lia; done|].
    split_and!; [done|lia|]. rewrite block_is_free_blk in Efull.
    destruct (entire (blk b fpb k)) eqn:Ee; [|done].
    pose proof (entire_below s b k Hb Hf Ha Hk' Ee) as Hlim. fold fpb in Hlim.
    rewrite Z.min_l in Efull by lia.
    apply andb_false_iff in Efull as [Efull|?]; [|done]. apply Z.eqb_neq in Efull. lia.
  - destruct (_ =? 0); [done|]. destruct (find_block _ _ _) as [lf|] eqn:Ef; [|done].
    simplify_eq. unfold find_block in Ef. apply find_first_elem in Ef as (lf' & Hin & Ef).
    apply elem_block_starts in Hin as (k & Hk & ->). fold fpb in Ef, Hk.
    clear E. destruct (_ && _) eqn:Eb; [|done]. simplify_eq.
    apply andb_true_iff in Eb as [El Eb]. apply Z.leb_le in El.
    rewrite block_is_free_blk in Eb. exists k, 0. split; [|done].
    assert (Hk' : 0 <= k < blocks s b) by done.
    split_and!; fold fpb; try lia.
    pose proof Eb as Eb'. rewrite entire_range, range_is_blk in Eb' by lia.
    apply range_is_blk; [lia|lia|]. intros j Hj. apply Eb'. lia.
Qed.

Lemma check_capacity : every_range (fun n l s m =>
  negb (range_is l s m true) || entire l || (m <=? frag_count_of l)) = true.
Proof. vm_compute. reflexivity. Qed.

(** When the search gives up, no block of the group holds such a run. *)
Lemma choose_run_complete s b m :
  wf_buf b -> In (frags_per_block s) block_sizes -> acct s b ->
  0 < m <= frags_per_block s ->
  choose_run s b (read_be32 b CG_NDBLK_OFF) m = None ->
  forall k off, ~ free_run s b m k off.
Proof.
  intros Hb Hf Ha Hm H k off (Hk & Ho & Hom & Hlim & Hr). pose proof (block_size_pos _ Hf).
  set (fpb := frags_per_block s) in *. unfold choose_run in H.
  assert (Hstart : k * fpb ∈ block_starts (read_be32 b CG_NDBLK_OFF) fpb)
    by (apply elem_block_starts; by exists k).
  destruct (entire (blk b fpb k)) eqn:Ee.
  - destruct (try_partial _ _ _ _) as [[? ?]|]; [done|].
    pose proof (sumZ_term (fun k => whole_count (blk b fpb k)) (blocks s b) k Hk
      ltac:(intros j; by apply (counts_bounded fpb b j 0))) as Hs.
    cbn beta in Hs. unfold whole_count in Hs at 1. rewrite Ee in Hs.
    pose proof (ac_blocks _ _ Ha) as Hn. fold fpb in Hn.
    destruct (Z.eqb_spec (read_be32 b CG_CS_NBFREE_OFF) 0); [lia|].
    destruct (find_block _ _ _) eqn:Ef; [done|]. unfold find_block in Ef. fold fpb in Ef.
    eapply find_first_none_at in Ef; [|exact Hstart]. cbn beta in Ef.
    rewrite block_is_free_blk, Ee, andb_true_r in Ef.
    pose proof (entire_below s b k Hb Hf Ha Hk Ee) as Hbelow. fold fpb in Hbelow.
    destruct (Z.leb_spec (k * fpb + fpb) (read_be32 b CG_NDBLK_OFF)); [done|lia].
  - assert (Hm' : m < fpb).
    { destruct (decide (m < fpb)); [done|]. assert (off = 0 /\ m = fpb) as [-> ->] by lia.
      apply entire_range in Hr; [|lia]. congruence. }
    pose proof (every_range_spec _ fpb (blk b fpb k) off m check_capacity Hf
      ltac:(apply blk_length) Ho ltac:(lia) Hom) as Hcap.
    cbn beta in Hcap. rewrite Hr, Ee in Hcap. cbn [negb orb] in Hcap. apply Z.leb_le in Hcap.
    pose proof (sumZ_term (fun k => frag_count_of (blk b fpb k)) (blocks s b) k Hk
      ltac:(intros j; by apply (counts_bounded fpb b j 0))) as Hs.
    cbn beta in Hs. pose proof (ac_frags _ _ Ha) as Hn. fold fpb in Hn.
    unfold try_partial in H. fold fpb in H. destruct (Z.ltb_spec m fpb); [|lia].
    destruct (Z.leb_spec m (read_be32 b CG_CS_NFFREE_OFF)); [|lia]. cbn [andb] in H.
    destruct (find_partial _ _ _ _) as [[? ?]|] eqn:Ef; [done|]. clear H.
    unfold find_partial in Ef. fold fpb in Ef.
    eapply find_first_none_at in Ef; [|exact Hstart]. cbn beta zeta in Ef.
    rewrite block_is_free_blk, Ee, andb_false_r in Ef.
    eapply (find_first_none_at _ _ (k * fpb + off)) in Ef; [|apply elem_of_seqZ; lia].
    cbn beta in Ef. by rewrite set_run_bits_range, Hr in Ef by lia.
Qed.

(** ** Inode bitmap *)

(** The free-inode counter agrees with the map. *)
Definition iacct (s : superblock) (b : buf) : Prop :=
  read_be32 b CG_CS_NIFREE_OFF =
  sumZ (fun i => if bit_test b CG_IUSED_OFF i then 0 else 1) (inodes_per_group s).

(** The map holds at most 2048 inodes: 256 bytes before the magic number. *)
Lemma iused_byte i : 0 <= i < 2048 -> CG_IUSED_OFF <= CG_IUSED_OFF + i / 8 < CG_MAGIC_OFF.
Proof.
  intros Hi. unfold CG_IUSED_OFF, CG_MAGIC_OFF.
  pose proof (Z.div_pos i 8 ltac:(lia) ltac:(lia)).
  pose proof (Z.div_lt_upper_bound i 8 256 ltac:(lia) ltac:(lia)). lia.
Qed.

Lemma find_inode_sound s b cg idx :
  0 < inodes_per_group s -> find_inode s b cg = Some idx ->
  0 <= idx < inodes_per_group s /\ bit_test b CG_IUSED_OFF idx = false /\
  (cg = 0 -> 2 <= idx).
Proof.
  intros Hipg H. unfold find_inode in H. apply find_first_elem in H as (i & Hi & H).
  destruct (_ && _) eqn:E in H; [|done]. simplify_eq.
  apply andb_true_iff in E as [E1 E2]. apply negb_true_iff in E2.
  split_and!; [by apply Z.mod_pos_bound|by apply Z.mod_pos_bound|done|].
  intros ->. cbn in E1. by apply Z.leb_le.
Qed.

Lemma find_inode_complete s b cg :
  0 < inodes_per_group s -> wf_buf b -> find_inode s b cg = None ->
  forall idx, 0 <= idx < inodes_per_group s -> (cg = 0 -> 2 <= idx) ->
  bit_test b CG_IUSED_OFF idx = true.
Proof.
  intros Hipg Hb H idx Hi Hcg. unfold find_inode in H.
  set (start := if _ <=? _ then 0 else _) in H.
  pose proof (read_be32_range b Hb CG_IROTOR_OFF).
  assert (Hst : 0 <= start < inodes_per_group s) by (unfold start; case_match; lia).
  eapply (find_first_none_at _ _ ((idx - start) mod inodes_per_group s)) in H;
    [|apply elem_of_seqZ; pose proof (Z.mod_pos_bound (idx - start) _ Hipg); lia].
  cbn beta zeta in H. rewrite Zplus_mod_idemp_r in H.
  replace (start + (idx - start)) with idx in H by lia. rewrite Z.mod_small in H by done.
  destruct (bit_test b CG_IUSED_OFF idx); [done|]. rewrite andb_true_r in H.
  destruct (Z.eqb_spec cg 0), (Z.leb_spec 2 idx); cbn in H; done || lia.
Qed.

Lemma inode_map_update b b' i v :
  (forall j, bit_test b' CG_IUSED_OFF j =
             if j =? i then v else bit_test b CG_IUSED_OFF j) ->
  forall s, 0 <= i < inodes_per_group s ->
  sumZ (fun i => if bit_test b' CG_IUSED_OFF i then 0 else 1) (inodes_per_group s) =
  sumZ (fun i => if bit_test b CG_IUSED_OFF i then 0 else 1) (inodes_per_group s) -
  (if bit_test b CG_IUSED_OFF i then 0 else 1) + (if v then 0 else 1).
Proof.
  intros H s Hi.
  rewrite (sumZ_update (fun i => if bit_test b CG_IUSED_OFF i then 0 else 1) _ _ i Hi).
  - by rewrite H, Z.eqb_refl.
  - intros j _ Hj. cbn beta. rewrite H. by destruct (Z.eqb_spec j i).
Qed.

(** The header words and the map after taking or returning an inode. *)
Definition inode_step (b b' : buf) (idx d mode d_dir : Z) (v : bool) : Prop :=
  wf_buf b' /\
  (forall j, 0 <= j < 2048 -> bit_test b' CG_IUSED_OFF j =
             if j =? idx then v else bit_test b CG_IUSED_OFF j) /\
  read_be32 b' CG_CS_NIFREE_OFF = w32 (read_be32 b CG_CS_NIFREE_OFF + d) /\
  read_be32 b' CG_CS_NDIR_OFF =
    (if is_dir_mode mode then w32 (read_be32 b CG_CS_NDIR_OFF + d_dir)
     else read_be32 b CG_CS_NDIR_OFF) /\
  (forall o, ~ (CG_IUSED_OFF <= o < CG_MAGIC_OFF) -> ~ (8 <= o < 12) -> ~ (24 <= o < 28) ->
     ~ (32 <= o < 36) -> ~ (48 <= o < 52) -> b' o = b o).

Lemma take_inode_step b idx mode now :
  wf_buf b -> 0 <= idx < 2048 -> inode_step b (take_inode b idx mode now) idx (-1) mode 1 true.
Proof.
  intros Hb Hi. pose proof (iused_byte idx Hi). unfold take_inode.
  set (b1 := bit_set b CG_IUSED_OFF idx).
  set (b4 := write_be32 _ CG_TIME_OFF now).
  assert (Hb4 : wf_buf b4 /\ read_be32 b4 CG_CS_NIFREE_OFF =
      w32 (read_be32 b CG_CS_NIFREE_OFF + -1) /\
    read_be32 b4 CG_CS_NDIR_OFF = read_be32 b CG_CS_NDIR_OFF /\
    (forall o, 52 <= o -> b4 o = b1 o) /\
    forall o, ~ (CG_IUSED_OFF <= o < CG_MAGIC_OFF) -> ~ (8 <= o < 12) ->
      ~ (32 <= o < 36) -> ~ (48 <= o < 52) -> b4 o = b o).
  { unfold b4, b1, CG_TIME_OFF, CG_CS_NIFREE_OFF, CG_IROTOR_OFF, CG_CS_NDIR_OFF in *.
    unfold CG_IUSED_OFF, CG_MAGIC_OFF in *. split_and!.
    - auto with bytes.
    - rewrite read_be32_write_other, read_add_be32, read_be32_write_other by lia.
      do 2 f_equal. apply read_be32_eq_on. intros i Hii. apply bit_set_out. lia.
    - rewrite read_be32_write_other by lia. apply read_be32_eq_on. intros i Hii.
      rewrite add_be32_out, write_be32_out by lia. apply bit_set_out. lia.
    - intros o Ho. by rewrite write_be32_out, add_be32_out, write_be32_out by lia.
    - intros o ????. rewrite write_be32_out, add_be32_out, write_be32_out by lia.
      apply bit_set_out. lia. }
  destruct Hb4 as (Hw & Hn & Hd & Hhigh & Hout).
  assert (Hbit : forall b', (forall o, 52 <= o -> b' o = b4 o) -> forall j, 0 <= j < 2048 ->
    bit_test b' CG_IUSED_OFF j = if j =? idx then true else bit_test b CG_IUSED_OFF j).
  { intros b' Hb' j Hj. pose proof (iused_byte j Hj). unfold CG_IUSED_OFF in *.
    rewrite (bit_test_byte b' b1) by (rewrite Hb' by lia; apply Hhigh; lia).
    unfold b1. rewrite bit_test_set. by destruct (j =? idx). }
  unfold inode_step. unfold CG_CS_NIFREE_OFF, CG_CS_NDIR_OFF in *.
  destruct (is_dir_mode mode).
  - split_and!.
    + auto with bytes.
    + apply Hbit. intros o Ho. apply add_be32_out. lia.
    + rewrite <- Hn. apply read_be32_eq_on. intros i Hii. apply add_be32_out. lia.
    + by rewrite read_add_be32, Hd.
    + intros o ?????. rewrite add_be32_out by lia. by apply Hout.
  - split_and!; [done|by apply Hbit|done|done|]. intros o ?????. by apply Hout.
Qed.

Lemma give_inode_step b idx mode now b' :
  wf_buf b -> 0 <= idx < 2048 -> give_inode b idx mode now = Some b' ->
  bit_test b CG_IUSED_OFF idx = true /\ inode_step b b' idx 1 mode (-1) false.
Proof.
  intros Hb Hi Hg. pose proof (iused_byte idx Hi). unfold give_inode in Hg.
  destruct (bit_test b CG_IUSED_OFF idx); [|done]. split; [done|]. cbn [negb] in Hg.
  set (b1 := bit_clear b CG_IUSED_OFF idx) in *.
  set (b4 := write_be32 _ CG_TIME_OFF now) in *.
  assert (Hb4 : wf_buf b4 /\ read_be32 b4 CG_CS_NIFREE_OFF =
      w32 (read_be32 b CG_CS_NIFREE_OFF + 1) /\
    read_be32 b4 CG_CS_NDIR_OFF = read_be32 b CG_CS_NDIR_OFF /\
    (forall o, 52 <= o -> b4 o = b1 o) /\
    forall o, ~ (CG_IUSED_OFF <= o < CG_MAGIC_OFF) -> ~ (8 <= o < 12) ->
      ~ (32 <= o < 36) -> b4 o = b o).
  { unfold b4, b1, CG_TIME_OFF, CG_CS_NIFREE_OFF, CG_IROTOR_OFF, CG_CS_NDIR_OFF in *.
    unfold CG_IUSED_OFF, CG_MAGIC_OFF in *. split_and!.
    - auto with bytes.
    - rewrite read_be32_write_other, read_add_be32 by lia.
      do 2 f_equal. apply read_be32_eq_on. intros i Hii. apply bit_clear_out. lia.
    - rewrite read_be32_write_other by lia. apply read_be32_eq_on. intros i Hii.
      rewrite add_be32_out by lia. apply bit_clear_out. lia.
    - intros o Ho. by rewrite write_be32_out, add_be32_out by lia.
    - intros o ???. rewrite write_be32_out, add_be32_out by lia.
      apply bit_clear_out. lia. }
  destruct Hb4 as (Hw & Hn & Hd & Hhigh & Hout).
  assert (Hbit : forall b', (forall o, 52 <= o -> b' o = b4 o) -> forall j, 0 <= j < 2048 ->
    bit_test b' CG_IUSED_OFF j = if j =? idx then false else bit_test b CG_IUSED_OFF j).
  { intros b0 Hb0 j Hj. pose proof (iused_byte j Hj). unfold CG_IUSED_OFF in *.
    rewrite (bit_test_byte b0 b1) by (rewrite Hb0 by lia; apply Hhigh; lia).
    unfold b1. rewrite bit_test_clear. by destruct (j =? idx). }
  unfold inode_step. unfold CG_CS_NIFREE_OFF, CG_CS_NDIR_OFF in *.
  destruct (is_dir_mode mode); injection Hg as <-.
  - split_and!.
    + auto with bytes.
    + apply Hbit. intros o Ho. apply add_be32_out. lia.
    + rewrite <- Hn. apply read_be32_eq_on. intros i Hii. apply add_be32_out. lia.
    + by rewrite read_add_be32, Hd.
    + intros o ?????. rewrite add_be32_out by lia. by apply Hout.
  - split_and!; [done|by apply Hbit|done|done|]. intros o ?????. by apply Hout.
Qed.

(** ** Whole operations on the header *)

(** Bytes of the header no fragment operation touches. *)
Definition header_frame (b b' : buf) : Prop :=
  forall o, o < CG_FREE_OFF -> ~ (8 <= o < 12) -> ~ (28 <= o < 32) -> ~ (36 <= o < 44) ->
    ~ (56 <= o < 84) -> ~ (CG_BTOT_OFF <= o < CG_IUSED_OFF) -> b' o = b o.

Lemma header_frame_word b b' o :
  header_frame b b' -> In o [CG_NDBLK_OFF; CG_CS_NDIR_OFF; CG_CS_NIFREE_OFF; CG_MAGIC_OFF] ->
  read_be32 b' o = read_be32 b o.
Proof.
  intros H Ho. apply read_be32_eq_on. intros i Hi.
  apply H; revert Hi; repeat (destruct Ho as [<-|Ho]); try done; cbn;
  unfold CG_FREE_OFF, CG_BTOT_OFF, CG_IUSED_OFF, CG_NDBLK_OFF, CG_CS_NDIR_OFF,
    CG_CS_NIFREE_OFF, CG_MAGIC_OFF; lia.
Qed.

(** The counters moved by these amounts, exactly. *)
Definition counters_move (b b' : buf) (dnb dnf : Z) : Prop :=
  read_be32 b' CG_CS_NBFREE_OFF = read_be32 b CG_CS_NBFREE_OFF + dnb /\
  read_be32 b' CG_CS_NFFREE_OFF = read_be32 b CG_CS_NFFREE_OFF + dnf.

Section group.
Context (s : superblock) (b : buf).
Context (Hb : wf_buf b) (Hs : group_small s b) (Ha : acct s b).
Context (Hspc : 0 < sectors_per_cyl s) (Hspt : 0 < sectors_per_track s).
Let fpb := frags_per_block s.

Lemma allocate_in_header_acct m now start b' dnb dnf :
  0 < m <= fpb ->
  allocate_in_header s b (read_be32 b CG_NDBLK_OFF) m now = Some (start, b', dnb, dnf) ->
  (exists k off, start = k * fpb + off /\ free_run s b m k off) /\
  wf_buf b' /\ acct s b' /\ bits_after b' b start m false /\
  counters_move b b' dnb dnf /\ header_frame b b'.
Proof.
  intros Hm H. pose proof Hs as [Hf _]. pose proof (block_size_pos _ Hf).
  unfold allocate_in_header in H. destruct (choose_run _ _ _ _) as [c|] eqn:E; [|done].
  apply choose_run_sound in E as (k & off & Hrun & Hc); try done.
  pose proof Hrun as (Hk & Ho & Hom & Hlim & Hr). fold fpb in Hom, Hlim, Hr.
  destruct c as [lf st|lf]; unfold apply_choice in H; simplify_eq.
  - destruct Hc as (-> & -> & He).
    destruct (take_fragments_spec b fpb (k * fpb) (k * fpb + off) m now)
      as (Hw & Hbits & _ & _ & Hout); [done|nia|lia|].
    destruct (take_fragments_acct s b k off m now) as [Hacct Hnf]; try done; [lia|].
    split; [by exists k, off|]. split_and!; [done|done|done| |].
    + split; [|rewrite Hnf; lia]. rewrite Z.add_0_r. apply read_be32_eq_on.
      unfold CG_CS_NBFREE_OFF. intros i Hi. apply Hout; unfold CG_FREE_OFF; lia.
    + intros o ??????. apply Hout; lia.
  - destruct Hc as (-> & -> & He).
    destruct (take_block_spec s b (k * fpb) m now) as (Hw & Hbits & _ & _ & _ & Hout);
      try done; [nia|fold fpb; lia|].
    destruct (take_block_acct s b k m now) as (Hacct & Hnb & Hnf); try done; [lia|].
    split; [exists k, 0; split; [lia|done]|]. split_and!; [done|done|done| |done].
    split; [rewrite Hnb; lia|done].
Qed.

Lemma allocate_in_header_none m now :
  0 < m <= fpb ->
  allocate_in_header s b (read_be32 b CG_NDBLK_OFF) m now = None ->
  forall k off, ~ free_run s b m k off.
Proof.
  intros Hm H. pose proof Hs as [Hf _]. unfold allocate_in_header in H.
  apply choose_run_complete; try done. by destruct (choose_run _ _ _ _) as [[]|].
Qed.

Lemma give_fragments_whole k off m now b' dnb dnf :
  0 <= k < blocks s b -> 0 <= off -> 0 < m -> off + m <= fpb ->
  k * fpb + off + m <= read_be32 b CG_NDBLK_OFF ->
  give_fragments s b (k * fpb + off) m now = Some (b', dnb, dnf) ->
  wf_buf b' /\ acct s b' /\ bits_after b' b (k * fpb + off) m true /\
  range_is (blk b fpb k) off m false = true /\ counters_move b b' dnb dnf /\
  header_frame b b'.
Proof.
  intros Hk Ho Hm Hom Hlim Hg. pose proof Hs as [Hf _].
  destruct (give_fragments_spec s b k off m now b' dnb dnf)
    as (Hw & Hbits & Hr & _ & _ & _ & _ & _ & Hout); try done; [lia|].
  destruct (give_fragments_acct s b k off m now b' dnb dnf) as (? & ? & ?); try done.
  split_and!; try done. intros o ??????. apply Hout; lia.
Qed.

Lemma give_fragments_refuses k off m now :
  0 <= off -> off + m <= fpb ->
  give_fragments s b (k * fpb + off) m now = None ->
  range_is (blk b fpb k) off m false = false.
Proof.
  intros Ho Hom Hg. unfold give_fragments in Hg.
  destruct (set_free_bits _ _) as [b1|] eqn:E; [by repeat case_match|].
  destruct (range_is _ _ _ _) eqn:Er; [|done]. rewrite range_is_blk in Er by done.
  destruct (set_free_bits_total (seqZ (k * fpb + off) m) b) as [? ?];
    [apply NoDup_seqZ| |congruence].
  intros i Hi%elem_of_seqZ. apply Er. lia.
Qed.
End group.

(** The counters are a function of the map. *)
Lemma acct_determined s b b' :
  acct s b -> acct s b' -> 0 < frags_per_block s ->
  read_be32 b' CG_NDBLK_OFF = read_be32 b CG_NDBLK_OFF ->
  (forall j, 0 <= j -> bit_test b' CG_FREE_OFF j = bit_test b CG_FREE_OFF j) ->
  read_be32 b' CG_CS_NBFREE_OFF = read_be32 b CG_CS_NBFREE_OFF /\
  read_be32 b' CG_CS_NFFREE_OFF = read_be32 b CG_CS_NFFREE_OFF /\
  forall j, 1 <= j < frags_per_block s ->
    read_be32 b' (CG_FRSUM_OFF + j * 4) = read_be32 b (CG_FRSUM_OFF + j * 4).
Proof.
  intros [A1 A2 A3 _] [B1 B2 B3 _] Hf Hn Hbits.
  assert (Hbl : blocks s b' = blocks s b) by (unfold blocks; by rewrite Hn).
  assert (Hblk : forall k, 0 <= k ->
    blk b' (frags_per_block s) k = blk b (frags_per_block s) k).
  { intros k Hk. apply blk_ext. intros i Hi. apply Hbits. nia. }
  rewrite Hbl in *. split_and!; [rewrite A1, B1|rewrite A2, B2|intros j Hj; rewrite A3, B3 by done];
  apply sumZ_ext; intros k Hk; by rewrite Hblk by lia.
Qed.

(** A concrete group: two blocks of eight fragments, the first one with its
    first three fragments in use. *)
Definition sample_group : buf :=
  let b := write_be32 zeros CG_MAGIC_OFF CG_MAGIC in
  let b := write_be32 b CG_NDBLK_OFF 16 in
  let b := write_be32 b CG_CS_NBFREE_OFF 1 in
  let b := write_be32 b CG_CS_NFFREE_OFF 5 in
  let b := write_be32 b (CG_FRSUM_OFF + 5 * 4) 1 in
  let b := write_be32 b CG_CS_NIFREE_OFF 64 in
  upd (upd b CG_FREE_OFF 0xf8) (CG_FREE_OFF + 1) 0xff.
Lemma sample_group_wf : wf_buf sample_group.
Proof. unfold sample_group. auto 10 with bytes. Qed.
Lemma sample_group_small : group_small mini_sb sample_group.
Proof. split; [right; right; right; by left|vm_compute; discriminate]. Qed.
Lemma sample_group_acct : acct mini_sb sample_group.
Proof.
  constructor; try (vm_compute; reflexivity).
  - intros j Hj. cbn in Hj.
    assert (In j [1; 2; 3; 4; 5; 6; 7]) as Hin by (cbn; lia).
    repeat (destruct Hin as [<-|Hin]; [vm_compute; reflexivity|]). done.
  - intros i Hi. exfalso.
    assert (read_be32 sample_group CG_NDBLK_OFF = 16) by (vm_compute; reflexivity).
    assert (blocks mini_sb sample_group * frags_per_block mini_sb = 16)
      by (vm_compute; reflexivity). lia.
Qed.

(** ** Properties *)

(** Returning a run right after taking it restores the group: for a header
    whose counters agree with its map, nextufs__free_fragment_run accepts the run
    that nextufs__allocate_frags_in_group took, reports the opposite changes, and
    leaves the same map, block and fragment counters and run summary. *)
Theorem free_undoes_allocate s b m now now' start b1 dnb dnf
    (Hb : wf_buf b) (Hs : group_small s b) (Ha : acct s b)
    (Hspc : 0 < sectors_per_cyl s) (Hspt : 0 < sectors_per_track s)
    (Hm : 0 < m <= frags_per_block s)
    (Hrun : allocate_in_header s b (read_be32 b CG_NDBLK_OFF) m now =
            Some (start, b1, dnb, dnf)) :
  exists b2, give_fragments s b1 start m now' = Some (b2, - dnb, - dnf) /\
    (forall j, 0 <= j -> bit_test b2 CG_FREE_OFF j = bit_test b CG_FREE_OFF j) /\
    read_be32 b2 CG_CS_NBFREE_OFF = read_be32 b CG_CS_NBFREE_OFF /\
    read_be32 b2 CG_CS_NFFREE_OFF = read_be32 b CG_CS_NFFREE_OFF /\
    forall j, 1 <= j < frags_per_block s ->
      read_be32 b2 (CG_FRSUM_OFF + j * 4) = read_be32 b (CG_FRSUM_OFF + j * 4).
Proof.
  pose proof Hs as [Hf Hl]. pose proof (block_size_pos _ Hf).
  apply allocate_in_header_acct in Hrun
    as ((k & off & -> & Hk & Ho & Hom & Hlim & Hr) & Hw1 & Ha1 & Hb1 & [Hm1 Hm2] & Hfr1);
    try done.
  assert (Hn1 : read_be32 b1 CG_NDBLK_OFF = read_be32 b CG_NDBLK_OFF)
    by (apply header_frame_word; [done|by left]).
  assert (Hs1 : group_small s b1) by (split; [done|by rewrite Hn1]).
  assert (Hbl1 : blocks s b1 = blocks s b) by (unfold blocks; by rewrite Hn1).
  assert (Htaken : range_is (blk b1 (frags_per_block s) k) off m false = true).
  { apply range_is_blk; [done|done|]. intros j Hj. rewrite Hb1 by nia.
    destruct (Z.leb_spec (k * frags_per_block s + off) j),
      (Z.ltb_spec j (k * frags_per_block s + off + m)); done || lia. }
  destruct (give_fragments s b1 _ m now') as [[[b2 dnb'] dnf']|] eqn:Eg.
  2: { apply give_fragments_refuses in Eg; [|lia..]. congruence. }
  apply give_fragments_whole in Eg as (Hw2 & Ha2 & Hb2 & _ & [Hg1 Hg2] & Hfr2);
    try done; [|by rewrite Hbl1|lia|by rewrite Hn1].
  assert (Hbits : forall j, 0 <= j -> bit_test b2 CG_FREE_OFF j = bit_test b CG_FREE_OFF j).
  { intros j Hj. rewrite Hb2, Hb1 by done. rewrite range_is_blk in Hr by done.
    destruct (_ && _) eqn:E; [|done]. symmetry. apply Hr.
    apply andb_true_iff in E as [E1%Z.leb_le E2%Z.ltb_lt]. lia. }
  destruct (acct_determined s b b2) as (Hd1 & Hd2 & Hd3); try done; [lia| |].
  { rewrite <- Hn1. apply header_frame_word; [done|by left]. }
  exists b2. split; [|done]. do 2 f_equal; [f_equal; lia|lia].
Qed.

Lemma free_undoes_allocate_witness :
  exists start b1 dnb dnf b2,
    allocate_in_header mini_sb sample_group (read_be32 sample_group CG_NDBLK_OFF) 3 77 =
      Some (start, b1, dnb, dnf) /\
    start = 3 /\ give_fragments mini_sb b1 start 3 78 = Some (b2, - dnb, - dnf) /\
    read_be32 b2 CG_CS_NFFREE_OFF = 5.
Proof.
  destruct (allocate_in_header mini_sb sample_group (read_be32 sample_group CG_NDBLK_OFF) 3 77)
    as [[[[start b1] dnb] dnf]|] eqn:E.
  - destruct (free_undoes_allocate mini_sb sample_group 3 77 78 start b1 dnb dnf)
      as (b2 & Hg & _ & _ & Hn & _).
    + exact sample_group_wf.
    + exact sample_group_small.
    + exact sample_group_acct.
    + reflexivity.
    + reflexivity.
    + split; [reflexivity|discriminate].
    + exact E.
    + exists start, b1, dnb, dnf, b2. split; [reflexivity|].
      split; [|split; [exact Hg|rewrite Hn; vm_compute; reflexivity]].
      assert (Hst : option_map (fun x => fst (fst (fst x)))
        (allocate_in_header mini_sb sample_group (read_be32 sample_group CG_NDBLK_OFF) 3 77)
        = Some 3) by (vm_compute; reflexivity).
      rewrite E in Hst. injection Hst as ->. reflexivity.
  - exfalso. assert (Hst : bool_decide (is_Some
      (allocate_in_header mini_sb sample_group (read_be32 sample_group CG_NDBLK_OFF) 3 77))
      = true) by (vm_compute; reflexivity).
    rewrite E in Hst. vm_compute in Hst. discriminate Hst.
Defined.
