(* ===== verification/Alloc.v ===== *)
(** * Allocation of inodes and fragments

    The allocators of src/src/core/alloc.c and nextufs__update_summary_counts of
    src/src/core/layout.c over an image: a cylinder-group header is read, changed
    in memory (CylGroup) and written back, then the totals of the superblock and
    the summary entry of the group follow. *)
From S2P Require Import Prelude.
From S2P Require Import Bytes.
From S2P Require Import Backend.
From S2P Require Import Superblock.
From S2P Require Import Image.
From S2P Require Import Inode.
From S2P Require Import CylGroup.

Definition SB_TIME_OFF : Z := 0x20.
Definition SB_NDIR_OFF : Z := 0xc0.
Definition SB_NBFREE_OFF : Z := 0xc4.
Definition SB_NIFREE_OFF : Z := 0xc8.
Definition SB_NFFREE_OFF : Z := 0xcc.

Section alloc.
Context {C : Type} `{!Backend C}.
Local Abbreviation M := (M (world C)).

(** Byte offset of the summary entry of a group. *)
Definition csum_off (img : image) (cg : Z) : Z :=
  slice_base img + cyl_summary_addr (sb img) * frag_size (sb img) + cg * 16.

Definition update_summary_counts (img : image) (cg d_ndir d_nbfree d_nifree d_nffree : Z)
    : M unit :=
  let sb_off := slice_base img + 0x2000 in
  let! sbuf := read_exact img 2048 sb_off in
  let sbuf := add_be32 sbuf SB_NDIR_OFF d_ndir in
  let sbuf := add_be32 sbuf SB_NBFREE_OFF d_nbfree in
  let sbuf := add_be32 sbuf SB_NIFREE_OFF d_nifree in
  let sbuf := add_be32 sbuf SB_NFFREE_OFF d_nffree in
  let! now := time_now in
  let sbuf := write_be32 sbuf SB_TIME_OFF now in
  write_exact img sbuf 2048 sb_off ;;;
  let cs_off := csum_off img cg in
  let! cs := read_exact img 16 cs_off in
  let cs := add_be32 cs 0 d_ndir in
  let cs := add_be32 cs 4 d_nbfree in
  let cs := add_be32 cs 8 d_nifree in
  let cs := add_be32 cs 12 d_nffree in
  write_exact img cs 16 cs_off.

(** Reading a group header: the common start of every allocator routine. *)
Definition read_group (img : image) (cg : Z) : M buf :=
  malloc (cg_size (sb img)) ;;;
  let! b := read_exact img (cg_size (sb img))
              (cg_block_offset (sb img) (slice_base img) cg) in
  if negb (read_be32 b CG_MAGIC_OFF =? CG_MAGIC) then fail EINVAL
  else ret b.
Definition write_group (img : image) (cg : Z) (b : buf) : M unit :=
  write_exact img b (cg_size (sb img)) (cg_block_offset (sb img) (slice_base img) cg).

Definition allocate_inode_in_one_group (img : image) (cg mode : Z) : M Z :=
  let! b := read_group img cg in
  if read_be32 b CG_CS_NIFREE_OFF =? 0 then fail ENOSPC
  else
    match find_inode (sb img) b cg with
    | None => fail ENOSPC
    | Some ipref =>
        let! now := time_now in
        write_group img cg (take_inode b ipref mode now) ;;;
        update_summary_counts img cg (if is_dir_mode mode then 1 else 0) 0 (-1) 0 ;;;
        ret (w32 (cg * inodes_per_group (sb img) + ipref))
    end.

(** Try the groups in order; only [-ENOSPC] moves on to the next one. *)
Fixpoint try_groups {A} (f : Z -> M A) (cgs : list Z) : M A :=
  match cgs with
  | [] => fail ENOSPC
  | cg :: cgs =>
      let! r := attempt (f cg) in
      match r with
      | Err ENOSPC => try_groups f cgs
      | _ => of_result r
      end
  end.
Definition group_order (img : image) (preferred_cg : Z) : list Z :=
  map (fun i => w32 (preferred_cg + i) mod cg_count (sb img)) (seqZ 0 (cg_count (sb img))).

Definition allocate_inode_in_group (img : image) (cg mode : Z) : M Z :=
  try_groups (fun cg => allocate_inode_in_one_group img cg mode) (group_order img cg).

Definition free_inode_in_group (img : image) (inode_no mode : Z) : M unit :=
  let cg := inode_no / inodes_per_group (sb img) in
  let local_ino := inode_no mod inodes_per_group (sb img) in
  let! b := read_group img cg in
  if negb (bit_test b CG_IUSED_OFF local_ino) then fail EINVAL
  else
    let! now := time_now in
    match give_inode b local_ino mode now with
    | None => fail EINVAL
    | Some b =>
        write_group img cg b ;;;
        update_summary_counts img cg (if is_dir_mode mode then -1 else 0) 0 1 0
    end.

Definition reserve_available (img : image) (needed : Z) : M unit :=
  if negb (unprivileged img) then ret tt
  else if 99 <? minfree (sb img) then fail EINVAL
  else
    let! totals := read_exact img 12 (slice_base img + 8192 + 0xc4) in
    let available := read_be32 totals 0 * frags_per_block (sb img) + read_be32 totals 8 in
    let reserve := data_frag_count (sb img) * minfree (sb img) / 100 in
    fail_if ((available <? reserve) || (available - reserve <? needed)) ENOSPC.

Definition bad_limit (img : image) (cg limit : Z) : bool :=
  (frags_per_group (sb img) <? limit) ||
  (frag_count (sb img) <? cg * frags_per_group (sb img) + limit) ||
  (cg_size (sb img) <? CG_FREE_OFF + w32 (limit + 7) / 8).

Definition allocate_frags_in_group (img : image) (cg frags_needed : Z) : M Z :=
  if (frags_needed =? 0) || (frags_per_block (sb img) <? frags_needed) then fail EINVAL
  else
    let! b := read_group img cg in
    let limit := read_be32 b CG_NDBLK_OFF in
    if bad_limit img cg limit then fail EINVAL
    else
      match choose_run (sb img) b limit frags_needed with
      | None => fail ENOSPC
      | Some c =>
          let! now := time_now in
          let '(start, b, d_nbfree, d_nffree) :=
            apply_choice (sb img) b frags_needed now c in
          write_group img cg b ;;;
          update_summary_counts img cg 0 d_nbfree 0 d_nffree ;;;
          ret (w32 (cg * frags_per_group (sb img) + start))
      end.

Definition allocate_frags_anycg (img : image) (preferred_cg frags_needed : Z) : M Z :=
  reserve_available img frags_needed ;;;
  try_groups (fun cg => allocate_frags_in_group img cg frags_needed)
    (group_order img preferred_cg).

Definition allocate_full_block_anycg (img : image) (preferred_cg : Z) : M Z :=
  allocate_frags_anycg img preferred_cg (frags_per_block (sb img)).

Definition extend_fragment_run (img : image) (frag_base old_frags new_frags : Z) : M unit :=
  let fpb := frags_per_block (sb img) in
  if (new_frags <=? old_frags) || (fpb <? new_frags) then fail EINVAL
  else
    reserve_available img (new_frags - old_frags) ;;;
    let cg := frag_base / frags_per_group (sb img) in
    let local_frag := frag_base mod frags_per_group (sb img) in
    if fpb <? local_frag mod fpb + new_frags then fail ENOSPC
    else
      let! b := read_group img cg in
      let added_frags := new_frags - old_frags in
      let block_frag_base := local_frag - local_frag mod fpb in
      if negb (set_run_bits b (local_frag + old_frags) added_frags) then fail ENOSPC
      else
        let! now := time_now in
        write_group img cg
          (take_fragments b fpb block_frag_base (local_frag + old_frags) added_frags now) ;;;
        update_summary_counts img cg 0 0 0 (- added_frags).

Definition free_fragment_run (img : image) (frag_base frags : Z) : M unit :=
  if (frags =? 0) || (frags_per_block (sb img) <? frags) then fail EINVAL
  else
    let cg := frag_base / frags_per_group (sb img) in
    let local_frag := frag_base mod frags_per_group (sb img) in
    let! b := read_group img cg in
    match set_free_bits b (seqZ local_frag frags) with
    | None => fail EINVAL
    | Some _ =>
        let! now := time_now in
        match give_fragments (sb img) b local_frag frags now with
        | None => fail EINVAL
        | Some (b, d_nbfree, d_nffree) =>
            write_group img cg b ;;;
            update_summary_counts img cg 0 d_nbfree 0 d_nffree
        end
    end.

(** Byte offset of a fragment of the filesystem. *)
Definition frag_offset (img : image) (frag : Z) : Z :=
  slice_base img + frag * frag_size (sb img).

Definition reallocate_fragment_run (img : image)
    (old_frag old_frags new_frags preferred_cg : Z) : M Z :=
  let old_bytes := old_frags * frag_size (sb img) in
  let new_bytes := new_frags * frag_size (sb img) in
  malloc new_bytes ;;;
  let! old := read_exact img old_bytes (frag_offset img old_frag) in
  let tmp := blit zeros 0 old old_bytes in
  let! new_frag := allocate_frags_anycg img preferred_cg new_frags in
  write_exact img tmp new_bytes (frag_offset img new_frag) ;;;
  free_fragment_run img old_frag old_frags ;;;
  ret new_frag.
End alloc.

(** ** Every allocator routine can be rolled back *)
Section alloc_carries.
Context {C : Type} `{HB : Backend C, HS : !BackendSpec C}.
Context (img : image) (Himg : image_ok img).

Lemma stable_try_groups {A} R `{!PreOrder R} (f : Z -> M (world C) A) cgs :
  (forall cg, Stable R (f cg)) -> Stable R (try_groups f cgs).
Proof.
  intros Hf. induction cgs as [|cg cgs IH]; cbn [try_groups]; solve_stable.
Qed.
Lemma read_group_quiet cg : Stable quiet (read_group (C:=C) img cg).
Proof. unfold read_group. solve_stable. Qed.
Local Hint Resolve read_group_quiet : stable.
Lemma write_group_carries cg b : Stable carries (write_group (C:=C) img cg b).
Proof. unfold write_group. solve_stable. Qed.
Local Hint Resolve write_group_carries : stable.
Lemma update_summary_carries cg a b c d :
  Stable carries (update_summary_counts (C:=C) img cg a b c d).
Proof. unfold update_summary_counts. solve_stable. Qed.
Local Hint Resolve update_summary_carries : stable.
Lemma allocate_inode_carries cg mode :
  Stable carries (allocate_inode_in_group (C:=C) img cg mode).
Proof.
  apply stable_try_groups; [apply _|]. intros cg'. unfold allocate_inode_in_one_group.
  solve_stable.
Qed.
Lemma free_inode_carries ino mode : Stable carries (free_inode_in_group (C:=C) img ino mode).
Proof. unfold free_inode_in_group. solve_stable. Qed.
Lemma reserve_available_quiet n : Stable quiet (reserve_available (C:=C) img n).
Proof. unfold reserve_available. solve_stable. Qed.
Local Hint Resolve reserve_available_quiet : stable.
Lemma allocate_frags_in_group_carries cg n :
  Stable carries (allocate_frags_in_group (C:=C) img cg n).
Proof. unfold allocate_frags_in_group. solve_stable. Qed.
Lemma allocate_frags_carries cg n : Stable carries (allocate_frags_anycg (C:=C) img cg n).
Proof.
  apply stable_bind; [apply _|eauto with stable|]. intros _.
  apply stable_try_groups; [apply _|]. intros cg'. apply allocate_frags_in_group_carries.
Qed.
Local Hint Resolve allocate_frags_carries : stable.
Lemma extend_carries f a b : Stable carries (extend_fragment_run (C:=C) img f a b).
Proof. unfold extend_fragment_run. solve_stable. Qed.
Lemma free_fragment_run_carries f n : Stable carries (free_fragment_run (C:=C) img f n).
Proof. unfold free_fragment_run. solve_stable. Qed.
Local Hint Resolve free_fragment_run_carries : stable.
Lemma reallocate_carries f a b cg :
  Stable carries (reallocate_fragment_run (C:=C) img f a b cg).
Proof. unfold reallocate_fragment_run. solve_stable. Qed.
Lemma allocate_full_block_carries cg :
  Stable carries (allocate_full_block_anycg (C:=C) img cg).
Proof. unfold allocate_full_block_anycg. solve_stable. Qed.
End alloc_carries.
#[export] Hint Resolve read_group_quiet write_group_carries update_summary_carries
  allocate_inode_carries free_inode_carries reserve_available_quiet allocate_frags_carries
  extend_carries free_fragment_run_carries reallocate_carries
  allocate_full_block_carries : stable.

(** ** The accounting invariant of a whole filesystem *)

(** The counters kept three times: header field, summary entry, total. *)
Definition counter_fields : list (Z * Z * Z) :=
  [(CG_CS_NDIR_OFF, 0, SB_NDIR_OFF); (CG_CS_NBFREE_OFF, 4, SB_NBFREE_OFF);
   (CG_CS_NIFREE_OFF, 8, SB_NIFREE_OFF); (CG_CS_NFFREE_OFF, 12, SB_NFFREE_OFF)].

Definition group_at (img : image) (v : buf) (cg : Z) : buf :=
  slice v (cg_block_offset (sb img) (slice_base img) cg).

Record group_ok (s : superblock) (b : buf) : Prop := GroupOk {
  go_limit : read_be32 b CG_NDBLK_OFF <= frags_per_group s;
  go_acct : acct s b;
  go_iacct : iacct s b;
}.

Record fs_acct (img : image) (v : buf) : Prop := FsAcct {
  fa_group : forall cg, 0 <= cg < cg_count (sb img) -> group_ok (sb img) (group_at img v cg);
  fa_csum : forall cg f c t, 0 <= cg < cg_count (sb img) -> In (f, c, t) counter_fields ->
    read_be32 v (csum_off img cg + c) = read_be32 (group_at img v cg) f;
  fa_total : forall f c t, In (f, c, t) counter_fields ->
    read_be32 v (slice_base img + 0x2000 + t) =
    w32 (sumZ (fun cg => read_be32 (group_at img v cg) f) (cg_count (sb img)));
}.

Definition apart (a n b m : Z) : Prop := a + n <= b \/ b + m <= a.

(** The superblock, the summary area and the group headers are separate. *)
Record layout_apart (img : image) : Prop := LayoutApart {
  la_sb_csum : forall cg, 0 <= cg < cg_count (sb img) ->
    apart (slice_base img + 0x2000) 2048 (csum_off img cg) 16;
  la_sb_group : forall cg, 0 <= cg < cg_count (sb img) ->
    apart (slice_base img + 0x2000) 2048
      (cg_block_offset (sb img) (slice_base img) cg) (cg_size (sb img));
  la_csum_group : forall cg cg', 0 <= cg < cg_count (sb img) -> 0 <= cg' < cg_count (sb img) ->
    apart (csum_off img cg) 16
      (cg_block_offset (sb img) (slice_base img) cg') (cg_size (sb img));
}.

Lemma groups_apart img cg cg' :
  image_sane img -> 0 <= cg < cg_count (sb img) -> 0 <= cg' < cg_count (sb img) -> cg <> cg' ->
  apart (cg_block_offset (sb img) (slice_base img) cg) (cg_size (sb img))
    (cg_block_offset (sb img) (slice_base img) cg') (cg_size (sb img)).
Proof.
  intros [_ Hwf Hv _] Hc Hc' Hne. pose proof (valid_geometry _ _ _ Hwf Hv) as G.
  pose proof (geo_fpg _ G). pose proof (geo_frag_min _ G).
  pose proof (cg_block_bounds _ _ _ Hwf Hv cg Hc) as (H1 & H2 & _).
  pose proof (cg_block_bounds _ _ _ Hwf Hv cg' Hc') as (H3 & H4 & _).
  destruct (decide (cg < cg')); [left|right]; nia.
Qed.

Lemma geometry_block_sizes s : geometry s -> In (frags_per_block s) block_sizes.
Proof. intros G. pose proof (geo_fpb _ G). cbn. lia. Qed.

Lemma blocks_bytes s b :
  In (frags_per_block s) block_sizes -> 0 <= read_be32 b CG_NDBLK_OFF ->
  blocks s b * frags_per_block s <= 8 * ((read_be32 b CG_NDBLK_OFF + 7) / 8).
Proof.
  intros Hf Hn. unfold blocks. set (n := read_be32 b CG_NDBLK_OFF) in *.
  cbn in Hf. destruct Hf as [<-|[<-|[<-|[<-|[]]]]];
    Z.to_euclidean_division_equations; lia.
Qed.

(** The invariant of a group depends on the bytes of its header only. *)
Lemma group_ok_eq_on s b b' :
  geometry s -> wf_buf b -> eq_on 0 (cg_size s) b' b -> group_ok s b -> group_ok s b'.
Proof.
  intros G Hb Heq [Hlim [A1 A2 A3 A4] Hi].
  pose proof (geometry_block_sizes _ G) as Hf. pose proof (block_size_pos _ Hf).
  pose proof (read_be32_range b Hb CG_NDBLK_OFF).
  pose proof (geo_cg_map _ G) as Hmap. pose proof (geo_ipg _ G).
  pose proof (blocks_bytes s b Hf ltac:(lia)) as Hbytes.
  assert (Hdiv : 0 <= (frags_per_group s + 7) / 8) by (apply Z.div_pos; lia).
  assert (Hw : forall o, 0 <= o -> o + 4 <= CG_FREE_OFF -> read_be32 b' o = read_be32 b o).
  { intros o ??. apply read_be32_eq_on. intros i Hii. apply Heq. lia. }
  assert (Hbit : forall j, 0 <= j < blocks s b * frags_per_block s ->
    bit_test b' CG_FREE_OFF j = bit_test b CG_FREE_OFF j).
  { intros j Hj. apply bit_test_byte, Heq. unfold CG_FREE_OFF in *.
    assert (j / 8 < (read_be32 b CG_NDBLK_OFF + 7) / 8) by (apply Z.div_lt_upper_bound; lia).
    assert ((read_be32 b CG_NDBLK_OFF + 7) / 8 <= (frags_per_group s + 7) / 8)
      by (apply Z.div_le_mono; lia).
    pose proof (Z.div_pos j 8 ltac:(lia) ltac:(lia)). lia. }
  unfold CG_FREE_OFF in Hw.
  assert (Hnd : read_be32 b' CG_NDBLK_OFF = read_be32 b CG_NDBLK_OFF)
    by (apply Hw; unfold CG_NDBLK_OFF; lia).
  assert (Hbl : blocks s b' = blocks s b) by (unfold blocks; by rewrite Hnd).
  assert (Hblk : forall k, 0 <= k < blocks s b ->
    blk b' (frags_per_block s) k = blk b (frags_per_block s) k).
  { intros k Hk. apply blk_ext. intros i Hii. apply Hbit. nia. }
  constructor; [by rewrite Hnd| |].
  - constructor; rewrite ?Hbl, ?Hnd; try done.
    + rewrite Hw, A1 by (unfold CG_CS_NBFREE_OFF; lia).
      apply sumZ_ext. intros k Hk. by rewrite Hblk.
    + rewrite Hw, A2 by (unfold CG_CS_NFFREE_OFF; lia).
      apply sumZ_ext. intros k Hk. by rewrite Hblk.
    + intros j Hj. rewrite Hw, A3 by (done || unfold CG_FRSUM_OFF; lia).
      apply sumZ_ext. intros k Hk. by rewrite Hblk.
    + intros i Hii. rewrite Hbit by lia. by apply A4.
  - unfold iacct. rewrite Hw, Hi by (unfold CG_CS_NIFREE_OFF; lia).
    apply sumZ_ext. intros j Hj. rewrite (bit_test_byte b' b); [done|]. apply Heq.
    pose proof (iused_byte j ltac:(lia)). unfold CG_IUSED_OFF, CG_MAGIC_OFF, CG_FREE_OFF in *. lia.
Qed.

(** ** Congruence of header updates on a window *)
Lemma write_be32_eq_on n a b off v :
  eq_on 0 n a b -> eq_on 0 n (write_be32 a off v) (write_be32 b off v).
Proof. intros H i Hi. rewrite !write_be32_at. by rewrite H. Qed.
Lemma add_be32_eq_on n a b off d :
  eq_on 0 n a b -> 0 <= off -> off + 4 <= n ->
  eq_on 0 n (add_be32 a off d) (add_be32 b off d).
Proof.
  intros H Ho Hn. unfold add_be32.
  rewrite (read_be32_eq_on a b) by (intros i Hi; apply H; lia). by apply write_be32_eq_on.
Qed.
Lemma to_bytes_eq_on n a b : eq_on 0 n a b -> wf_buf b -> eq_on 0 n (to_bytes a) b.
Proof. intros H Hb i Hi. unfold to_bytes. rewrite H by done. by apply wrap_small. Qed.
Lemma read_add_other b off d o :
  o + 4 <= off \/ off + 4 <= o -> read_be32 (add_be32 b off d) o = read_be32 b o.
Proof. apply read_be32_write_other. Qed.

(** Reading a word of a region that has just been written. *)
Lemma read_blit_in v o b n t :
  0 <= t -> t + 4 <= n -> read_be32 (blit v o b n) (o + t) = read_be32 b t.
Proof.
  intros Ht Hn. rewrite <- slice_read_be32. apply read_be32_eq_on. intros i Hi.
  unfold slice. rewrite blit_in by lia. f_equal. lia.
Qed.
Lemma read_be32_equiv a b o : a ≡ b -> read_be32 a o = read_be32 b o.
Proof. intros H. apply read_be32_eq_on. intros i _. apply H. Qed.

Section alloc_facts.
Context {C : Type} `{HB : Backend C, HS : !BackendSpec C}.

(** The four totals and the four summary words, with their changes. *)
Definition summary_words (a b c d : Z) : list (Z * Z * Z) :=
  [(0, SB_NDIR_OFF, a); (4, SB_NBFREE_OFF, b); (8, SB_NIFREE_OFF, c); (12, SB_NFFREE_OFF, d)].

Lemma update_summary_ok img cg da db dc dd (w w' : world C) :
  let sbo := slice_base img + 0x2000 in
  let cso := csum_off img cg in
  update_summary_counts img cg da db dc dd w = (Ok tt, w') ->
  bk_inv (w_ctx w) -> apart sbo 2048 cso 16 ->
  bk_inv (w_ctx w') /\
  (forall i, ~ (sbo <= i < sbo + 2048) -> ~ (cso <= i < cso + 16) -> view w' i = view w i) /\
  forall co t d, In (co, t, d) (summary_words da db dc dd) ->
    read_be32 (view w') (sbo + t) = w32 (read_be32 (view w) (sbo + t) + d) /\
    read_be32 (view w') (cso + co) = w32 (read_be32 (view w) (cso + co) + d).
Proof.
  intros sbo cso Hr Hinv Hap. unfold update_summary_counts in Hr. fold sbo cso in Hr.
  inv_step Hr. apply read_exact_quiet in Hrun as Hq1. apply read_exact_ok in Hrun as (_ & _ & Hb1);
    [|done]. destruct Hq1 as [Qi1 Qv1 _ _].
  inv_step Hr. apply time_now_quiet in Hrun as [Qi2 Qv2 _ _].
  inv_step Hr. apply write_exact_spec in Hrun as (Hi3 & _ & _ & Hv3); [|auto].
  destruct a1. destruct (Hv3 eq_refl) as (Hv3' & _). clear Hv3.
  inv_step Hr. apply read_exact_quiet in Hrun as Hq4.
  apply read_exact_ok in Hrun as (_ & _ & Hb4); [|done]. destruct Hq4 as [Qi4 Qv4 _ _].
  apply write_exact_spec in Hr as (Hi5 & _ & _ & Hv5); [|auto].
  destruct (Hv5 eq_refl) as (Hv5' & _). clear Hv5.
  rewrite (w64_small 2048), (w64_small 16) in * by lia.
  rewrite (Qv2 (Qi1 Hinv)), (Qv1 Hinv) in Hv3'. rewrite (Qv4 Hi3) in Hv5'.
  set (v := view w) in *. assert (Hwf : wf_buf v) by by apply bk_view_wf.
  set (F := fun b => write_be32 (add_be32 (add_be32 (add_be32 (add_be32 b
    SB_NDIR_OFF da) SB_NBFREE_OFF db) SB_NIFREE_OFF dc) SB_NFFREE_OFF dd) SB_TIME_OFF a0).
  set (G := fun b => add_be32 (add_be32 (add_be32 (add_be32 b 0 da) 4 db) 8 dc) 12 dd).
  fold (F a) in Hv3'. fold (G a1) in Hv5'.
  assert (HF : eq_on 0 2048 (to_bytes (F a)) (F (slice v sbo))).
  { apply to_bytes_eq_on; [|unfold F; auto 10 with bytes].
    unfold F, SB_NDIR_OFF, SB_NBFREE_OFF, SB_NIFREE_OFF, SB_NFFREE_OFF.
    apply write_be32_eq_on. repeat (apply add_be32_eq_on; [|lia|lia]). exact Hb1. }
  assert (HG : eq_on 0 16 (to_bytes (G a1)) (G (slice v cso))).
  { apply to_bytes_eq_on; [|unfold G; auto 10 with bytes].
    unfold G. repeat (apply add_be32_eq_on; [|lia|lia]). intros i Hi. rewrite Hb4 by done.
    unfold slice. rewrite (Hv3' _). apply blit_out. unfold apart in Hap. lia. }
  split_and!; [done| |].
  - intros i Hi1 Hi2. rewrite (Hv5' i), blit_out by lia. rewrite (Hv3' i). by apply blit_out.
  - intros co t d Hin.
    assert (Hco : 0 <= co <= 12 /\ 0xc0 <= t <= 0xcc).
    { unfold summary_words, SB_NDIR_OFF, SB_NBFREE_OFF, SB_NIFREE_OFF, SB_NFFREE_OFF in Hin.
      cbn in Hin. naive_solver lia. }
    assert (HFt : read_be32 (F (slice v sbo)) t = w32 (read_be32 v (sbo + t) + d) /\
      read_be32 (G (slice v cso)) co = w32 (read_be32 v (cso + co) + d)).
    { rewrite <- !slice_read_be32. unfold F, G.
      unfold summary_words, SB_NDIR_OFF, SB_NBFREE_OFF, SB_NIFREE_OFF, SB_NFFREE_OFF,
        SB_TIME_OFF in *. rewrite read_be32_write_other by lia.
      destruct Hin as [Hin|[Hin|[Hin|[Hin|[]]]]]; injection Hin as <- <- <-;
      split; repeat (rewrite read_add_other by lia); rewrite read_add_be32;
      repeat (rewrite read_add_other by lia); done. }
    destruct HFt as [HFt HGt]. split.
    + rewrite <- HFt. rewrite (read_be32_eq_on _ (blit v sbo (to_bytes (F a)) 2048)).
      * rewrite read_blit_in by lia. apply read_be32_eq_on. intros i Hi. apply HF. lia.
      * intros i Hi. rewrite (Hv5' i), blit_out by (unfold apart in Hap; lia). apply Hv3'.
    + rewrite <- HGt, (read_be32_equiv _ _ _ Hv5'), read_blit_in by lia.
      apply read_be32_eq_on. intros i Hi. apply HG. lia.
Qed.

(** ** Committing a changed header keeps the filesystem's accounts *)
Definition field_changes (a b c d : Z) : list (Z * Z * Z * Z) :=
  [(CG_CS_NDIR_OFF, 0, SB_NDIR_OFF, a); (CG_CS_NBFREE_OFF, 4, SB_NBFREE_OFF, b);
   (CG_CS_NIFREE_OFF, 8, SB_NIFREE_OFF, c); (CG_CS_NFFREE_OFF, 12, SB_NFFREE_OFF, d)].

Lemma w32_shift z a b : w32 (w32 z + (w32 (a + b) - a)) = w32 (w32 z + b).
Proof.
  unfold w32. rewrite (Zplus_mod (z mod 2 ^ 32)), Zminus_mod_idemp_l.
  rewrite <- Zplus_mod. f_equal. lia.
Qed.

Record committed (img : image) (cg : Z) (b' : buf) (w w' : world C) : Prop := Committed {
  cm_inv : bk_inv (w_ctx w');
  cm_acct : fs_acct img (view w');
  cm_header : eq_on 0 (cg_size (sb img)) (group_at img (view w') cg) b';
  cm_frame : forall i,
    ~ (slice_base img + 0x2000 <= i < slice_base img + 0x2000 + 2048) ->
    ~ (csum_off img cg <= i < csum_off img cg + 16) ->
    ~ (cg_block_offset (sb img) (slice_base img) cg <= i <
       cg_block_offset (sb img) (slice_base img) cg + cg_size (sb img)) ->
    view w' i = view w i;
}.

Context (img : image) (Himg : image_sane img) (Hlay : layout_apart img).
Local Abbreviation s := (sb img).

Lemma sane_geometry : geometry s.
Proof. destruct Himg as [_ Hwf Hv _]. by eapply valid_geometry. Qed.

(** The view after a header and its summaries are written. *)
Lemma commit_group_view cg b' da db dc dd (w w' : world C) :
  0 <= cg < cg_count s -> bk_inv (w_ctx w) -> wf_buf b' ->
  (write_group img cg b' ;;; update_summary_counts img cg da db dc dd) w = (Ok tt, w') ->
  bk_inv (w_ctx w') /\
  eq_on 0 (cg_size s) (group_at img (view w') cg) b' /\
  (forall f co t d, In (f, co, t, d) (field_changes da db dc dd) ->
     read_be32 (view w') (slice_base img + 0x2000 + t) =
       w32 (read_be32 (view w) (slice_base img + 0x2000 + t) + d) /\
     read_be32 (view w') (csum_off img cg + co) =
       w32 (read_be32 (view w) (csum_off img cg + co) + d)) /\
  forall i, ~ (slice_base img + 0x2000 <= i < slice_base img + 0x2000 + 2048) ->
    ~ (csum_off img cg <= i < csum_off img cg + 16) ->
    ~ (cg_block_offset s (slice_base img) cg <= i <
       cg_block_offset s (slice_base img) cg + cg_size s) ->
    view w' i = view w i.
Proof.
  intros Hcg Hinv Hb' Hr. pose proof sane_geometry as G. pose proof (geo_cg_size _ G).
  pose proof (geo_block_size _ G).
  apply bind_ok in Hr as ([] & w1 & Hw & Hu). unfold write_group in Hw.
  apply write_exact_spec in Hw as (Hi1 & _ & _ & Hv1); [|done].
  destruct (Hv1 eq_refl) as (Hv & _). clear Hv1.
  assert (Hcs : 0 <= cg_size s <= 8192) by (unfold CG_FREE_OFF in *; lia).
  rewrite w64_small in Hv by lia.
  set (cgo := cg_block_offset s (slice_base img) cg) in *.
  destruct Hlay as [L1 L2 L3]. specialize (L1 cg Hcg). specialize (L2 cg Hcg).
  specialize (L3 cg cg Hcg Hcg). fold cgo in L2, L3. unfold apart in *.
  apply update_summary_ok in Hu as (Hi2 & Hfr & Hwords); [|done|done].
  split_and!; [done| | |].
  - intros i Hi. unfold group_at, slice. fold cgo. rewrite Hfr by lia.
    rewrite (Hv (cgo + i)), blit_in by lia. rewrite to_bytes_id by done. f_equal. lia.
  - intros f co t d Hin.
    assert (Hin' : In (co, t, d) (summary_words da db dc dd)).
    { unfold field_changes, summary_words in *. cbn in *. naive_solver. }
    assert (Hco : 0 <= co <= 12 /\ 0 <= t <= 0xcc).
    { unfold summary_words, SB_NDIR_OFF, SB_NBFREE_OFF, SB_NIFREE_OFF, SB_NFFREE_OFF in Hin'.
      cbn in Hin'. naive_solver lia. }
    destruct (Hwords co t d Hin') as [H1 H2]. rewrite H1, H2.
    split; do 2 f_equal; apply read_be32_eq_on; intros i Hi; rewrite (Hv i);
    apply blit_out; lia.
  - intros i ???. rewrite Hfr by done. rewrite (Hv i). by apply blit_out.
Qed.

Lemma commit_group cg b' da db dc dd (w w' : world C) :
  0 <= cg < cg_count s -> bk_inv (w_ctx w) -> wf_buf b' -> fs_acct img (view w) ->
  group_ok s b' ->
  (forall f co t d, In (f, co, t, d) (field_changes da db dc dd) ->
     read_be32 b' f = w32 (read_be32 (group_at img (view w) cg) f + d)) ->
  (write_group img cg b' ;;; update_summary_counts img cg da db dc dd) w = (Ok tt, w') ->
  committed img cg b' w w'.
Proof.
  intros Hcg Hinv Hb' [Fg Fc Ft] Hok Hdelta Hr. pose proof sane_geometry as G.
  pose proof (geo_cg_size _ G).
  apply commit_group_view in Hr as (Hi & Hhdr & Hwords & Hfr); [|done..].
  assert (Hother : forall cg', 0 <= cg' < cg_count s -> cg' <> cg ->
    eq_on 0 (cg_size s) (group_at img (view w') cg') (group_at img (view w) cg')).
  { intros cg' Hcg' Hne i Hii. unfold group_at, slice.
    pose proof (groups_apart img cg cg' Himg Hcg Hcg' ltac:(done)) as Hap.
    pose proof (la_sb_group _ Hlay cg' Hcg') as Hap2.
    pose proof (la_csum_group _ Hlay cg cg' Hcg Hcg') as Hap3.
    unfold apart in *. apply Hfr; lia. }
  assert (Hfield : forall a b f co t d, eq_on 0 (cg_size s) a b ->
    In (f, co, t, d) (field_changes da db dc dd) -> read_be32 a f = read_be32 b f).
  { intros a b f co t d Hab Hin. apply read_be32_eq_on. intros i Hii. apply Hab.
    unfold CG_FREE_OFF, field_changes, CG_CS_NDIR_OFF, CG_CS_NBFREE_OFF, CG_CS_NIFREE_OFF,
      CG_CS_NFFREE_OFF in *. cbn in Hin. naive_solver lia. }
  assert (Hchange : forall f co t, In (f, co, t) counter_fields ->
    exists d, In (f, co, t, d) (field_changes da db dc dd)).
  { intros f co t Hin. unfold counter_fields, field_changes in *. cbn in *. naive_solver. }
  constructor; [done| |done|done].
  assert (Hwf : forall x : world C, bk_inv (w_ctx x) -> forall cg', wf_buf (group_at img (view x) cg'))
    by (intros; by apply wf_slice, bk_view_wf).
  constructor.
  - intros cg' Hcg'. destruct (decide (cg' = cg)) as [->|Hne].
    + by apply (group_ok_eq_on s b').
    + apply (group_ok_eq_on s (group_at img (view w) cg')); auto.
  - intros cg' f co t Hcg' Hin. destruct (Hchange _ _ _ Hin) as [d Hd].
    assert (Hco : 0 <= co <= 12) by (unfold counter_fields in Hin; cbn in Hin; naive_solver lia).
    destruct (decide (cg' = cg)) as [->|Hne].
    + destruct (Hwords _ _ _ _ Hd) as [_ ->]. rewrite (Fc cg f co t Hcg Hin).
      rewrite (Hfield _ b' f co t d Hhdr Hd). symmetry. by eapply Hdelta.
    + rewrite (Hfield _ _ f co t d (Hother cg' Hcg' Hne) Hd), <- (Fc cg' f co t Hcg' Hin).
      apply read_be32_eq_on. intros i Hii.
      pose proof (la_sb_csum _ Hlay cg' Hcg') as L1.
      pose proof (la_csum_group _ Hlay cg' cg Hcg' Hcg) as L3. unfold apart in *.
      apply Hfr; [lia| |lia]. unfold csum_off in *. lia.
  - intros f co t Hin. destruct (Hchange _ _ _ Hin) as [d Hd].
    destruct (Hwords _ _ _ _ Hd) as [-> _]. rewrite (Ft f co t Hin).
    rewrite (sumZ_update (fun cg => read_be32 (group_at img (view w) cg) f)
      (fun cg => read_be32 (group_at img (view w') cg) f) _ cg Hcg).
    2: { intros j Hj Hne. symmetry. by eapply Hfield; [apply Hother|]. }
    rewrite (Hfield _ b' f co t d Hhdr Hd), (Hdelta f co t d Hd).
    rewrite <- (w32_shift _ (read_be32 (group_at img (view w) cg) f) d).
    unfold w32. rewrite Zplus_mod_idemp_l. f_equal. lia.
Qed.

(** ** Reading a group, and its map fragment by fragment *)
Lemma read_group_ok cg (w w' : world C) b :
  read_group img cg w = (Ok b, w') -> bk_inv (w_ctx w) ->
  quiet w w' /\ wf_buf b /\ eq_on 0 (cg_size s) b (group_at img (view w) cg).
Proof.
  intros Hr Hinv. assert (Hq := Hr). apply read_group_quiet in Hq. split; [done|].
  pose proof (geo_cg_size _ sane_geometry) as Hc. pose proof (geo_block_size _ sane_geometry).
  unfold CG_FREE_OFF in Hc. unfold read_group in Hr. inv_step Hr. apply malloc_quiet in Hrun as [Qi Qv _ _].
  inv_step Hr. destruct (negb _); inv_step Hr.
  pose proof (read_exact_wf _ _ _ _ _ _ Hrun (Qi Hinv)) as Hwf.
  apply read_exact_ok in Hrun as (_ & _ & Hb); [|auto].
  rewrite w64_small in Hb by lia. split; [done|]. intros i Hi. rewrite Hb by done.
  apply (Qv Hinv).
Qed.

(** The map bit of a fragment and of an inode of the filesystem. *)
Definition frag_free (v : buf) (f : Z) : bool :=
  bit_test (group_at img v (f / frags_per_group s)) CG_FREE_OFF (f mod frags_per_group s).
Definition inode_used (v : buf) (ino : Z) : bool :=
  bit_test (group_at img v (ino / inodes_per_group s)) CG_IUSED_OFF (ino mod inodes_per_group s).

Lemma split_address n g l : 0 <= l < n -> (g * n + l) / n = g /\ (g * n + l) mod n = l.
Proof.
  intros Hl. split.
  - rewrite Z.div_add_l, Z.div_small by lia. lia.
  - rewrite Z.add_comm, Z_mod_plus_full. by apply Z.mod_small.
Qed.

Lemma map_byte_in_header j :
  0 <= j < frags_per_group s -> 0 <= CG_FREE_OFF + j / 8 < 0 + cg_size s.
Proof.
  intros Hj. pose proof (geo_cg_map _ sane_geometry) as Hm.
  assert (j / 8 < (frags_per_group s + 7) / 8) by (Z.to_euclidean_division_equations; lia).
  pose proof (Z.div_pos j 8 ltac:(lia) ltac:(lia)). unfold CG_FREE_OFF in *. lia.
Qed.
Lemma inode_byte_in_header j :
  0 <= j < inodes_per_group s -> 0 <= CG_IUSED_OFF + j / 8 < 0 + cg_size s.
Proof.
  intros Hj. pose proof (geo_ipg _ sane_geometry). pose proof (geo_cg_size _ sane_geometry).
  pose proof (iused_byte j ltac:(lia)). unfold CG_IUSED_OFF, CG_MAGIC_OFF, CG_FREE_OFF in *. lia.
Qed.

Lemma committed_other cg b' (w w' : world C) cg' :
  0 <= cg < cg_count s -> committed img cg b' w w' -> 0 <= cg' < cg_count s -> cg' <> cg ->
  eq_on 0 (cg_size s) (group_at img (view w') cg') (group_at img (view w) cg').
Proof.
  intros Hcg Hc Hcg' Hne i Hii. unfold group_at, slice.
  pose proof (groups_apart img cg cg' Himg Hcg Hcg' ltac:(done)) as Hap.
  pose proof (la_sb_group _ Hlay cg' Hcg') as Hap2.
  pose proof (la_csum_group _ Hlay cg cg' Hcg Hcg') as Hap3.
  unfold apart in *. apply (cm_frame _ _ _ _ _ Hc); lia.
Qed.

(** Map bits of the filesystem after a header whose map changed on one run. *)
Lemma committed_frags cg b b' (w w' : world C) start m v :
  0 <= cg < cg_count s -> committed img cg b' w w' ->
  eq_on 0 (cg_size s) b (group_at img (view w) cg) ->
  bits_after b' b start m v -> 0 <= start -> start + m <= frags_per_group s ->
  forall f, 0 <= f < cg_count s * frags_per_group s ->
    frag_free (view w') f =
      if (cg * frags_per_group s + start <=? f) && (f <? cg * frags_per_group s + start + m)
      then v else frag_free (view w) f.
Proof.
  intros Hcg Hc Hb Hbits Hst Hm f Hf. unfold frag_free.
  pose proof (geo_fpg _ sane_geometry) as Hfpg.
  set (g := f / frags_per_group s). set (l := f mod frags_per_group s).
  assert (Hl : 0 <= l < frags_per_group s) by by apply Z.mod_pos_bound.
  assert (Hfe : f = frags_per_group s * g + l) by by apply Z.div_mod; lia.
  assert (Hg : 0 <= g < cg_count s).
  { split; [apply Z.div_pos; lia|apply Z.div_lt_upper_bound; lia]. }
  destruct (decide (g = cg)) as [Heq|Hne].
  - rewrite Heq. rewrite (bit_test_byte _ b') by
      (apply (cm_header _ _ _ _ _ Hc); by apply map_byte_in_header).
    rewrite (Hbits l) by lia.
    rewrite (bit_test_byte b (group_at img (view w) cg)) by
      (apply Hb; by apply map_byte_in_header).
    destruct (Z.leb_spec start l), (Z.leb_spec (cg * frags_per_group s + start) f); try nia;
    destruct (Z.ltb_spec l (start + m)), (Z.ltb_spec f (cg * frags_per_group s + start + m));
      done || nia.
  - rewrite (bit_test_byte _ (group_at img (view w) g)) by
      (eapply committed_other; [| |done|done|by apply map_byte_in_header]; done).
    destruct (Z.leb_spec (cg * frags_per_group s + start) f); [|done].
    destruct (Z.ltb_spec f (cg * frags_per_group s + start + m)); [|done].
    destruct (decide (g < cg)); nia.
Qed.

Lemma committed_inodes cg b b' (w w' : world C) idx v :
  0 <= cg < cg_count s -> committed img cg b' w w' ->
  eq_on 0 (cg_size s) b (group_at img (view w) cg) ->
  (forall j, 0 <= j < 2048 -> bit_test b' CG_IUSED_OFF j =
             if j =? idx then v else bit_test b CG_IUSED_OFF j) ->
  0 <= idx < inodes_per_group s ->
  forall i, 0 <= i < cg_count s * inodes_per_group s ->
    inode_used (view w') i =
      if i =? cg * inodes_per_group s + idx then v else inode_used (view w) i.
Proof.
  intros Hcg Hc Hb Hbits Hidx i Hi. unfold inode_used.
  pose proof (geo_ipg _ sane_geometry) as Hipg.
  set (g := i / inodes_per_group s). set (l := i mod inodes_per_group s).
  assert (Hl : 0 <= l < inodes_per_group s) by (apply Z.mod_pos_bound; lia).
  assert (Hie : i = inodes_per_group s * g + l) by (apply Z.div_mod; lia).
  assert (Hg : 0 <= g < cg_count s).
  { split; [apply Z.div_pos; lia|apply Z.div_lt_upper_bound; lia]. }
  destruct (decide (g = cg)) as [Heq|Hne].
  - rewrite Heq. rewrite (bit_test_byte _ b') by
      (apply (cm_header _ _ _ _ _ Hc); by apply inode_byte_in_header).
    rewrite (Hbits l) by lia.
    rewrite (bit_test_byte b (group_at img (view w) cg)) by
      (apply Hb; by apply inode_byte_in_header).
    destruct (Z.eqb_spec l idx), (Z.eqb_spec i (cg * inodes_per_group s + idx)); done || nia.
  - rewrite (bit_test_byte _ (group_at img (view w) g)) by
      (eapply committed_other; [| |done|done|by apply inode_byte_in_header]; done).
    destruct (Z.eqb_spec i (cg * inodes_per_group s + idx)); [nia|done].
Qed.

(** ** The operations on one group *)
Lemma frame_group_ok b b' :
  group_ok s b -> header_frame b b' -> acct s b' -> group_ok s b'.
Proof.
  intros [Hl Ha Hi] Hfr Ha'. constructor; [|done|].
  - rewrite (header_frame_word b b') by (done || by left). done.
  - unfold iacct. rewrite (header_frame_word b b') by (done || by right; right; left).
    rewrite Hi. apply sumZ_ext. intros j Hj. rewrite (bit_test_byte b' b); [done|].
    pose proof (geo_ipg _ sane_geometry). pose proof (iused_byte j ltac:(lia)).
    unfold CG_IUSED_OFF, CG_MAGIC_OFF in *.
    apply Hfr; unfold CG_FREE_OFF, CG_BTOT_OFF, CG_IUSED_OFF; lia.
Qed.

Lemma inode_step_group_ok b b' idx d mode dd v :
  group_ok s b -> wf_buf b -> 0 <= idx < inodes_per_group s ->
  bit_test b CG_IUSED_OFF idx = negb v -> d = (if v then -1 else 1) ->
  inode_step b b' idx d mode dd v -> group_ok s b'.
Proof.
  intros [Hl Ha Hi] Hb Hidx Hbit -> (Hw & Hmap & Hn & _ & Hfr).
  pose proof (geo_ipg _ sane_geometry) as Hipg.
  assert (Hword : forall o, In o [CG_NDBLK_OFF; CG_CS_NBFREE_OFF; CG_CS_NFFREE_OFF] ->
    read_be32 b' o = read_be32 b o).
  { intros o Ho. apply read_be32_eq_on. intros i Hii.
    unfold CG_NDBLK_OFF, CG_CS_NBFREE_OFF, CG_CS_NFFREE_OFF in Ho. cbn in Ho.
    apply Hfr; unfold CG_IUSED_OFF, CG_MAGIC_OFF; lia. }
  assert (Hnd : read_be32 b' CG_NDBLK_OFF = read_be32 b CG_NDBLK_OFF) by (apply Hword; by left).
  assert (Hbits : forall j, 0 <= j -> bit_test b' CG_FREE_OFF j = bit_test b CG_FREE_OFF j).
  { intros j Hj. apply bit_test_high; [|done]. unfold CG_FREE_OFF. intros i Hii.
    apply Hfr; unfold CG_IUSED_OFF, CG_MAGIC_OFF; lia. }
  pose proof (block_size_pos _ (geometry_block_sizes _ sane_geometry)).
  assert (Hblk : forall k, 0 <= k ->
    blk b' (frags_per_block s) k = blk b (frags_per_block s) k).
  { intros k Hk. apply blk_ext. intros i Hii. apply Hbits. nia. }
  assert (Hbl : blocks s b' = blocks s b) by (unfold blocks; by rewrite Hnd).
  destruct Ha as [A1 A2 A3 A4].
  constructor; [by rewrite Hnd| |].
  - constructor; rewrite ?Hbl, ?Hnd.
    + rewrite Hword, A1 by (cbn; auto). apply sumZ_ext. intros k Hk. by rewrite Hblk by lia.
    + rewrite Hword, A2 by (cbn; auto). apply sumZ_ext. intros k Hk. by rewrite Hblk by lia.
    + intros j Hj. rewrite (read_be32_eq_on b' b).
      * rewrite A3 by done. apply sumZ_ext. intros k Hk. by rewrite Hblk by lia.
      * unfold CG_FRSUM_OFF. intros i Hii. apply Hfr; unfold CG_IUSED_OFF, CG_MAGIC_OFF; lia.
    + intros i Hii. pose proof (read_be32_range b Hb CG_NDBLK_OFF).
      rewrite Hbits by lia. by apply A4.
  - unfold iacct in *. rewrite Hn, Hi.
    set (f := fun i => if bit_test b CG_IUSED_OFF i then 0 else 1).
    set (g := fun i => if bit_test b' CG_IUSED_OFF i then 0 else 1).
    assert (Hup : sumZ g (inodes_per_group s) =
      sumZ f (inodes_per_group s) - f idx + g idx).
    { apply sumZ_update; [done|]. intros j Hj Hne. unfold f, g. rewrite Hmap by lia.
      by destruct (Z.eqb_spec j idx). }
    pose proof (sumZ_bounds g 1 (inodes_per_group s) ltac:(lia)
      ltac:(intros k; unfold g; destruct (bit_test b' CG_IUSED_OFF k); lia)).
    assert (f idx = (if v then 1 else 0) /\ g idx = (if v then 0 else 1)) as [Hf Hg].
    { unfold f, g. rewrite Hmap, Z.eqb_refl, Hbit by lia. by destruct v. }
    rewrite Hf, Hg in Hup. rewrite w32_small; destruct v; lia.
Qed.

Lemma fs_group cg (w : world C) :
  0 <= cg < cg_count s -> fs_acct img (view w) -> bk_inv (w_ctx w) ->
  forall b, eq_on 0 (cg_size s) b (group_at img (view w) cg) -> wf_buf b ->
  group_ok s b /\ group_small s b /\
  forall f c t d (l := field_changes d d d d), In (f, c, t, d) l ->
    read_be32 b f = read_be32 (group_at img (view w) cg) f.
Proof.
  intros Hcg Hfs Hinv b Hb Hwf. pose proof sane_geometry as G.
  assert (Hok : group_ok s b).
  { apply (group_ok_eq_on s (group_at img (view w) cg)); [done| |done|by apply Hfs].
    by apply wf_slice, bk_view_wf. }
  split_and!; [done| |].
  - split; [by apply geometry_block_sizes|]. pose proof (go_limit _ _ Hok).
    pose proof (geo_cg_map _ G). pose proof (geo_cg_size _ G). pose proof (geo_block_size _ G).
    assert (Hd : frags_per_group s <= 8 * ((frags_per_group s + 7) / 8))
      by (Z.to_euclidean_division_equations; lia).
    unfold CG_FREE_OFF in *. lia.
  - intros f c t d l Hin. pose proof (geo_cg_size _ G). apply read_be32_eq_on.
    intros i Hii. apply Hb.
    unfold l, CG_FREE_OFF, field_changes, CG_CS_NDIR_OFF, CG_CS_NBFREE_OFF, CG_CS_NIFREE_OFF,
      CG_CS_NFFREE_OFF in *. cbn in Hin. naive_solver lia.
Qed.

Lemma fs_acct_equiv v v' : wf_buf v -> v' ≡ v -> fs_acct img v -> fs_acct img v'.
Proof.
  intros Hwf Hv [Fg Fc Ft].
  assert (Hg : forall cg, group_at img v' cg ≡ group_at img v cg).
  { intros cg i. apply Hv. }
  constructor.
  - intros cg Hcg. apply (group_ok_eq_on s (group_at img v cg)); auto.
    + apply sane_geometry.
    + by apply wf_slice.
    + intros i _. apply Hg.
  - intros cg f c t Hcg Hin. rewrite !(read_be32_equiv _ _ _ Hv), (read_be32_equiv _ _ _ (Hg cg)).
    by eapply Fc.
  - intros f c t Hin. rewrite (read_be32_equiv _ _ _ Hv), (Ft f c t Hin). f_equal.
    apply sumZ_ext. intros cg _. symmetry. apply read_be32_equiv, Hg.
Qed.

(** Committing after steps that leave the view alone. *)
Lemma commit_group_after cg b b' da db dc dd (w w1 w' : world C) :
  0 <= cg < cg_count s -> bk_inv (w_ctx w) -> quiet w w1 -> fs_acct img (view w) ->
  wf_buf b -> eq_on 0 (cg_size s) b (group_at img (view w) cg) ->
  wf_buf b' -> group_ok s b' ->
  (forall f co t d, In (f, co, t, d) (field_changes da db dc dd) ->
     read_be32 b' f = w32 (read_be32 b f + d)) ->
  (write_group img cg b' ;;; update_summary_counts img cg da db dc dd) w1 = (Ok tt, w') ->
  committed img cg b' w w'.
Proof.
  intros Hcg Hinv [Qi Qv _ _] Hfs Hwf Hb Hwf' Hok Hd Hr.
  assert (Hwv : wf_buf (view w)) by by apply bk_view_wf.
  apply commit_group in Hr as [Ci Ca Ch Cf]; try done; [|auto| |].
  - constructor; try done. intros i ???. rewrite Cf by done. by apply Qv.
  - by apply (fs_acct_equiv (view w)); [|apply Qv|].
  - intros f co t d Hin. rewrite (Hd f co t d Hin). do 2 f_equal.
    apply read_be32_eq_on. intros i Hi. transitivity (group_at img (view w) cg i);
      [|symmetry; by apply Qv]. apply Hb. pose proof (geo_cg_size _ sane_geometry).
    unfold CG_FREE_OFF, field_changes, CG_CS_NDIR_OFF, CG_CS_NBFREE_OFF, CG_CS_NIFREE_OFF,
      CG_CS_NFFREE_OFF in *. cbn in Hin. naive_solver lia.
Qed.

(** The words a fragment operation reports. *)
Lemma frag_changes b b' dnb dnf :
  wf_buf b' -> header_frame b b' -> counters_move b b' dnb dnf ->
  forall f co t d, In (f, co, t, d) (field_changes 0 dnb 0 dnf) ->
    read_be32 b' f = w32 (read_be32 b f + d).
Proof.
  intros Hw Hfr [H1 H2] f co t d Hin.
  pose proof (read_be32_range b' Hw f).
  destruct Hin as [[= <- <- <- <-]|[[= <- <- <- <-]|[[= <- <- <- <-]|[[= <- <- <- <-]|[]]]]].
  - rewrite Z.add_0_r, <- (header_frame_word b b') by (done || cbn; auto).
    by rewrite w32_small.
  - rewrite <- H1. by rewrite w32_small.
  - rewrite Z.add_0_r, <- (header_frame_word b b') by (done || cbn; auto).
    by rewrite w32_small.
  - rewrite <- H2. by rewrite w32_small.
Qed.

Lemma allocate_frags_in_group_ok cg m (w w' : world C) frag :
  0 <= cg < cg_count s -> 0 <= m -> fs_acct img (view w) -> bk_inv (w_ctx w) ->
  allocate_frags_in_group img cg m w = (Ok frag, w') ->
  exists b b' k off, let start := k * frags_per_block s + off in
    eq_on 0 (cg_size s) b (group_at img (view w) cg) /\
    0 < m <= frags_per_block s /\ free_run s b m k off /\
    read_be32 b CG_NDBLK_OFF <= frags_per_group s /\
    cg * frags_per_group s + read_be32 b CG_NDBLK_OFF <= frag_count s /\
    frag = cg * frags_per_group s + start /\
    bits_after b' b start m false /\ committed img cg b' w w'.
Proof.
  intros Hcg Hm Hfs Hinv Hr. unfold allocate_frags_in_group in Hr.
  destruct (_ || _) eqn:Em in Hr; [by inv_step Hr|]. bool_to_prop.
  inv_step Hr. apply read_group_ok in Hrun as (Hq1 & Hwf & Hb); [|done].
  destruct (bad_limit _ _ _) eqn:El; [by inv_step Hr|]. unfold bad_limit in El. bool_to_prop.
  destruct (fs_group cg w Hcg Hfs Hinv a Hb Hwf) as (Hok & Hsmall & Hwords).
  destruct (choose_run _ _ _ _) as [c|] eqn:Ec; [|by inv_step Hr].
  inv_step Hr. apply time_now_quiet in Hrun as Hq2.
  destruct (apply_choice _ _ _ _ _) as [[[start b'] dnb] dnf] eqn:Ea.
  assert (Hal : allocate_in_header s a (read_be32 a CG_NDBLK_OFF) m a0 =
    Some (start, b', dnb, dnf)) by (unfold allocate_in_header; by rewrite Ec, Ea).
  pose proof (geo_spc _ sane_geometry) as [Hspc Hspt].
  apply allocate_in_header_acct in Hal
    as ((k & off & -> & Hfree) & Hw' & Ha' & Hbits & [Hc1 Hc2] & Hfr);
    [|done|done|apply Hok|done|done|lia].
  rewrite bind_assoc in Hr. inv_step Hr. inv_step Hr. destruct a1.
  exists a, b', k, off. pose proof (read_be32_range a Hwf CG_NDBLK_OFF).
  assert (Hfrag : w32 (cg * frags_per_group s + (k * frags_per_block s + off)) =
    cg * frags_per_group s + (k * frags_per_block s + off)).
  { apply w32_small. pose proof (geo_minmax _ sane_geometry). pose proof (geo_fpg _ sane_geometry).
    pose proof (block_size_pos _ (geometry_block_sizes _ sane_geometry)).
    destruct Hfree as (? & ? & ? & ? & _). nia. }
  split_and!; try done; try lia.
  eapply (commit_group_after cg a b' 0 dnb 0 dnf w w1); try done.
  - by etrans.
  - by eapply frame_group_ok.
  - by apply frag_changes.
Qed.

Lemma free_fragment_run_ok frag m (w w' : world C) :
  let cg := frag / frags_per_group s in
  let lf := frag mod frags_per_group s in
  0 <= frag < cg_count s * frags_per_group s -> 0 <= m ->
  lf mod frags_per_block s + m <= frags_per_block s ->
  lf + m <= read_be32 (group_at img (view w) cg) CG_NDBLK_OFF ->
  fs_acct img (view w) -> bk_inv (w_ctx w) ->
  free_fragment_run img frag m w = (Ok tt, w') ->
  exists b b', eq_on 0 (cg_size s) b (group_at img (view w) cg) /\ 0 < m /\
    lf + m <= frags_per_group s /\
    (forall j, lf <= j < lf + m -> bit_test b CG_FREE_OFF j = false) /\
    bits_after b' b lf m true /\ committed img cg b' w w'.
Proof.
  intros cg lf Hfrag Hm Hblock Hlim Hfs Hinv Hr. pose proof sane_geometry as G.
  pose proof (geo_fpg _ G). pose proof (block_size_pos _ (geometry_block_sizes _ G)) as Hf.
  assert (Hcg : 0 <= cg < cg_count s).
  { split; [apply Z.div_pos; lia|apply Z.div_lt_upper_bound; lia]. }
  assert (Hlf : 0 <= lf < frags_per_group s) by by apply Z.mod_pos_bound.
  unfold free_fragment_run in Hr. fold cg lf in Hr.
  destruct (_ || _) eqn:Em in Hr; [by inv_step Hr|]. bool_to_prop.
  inv_step Hr. apply read_group_ok in Hrun as (Hq1 & Hwf & Hb); [|done].
  destruct (fs_group cg w Hcg Hfs Hinv a Hb Hwf) as (Hok & Hsmall & Hwords).
  destruct (set_free_bits _ _) as [b1|] eqn:Es; [|by inv_step Hr].
  inv_step Hr. apply time_now_quiet in Hrun as Hq2.
  destruct (give_fragments _ _ _ _ _) as [[[b' dnb] dnf]|] eqn:Eg; [|by inv_step Hr].
  set (k := lf / frags_per_block s). set (off := lf mod frags_per_block s).
  assert (Hoff : 0 <= off < frags_per_block s) by (apply Z.mod_pos_bound; lia).
  assert (Hk : lf = k * frags_per_block s + off)
    by (rewrite Z.mul_comm; apply Z.div_mod; lia).
  assert (Hk0 : 0 <= k) by (apply Z.div_pos; lia).
  assert (Hnd : read_be32 a CG_NDBLK_OFF = read_be32 (group_at img (view w) cg) CG_NDBLK_OFF).
  { apply read_be32_eq_on. intros i Hi. apply Hb. pose proof (geo_cg_size _ G).
    unfold CG_FREE_OFF, CG_NDBLK_OFF in *. lia. }
  pose proof (blocks_bound s a Hwf Hsmall) as [Hbl Hbl'].
  pose proof (geo_spc _ G) as [Hspc Hspt]. fold off in Hblock.
  rewrite Hk in Eg. apply give_fragments_whole in Eg
    as (Hw' & Ha' & Hbits & Hrange & Hcm & Hfr); try done; try lia; [|apply Hok|unfold blocks in *; nia].
  rewrite <- Hk in Hbits. exists a, b'.
  rewrite range_is_blk, <- Hk in Hrange by lia. pose proof (go_limit _ _ Hok).
  split_and!; try done; try lia.
  eapply (commit_group_after cg a b' 0 dnb 0 dnf w w1); try done.
  - by etrans.
  - by eapply frame_group_ok.
  - by apply frag_changes.
Qed.

(** The words an inode operation reports. *)
Lemma inode_changes b b' idx d mode dd v :
  wf_buf b -> inode_step b b' idx d mode dd v ->
  forall f co t x, In (f, co, t, x)
    (field_changes (if is_dir_mode mode then dd else 0) 0 d 0) ->
    read_be32 b' f = w32 (read_be32 b f + x).
Proof.
  intros Hb (Hw & _ & Hn & Hd & Hfr) f co t x Hin.
  pose proof (read_be32_range b Hb f).
  destruct Hin as [[= <- <- <- <-]|[[= <- <- <- <-]|[[= <- <- <- <-]|[[= <- <- <- <-]|[]]]]].
  - rewrite Hd. case_match; [done|]. by rewrite Z.add_0_r, w32_small.
  - rewrite Z.add_0_r, w32_small by done. apply read_be32_eq_on.
    unfold CG_CS_NBFREE_OFF. intros i Hi. apply Hfr; unfold CG_IUSED_OFF, CG_MAGIC_OFF; lia.
  - done.
  - rewrite Z.add_0_r, w32_small by done. apply read_be32_eq_on.
    unfold CG_CS_NFFREE_OFF. intros i Hi. apply Hfr; unfold CG_IUSED_OFF, CG_MAGIC_OFF; lia.
Qed.

Lemma allocate_inode_ok cg mode (w w' : world C) ino :
  0 <= cg < cg_count s -> fs_acct img (view w) -> bk_inv (w_ctx w) ->
  allocate_inode_in_one_group img cg mode w = (Ok ino, w') ->
  exists b b' idx, eq_on 0 (cg_size s) b (group_at img (view w) cg) /\
    0 <= idx < inodes_per_group s /\ (cg = 0 -> 2 <= idx) /\
    bit_test b CG_IUSED_OFF idx = false /\
    ino = cg * inodes_per_group s + idx /\
    (forall j, 0 <= j < 2048 -> bit_test b' CG_IUSED_OFF j =
       if j =? idx then true else bit_test b CG_IUSED_OFF j) /\
    committed img cg b' w w'.
Proof.
  intros Hcg Hfs Hinv Hr. pose proof (geo_ipg _ sane_geometry) as Hipg.
  unfold allocate_inode_in_one_group in Hr.
  inv_step Hr. apply read_group_ok in Hrun as (Hq1 & Hwf & Hb); [|done].
  destruct (fs_group cg w Hcg Hfs Hinv a Hb Hwf) as (Hok & Hsmall & Hwords).
  destruct (_ =? 0) eqn:E0; [by inv_step Hr|].
  destruct (find_inode _ _ _) as [idx|] eqn:Ef; [|by inv_step Hr].
  apply find_inode_sound in Ef as (Hidx & Hfree & Hres); [|lia].
  inv_step Hr. apply time_now_quiet in Hrun as Hq2.
  pose proof (take_inode_step a idx mode a0 Hwf ltac:(lia)) as Hstep.
  pose proof Hstep as (Hw' & Hmap & _ & _ & _).
  rewrite bind_assoc in Hr. inv_step Hr. inv_step Hr. destruct a1.
  exists a, (take_inode a idx mode a0), idx.
  assert (Hino : w32 (cg * inodes_per_group s + idx) = cg * inodes_per_group s + idx).
  { apply w32_small. pose proof (geo_inodes _ sane_geometry). unfold INT32_MAX in *. nia. }
  split_and!; try done; try lia.
  eapply (commit_group_after cg a _ (if is_dir_mode mode then 1 else 0) 0 (-1) 0 w w1);
    try done.
  - by etrans.
  - by apply (inode_step_group_ok a _ idx (-1) mode 1 true).
  - by eapply inode_changes.
Qed.

Lemma free_inode_ok ino mode (w w' : world C) :
  let cg := ino / inodes_per_group s in
  let idx := ino mod inodes_per_group s in
  0 <= ino < cg_count s * inodes_per_group s -> fs_acct img (view w) -> bk_inv (w_ctx w) ->
  free_inode_in_group img ino mode w = (Ok tt, w') ->
  exists b b', eq_on 0 (cg_size s) b (group_at img (view w) cg) /\
    bit_test b CG_IUSED_OFF idx = true /\
    (forall j, 0 <= j < 2048 -> bit_test b' CG_IUSED_OFF j =
       if j =? idx then false else bit_test b CG_IUSED_OFF j) /\
    committed img cg b' w w'.
Proof.
  intros cg idx Hino Hfs Hinv Hr. pose proof (geo_ipg _ sane_geometry) as Hipg.
  assert (Hcg : 0 <= cg < cg_count s).
  { split; [apply Z.div_pos; lia|apply Z.div_lt_upper_bound; lia]. }
  assert (Hidx : 0 <= idx < inodes_per_group s) by (apply Z.mod_pos_bound; lia).
  unfold free_inode_in_group in Hr. fold cg idx in Hr.
  inv_step Hr. apply read_group_ok in Hrun as (Hq1 & Hwf & Hb); [|done].
  destruct (fs_group cg w Hcg Hfs Hinv a Hb Hwf) as (Hok & Hsmall & Hwords).
  destruct (negb _) eqn:E0; [by inv_step Hr|].
  inv_step Hr. apply time_now_quiet in Hrun as Hq2.
  destruct (give_inode _ _ _ _) as [b'|] eqn:Eg; [|by inv_step Hr].
  apply give_inode_step in Eg as [Hused Hstep]; [|done|lia].
  pose proof Hstep as (Hw' & Hmap & _ & _ & _).
  exists a, b'. split_and!; try done.
  eapply (commit_group_after cg a _ (if is_dir_mode mode then -1 else 0) 0 1 0 w w1);
    try done.
  - by etrans.
  - by apply (inode_step_group_ok a _ idx 1 mode (-1) false).
  - by eapply inode_changes.
Qed.
End alloc_facts.

(** ** Checking the invariant of a given image *)
Definition group_check (s : superblock) (b : buf) : bool :=
  let n := blocks s b in
  let nd := read_be32 b CG_NDBLK_OFF in
  (nd <=? frags_per_group s) &&
  (read_be32 b CG_CS_NBFREE_OFF =?
     sumZ (fun k => whole_count (blk b (frags_per_block s) k)) n) &&
  (read_be32 b CG_CS_NFFREE_OFF =?
     sumZ (fun k => frag_count_of (blk b (frags_per_block s) k)) n) &&
  forallb (fun j => read_be32 b (CG_FRSUM_OFF + j * 4) =?
     sumZ (fun k => run_count j (blk b (frags_per_block s) k)) n)
    (seqZ 1 (frags_per_block s - 1)) &&
  forallb (fun i => negb (bit_test b CG_FREE_OFF i)) (seqZ nd (n * frags_per_block s - nd)) &&
  (read_be32 b CG_CS_NIFREE_OFF =?
     sumZ (fun i => if bit_test b CG_IUSED_OFF i then 0 else 1) (inodes_per_group s)).
Definition fs_acct_check (img : image) (v : buf) : bool :=
  let n := cg_count (sb img) in
  forallb (fun cg => group_check (sb img) (group_at img v cg) &&
    forallb (fun '(f, c, t) =>
      read_be32 v (csum_off img cg + c) =? read_be32 (group_at img v cg) f) counter_fields)
    (seqZ 0 n) &&
  forallb (fun '(f, c, t) => read_be32 v (slice_base img + 0x2000 + t) =?
    w32 (sumZ (fun cg => read_be32 (group_at img v cg) f) n)) counter_fields.

Lemma group_check_sound s b : group_check s b = true -> group_ok s b.
Proof.
  unfold group_check. rewrite !andb_true_iff, !forallb_seqZ, !Z.eqb_eq, Z.leb_le.
  intros [[[[[H1 H2] H3] H4] H5] H6]. constructor; [done| |done].
  constructor; [done|done| |].
  - intros j Hj. apply Z.eqb_eq, H4. lia.
  - intros i Hi. apply negb_true_iff, H5. lia.
Qed.
Lemma fs_acct_check_sound img v : fs_acct_check img v = true -> fs_acct img v.
Proof.
  unfold fs_acct_check. rewrite andb_true_iff, forallb_seqZ. intros [Hg Ht].
  assert (Hgrp : forall cg, 0 <= cg < cg_count (sb img) -> _) by (intros cg Hcg;
    specialize (Hg cg ltac:(lia)); apply andb_true_iff in Hg; exact Hg).
  constructor.
  - intros cg Hcg. by apply group_check_sound, Hgrp.
  - intros cg f c t Hcg Hin. destruct (Hgrp cg Hcg) as [_ Hc]. rewrite forallb_forall in Hc.
    apply Z.eqb_eq. exact (Hc _ Hin).
  - intros f c t Hin. rewrite forallb_forall in Ht. apply Z.eqb_eq. exact (Ht _ Hin).
Qed.

(** ** A concrete filesystem for the witnesses

    Two groups of 256 fragments: group 0 has fragments 0 to 43 and inodes 0 to 2
    in use, group 1 its metadata only. *)
Definition mini_header (ndir nbfree nifree nffree frsum4 iused map5 : Z) : buf :=
  let b := write_be32 zeros CG_MAGIC_OFF CG_MAGIC in
  let b := write_be32 b CG_NDBLK_OFF 256 in
  let b := write_be32 b CG_CS_NDIR_OFF ndir in
  let b := write_be32 b CG_CS_NBFREE_OFF nbfree in
  let b := write_be32 b CG_CS_NIFREE_OFF nifree in
  let b := write_be32 b CG_CS_NFFREE_OFF nffree in
  let b := write_be32 b (CG_FRSUM_OFF + 4 * 4) frsum4 in
  let b := upd b CG_IUSED_OFF iused in
  let b := upd b (CG_FREE_OFF + 5) map5 in
  fill b (CG_FREE_OFF + 6) 255 26.
Definition mini_header0 : buf := mini_header 1 26 61 4 1 7 0xf0.
Definition mini_header1 : buf := mini_header 0 27 64 0 0 0 0xff.
Definition mini_totals : buf :=
  let b := write_be32 zeros SB_NDIR_OFF 1 in
  let b := write_be32 b SB_NBFREE_OFF 53 in
  let b := write_be32 b SB_NIFREE_OFF 125 in
  write_be32 b SB_NFFREE_OFF 4.
Definition mini_summary : buf :=
  write_be32s (write_be32s zeros 0 [1; 26; 61; 4]) 16 [0; 27; 64; 0].
Definition mini_disk : buf :=
  let b := blit zeros 8192 mini_totals 2048 in
  let b := blit b 24576 mini_header0 2048 in
  let b := blit b 40960 mini_summary 32 in
  blit b 286720 mini_header1 2048.
Definition mini_file (script : list io_outcome) : file := File mini_disk (512 * 1024) script [].
Definition mini_world : world file := raw_world (mini_file []).

Lemma mini_header_wf a b c d e f g : wf_buf (mini_header a b c d e f g).
Proof. unfold mini_header. auto 15 with bytes. Qed.
Lemma mini_disk_wf : wf_buf mini_disk.
Proof.
  unfold mini_disk, mini_totals, mini_summary, mini_header0, mini_header1.
  pose proof mini_header_wf. auto 15 with bytes.
Qed.
Lemma mini_file_inv script : file_inv (mini_file script).
Proof.
  split; [cbn; lia|]. split; [apply mini_disk_wf|]. intros i Hi. cbn [f_size mini_file] in Hi.
  cbn [f_data mini_file]. unfold mini_disk. rewrite !blit_out by lia. done.
Qed.

Lemma mini_fs_acct : fs_acct mini_image mini_disk.
Proof. apply fs_acct_check_sound. vm_compute. reflexivity. Qed.

Lemma mini_layout : layout_apart mini_image.
Proof.
  constructor.
  - intros cg Hcg. unfold apart, csum_off. cbn in *. lia.
  - intros cg Hcg. cbn in Hcg. assert (cg = 0 \/ cg = 1) as [->| ->] by lia;
    unfold apart; vm_compute; left; discriminate.
  - intros cg cg' Hcg Hcg'. cbn in Hcg, Hcg'. unfold apart, csum_off.
    assert (cg' = 0 \/ cg' = 1) as [->| ->] by lia.
    + right. replace (cg_block_offset _ _ _) with 24576 by reflexivity. cbn. lia.
    + left. replace (cg_block_offset _ _ _) with 286720 by reflexivity. cbn. lia.
Qed.

(** ** What a caller sees of the allocators *)

(** Bytes of the superblock, of the summary area and of the group headers. *)
Definition meta (img : image) (i : Z) : Prop :=
  slice_base img + 0x2000 <= i < slice_base img + 0x2000 + 2048 \/
  exists cg, 0 <= cg < cg_count (sb img) /\
    (csum_off img cg <= i < csum_off img cg + 16 \/
     cg_block_offset (sb img) (slice_base img) cg <= i <
       cg_block_offset (sb img) (slice_base img) cg + cg_size (sb img)).

Section outcomes.
Context {C : Type} `{HB : Backend C, HS : !BackendSpec C}.
Variable img : image.
Local Abbreviation fpg := (frags_per_group (sb img)).
Local Abbreviation fpb := (frags_per_block (sb img)).
Local Abbreviation ipg := (inodes_per_group (sb img)).

(** The state allocators expect and keep. *)
Record steady (w : world C) : Prop := Steady {
  st_inv : bk_inv (w_ctx w);
  st_acct : fs_acct img (view w);
}.

(** Exactly the run at [frag] changes to [free]. *)
Definition run_marked (frag m : Z) (free : bool) (w w' : world C) : Prop :=
  forall f, 0 <= f < cg_count (sb img) * fpg ->
    frag_free img (view w') f =
      if (frag <=? f) && (f <? frag + m) then free else frag_free img (view w) f.

Definition only_meta (w w' : world C) : Prop := forall i, ~ meta img i -> view w' i = view w i.

Record frags_taken (m frag : Z) (w w' : world C) : Prop := FragsTaken {
  ft_steady : steady w';
  ft_count : 0 < m;
  ft_block : (frag mod fpg) mod fpb + m <= fpb;
  ft_range : 0 <= frag /\ frag + m <= frag_count (sb img);
  ft_free : forall f, frag <= f < frag + m -> frag_free img (view w) f = true;
  ft_bits : run_marked frag m false w w';
  ft_only : only_meta w w';
}.
Record frags_given (m frag : Z) (w w' : world C) : Prop := FragsGiven {
  fg_steady : steady w';
  fg_count : 0 < m;
  fg_used : forall f, frag <= f < frag + m -> frag_free img (view w) f = false;
  fg_bits : run_marked frag m true w w';
  fg_only : only_meta w w';
}.
Record inode_taken (ino : Z) (w w' : world C) : Prop := InodeTaken {
  it_steady : steady w';
  it_range : 2 <= ino < cg_count (sb img) * ipg;
  it_free : inode_used img (view w) ino = false;
  it_bits : forall i, 0 <= i < cg_count (sb img) * ipg ->
    inode_used img (view w') i = if i =? ino then true else inode_used img (view w) i;
  it_only : only_meta w w';
}.
Record inode_given (ino : Z) (w w' : world C) : Prop := InodeGiven {
  ig_steady : steady w';
  ig_used : inode_used img (view w) ino = true;
  ig_bits : forall i, 0 <= i < cg_count (sb img) * ipg ->
    inode_used img (view w') i = if i =? ino then false else inode_used img (view w) i;
  ig_only : only_meta w w';
}.

Hypothesis Himg : image_sane img.
Hypothesis Hlay : layout_apart img.

Lemma committed_only cg b' w w' :
  0 <= cg < cg_count (sb img) -> committed img cg b' w w' -> only_meta w w'.
Proof.
  intros Hcg Hc i Hi. apply (cm_frame _ _ _ _ _ Hc); intros ?; apply Hi; unfold meta; eauto 6.
Qed.
Lemma committed_steady cg b' w w' : committed img cg b' w w' -> steady w'.
Proof. intros Hc. constructor; apply Hc. Qed.

Lemma group_of f :
  0 <= f < cg_count (sb img) * fpg ->
  f = fpg * (f / fpg) + f mod fpg /\ 0 <= f mod fpg < fpg /\
  0 <= f / fpg < cg_count (sb img).
Proof.
  pose proof (geo_fpg _ (sane_geometry img Himg)). intros Hf. split_and!.
  - apply Z.div_mod. lia.
  - apply Z.mod_pos_bound. lia.
  - apply Z.mod_pos_bound. lia.
  - apply Z.div_pos; lia.
  - apply Z.div_lt_upper_bound; lia.
Qed.

(** The map bit of a fragment, read in a header buffer. *)
Lemma frag_free_in_header cg b l w :
  0 <= l < fpg -> eq_on 0 (cg_size (sb img)) b (group_at img (view w) cg) ->
  frag_free img (view w) (cg * fpg + l) = bit_test b CG_FREE_OFF l.
Proof.
  intros Hl Hb. unfold frag_free. destruct (split_address fpg cg l Hl) as [-> ->].
  symmetry. apply bit_test_byte, Hb. by apply map_byte_in_header.
Qed.

Lemma allocate_group_taken cg m w w' frag :
  steady w -> 0 <= cg < cg_count (sb img) -> 0 <= m ->
  allocate_frags_in_group img cg m w = (Ok frag, w') -> frags_taken m frag w w'.
Proof.
  intros [Hinv Hfs] Hcg Hm Hrun. pose proof (sane_geometry img Himg) as G.
  pose proof (geo_fpg _ G). pose proof (block_size_pos _ (geometry_block_sizes _ G)).
  apply allocate_frags_in_group_ok in Hrun as (b & b' & k & off & Hb & Hm' &
    (Hk & Ho & Hom & Hlim & Hr) & Hnd & Hcount & Hfrag & Hbits & Hc); try done.
  set (start := k * fpb + off) in *.
  assert (Hst : 0 <= start /\ start + m <= fpg) by (unfold start; nia).
  rewrite range_is_blk in Hr by done. fold start in Hr.
  assert (Hmod : frag mod fpg mod fpb = off).
  { rewrite Hfrag. destruct (split_address fpg cg start) as [_ ->]; [lia|].
    unfold start. rewrite Z.add_comm, Z_mod_plus_full. apply Z.mod_small. lia. }
  constructor; [by eapply committed_steady|lia|by rewrite Hmod|nia| | |by eapply committed_only].
  - intros f Hf. replace f with (cg * fpg + (f - cg * fpg)) by lia.
    rewrite (frag_free_in_header cg b) by (done || lia). apply Hr. lia.
  - intros f Hf. rewrite (committed_frags img Himg Hlay cg b b' w w' start m false) by
      (done || lia). by rewrite Hfrag.
Qed.

Lemma free_run_given frag m w w' :
  steady w -> 0 <= frag < cg_count (sb img) * fpg -> 0 <= m ->
  (frag mod fpg) mod fpb + m <= fpb ->
  frag mod fpg + m <= read_be32 (group_at img (view w) (frag / fpg)) CG_NDBLK_OFF ->
  free_fragment_run img frag m w = (Ok tt, w') -> frags_given m frag w w'.
Proof.
  intros [Hinv Hfs] Hfrag Hm Hblock Hlimit Hrun.
  apply free_fragment_run_ok in Hrun as (b & b' & Hb & Hm' & Hfit & Hused & Hbits & Hc);
    try done.
  destruct (group_of frag Hfrag) as (Hsplit & Hlf & Hcg).
  constructor; [by eapply committed_steady|done| | |by eapply committed_only].
  - intros f Hf. replace f with (frag / fpg * fpg + (f - frag / fpg * fpg)) by lia.
    rewrite (frag_free_in_header _ b) by (done || lia). apply Hused. lia.
  - intros f Hf. rewrite (committed_frags img Himg Hlay _ b b' w w' (frag mod fpg) m true) by
      (done || lia). by replace (frag / fpg * fpg + frag mod fpg) with frag by lia.
Qed.

Lemma allocate_one_taken cg mode w w' ino :
  steady w -> 0 <= cg < cg_count (sb img) ->
  allocate_inode_in_one_group img cg mode w = (Ok ino, w') -> inode_taken ino w w'.
Proof.
  intros [Hinv Hfs] Hcg Hrun. pose proof (sane_geometry img Himg) as G.
  pose proof (geo_ipg _ G) as Hipg. assert (Hmin : 2 <= ipg).
  { pose proof (geo_ipb _ G). pose proof (geo_block_size _ G). pose proof (geo_ipg_mult _ G) as Hm.
    apply Z.mod_divide in Hm as [q Hq]; unfold UFS_INODE_SIZE in *; [nia|lia]. }
  apply allocate_inode_ok in Hrun as (b & b' & idx & Hb & Hidx & Hres & Hfree & -> & Hmap & Hc);
    try done.
  constructor; [by eapply committed_steady| | | |by eapply committed_only].
  - split; [|nia]. destruct (decide (cg = 0)) as [->|]; [specialize (Hres eq_refl); lia|nia].
  - unfold inode_used. destruct (split_address ipg cg idx) as [-> ->]; [done|].
    rewrite <- Hfree. symmetry. apply bit_test_byte, Hb. by apply inode_byte_in_header.
  - intros i Hi. by apply (committed_inodes img Himg Hlay cg b b').
Qed.

Lemma free_inode_given ino mode w w' :
  steady w -> 0 <= ino < cg_count (sb img) * ipg ->
  free_inode_in_group img ino mode w = (Ok tt, w') -> inode_given ino w w'.
Proof.
  intros [Hinv Hfs] Hino Hrun. pose proof (geo_ipg _ (sane_geometry img Himg)) as Hipg.
  apply free_inode_ok in Hrun as (b & b' & Hb & Hused & Hmap & Hc); try done.
  assert (Hidx : 0 <= ino mod ipg < ipg) by (apply Z.mod_pos_bound; lia).
  assert (Hsplit : ino = ipg * (ino / ipg) + ino mod ipg) by (apply Z.div_mod; lia).
  assert (Hcg : 0 <= ino / ipg < cg_count (sb img))
    by (split; [apply Z.div_pos; lia|apply Z.div_lt_upper_bound; lia]).
  constructor; [by eapply committed_steady| | |by eapply committed_only].
  - unfold inode_used. rewrite <- Hused. symmetry. apply bit_test_byte, Hb.
    by apply inode_byte_in_header.
  - intros i Hi. rewrite (committed_inodes img Himg Hlay (ino / ipg) b b' w w' (ino mod ipg) false);
      try done. by replace (ino / ipg * ipg + ino mod ipg) with ino by lia.
Qed.
(** The invariant and the maps are functions of the metadata bytes. *)
Lemma group_at_meta v v' cg :
  0 <= cg < cg_count (sb img) -> (forall i, meta img i -> v' i = v i) ->
  eq_on 0 (cg_size (sb img)) (group_at img v' cg) (group_at img v cg).
Proof.
  intros Hcg Hv i Hi. unfold group_at, slice. apply Hv. right. exists cg. split; [done|].
  right. lia.
Qed.
Lemma fs_acct_meta v v' :
  wf_buf v -> (forall i, meta img i -> v' i = v i) -> fs_acct img v -> fs_acct img v'.
Proof.
  intros Hwf Hv [Fg Fc Ft]. pose proof (sane_geometry img Himg) as G.
  assert (Hf : forall cg f c t, 0 <= cg < cg_count (sb img) -> In (f, c, t) counter_fields ->
    read_be32 (group_at img v' cg) f = read_be32 (group_at img v cg) f).
  { intros cg f c t Hcg Hin. pose proof (geo_cg_size _ G). apply read_be32_eq_on. intros i Hi.
    apply group_at_meta; [done|done|]. unfold CG_FREE_OFF, counter_fields, CG_CS_NDIR_OFF,
      CG_CS_NBFREE_OFF, CG_CS_NIFREE_OFF, CG_CS_NFFREE_OFF in *. cbn in Hin. naive_solver lia. }
  constructor.
  - intros cg Hcg. apply (group_ok_eq_on _ (group_at img v cg));
      [done|by apply wf_slice|by apply group_at_meta|by apply Fg].
  - intros cg f c t Hcg Hin. rewrite (Hf cg f c t), <- (Fc cg f c t) by done.
    apply read_be32_eq_on. intros i Hi. apply Hv. right. exists cg. split; [done|]. left.
    unfold counter_fields in Hin. cbn in Hin. naive_solver lia.
  - intros f c t Hin. rewrite (sumZ_ext _ (fun cg => read_be32 (group_at img v cg) f))
      by (intros; by eapply Hf).
    rewrite <- (Ft f c t) by done. apply read_be32_eq_on. intros i Hi. apply Hv. left.
    unfold counter_fields, SB_NDIR_OFF, SB_NBFREE_OFF, SB_NIFREE_OFF, SB_NFFREE_OFF in Hin.
    cbn in Hin. naive_solver lia.
Qed.
Lemma frag_free_meta v v' f :
  0 <= f < cg_count (sb img) * fpg -> (forall i, meta img i -> v' i = v i) ->
  frag_free img v' f = frag_free img v f.
Proof.
  intros Hf Hv. destruct (group_of f Hf) as (_ & Hl & Hcg). apply bit_test_byte.
  apply group_at_meta; [done|done|]. by apply map_byte_in_header.
Qed.
Lemma frag_count_groups f : 0 <= f < frag_count (sb img) -> 0 <= f < cg_count (sb img) * fpg.
Proof.
  intros Hf. pose proof (sane_geometry img Himg) as G. pose proof (geo_fpg _ G).
  rewrite (geo_cg_count_eq _ G). Z.to_euclidean_division_equations. nia.
Qed.
End outcomes.

(** ** Properties *)
Section alloc_properties.
Context {C : Type} `{HB : Backend C, HS : !BackendSpec C}.
Variable img : image.
Hypothesis Himg : image_sane img.
Hypothesis Hlay : layout_apart img.

(** C22. Fragment allocation in a group: on success the fragments returned were
    all free, lie in one block and inside the filesystem, are exactly the ones
    now marked in use, every counter of the filesystem (header fields, run
    summaries, summary entries, superblock totals) still agrees with the maps, and
    no byte outside superblock, summary area and group headers has changed. *)
Theorem allocate_frags_correct cg m (w w' : world C) frag
    (Hw : steady img w) (Hcg : 0 <= cg < cg_count (sb img)) (Hm : 0 <= m)
    (Hrun : allocate_frags_in_group img cg m w = (Ok frag, w')) :
  frags_taken img m frag w w'.
Proof. by eapply allocate_group_taken. Qed.

(** C23. Returning a run of fragments of one block: on success all of it was in
    use, exactly these fragments become free, and every counter of the filesystem
    still agrees with the maps; a double free is refused. *)
Theorem free_fragment_run_correct frag m (w w' : world C)
    (Hw : steady img w)
    (Hfrag : 0 <= frag < cg_count (sb img) * frags_per_group (sb img)) (Hm : 0 <= m)
    (Hblock : (frag mod frags_per_group (sb img)) mod frags_per_block (sb img) + m
              <= frags_per_block (sb img))
    (Hlimit : frag mod frags_per_group (sb img) + m <=
      read_be32 (group_at img (view w) (frag / frags_per_group (sb img))) CG_NDBLK_OFF)
    (Hrun : free_fragment_run img frag m w = (Ok tt, w')) :
  frags_given img m frag w w'.
Proof. by eapply free_run_given. Qed.

(** C34. Inode allocation in a group: the number returned was free and is not one
    of the two reserved ones, it is the only one whose map bit changes, and every
    counter of the filesystem still agrees with the maps. *)
Theorem allocate_inode_correct cg mode (w w' : world C) ino
    (Hw : steady img w) (Hcg : 0 <= cg < cg_count (sb img))
    (Hrun : allocate_inode_in_one_group img cg mode w = (Ok ino, w')) :
  inode_taken img ino w w'.
Proof. by eapply allocate_one_taken. Qed.

(** C38. Freeing an inode, in a sane image whose groups are apart and whose accounts agree:
    on success its map bit was set and is the only one that changes, and every counter of the filesystem still agrees with the maps. *)
Theorem free_inode_correct ino mode (w w' : world C)
    (Hw : steady img w) (Hino : 0 <= ino < cg_count (sb img) * inodes_per_group (sb img))
    (Hrun : free_inode_in_group img ino mode w = (Ok tt, w')) :
  inode_given img ino w w'.
Proof. by eapply free_inode_given. Qed.
End alloc_properties.

(** ** Witnesses *)
Lemma mini_world_inv : bk_inv (w_ctx mini_world).
Proof. apply mini_file_inv. Qed.
Lemma mini_steady : steady mini_image mini_world.
Proof. constructor; [exact mini_world_inv|exact mini_fs_acct]. Qed.

Lemma allocate_frags_correct_witness :
  let run := allocate_frags_in_group mini_image 0 3 mini_world in
  fst run = Ok 44 /\ fs_acct mini_image (view (snd run)) /\
  frag_free mini_image (view (snd run)) 45 = false /\
  frag_free mini_image (view (snd run)) 47 = true.
Proof.
  intros run. assert (Hr : fst run = Ok 44) by (vm_compute; reflexivity).
  destruct (allocate_frags_correct mini_image mini_image_sane mini_layout 0 3 mini_world (snd run) 44)
    as [[_ Ha] _ _ _ _ Hmap _].
  - exact mini_steady.
  - split; [discriminate|reflexivity].
  - discriminate.
  - rewrite <- Hr. apply surjective_pairing.
  - split; [exact Hr|]. split; [exact Ha|]. split.
    + rewrite Hmap by (split; [discriminate|reflexivity]). reflexivity.
    + rewrite Hmap by (split; [discriminate|reflexivity]). vm_compute. reflexivity.
Defined.

Lemma free_fragment_run_correct_witness :
  let run := free_fragment_run mini_image 40 4 mini_world in
  fst run = Ok tt /\ fs_acct mini_image (view (snd run)) /\
  frag_free mini_image (view (snd run)) 41 = true.
Proof.
  intros run. assert (Hr : fst run = Ok tt) by (vm_compute; reflexivity).
  destruct (free_fragment_run_correct mini_image mini_image_sane mini_layout 40 4 mini_world (snd run))
    as [[_ Ha] _ _ Hmap _].
  - exact mini_steady.
  - split; [discriminate|reflexivity].
  - discriminate.
  - discriminate.
  - vm_compute. discriminate.
  - rewrite <- Hr. apply surjective_pairing.
  - split; [exact Hr|]. split; [exact Ha|].
    rewrite Hmap by (split; [discriminate|reflexivity]). reflexivity.
Defined.

Lemma allocate_inode_correct_witness :
  let run := allocate_inode_in_one_group mini_image 0 0x81a4 mini_world in
  fst run = Ok 3 /\ fs_acct mini_image (view (snd run)) /\
  inode_used mini_image (view (snd run)) 3 = true.
Proof.
  intros run. assert (Hr : fst run = Ok 3) by (vm_compute; reflexivity).
  destruct (allocate_inode_correct mini_image mini_image_sane mini_layout 0 0x81a4 mini_world (snd run) 3)
    as [[_ Ha] _ _ Hmap _].
  - exact mini_steady.
  - split; [discriminate|reflexivity].
  - rewrite <- Hr. apply surjective_pairing.
  - split; [exact Hr|]. split; [exact Ha|].
    rewrite Hmap by (split; [discriminate|reflexivity]). reflexivity.
Defined.

Lemma free_inode_correct_witness :
  let run := free_inode_in_group mini_image 2 0x41ed mini_world in
  fst run = Ok tt /\ fs_acct mini_image (view (snd run)) /\
  inode_used mini_image (view (snd run)) 2 = false.
Proof.
  intros run. assert (Hr : fst run = Ok tt) by (vm_compute; reflexivity).
  destruct (free_inode_correct mini_image mini_image_sane mini_layout 2 0x41ed mini_world (snd run))
    as [[_ Ha] _ Hmap _].
  - exact mini_steady.
  - split; [discriminate|reflexivity].
  - rewrite <- Hr. apply surjective_pairing.
  - split; [exact Hr|]. split; [exact Ha|].
    rewrite Hmap by (split; [discriminate|reflexivity]). reflexivity.
Defined.

Definition enospc_script : list io_outcome :=
  [IoCount 2048; IoCount 2048; IoCount 2048; IoErr ENOSPC].
(** When the device itself answers ENOSPC in the middle of an allocation (here
    while the superblock totals are written, after the header of group 0), the
    search takes it for a full group, goes on, and succeeds in group 1: fragments
    of group 0 stay marked in use although nothing refers to them, and the totals
    no longer agree with the maps. *)
Example device_enospc_leaks :
  let w := raw_world (mini_file enospc_script) in
  let run := allocate_frags_anycg mini_image 0 3 w in
  fst run = Ok 296 /\
  frag_free mini_image (view w) 44 = true /\
  frag_free mini_image (view (snd run)) 44 = false /\
  read_be32 (view (snd run)) (0x2000 + SB_NFFREE_OFF) = 4 + 5 /\
  sumZ (fun cg => read_be32 (group_at mini_image (view (snd run)) cg) CG_CS_NFFREE_OFF) 2 =
    1 + 5.
Proof. vm_compute. split_and!; reflexivity. Qed.
