(* ===== verification/Groups.v ===== *)
(** * Allocation across cylinder groups

    nextufs__allocate_frags_anycg and nextufs__allocate_inode_in_group try the
    groups in turn and move on when one answers ENOSPC.  This is right exactly when
    ENOSPC means "this group is full", so the results below are stated for
    devices that never answer ENOSPC themselves: the interface [Roomy].  The
    opposite case is [device_enospc_leaks] of Alloc. *)
From S2P Require Import Prelude.
From S2P Require Import Bytes.
From S2P Require Import Backend.
From S2P Require Import Superblock.
From S2P Require Import Image.
From S2P Require Import Inode.
From S2P Require Import CylGroup.
From S2P Require Import Alloc.

(** ** Devices that never run out of space *)
Class Roomy {C : Type} `{!Backend C} (D : C -> Prop) : Prop := {
  roomy_read n off c r c' :
    D c -> bk_read n off c = (r, c') -> D c' /\ r <> Err ENOSPC;
  roomy_write b n off c r c' :
    D c -> bk_write b n off c = (r, c') -> D c' /\ r <> Err ENOSPC;
}.

Section roomy.
Context {C : Type} `{HB : Backend C} (D : C -> Prop) `{HD : !Roomy D}.

(** Started on such a device, [m] does not fail with ENOSPC. *)
Definition unfull {A} (m : M (world C) A) : Prop := forall w r w',
  D (w_ctx w) -> m w = (r, w') -> D (w_ctx w') /\ r <> Err ENOSPC.

Lemma unfull_ret {A} (a : A) : unfull (ret a).
Proof. by intros w r w' ? [= <- <-]. Qed.
Lemma unfull_fail {A} e : e <> ENOSPC -> unfull (fail (A:=A) e).
Proof. intros ? w r w' ? [= <- <-]. split; [done|]. by intros [= ->]. Qed.
Lemma unfull_fail_if b e : e <> ENOSPC -> unfull (fail_if b e).
Proof. destruct b; [apply unfull_fail|intros; apply unfull_ret]. Qed.
Lemma unfull_bind {A B} (m : M (world C) A) (k : A -> M (world C) B) :
  unfull m -> (forall a, unfull (k a)) -> unfull (bind m k).
Proof.
  intros Hm Hk w r w' Hw H. apply bind_inv in H as [(a & w1 & H1 & H2)|(e & H1 & ->)].
  - apply Hm in H1 as [? _]; [|done]. by apply Hk in H2.
  - apply Hm in H1 as [? H1]; [|done]. split; [done|]. intros [= ->]. by apply H1.
Qed.
Lemma unfull_attempt {A} (m : M (world C) A) : unfull m -> unfull (attempt m).
Proof. intros Hm w r w' Hw H. apply attempt_inv in H as (x & -> & H). by apply Hm in H as [? _]. Qed.
Lemma unfull_ask {A} (f : env -> nat -> A) : unfull (ask f).
Proof. by intros w r w' ? [= <- <-]. Qed.
Lemma unfull_get_tx : unfull get_tx.
Proof. by intros w r w' ? [= <- <-]. Qed.
Lemma unfull_put_tx t : unfull (put_tx t).
Proof. by intros w r w' ? [= <- <-]. Qed.
Lemma unfull_read n off : unfull (lift (bk_read n off)).
Proof.
  intros w r w' Hw H. unfold lift in H. destruct (bk_read _ _ _) as [r1 c1] eqn:E.
  injection H as <- <-. by eapply roomy_read.
Qed.
Lemma unfull_write b n off : unfull (lift (bk_write b n off)).
Proof.
  intros w r w' Hw H. unfold lift in H. destruct (bk_write _ _ _ _) as [r1 c1] eqn:E.
  injection H as <- <-. by eapply roomy_write.
Qed.

Ltac unfull_step :=
  lazymatch goal with
  | |- unfull (bind _ _) => apply unfull_bind
  | |- unfull (ret _) => apply unfull_ret
  | |- unfull (fail _) => apply unfull_fail; discriminate
  | |- unfull (fail_if _ _) => apply unfull_fail_if; discriminate
  | |- unfull (attempt _) => apply unfull_attempt
  | |- unfull (ask _) => apply unfull_ask
  | |- unfull get_tx => apply unfull_get_tx
  | |- unfull (put_tx _) => apply unfull_put_tx
  | |- unfull (lift (bk_read _ _)) => apply unfull_read
  | |- unfull (lift (bk_write _ _ _)) => apply unfull_write
  | |- unfull (match _ with _ => _ end) => case_match
  | |- unfull (let _ := _ in _) => cbv zeta
  | |- forall _, _ => intro
  end.
Ltac solve_unfull := repeat unfull_step; auto.

Lemma unfull_malloc n : unfull (malloc n).
Proof. unfold malloc. solve_unfull. Qed.
Lemma unfull_time : unfull time_now.
Proof. unfold time_now. solve_unfull. Qed.
Lemma unfull_read_exact img n off : unfull (read_exact img n off).
Proof. unfold read_exact. solve_unfull. Qed.
Lemma unfull_log_append b n : unfull (log_append b n).
Proof. unfold log_append. solve_unfull. Qed.
Local Hint Resolve unfull_malloc unfull_time unfull_read_exact unfull_log_append : core.
Lemma unfull_record img n off : unfull (transaction_record img n off).
Proof. unfold transaction_record. solve_unfull. Qed.
Local Hint Resolve unfull_record : core.
Lemma unfull_write_exact img b n off : unfull (write_exact img b n off).
Proof. unfold write_exact. solve_unfull. Qed.
Local Hint Resolve unfull_write_exact : core.
Lemma unfull_read_group img cg : unfull (read_group img cg).
Proof. unfold read_group. solve_unfull. Qed.
Lemma unfull_write_group img cg b : unfull (write_group img cg b).
Proof. unfold write_group. solve_unfull. Qed.
Lemma unfull_summary img cg a b c d : unfull (update_summary_counts img cg a b c d).
Proof. unfold update_summary_counts. solve_unfull. Qed.
End roomy.
#[export] Hint Resolve unfull_malloc unfull_time unfull_read_exact unfull_write_exact
  unfull_read_group unfull_write_group unfull_summary : unfull.
Ltac solve_unfull :=
  repeat
    lazymatch goal with
    | |- unfull _ (bind _ _) => apply unfull_bind
    | |- unfull _ (ret _) => apply unfull_ret
    | |- unfull _ (fail _) => apply unfull_fail; discriminate
    | |- unfull _ (fail_if _ _) => apply unfull_fail_if; discriminate
    | |- unfull _ (attempt _) => apply unfull_attempt
    | |- unfull _ (match _ with _ => _ end) => case_match
    | |- unfull _ (let _ := _ in _) => cbv zeta
    | |- forall _, _ => intro
    end; eauto with unfull.

(** Raw image files whose scripted outcomes hold no ENOSPC. *)
Definition file_roomy (f : file) : Prop :=
  Forall (fun o => o <> IoErr ENOSPC) (f_script f).
Lemma next_outcome_roomy f n o f' :
  file_roomy f -> next_outcome f n = (o, f') -> file_roomy f' /\ o <> IoErr ENOSPC.
Proof.
  unfold file_roomy, next_outcome. intros H. destruct (f_script f) as [|x s] eqn:E.
  - intros [= <- <-]. by rewrite E.
  - apply Forall_cons in H as [Hx Hs]. intros [= <- <-]. split; [done|].
    destruct x; congruence.
Qed.
Lemma read_loop_roomy fuel : forall n off out got f r f',
  file_roomy f -> read_loop fuel n off out got f = Some (r, f') ->
  file_roomy f' /\ r <> Err ENOSPC.
Proof.
  induction fuel as [|fuel IH]; intros n off out got f r f' Hf; [done|]. cbn [read_loop].
  destruct (got <? n); [|by intros [= <- <-]]. unfold pread.
  destruct (next_outcome f _) as [[k|e] f1] eqn:E; apply next_outcome_roomy in E as [Hf1 He];
    try done.
  - case_match; [by intros [= <- <-]|]. by apply IH.
  - case_match; [by apply IH|]. intros [= <- <-]. split; [done|]. congruence.
Qed.
Lemma write_loop_roomy fuel : forall b n off got f r f',
  file_roomy f -> write_loop fuel b n off got f = Some (r, f') ->
  file_roomy f' /\ r <> Err ENOSPC.
Proof.
  induction fuel as [|fuel IH]; intros b n off got f r f' Hf; [done|]. cbn [write_loop].
  destruct (got <? n); [|by intros [= <- <-]]. unfold pwrite.
  destruct (next_outcome f _) as [[k|e] f1] eqn:E; apply next_outcome_roomy in E as [Hf1 He];
    try done.
  - case_match; [by intros [= <- <-]|]. by apply IH.
  - case_match; [by apply IH|]. intros [= <- <-]. split; [done|]. congruence.
Qed.
#[export] Instance roomy_file : Roomy file_roomy.
Proof.
  constructor.
  - intros n off f r f' Hf. cbn. unfold raw_backend_read, read_exact_fd.
    destruct (read_loop _ _ _ _ _ _) as [[r1 f1]|] eqn:E; [|by intros [= <- <-]].
    intros [= <- <-]. by eapply read_loop_roomy.
  - intros b n off f r f' Hf. cbn. unfold raw_backend_write, write_exact_fd.
    destruct (write_loop _ _ _ _ _ _) as [[r1 f1]|] eqn:E; [|by intros [= <- <-]].
    intros [= <- <-]. by eapply write_loop_roomy.
Qed.

(** ** The search over the groups *)
Section groups.
Context {C : Type} `{HB : Backend C, HS : !BackendSpec C} (D : C -> Prop) `{HD : !Roomy D}.
Variable img : image.

(** A group operation that reports ENOSPC has only looked. *)
Definition declines {A} (m : M (world C) A) : Prop := forall w r w',
  D (w_ctx w) -> m w = (r, w') -> D (w_ctx w') /\ (r = Err ENOSPC -> quiet w w').

Lemma unfull_declines {A} (m : M (world C) A) : unfull D m -> declines m.
Proof. intros Hm w r w' Hw H. apply Hm in H as [? ?]; [|done]. by split. Qed.
Lemma declines_bind {A B} (m : M (world C) A) (k : A -> M (world C) B) :
  unfull D m -> Stable quiet m -> (forall a, declines (k a)) -> declines (bind m k).
Proof.
  intros Hm Hq Hk w r w' Hw H. apply bind_inv in H as [(a & w1 & H1 & H2)|(e & H1 & ->)].
  - pose proof (Hq _ _ _ H1). apply Hm in H1 as [? _]; [|done].
    apply Hk in H2 as [? H2]; [|done]. split; [done|]. intros He. etrans; [done|by apply H2].
  - pose proof (Hq _ _ _ H1). apply Hm in H1 as [? _]; [|done]. by split.
Qed.
Lemma declines_fail {A} e : declines (fail (A:=A) e).
Proof. intros w r w' ? [= <- <-]. split; [done|]. by intros _. Qed.

Lemma group_frags_decline cg m : declines (allocate_frags_in_group img cg m).
Proof.
  unfold allocate_frags_in_group. case_match; [apply declines_fail|].
  apply declines_bind; [apply unfull_read_group; apply _|apply read_group_quiet|]. intros b.
  cbv zeta. case_match; [apply declines_fail|]. case_match; [|apply declines_fail].
  apply unfull_declines. solve_unfull.
Qed.
Lemma group_inode_decline cg mode : declines (allocate_inode_in_one_group img cg mode).
Proof.
  unfold allocate_inode_in_one_group.
  apply declines_bind; [apply unfull_read_group; apply _|apply read_group_quiet|]. intros b.
  case_match; [apply declines_fail|]. case_match; [|apply declines_fail].
  apply unfull_declines. solve_unfull.
Qed.

(** The search ends in the first group that does not decline. *)
Lemma try_groups_run {A} (f : Z -> M (world C) A) cgs w r w' :
  (forall cg, declines (f cg)) -> D (w_ctx w) -> try_groups f cgs w = (r, w') ->
  D (w_ctx w') /\
  ((exists cg w1, cg ∈ cgs /\ quiet w w1 /\ D (w_ctx w1) /\ f cg w1 = (r, w') /\
      r <> Err ENOSPC) \/
   (r = Err ENOSPC /\ quiet w w' /\
    Forall (fun cg => exists w1 w2, quiet w w1 /\ D (w_ctx w1) /\
      f cg w1 = (Err ENOSPC, w2)) cgs)).
Proof.
  intros Hf. revert w. induction cgs as [|cg cgs IH]; intros w Hw H; cbn [try_groups] in H.
  { injection H as <- <-. split; [done|]. right. split_and!; [done|done|constructor]. }
  apply bind_inv in H as [(x & w1 & H1 & H)|(e & H1 & _)];
    apply attempt_inv in H1 as (y & Hx & H1); [injection Hx as ->|done].
  pose proof (Hf cg _ _ _ Hw H1) as [Hw1 Hq].
  assert (Hcase : y = Err ENOSPC \/ (y <> Err ENOSPC /\ (y, w1) = (r, w'))).
  { destruct y as [a|e]; [right; by split|]. destruct (decide (e = ENOSPC)) as [->|He];
      [by left|right]. split; [congruence|]. by destruct e. }
  destruct Hcase as [->|[He [= <- <-]]].
  - specialize (Hq eq_refl). destruct (IH w1 Hw1 H) as (Hw' & Hor). split; [done|].
    destruct Hor as [(cg' & w2 & Hin & Hq2 & ? & ? & ?)|(-> & Hq2 & Hall)].
    + left. exists cg', w2. split_and!; try done; [by right|by etrans].
    + right. split_and!; [done|by etrans|]. constructor; [by exists w, w1; split_and!|].
      eapply Forall_impl; [done|]. intros g (w2 & w3 & ? & ? & ?). exists w2, w3.
      split_and!; [by etrans|done..].
  - split; [done|]. left. exists cg, w. split_and!; [by left|done..].
Qed.

Lemma group_order_in cg pref : cg ∈ group_order img pref -> 0 < cg_count (sb img) ->
  0 <= cg < cg_count (sb img).
Proof.
  unfold group_order. intros (i & -> & _)%list_elem_of_fmap Hn. by apply Z.mod_pos_bound.
Qed.
(** No group is left out. *)
Lemma group_order_all cg pref :
  0 <= cg < cg_count (sb img) -> 0 <= pref -> pref + cg_count (sb img) < 2 ^ 32 ->
  cg ∈ group_order img pref.
Proof.
  intros Hcg Hp Hs. unfold group_order. apply list_elem_of_fmap.
  set (n := cg_count (sb img)) in *. exists ((cg - pref) mod n).
  pose proof (Z.mod_pos_bound (cg - pref) n ltac:(lia)). split.
  - rewrite w32_small by lia. rewrite Zplus_mod_idemp_r.
    replace (pref + (cg - pref)) with cg by lia. by rewrite Z.mod_small.
  - apply elem_of_seqZ. lia.
Qed.

Hypothesis Himg : image_sane img.
Hypothesis Hlay : layout_apart img.

Lemma quiet_steady w w' : quiet w w' -> steady img w -> steady img w'.
Proof.
  intros [Qi Qv _ _] [Hi Hf]. constructor; [auto|].
  eapply fs_acct_equiv; [done|by apply bk_view_wf|by apply Qv|done].
Qed.
Lemma quiet_view_eq w w' i : quiet w w' -> bk_inv (w_ctx w) -> view w' i = view w i.
Proof. intros [_ Qv _ _] Hi. by apply Qv. Qed.
Lemma quiet_frag_free w w' f :
  quiet w w' -> bk_inv (w_ctx w) -> frag_free img (view w') f = frag_free img (view w) f.
Proof.
  intros Hq Hi. apply bit_test_byte. unfold group_at, slice. by apply quiet_view_eq.
Qed.

(** Looking around first does not change what an allocation takes. *)
Lemma quiet_taken m frag w w1 w' :
  quiet w w1 -> bk_inv (w_ctx w) -> frags_taken img m frag w1 w' ->
  frags_taken img m frag w w'.
Proof.
  intros Hq Hi [? ? ? ? Hfree Hbits Honly]. constructor; try done.
  - intros f Hf. rewrite <- (quiet_frag_free w w1) by done. auto.
  - intros f Hf. rewrite Hbits by done. by rewrite (quiet_frag_free w w1).
  - intros i Hm. rewrite Honly by done. by apply quiet_view_eq.
Qed.

Lemma reserve_roomy n w r w' :
  D (w_ctx w) -> reserve_available img n w = (r, w') -> D (w_ctx w') /\ quiet w w'.
Proof.
  intros Hw Hr. pose proof (reserve_available_quiet img n _ _ _ Hr). split; [|done].
  unfold reserve_available in Hr. case_match; [by injection Hr as <- <-|].
  case_match; [by injection Hr as <- <-|].
  apply bind_inv in Hr as [(a & w1 & Hrd & Hr)|(e & Hrd & ->)];
    apply (unfull_read_exact D) in Hrd as [? _]; try done.
  unfold fail_if in Hr. by case_match; injection Hr as <- <-.
Qed.

Lemma anycg_taken cg m w w' frag :
  steady img w -> D (w_ctx w) -> 0 <= m ->
  allocate_frags_anycg img cg m w = (Ok frag, w') ->
  frags_taken img m frag w w' /\ D (w_ctx w').
Proof.
  intros Hst Hw Hm H. unfold allocate_frags_anycg in H. inv_step H.
  apply reserve_roomy in Hrun as [Hw1 Hq1]; [|done].
  apply try_groups_run in H as (Hw' & Hor); [|intros; apply group_frags_decline|done].
  destruct Hor as [(g & w2 & Hin & Hq2 & _ & H & _)|([=] & _)]. split; [|done].
  assert (Hq : quiet w w2) by by etrans.
  apply group_order_in in Hin; [|apply (sane_geometry img Himg)].
  eapply quiet_taken; [done|apply Hst|]. eapply allocate_group_taken; try done.
  by eapply quiet_steady.
Qed.

(** A full filesystem is reported without touching it, and really is full. *)
Lemma anycg_full cg m w w' :
  steady img w -> D (w_ctx w) -> unprivileged img = false ->
  allocate_frags_anycg img cg m w = (Err ENOSPC, w') ->
  quiet w w' /\
  forall g, g ∈ group_order img cg ->
    exists w1 w2, quiet w w1 /\ D (w_ctx w1) /\
      allocate_frags_in_group img g m w1 = (Err ENOSPC, w2).
Proof.
  intros Hst Hw Hp H. unfold allocate_frags_anycg, reserve_available in H. rewrite Hp in H.
  cbn [negb] in H. apply bind_inv in H as [(u & w1 & [= <- <-] & H)|(e & [=] & _)].
  apply try_groups_run in H as (_ & [(g & w2 & _ & _ & _ & _ & [])|(_ & Hq & Hall)]);
    [done| |intros; apply group_frags_decline|done].
  split; [done|]. intros g Hg. rewrite Forall_forall in Hall. by apply Hall.
Qed.
(** Free runs seen through a header that agrees with the image. *)
Lemma free_run_header g b m k off w :
  0 <= g < cg_count (sb img) -> steady img w ->
  wf_buf b -> eq_on 0 (cg_size (sb img)) b (group_at img (view w) g) ->
  free_run (sb img) (group_at img (view w) g) m k off -> free_run (sb img) b m k off.
Proof.
  intros Hg Hst Hwf Hb (Hk & Ho & Hm & Hlim & Hr).
  destruct (fs_group img Himg g w Hg (st_acct _ _ Hst) (st_inv _ _ Hst) b Hb Hwf) as (Hok & _ & _).
  assert (Hnd : read_be32 b CG_NDBLK_OFF = read_be32 (group_at img (view w) g) CG_NDBLK_OFF).
  { apply read_be32_eq_on. intros i Hi. apply Hb.
    pose proof (geo_cg_size _ (sane_geometry img Himg)). unfold CG_FREE_OFF, CG_NDBLK_OFF in *. lia. }
  unfold free_run, blocks in *. rewrite Hnd. split_and!; try lia; try done.
  apply range_is_blk; [done|done|]. intros j Hj. rewrite range_is_blk in Hr by done.
  rewrite <- (Hr j Hj). apply bit_test_byte, Hb. apply map_byte_in_header; [done|].
  pose proof (go_limit _ _ Hok). pose proof (block_size_pos _ (geometry_block_sizes _
    (sane_geometry img Himg))). nia.
Qed.

Lemma group_enospc g m w w' :
  steady img w -> D (w_ctx w) -> 0 <= g < cg_count (sb img) -> 0 <= m ->
  allocate_frags_in_group img g m w = (Err ENOSPC, w') ->
  forall k off, ~ free_run (sb img) (group_at img (view w) g) m k off.
Proof.
  intros Hst Hw Hg Hm Hr k off Hfree. unfold allocate_frags_in_group in Hr.
  destruct (_ || _) eqn:Em in Hr; [done|]. bool_to_prop.
  apply bind_inv in Hr as [(b & w1 & Hrd & Hr)|(e & Hrd & He)].
  2: { apply (unfull_read_group D) in Hrd as [_ Hn]; [|done]. congruence. }
  pose proof (unfull_read_group D _ _ _ _ _ Hw Hrd) as [Hw1 _].
  apply (read_group_ok img Himg) in Hrd as (Hq & Hwf & Hb); [|apply Hst].
  destruct (fs_group img Himg g w Hg (st_acct _ _ Hst) (st_inv _ _ Hst) b Hb Hwf) as (Hok & _ & _).
  apply (free_run_header g b) in Hfree; try done.
  cbv zeta in Hr. destruct (bad_limit _ _ _); [done|].
  destruct (choose_run _ _ _ _) as [c|] eqn:Ec.
  - revert Hr. generalize (apply_choice (sb img) b m). intros f Hr.
    enough (Hn : unfull D (let! now := time_now in
        let '(start, b, d_nbfree, d_nffree) := f now c in
        write_group img g b ;;;
        update_summary_counts img g 0 d_nbfree 0 d_nffree ;;;
        ret (w32 (g * frags_per_group (sb img) + start))))
      by (apply Hn in Hr as [_ Hr]; [by apply Hr|done]).
    solve_unfull.
  - eapply choose_run_complete; [exact Hwf|by apply geometry_block_sizes, sane_geometry|
      apply Hok| |exact Ec|exact Hfree]. lia.
Qed.
End groups.

(** ** Properties *)
Section group_properties.
Context {C : Type} `{HB : Backend C, HS : !BackendSpec C} (D : C -> Prop).
Variable img : image.
Hypothesis Himg : image_sane img.
Hypothesis Hlay : layout_apart img.

(** C33. Allocating fragments anywhere, on a device that never answers ENOSPC itself
    ([Roomy]: the search takes a device's ENOSPC for a full group, and
    [device_enospc_leaks] shows it marking fragments of a group it then gives up): from
    a sane filesystem whose groups are apart and whose accounts agree, when nextufs__allocate_frags_anycg succeeds, its
    fragments were free and are the only ones that change, whichever groups were tried
    before, and all counters agree with the maps. *)
Theorem allocate_frags_anycg_correct cg m (w w' : world C) frag
    (Hdev : Roomy D) (Hroom : D (w_ctx w)) (Hw : steady img w) (Hm : 0 <= m)
    (Hrun : allocate_frags_anycg img cg m w = (Ok frag, w')) :
  frags_taken img m frag w w'.
Proof. by eapply anycg_taken in Hrun as [? _]. Qed.

(** C39. ENOSPC is exact on a device that never answers it itself ([Roomy]): from a sane
    filesystem whose accounts agree, a privileged allocation that reports it, searching from
    a group whose number leaves the 32-bit sums of the search exact, has changed no byte, and
    no group holds such a run of free fragments in one block. *)
Theorem enospc_means_full cg m (w w' : world C)
    (Hdev : Roomy D) (Hroom : D (w_ctx w)) (Hw : steady img w)
    (Hpriv : unprivileged img = false) (Hm : 0 <= m) (Hcg : 0 <= cg) (Hwrap : cg + cg_count (sb img) < 2 ^ 32)
    (Hrun : allocate_frags_anycg img cg m w = (Err ENOSPC, w')) :
  view w' ≡ view w /\
  forall g k off, 0 <= g < cg_count (sb img) ->
    ~ free_run (sb img) (group_at img (view w) g) m k off.
Proof.
  apply (anycg_full D) in Hrun as [Hq Hall]; try done.
  split; [by apply Hq, Hw|]. intros g k off Hg Hfree.
  destruct (Hall g) as (w1 & w2 & Hq1 & Hw1 & Hr1); [by apply group_order_all|].
  assert (Hst1 : steady img w1) by by eapply quiet_steady.
  eapply (group_enospc D img Himg g m w1 w2); try done.
  eapply (free_run_header img Himg g _ m k off w); try done.
  - apply wf_slice, bk_view_wf, Hst1.
  - intros i _. unfold group_at, slice. by apply quiet_view_eq; [|apply Hw].
Qed.
End group_properties.

Lemma mini_roomy : file_roomy (w_ctx mini_world).
Proof. constructor. Qed.

Lemma allocate_frags_anycg_correct_witness :
  let run := allocate_frags_anycg mini_image 1 3 mini_world in
  fst run = Ok 296 /\ frags_taken mini_image 3 296 mini_world (snd run).
Proof.
  intros run. assert (Hr : fst run = Ok 296) by (vm_compute; reflexivity). split; [exact Hr|].
  apply (allocate_frags_anycg_correct file_roomy mini_image mini_image_sane mini_layout 1).
  - exact roomy_file.
  - exact mini_roomy.
  - exact mini_steady.
  - discriminate.
  - rewrite <- Hr. apply surjective_pairing.
Defined.

(** A filesystem without a free fragment. *)
Definition full_header : buf :=
  write_be32 (write_be32 zeros CG_MAGIC_OFF CG_MAGIC) CG_NDBLK_OFF 256.
Definition full_disk : buf :=
  fill (fill (blit (blit zeros 24576 full_header 2048) 286720 full_header 2048)
    (24576 + CG_IUSED_OFF) 255 8) (286720 + CG_IUSED_OFF) 255 8.
Definition full_world : world file := raw_world (File full_disk (512 * 1024) [] []).
Lemma full_steady : steady mini_image full_world.
Proof.
  constructor; [|apply fs_acct_check_sound; vm_compute; reflexivity].
  split; [cbn; lia|]. split.
  - unfold full_world, full_disk, full_header. cbn. auto 15 with bytes.
  - intros i Hi. cbn [w_ctx full_world raw_world f_data f_size] in *. unfold full_disk, fill.
    rewrite !blit_out by (unfold CG_IUSED_OFF; lia). done.
Qed.

Lemma enospc_means_full_witness :
  let run := allocate_frags_anycg mini_image 1 3 full_world in
  fst run = Err ENOSPC /\ view (snd run) ≡ view full_world.
Proof.
  intros run. assert (Hr : fst run = Err ENOSPC) by (vm_compute; reflexivity).
  split; [exact Hr|].
  destruct (enospc_means_full file_roomy mini_image mini_image_sane 1 3
              full_world (snd run)) as [Hv _]; [..|exact Hv].
  - exact roomy_file.
  - constructor.
  - exact full_steady.
  - reflexivity.
  - discriminate.
  - discriminate.
  - reflexivity.
  - rewrite <- Hr. apply surjective_pairing.
Defined.
