(* ===== verification/BlockMap.v ===== *)
(** * The block map of an inode

    Direct and indirect block addresses: lookup as src/src/core/image.c and as
    src/src/core/alloc.c do it, setting an address (allocating zeroed indirect
    blocks on the way), storing new file data and freeing all storage of an
    inode.  Routines that change the caller's [struct nextufs_inode] run over
    [istate], the world together with that inode, so that a failing run shows the
    inode as the C code leaves it. *)
From S2P Require Import Prelude.
From S2P Require Import Bytes.
From S2P Require Import Backend.
From S2P Require Import Superblock.
From S2P Require Import Image.
From S2P Require Import Inode.
From S2P Require Import CylGroup.
From S2P Require Import Alloc.

(** ** Fields of an inode in memory *)
Definition db_at (ino : inode) (i : Z) : Z := nth (Z.to_nat i) (i_db ino) 0.
Definition ib_at (ino : inode) (i : Z) : Z := nth (Z.to_nat i) (i_ib ino) 0.
Definition set_blocks (ino : inode) (db ib : list Z) : inode :=
  Inode (i_mode ino) (i_nlink ino) (i_uid ino) (i_gid ino) (i_size ino) (i_atime ino)
    (i_mtime ino) (i_ctime ino) db ib (i_flags ino) (i_blocks ino) (i_gen ino).
Definition set_db (ino : inode) (i v : Z) : inode :=
  set_blocks ino (<[Z.to_nat i := v]> (i_db ino)) (i_ib ino).
Definition set_ib (ino : inode) (i v : Z) : inode :=
  set_blocks ino (i_db ino) (<[Z.to_nat i := v]> (i_ib ino)).
Definition set_size (ino : inode) (size blocks : Z) : inode :=
  Inode (i_mode ino) (i_nlink ino) (i_uid ino) (i_gid ino) size (i_atime ino)
    (i_mtime ino) (i_ctime ino) (i_db ino) (i_ib ino) (i_flags ino) blocks (i_gen ino).
Definition set_flags (ino : inode) (flags : Z) : inode :=
  Inode (i_mode ino) (i_nlink ino) (i_uid ino) (i_gid ino) (i_size ino) (i_atime ino)
    (i_mtime ino) (i_ctime ino) (i_db ino) (i_ib ino) flags (i_blocks ino) (i_gen ino).

Definition ifmt (mode : Z) : Z := Z.land mode 0xf000.
Definition NEXTUFS_IFREG : Z := 0x8000.
Definition NEXTUFS_IFDIR : Z := 0x4000.
Definition NEXTUFS_IFLNK : Z := 0xa000.
Definition NEXTUFS_IC_FASTLINK : Z := 1.

(** The world, the caller's inode and its running fragment count. *)
Record istate (C : Type) := IState {
  is_world : world C;
  is_inode : inode;
  is_frags : Z;
}.
Arguments IState {C} _ _ _.
Arguments is_world {C} _.
Arguments is_inode {C} _.
Arguments is_frags {C} _.

Definition zero12 : list Z := replicate 12 0.
Definition zero3 : list Z := replicate 3 0.

Section blockmap.
Context {C : Type} `{!Backend C}.
Local Abbreviation M := (M (world C)).
Local Abbreviation MI := (Prelude.M (istate C)).

(** ** Plumbing between the two states *)
Definition io {A} (m : M A) : MI A := fun s =>
  let (r, w) := m (is_world s) in (r, IState w (is_inode s) (is_frags s)).
Definition get_inode : MI inode := fun s => (Ok (is_inode s), s).
Definition put_inode (ino : inode) : MI unit := fun s =>
  (Ok tt, IState (is_world s) ino (is_frags s)).
Definition get_frags : MI Z := fun s => (Ok (is_frags s), s).
Definition add_frags (n : Z) : MI unit := fun s =>
  (Ok tt, IState (is_world s) (is_inode s) (w32 (is_frags s + n))).
Definition put_frags (n : Z) : MI unit := fun s =>
  (Ok tt, IState (is_world s) (is_inode s) n).
(** Call such a routine: its return code and the inode it leaves. *)
Definition with_inode {A} (ino : inode) (m : MI A) : M (result A * inode) := fun w =>
  let (r, s) := m (IState w ino 0) in (Ok (r, is_inode s), is_world s).

Definition entries_per_block (img : image) : Z := block_size (sb img) / 4.

(** ** Indirect entries *)
Definition bad_entry (img : image) (block_frag entry_index : Z) : bool :=
  (entries_per_block img <=? entry_index) || (block_frag =? 0) ||
  (frag_count (sb img) <? block_frag + frags_per_block (sb img)).
Definition entry_offset (img : image) (block_frag entry_index : Z) : Z :=
  frag_offset img block_frag + entry_index * 4.
Definition read_indirect_entry (img : image) (block_frag entry_index : Z) : M Z :=
  if bad_entry img block_frag entry_index then fail EINVAL
  else
    let! raw := read_exact img 4 (entry_offset img block_frag entry_index) in
    ret (read_be32 raw 0).
Definition write_indirect_entry (img : image) (block_frag entry_index entry_value : Z)
    : M unit :=
  if bad_entry img block_frag entry_index then fail EINVAL
  else write_exact img (write_be32 zeros 0 entry_value) 4
         (entry_offset img block_frag entry_index).

(** ** Lookup, as the readers do it (src/src/core/image.c) *)
Fixpoint resolve_indirect_block_frag (img : image) (level : nat)
    (block_frag logical_index : Z) : M Z :=
  match level with
  | O => fail EINVAL
  | S level' =>
      if entries_per_block img =? 0 then fail EINVAL
      else if block_frag =? 0 then ret 0
      else
        let span := entries_per_block img ^ Z.of_nat level' in
        let entry_index := logical_index / span in
        let remainder := logical_index mod span in
        let! next_frag := map_err EIO (read_indirect_entry img block_frag entry_index) in
        match level' with
        | O => ret next_frag
        | S _ =>
            if next_frag =? 0 then ret 0
            else resolve_indirect_block_frag img level' next_frag remainder
        end
  end.

(** Which indirect tree holds a block beyond the direct ones: the slot and the
    index inside it. *)
Fixpoint find_slot (n : nat) (epb slot span index : Z) : option (Z * Z) :=
  match n with
  | O => None
  | S n =>
      if index <? span then Some (slot, index)
      else find_slot n epb (slot + 1) (w64 (span * epb)) (index - span)
  end.
Definition indirect_slot (img : image) (logical_block : Z) : option (Z * Z) :=
  find_slot 3 (entries_per_block img) 0 (entries_per_block img) (logical_block - 12).

Definition resolve_file_block_frag (img : image) (ino : inode) (logical_block : Z) : M Z :=
  if logical_block <? 12 then ret (db_at ino logical_block)
  else
    match indirect_slot img logical_block with
    | Some (slot, index) =>
        resolve_indirect_block_frag img (S (Z.to_nat slot)) (ib_at ino slot) index
    | None => fail EINVAL
    end.

(** ** Lookup, as the writers do it (src/src/core/alloc.c) *)
Fixpoint resolve_indirect_data_block (img : image) (level : nat)
    (block_frag logical_index : Z) : M Z :=
  if block_frag =? 0 then ret 0
  else
    match level with
    | O => fail EINVAL
    | S O => read_indirect_entry img block_frag logical_index
    | S level' =>
        let span := entries_per_block img ^ Z.of_nat level' in
        let! next_frag := read_indirect_entry img block_frag (logical_index / span) in
        resolve_indirect_data_block img level' next_frag (logical_index mod span)
    end.
Definition resolve_inode_data_block (img : image) (ino : inode) (logical_block : Z) : M Z :=
  if logical_block <? 12 then ret (db_at ino logical_block)
  else
    match indirect_slot img logical_block with
    | Some (slot, index) =>
        resolve_indirect_data_block img (S (Z.to_nat slot)) (ib_at ino slot) index
    | None => fail EFBIG
    end.

(** ** Setting an address *)
Definition allocate_zeroed_full_block (img : image) (preferred_cg : Z) : M Z :=
  let bs := block_size (sb img) in
  let! frag := allocate_full_block_anycg img preferred_cg in
  let! room := attempt (malloc bs) in
  match room with
  | Err _ =>
      attempt (free_fragment_run img frag (frags_per_block (sb img))) ;;; fail ENOMEM
  | Ok _ =>
      let! rc := attempt (write_exact img zeros bs (frag_offset img frag)) in
      match rc with
      | Err e => attempt (free_fragment_run img frag (frags_per_block (sb img))) ;;; fail e
      | Ok _ => ret frag
      end
  end.

(** The block under an entry, allocated and entered when there is none. *)
Definition child_block (img : image) (block_frag entry_index preferred_cg : Z) : MI Z :=
  let! next_frag := io (read_indirect_entry img block_frag entry_index) in
  if next_frag =? 0 then
    let! next_frag := io (allocate_zeroed_full_block img preferred_cg) in
    let! rc := attempt (io (write_indirect_entry img block_frag entry_index next_frag)) in
    match rc with
    | Err e =>
        attempt (io (free_fragment_run img next_frag (frags_per_block (sb img)))) ;;;
        fail e
    | Ok _ => add_frags (frags_per_block (sb img)) ;;; ret next_frag
    end
  else ret next_frag.

Fixpoint set_indirect_data_block (img : image) (level : nat)
    (block_frag logical_index data_frag preferred_cg : Z) : MI unit :=
  match level with
  | O => fail EINVAL
  | S O => io (write_indirect_entry img block_frag logical_index data_frag)
  | S level' =>
      let span := entries_per_block img ^ Z.of_nat level' in
      let! next_frag := child_block img block_frag (logical_index / span) preferred_cg in
      set_indirect_data_block img level' next_frag (logical_index mod span) data_frag
        preferred_cg
  end.

Definition set_inode_data_block (img : image) (logical_block data_frag preferred_cg : Z)
    : MI unit :=
  let! ino := get_inode in
  if logical_block <? 12 then put_inode (set_db ino logical_block data_frag)
  else
    match indirect_slot img logical_block with
    | None => fail EFBIG
    | Some (slot, index) =>
        let! root_frag :=
          if ib_at ino slot =? 0 then
            let! root_frag := io (allocate_zeroed_full_block img preferred_cg) in
            put_inode (set_ib ino slot root_frag) ;;;
            add_frags (frags_per_block (sb img)) ;;;
            ret root_frag
          else ret (ib_at ino slot) in
        set_indirect_data_block img (S (Z.to_nat slot)) root_frag index data_frag preferred_cg
    end.

(** ** Freeing *)
Fixpoint free_indirect_metadata_tree (img : image) (level : nat) (block_frag : Z) : M unit :=
  if block_frag =? 0 then ret tt
  else
    match level with
    | O => fail EINVAL
    | S level' =>
        (match level' with
         | O => ret tt
         | S _ =>
             for_each (seqZ 0 (entries_per_block img)) (fun i =>
               let! child_frag := read_indirect_entry img block_frag i in
               if child_frag =? 0 then ret tt
               else free_indirect_metadata_tree img level' child_frag)
         end) ;;;
        free_fragment_run img block_frag (frags_per_block (sb img))
    end.

(** The number of blocks a file of [size] bytes spans, the bytes of one of them
    and the fragments that hold them. *)
Definition block_total (img : image) (size : Z) : Z :=
  (size + block_size (sb img) - 1) / block_size (sb img).
Definition chunk_bytes (img : image) (size logical_block : Z) : Z :=
  Z.min (size - logical_block * block_size (sb img)) (block_size (sb img)).
Definition chunk_frags (img : image) (size logical_block : Z) : Z :=
  if 12 <=? logical_block then frags_per_block (sb img)
  else (chunk_bytes img size logical_block + frag_size (sb img) - 1) / frag_size (sb img).

Definition is_fast_symlink (ino : inode) : bool :=
  (ifmt (i_mode ino) =? NEXTUFS_IFLNK) &&
  negb (Z.land (i_flags ino) NEXTUFS_IC_FASTLINK =? 0).

Definition free_file_storage (img : image) : MI unit :=
  let! ino := get_inode in
  if is_fast_symlink ino then
    put_inode (set_size (set_flags (set_blocks ino zero12 zero3)
      (Z.land (i_flags ino) (w32 (Z.lnot NEXTUFS_IC_FASTLINK)))) 0 0)
  else
    for_each (seqZ 0 (block_total img (i_size ino))) (fun logical_block =>
      let! data_frag := io (resolve_inode_data_block img ino logical_block) in
      if data_frag =? 0 then ret tt
      else io (free_fragment_run img data_frag (chunk_frags img (i_size ino) logical_block))) ;;;
    put_inode (set_blocks ino zero12 (i_ib ino)) ;;;
    for_each [0; 1; 2] (fun slot =>
      let! ino := get_inode in
      io (free_indirect_metadata_tree img (S (Z.to_nat slot)) (ib_at ino slot)) ;;;
      put_inode (set_ib ino slot 0)) ;;;
    let! ino := get_inode in
    put_inode (set_size ino 0 0).

(** ** Storing the data of a new file *)
Definition store_block (img : image) (preferred_cg : Z) (data : buf)
    (data_len logical_block : Z) : MI unit :=
  let bs := block_size (sb img) in
  let frags_needed := chunk_frags img data_len logical_block in
  let bytes := chunk_bytes img data_len logical_block in
  let! alloc_frag := io (allocate_frags_anycg img preferred_cg frags_needed) in
  let! rc := attempt (set_inode_data_block img logical_block alloc_frag preferred_cg) in
  match rc with
  | Err e => attempt (io (free_fragment_run img alloc_frag frags_needed)) ;;; fail e
  | Ok _ =>
      add_frags frags_needed ;;;
      let! total := get_frags in
      let! ino := get_inode in
      put_inode (set_size ino (logical_block * bs + bytes)
                   (w32 (total * sectors_per_frag (sb img)))) ;;;
      let alloc_bytes := frags_needed * frag_size (sb img) in
      io (malloc alloc_bytes) ;;;
      io (write_exact img (blit zeros 0 (slice data (logical_block * bs)) bytes)
            alloc_bytes (frag_offset img alloc_frag))
  end.

Definition allocate_data_for_inode (img : image) (preferred_cg : Z) (data : buf)
    (data_len : Z) : MI unit :=
  if INT32_MAX <? data_len then fail EFBIG
  else
    let! rc := attempt (for_each (seqZ 0 (block_total img data_len))
                 (store_block img preferred_cg data data_len)) in
    match rc with
    | Err e => attempt (free_file_storage img) ;;; fail e
    | Ok _ =>
        let! total := get_frags in
        let! ino := get_inode in
        put_inode (set_size ino data_len (w32 (total * sectors_per_frag (sb img))))
    end.
End blockmap.

(** ** Frame: block-map routines change the image through checked writes only *)
Definition on_world {C} (R : world C -> world C -> Prop) (s s' : istate C) : Prop :=
  R (is_world s) (is_world s').
#[export] Instance on_world_preorder {C} (R : world C -> world C -> Prop) :
  PreOrder R -> PreOrder (on_world R).
Proof.
  intros HR. split; unfold on_world; [intros s; reflexivity|].
  intros s1 s2 s3 H1 H2. by etrans.
Qed.

Section plumbing.
Context {C : Type} (R : world C -> world C -> Prop) `{!PreOrder R}.

Lemma stable_io {A} (m : M (world C) A) : Stable R m -> Stable (on_world R) (io m).
Proof.
  intros Hm s r s' H. unfold io in H. destruct (m (is_world s)) as [r1 w1] eqn:E.
  injection H as <- <-. unfold on_world. by eapply Hm.
Qed.
Lemma stable_get_inode : Stable (on_world R) get_inode.
Proof. intros s r s' [= <- <-]. unfold on_world. reflexivity. Qed.
Lemma stable_get_frags : Stable (on_world R) get_frags.
Proof. intros s r s' [= <- <-]. unfold on_world. reflexivity. Qed.
Lemma stable_put_inode ino : Stable (on_world R) (put_inode ino).
Proof. intros s r s' [= <- <-]. unfold on_world. reflexivity. Qed.
Lemma stable_add_frags n : Stable (on_world R) (add_frags n).
Proof. intros s r s' [= <- <-]. unfold on_world. reflexivity. Qed.
Lemma stable_put_frags n : Stable (on_world R) (put_frags n).
Proof. intros s r s' [= <- <-]. unfold on_world. reflexivity. Qed.
Lemma stable_with_inode {A} ino (m : M (istate C) A) :
  Stable (on_world R) m -> Stable R (with_inode ino m).
Proof.
  intros Hm w r w' H. unfold with_inode in H.
  destruct (m (IState w ino 0)) as [r1 s1] eqn:E. injection H as <- <-. by apply Hm in E.
Qed.
End plumbing.
#[export] Hint Extern 3 (Stable (on_world _) _) =>
  (first [apply stable_get_inode | apply stable_get_frags | apply stable_put_inode |
          apply stable_add_frags | apply stable_put_frags]; apply _) : stable.
#[export] Hint Extern 3 (Stable (on_world _) (io _)) =>
  (apply stable_io; solve [eauto with stable]) : stable.
#[export] Hint Extern 3 (Stable _ (with_inode _ _)) =>
  (apply stable_with_inode; solve [eauto with stable]) : stable.

Section blockmap_frames.
Context {C : Type} `{HB : Backend C, HS : !BackendSpec C}.
Variable (img : image).
Hypothesis Himg : image_ok img.

Lemma read_indirect_quiet b i : Stable quiet (read_indirect_entry (C:=C) img b i).
Proof. unfold read_indirect_entry. solve_stable. Qed.
Local Hint Resolve read_indirect_quiet : stable.
Lemma write_indirect_carries b i v : Stable carries (write_indirect_entry (C:=C) img b i v).
Proof. unfold write_indirect_entry. solve_stable. Qed.
Local Hint Resolve write_indirect_carries : stable.

Lemma resolve_indirect_frag_quiet level : forall b i,
  Stable quiet (resolve_indirect_block_frag (C:=C) img level b i).
Proof.
  induction level as [|level IH]; intros b i; cbn [resolve_indirect_block_frag]; [solve_stable|].
  solve_stable.
Qed.
Lemma resolve_file_quiet ino l : Stable quiet (resolve_file_block_frag (C:=C) img ino l).
Proof.
  pose proof resolve_indirect_frag_quiet. unfold resolve_file_block_frag. solve_stable.
Qed.
Lemma resolve_indirect_data_quiet level : forall b i,
  Stable quiet (resolve_indirect_data_block (C:=C) img level b i).
Proof.
  induction level as [|level IH]; intros b i; cbn [resolve_indirect_data_block];
    [solve_stable|].
  case_match; [solve_stable|]. destruct level as [|level]; [solve_stable|].
  apply stable_bind; [apply _|solve_stable|intros; apply IH].
Qed.
Lemma resolve_inode_quiet ino l : Stable quiet (resolve_inode_data_block (C:=C) img ino l).
Proof.
  pose proof resolve_indirect_data_quiet. unfold resolve_inode_data_block. solve_stable.
Qed.
Local Hint Resolve resolve_inode_quiet : stable.

Lemma allocate_zeroed_carries cg : Stable carries (allocate_zeroed_full_block (C:=C) img cg).
Proof. unfold allocate_zeroed_full_block. solve_stable. Qed.
Local Hint Resolve allocate_zeroed_carries : stable.
Lemma child_block_carries b i cg :
  Stable (on_world carries) (child_block (C:=C) img b i cg).
Proof. unfold child_block. solve_stable. Qed.
Local Hint Resolve child_block_carries : stable.
Lemma set_indirect_carries level : forall b i d cg,
  Stable (on_world carries) (set_indirect_data_block (C:=C) img level b i d cg).
Proof.
  induction level as [|level IH]; intros b i d cg; cbn [set_indirect_data_block]; [solve_stable|].
  destruct level as [|level]; [solve_stable|].
  apply stable_bind; [apply _|solve_stable|]. intros; apply IH.
Qed.
Local Hint Resolve set_indirect_carries : stable.
Lemma set_inode_carries l d cg :
  Stable (on_world carries) (set_inode_data_block (C:=C) img l d cg).
Proof. unfold set_inode_data_block. solve_stable. Qed.
Local Hint Resolve set_inode_carries : stable.
Lemma free_tree_carries level : forall b,
  Stable carries (free_indirect_metadata_tree (C:=C) img level b).
Proof.
  induction level as [|level IH]; intros b; cbn [free_indirect_metadata_tree]; [solve_stable|].
  solve_stable.
Qed.
Local Hint Resolve free_tree_carries : stable.
Lemma free_storage_carries : Stable (on_world carries) (free_file_storage (C:=C) img).
Proof. unfold free_file_storage. solve_stable. Qed.
Local Hint Resolve free_storage_carries : stable.
Lemma store_block_carries cg data n l :
  Stable (on_world carries) (store_block (C:=C) img cg data n l).
Proof. unfold store_block. solve_stable. Qed.
Local Hint Resolve store_block_carries : stable.
Lemma allocate_data_carries cg data n :
  Stable (on_world carries) (allocate_data_for_inode (C:=C) img cg data n).
Proof. unfold allocate_data_for_inode. solve_stable. Qed.
End blockmap_frames.
#[export] Hint Resolve read_indirect_quiet write_indirect_carries resolve_file_quiet
  resolve_inode_quiet allocate_zeroed_carries set_inode_carries free_tree_carries
  free_storage_carries allocate_data_carries : stable.
