(* ===== verification/BlockLookup.v ===== *)
(** * The block map as a function

    [inode_block] reads the block map of an inode off the bytes of the image, as a
    function of the logical block.  Both lookup routines compute it
    (src/src/core/image.c for the readers, src/src/core/alloc.c for the writers),
    and setting an address is a one-point update of it: the theorem needs the
    indirect blocks of the inode to be separate, in use and outside the metadata
    ([tree], [owned]), and freshly allocated blocks keep it so. *)
From S2P Require Import Prelude.
From S2P Require Import Bytes.
From S2P Require Import Backend.
From S2P Require Import Superblock.
From S2P Require Import Image.
From S2P Require Import Inode.
From S2P Require Import CylGroup.
From S2P Require Import Alloc.
From S2P Require Import Groups.
From S2P Require Import BlockMap.

(** ** The map on bytes *)
Definition entry (img : image) (v : buf) (b i : Z) : Z := read_be32 v (entry_offset img b i).

Fixpoint tree_block (img : image) (v : buf) (level : nat) (b i : Z) : Z :=
  if b =? 0 then 0
  else
    match level with
    | O => 0
    | S O => entry img v b i
    | S level' =>
        let span := entries_per_block img ^ Z.of_nat level' in
        tree_block img v level' (entry img v b (i / span)) (i mod span)
    end.
Definition inode_block (img : image) (v : buf) (ino : inode) (l : Z) : Z :=
  if l <? 12 then db_at ino l
  else
    match indirect_slot img l with
    | Some (slot, i) => tree_block img v (S (Z.to_nat slot)) (ib_at ino slot) i
    | None => 0
    end.

(** [x] is an indirect block of the tree under [b]. *)
Fixpoint in_tree (img : image) (v : buf) (level : nat) (b x : Z) : Prop :=
  match level with
  | O => False
  | S level =>
      b <> 0 /\
      (x = b \/ exists i, 0 <= i < entries_per_block img /\
                          in_tree img v level (entry img v b i) x)
  end.

(** Two full blocks without a common fragment. *)
Definition clear_of (img : image) (x y : Z) : Prop :=
  x + frags_per_block (sb img) <= y \/ y + frags_per_block (sb img) <= x.

(** No block of the tree occurs twice or overlaps another one. *)
Fixpoint tree (img : image) (v : buf) (level : nat) (b : Z) : Prop :=
  match level with
  | O => True
  | S level =>
      b = 0 \/
      ((forall i, 0 <= i < entries_per_block img -> tree img v level (entry img v b i)) /\
       (forall i x, 0 <= i < entries_per_block img ->
          in_tree img v level (entry img v b i) x -> clear_of img b x) /\
       (forall i j x y, 0 <= i < entries_per_block img -> 0 <= j < entries_per_block img ->
          i <> j -> in_tree img v level (entry img v b i) x ->
          in_tree img v level (entry img v b j) y -> clear_of img x y))
  end.

(** A full block in use that holds no metadata. *)
Record owned (img : image) (v : buf) (b : Z) : Prop := Owned {
  ow_range : 0 < b /\ b + frags_per_block (sb img) <= frag_count (sb img);
  ow_used : forall f, b <= f < b + frags_per_block (sb img) -> frag_free img v f = false;
  ow_data : forall i, frag_offset img b <= i < frag_offset img b + block_size (sb img) ->
    ~ meta img i;
}.

(** Every free fragment is usable for data. *)
Definition map_sound (img : image) (v : buf) : Prop :=
  forall f, 0 <= f < frag_count (sb img) -> frag_free img v f = true ->
    0 < f /\ forall i, frag_offset img f <= i < frag_offset img f + frag_size (sb img) ->
      ~ meta img i.

(** ** The two lookup routines agree *)
Section agree.
Context {C : Type} `{HB : Backend C}.
Variable img : image.
Hypothesis Hepb : 4 <= block_size (sb img).

Lemma entries_pos : 0 < entries_per_block img.
Proof. unfold entries_per_block. apply Z.div_str_pos. lia. Qed.

(** Same value, same world; errors differ only in their code. *)
Definition same_answer (x y : result Z * world C) : Prop :=
  snd x = snd y /\ (forall v, fst x = Ok v <-> fst y = Ok v).

Lemma same_answer_err e e' w : same_answer (Err e, w) (Err e', w).
Proof. split; [done|]. by intros v; split. Qed.

Lemma resolve_indirect_agree level : (0 < level)%nat -> forall b i w,
  same_answer (resolve_indirect_block_frag img level b i w)
              (resolve_indirect_data_block img level b i w).
Proof.
  pose proof entries_pos. induction level as [|level IH]; intros Hl b i w; [lia|].
  cbn [resolve_indirect_block_frag resolve_indirect_data_block].
  destruct (Z.eqb_spec (entries_per_block img) 0); [lia|].
  destruct (Z.eqb_spec b 0) as [|_]; [done|]. destruct level as [|level].
  - change (Z.of_nat 0) with 0. rewrite Z.pow_0_r, Z.div_1_r.
    unfold bind, map_err. destruct (read_indirect_entry img b i w) as [[v|e] w1];
      [by split|apply same_answer_err].
  - cbv zeta. unfold bind at 1 2, map_err.
    destruct (read_indirect_entry img b _ w) as [[v|e] w1]; [|apply same_answer_err].
    destruct (Z.eqb_spec v 0) as [->|Hv]; [|apply IH; lia].
    cbn [resolve_indirect_data_block]. by split.
Qed.
Lemma resolve_agree ino l w :
  same_answer (resolve_file_block_frag img ino l w) (resolve_inode_data_block img ino l w).
Proof.
  unfold resolve_file_block_frag, resolve_inode_data_block.
  case_match; [by split|]. case_match; [|apply same_answer_err].
  case_match. apply resolve_indirect_agree. lia.
Qed.
End agree.

(** ** Lookup computes the map *)
Section lookup.
Context {C : Type} `{HB : Backend C, HS : !BackendSpec C}.
Variable img : image.

Lemma read_entry_value b i (w w' : world C) x :
  read_indirect_entry img b i w = (Ok x, w') -> bk_inv (w_ctx w) ->
  quiet w w' /\ x = entry img (view w) b i /\ bad_entry img b i = false.
Proof.
  intros Hr Hinv. pose proof (read_indirect_quiet img b i _ _ _ Hr) as Hq.
  unfold read_indirect_entry in Hr. destruct (bad_entry _ _ _); [by inv_step Hr|].
  inv_step Hr. inv_step Hr. apply read_exact_ok in Hrun as (_ & _ & Hb); [|done].
  split_and!; [done| |done]. unfold entry.
  replace (entry_offset img b i) with (entry_offset img b i + 0) by lia.
  rewrite <- slice_read_be32. apply read_be32_eq_on. intros j Hj. apply Hb.
  rewrite w64_small; lia.
Qed.

Lemma entry_equiv v v' b i : v ≡ v' -> entry img v b i = entry img v' b i.
Proof. apply read_be32_equiv. Qed.
Lemma tree_block_equiv level : forall v v' b i,
  v ≡ v' -> tree_block img v level b i = tree_block img v' level b i.
Proof.
  induction level as [|level IH]; intros v v' b i Hv; cbn [tree_block];
    destruct (b =? 0); try done.
  destruct level as [|level]; [by apply entry_equiv|].
  cbv zeta. rewrite (entry_equiv v v') by done. by apply IH.
Qed.

Lemma resolve_tree level : forall b i (w w' : world C) x,
  resolve_indirect_data_block img level b i w = (Ok x, w') -> bk_inv (w_ctx w) ->
  x = tree_block img (view w) level b i.
Proof.
  induction level as [|level IH]; intros b i w w' x Hr Hinv;
    cbn [resolve_indirect_data_block tree_block] in *; destruct (b =? 0); try by inv_step Hr.
  destruct level as [|level]; [by apply read_entry_value in Hr as (_ & ? & _)|].
  cbv zeta in *. inv_step Hr. apply read_entry_value in Hrun as (Hq & -> & _); [|done].
  apply IH in Hr; [|by apply Hq]. rewrite Hr. apply tree_block_equiv. by apply Hq.
Qed.
Lemma resolve_map ino l (w w' : world C) x :
  resolve_inode_data_block img ino l w = (Ok x, w') -> bk_inv (w_ctx w) ->
  x = inode_block img (view w) ino l.
Proof.
  unfold resolve_inode_data_block, inode_block. intros Hr Hinv.
  case_match; [by inv_step Hr|]. case_match; [|by inv_step Hr].
  case_match. by eapply resolve_tree.
Qed.
End lookup.

(** ** Pure facts about trees *)
Section trees.
Variable img : image.
Hypothesis Himg : image_sane img.
Local Abbreviation s := (sb img).
Local Abbreviation fpb := (frags_per_block s).
Local Abbreviation epb := (entries_per_block img).

Lemma fpb_bounds : 1 <= fpb <= 8.
Proof. pose proof (geo_fpb _ (sane_geometry img Himg)). lia. Qed.
Lemma frag_offset_add x n : frag_offset img (x + n) = frag_offset img x + n * frag_size s.
Proof. unfold frag_offset. lia. Qed.
Lemma block_bytes : fpb * frag_size s = block_size s.
Proof. pose proof (geo_frag_size _ (sane_geometry img Himg)). lia. Qed.
Lemma frag_size_min : 1024 <= frag_size s.
Proof. apply (sane_geometry img Himg). Qed.
Lemma entries_cases : epb = 1024 \/ epb = 2048.
Proof.
  unfold entries_per_block.
  destruct (geo_block_size _ (sane_geometry img Himg)) as [-> | ->]; [left|right]; done.
Qed.
Lemma entries_bytes : 4 * epb = block_size s.
Proof.
  unfold entries_per_block.
  destruct (geo_block_size _ (sane_geometry img Himg)) as [-> | ->]; done.
Qed.

Definition same_block (v v' : buf) (x : Z) : Prop :=
  forall i, frag_offset img x <= i < frag_offset img x + block_size s -> v' i = v i.
(** All fragments of the block are free. *)
Definition fresh (v : buf) (x : Z) : Prop :=
  forall f, x <= f < x + fpb -> frag_free img v f = true.

Lemma clear_of_sym x y : clear_of img x y -> clear_of img y x.
Proof. unfold clear_of. lia. Qed.
Lemma fresh_clear v x y : fresh v x -> owned img v y -> clear_of img x y.
Proof.
  intros Hx [_ Hy _]. pose proof fpb_bounds. unfold clear_of.
  destruct (decide (x + fpb <= y)); [by left|]. right.
  destruct (decide (y + fpb <= x)); [done|]. exfalso.
  specialize (Hx (Z.max x y) ltac:(lia)). rewrite Hy in Hx by lia. done.
Qed.

Lemma entry_same v v' b i :
  same_block v v' b -> 0 <= i < epb -> entry img v' b i = entry img v b i.
Proof.
  intros Hv Hi. apply read_be32_eq_on. intros j Hj. apply Hv.
  pose proof entries_bytes. unfold entry_offset in *. lia.
Qed.

Lemma index_split level i :
  0 <= i < epb ^ Z.of_nat (S level) ->
  0 <= i / epb ^ Z.of_nat level < epb /\
  0 <= i mod epb ^ Z.of_nat level < epb ^ Z.of_nat level.
Proof.
  intros Hi. pose proof entries_cases.
  assert (Hs : 0 < epb ^ Z.of_nat level) by (apply Z.pow_pos_nonneg; lia).
  rewrite Nat2Z.inj_succ, Z.pow_succ_r in Hi by lia.
  split; [|by apply Z.mod_pos_bound].
  split; [apply Z.div_pos; lia|apply Z.div_lt_upper_bound; lia].
Qed.
Lemma index_eq level i j :
  i / epb ^ Z.of_nat level = j / epb ^ Z.of_nat level ->
  i mod epb ^ Z.of_nat level = j mod epb ^ Z.of_nat level -> i = j.
Proof.
  intros Hd Hm. pose proof entries_cases.
  assert (Hs : 0 < epb ^ Z.of_nat level) by (apply Z.pow_pos_nonneg; lia).
  rewrite (Z.div_mod i (epb ^ Z.of_nat level)), (Z.div_mod j (epb ^ Z.of_nat level)) by lia.
  congruence.
Qed.

Lemma tree_block_step v level b i : b <> 0 ->
  tree_block img v (S (S level)) b i =
  tree_block img v (S level) (entry img v b (i / epb ^ Z.of_nat (S level)))
    (i mod epb ^ Z.of_nat (S level)).
Proof. intros Hb. cbn [tree_block]. by destruct (Z.eqb_spec b 0). Qed.
Lemma tree_block_leaf v b i : b <> 0 -> tree_block img v 1 b i = entry img v b i.
Proof. intros Hb. cbn [tree_block]. by destruct (Z.eqb_spec b 0). Qed.
Lemma tree_block_null v level i : tree_block img v level 0 i = 0.
Proof. by destruct level. Qed.
Lemma in_tree_root v level b : b <> 0 -> in_tree img v (S level) b b.
Proof. cbn. auto. Qed.
Lemma in_tree_null v level x : ~ in_tree img v level 0 x.
Proof. destruct level; cbn; naive_solver. Qed.
Lemma in_tree_child v level b i x :
  b <> 0 -> 0 <= i < epb -> in_tree img v level (entry img v b i) x ->
  in_tree img v (S level) b x.
Proof. cbn. eauto. Qed.

(** A tree depends on its own blocks only. *)
Lemma tree_frame v v' level : forall b,
  (forall x, in_tree img v level b x -> same_block v v' x) ->
  (forall x, in_tree img v' level b x <-> in_tree img v level b x) /\
  (forall i, 0 <= i < epb ^ Z.of_nat level ->
     tree_block img v' level b i = tree_block img v level b i) /\
  (tree img v level b -> tree img v' level b).
Proof.
  induction level as [|level IH]; intros b Hsame; [done|].
  destruct (decide (b = 0)) as [->|Hb].
  { split_and!; [by intros x; split; intros ?%in_tree_null|done|by left]. }
  assert (Hroot : same_block v v' b) by by apply Hsame, in_tree_root.
  assert (He : forall i, 0 <= i < epb -> entry img v' b i = entry img v b i)
    by (intros; by apply entry_same).
  assert (Hsub : forall i, 0 <= i < epb -> _) by (intros i Hi; exact (IH (entry img v b i)
    (fun x Hx => Hsame x (in_tree_child v level b i x Hb Hi Hx)))).
  split_and!.
  - intros x. cbn [in_tree]. split; intros (_ & [->|(i & Hi & Hx)]); split;
      try done; try (by left); right; exists i; split; try done;
      destruct (Hsub i Hi) as (Hin & _); rewrite He in * by done; by apply Hin.
  - intros i Hi. destruct level as [|level].
    + rewrite !tree_block_leaf by done. apply He. cbn in Hi. lia.
    + rewrite !tree_block_step by done. apply index_split in Hi as [Hk Hr].
      rewrite He by done. by apply (Hsub _ Hk).
  - cbn [tree]. intros [|(Ht & Hc & Hp)]; [by left|right]. split_and!.
    + intros i Hi. rewrite He by done. by apply (Hsub i Hi), Ht.
    + intros i x Hi Hx. rewrite He in Hx by done. apply (Hsub i Hi) in Hx. by eapply Hc.
    + intros i j x y Hi Hj Hne Hx Hy. rewrite He in Hx, Hy by done.
      apply (Hsub i Hi) in Hx. apply (Hsub j Hj) in Hy. by eapply (Hp i j).
Qed.
End trees.

(** ** Writes outside the metadata *)
Section effects.
Context {C : Type} `{HB : Backend C, HS : !BackendSpec C} (D : C -> Prop) `{HD : !Roomy D}.
Variable img : image.
Hypothesis Himg : image_sane img.
Hypothesis Hlay : layout_apart img.
Local Abbreviation s := (sb img).
Local Abbreviation fpb := (frags_per_block s).
Local Abbreviation epb := (entries_per_block img).

Record ready (w : world C) : Prop := Ready {
  rd_steady : steady img w;
  rd_room : D (w_ctx w);
  rd_sound : map_sound img (view w);
}.

(** No fragment becomes free. *)
Definition shrinks (v v' : buf) : Prop := forall f, 0 <= f < frag_count s ->
  frag_free img v' f = true -> frag_free img v f = true.

Lemma shrinks_trans v1 v2 v3 : shrinks v1 v2 -> shrinks v2 v3 -> shrinks v1 v3.
Proof. intros H1 H2 f Hf Hv. auto. Qed.
Lemma shrinks_owned v v' x : shrinks v v' -> owned img v x -> owned img v' x.
Proof.
  intros Hsh [Hr Hu Hd]. constructor; [done| |done]. intros f Hf.
  destruct (frag_free img v' f) eqn:E; [|done]. apply Hsh in E; [|lia].
  by rewrite Hu in E.
Qed.
Lemma shrinks_fresh v v' x :
  shrinks v v' -> 0 <= x -> x + fpb <= frag_count s -> fresh img v' x -> fresh img v x.
Proof. intros Hsh Hx Hr Hf f Hi. apply Hsh; [lia|]. by apply Hf. Qed.
Lemma shrinks_sound v v' : shrinks v v' -> map_sound img v -> map_sound img v'.
Proof. intros Hsh Hm f Hf Hv. apply Hm; [done|]. by apply Hsh. Qed.

(** A checked write that touches no metadata. *)
Lemma data_write b n off w w' :
  ready w -> write_exact img b n off w = (Ok tt, w') ->
  (forall i, off <= i < off + w64 n -> ~ meta img i) ->
  ready w' /\ view w' ≡ blit (view w) off (to_bytes b) (w64 n) /\ shrinks (view w) (view w').
Proof.
  intros [[Hi Hf] Hr Hs] Hw Hm.
  pose proof (unfull_write_exact D _ _ _ _ _ _ _ Hr Hw) as [Hr' _].
  apply write_exact_spec in Hw as (Hi' & _ & Hfr & Hok); [|done].
  destruct (Hok eq_refl) as (Hv & _).
  assert (Hmeta : forall i, meta img i -> view w' i = view w i)
    by (intros i Hmi; apply Hfr; intros ?; by eapply Hm).
  assert (Hsh : shrinks (view w) (view w')).
  { intros f Hff. by rewrite (frag_free_meta img Himg (view w) (view w')) by
      (done || by apply frag_count_groups). }
  split_and!; [|done|done]. constructor; [constructor; [done|]|done|by eapply shrinks_sound].
  apply (fs_acct_meta _ Himg (view w)); [by apply bk_view_wf|done|done].
Qed.

Lemma block_data v b i : owned img v b ->
  frag_offset img b <= i < frag_offset img b + block_size s -> ~ meta img i.
Proof. intros Ho. apply Ho. Qed.

Lemma frag_offset_mono x y : x <= y -> frag_offset img x <= frag_offset img y.
Proof. unfold frag_offset. pose proof (frag_size_min img Himg). nia. Qed.
Lemma clear_bytes x y i : clear_of img x y ->
  frag_offset img x <= i < frag_offset img x + block_size s ->
  frag_offset img y <= i < frag_offset img y + block_size s -> False.
Proof.
  unfold clear_of. rewrite <- (block_bytes img Himg), <- !frag_offset_add.
  intros [H|H] Hi Hj; apply frag_offset_mono in H; lia.
Qed.

Lemma write_entry_ok b i x w w' :
  ready w -> owned img (view w) b -> 0 <= i -> 0 <= x < 2 ^ 32 ->
  write_indirect_entry img b i x w = (Ok tt, w') ->
  ready w' /\ shrinks (view w) (view w') /\ 0 <= i < epb /\
  entry img (view w') b i = x /\
  (forall j, 0 <= j -> j <> i -> entry img (view w') b j = entry img (view w) b j) /\
  (forall y, clear_of img b y -> same_block img (view w) (view w') y).
Proof.
  intros Hw Hb Hi Hx Hr. unfold write_indirect_entry in Hr.
  destruct (bad_entry img b i) eqn:E; [by inv_step Hr|]. unfold bad_entry in E.
  apply orb_false_iff in E as [E _]. apply orb_false_iff in E as [E _].
  apply Z.leb_gt in E. pose proof (entries_bytes img Himg).
  assert (Hin : forall k, entry_offset img b i <= k < entry_offset img b i + 4 ->
    frag_offset img b <= k < frag_offset img b + block_size s)
    by (unfold entry_offset; intros; lia).
  apply data_write in Hr as (Hw' & Hv & Hsh); [|done|].
  2: { intros k Hk. rewrite w64_small in Hk by lia. by eapply block_data, Hin. }
  rewrite w64_small in Hv by lia. split_and!; try done.
  - unfold entry. rewrite (read_be32_equiv _ _ _ Hv).
    rewrite <- (Z.add_0_r (entry_offset img b i)) at 2.
    rewrite (read_be32_eq_on _ (slice (blit zeros 0 (write_be32 zeros 0 x) 4)
      (- entry_offset img b i))).
    + rewrite slice_read_be32.
      replace (- entry_offset img b i + (entry_offset img b i + 0)) with 0 by lia.
      rewrite (read_be32_eq_on _ (write_be32 zeros 0 x)).
      * rewrite read_write_be32. by apply w32_small.
      * intros k Hk. rewrite blit_in by lia. f_equal. lia.
    + intros k Hk. rewrite blit_in by lia. unfold slice.
      rewrite blit_in by lia. unfold to_bytes. rewrite Z.sub_0_r, Z.add_comm.
      unfold w8. apply wrap_small. apply wf_write_be32, wf_zeros.
  - intros j Hj Hne. unfold entry. apply read_be32_eq_on. intros k Hk. rewrite (Hv k).
    apply blit_out. unfold entry_offset in *. lia.
  - intros y Hy k Hk. rewrite (Hv k). apply blit_out. intros Hc.
    eapply clear_bytes; [done| |done]. by apply Hin.
Qed.

(** A block just taken from the map. *)
Record new_block (w w' : world C) (f : Z) : Prop := NewBlock {
  nb_ready : ready w';
  nb_shrinks : shrinks (view w) (view w');
  nb_owned : owned img (view w') f;
  nb_fresh : fresh img (view w) f;
  nb_frame : forall x, owned img (view w) x -> same_block img (view w) (view w') x;
}.

Lemma taken_shrinks m f w w' : frags_taken img m f w w' -> shrinks (view w) (view w').
Proof.
  intros [_ _ _ _ _ Hbits _] g Hg. rewrite Hbits by (by apply frag_count_groups).
  by case_match.
Qed.

(** The fragments of a sound map hold no metadata. *)
Lemma fresh_data v f : map_sound img v -> 0 <= f -> f + fpb <= frag_count s -> fresh img v f ->
  0 < f /\
  forall i, frag_offset img f <= i < frag_offset img f + block_size s -> ~ meta img i.
Proof.
  intros Hs Hf Hr Hfr. pose proof (fpb_bounds img Himg). pose proof (frag_size_min img Himg).
  split; [apply (Hs f); [lia|apply Hfr; lia]|]. intros i Hi.
  rewrite <- (block_bytes img Himg) in Hi.
  set (k := (i - frag_offset img f) / frag_size s).
  assert (Hk : 0 <= k < fpb)
    by (split; [apply Z.div_pos; lia|apply Z.div_lt_upper_bound; lia]).
  assert (Hm : i - frag_offset img f = frag_size s * k + (i - frag_offset img f) mod frag_size s)
    by (apply Z.div_mod; lia).
  pose proof (Z.mod_pos_bound (i - frag_offset img f) (frag_size s) ltac:(lia)).
  apply (Hs (f + k)); [lia|apply Hfr; lia|]. rewrite frag_offset_add. lia.
Qed.

Lemma full_block_taken cg w w' f :
  ready w -> allocate_full_block_anycg img cg w = (Ok f, w') -> new_block w w' f.
Proof.
  intros [Hst Hr Hs] Ha. pose proof (fpb_bounds img Himg).
  apply (anycg_taken D img Himg Hlay) in Ha as [Ht Hr']; try done; [|lia].
  pose proof (taken_shrinks _ _ _ _ Ht) as Hsh.
  destruct Ht as [Hst' _ _ [Hf0 Hfc] Hfree Hbits Honly].
  destruct (fresh_data _ _ Hs Hf0 Hfc Hfree) as [Hpos Hdata].
  constructor; [constructor; [done..|by eapply shrinks_sound]|done| |done|].
  - constructor; [done| |done]. intros g Hg.
    rewrite Hbits by (apply frag_count_groups; [done|lia]).
    by destruct (Z.leb_spec f g), (Z.ltb_spec g (f + fpb)); try lia.
  - intros x [_ _ Hx] i Hi. apply Honly. by apply Hx.
Qed.

Lemma zeroed_ok cg w w' f :
  ready w -> allocate_zeroed_full_block img cg w = (Ok f, w') ->
  new_block w w' f /\ forall i, 0 <= i < epb -> entry img (view w') f i = 0.
Proof.
  intros Hw Hr. unfold allocate_zeroed_full_block in Hr. inv_step Hr.
  apply full_block_taken in Hrun as [Hw1 Hsh1 Ho1 Hf1 Hfr1]; [|done].
  inv_step Hr. inv_step Hrun. destruct x as [u|]; [|by repeat inv_step Hr].
  assert (Hq : quiet w0 w1) by (eapply malloc_quiet; exact Hrun0).
  pose proof (unfull_malloc D _ _ _ _ (rd_room _ Hw1) Hrun0) as [Hr2 _].
  destruct Hw1 as [Hst1 Hroom1 Hs1]. assert (Hv1 : view w1 ≡ view w0) by apply Hq, Hst1.
  assert (Hbits1 : forall g, frag_free img (view w1) g = frag_free img (view w0) g)
    by (intros g; by apply quiet_frag_free; [|apply Hst1]).
  assert (Hw2 : ready w1).
  { constructor; [by eapply quiet_steady|done|]. intros g Hg. rewrite Hbits1. auto. }
  inv_step Hr. inv_step Hrun. destruct x as [[]|]; [|by repeat inv_step Hr]. inv_step Hr.
  pose proof (geo_block_size _ (sane_geometry img Himg)).
  apply data_write in Hrun1 as (Hw3 & Hv3 & Hsh3); [|done|].
  2: { rewrite w64_small by lia. intros i Hi. by eapply block_data. }
  rewrite w64_small in Hv3 by lia.
  assert (Hsh : shrinks (view w) (view w')).
  { eapply shrinks_trans; [done|]. intros g Hg Hfr. rewrite <- Hbits1. auto. }
  assert (Hsh' : shrinks (view w0) (view w'))
    by (intros g Hg Hfr; rewrite <- Hbits1; auto).
  split.
  - constructor; [done|done|by eapply shrinks_owned|done|].
    intros x Hx i Hi. rewrite (Hv3 i), blit_out.
    + rewrite (Hv1 i). exact (Hfr1 x Hx i Hi).
    + intros Hc. eapply clear_bytes; [by eapply fresh_clear|done|done].
  - intros i Hi. pose proof (entries_bytes img Himg). unfold entry.
    rewrite (read_be32_eq_on _ zeros); [done|]. intros k Hk. rewrite (Hv3 k).
    unfold entry_offset in Hk. by rewrite blit_in by lia.
Qed.
End effects.

(** ** Growing a tree *)
Section growth.
Variable img : image.
Hypothesis Himg : image_sane img.
Local Abbreviation s := (sb img).
Local Abbreviation fpb := (frags_per_block s).
Local Abbreviation epb := (entries_per_block img).

Definition tree_owned (v : buf) (level : nat) (b : Z) : Prop :=
  tree img v level b /\ forall x, in_tree img v level b x -> owned img v x.

(** From [v] to [v'] the tree under [b] has at most gained blocks that were free,
    and nothing else in use has changed. *)
Record grows (level : nat) (b : Z) (v v' : buf) : Prop := Grows {
  gw_shrinks : shrinks img v v';
  gw_tree : tree_owned v' level b;
  gw_new : forall x, in_tree img v' level b x ->
    in_tree img v level b x \/ fresh img v x;
  gw_frame : forall x, owned img v x ->
    (forall y, in_tree img v level b y -> clear_of img y x) -> same_block img v v' x;
}.

Lemma grows_trans level b v1 v2 v3 :
  grows level b v1 v2 -> grows level b v2 v3 -> grows level b v1 v3.
Proof.
  intros [S1 T1 N1 F1] [S2 T2 N2 F2]. constructor; [by eapply shrinks_trans|done| |].
  - intros x Hx. destruct T2 as [_ Ho2]. pose proof (Ho2 x Hx) as [Hr _ _].
    apply N2 in Hx as [Hx|Hx]; [by apply N1|].
    right. eapply shrinks_fresh; [done|lia|lia|done].
  - intros x Hx Hc i Hi. rewrite (F2 x), (F1 x); try done; [by eapply shrinks_owned|].
    intros y Hy. apply N1 in Hy as [Hy|Hy]; [by apply Hc|]. by eapply fresh_clear.
Qed.

Lemma tree_owned_child v level b i :
  b <> 0 -> 0 <= i < epb -> tree_owned v (S level) b ->
  tree_owned v level (entry img v b i).
Proof.
  intros Hb Hi [Ht Ho]. destruct Ht as [|(Ht & _)]; [done|]. split; [by apply Ht|].
  intros x Hx. apply Ho. by eapply in_tree_child.
Qed.

(** When only the subtree at entry [k] grows, the tree grows, and lookups
    elsewhere are unchanged. *)
Lemma grows_child v v' level b k :
  tree_owned v (S level) b -> b <> 0 -> 0 <= k < epb ->
  grows level (entry img v b k) v v' ->
  grows (S level) b v v' /\
  (forall j, 0 <= j < epb -> entry img v' b j = entry img v b j) /\
  (forall j i, 0 <= j < epb -> j <> k -> 0 <= i < epb ^ Z.of_nat level ->
     tree_block img v' level (entry img v b j) i = tree_block img v level (entry img v b j) i).
Proof.
  intros Hto Hb Hk [Sh Tk Nk Fk]. pose proof Hto as [[|(Ht & Hc & Hp)] Ho]; [done|].
  assert (Hroot : owned img v b) by by apply Ho, in_tree_root.
  assert (Hsame : same_block img v v' b)
    by (apply Fk; [done|]; intros y Hy; by eapply clear_of_sym, Hc).
  assert (He : forall j, 0 <= j < epb -> entry img v' b j = entry img v b j)
    by (intros; by apply entry_same).
  assert (Hsub : forall j, 0 <= j < epb -> j <> k -> forall x,
    in_tree img v level (entry img v b j) x -> same_block img v v' x).
  { intros j Hj Hne x Hx. apply Fk.
    - by eapply Ho, in_tree_child.
    - intros y Hy. eapply (Hp k j); done. }
  assert (Hfr : forall j, 0 <= j < epb -> j <> k -> _)
    by (intros j Hj Hne; exact (tree_frame img Himg v v' level _ (Hsub j Hj Hne))).
  assert (Hnew : forall j x, 0 <= j < epb -> in_tree img v' level (entry img v b j) x ->
    in_tree img v level (entry img v b j) x \/ (j = k /\ fresh img v x)).
  { intros j x Hj Hx. destruct (decide (j = k)) as [->|Hne].
    - destruct (Nk x Hx); auto.
    - left. by apply (Hfr j Hj Hne). }
  assert (Hown : forall j x, 0 <= j < epb -> in_tree img v level (entry img v b j) x ->
    owned img v x) by (intros j x Hj Hx; by eapply Ho, in_tree_child).
  split; [|split; [done|intros j i Hj Hne; by apply (Hfr j Hj Hne)]].
  constructor; [done| | |].
  - split.
    + right. split_and!.
      * intros j Hj. rewrite He by done. destruct (decide (j = k)) as [->|Hne]; [apply Tk|].
        by apply (Hfr j Hj Hne), Ht.
      * intros j x Hj Hx. rewrite He in Hx by done.
        apply Hnew in Hx as [Hx|[_ Hx]]; [by eapply Hc| |done].
        by eapply clear_of_sym, fresh_clear.
      * intros i j x y Hi Hj Hne Hx Hy. rewrite He in Hx, Hy by done.
        apply Hnew in Hx as [Hx|[-> Hx]]; apply Hnew in Hy as [Hy|[-> Hy]]; try done.
        -- by eapply (Hp i j).
        -- eapply clear_of_sym, fresh_clear; [done|done|by eapply (Hown i)].
        -- eapply fresh_clear; [done|done|by eapply (Hown j)].
    + intros x (_ & [->|(j & Hj & Hx)]); [by eapply shrinks_owned|].
      rewrite He in Hx by done. destruct (decide (j = k)) as [->|Hne]; [by apply Tk|].
      apply (Hfr j Hj Hne) in Hx. eapply shrinks_owned; [done|]. by eapply Hown.
  - intros x (_ & [->|(j & Hj & Hx)]); [left; by apply in_tree_root|].
    rewrite He in Hx by done. apply Hnew in Hx as [Hx|[_ Hx]]; [|by right|done].
    left. by eapply in_tree_child.
  - intros x Hx Hclear. apply Fk; [done|]. intros y Hy. apply Hclear. by eapply in_tree_child.
Qed.

(** A block of zeros is a tree without further blocks. *)
Lemma zero_tree v level f :
  f <> 0 -> owned img v f -> (forall i, 0 <= i < epb -> entry img v f i = 0) ->
  tree_owned v (S level) f /\ (forall x, in_tree img v (S level) f x -> x = f) /\
  (forall i, 0 <= i < epb ^ Z.of_nat (S level) -> tree_block img v (S level) f i = 0).
Proof.
  intros Hf Ho Hz.
  assert (Hin : forall x, in_tree img v (S level) f x -> x = f).
  { intros x (_ & [->|(i & Hi & Hx)]); [done|]. rewrite Hz in Hx by done.
    by apply in_tree_null in Hx. }
  split_and!; [|done|].
  - split; [|by intros x ->%Hin]. right. split_and!.
    + intros i Hi. rewrite Hz by done. destruct level; [done|by left].
    + intros i x Hi Hx. rewrite Hz in Hx by done. by apply in_tree_null in Hx.
    + intros i j x y Hi _ _ Hx. rewrite Hz in Hx by done. by apply in_tree_null in Hx.
  - intros i Hi. destruct level as [|level].
    + rewrite tree_block_leaf by done. apply Hz. cbn in Hi. lia.
    + rewrite tree_block_step by done. apply (index_split img Himg) in Hi as [Hk _].
      rewrite Hz by done. apply tree_block_null.
Qed.

(** Hanging a tree of new blocks under an empty entry. *)
Lemma grows_hook v v' level b k f :
  tree_owned v (S level) b -> b <> 0 -> 0 <= k < epb -> entry img v b k = 0 ->
  shrinks img v v' ->
  (forall j, 0 <= j < epb -> j <> k -> entry img v' b j = entry img v b j) ->
  entry img v' b k = f -> tree_owned v' level f ->
  (forall x, in_tree img v' level f x -> fresh img v x) ->
  (forall x, owned img v x -> clear_of img b x -> same_block img v v' x) ->
  grows (S level) b v v' /\
  (forall j i, 0 <= j < epb -> j <> k -> 0 <= i < epb ^ Z.of_nat level ->
     tree_block img v' level (entry img v b j) i = tree_block img v level (entry img v b j) i).
Proof.
  intros Hto Hb Hk Hz Sh He Hf [Tf Of] Nf Fr. pose proof Hto as [[|(Ht & Hc & Hp)] Ho]; [done|].
  assert (Hroot : owned img v b) by by apply Ho, in_tree_root.
  assert (Hown : forall j x, 0 <= j < epb -> in_tree img v level (entry img v b j) x ->
    owned img v x) by (intros j x Hj Hx; by eapply Ho, in_tree_child).
  assert (Hfr : forall j, 0 <= j < epb -> j <> k -> _)
    by (intros j Hj Hne; exact (tree_frame img Himg v v' level (entry img v b j)
          (fun x Hx => Fr x (Hown j x Hj Hx) (Hc j x Hj Hx)))).
  assert (Hnew : forall j x, 0 <= j < epb -> in_tree img v' level (entry img v' b j) x ->
    (j <> k /\ in_tree img v level (entry img v b j) x) \/ (j = k /\ fresh img v x)).
  { intros j x Hj Hx. destruct (decide (j = k)) as [->|Hne].
    - right. split; [done|]. apply Nf. by rewrite <- Hf.
    - left. split; [done|]. rewrite He in Hx by done. by apply (Hfr j Hj Hne). }
  split; [|intros j i Hj Hne; by apply (Hfr j Hj Hne)].
  constructor; [done| | |].
  - split.
    + right. split_and!.
      * intros j Hj. destruct (decide (j = k)) as [->|Hne]; [by rewrite Hf|].
        rewrite He by done. by apply (Hfr j Hj Hne), Ht.
      * intros j x Hj Hx. apply Hnew in Hx as [[Hne Hx]|[_ Hx]]; [by eapply Hc| |done].
        by eapply clear_of_sym, fresh_clear.
      * intros i j x y Hi Hj Hne Hx Hy.
        apply Hnew in Hx as [[? Hx]|[-> Hx]]; apply Hnew in Hy as [[? Hy]|[-> Hy]]; try done.
        -- by eapply (Hp i j).
        -- eapply clear_of_sym, fresh_clear; [done|done|by eapply (Hown i)].
        -- eapply fresh_clear; [done|done|by eapply (Hown j)].
    + intros x (_ & [->|(j & Hj & Hx)]); [by eapply shrinks_owned|].
      destruct (decide (j = k)) as [->|Hne]; [apply Of; by rewrite <- Hf|].
      apply Hnew in Hx as [[_ Hx]|[? _]]; [|done|done].
      eapply shrinks_owned; [done|]. by eapply Hown.
  - intros x (_ & [->|(j & Hj & Hx)]); [left; by apply in_tree_root|].
    apply Hnew in Hx as [[_ Hx]|[_ Hx]]; [|by right|done].
    left. by eapply in_tree_child.
  - intros x Hx Hclear. apply Fr; [done|]. apply Hclear. by apply in_tree_root.
Qed.
End growth.

(** ** Setting an address *)
Section setting.
Context {C : Type} `{HB : Backend C, HS : !BackendSpec C} (D : C -> Prop) `{HD : !Roomy D}.
Variable img : image.
Hypothesis Himg : image_sane img.
Hypothesis Hlay : layout_apart img.
Local Abbreviation s := (sb img).
Local Abbreviation fpb := (frags_per_block s).
Local Abbreviation epb := (entries_per_block img).
Local Abbreviation ready := (ready D img).

(** The lookups of one tree after a one-point update. *)
Definition updated (level : nat) (b i d : Z) (v v' : buf) : Prop :=
  forall j, 0 <= j < epb ^ Z.of_nat level ->
    tree_block img v' level b j = if j =? i then d else tree_block img v level b j.

Lemma io_ok {A} (m : M (world C) A) st a st' :
  io m st = (Ok a, st') ->
  m (is_world st) = (Ok a, is_world st') /\ is_inode st' = is_inode st.
Proof.
  unfold io. destruct (m (is_world st)) as [r w] eqn:E. by intros [= -> <-].
Qed.

Lemma set_leaf_ok b i d w w' :
  ready w -> tree_owned img (view w) 1 b -> b <> 0 -> 0 <= i < epb -> 0 <= d < 2 ^ 32 ->
  write_indirect_entry img b i d w = (Ok tt, w') ->
  ready w' /\ grows img 1 b (view w) (view w') /\ updated 1 b i d (view w) (view w').
Proof.
  intros Hw Hto Hb Hi Hd Hr.
  assert (Ho : owned img (view w) b) by by apply Hto, in_tree_root.
  apply (write_entry_ok D img Himg) in Hr as (Hw' & Hsh & _ & Hset & Hoth & Hfr);
    [|done|done|lia|done].
  assert (Hin : forall v x, in_tree img v 1 b x -> x = b).
  { intros v x (_ & [->|(? & _ & [])]). done. }
  split_and!; [done| |].
  - constructor; [done| | |].
    + split; [|intros x ->%Hin; by eapply shrinks_owned]. right.
      split_and!; [done|by intros ? ? ? []|by intros ? ? ? ? ? ? ? []].
    + intros x ->%Hin. left. by apply in_tree_root.
    + intros x Hx Hc. apply Hfr, Hc. by apply in_tree_root.
  - intros j Hj. rewrite !tree_block_leaf by done. destruct (Z.eqb_spec j i) as [->|]; [done|].
    apply Hoth; [lia|done].
Qed.

Lemma quiet_ready w w' :
  quiet w w' -> D (w_ctx w') -> ready w -> ready w' /\ shrinks img (view w) (view w') /\
  forall x, same_block img (view w) (view w') x.
Proof.
  intros Hq Hr [Hst _ Hs].
  assert (Hb : forall g, frag_free img (view w') g = frag_free img (view w) g)
    by (intros g; by apply quiet_frag_free; [|apply Hst]).
  split_and!.
  - constructor; [by eapply quiet_steady|done|]. intros g Hg. rewrite Hb. intros Hf.
    destruct Hs with (f := g); auto.
  - intros g _. by rewrite Hb.
  - intros x i _. apply Hq, Hst.
Qed.
Lemma quiet_grows w w' level b :
  quiet w w' -> D (w_ctx w') -> ready w -> tree_owned img (view w) level b ->
  ready w' /\ grows img level b (view w) (view w') /\
  forall j, 0 <= j < epb ^ Z.of_nat level ->
    tree_block img (view w') level b j = tree_block img (view w) level b j.
Proof.
  intros Hq Hr Hw [Ht Ho]. destruct (quiet_ready _ _ Hq Hr Hw) as (Hw' & Hsh & Hsame).
  destruct (tree_frame img Himg _ _ level b (fun x _ => Hsame x)) as (Hin & Hlk & Htr).
  split_and!; [done| |done]. constructor; [done| | |by intros].
  - split; [by apply Htr|]. intros x Hx%Hin. eapply shrinks_owned; [done|]. by apply Ho.
  - intros x Hx%Hin. by left.
Qed.

Lemma new_child_ok level b k cg w w1 w2 f :
  ready w -> tree_owned img (view w) (S (S level)) b -> b <> 0 -> 0 <= k < epb ->
  entry img (view w) b k = 0 ->
  allocate_zeroed_full_block img cg w = (Ok f, w1) ->
  write_indirect_entry img b k f w1 = (Ok tt, w2) ->
  ready w2 /\ grows img (S (S level)) b (view w) (view w2) /\
  f <> 0 /\ entry img (view w2) b k = f /\
  forall j, 0 <= j < epb ^ Z.of_nat (S (S level)) ->
    tree_block img (view w2) (S (S level)) b j = tree_block img (view w) (S (S level)) b j.
Proof.
  intros Hw Hto Hb Hk Hz Ha Hwr.
  assert (Ho : owned img (view w) b) by by apply Hto, in_tree_root.
  apply (zeroed_ok D img Himg Hlay) in Ha as ([Hw1 Hsh1 Hof Hff Hfr1] & Hzero); [|done].
  assert (Hf : 0 < f < 2 ^ 32).
  { pose proof (ow_range _ _ _ Hof). pose proof (geo_minmax _ (sane_geometry img Himg)).
    pose proof (fpb_bounds img Himg). lia. }
  assert (Hcl : clear_of img b f) by (apply clear_of_sym; by eapply fresh_clear).
  apply (write_entry_ok D img Himg) in Hwr as (Hw2 & Hsh2 & _ & Hset & Hoth & Hfr2);
    [|done|by eapply shrinks_owned|lia|lia].
  assert (Hfz : forall i, 0 <= i < epb -> entry img (view w2) f i = 0).
  { intros i Hi. rewrite <- (Hzero i Hi). apply entry_same; [done|by apply Hfr2|done]. }
  destruct (zero_tree img Himg (view w2) level f) as (Htf & Hinf & Hlkf);
    [lia|by eapply shrinks_owned|done|].
  assert (Hframe : forall x, owned img (view w) x -> clear_of img b x ->
    same_block img (view w) (view w2) x).
  { intros x Hx Hc i Hi. rewrite (Hfr2 x Hc i Hi). by apply (Hfr1 x). }
  assert (Hsb : same_block img (view w) (view w1) b) by by apply Hfr1.
  destruct (grows_hook img Himg (view w) (view w2) (S level) b k f) as [Hg Hlk]; try done.
  - by eapply shrinks_trans.
  - intros j Hj Hne. rewrite Hoth by (done || lia). by apply entry_same.
  - by intros x ->%Hinf.
  - split_and!; try done; [lia|]. intros j Hj. rewrite !tree_block_step by done.
    apply (index_split img Himg) in Hj as [Hq Hr].
    destruct (decide (j / epb ^ Z.of_nat (S level) = k)) as [Heq|Hne].
    + rewrite Heq, Hset, Hz, tree_block_null. by apply Hlkf.
    + rewrite Hoth by (done || lia).
      rewrite (entry_same img Himg (view w) (view w1)) by done. by apply Hlk.
Qed.

Lemma child_block_ok level b k cg st st' e :
  ready (is_world st) -> tree_owned img (view (is_world st)) (S (S level)) b -> b <> 0 ->
  0 <= k < epb -> child_block img b k cg st = (Ok e, st') ->
  let v := view (is_world st) in let v' := view (is_world st') in
  ready (is_world st') /\ is_inode st' = is_inode st /\
  grows img (S (S level)) b v v' /\ e <> 0 /\ entry img v' b k = e /\
  forall j, 0 <= j < epb ^ Z.of_nat (S (S level)) ->
    tree_block img v' (S (S level)) b j = tree_block img v (S (S level)) b j.
Proof.
  cbv zeta. intros Hw Hto Hb Hk Hr. unfold child_block in Hr. inv_step Hr.
  apply io_ok in Hrun as [Hrd Hino]. pose proof (read_indirect_quiet _ _ _ _ _ _ Hrd) as Hq.
  assert (Hdev : D (w_ctx (is_world w))).
  { unfold read_indirect_entry in Hrd. destruct (bad_entry _ _ _); [done|].
    eapply (unfull_bind D); [apply unfull_read_exact, _|intros ?; apply unfull_ret|
      apply Hw|exact Hrd]. }
  apply read_entry_value in Hrd as (_ & -> & _); [|apply Hw].
  destruct (quiet_grows _ _ _ _ Hq Hdev Hw Hto) as (Hw1 & Hg1 & Hlk1).
  assert (Hent : entry img (view (is_world w)) b k = entry img (view (is_world st)) b k).
  { apply entry_same; [done| |done]. by apply (quiet_ready _ _ Hq Hdev Hw). }
  rewrite <- Hent in Hr.
  destruct (Z.eqb_spec (entry img (view (is_world w)) b k) 0) as [Hz|Hnz].
  2: { inv_step Hr. split_and!; done. }
  inv_step Hr. apply io_ok in Hrun as [Ha Hino1]. inv_step Hr. inv_step Hrun.
  destruct x as [[]|]; [|by repeat inv_step Hr].
  apply io_ok in Hrun0 as [Hwr Hino2]. inv_step Hr. injection Hrun as <- <-. inv_step Hr.
  destruct (new_child_ok level b k cg _ (is_world w0) (is_world w1) e Hw1) as (Hw3 & Hg3 & Hnz & He & Hlk3);
    try done; [apply Hg1|].
  cbn [is_world is_inode]. split_and!; try done.
  - congruence.
  - by eapply grows_trans.
  - intros j Hj. rewrite Hlk3 by done. by apply Hlk1.
Qed.

Lemma set_indirect_ok level : forall b i d cg st st',
  ready (is_world st) -> tree_owned img (view (is_world st)) (S level) b -> b <> 0 ->
  0 <= i < epb ^ Z.of_nat (S level) -> 0 <= d < 2 ^ 32 ->
  set_indirect_data_block img (S level) b i d cg st = (Ok tt, st') ->
  let v := view (is_world st) in let v' := view (is_world st') in
  ready (is_world st') /\ is_inode st' = is_inode st /\
  grows img (S level) b v v' /\ updated (S level) b i d v v'.
Proof.
  cbv zeta. induction level as [|level IH]; intros b i d cg st st' Hw Hto Hb Hi Hd Hr.
  { apply io_ok in Hr as [Hr Hino].
    assert (Hi' : 0 <= i < epb) by (cbn in Hi; lia).
    destruct (set_leaf_ok _ _ _ _ _ Hw Hto Hb Hi' Hd Hr) as (? & ? & ?). done. }
  change (bind (child_block img b (i / (epb ^ Z.of_nat (S level))) cg) (fun e =>
    set_indirect_data_block img (S level) e (i mod (epb ^ Z.of_nat (S level))) d cg) st = (Ok tt, st')) in Hr.
  inv_step Hr. destruct (index_split img Himg _ _ Hi) as [Hk Hrem].
  destruct (child_block_ok level b (i / (epb ^ Z.of_nat (S level))) cg _ _ _ Hw Hto Hb Hk Hrun)
    as (Hw1 & Hino1 & Hg1 & Ha & He & Hlk1).
  assert (Hto1 : tree_owned img (view (is_world w)) (S level) a).
  { rewrite <- He. eapply tree_owned_child; [exact Hb|exact Hk|apply Hg1]. }
  destruct (IH _ _ _ _ _ _ Hw1 Hto1 Ha Hrem Hd Hr) as (Hw2 & Hino2 & Hg2 & Hup).
  rewrite <- He in Hg2.
  destruct (grows_child img Himg _ _ _ b (i / (epb ^ Z.of_nat (S level))) (gw_tree _ _ _ _ _ Hg1) Hb Hk Hg2)
    as (Hg & Hent & Hlk2).
  split_and!; [done|congruence|by eapply grows_trans|].
  intros j Hj. rewrite <- (Hlk1 j Hj), !tree_block_step by done.
  destruct (index_split img Himg _ _ Hj) as [Hkj Hrj]. rewrite Hent by done.
  destruct (decide (j / (epb ^ Z.of_nat (S level)) = i / (epb ^ Z.of_nat (S level)))) as [Heq|Hne].
  - rewrite Heq, He. rewrite Hup by done.
    destruct (Z.eqb_spec (j mod (epb ^ Z.of_nat (S level))) (i mod (epb ^ Z.of_nat (S level)))) as [Hm|Hm], (Z.eqb_spec j i) as [Hji|Hji];
      try done; [|by rewrite Hji in Hm].
    exfalso. apply Hji. by eapply (index_eq img Himg (S level)).
  - rewrite Hlk2 by done. destruct (Z.eqb_spec j i) as [->|]; [done|done].
Qed.

(** ** The block map of an inode *)
Record mapped (v : buf) (ino : inode) : Prop := Mapped {
  mp_tree : forall k, 0 <= k < 3 -> tree_owned img v (S (Z.to_nat k)) (ib_at ino k);
  mp_apart : forall k k' x y, 0 <= k < 3 -> 0 <= k' < 3 -> k <> k' ->
    in_tree img v (S (Z.to_nat k)) (ib_at ino k) x ->
    in_tree img v (S (Z.to_nat k')) (ib_at ino k') y -> clear_of img x y;
}.

Lemma indirect_slot_spec l slot i :
  12 <= l -> indirect_slot img l = Some (slot, i) ->
  0 <= slot < 3 /\ 0 <= i < epb ^ Z.of_nat (S (Z.to_nat slot)) /\
  l = 12 + (if slot =? 0 then 0 else if slot =? 1 then epb else epb + epb ^ 2) + i.
Proof.
  intros Hl. unfold indirect_slot. cbn [find_slot]. pose proof (entries_cases img Himg) as He.
  rewrite !w64_small by (destruct He as [-> | ->]; lia).
  intros Hs. repeat lazymatch type of Hs with
    | context [?a <? ?b] => destruct (Z.ltb_spec a b) end; simplify_eq;
    destruct He as [He|He]; rewrite He in *;
    change (Z.of_nat (S (Z.to_nat 0))) with 1;
    change (Z.of_nat (S (Z.to_nat (0 + 1)))) with 2;
    change (Z.of_nat (S (Z.to_nat (0 + 1 + 1)))) with 3;
    change (0 =? 0) with true; change (0 + 1 =? 0) with false;
    change (0 + 1 =? 1) with true; change (0 + 1 + 1 =? 0) with false;
    change (0 + 1 + 1 =? 1) with false; lia.
Qed.
Lemma indirect_slot_inj l l' slot i :
  12 <= l -> 12 <= l' ->
  indirect_slot img l = Some (slot, i) -> indirect_slot img l' = Some (slot, i) -> l = l'.
Proof.
  intros H1 H2 (_ & _ & ->)%indirect_slot_spec (_ & _ & ->)%indirect_slot_spec; done.
Qed.

Lemma db_at_set ino i v j :
  (0 <= i < 12)%Z -> length (i_db ino) = 12%nat -> 0 <= j ->
  db_at (set_db ino i v) j = if j =? i then v else db_at ino j.
Proof.
  intros Hi Hlen Hj. unfold db_at, set_db. cbn [i_db set_blocks].
  rewrite !nth_lookup. destruct (Z.eqb_spec j i) as [->|Hne].
  - by rewrite list_lookup_insert_eq by lia.
  - by rewrite list_lookup_insert_ne by lia.
Qed.
Lemma ib_at_set ino i v j :
  (0 <= i < 3)%Z -> length (i_ib ino) = 3%nat -> 0 <= j ->
  ib_at (set_ib ino i v) j = if j =? i then v else ib_at ino j.
Proof.
  intros Hi Hlen Hj. unfold ib_at, set_ib. cbn [i_ib set_blocks].
  rewrite !nth_lookup. destruct (Z.eqb_spec j i) as [->|Hne].
  - by rewrite list_lookup_insert_eq by lia.
  - by rewrite list_lookup_insert_ne by lia.
Qed.

(** The root of slot [k], allocated when absent. *)
Lemma root_ok ino k cg st st' root :
  ready (is_world st) -> mapped (view (is_world st)) ino -> is_inode st = ino ->
  length (i_ib ino) = 3%nat -> 0 <= k < 3 ->
  (if ib_at ino k =? 0 then
     let! root_frag := io (allocate_zeroed_full_block img cg) in
     put_inode (set_ib ino k root_frag) ;;;
     add_frags (frags_per_block (sb img)) ;;; ret root_frag
   else ret (ib_at ino k)) st = (Ok root, st') ->
  let v := view (is_world st) in let v' := view (is_world st') in
  let ino' := is_inode st' in
  ready (is_world st') /\ mapped v' ino' /\ root <> 0 /\ ib_at ino' k = root /\
  i_db ino' = i_db ino /\ length (i_ib ino') = 3%nat /\ shrinks img v v' /\
  (forall x, owned img v x -> same_block img v v' x) /\
  (forall k x, 0 <= k < 3 -> in_tree img v' (S (Z.to_nat k)) (ib_at ino' k) x ->
     in_tree img v (S (Z.to_nat k)) (ib_at ino k) x \/ fresh img v x) /\
  forall k i, 0 <= k < 3 -> 0 <= i < epb ^ Z.of_nat (S (Z.to_nat k)) ->
    tree_block img v' (S (Z.to_nat k)) (ib_at ino' k) i =
    tree_block img v (S (Z.to_nat k)) (ib_at ino k) i.
Proof.
  cbv zeta. intros Hw Hm <- Hlen Hk Hr. set (ino := is_inode st) in *.
  destruct (Z.eqb_spec (ib_at ino k) 0) as [Hz|Hnz].
  2: { inv_step Hr. split_and!; try done; [by intros f _|by left]. }
  inv_step Hr. apply io_ok in Hrun as [Ha _]. inv_step Hr. injection Hrun as _ <-.
  inv_step Hr. injection Hrun as _ <-. inv_step Hr. cbn [is_world is_inode].
  apply (zeroed_ok D img Himg Hlay) in Ha as ([Hw1 Hsh1 Hof Hff Hfr1] & Hzero); [|done].
  assert (Hf : root <> 0) by (pose proof (ow_range _ _ _ Hof); lia).
  destruct (zero_tree img Himg (view (is_world w)) (Z.to_nat k) root Hf Hof Hzero)
    as (Htf & Hinf & Hlkf).
  assert (Hib : forall j, 0 <= j < 3 -> ib_at (set_ib ino k root) j =
    if j =? k then root else ib_at ino j) by (intros; apply ib_at_set; done || lia).
  assert (Hsub : forall j, 0 <= j < 3 -> _) by (intros j Hj;
    exact (tree_frame img Himg (view (is_world st)) (view (is_world w)) (S (Z.to_nat j))
      (ib_at ino j) (fun x Hx => Hfr1 x (proj2 (mp_tree _ _ Hm j Hj) x Hx)))).
  assert (Hnew : forall j x, 0 <= j < 3 ->
    in_tree img (view (is_world w)) (S (Z.to_nat j)) (ib_at (set_ib ino k root) j) x ->
    (j <> k /\ in_tree img (view (is_world st)) (S (Z.to_nat j)) (ib_at ino j) x) \/
    (j = k /\ x = root)).
  { intros j x Hj Hx. rewrite Hib in Hx by done. destruct (Z.eqb_spec j k) as [->|].
    - right. split; [done|]. by apply Hinf.
    - left. split; [done|]. by apply (Hsub j Hj). }
  split_and!; try done.
  - constructor.
    + intros j Hj. rewrite Hib by done. destruct (Z.eqb_spec j k) as [->|]; [done|].
      destruct (mp_tree _ _ Hm j Hj) as [Ht Ho]. split; [by apply (Hsub j Hj)|].
      intros x Hx%(Hsub j Hj). eapply shrinks_owned; [done|by apply Ho].
    + intros j j' x y Hj Hj' Hne Hx Hy.
      apply Hnew in Hx as [[? Hx]|[-> ->]]; apply Hnew in Hy as [[? Hy]|[-> ->]]; try done.
      * by eapply (mp_apart _ _ Hm j j').
      * eapply clear_of_sym, fresh_clear; [done|done|]. by eapply (mp_tree _ _ Hm j Hj).
      * eapply fresh_clear; [done|done|]. by eapply (mp_tree _ _ Hm j' Hj').
  - rewrite Hib by done. by rewrite Z.eqb_refl.
  - cbn. by rewrite length_insert.
  - intros j x Hj Hx. apply Hnew in Hx as [[_ Hx]|[-> ->]]; [by left|by right|done].
  - intros j i Hj Hi. rewrite Hib by done. destruct (Z.eqb_spec j k) as [->|].
    + rewrite Hz, tree_block_null. by apply Hlkf.
    + by apply (Hsub j Hj).
Qed.

Record block_set (l d : Z) (st st' : istate C) : Prop := BlockSet {
  bs_ready : ready (is_world st');
  bs_mapped : mapped (view (is_world st')) (is_inode st');
  bs_lookup : forall j, 0 <= j ->
    inode_block img (view (is_world st')) (is_inode st') j =
      if j =? l then d else inode_block img (view (is_world st)) (is_inode st) j;
  bs_frame : forall x, owned img (view (is_world st)) x ->
    (forall k y, 0 <= k < 3 ->
       in_tree img (view (is_world st)) (S (Z.to_nat k)) (ib_at (is_inode st) k) y ->
       clear_of img y x) ->
    same_block img (view (is_world st)) (view (is_world st')) x;
}.

Lemma set_direct_ok l d st :
  ready (is_world st) -> mapped (view (is_world st)) (is_inode st) ->
  length (i_db (is_inode st)) = 12%nat -> 0 <= l < 12 ->
  block_set l d st (IState (is_world st) (set_db (is_inode st) l d) (is_frags st)).
Proof.
  intros Hw [Ht Hs] Hlen Hl. constructor; cbn [is_world is_inode]; [done|by constructor| |done].
  intros j Hj. unfold inode_block. destruct (Z.ltb_spec j 12).
  - by apply db_at_set.
  - destruct (Z.eqb_spec j l); [lia|done].
Qed.

(** One tree of three grows and takes the update. *)
Lemma set_slot_ok l slot i d st1 st2 :
  12 <= l -> indirect_slot img l = Some (slot, i) ->
  ready (is_world st2) -> mapped (view (is_world st1)) (is_inode st1) ->
  is_inode st2 = is_inode st1 ->
  grows img (S (Z.to_nat slot)) (ib_at (is_inode st1) slot)
    (view (is_world st1)) (view (is_world st2)) ->
  updated (S (Z.to_nat slot)) (ib_at (is_inode st1) slot) i d
    (view (is_world st1)) (view (is_world st2)) ->
  block_set l d st1 st2.
Proof.
  intros Hl Hslot Hw Hm Hino Hg Hup. pose proof Hm as [Ht Hs].
  destruct (indirect_slot_spec _ _ _ Hl Hslot) as (Hk & Hi & _).
  set (v1 := view (is_world st1)) in *. set (v2 := view (is_world st2)) in *.
  set (ino := is_inode st1) in *.
  assert (Hsub : forall j, 0 <= j < 3 -> j <> slot -> _)
    by (intros j Hj Hne; exact (tree_frame img Himg v1 v2 (S (Z.to_nat j)) (ib_at ino j)
      (fun x Hx => gw_frame _ _ _ _ _ Hg x (proj2 (Ht j Hj) x Hx)
         (fun y Hy => Hs slot j y x Hk Hj (not_eq_sym Hne) Hy Hx)))).
  assert (Hnew : forall j x, 0 <= j < 3 -> in_tree img v2 (S (Z.to_nat j)) (ib_at ino j) x ->
    in_tree img v1 (S (Z.to_nat j)) (ib_at ino j) x \/ (j = slot /\ fresh img v1 x)).
  { intros j x Hj Hx. destruct (decide (j = slot)) as [->|Hne].
    - destruct (gw_new _ _ _ _ _ Hg x Hx); auto.
    - left. by apply (Hsub j Hj Hne). }
  constructor; rewrite ?Hino; [done| | |].
  - constructor.
    + intros j Hj. destruct (decide (j = slot)) as [->|Hne]; [apply Hg|].
      destruct (Ht j Hj) as [Htj Hoj]. split; [by apply (Hsub j Hj Hne)|].
      intros x Hx%(Hsub j Hj Hne). eapply shrinks_owned; [apply Hg|by apply Hoj].
    + intros j j' x y Hj Hj' Hne Hx Hy.
      apply Hnew in Hx as [Hx|[-> Hx]]; apply Hnew in Hy as [Hy|[-> Hy]]; try done.
      * by eapply (Hs j j').
      * eapply clear_of_sym, fresh_clear; [done|done|]. by eapply (Ht j Hj).
      * eapply fresh_clear; [done|done|]. by eapply (Ht j' Hj').
  - intros j Hj. unfold inode_block. fold v1 v2 ino. destruct (Z.ltb_spec j 12).
    { destruct (Z.eqb_spec j l); [lia|done]. }
    destruct (indirect_slot img j) as [[k' i']|] eqn:Ej.
    2: { destruct (Z.eqb_spec j l) as [->|]; [|done]. congruence. }
    destruct (indirect_slot_spec j _ _ ltac:(lia) Ej) as (Hk' & Hi' & _).
    destruct (decide (k' = slot)) as [->|Hne].
    + rewrite Hup by done. destruct (Z.eqb_spec i' i) as [->|Hii], (Z.eqb_spec j l) as [Hjl|Hjl];
        try done; [|congruence].
      exfalso. apply Hjl. by eapply indirect_slot_inj.
    + destruct (Z.eqb_spec j l) as [->|]; [congruence|]. by apply (Hsub k' Hk' Hne).
  - intros x Hx Hc. apply Hg; [done|]. intros y Hy. by eapply Hc.
Qed.
Lemma set_inode_ok l d cg st st' :
  ready (is_world st) -> mapped (view (is_world st)) (is_inode st) ->
  inode_wf (is_inode st) -> 0 <= l -> 0 <= d < 2 ^ 32 ->
  set_inode_data_block img l d cg st = (Ok tt, st') ->
  block_set l d st st' /\ shrinks img (view (is_world st)) (view (is_world st')).
Proof.
  intros Hw Hm Hwf Hl Hd Hr. unfold set_inode_data_block in Hr.
  rewrite (bind_run _ _ st (is_inode st) st) in Hr by done.
  destruct (Z.ltb_spec l 12).
  { injection Hr as <-. split; [|by intros f _]. apply set_direct_ok; auto. apply Hwf. }
  destruct (indirect_slot img l) as [[slot i]|] eqn:Es; [|by inv_step Hr].
  destruct (indirect_slot_spec l _ _ ltac:(done) Es) as (Hk & Hi & _).
  apply bind_ok in Hr as (root & st1 & Hroot & Hr).
  destruct (root_ok _ slot cg _ _ _ Hw Hm eq_refl (iw_ib_length _ Hwf) Hk Hroot)
    as (Hw1 & Hm1 & Hnz & Hib & Hdb & Hlen & Hsh & Hfr & Hnew & Hlk).
  pose proof (mp_tree _ _ Hm1 slot Hk) as Hto. rewrite Hib in Hto.
  destruct (set_indirect_ok _ _ _ _ _ _ _ Hw1 Hto Hnz Hi Hd Hr) as (Hw2 & Hino & Hg & Hup).
  rewrite <- Hib in Hg, Hup. split; [|eapply shrinks_trans; [done|apply Hg]].
  destruct (set_slot_ok l slot i d st1 st' ltac:(done) Es Hw2 Hm1 Hino Hg Hup)
    as [Hw3 Hm3 Hlk3 Hfr3].
  constructor; [done|done| |].
  - intros j Hj. rewrite Hlk3 by done. destruct (Z.eqb_spec j l); [done|]. unfold inode_block.
    destruct (Z.ltb_spec j 12); [unfold db_at; by rewrite Hdb|].
    destruct (indirect_slot img j) as [[k' i']|] eqn:Ej; [|done].
    destruct (indirect_slot_spec j _ _ ltac:(lia) Ej) as (Hk' & Hi' & _). by apply Hlk.
  - intros x Hx Hc i0 Hi0. rewrite (Hfr3 x); [by apply (Hfr x)|by eapply shrinks_owned| |done].
    intros k y Hky Hy. apply Hnew in Hy as [Hy|Hy]; [| |done].
    + by eapply Hc.
    + by eapply fresh_clear.
Qed.
End setting.

(** ** Checking a map *)
Definition apartb (a n b m : Z) : bool := (a + n <=? b) || (b + m <=? a).
Definition map_sound_check (img : image) (v : buf) : bool :=
  forallb (fun f => negb (frag_free img v f) ||
    let off := frag_offset img f in let n := frag_size (sb img) in
    (0 <? f) && apartb (slice_base img + 0x2000) 2048 off n &&
    forallb (fun cg => apartb (csum_off img cg) 16 off n &&
      apartb (cg_block_offset (sb img) (slice_base img) cg) (cg_size (sb img)) off n)
      (seqZ 0 (cg_count (sb img))))
    (seqZ 0 (frag_count (sb img))).
Lemma apartb_spec a n b m : apartb a n b m = true -> apart a n b m.
Proof. unfold apartb, apart. rewrite orb_true_iff, !Z.leb_le. done. Qed.
Lemma map_sound_check_sound img v : map_sound_check img v = true -> map_sound img v.
Proof.
  unfold map_sound_check. rewrite forallb_seqZ. intros H f Hf Hfree.
  specialize (H f ltac:(lia)). rewrite Hfree in H. cbn [negb orb] in H. cbv zeta in H.
  rewrite !andb_true_iff, forallb_seqZ, Z.ltb_lt in H. destruct H as [[Hpos Hsb] Hcg].
  apply apartb_spec in Hsb. split; [done|]. intros i Hi [Hm|(cg & Hc & Hm)].
  - unfold apart in Hsb. lia.
  - specialize (Hcg cg ltac:(lia)). apply andb_true_iff in Hcg as [H1%apartb_spec H2%apartb_spec].
    unfold apart in *. lia.
Qed.

(** ** Properties *)
Section lookup_properties.
Context {C : Type} `{HB : Backend C, HS : !BackendSpec C}.
Variable img : image.


(** C14. Setting a block address is a one-point update of the block map of the inode, on a
    device that never answers ENOSPC itself ([Roomy], as for allocate_frags_anycg):
    whichever of the direct entries or of the three indirect trees holds it, and
    whatever indirect blocks had to be allocated, afterwards the map gives the new
    address there and the old ones everywhere else, the indirect blocks are still
    separate and in use, and every other block in use keeps its contents. *)
Theorem set_inode_data_block_correct (D : C -> Prop) `{HD : !Roomy D} l d cg (st st' : istate C)
    (Himg : image_sane img) (Hlay : layout_apart img)
    (Hw : ready D img (is_world st)) (Hm : mapped img (view (is_world st)) (is_inode st))
    (Hwf : inode_wf (is_inode st)) (Hl : 0 <= l) (Hd : 0 <= d < 2 ^ 32)
    (Hrun : set_inode_data_block img l d cg st = (Ok tt, st')) :
  block_set D img l d st st'.
Proof. by eapply set_inode_ok. Qed.
End lookup_properties.

Lemma mini_map_sound : map_sound mini_image mini_disk.
Proof. apply map_sound_check_sound. vm_compute. reflexivity. Qed.
Lemma mini_ready : ready file_roomy mini_image mini_world.
Proof. constructor; [exact mini_steady|exact mini_roomy|exact mini_map_sound]. Qed.
(** An inode without indirect blocks. *)
Lemma unindexed img v ino : i_ib ino = zero3 -> mapped img v ino.
Proof.
  intros Hib. assert (H : forall k, 0 <= k < 3 -> ib_at ino k = 0).
  { intros k Hk. unfold ib_at. rewrite Hib.
    assert (k = 0 \/ k = 1 \/ k = 2) as [-> |[-> | ->]] by lia; done. }
  constructor.
  - intros k Hk. rewrite H by done. split; [by left|]. by intros x ?%in_tree_null.
  - intros k k' x y Hk _ _ Hx. rewrite H in Hx by done. by apply in_tree_null in Hx.
Qed.


(** A block beyond the single indirect range: two indirect blocks are allocated. *)
Lemma set_inode_data_block_correct_witness :
  let st := IState mini_world sample_inode 0 in
  let run := set_inode_data_block mini_image 2065 44 0 st in
  fst run = Ok tt /\
  inode_block mini_image (view (is_world (snd run))) (is_inode (snd run)) 2065 = 44 /\
  inode_block mini_image (view (is_world (snd run))) (is_inode (snd run)) 0 = 40.
Proof.
  intros st run. assert (Hr : fst run = Ok tt) by (vm_compute; reflexivity).
  split; [exact Hr|].
  destruct (set_inode_data_block_correct mini_image file_roomy 2065 44 0 st (snd run))
    as [_ _ Hlk _].
  - exact mini_image_sane.
  - exact mini_layout.
  - exact mini_ready.
  - apply unindexed. reflexivity.
  - exact sample_inode_wf.
  - discriminate.
  - split; [discriminate|reflexivity].
  - rewrite <- Hr. apply surjective_pairing.
  - split; rewrite Hlk by discriminate; reflexivity.
Defined.
