(* ===== verification/FileIO.v ===== *)
(** * Reading, resizing and writing files

    nextufs_inode_read_data and the symbolic links of src/src/core/image.c,
    nextufs__store_inline_symlink of src/src/mutate/dir_mutate.c, and all of
    src/src/mutate/file_mutate.c.  A [struct nextufs_node] is its inode number and
    the inode the routine changes in place (the [istate] of BlockMap). *)
From S2P Require Import Prelude.
From S2P Require Import Bytes.
From S2P Require Import Backend.
From S2P Require Import Superblock.
From S2P Require Import Image.
From S2P Require Import Inode.
From S2P Require Import CylGroup.
From S2P Require Import Alloc.
From S2P Require Import Groups.
From S2P Require Import BlockMap.
From S2P Require Import BlockLookup.

Definition set_mode (ino : inode) (mode : Z) : inode :=
  Inode mode (i_nlink ino) (i_uid ino) (i_gid ino) (i_size ino) (i_atime ino)
    (i_mtime ino) (i_ctime ino) (i_db ino) (i_ib ino) (i_flags ino) (i_blocks ino) (i_gen ino).
Definition set_times (ino : inode) (atime mtime ctime : Z) : inode :=
  Inode (i_mode ino) (i_nlink ino) (i_uid ino) (i_gid ino) (i_size ino) atime
    mtime ctime (i_db ino) (i_ib ino) (i_flags ino) (i_blocks ino) (i_gen ino).

Definition is_dir (ino : inode) : bool := ifmt (i_mode ino) =? NEXTUFS_IFDIR.
Definition is_reg (ino : inode) : bool := ifmt (i_mode ino) =? NEXTUFS_IFREG.
Definition is_lnk (ino : inode) : bool := ifmt (i_mode ino) =? NEXTUFS_IFLNK.

(** ** Symbolic links kept in the inode *)
Definition inline_bytes (ino : inode) : buf :=
  write_be32s (write_be32s zeros 0 (i_db ino)) 48 (i_ib ino).
(** The number of bytes stored (before the terminating zero) and the bytes. *)
Definition decode_inline_symlink (ino : inode) (out_size : Z) : Z * buf :=
  if negb (is_lnk ino) || (Z.land (i_flags ino) NEXTUFS_IC_FASTLINK =? 0) ||
     (i_size ino =? 0) || (60 <? i_size ino) || (out_size =? 0)
  then (0, zeros)
  else
    let nbytes := if out_size <=? i_size ino then out_size - 1 else i_size ino in
    (nbytes, blit zeros 0 (inline_bytes ino) nbytes).
Definition store_inline_symlink (ino : inode) (target : buf) (len : Z) : inode :=
  let raw := blit zeros 0 target len in
  set_blocks ino (read_be32s raw 0 12) (read_be32s raw 48 3).

(** The file bytes covered by block [l] between [start] and [stop]: where they
    begin and how many they are. *)
Definition span_start (img : image) (start l : Z) : Z := Z.max start (l * block_size (sb img)).
Definition span_bytes (img : image) (start stop l : Z) : Z :=
  Z.min stop ((l + 1) * block_size (sb img)) - span_start img start l.
(** The blocks the range touches. *)
Definition span_blocks (img : image) (start stop : Z) : list Z :=
  let first := start / block_size (sb img) in
  if stop <=? start then [] else
  seqZ first ((stop + block_size (sb img) - 1) / block_size (sb img) - first).

Section fileio.
Context {C : Type} `{!Backend C}.
Local Abbreviation M := (M (world C)).
Local Abbreviation MI := (Prelude.M (istate C)).

(** ** nextufs_inode_read_data *)
Definition read_span (img : image) (ino : inode) (start stop : Z) (l : Z) (out : buf)
    : M buf :=
  let at_ := span_start img start l in
  let chunk_size := span_bytes img start stop l in
  let block_offset := at_ - l * block_size (sb img) in
  let! data_frag := resolve_file_block_frag img ino l in
  if data_frag =? 0 then ret (fill out (at_ - start) 0 chunk_size)
  else if frag_count (sb img) * frag_size (sb img) <?
          data_frag * frag_size (sb img) + block_offset + chunk_size
  then fail EIO
  else
    let! b := read_exact img chunk_size (frag_offset img data_frag + block_offset) in
    ret (blit out (at_ - start) b chunk_size).

(** The bytes and how many were read. *)
Definition inode_read_data (img : image) (ino : inode) (start buf_size : Z)
    : M (buf * Z) :=
  if negb (is_ok (image_validate (sb img) (slice_base img) (slice_size img))) then fail EINVAL
  else if i_size ino <=? start then ret (zeros, 0)
  else
    let n := Z.min (i_size ino - start) buf_size in
    let! out := fold_each (span_blocks img start (start + n))
                  (read_span img ino start (start + n)) zeros in
    ret (out, n).

(** The string of at most [out_size - 1] bytes. *)
Definition inode_readlink (img : image) (ino : inode) (out_size : Z) : M (buf * Z) :=
  if negb (is_lnk ino) || (out_size =? 0) then fail EINVAL
  else
    let (n, out) := decode_inline_symlink ino out_size in
    if negb (n =? 0) then ret (out, n)
    else map_err EIO (inode_read_data img ino 0 (out_size - 1)).

(** ** Growing one block *)
Definition file_frags (img : image) (size block : Z) : Z :=
  let base := block * block_size (sb img) in
  if size <=? base then 0
  else
    let bytes := size - base in
    if (12 <=? block) || (block_size (sb img) <=? bytes) then frags_per_block (sb img)
    else (bytes + frag_size (sb img) - 1) / frag_size (sb img).
Definition size_valid (size : Z) : result unit :=
  if size <=? INT32_MAX then Ok tt else Err EFBIG.

(** The old contents of the block, zero-extended. *)
Definition old_contents (img : image) (old before logical old_size : Z) : M buf :=
  if old =? 0 then ret zeros
  else
    let keep := w64 (old_size - logical * block_size (sb img)) in
    let keep := if before * frag_size (sb img) <? keep then before * frag_size (sb img)
                else keep in
    let! b := read_exact img keep (frag_offset img old) in
    ret (blit zeros 0 b keep).
(** Room for [after] fragments: in place if possible, elsewhere if not. *)
Definition make_room (img : image) (cg old before after : Z) : M Z :=
  if before <? after then
    let! rc := attempt (if old =? 0 then fail ENOSPC
                        else extend_fragment_run img old before after) in
    match rc with
    | Ok _ => ret old
    | Err ENOSPC => allocate_frags_anycg img cg after
    | Err e => fail e
    end
  else ret old.
Definition grow_block (img : image) (inode_no logical old_size new_size : Z) : MI unit :=
  let after := file_frags img new_size logical in
  let cg := inode_no / inodes_per_group (sb img) in
  let! ino := get_inode in
  let! old := io (resolve_inode_data_block img ino logical) in
  let before := if old =? 0 then 0 else file_frags img old_size logical in
  io (malloc (after * frag_size (sb img))) ;;;
  let! b := io (old_contents img old before logical old_size) in
  let! allocated := io (make_room img cg old before after) in
  io (write_exact img b (after * frag_size (sb img)) (frag_offset img allocated)) ;;;
  put_frags 0 ;;;
  set_inode_data_block img logical allocated cg ;;;
  (if negb (old =? 0) && negb (allocated =? old)
   then io (free_fragment_run img old before) else ret tt) ;;;
  let! metadata := get_frags in
  let! ino := get_inode in
  put_inode (set_size ino (i_size ino)
    (w32 (i_blocks ino + w32 ((after - before + metadata) * sectors_per_frag (sb img))))).

(** ** Pruning indirect trees.  [Ok (root, released)]. *)
Fixpoint prune_tree (img : image) (root : Z) (level : nat) (base keep : Z) : M (Z * Z) :=
  match level with
  | O => fail EINVAL
  | S level' =>
      if root =? 0 then ret (0, 0)
      else
        let bs := block_size (sb img) in
        let count := bs / 4 in
        let span := count ^ Z.of_nat level' in
        let fpb := frags_per_block (sb img) in
        malloc bs ;;;
        let! b := read_exact img bs (frag_offset img root) in
        let! '(b, any, released) := fold_each (seqZ 0 count) (fun i '(b, any, released) =>
          let child := read_be32 b (i * 4) in
          if child =? 0 then ret (b, any, released)
          else
            let! '(child, n) :=
              match level' with
              | O =>
                  if keep <=? base + i then
                    free_fragment_run img child fpb ;;; ret (0, fpb)
                  else ret (child, 0)
              | S _ => prune_tree img child level' (base + i * span) keep
              end in
            ret (write_be32 b (i * 4) child, any || negb (child =? 0), w32 (released + n)))
          (b, false, 0) in
        if (any : bool) then
          write_exact img b bs (frag_offset img root) ;;; ret (root, released)
        else
          free_fragment_run img root fpb ;;; ret (0, w32 (released + fpb))
  end.

(** ** Resizing *)
Definition finish_inode (img : image) (inode_no : Z) : MI unit :=
  let! ino := get_inode in
  let ino := if unprivileged img && is_reg ino
             then set_mode ino (Z.land (i_mode ino) (Z.lnot 0xc00)) else ino in
  let! now := io time_now in
  let ino := set_times ino (i_atime ino) now now in
  put_inode ino ;;;
  io (write_inode_raw img inode_no ino).

Definition grow_file (img : image) (inode_no old_size size : Z) : MI unit :=
  let bs := block_size (sb img) in
  let last := (size - 1) / bs in
  (if negb (old_size mod bs =? 0) && negb (old_size / bs =? last) then
     let tail := old_size / bs in
     let! ino := get_inode in
     let! frag := io (resolve_inode_data_block img ino tail) in
     if frag =? 0 then ret tt else grow_block img inode_no tail old_size size
   else ret tt) ;;;
  grow_block img inode_no last old_size size.

(** Release the direct fragments beyond the new size; [is_frags] counts them. *)
Definition shrink_direct (img : image) (old_size size : Z) (i : Z) : MI unit :=
  let before := file_frags img old_size i in
  let after := file_frags img size i in
  let! ino := get_inode in
  if (db_at ino i =? 0) || (before <=? after) then ret tt
  else
    io (free_fragment_run img (w32 (db_at ino i + after)) (before - after)) ;;;
    add_frags (before - after) ;;;
    if after =? 0 then put_inode (set_db ino i 0) else ret tt.
Definition shrink_indirect (img : image) (keep : Z) (slot_base : Z * Z) : MI unit :=
  let (slot, base) := slot_base in
  let! ino := get_inode in
  let! '(root, released) := io (prune_tree img (ib_at ino slot) (S (Z.to_nat slot)) base keep) in
  put_inode (set_ib ino slot root) ;;;
  add_frags released.
Definition indirect_bases (img : image) : list (Z * Z) :=
  let span := block_size (sb img) / 4 in
  [(0, 12); (1, 12 + span); (2, 12 + span + span * span)].
(** Zero the part of the last fragments beyond the new end. *)
Definition zero_tail (img : image) (size : Z) : MI unit :=
  let bs := block_size (sb img) in
  if size mod bs =? 0 then ret tt
  else
    let logical := size / bs in
    let within := size mod bs in
    let! ino := get_inode in
    let! frag := io (resolve_inode_data_block img ino logical) in
    if frag =? 0 then ret tt
    else io (write_exact img zeros (file_frags img size logical * frag_size (sb img) - within)
               (frag_offset img frag + within)).
Definition shrink_file (img : image) (old_size size : Z) : MI unit :=
  let bs := block_size (sb img) in
  put_frags 0 ;;;
  for_each (seqZ 0 12) (shrink_direct img old_size size) ;;;
  for_each (indirect_bases img) (shrink_indirect img ((size + bs - 1) / bs)) ;;;
  let! released := get_frags in
  let! ino := get_inode in
  if i_blocks ino <? released * sectors_per_frag (sb img) then fail EINVAL
  else
    put_inode (set_size ino (i_size ino)
      (w32 (i_blocks ino - w32 (released * sectors_per_frag (sb img))))) ;;;
    zero_tail img size.

Definition file_resize (img : image) (inode_no size : Z) : MI unit :=
  let! ino := get_inode in
  let old_size := i_size ino in
  of_result (size_valid size) ;;;
  if size =? old_size then ret tt
  else
    (if old_size <? size then grow_file img inode_no old_size size
     else shrink_file img old_size size) ;;;
    let! ino := get_inode in
    put_inode (set_size ino size (i_blocks ino)) ;;;
    finish_inode img inode_no.

(** ** Writing *)
Definition write_span (img : image) (inode_no : Z) (data : buf) (offset stop : Z) (l : Z)
    : MI unit :=
  let bs := block_size (sb img) in
  let at_ := span_start img offset l in
  let bytes := span_bytes img offset stop l in
  let! ino := get_inode in
  let! frag := io (resolve_inode_data_block img ino l) in
  let! frag :=
    if frag =? 0 then
      grow_block img inode_no l (l * bs) (i_size ino) ;;;
      let! ino := get_inode in
      io (resolve_inode_data_block img ino l)
    else ret frag in
  io (write_exact img (slice data (at_ - offset)) bytes (frag_offset img frag + (at_ - l * bs))).
Definition file_write (img : image) (inode_no : Z) (data : buf) (size offset : Z) : MI unit :=
  if size =? 0 then ret tt
  else if UINT64_MAX - size <? offset then fail EFBIG
  else
    of_result (size_valid (offset + size)) ;;;
    let! ino := get_inode in
    (if i_size ino <? offset + size then file_resize img inode_no (offset + size)
     else ret tt) ;;;
    for_each (span_blocks img offset (offset + size))
      (write_span img inode_no data offset (offset + size)) ;;;
    finish_inode img inode_no.
End fileio.

(** ** Frames *)
Section fileio_frames.
Context {C : Type} `{HB : Backend C, HS : !BackendSpec C}.
Variable (img : image).
Hypothesis Himg : image_ok img.

Lemma read_span_quiet ino a z l b : Stable quiet (read_span (C:=C) img ino a z l b).
Proof. unfold read_span. solve_stable. Qed.
Local Hint Resolve read_span_quiet : stable.
Lemma inode_read_data_quiet ino a n : Stable quiet (inode_read_data (C:=C) img ino a n).
Proof. unfold inode_read_data. solve_stable. Qed.
Local Hint Resolve inode_read_data_quiet : stable.
Lemma inode_readlink_quiet ino n : Stable quiet (inode_readlink (C:=C) img ino n).
Proof. unfold inode_readlink. solve_stable. Qed.

Lemma old_contents_quiet a b c d : Stable quiet (old_contents (C:=C) img a b c d).
Proof. unfold old_contents. solve_stable. Qed.
Local Hint Resolve old_contents_quiet : stable.
Lemma make_room_carries a b c d : Stable carries (make_room (C:=C) img a b c d).
Proof. unfold make_room. solve_stable. Qed.
Local Hint Resolve make_room_carries : stable.
Lemma grow_block_carries n l a b : Stable (on_world carries) (grow_block (C:=C) img n l a b).
Proof. unfold grow_block. solve_stable. Qed.
Local Hint Resolve grow_block_carries : stable.
Lemma prune_tree_carries level : forall root base keep,
  Stable carries (prune_tree (C:=C) img root level base keep).
Proof.
  induction level as [|level IH]; intros root base keep; cbn [prune_tree]; [solve_stable|].
  solve_stable.
Qed.
Local Hint Resolve prune_tree_carries : stable.
Lemma finish_inode_carries n : Stable (on_world carries) (finish_inode (C:=C) img n).
Proof. pose proof (write_inode_raw_carries (C:=C)). unfold finish_inode. solve_stable. Qed.
Local Hint Resolve finish_inode_carries : stable.
Lemma grow_file_carries n a b : Stable (on_world carries) (grow_file (C:=C) img n a b).
Proof. unfold grow_file. solve_stable. Qed.
Lemma zero_tail_carries n : Stable (on_world carries) (zero_tail (C:=C) img n).
Proof. unfold zero_tail. solve_stable. Qed.
Local Hint Resolve grow_file_carries zero_tail_carries : stable.
Lemma shrink_file_carries a b : Stable (on_world carries) (shrink_file (C:=C) img a b).
Proof. unfold shrink_file, shrink_direct, shrink_indirect. solve_stable. Qed.
Local Hint Resolve shrink_file_carries : stable.
Lemma file_resize_carries n z : Stable (on_world carries) (file_resize (C:=C) img n z).
Proof. unfold file_resize. solve_stable. Qed.
Local Hint Resolve file_resize_carries : stable.
Lemma write_span_carries n d a z l : Stable (on_world carries) (write_span (C:=C) img n d a z l).
Proof. unfold write_span. solve_stable. Qed.
Local Hint Resolve write_span_carries : stable.
Lemma file_write_carries n d a z : Stable (on_world carries) (file_write (C:=C) img n d a z).
Proof. unfold file_write. solve_stable. Qed.
End fileio_frames.
#[export] Hint Resolve inode_read_data_quiet inode_readlink_quiet file_resize_carries
  file_write_carries : stable.

(** ** The contents of a file *)
Definition file_byte (img : image) (v : buf) (ino : inode) (i : Z) : Z :=
  let f := inode_block img v ino (i / block_size (sb img)) in
  if f =? 0 then 0 else v (frag_offset img f + i mod block_size (sb img)).

Section contents.
Context {C : Type} `{HB : Backend C, HS : !BackendSpec C}.
Variable img : image.
Local Abbreviation bs := (block_size (sb img)).
Hypothesis Hbs : 4 <= bs.

Lemma resolve_file_value ino l (w w' : world C) x :
  resolve_file_block_frag img ino l w = (Ok x, w') -> bk_inv (w_ctx w) ->
  x = inode_block img (view w) ino l.
Proof.
  intros Hr Hinv. destruct (resolve_agree img Hbs ino l w) as [_ Hv]. rewrite Hr in Hv.
  cbn [fst] in Hv. destruct (Hv x) as [Hx _]. specialize (Hx eq_refl).
  destruct (resolve_inode_data_block img ino l w) as [r w2] eqn:E. cbn in Hx. subst r.
  by eapply resolve_map.
Qed.

Lemma inode_block_equiv v v' ino l : v ≡ v' -> inode_block img v ino l = inode_block img v' ino l.
Proof.
  intros Hv. unfold inode_block. case_match; [done|]. case_match; [|done]. case_match.
  by apply tree_block_equiv.
Qed.
Lemma file_byte_equiv v v' ino i : v ≡ v' -> file_byte img v ino i = file_byte img v' ino i.
Proof.
  intros Hv. unfold file_byte. rewrite (inode_block_equiv v v') by done.
  case_match; [done|]. apply Hv.
Qed.

(** Position of a byte inside its block. *)
Lemma block_pos i l : l * bs <= i < (l + 1) * bs -> i / bs = l /\ i mod bs = i - l * bs.
Proof.
  intros Hi. assert (Hd : i / bs = l).
  { symmetry. apply (Z.div_unique i bs l (i - l * bs)); lia. }
  split; [done|]. rewrite Z.mod_eq by lia. rewrite Hd. lia.
Qed.

Lemma read_span_ok ino start stop l out out' (w w' : world C) :
  bk_inv (w_ctx w) -> 0 <= start -> stop < 2 ^ 63 ->
  0 <= span_bytes img start stop l ->
  read_span img ino start stop l out w = (Ok out', w') ->
  forall j, out' j =
    if (span_start img start l <=? start + j) &&
       (start + j <? span_start img start l + span_bytes img start stop l)
    then file_byte img (view w) ino (start + j) else out j.
Proof.
  intros Hinv Hs Hz Hb Hr j. unfold read_span in Hr. inv_step Hr.
  pose proof (resolve_file_quiet img ino l _ _ _ Hrun) as Hq.
  apply resolve_file_value in Hrun; [|done]. subst a.
  set (f := inode_block img (view w) ino l) in *.
  set (a0 := span_start img start l) in *. set (n := span_bytes img start stop l) in *.
  assert (Hin : a0 <= start + j < a0 + n ->
    (start + j) / bs = l /\ (start + j) mod bs = start + j - l * bs).
  { intros Hj. apply block_pos. unfold n, a0, span_bytes, span_start in *. lia. }
  destruct (Z.eqb_spec f 0) as [Ha|Ha].
  - injection Hr as <- _. unfold fill, blit.
    replace (a0 - start <=? j) with (a0 <=? start + j)
      by (destruct (Z.leb_spec a0 (start + j)), (Z.leb_spec (a0 - start) j); lia).
    replace (j <? a0 - start + n) with (start + j <? a0 + n)
      by (destruct (Z.ltb_spec (start + j) (a0 + n)), (Z.ltb_spec j (a0 - start + n)); lia).
    destruct (_ && _) eqn:E; [|done]. apply andb_true_iff in E as [E1%Z.leb_le E2%Z.ltb_lt].
    destruct Hin as [Hd _]; [lia|]. unfold file_byte. rewrite Hd. fold f.
    by rewrite Ha.
  - destruct (Z.ltb_spec (frag_count (sb img) * frag_size (sb img))
      (f * frag_size (sb img) + (a0 - l * bs) + n)); [by inv_step Hr|].
    inv_step Hr. inv_step Hr. apply read_exact_ok in Hrun as (_ & _ & Hrd); [|by apply Hq].
    rewrite w64_small in Hrd by (unfold n, span_bytes, span_start in *; lia).
    unfold blit.
    replace (a0 - start <=? j) with (a0 <=? start + j)
      by (destruct (Z.leb_spec a0 (start + j)), (Z.leb_spec (a0 - start) j); lia).
    replace (j <? a0 - start + n) with (start + j <? a0 + n)
      by (destruct (Z.ltb_spec (start + j) (a0 + n)), (Z.ltb_spec j (a0 - start + n)); lia).
    destruct (_ && _) eqn:E; [|done]. apply andb_true_iff in E as [E1%Z.leb_le E2%Z.ltb_lt].
    destruct Hin as [Hd Hm]; [lia|]. unfold file_byte. rewrite Hd, Hm. fold f.
    destruct (Z.eqb_spec f 0); [done|]. rewrite Hrd by lia. unfold slice.
    rewrite (quiet_view _ _ Hq Hinv _). f_equal. lia.
Qed.

(** The loop: after the blocks below [l], every byte before block [l] is right. *)
Lemma inode_read_data_ok ino start n (w w' : world C) out got :
  bk_inv (w_ctx w) -> 0 <= start -> start + n < 2 ^ 63 -> 0 <= n ->
  inode_read_data img ino start n w = (Ok (out, got), w') ->
  got = Z.max 0 (Z.min (i_size ino - start) n) /\
  forall j, 0 <= j < got -> out j = file_byte img (view w) ino (start + j).
Proof.
  intros Hinv Hs Hz Hn Hr. unfold inode_read_data in Hr.
  destruct (negb _); [by inv_step Hr|].
  destruct (Z.leb_spec (i_size ino) start).
  { injection Hr as <- <- _. split; [lia|]. intros j Hj. lia. }
  set (m := Z.min (i_size ino - start) n) in *.
  inv_step Hr. injection Hr as <- <- _. split; [lia|]. intros j Hj.
  unfold span_blocks in Hrun. destruct (Z.leb_spec (start + m) start); [lia|].
  set (first := start / bs) in *. set (count := _ - first) in Hrun.
  assert (Hfirst : first * bs <= start < (first + 1) * bs).
  { unfold first. pose proof (Z.div_mod start bs ltac:(lia)).
    pose proof (Z.mod_pos_bound start bs ltac:(lia)). lia. }
  assert (Hlast : (first + count - 1) * bs < start + m <= (first + count) * bs).
  { unfold count. replace (first + (_ - first)) with ((start + m + bs - 1) / bs) by lia.
    pose proof (Z.div_mod (start + m + bs - 1) bs ltac:(lia)).
    pose proof (Z.mod_pos_bound (start + m + bs - 1) bs ltac:(lia)). lia. }
  assert (Hcount : 0 <= count) by nia.
  set (P := fun l (b : buf) (w1 : world C) => quiet w w1 /\
    forall i, 0 <= i < m -> start + i < l * bs -> b i = file_byte img (view w) ino (start + i)).
  enough (HP : P (first + count) a w0) by (apply HP; lia).
  eapply (fold_each_inv P _ count first); [done| | |exact Hrun].
  - split; [done|]. intros i Hi Hlt. lia.
  - intros l b w1 b' w2 Hl [Hq Hb] Hstep. split.
    + etrans; [exact Hq|]. by eapply read_span_quiet.
    + assert (Hpos : 0 <= span_bytes img start (start + m) l)
        by (unfold span_bytes, span_start; nia).
      pose proof (quiet_inv _ _ Hq Hinv) as Hinv1.
      pose proof (read_span_ok ino start (start + m) l b b' w1 w2 Hinv1 Hs ltac:(lia) Hpos Hstep)
        as Hok.
      intros i Hi Hlt. rewrite Hok. destruct (_ && _) eqn:E.
      * apply file_byte_equiv. by apply Hq.
      * apply Hb; [done|]. apply andb_false_iff in E as [E%Z.leb_gt|E%Z.ltb_ge];
          unfold span_bytes, span_start in *; lia.
Qed.

Lemma inode_read_data_wf ino start n (w w' : world C) out got :
  bk_inv (w_ctx w) -> inode_read_data img ino start n w = (Ok (out, got), w') -> wf_buf out.
Proof.
  intros Hinv Hr. unfold inode_read_data in Hr. destruct (negb _); [by inv_step Hr|].
  destruct (_ <=? _) in Hr; [injection Hr as <- _ _; apply wf_zeros|].
  inv_step Hr. injection Hr as <- _ _. unfold span_blocks in Hrun.
  destruct (_ <=? _) in Hrun; [injection Hrun as <- _; apply wf_zeros|].
  set (m := Z.min _ _) in *. set (count := _ - _) in Hrun.
  destruct (decide (0 <= count)) as [Hc|Hc].
  2: { assert (Hnil : seqZ (start / bs) count = []) by (apply seqZ_nil; lia).
       rewrite Hnil in Hrun. injection Hrun as <- _. apply wf_zeros. }
  apply (fold_each_inv (fun _ b w1 => quiet w w1 /\ wf_buf b) _ count (start / bs)) in Hrun;
    [by destruct Hrun|done|split; [done|apply wf_zeros]|].
  intros l b w1 b' w2 _ [Hq Hb] Hstep. split; [etrans; [exact Hq|by eapply read_span_quiet]|].
  unfold read_span in Hstep. inv_step Hstep.
  pose proof (resolve_file_quiet img ino l _ _ _ Hrun0) as Hq1.
  destruct (_ =? _) in Hstep; [injection Hstep as <- _; auto with bytes|].
  destruct (_ <? _) in Hstep; [by inv_step Hstep|]. inv_step Hstep. injection Hstep as <- _.
  apply wf_blit; [done|]. eapply read_exact_wf; [done|]. by apply Hq1, Hq.
Qed.
End contents.


Lemma stored_symlink_bytes ino target len i :
  wf_buf target -> 0 <= len <= 60 -> 0 <= i < 60 ->
  inline_bytes (store_inline_symlink ino target len) i = blit zeros 0 target len i.
Proof.
  intros Hwf Hlen Hi. unfold inline_bytes, store_inline_symlink. cbn [i_db i_ib set_blocks].
  rewrite !write_read_be32s by auto with bytes.
  change (48 + 4 * Z.of_nat 3) with 60. change (0 + 4 * Z.of_nat 12) with 48.
  destruct (Z.leb_spec 48 i), (Z.ltb_spec i 60), (Z.leb_spec 0 i), (Z.ltb_spec i 48);
    cbn [andb]; lia || done.
Qed.

(** ** Properties *)
Section fileio_properties.
Context {C : Type} `{HB : Backend C, HS : !BackendSpec C}.
Variable img : image.

(** C25. nextufs_inode_read_data returns the file: on success it delivers the bytes
    from [start] up to the end of the file or of the buffer, whichever comes first,
    each the byte the block map of the inode puts there, and zeros in holes. *)
Theorem inode_read_data_correct ino start n (w w' : world C) out got
    (Hbs : 4 <= block_size (sb img)) (Hinv : bk_inv (w_ctx w))
    (Hs : 0 <= start) (Hn : 0 <= n) (Hz : start + n < 2 ^ 63)
    (Hrun : inode_read_data img ino start n w = (Ok (out, got), w')) :
  got = Z.max 0 (Z.min (i_size ino - start) n) /\
  forall j, 0 <= j < got -> out j = file_byte img (view w) ino (start + j).
Proof. by eapply inode_read_data_ok. Qed.

(** Short symbolic links survive the inode: whatever target of at most sixty
    bytes nextufs__store_inline_symlink puts into the address fields,
    nextufs_inode_readlink with a large enough buffer reads back, without any I/O. *)
Theorem symlink_roundtrip ino target len out_size (w : world C)
    (Hwf : wf_buf target) (Hlen : 0 < len <= 60) (Hout : len < out_size)
    (Hlnk : is_lnk ino = true) (Hsize : i_size ino = len)
    (Hflag : Z.land (i_flags ino) NEXTUFS_IC_FASTLINK <> 0) :
  exists out, inode_readlink img (store_inline_symlink ino target len) out_size w =
                (Ok (out, len), w) /\
    forall i, 0 <= i < len -> out i = target i.
Proof.
  unfold inode_readlink, decode_inline_symlink.
  change (is_lnk (store_inline_symlink ino target len)) with (is_lnk ino).
  change (i_flags (store_inline_symlink ino target len)) with (i_flags ino).
  change (i_size (store_inline_symlink ino target len)) with (i_size ino).
  rewrite Hlnk, Hsize. destruct (Z.eqb_spec (Z.land (i_flags ino) NEXTUFS_IC_FASTLINK) 0); [done|].
  destruct (Z.eqb_spec len 0), (Z.eqb_spec out_size 0), (Z.ltb_spec 60 len),
    (Z.leb_spec out_size len); try lia. cbn [negb orb].
  destruct (Z.eqb_spec len 0); [lia|]. cbn [negb]. eexists. split; [reflexivity|].
  intros i Hi. rewrite blit_in by lia. rewrite Z.sub_0_r, stored_symlink_bytes by (done || lia).
  rewrite blit_in by lia. f_equal. lia.
Qed.
End fileio_properties.

(** Block 0 of the sample inode with a recognizable first byte. *)
Definition marked_world : world file :=
  raw_world (File (upd mini_disk (40 * 1024) 77) (512 * 1024) [] []).
Lemma inode_read_data_correct_witness :
  let run := inode_read_data mini_image sample_inode 0 16 marked_world in
  is_ok (fst run) = true /\
  forall out got, fst run = Ok (out, got) -> got = 16 /\ out 0 = 77.
Proof.
  intros run. split; [vm_compute; reflexivity|]. intros out got Hr.
  destruct (inode_read_data_correct mini_image sample_inode 0 16 marked_world (snd run) out got)
    as [Hg Hb].
  - discriminate.
  - split; [discriminate|]. split; [apply wf_upd, mini_disk_wf|].
    intros i Hi. cbn [w_ctx marked_world raw_world f_data f_size] in *.
    rewrite upd_other by lia. by apply (mini_file_inv []).
  - discriminate.
  - discriminate.
  - reflexivity.
  - rewrite <- Hr. apply surjective_pairing.
  - split; [exact Hg|]. rewrite Hb by (rewrite Hg; split; [discriminate|reflexivity]).
    vm_compute. reflexivity.
Defined.

Definition sample_link : inode :=
  Inode 0xa1ff 1 0 0 5 0 0 0 zero12 zero3 NEXTUFS_IC_FASTLINK 0 0.
Lemma symlink_roundtrip_witness :
  exists out, inode_readlink mini_image (store_inline_symlink sample_link (fun _ => 97) 5) 100
      mini_world = (Ok (out, 5), mini_world) /\
    forall i, 0 <= i < 5 -> out i = 97.
Proof.
  apply (symlink_roundtrip mini_image sample_link (fun _ => 97) 5 100 mini_world).
  - intros i. lia.
  - lia.
  - lia.
  - reflexivity.
  - reflexivity.
  - discriminate.
Defined.

(** ** A damaged address on the write path *)

(** The filesystem fills the first half of a disk; the inode names a fragment of
    the second half. *)
Definition half_image : image :=
  Image true true false false false false SOURCE_RAW (1024 * 1024) 0 (512 * 1024)
    0 0 0 0 [] 0 false mini_sb.
Definition half_world : world file := raw_world (File mini_disk (1024 * 1024) [] []).
Definition stray_inode : inode := set_db sample_inode 0 600.

(** Reading and writing treat a block address beyond the filesystem differently:
    nextufs_inode_read_data refuses it with EIO, nextufs__file_write checks nothing
    and overwrites bytes of the image outside the slice. *)
Example write_escapes_slice :
  let st := IState half_world stray_inode 0 in
  let run := file_write half_image 5 (fun _ => 65) 4 0 st in
  is_ok (image_validate (sb half_image) 0 (slice_size half_image)) = true /\
  fst (inode_read_data half_image stray_inode 0 4 half_world) = Err EIO /\
  fst run = Ok tt /\
  slice_size half_image <= 600 * 1024 /\
  view half_world (600 * 1024) = 0 /\ view (is_world (snd run)) (600 * 1024) = 65.
Proof. vm_compute. split_and!; reflexivity || discriminate. Qed.
