(* ===== verification/Dirent.v ===== *)
(** * Directory entries

    The entry codec of src/src/core/layout.c and src/src/mutate/dir_mutate.c, and
    what insertion and removal do to one block of a directory in memory.  Names
    are the bytes of a C string without its terminator. *)
From S2P Require Import Prelude.
From S2P Require Import Bytes.

Definition DIRBLKSIZ : Z := 1024.

Definition name : Type := list Z.
Definition strlen (s : name) : Z := Z.of_nat (length s).
(** The bytes [off .. off + n) of a buffer as a list, and a list as a buffer. *)
Definition bytes_at (b : buf) (off n : Z) : list Z := map (fun i => b (off + i)) (seqZ 0 n).
(** The C string at the start of some bytes. *)
Fixpoint upto_nul (s : name) : name :=
  match s with
  | c :: s => if c =? 0 then [] else c :: upto_nul s
  | [] => []
  end.
Definition buf_of (l : list Z) : buf := fun i => if i <? 0 then 0 else nth (Z.to_nat i) l 0.

(** [struct nextufs_dirent_view].  An unused record (inode 0) may hold a stale name,
    which is not read. *)
Record dirent := Dirent {
  d_ino : Z;
  d_reclen : Z;
  d_namlen : Z;
  d_name : name;
}.

Definition dirent_size (name_len : Z) : Z :=
  8 + Z.land (name_len + 1 + 3) (w32 (Z.lnot 3)).

Definition slash : Z := 47.
Definition dot : Z := 46.

Definition bad_record (size off reclen : Z) : bool :=
  (reclen <? 8) || negb (Z.land reclen 3 =? 0) || (size - off <? reclen) ||
  (DIRBLKSIZ - off mod DIRBLKSIZ <? reclen).
Definition bad_name (b : buf) (off reclen namlen : Z) : bool :=
  (namlen =? 0) || (255 <? namlen) || (reclen <? dirent_size namlen) ||
  existsb (Z.eqb 0) (bytes_at b (off + 8) namlen) ||
  existsb (Z.eqb slash) (bytes_at b (off + 8) namlen) ||
  negb (b (off + 8 + namlen) =? 0).

Definition read_dirent (b : buf) (size off : Z) : option dirent :=
  if (size <? off) || (size - off <? 8) then None
  else
    let ino := read_be32 b off in
    let reclen := read_be16 b (off + 4) in
    let namlen := read_be16 b (off + 6) in
    if bad_record size off reclen then None
    else if negb (ino =? 0) && bad_name b off reclen namlen then None
    else Some (Dirent ino reclen namlen
                (if ino =? 0 then [] else bytes_at b (off + 8) namlen)).

(** nextufs__write_dirent_raw on [p + off]. *)
Definition write_dirent_raw (p : buf) (off ino reclen : Z) (nm : name) : result buf :=
  let name_len := strlen nm in
  if 255 <? name_len then Err ENAMETOOLONG
  else if (DIRBLKSIZ <? reclen) || negb (Z.land reclen 3 =? 0) ||
          (reclen <? dirent_size name_len) || existsb (Z.eqb slash) nm
  then Err EINVAL
  else
    let p := fill p off 0 reclen in
    let p := write_be32 p off ino in
    let p := write_be16 p (off + 4) reclen in
    let p := write_be16 p (off + 6) name_len in
    Ok (blit p (off + 8) (buf_of nm) name_len).

(** The records of a block in order, and whether the walk reached the end
    ([false]: a bad record follows).  Every record is at least 8 bytes long. *)
Fixpoint scan_from (fuel : nat) (b : buf) (size off : Z) : list (Z * dirent) * bool :=
  if off <? size then
    match fuel with
    | O => ([], false)
    | S fuel =>
        match read_dirent b size off with
        | None => ([], false)
        | Some ent =>
            let (l, ok) := scan_from fuel b size (off + d_reclen ent) in
            ((off, ent) :: l, ok)
        end
    end
  else ([], true).
Definition scan_fuel (size : Z) : nat := S (Z.to_nat (size / 8)).
Definition scan (b : buf) (size : Z) : list (Z * dirent) * bool :=
  scan_from (scan_fuel size) b size 0.

(** ** Insertion into one block *)
Inductive insertion :=
  | Inserted (b : buf)
  | NoRoom
  | BadBlock            (* -EIO *)
  | BadEntry.           (* -EINVAL *)

Definition of_written (r : result buf) : insertion :=
  match r with Ok b => Inserted b | Err _ => BadEntry end.

Fixpoint insert_among (b : buf) (l : list (Z * dirent)) (ok : bool)
    (nm : name) (new_inode need : Z) : insertion :=
  match l with
  | [] => if ok then NoRoom else BadBlock
  | (off, ent) :: l =>
      let used := if d_ino ent =? 0 then 0 else dirent_size (d_namlen ent) in
      if (d_ino ent =? 0) && (need <=? d_reclen ent) then
        of_written (write_dirent_raw b off new_inode (d_reclen ent) nm)
      else
        let slack := d_reclen ent - used in
        if negb (d_ino ent =? 0) && (need <=? slack) then
          of_written (write_dirent_raw (write_be16 b (off + 4) used) (off + used)
                        new_inode slack nm)
        else insert_among b l ok nm new_inode need
  end.
Definition insert_in_block (b : buf) (size : Z) (nm : name) (new_inode : Z) : insertion :=
  let (l, ok) := scan b size in
  insert_among b l ok nm new_inode (dirent_size (strlen nm)).

(** ** Removal from one block of [DIRBLKSIZ] bytes or less *)
Inductive removal :=
  | Removed (b : buf) (ino : Z)
  | NotHere
  | BadRemoval (e : errno).

Definition is_dot (nm : name) : bool := bool_decide (nm = [dot]).
Definition is_dotdot (nm : name) : bool := bool_decide (nm = [dot; dot]).

(** [prev]: the last record in use before the current one. *)
Fixpoint remove_among (b : buf) (base : Z) (prev : option (Z * dirent))
    (l : list (Z * dirent)) (ok : bool) (nm : name) : removal :=
  match l with
  | [] => if ok then NotHere else BadRemoval EIO
  | (off, ent) :: l =>
      if negb (d_ino ent =? 0) && bool_decide (d_name ent = nm) then
        if is_dot (d_name ent) || is_dotdot (d_name ent) then BadRemoval EINVAL
        else
          match prev with
          | Some (prev_off, prev_ent) =>
              Removed (write_be16 b (base + prev_off + 4)
                         (w16 (d_reclen prev_ent + d_reclen ent))) (d_ino ent)
          | None => Removed (write_be32 b (base + off) 0) (d_ino ent)
          end
      else
        remove_among b base (if d_ino ent =? 0 then prev else Some (off, ent)) l ok nm
  end.
Definition remove_in_dirblk (b : buf) (base size : Z) (nm : name) : removal :=
  let (l, ok) := scan (slice b base) size in
  remove_among b base None l ok nm.
(** The directory blocks of a chunk in order. *)
Fixpoint remove_in_dirblks (b : buf) (chunk_size : Z) (bases : list Z) (nm : name) : removal :=
  match bases with
  | [] => NotHere
  | base :: bases =>
      match remove_in_dirblk b base (Z.min (chunk_size - base) DIRBLKSIZ) nm with
      | NotHere => remove_in_dirblks b chunk_size bases nm
      | r => r
      end
  end.
Definition dirblk_bases (chunk_size : Z) : list Z :=
  map (fun i => i * DIRBLKSIZ) (seqZ 0 ((chunk_size + DIRBLKSIZ - 1) / DIRBLKSIZ)).
Definition remove_in_block (b : buf) (chunk_size : Z) (nm : name) : removal :=
  remove_in_dirblks b chunk_size (dirblk_bases chunk_size) nm.

(** ** Arithmetic of record lengths *)
Lemma land_not3 z : 0 <= z < 2 ^ 32 -> Z.land z (w32 (Z.lnot 3)) = z - z mod 4.
Proof.
  intros Hz. change (w32 (Z.lnot 3)) with (Z.shiftl (Z.ones 30) 2).
  replace (z - z mod 4) with (Z.shiftl (Z.shiftr z 2) 2).
  - apply Z.bits_inj'. intros n Hn. rewrite Z.land_spec.
    destruct (decide (n < 2)).
    + rewrite !Z.shiftl_spec_low by lia. by rewrite andb_false_r.
    + rewrite !Z.shiftl_spec by lia. rewrite Z.shiftr_spec by lia.
      replace (n - 2 + 2) with n by lia.
      destruct (decide (n < 32)).
      * rewrite Z.ones_spec_low by lia. apply andb_true_r.
      * rewrite Z.ones_spec_high by lia. rewrite andb_false_r.
        rewrite <- (Z.mod_small z (2 ^ 32)) by lia. by rewrite Z.mod_pow2_bits_high by lia.
  - rewrite Z.shiftl_mul_pow2, Z.shiftr_div_pow2 by lia. change (2 ^ 2) with 4.
    pose proof (Z.div_mod z 4 ltac:(lia)). lia.
Qed.
Lemma land_3 z : Z.land z 3 = z mod 4.
Proof. change 3 with (Z.ones 2). by rewrite Z.land_ones by lia. Qed.
Lemma dirent_size_bounds n : 0 <= n < 2 ^ 31 ->
  dirent_size n mod 4 = 0 /\ n + 9 <= dirent_size n <= n + 12.
Proof.
  intros Hn. unfold dirent_size. rewrite land_not3 by lia.
  Z.to_euclidean_division_equations. lia.
Qed.

Lemma bytes_at_length b off n : length (bytes_at b off n) = Z.to_nat n.
Proof. unfold bytes_at. by rewrite length_map, length_seqZ. Qed.
Lemma bytes_at_eq b b' off n :
  (forall i, off <= i < off + n -> b i = b' i) -> bytes_at b off n = bytes_at b' off n.
Proof.
  intros H. unfold bytes_at. apply map_ext_in. intros i Hi%list_elem_of_In%elem_of_seqZ.
  apply H. lia.
Qed.
Lemma bytes_at_buf_of b off l : (forall i, 0 <= i < strlen l -> b (off + i) = buf_of l i) ->
  bytes_at b off (strlen l) = l.
Proof.
  intros H. unfold bytes_at. apply list_eq. intros k. destruct (decide (k < length l)%nat).
  - rewrite list_lookup_fmap, lookup_seqZ_lt by (unfold strlen; lia). cbn.
    unfold strlen in H. rewrite H by lia. unfold buf_of.
    destruct (Z.ltb_spec (0 + Z.of_nat k) 0); [lia|]. symmetry.
    replace (Z.to_nat (0 + Z.of_nat k)) with k by lia. rewrite (nth_lookup l).
    destruct (lookup_lt_is_Some_2 l k) as [x Hx]; [done|]. by rewrite Hx.
  - rewrite (lookup_ge_None_2 l k) by lia. apply lookup_ge_None_2.
    rewrite length_map, length_seqZ. unfold strlen. lia.
Qed.

(** ** Reading a record looks at its own bytes only *)
Lemma read_dirent_eq b b' size off n :
  wf_buf b -> (forall i, off <= i < off + n -> b' i = b i) -> 8 <= n -> n <= size - off ->
  read_be16 b (off + 4) <= n \/ n = size - off ->
  read_dirent b' size off = read_dirent b size off.
Proof.
  intros Hwf Heq Hn Hsz Hor. unfold read_dirent.
  destruct (_ || _) eqn:E0; [done|].
  rewrite (read_be32_eq_on b' b) by (intros i Hi; apply Heq; lia).
  rewrite (read_be16_eq_on b' b (off + 4)) by (intros i Hi; apply Heq; lia).
  rewrite (read_be16_eq_on b' b (off + 6)) by (intros i Hi; apply Heq; lia).
  set (reclen := read_be16 b (off + 4)) in *. set (namlen := read_be16 b (off + 6)).
  pose proof (read_be16_range b Hwf (off + 6)) as Hnl. fold namlen in Hnl.
  destruct (bad_record size off reclen) eqn:Eb; [done|].
  assert (Hrec : reclen <= n).
  { destruct Hor as [| ->]; [done|]. unfold bad_record in Eb. rewrite !orb_false_iff in Eb.
    destruct Eb as [[_ Eb] _]. apply Z.ltb_ge in Eb. done. }
  unfold bad_name. pose proof (dirent_size_bounds namlen ltac:(lia)) as [_ Hds].
  destruct (Z.ltb_spec reclen (dirent_size namlen)).
  - rewrite !orb_true_r. cbn [orb]. destruct (read_be32 b off =? 0); done.
  - rewrite (bytes_at_eq b' b) by (intros i Hi; apply Heq; lia).
    by rewrite (Heq (off + 8 + namlen)) by lia.
Qed.

Lemma read_dirent_some b size off ent :
  wf_buf b -> 0 <= off -> read_dirent b size off = Some ent ->
  d_ino ent = read_be32 b off /\ d_reclen ent = read_be16 b (off + 4) /\
  d_namlen ent = read_be16 b (off + 6) /\
  8 <= d_reclen ent /\ off + d_reclen ent <= size /\ d_reclen ent mod 4 = 0 /\
  off mod DIRBLKSIZ + d_reclen ent <= DIRBLKSIZ /\
  (d_ino ent <> 0 -> 0 < d_namlen ent <= 255 /\ dirent_size (d_namlen ent) <= d_reclen ent /\
     bad_name b off (d_reclen ent) (d_namlen ent) = false /\
     d_name ent = bytes_at b (off + 8) (d_namlen ent)) /\
  (d_ino ent = 0 -> d_name ent = []).
Proof.
  intros Hwf Ho. unfold read_dirent. destruct (_ || _) eqn:E0; [done|].
  apply orb_false_iff in E0 as [E1%Z.ltb_ge E2%Z.ltb_ge].
  destruct (bad_record _ _ _) eqn:Eb; [done|].
  destruct (negb _ && _) eqn:En; [done|]. intros [= <-].
  cbn [d_ino d_reclen d_namlen d_name]. unfold bad_record in Eb.
  rewrite !orb_false_iff, !Z.ltb_ge, negb_false_iff, Z.eqb_eq, land_3 in Eb.
  destruct Eb as [[[H1 H2] H3] H4]. split_and!; try done; try lia.
  - intros Hi. apply andb_false_iff in En as [En|En].
    { apply negb_false_iff, Z.eqb_eq in En. lia. }
    pose proof En as En'. unfold bad_name in En'. rewrite !orb_false_iff in En'.
    destruct En' as [[[[[Ha Hb] Hc] _] _] _].
    apply Z.eqb_neq in Ha. apply Z.ltb_ge in Hb, Hc.
    pose proof (read_be16_range b Hwf (off + 6)).
    destruct (Z.eqb_spec (read_be32 b off) 0); [done|]. split_and!; try done; lia.
  - intros ->. done.
Qed.

(** ** Walks over a block *)

(** [l] are the records from [off] to [stop]. *)
Fixpoint seg (b : buf) (size off : Z) (l : list (Z * dirent)) (stop : Z) : Prop :=
  match l with
  | [] => off = stop
  | (o, ent) :: l =>
      o = off /\ off < size /\ read_dirent b size off = Some ent /\
      seg b size (off + d_reclen ent) l stop
  end.
(** The walk ends at [off], at the end of the block or before a bad record. *)
Definition stops (b : buf) (size off : Z) (ok : bool) : Prop :=
  if ok then size <= off else off < size /\ read_dirent b size off = None.
Definition walks (b : buf) (size off : Z) (l : list (Z * dirent)) (ok : bool) : Prop :=
  exists stop, seg b size off l stop /\ stops b size stop ok.

Section walks.
Variables (b : buf) (size : Z).
Hypothesis Hwf : wf_buf b.

Lemma scan_from_walks fuel : forall off l ok,
  0 <= off -> (Z.to_nat ((size - off) / 8) < fuel)%nat ->
  scan_from fuel b size off = (l, ok) <-> walks b size off l ok.
Proof.
  induction fuel as [|fuel IH]; intros off l ok Ho Hf; [lia|]. cbn [scan_from].
  destruct (Z.ltb_spec off size) as [Hlt|Hge].
  - destruct (read_dirent b size off) as [ent|] eqn:E.
    + pose proof (read_dirent_some _ _ _ _ Hwf Ho E) as (_ & _ & _ & H8 & Hle & _).
      assert (Hfuel : (Z.to_nat ((size - (off + d_reclen ent)) / 8) < fuel)%nat).
      { assert ((size - (off + d_reclen ent)) / 8 <= (size - off) / 8 - 1).
        { replace ((size - off) / 8 - 1) with ((size - off - 8) / 8)
            by (replace (size - off - 8) with (size - off + (-1) * 8) by lia;
                rewrite Z.div_add; lia).
          apply Z.div_le_mono; lia. }
        pose proof (Z.div_pos (size - (off + d_reclen ent)) 8 ltac:(lia) ltac:(lia)). lia. }
      destruct (scan_from fuel b size (off + d_reclen ent)) as [l1 ok1] eqn:E1.
      apply IH in E1; [|lia|done]. split.
      * intros [= <- <-]. destruct E1 as (stop & Hs & Hst). exists stop.
        split; [split_and!; done|done].
      * intros (stop & Hs & Hst). destruct l as [|[o e] l]; cbn [seg] in Hs.
        { subst stop. unfold stops in Hst. destruct ok; [lia|]. destruct Hst as [_ Hst]. congruence. }
        destruct Hs as (-> & _ & Hr & Hs). rewrite E in Hr. injection Hr as <-.
        assert (Hw : walks b size (off + d_reclen ent) l ok) by by exists stop.
        apply IH in E1; [|lia|done]. apply IH in Hw; [|lia|done]. congruence.
    + split.
      * intros [= <- <-]. exists off. by split.
      * intros (stop & Hs & Hst). destruct l as [|[o e] l]; cbn [seg] in Hs.
        { subst stop. unfold stops in Hst. destruct ok; [lia|done]. }
        destruct Hs as (-> & _ & Hr & _). congruence.
  - split.
    + intros [= <- <-]. exists off. by split.
    + intros (stop & Hs & Hst). destruct l as [|[o e] l]; cbn [seg] in Hs; [|lia].
      subst stop. unfold stops in Hst. destruct ok; [done|lia].
Qed.

Lemma scan_walks l ok : 0 <= size -> scan b size = (l, ok) <-> walks b size 0 l ok.
Proof.
  intros Hs. apply scan_from_walks; [lia|]. unfold scan_fuel.
  rewrite Z.sub_0_r. lia.
Qed.

Lemma seg_app l1 : forall l2 off stop,
  seg b size off (l1 ++ l2) stop <-> exists m, seg b size off l1 m /\ seg b size m l2 stop.
Proof.
  induction l1 as [|[o e] l1 IH]; intros l2 off stop; cbn [seg app].
  - split; [intros H; by exists off|]. by intros (m & <- & H).
  - rewrite IH. naive_solver.
Qed.
Lemma seg_bounds l : forall off stop, 0 <= off -> seg b size off l stop ->
  off <= stop /\ (l = [] \/ stop <= size) /\
  Forall (fun x => off <= fst x < stop /\ fst x + d_reclen (snd x) <= stop) l.
Proof.
  induction l as [|[o e] l IH]; intros off stop Ho Hs; cbn [seg] in Hs.
  - subst. split_and!; [lia|by left|constructor].
  - destruct Hs as (-> & Hlt & Hr & Hs).
    pose proof (read_dirent_some _ _ _ _ Hwf Ho Hr) as (_ & _ & _ & H8 & Hle & _).
    assert (Hnil : l = [] -> stop = off + d_reclen e) by (intros ->; by cbn in Hs).
    apply IH in Hs as (H1 & H2 & H3); [|lia]. split_and!; [lia| |].
    + right. destruct H2 as [->|?]; [rewrite Hnil by done; lia|done].
    + constructor; [cbn; lia|]. eapply Forall_impl; [exact H3|]. intros [? ?]. cbn. lia.
Qed.
End walks.

Lemma seg_frame b b' size l : forall off stop,
  wf_buf b -> 0 <= off -> (forall i, off <= i < stop -> b' i = b i) ->
  seg b size off l stop -> seg b' size off l stop.
Proof.
  induction l as [|[o e] l IH]; intros off stop Hwf Ho Heq Hs; cbn [seg] in *; [done|].
  destruct Hs as (-> & Hlt & Hr & Hs).
  pose proof (read_dirent_some _ _ _ _ Hwf Ho Hr) as (_ & Hrl & _ & H8 & Hle & _).
  pose proof (seg_bounds b size Hwf l (off + d_reclen e) stop ltac:(lia) Hs) as (Hst & _).
  split_and!; [done|done| |apply IH; [done|lia|intros i Hi; apply Heq; lia|done]].
  rewrite <- Hr. apply (read_dirent_eq b b' size off (d_reclen e)); try done; [|lia|lia].
  intros i Hi. apply Heq. lia.
Qed.
Lemma stops_frame b b' size off ok :
  wf_buf b -> (forall i, off <= i < size -> b' i = b i) ->
  stops b size off ok -> stops b' size off ok.
Proof.
  intros Hwf Heq. unfold stops. destruct ok; [done|]. intros [Hlt Hr]. split; [done|].
  destruct (decide (8 <= size - off)).
  - rewrite <- Hr. apply (read_dirent_eq b b' size off (size - off)); try done; [|by right].
    intros i Hi. apply Heq. lia.
  - unfold read_dirent. destruct (Z.ltb_spec size off), (Z.ltb_spec (size - off) 8); lia || done.
Qed.

(** ** Writing a record *)
Definition valid_name (nm : name) : Prop :=
  nm <> [] /\ Forall (fun c => 0 < c < 256) nm.

Lemma wf_buf_of l : Forall (fun c => 0 <= c < 256) l -> wf_buf (buf_of l).
Proof.
  intros H i. unfold buf_of. destruct (i <? 0); [lia|].
  destruct (nth_in_or_default (Z.to_nat i) l 0) as [Hin| ->]; [|lia].
  rewrite Forall_forall in H. apply H. by apply list_elem_of_In.
Qed.

Lemma write_dirent_raw_ok p off ino reclen nm p' :
  0 <= reclen < 2 ^ 16 -> write_dirent_raw p off ino reclen nm = Ok p' ->
  strlen nm <= 255 /\ reclen <= DIRBLKSIZ /\ reclen mod 4 = 0 /\
  dirent_size (strlen nm) <= reclen /\ existsb (Z.eqb slash) nm = false /\
  (forall i, ~ (off <= i < off + reclen) -> p' i = p i) /\
  read_be32 p' off = w32 ino /\ read_be16 p' (off + 4) = reclen /\
  read_be16 p' (off + 6) = strlen nm /\
  (forall i, 0 <= i < strlen nm -> p' (off + 8 + i) = buf_of nm i) /\
  (forall i, off + 8 + strlen nm <= i < off + reclen -> p' i = 0).
Proof.
  intros Hrl Hr. unfold write_dirent_raw in Hr.
  destruct (Z.ltb_spec 255 (strlen nm)); [done|]. destruct (_ || _) eqn:E; [done|].
  rewrite !orb_false_iff, !Z.ltb_ge, negb_false_iff, Z.eqb_eq, land_3 in E.
  destruct E as [[[H1 H2] H3] H4]. injection Hr as <-.
  assert (Hlen : 0 <= strlen nm) by (unfold strlen; lia).
  pose proof (dirent_size_bounds (strlen nm) ltac:(lia)) as [_ Hds].
  set (p1 := fill p off 0 reclen). set (p2 := write_be32 p1 off ino).
  set (p3 := write_be16 p2 (off + 4) reclen). set (p4 := write_be16 p3 (off + 6) (strlen nm)).
  set (p5 := blit p4 (off + 8) (buf_of nm) (strlen nm)).
  assert (Hhd : forall i, off <= i < off + 8 -> p5 i = p4 i)
    by (intros i Hi; apply blit_out; lia).
  assert (Hout : forall i, ~ (off <= i < off + 8) -> p4 i = p1 i).
  { intros i Hi. unfold p4, p3, p2. rewrite !write_be16_out, write_be32_out by lia. done. }
  split_and!; try done.
  - intros i Hi. unfold p5. rewrite blit_out, Hout by lia. apply blit_out. lia.
  - rewrite (read_be32_eq_on _ p2); [apply read_write_be32|]. intros i Hi.
    rewrite Hhd by lia. unfold p4, p3. by rewrite !write_be16_out by lia.
  - rewrite (read_be16_eq_on _ p3).
    + unfold p3. rewrite read_write_be16. apply wrap_small. lia.
    + intros i Hi. rewrite Hhd by lia. unfold p4. by rewrite write_be16_out by lia.
  - rewrite (read_be16_eq_on _ p4).
    + unfold p4. rewrite read_write_be16. apply wrap_small. lia.
    + intros i Hi. rewrite Hhd by lia. done.
  - intros i Hi. unfold p5. rewrite blit_in by lia. f_equal. lia.
  - intros i Hi. unfold p5. rewrite blit_out, Hout by lia. unfold p1, fill.
    by rewrite blit_in by lia.
Qed.

(** Reading back what was written. *)
Lemma read_written p off ino reclen nm p' size :
  0 <= reclen < 2 ^ 16 -> write_dirent_raw p off ino reclen nm = Ok p' ->
  valid_name nm -> 0 < ino < 2 ^ 32 -> 0 <= off -> off + reclen <= size ->
  off mod DIRBLKSIZ + reclen <= DIRBLKSIZ ->
  read_dirent p' size off = Some (Dirent ino reclen (strlen nm) nm).
Proof.
  intros Hrl Hr [Hne Hall] Hino Hoff Hsz Hblk.
  apply write_dirent_raw_ok in Hr as (Hlen & Hmax & Hm4 & Hds & Hsl & _ & Hri & Hrr & Hrn & Hnm & Hz);
    [|done].
  assert (Hpos : 0 < strlen nm) by (unfold strlen; destruct nm; [done|cbn; lia]).
  pose proof (dirent_size_bounds (strlen nm) ltac:(lia)) as [_ Hdb].
  assert (Hname : bytes_at p' (off + 8) (strlen nm) = nm) by (by apply bytes_at_buf_of).
  unfold read_dirent. rewrite Hri, Hrr, Hrn, w32_small, Hname by lia.
  destruct (Z.ltb_spec size off), (Z.ltb_spec (size - off) 8); try lia. cbn [orb].
  assert (Hbr : bad_record size off reclen = false).
  { unfold bad_record. rewrite !orb_false_iff, !Z.ltb_ge, negb_false_iff, Z.eqb_eq, land_3. lia. }
  rewrite Hbr. destruct (Z.eqb_spec ino 0); [lia|]. cbn [negb andb].
  assert (Hbn : bad_name p' off reclen (strlen nm) = false).
  { unfold bad_name. rewrite Hname, !orb_false_iff, Z.eqb_neq, !Z.ltb_ge, negb_false_iff, Z.eqb_eq.
    split_and!; try done; try lia.
    - apply not_true_iff_false. rewrite existsb_exists. intros (c & Hc & <-%Z.eqb_eq).
      rewrite Forall_forall in Hall. apply list_elem_of_In, Hall in Hc. lia.
    - apply Hz. lia. }
  by rewrite Hbn.
Qed.

(** ** The entries of a block *)
Definition live (l : list (Z * dirent)) : list (Z * name) :=
  flat_map (fun x => if d_ino (snd x) =? 0 then [] else [(d_ino (snd x), d_name (snd x))]) l.
Lemma live_app l1 l2 : live (l1 ++ l2) = live l1 ++ live l2.
Proof. apply flat_map_app. Qed.

(** ** Insertion *)
Definition room (e : dirent) : Z :=
  if d_ino e =? 0 then d_reclen e else d_reclen e - dirent_size (d_namlen e).

(** Where an insertion put its record. *)
Definition inserted_at (b : buf) (o : Z) (e : dirent) (nm : name) (ino : Z) (b' : buf) : Prop :=
  (d_ino e = 0 /\ write_dirent_raw b o ino (d_reclen e) nm = Ok b') \/
  (d_ino e <> 0 /\
   let used := dirent_size (d_namlen e) in
   write_dirent_raw (write_be16 b (o + 4) used) (o + used) ino (d_reclen e - used) nm = Ok b').

Lemma insert_among_inv b l ok nm ino need :
  match insert_among b l ok nm ino need with
  | Inserted b' => exists l1 o e l2, l = l1 ++ (o, e) :: l2 /\ need <= room e /\
                     inserted_at b o e nm ino b'
  | NoRoom => ok = true /\ Forall (fun x => room (snd x) < need) l
  | BadBlock => ok = false
  | BadEntry => True
  end.
Proof.
  induction l as [|[o e] l IH]; cbn [insert_among].
  { destruct ok; [split; [done|constructor]|done]. }
  unfold room in *. destruct (Z.eqb_spec (d_ino e) 0) as [He|He]; cbn [andb negb].
  - destruct (Z.leb_spec need (d_reclen e)).
    + destruct (write_dirent_raw _ _ _ _ _) as [b'|] eqn:E; cbn [of_written]; [|done].
      exists [], o, e, l. split; [done|]. rewrite He. split; [done|]. by left.
    + destruct (insert_among b l ok nm ino need); try done.
      * destruct IH as (l1 & o' & e' & l2 & -> & ?). by exists ((o, e) :: l1), o', e', l2.
      * destruct IH as [? IH]. split; [done|]. constructor; [|done]. cbn. by rewrite He.
  - destruct (Z.leb_spec need (d_reclen e - dirent_size (d_namlen e))).
    + destruct (write_dirent_raw _ _ _ _ _) as [b'|] eqn:E; cbn [of_written]; [|done].
      exists [], o, e, l. split; [done|]. destruct (Z.eqb_spec (d_ino e) 0); [done|].
      split; [done|]. by right.
    + destruct (insert_among b l ok nm ino need); try done.
      * destruct IH as (l1 & o' & e' & l2 & -> & ?). by exists ((o, e) :: l1), o', e', l2.
      * destruct IH as [? IH]. split; [done|]. constructor; [|done]. cbn.
        by destruct (Z.eqb_spec (d_ino e) 0).
Qed.

Lemma mod_add_small o n : 0 <= n -> o mod DIRBLKSIZ + n < DIRBLKSIZ ->
  (o + n) mod DIRBLKSIZ = o mod DIRBLKSIZ + n.
Proof.
  unfold DIRBLKSIZ. intros Hn Hlt. Z.to_euclidean_division_equations. lia.
Qed.

(** The record that took the new entry becomes one or two records. *)
Lemma inserted_seg b size o e nm ino b' :
  wf_buf b -> 0 <= o -> read_dirent b size o = Some e -> inserted_at b o e nm ino b' ->
  valid_name nm -> 0 < ino < 2 ^ 32 ->
  (forall i, ~ (o <= i < o + d_reclen e) -> b' i = b i) /\
  exists new, seg b' size o new (o + d_reclen e) /\
    live new = live [(o, e)] ++ [(ino, nm)].
Proof.
  intros Hwf Ho Hr Hins Hnm Hino.
  pose proof (read_dirent_some _ _ _ _ Hwf Ho Hr)
    as (Hi & Hrl & Hnl & H8 & Hsz & Hm4 & Hblk & Hused & _).
  pose proof (read_be16_range b Hwf (o + 4)) as Hrr. rewrite <- Hrl in Hrr.
  destruct Hins as [[He Hw]|[He Hw]]; cbv zeta in *.
  - pose proof (read_written _ _ _ _ _ _ size Hrr Hw Hnm Hino Ho Hsz Hblk) as Hrd.
    apply write_dirent_raw_ok in Hw as (_ & _ & _ & _ & _ & Hout & _); [|done].
    split; [done|]. exists [(o, Dirent ino (d_reclen e) (strlen nm) nm)].
    split; [split_and!; try done; lia|]. cbn. rewrite He.
    destruct (Z.eqb_spec ino 0); [lia|done].
  - destruct (Hused He) as (Hlen & Hds & Hbn & Hname). set (used := dirent_size (d_namlen e)) in *.
    pose proof (dirent_size_bounds (d_namlen e) ltac:(lia)) as [Hu4 Hub]. fold used in Hu4, Hub.
    set (b1 := write_be16 b (o + 4) used) in *.
    assert (Hslack : 8 <= d_reclen e - used < 2 ^ 16).
    { apply write_dirent_raw_ok in Hw as (Hl & _ & _ & Hd & _); [|lia].
      assert (0 <= strlen nm) by (unfold strlen; lia).
      pose proof (dirent_size_bounds (strlen nm) ltac:(lia)). lia. }
    assert (Hblk2 : (o + used) mod DIRBLKSIZ + (d_reclen e - used) <= DIRBLKSIZ)
      by (rewrite mod_add_small; lia).
    assert (Hrd2 : read_dirent b' size (o + used) =
      Some (Dirent ino (d_reclen e - used) (strlen nm) nm))
      by (eapply read_written; [|exact Hw|done|done|..]; lia).
    apply write_dirent_raw_ok in Hw as (_ & _ & _ & _ & _ & Hout & _); [|lia].
    assert (Hb1 : forall i, ~ (o + 4 <= i < o + 6) -> b1 i = b i)
      by (intros i Hii; apply write_be16_out; lia).
    split; [intros i Hii; rewrite Hout, Hb1 by lia; done|].
    exists [(o, Dirent (d_ino e) used (d_namlen e) (d_name e));
            (o + used, Dirent ino (d_reclen e - used) (strlen nm) nm)].
    split.
    + cbn [seg d_reclen]. split_and!; try done; try lia.
      assert (Hsame : forall i, o <= i < o + used -> ~ (o + 4 <= i < o + 6) -> b' i = b i)
        by (intros i H1 H2; rewrite Hout, Hb1 by lia; done).
      unfold read_dirent. destruct (Z.ltb_spec size o), (Z.ltb_spec (size - o) 8); try lia.
      cbn [orb]. rewrite (read_be32_eq_on b' b) by (intros i Hii; apply Hsame; lia).
      rewrite (read_be16_eq_on b' b (o + 6)) by (intros i Hii; apply Hsame; lia).
      rewrite (read_be16_eq_on b' b1 (o + 4)) by (intros i Hii; apply Hout; lia).
      unfold b1 at 1 2 3. rewrite read_write_be16. unfold w16. rewrite wrap_small by lia.
      rewrite <- Hi, <- Hnl.
      assert (Hbr : bad_record size o used = false).
      { unfold bad_record. rewrite !orb_false_iff, !Z.ltb_ge, negb_false_iff, Z.eqb_eq, land_3. lia. }
      rewrite Hbr. destruct (Z.eqb_spec (d_ino e) 0); [done|]. cbn [negb andb].
      unfold bad_name in Hbn |- *. rewrite !orb_false_iff in Hbn.
      destruct Hbn as [[[[[Ha Hb] _] Hc] Hd] Hf].
      rewrite (bytes_at_eq b' b) by (intros i Hii; apply Hsame; lia).
      rewrite Ha, Hb, Hc, Hd, (Hsame (o + 8 + d_namlen e)), Hf by lia.
      destruct (Z.ltb_spec used (dirent_size (d_namlen e))); [unfold used in *; lia|].
      cbn [orb]. by rewrite Hname.
    + cbn. destruct (Z.eqb_spec (d_ino e) 0), (Z.eqb_spec ino 0); try done; lia.
Qed.

Lemma insert_in_block_ok b size nm ino b' l ok :
  wf_buf b -> 0 <= size -> valid_name nm -> 0 < ino < 2 ^ 32 -> wf_buf b' ->
  scan b size = (l, ok) -> insert_in_block b size nm ino = Inserted b' ->
  (forall i, ~ (0 <= i < size) -> b' i = b i) /\
  exists l' l1 l2, scan b' size = (l', ok) /\ live l = l1 ++ l2 /\
    live l' = l1 ++ (ino, nm) :: l2.
Proof.
  intros Hwf Hs Hnm Hino Hwf' Hscan Hins. unfold insert_in_block in Hins. rewrite Hscan in Hins.
  pose proof (insert_among_inv b l ok nm ino (dirent_size (strlen nm))) as Hinv.
  rewrite Hins in Hinv. destruct Hinv as (la & o & e & lb & -> & _ & Hat).
  apply (scan_walks b size Hwf) in Hscan as (stop & Hseg & Hstop); [|done].
  apply seg_app in Hseg as (m & Ha & Hb). cbn [seg] in Hb. destruct Hb as (-> & Hlt & Hr & Hb).
  pose proof (seg_bounds b size Hwf la 0 m ltac:(lia) Ha) as (Hm & _).
  pose proof (read_dirent_some _ _ _ _ Hwf Hm Hr) as (_ & _ & _ & H8 & Hle & _).
  pose proof (seg_bounds b size Hwf lb (m + d_reclen e) stop ltac:(lia) Hb) as (Hst & _).
  destruct (inserted_seg b size m e nm ino b' Hwf Hm Hr Hat Hnm Hino) as (Hout & new & Hnew & Hlive).
  split; [intros i Hi; apply Hout; lia|].
  exists (la ++ new ++ lb), (live la ++ live [(m, e)]), (live lb). split_and!.
  - apply (scan_walks b' size Hwf'); [done|]. exists stop. split.
    + apply seg_app. exists m. split.
      * apply (seg_frame b); [done|lia|intros i Hi; apply Hout; lia|done].
      * apply seg_app. exists (m + d_reclen e). split; [done|].
        apply (seg_frame b); [done|lia|intros i Hi; apply Hout; lia|done].
    + apply (stops_frame b); [done|intros i Hi; apply Hout; lia|done].
  - rewrite live_app. change ((m, e) :: lb) with ([(m, e)] ++ lb). rewrite live_app.
    by rewrite app_assoc.
  - rewrite !live_app, Hlive. rewrite <- !app_assoc. done.
Qed.

Lemma write_dirent_wf p off ino reclen nm p' :
  wf_buf p -> valid_name nm -> write_dirent_raw p off ino reclen nm = Ok p' -> wf_buf p'.
Proof.
  intros Hwf [_ Hnm]. unfold write_dirent_raw. destruct (_ <? _); [done|].
  destruct (_ || _); [done|]. intros [= <-].
  assert (wf_buf (buf_of nm)).
  { apply wf_buf_of. eapply Forall_impl; [exact Hnm|]. cbn. lia. }
  auto 10 with bytes.
Qed.
Lemma insert_in_block_wf b size nm ino b' :
  wf_buf b -> valid_name nm -> insert_in_block b size nm ino = Inserted b' -> wf_buf b'.
Proof.
  intros Hwf Hnm Hins. unfold insert_in_block in Hins. destruct (scan b size) as [l ok].
  pose proof (insert_among_inv b l ok nm ino (dirent_size (strlen nm))) as Hinv.
  rewrite Hins in Hinv. destruct Hinv as (la & o & e & lb & _ & _ & [[_ Hw]|[_ Hw]]);
    eapply write_dirent_wf in Hw; auto with bytes.
Qed.

(** ** Removal *)
Definition matches (nm : name) (e : dirent) : Prop := d_ino e <> 0 /\ d_name e = nm.
#[export] Instance matches_dec nm e : Decision (matches nm e).
Proof. unfold matches. apply _. Defined.

(** The last record in use. *)
Fixpoint last_live (prev : option (Z * dirent)) (l : list (Z * dirent)) : option (Z * dirent) :=
  match l with
  | [] => prev
  | (o, e) :: l => last_live (if d_ino e =? 0 then prev else Some (o, e)) l
  end.

Lemma remove_among_inv b base nm ok l : forall prev,
  match remove_among b base prev l ok nm with
  | Removed b' ino => exists l1 o e l2,
      l = l1 ++ (o, e) :: l2 /\ Forall (fun x => ~ matches nm (snd x)) l1 /\ matches nm e /\
      ino = d_ino e /\
      b' = match last_live prev l1 with
           | Some (po, pe) => write_be16 b (base + po + 4) (w16 (d_reclen pe + d_reclen e))
           | None => write_be32 b (base + o) 0
           end
  | NotHere => ok = true /\ Forall (fun x => ~ matches nm (snd x)) l
  | BadRemoval _ => True
  end.
Proof.
  induction l as [|[o e] l IH]; intros prev; cbn [remove_among].
  { destruct ok; [by split|done]. }
  destruct (negb (d_ino e =? 0) && bool_decide (d_name e = nm)) eqn:E.
  - apply andb_true_iff in E as [E1 E2%bool_decide_eq_true].
    apply negb_true_iff, Z.eqb_neq in E1. destruct (_ || _); [done|].
    destruct prev as [[po pe]|]; exists [], o, e, l; by split_and!.
  - assert (Hno : ~ matches nm e).
    { intros [H1 H2]. apply Z.eqb_neq in H1. rewrite H1, H2 in E.
      rewrite bool_decide_eq_true_2 in E; done. }
    specialize (IH (if d_ino e =? 0 then prev else Some (o, e))).
    destruct (remove_among _ _ _ _ _ _); [| |done].
    + destruct IH as (l1 & o' & e' & l2 & -> & H1 & H2 & H3 & H4).
      exists ((o, e) :: l1), o', e', l2. split_and!; try done. by constructor.
    + destruct IH as [H1 H2]. split; [done|]. by constructor.
Qed.

Lemma last_live_free l prev :
  Forall (fun x => d_ino (snd x) = 0) l -> last_live prev l = prev.
Proof.
  intros H. revert prev. induction H as [|[o e] l He _ IH]; intros prev; cbn; [done|].
  cbn in He. by rewrite He.
Qed.
Lemma last_live_snoc l prev o e :
  d_ino e <> 0 -> last_live prev (l ++ [(o, e)]) = Some (o, e).
Proof.
  intros He. revert prev. induction l as [|[o' e'] l IH]; intros prev; cbn; [|apply IH].
  by destruct (Z.eqb_spec (d_ino e) 0).
Qed.

(** Clearing the inode number frees a record. *)
Lemma cleared_seg b size o e :
  wf_buf b -> 0 <= o -> read_dirent b size o = Some e ->
  let b' := write_be32 b o 0 in
  exists e', read_dirent b' size o = Some e' /\ d_ino e' = 0 /\ d_reclen e' = d_reclen e.
Proof.
  intros Hwf Ho Hr b'. unfold read_dirent in Hr |- *. destruct (_ || _); [done|].
  unfold b'. rewrite read_write_be32. change (w32 0) with 0.
  assert (Hsame : forall k, 4 <= k -> read_be16 (write_be32 b o 0) (o + k) = read_be16 b (o + k)).
  { intros k Hk. apply read_be16_eq_on. intros i Hi. apply write_be32_out. lia. }
  rewrite !Hsame by lia. destruct (bad_record _ _ _); [done|]. cbn [negb andb].
  destruct (_ && _); [done|]. injection Hr as <-. eexists. by split_and!.
Qed.

(** A record takes over the one behind it. *)
Lemma merged_seg b size o e n :
  wf_buf b -> 0 <= o -> read_dirent b size o = Some e -> d_ino e <> 0 ->
  d_reclen e <= n -> n mod 4 = 0 -> o + n <= size -> size <= DIRBLKSIZ ->
  let b' := write_be16 b (o + 4) (w16 n) in
  read_dirent b' size o = Some (Dirent (d_ino e) n (d_namlen e) (d_name e)).
Proof.
  intros Hwf Ho Hr He Hn Hm4 Hsz Hmax b'.
  pose proof (read_dirent_some _ _ _ _ Hwf Ho Hr)
    as (Hi & Hrl & Hnl & H8 & Hle & _ & Hblk & Hused & _).
  destruct (Hused He) as (Hlen & Hds & Hbn & Hname). unfold DIRBLKSIZ in *.
  pose proof (dirent_size_bounds (d_namlen e) ltac:(lia)) as [_ Hub].
  assert (Hsame : forall i, ~ (o + 4 <= i < o + 6) -> b' i = b i)
    by (intros i Hii; apply write_be16_out; lia).
  unfold read_dirent. destruct (Z.ltb_spec size o), (Z.ltb_spec (size - o) 8); try lia.
  cbn [orb]. rewrite (read_be32_eq_on b' b) by (intros i Hii; apply Hsame; lia).
  rewrite (read_be16_eq_on b' b (o + 6)) by (intros i Hii; apply Hsame; lia).
  assert (Hw : w16 n = n) by (apply wrap_small; lia).
  assert (Hn16 : read_be16 b' (o + 4) = n) by (unfold b'; by rewrite read_write_be16, !Hw).
  rewrite !Hn16.
  rewrite <- Hi, <- Hnl.
  assert (Hbr : bad_record size o n = false).
  { unfold bad_record, DIRBLKSIZ. rewrite !orb_false_iff, !Z.ltb_ge, negb_false_iff, Z.eqb_eq, land_3.
    pose proof (Z.mod_small o 1024 ltac:(lia)). lia. }
  rewrite Hbr. destruct (Z.eqb_spec (d_ino e) 0); [done|]. cbn [negb andb].
  unfold bad_name in Hbn |- *. rewrite !orb_false_iff in Hbn.
  destruct Hbn as [[[[[Ha Hb] Hc0] Hc] Hd] Hf]. apply Z.ltb_ge in Hc0.
  rewrite (bytes_at_eq b' b) by (intros i Hii; apply Hsame; lia).
  rewrite Ha, Hb, Hc, Hd, (Hsame (o + 8 + d_namlen e)), Hf by lia.
  destruct (Z.ltb_spec n (dirent_size (d_namlen e))); [lia|]. cbn [orb]. by rewrite Hname.
Qed.

(** Removal when the record before the entry is in use, or none before it is. *)
Definition well_placed (l1 : list (Z * dirent)) : Prop :=
  Forall (fun x => d_ino (snd x) = 0) l1 \/
  exists l0 o e, l1 = l0 ++ [(o, e)] /\ d_ino e <> 0.

Lemma remove_seg b size nm l1 o e l2 ok b' :
  wf_buf b -> 0 <= size <= DIRBLKSIZ -> scan b size = (l1 ++ (o, e) :: l2, ok) ->
  matches nm e -> well_placed l1 ->
  b' = match last_live None l1 with
       | Some (po, pe) => write_be16 b (po + 4) (w16 (d_reclen pe + d_reclen e))
       | None => write_be32 b o 0
       end ->
  wf_buf b' /\ (forall i, ~ (0 <= i < size) -> b' i = b i) /\
  exists l', scan b' size = (l', ok) /\ live l' = live l1 ++ live l2.
Proof.
  intros Hwf Hs Hscan [He Hnm] Hplace Hb'.
  apply (scan_walks b size Hwf) in Hscan as (stop & Hseg & Hstop); [|lia].
  apply seg_app in Hseg as (m & Ha & Hb). cbn [seg] in Hb. destruct Hb as (-> & Hlt & Hr & Hb).
  pose proof (seg_bounds b size Hwf l1 0 m ltac:(lia) Ha) as (Hm & _).
  pose proof (read_dirent_some _ _ _ _ Hwf Hm Hr) as (_ & _ & _ & H8 & Hle & Hm4 & _).
  pose proof (seg_bounds b size Hwf l2 (m + d_reclen e) stop ltac:(lia) Hb) as (Hst & _).
  assert (Hwf' : wf_buf b') by (subst b'; destruct (last_live None l1) as [[? ?]|]; auto with bytes).
  split; [done|]. destruct Hplace as [Hfree|(l0 & po & pe & -> & Hpe)].
  - rewrite last_live_free in Hb' by done.
    destruct (cleared_seg b size m e Hwf Hm Hr) as (e' & Hr' & He' & Hrl'). rewrite <- Hb' in Hr'.
    assert (Hout : forall i, ~ (m <= i < m + 4) -> b' i = b i)
      by (intros i Hi; subst b'; apply write_be32_out; lia).
    split; [intros i Hi; apply Hout; lia|].
    exists (l1 ++ (m, e') :: l2). split.
    + apply (scan_walks b' size Hwf'); [lia|]. exists stop. split.
      * apply seg_app. exists m. split.
        -- apply (seg_frame b); [done|lia|intros i Hi; apply Hout; lia|done].
        -- cbn [seg]. split_and!; try done. rewrite Hrl'.
           apply (seg_frame b); [done|lia|intros i Hi; apply Hout; lia|done].
      * apply (stops_frame b); [done|intros i Hi; apply Hout; lia|done].
    + rewrite live_app. cbn. by rewrite He'.
  - rewrite last_live_snoc in Hb' by done.
    apply seg_app in Ha as (q & Ha & Hp). cbn [seg] in Hp. destruct Hp as (-> & Hlq & Hrq & Hq).
    pose proof (seg_bounds b size Hwf l0 0 q ltac:(lia) Ha) as (Hq0 & _).
    pose proof (read_dirent_some _ _ _ _ Hwf Hq0 Hrq) as (_ & _ & _ & H8q & _ & Hm4q & _).
    assert (Hm4n : (d_reclen pe + d_reclen e) mod 4 = 0)
      by (rewrite Zplus_mod, Hm4, Hm4q; done).
    pose proof (merged_seg b size q pe (d_reclen pe + d_reclen e) Hwf Hq0 Hrq Hpe ltac:(lia) Hm4n
      ltac:(lia) ltac:(lia)) as Hrm. cbv zeta in Hrm. rewrite <- Hb' in Hrm.
    assert (Hout : forall i, ~ (q + 4 <= i < q + 6) -> b' i = b i)
      by (intros i Hi; subst b'; apply write_be16_out; lia).
    split; [intros i Hi; apply Hout; lia|].
    eexists (l0 ++ (q, _) :: l2). split.
    + apply (scan_walks b' size Hwf'); [lia|]. exists stop. split.
      * apply seg_app. exists q. split.
        -- apply (seg_frame b); [done|lia|intros i Hi; apply Hout; lia|done].
        -- cbn [seg]. split_and!; [done|done|exact Hrm|]. cbn [d_reclen].
           replace (q + (d_reclen pe + d_reclen e)) with (m + d_reclen e) by lia.
           apply (seg_frame b); [done|lia|intros i Hi; apply Hout; lia|done].
      * apply (stops_frame b); [done|intros i Hi; apply Hout; lia|done].
    + rewrite !live_app. cbn. destruct (Z.eqb_spec (d_ino pe) 0); [done|].
      by rewrite <- app_assoc.
Qed.

(** A walk depends on the bytes of the block only. *)
Lemma scan_eq_on b b' size : wf_buf b -> wf_buf b' -> 0 <= size ->
  (forall i, 0 <= i < size -> b' i = b i) -> scan b' size = scan b size.
Proof.
  intros Hwf Hwf' Hs Heq. destruct (scan b size) as [l ok] eqn:E.
  apply scan_walks in E as (stop & Hseg & Hst); try done.
  pose proof (seg_bounds b size Hwf l 0 stop ltac:(lia) Hseg) as (H1 & H2 & _).
  assert (Hstop : stop <= size) by (destruct H2 as [->|?]; [cbn in Hseg; lia|done]).
  apply (scan_walks b' size Hwf'); [done|]. exists stop. split.
  - apply (seg_frame b); [done|lia|intros i Hi; apply Heq; lia|done].
  - apply (stops_frame b); [done|intros i Hi; apply Heq; lia|done].
Qed.
Lemma scan_equiv b b' size : wf_buf b -> 0 <= size -> b' ≡ b -> scan b' size = scan b size.
Proof.
  intros Hwf Hs Heq. apply scan_eq_on; [done| |done|by intros].
  intros i. rewrite (Heq i). apply Hwf.
Qed.
Lemma slice_write_be16 b base k v : slice (write_be16 b (base + k) v) base ≡ write_be16 (slice b base) k v.
Proof.
  intros i. unfold slice. rewrite !write_be16_at.
  repeat match goal with |- context [?x =? ?y] => destruct (Z.eqb_spec x y) end; lia || done.
Qed.
Lemma slice_write_be32 b base k v : slice (write_be32 b (base + k) v) base ≡ write_be32 (slice b base) k v.
Proof.
  intros i. unfold slice. rewrite !write_be32_at.
  repeat match goal with |- context [?x =? ?y] => destruct (Z.eqb_spec x y) end; lia || done.
Qed.

(** ** Properties *)

(** C26. Adding an entry to a directory block: when it succeeds, the block still walks
    as before, its entries are the old ones in the old order with the new one
    among them, and no byte outside the block changes; when it reports that there
    is no room, no record of the block has room for the name. *)
Theorem insert_in_block_correct b size nm ino l ok
    (Hwf : wf_buf b) (Hs : 0 <= size) (Hnm : valid_name nm) (Hino : 0 < ino < 2 ^ 32)
    (Hscan : scan b size = (l, ok)) :
  match insert_in_block b size nm ino with
  | Inserted b' =>
      wf_buf b' /\ (forall i, ~ (0 <= i < size) -> b' i = b i) /\
      exists l' l1 l2, scan b' size = (l', ok) /\ live l = l1 ++ l2 /\
        live l' = l1 ++ (ino, nm) :: l2
  | NoRoom => ok = true /\ Forall (fun x => room (snd x) < dirent_size (strlen nm)) l
  | BadBlock => ok = false
  | BadEntry => True
  end.
Proof.
  destruct (insert_in_block b size nm ino) as [b'| | |] eqn:E; [| | |done].
  - pose proof (insert_in_block_wf _ _ _ _ _ Hwf Hnm E) as Hwf'. split; [done|].
    by apply insert_in_block_ok.
  - unfold insert_in_block in E. rewrite Hscan in E.
    pose proof (insert_among_inv b l ok nm ino (dirent_size (strlen nm))) as H. by rewrite E in H.
  - unfold insert_in_block in E. rewrite Hscan in E.
    pose proof (insert_among_inv b l ok nm ino (dirent_size (strlen nm))) as H. by rewrite E in H.
Qed.

(** C27. Removing an entry from a directory block: the first record in use with the
    name is taken; if the record before it is in use, or every record before it is
    unused, the block walks on as before and has lost exactly this entry; "not
    here" is reported only when no record has the name. *)
Theorem remove_in_dirblk_correct b base size nm l ok
    (Hwf : wf_buf b) (Hs : 0 <= size <= DIRBLKSIZ)
    (Hscan : scan (slice b base) size = (l, ok)) :
  match remove_in_dirblk b base size nm with
  | Removed b' ino => exists l1 o e l2,
      l = l1 ++ (o, e) :: l2 /\ Forall (fun x => ~ matches nm (snd x)) l1 /\ matches nm e /\
      ino = d_ino e /\
      (well_placed l1 ->
         (forall i, ~ (base <= i < base + size) -> b' i = b i) /\
         exists l', scan (slice b' base) size = (l', ok) /\ live l' = live l1 ++ live l2)
  | NotHere => ok = true /\ Forall (fun x => ~ matches nm (snd x)) l
  | BadRemoval _ => True
  end.
Proof.
  unfold remove_in_dirblk. rewrite Hscan.
  pose proof (remove_among_inv b base nm ok l None) as Hinv.
  destruct (remove_among b base None l ok nm) as [b' ino| |]; [|done|done].
  destruct Hinv as (l1 & o & e & l2 & -> & Hno & Hm & -> & Hb').
  exists l1, o, e, l2. split_and!; try done. intros Hplace.
  set (b1 := match last_live None l1 with
    | Some (po, pe) => write_be16 (slice b base) (po + 4) (w16 (d_reclen pe + d_reclen e))
    | None => write_be32 (slice b base) o 0 end).
  destruct (remove_seg (slice b base) size nm l1 o e l2 ok b1) as (Hwf1 & Hout & l' & Hl' & Hlive);
    try done; [by apply wf_slice|].
  assert (Heq : slice b' base ≡ b1).
  { subst b' b1. destruct (last_live None l1) as [[po pe]|].
    - rewrite <- Z.add_assoc. apply slice_write_be16.
    - apply slice_write_be32. }
  split.
  - intros i Hi. specialize (Hout (i - base) ltac:(lia)). specialize (Heq (i - base)).
    unfold slice in Heq, Hout. replace (base + (i - base)) with i in Heq, Hout by lia.
    congruence.
  - exists l'. split; [|done]. rewrite <- Hl'. apply scan_equiv; [done|lia|done].
Qed.

(** A directory block as nextufs__insert_dirent makes it, with entries a, b, c. *)
Definition after (r : insertion) : buf := match r with Inserted b => b | _ => zeros end.
Definition removed (r : removal) : buf := match r with Removed b _ => b | _ => zeros end.
Definition letter (c : Z) : name := [96 + c].
Definition abc_block : buf :=
  let b := match write_dirent_raw zeros 0 10 DIRBLKSIZ (letter 1) with
           | Ok b => b | Err _ => zeros end in
  let b := after (insert_in_block b DIRBLKSIZ (letter 2) 11) in
  after (insert_in_block b DIRBLKSIZ (letter 3) 12).

Lemma abc_block_wf : wf_buf abc_block.
Proof.
  assert (Hv : forall c, 1 <= c <= 26 -> valid_name (letter c)).
  { intros c Hc. split; [done|]. constructor; [lia|constructor]. }
  assert (Ha : forall b nm ino, wf_buf b -> valid_name nm ->
    wf_buf (after (insert_in_block b DIRBLKSIZ nm ino))).
  { intros b nm ino Hb Hnm. destruct (insert_in_block b DIRBLKSIZ nm ino) eqn:E;
      try apply wf_zeros. by eapply insert_in_block_wf. }
  unfold abc_block. apply Ha; [|by apply Hv]. apply Ha; [|by apply Hv].
  destruct (write_dirent_raw _ _ _ _ _) as [b|] eqn:E; [|apply wf_zeros].
  by eapply write_dirent_wf; [apply wf_zeros|apply (Hv 1)|exact E].
Qed.

Lemma abc_scan : exists l, scan abc_block DIRBLKSIZ = (l, true) /\
  live l = [(10, letter 1); (11, letter 2); (12, letter 3)].
Proof. eexists; split; vm_compute; reflexivity. Qed.

Lemma insert_in_block_correct_witness :
  exists b' l1 l2 l', insert_in_block abc_block DIRBLKSIZ (letter 4) 13 = Inserted b' /\
    [(10, letter 1); (11, letter 2); (12, letter 3)] = l1 ++ l2 /\
    scan b' DIRBLKSIZ = (l', true) /\ live l' = l1 ++ (13, letter 4) :: l2.
Proof.
  destruct abc_scan as (l & Hs & Hl).
  assert (Hnm : valid_name (letter 4))
    by (split; [discriminate|constructor; [split; reflexivity|constructor]]).
  pose proof (insert_in_block_correct abc_block DIRBLKSIZ (letter 4) 13 l true abc_block_wf
    ltac:(discriminate) Hnm ltac:(split; reflexivity) Hs) as H.
  assert (Hk : match insert_in_block abc_block DIRBLKSIZ (letter 4) 13 with
               | Inserted _ => true | _ => false end = true) by (vm_compute; reflexivity).
  destruct (insert_in_block abc_block DIRBLKSIZ (letter 4) 13) as [b'| | |]; try discriminate Hk.
  destruct H as (_ & _ & l' & l1 & l2 & Hl' & Hsplit & Hlive).
  exists b', l1, l2, l'. rewrite Hl in Hsplit. exact (conj eq_refl (conj Hsplit (conj Hl' Hlive))).
Defined.

Lemma abc_slice_scan : exists l1 o e l2,
  scan (slice abc_block 0) DIRBLKSIZ = (l1 ++ (o, e) :: l2, true) /\
  well_placed l1 /\ d_ino e = 11 /\ live l1 = [(10, letter 1)] /\ live l2 = [(12, letter 3)].
Proof.
  pose (s := fst (scan (slice abc_block 0) DIRBLKSIZ)).
  exists (firstn 1 s), (fst (nth 1 s (0, Dirent 0 0 0 []))), (snd (nth 1 s (0, Dirent 0 0 0 []))),
    (skipn 2 s).
  split; [vm_compute; reflexivity|]. split_and!; try (vm_compute; reflexivity).
  right. exists [], 0, (snd (nth 0 s (0, Dirent 0 0 0 []))). split; [vm_compute; reflexivity|].
  vm_compute. discriminate.
Qed.
Lemma remove_in_dirblk_correct_witness :
  exists l, scan (slice abc_block 0) DIRBLKSIZ = (l, true) /\
  match remove_in_dirblk abc_block 0 DIRBLKSIZ (letter 2) with
  | Removed b' ino => exists l1 o e l2, l = l1 ++ (o, e) :: l2 /\ ino = d_ino e /\
      (well_placed l1 -> exists l', scan (slice b' 0) DIRBLKSIZ = (l', true) /\
                           live l' = live l1 ++ live l2)
  | _ => False
  end.
Proof.
  destruct abc_slice_scan as (l1 & o & e & l2 & Hs & _).
  exists (l1 ++ (o, e) :: l2). split; [exact Hs|].
  pose proof (remove_in_dirblk_correct abc_block 0 DIRBLKSIZ (letter 2) _ true abc_block_wf
    ltac:(split; discriminate) Hs) as H.
  assert (Hk : match remove_in_dirblk abc_block 0 DIRBLKSIZ (letter 2) with
               | Removed _ _ => true | _ => false end = true) by (vm_compute; reflexivity).
  destruct (remove_in_dirblk abc_block 0 DIRBLKSIZ (letter 2)) as [b' ino| |]; try discriminate Hk.
  destruct H as (m1 & q & f & m2 & Hm & _ & _ & Hi & Hwp).
  exists m1, q, f, m2. split; [exact Hm|]. split; [exact Hi|].
  intros Hp. exact (proj2 (Hwp Hp)).
Defined.

(** Removal does not keep a directory block readable when an unused record lies
    between two used ones: removing a then b leaves two unused records, a new entry
    d goes into the first, and removing c then adds the length of c to d although
    the unused record of b lies between them.  The walk now lands inside the old
    record of c and fails: listing the directory, and looking up any name that is
    not found before that point, returns EIO from now on. *)
Example remove_after_free_record_corrupts :
  let b := removed (remove_in_dirblk abc_block 0 DIRBLKSIZ (letter 1)) in
  let b := removed (remove_in_dirblk b 0 DIRBLKSIZ (letter 2)) in
  let b := after (insert_in_block b DIRBLKSIZ (letter 4) 13) in
  let b' := removed (remove_in_dirblk b 0 DIRBLKSIZ (letter 3)) in
  live (fst (scan b DIRBLKSIZ)) = [(13, letter 4); (12, letter 3)] /\
  snd (scan b DIRBLKSIZ) = true /\
  match remove_in_dirblk b 0 DIRBLKSIZ (letter 3) with
  | Removed _ ino => ino = 12 | _ => False end /\
  snd (scan b' DIRBLKSIZ) = false.
Proof. vm_compute. split_and!; reflexivity. Qed.
