(* ===== verification/Directory.v ===== *)
(** * Directories

    src/src/core/directory.c and src/src/mutate/dir_mutate.c: iteration and name
    lookup, insertion and removal of entries on the image, new directory blocks,
    the emptiness test and the parent entry.  Routines that change the directory
    node run over [istate] with the node's inode number as an argument. *)
From S2P Require Import Prelude.
From S2P Require Import Bytes.
From S2P Require Import Backend.
From S2P Require Import Superblock.
From S2P Require Import Image.
From S2P Require Import Inode.
From S2P Require Import CylGroup.
From S2P Require Import Alloc.
From S2P Require Import BlockMap.
From S2P Require Import BlockLookup.
From S2P Require Import FileIO.
From S2P Require Import Dirent.

(** The blocks of a directory and the bytes of one of them. *)
Definition dir_blocks (img : image) (ino : inode) : list Z :=
  seqZ 0 (block_total img (i_size ino)).

Section directory.
Context {C : Type} `{!Backend C}.
Local Abbreviation M := (M (world C)).
Local Abbreviation MI := (Prelude.M (istate C)).

Definition read_dir_block (img : image) (ino : inode) (block_index : Z) : M buf :=
  let! r := inode_read_data img ino (block_index * block_size (sb img))
              (chunk_bytes img (i_size ino) block_index) in
  ret (fst r).

(** ** Iteration

    The callback sees inode number and name and a state of its own; it continues
    ([false]), stops the iteration with a positive code ([true]) or fails. *)
Definition iterate_block {A} (img : image) (ino : inode)
    (cb : Z -> name -> A -> M (A * bool)) (block_index : Z) (a : A) : M (A * bool) :=
  let! b := map_err EIO (read_dir_block img ino block_index) in
  let (l, ok) := scan b (chunk_bytes img (i_size ino) block_index) in
  let! r := fold_until l (fun x a =>
    let ent := snd x in
    if negb (d_ino ent =? 0) && negb (d_namlen ent =? 0)
    then cb (d_ino ent) (d_name ent) a else ret (a, false)) a in
  if snd r then ret r else if ok then ret r else fail EIO.
Definition directory_iterate {A} (img : image) (dirino : inode)
    (cb : Z -> name -> A -> M (A * bool)) (a : A) : M (A * bool) :=
  malloc (block_size (sb img)) ;;;
  fold_until (dir_blocks img dirino) (iterate_block img dirino cb) a.

Definition find_name_cb (target_name : name) (ino : Z) (nm : name) (target_inode : Z)
    : M (Z * bool) :=
  if bool_decide (nm = target_name) then ret (ino, true) else ret (target_inode, false).
(** The inode number, 0 when the name is absent. *)
Definition find_name_in_directory (img : image) (dirino : inode) (target_name : name) : M Z :=
  let! r := directory_iterate img dirino (find_name_cb target_name) 0 in
  ret (fst r).

(** ** Node updates *)
Definition update_node_times (img : image) (inode_no : Z) : MI unit :=
  let! now := io time_now in
  let! ino := get_inode in
  put_inode (set_times ino now now now) ;;;
  let! ino := get_inode in
  io (write_inode_raw img inode_no ino) ;;;
  let! r := io (inode_read img inode_no) in
  put_inode (fst r).

(** ** Insertion *)
Definition grow_directory_by_dirblk (img : image) (inode_no : Z) : MI (Z * Z) :=
  let! ino := get_inode in
  let old_size := i_size ino in
  if negb (old_size mod DIRBLKSIZ =? 0) then fail EINVAL
  else
    file_resize img inode_no (old_size + DIRBLKSIZ) ;;;
    let! ino := get_inode in
    let! frag := io (resolve_inode_data_block img ino (old_size / block_size (sb img))) in
    if frag =? 0 then fail EIO
    else ret (frag, frag_offset img frag + old_size mod block_size (sb img)).

(** [true]: inserted in this block. *)
Definition insert_in_dir_block (img : image) (inode_no : Z) (nm : name) (new_inode : Z)
    (block_index : Z) (_ : unit) : MI (unit * bool) :=
  let! ino := get_inode in
  let chunk_size := chunk_bytes img (i_size ino) block_index in
  let! b := io (map_err EIO (read_dir_block img ino block_index)) in
  match insert_in_block b chunk_size nm new_inode with
  | NoRoom => ret (tt, false)
  | BadBlock => fail EIO
  | BadEntry => fail EINVAL
  | Inserted b =>
      let! data_frag := map_err EIO (io (resolve_inode_data_block img ino block_index)) in
      if data_frag =? 0 then fail EIO
      else
        map_err EIO (io (write_exact img b chunk_size (frag_offset img data_frag))) ;;;
        update_node_times img inode_no ;;;
        ret (tt, true)
  end.
Definition append_dirblk (img : image) (inode_no : Z) (nm : name) (new_inode : Z) : MI unit :=
  if DIRBLKSIZ <? dirent_size (strlen nm) then fail ENOSPC
  else
    let! '(_, new_block_off) := map_err ENOSPC (grow_directory_by_dirblk img inode_no) in
    match write_dirent_raw zeros 0 new_inode DIRBLKSIZ nm with
    | Err _ => fail EINVAL
    | Ok new_dirblk => map_err EIO (io (write_exact img new_dirblk DIRBLKSIZ new_block_off))
    end.
Definition insert_dirent (img : image) (inode_no : Z) (nm : name) (new_inode : Z) : MI unit :=
  io (malloc (block_size (sb img))) ;;;
  let! ino := get_inode in
  let! r := fold_until (dir_blocks img ino) (insert_in_dir_block img inode_no nm new_inode) tt in
  if snd r then ret tt else append_dirblk img inode_no nm new_inode.

(** ** Removal: the inode number of the entry *)
Definition remove_in_dir_block (img : image) (inode_no : Z) (nm : name)
    (block_index : Z) (removed : Z) : MI (Z * bool) :=
  let! ino := get_inode in
  let chunk_size := chunk_bytes img (i_size ino) block_index in
  let! b := io (map_err EIO (read_dir_block img ino block_index)) in
  let! data_frag := map_err EINVAL (io (resolve_inode_data_block img ino block_index)) in
  if data_frag =? 0 then fail EINVAL
  else
    match remove_in_block b chunk_size nm with
    | NotHere => ret (removed, false)
    | BadRemoval e => fail e
    | Removed b removed =>
        map_err EIO (io (write_exact img b chunk_size (frag_offset img data_frag))) ;;;
        update_node_times img inode_no ;;;
        ret (removed, true)
    end.
Definition remove_dirent (img : image) (inode_no : Z) (nm : name) : MI Z :=
  io (malloc (block_size (sb img))) ;;;
  let! ino := get_inode in
  let! r := fold_until (dir_blocks img ino) (remove_in_dir_block img inode_no nm) 0 in
  if snd r then ret (fst r) else fail ENOENT.

(** ** Whole directories *)
Definition write_new_directory_block (img : image) (frag_addr self_ino parent_ino : Z) : M unit :=
  match write_dirent_raw zeros 0 self_ino (dirent_size 1) [dot] with
  | Err _ => fail EINVAL
  | Ok dirblk =>
      match write_dirent_raw dirblk (dirent_size 1) parent_ino
              (DIRBLKSIZ - dirent_size 1) [dot; dot] with
      | Err _ => fail EINVAL
      | Ok dirblk => write_exact img dirblk DIRBLKSIZ (frag_offset img frag_addr)
      end
  end.

(** What the emptiness test makes of the records: [None] is "not empty". *)
Fixpoint only_dots (l : list (Z * dirent)) (inode_no parent_ino : Z)
    (seen_dot seen_dotdot : bool) : option (bool * bool) :=
  match l with
  | [] => Some (seen_dot, seen_dotdot)
  | (_, ent) :: l =>
      if d_ino ent =? 0 then only_dots l inode_no parent_ino seen_dot seen_dotdot
      else if is_dot (d_name ent) then
        if d_ino ent =? inode_no then only_dots l inode_no parent_ino true seen_dotdot else None
      else if is_dotdot (d_name ent) then
        if d_ino ent =? parent_ino then only_dots l inode_no parent_ino seen_dot true else None
      else None
  end.
Definition block_is_empty (img : image) (inode_no : Z) (ino : inode) (parent_ino : Z)
    (block_index : Z) (seen : bool * bool) : M ((bool * bool) * bool) :=
  let! b := read_dir_block img ino block_index in
  let (l, ok) := scan b (chunk_bytes img (i_size ino) block_index) in
  match only_dots l inode_no parent_ino (fst seen) (snd seen) with
  | Some seen => if ok then ret (seen, false) else ret ((false, false), true)
  | None => ret ((false, false), true)
  end.
Definition directory_is_empty (img : image) (inode_no : Z) (ino : inode) (parent_ino : Z)
    : M bool :=
  if negb (is_dir ino) then ret false
  else
    let! r := attempt (malloc (block_size (sb img)) ;;;
      fold_until (dir_blocks img ino) (block_is_empty img inode_no ino parent_ino) (false, false)) in
    match r with
    | Ok ((seen_dot, seen_dotdot), _) => ret (seen_dot && seen_dotdot)
    | Err _ => ret false
    end.

(** [ent->namlen == 2 && ent->name == ".."], whatever the inode number. *)
Definition names_dot (b : buf) (off : Z) (ent : dirent) : bool :=
  (d_namlen ent =? 1) && (b (off + 8) =? dot).
Definition names_dotdot (b : buf) (off : Z) (ent : dirent) : bool :=
  (d_namlen ent =? 2) && (b (off + 8) =? dot) && (b (off + 9) =? dot).

Definition read_directory_parent_inode (img : image) (inode_no : Z) (ino : inode) : M Z :=
  if negb (is_dir ino) || (i_size ino <? DIRBLKSIZ) then fail ENOTDIR
  else
    let! r := map_err EIO (inode_read_data img ino 0 DIRBLKSIZ) in
    let b := fst r in
    match read_dirent b DIRBLKSIZ 0 with
    | None => fail EINVAL
    | Some ent =>
        if negb (d_ino ent =? inode_no) || negb (names_dot b 0 ent) then fail EINVAL
        else
          match read_dirent b DIRBLKSIZ (d_reclen ent) with
          | None => fail EINVAL
          | Some ent2 =>
              if negb (names_dotdot b (d_reclen ent) ent2) then fail EINVAL
              else ret (d_ino ent2)
          end
    end.
Definition update_directory_parent_inode (img : image) (inode_no parent_inode : Z) : MI unit :=
  let! ino := get_inode in
  if negb (is_dir ino) || (i_size ino <? DIRBLKSIZ) || (db_at ino 0 =? 0) then fail ENOTDIR
  else
    let! r := io (map_err EIO (inode_read_data img ino 0 DIRBLKSIZ)) in
    let b := fst r in
    match read_dirent b DIRBLKSIZ 0 with
    | None => fail EINVAL
    | Some ent =>
        match read_dirent b DIRBLKSIZ (d_reclen ent) with
        | None => fail EINVAL
        | Some ent2 =>
            if negb (names_dotdot b (d_reclen ent) ent2) then fail EINVAL
            else
              io (write_exact img (write_be32 b (d_reclen ent) parent_inode) DIRBLKSIZ
                    (frag_offset img (db_at ino 0))) ;;;
              update_node_times img inode_no
        end
    end.
End directory.

(** ** Frames *)
Section directory_frames.
Context {C : Type} `{HB : Backend C, HS : !BackendSpec C}.
Variable (img : image).

Lemma read_dir_block_quiet ino i : Stable quiet (read_dir_block (C:=C) img ino i).
Proof. unfold read_dir_block. solve_stable. Qed.
Local Hint Resolve read_dir_block_quiet : stable.
Lemma iterate_block_quiet {A} ino (cb : Z -> name -> A -> M (world C) (A * bool)) i a :
  (forall i n a, Stable quiet (cb i n a)) -> Stable quiet (iterate_block img ino cb i a).
Proof. intros Hcb. unfold iterate_block. solve_stable. Qed.
Lemma find_name_cb_quiet nm i n z : Stable quiet (find_name_cb (C:=C) nm i n z).
Proof. unfold find_name_cb. solve_stable. Qed.
Lemma iterate_quiet {A} ino (cb : Z -> name -> A -> M (world C) (A * bool)) a :
  (forall i n a, Stable quiet (cb i n a)) -> Stable quiet (directory_iterate img ino cb a).
Proof. intros Hcb. unfold directory_iterate, iterate_block. solve_stable. Qed.
Lemma find_name_quiet ino nm : Stable quiet (find_name_in_directory (C:=C) img ino nm).
Proof.
  unfold find_name_in_directory. apply stable_bind; [apply _| |solve_stable].
  apply iterate_quiet. intros. apply find_name_cb_quiet.
Qed.
Lemma directory_is_empty_quiet n ino p : Stable quiet (directory_is_empty (C:=C) img n ino p).
Proof. unfold directory_is_empty, block_is_empty. solve_stable. Qed.
Lemma read_parent_quiet n ino : Stable quiet (read_directory_parent_inode (C:=C) img n ino).
Proof. unfold read_directory_parent_inode. solve_stable. Qed.

Hypothesis Himg : image_ok img.
Lemma update_node_times_carries n : Stable (on_world carries) (update_node_times (C:=C) img n).
Proof. pose proof (write_inode_raw_carries (C:=C)). unfold update_node_times. solve_stable. Qed.
Local Hint Resolve update_node_times_carries : stable.
Lemma grow_directory_carries n :
  Stable (on_world carries) (grow_directory_by_dirblk (C:=C) img n).
Proof. unfold grow_directory_by_dirblk. solve_stable. Qed.
Local Hint Resolve grow_directory_carries : stable.
Lemma insert_dirent_carries n nm i :
  Stable (on_world carries) (insert_dirent (C:=C) img n nm i).
Proof. unfold insert_dirent, insert_in_dir_block, append_dirblk. solve_stable. Qed.
Lemma remove_dirent_carries n nm : Stable (on_world carries) (remove_dirent (C:=C) img n nm).
Proof. unfold remove_dirent, remove_in_dir_block. solve_stable. Qed.
Lemma new_directory_block_carries f a b :
  Stable carries (write_new_directory_block (C:=C) img f a b).
Proof. unfold write_new_directory_block. solve_stable. Qed.
Lemma update_parent_carries n p :
  Stable (on_world carries) (update_directory_parent_inode (C:=C) img n p).
Proof. unfold update_directory_parent_inode. solve_stable. Qed.
End directory_frames.
#[export] Hint Resolve find_name_quiet directory_is_empty_quiet read_parent_quiet
  update_node_times_carries insert_dirent_carries remove_dirent_carries
  new_directory_block_carries update_parent_carries : stable.

(** ** What lookup finds *)

(** The records of a block of the directory, read off the image. *)
Definition dir_records (img : image) (v : buf) (ino : inode) (i : Z) : list (Z * dirent) * bool :=
  scan (slice (file_byte img v ino) (i * block_size (sb img))) (chunk_bytes img (i_size ino) i).
Definition named (nm : name) (l : list (Z * dirent)) (x : Z) : Prop := In (x, nm) (live l).

(** The number of the first entry in use with that name, 0 if there is none. *)
Definition first_named (nm : name) (l : list (Z * dirent)) : Z :=
  match find (fun e => bool_decide (snd e = nm)) (live l) with Some e => fst e | None => 0 end.
Definition dir_find (img : image) (v : buf) (ino : inode) (nm : name) : Z :=
  match find_first (fun i =>
    let x := first_named nm (fst (dir_records img v ino i)) in
    if x =? 0 then None else Some x) (dir_blocks img ino) with
  | Some x => x
  | None => 0
  end.

Lemma first_named_none nm l : (forall k, ~ named nm l k) -> first_named nm l = 0.
Proof.
  intros H. unfold first_named. destruct (find _ _) as [[k n]|] eqn:E; [|done].
  apply find_some in E as [Hin Hn%bool_decide_eq_true]. cbn in Hn. subst n. by destruct (H k).
Qed.
Lemma first_named_skip nm o e l : (d_ino e <> 0 -> d_name e <> nm) ->
  first_named nm ((o, e) :: l) = first_named nm l.
Proof.
  intros H. unfold first_named. cbn [live flat_map snd].
  destruct (Z.eqb_spec (d_ino e) 0); [done|]. cbn [app find snd].
  rewrite bool_decide_eq_false_2 by auto. done.
Qed.
Lemma first_named_hit nm o e l : d_ino e <> 0 -> d_name e = nm ->
  first_named nm ((o, e) :: l) = d_ino e.
Proof.
  intros H Hn. unfold first_named. cbn [live flat_map snd].
  destruct (Z.eqb_spec (d_ino e) 0); [done|]. cbn [app find snd].
  by rewrite bool_decide_eq_true_2.
Qed.

Section lookup_spec.
Context {C : Type} `{HB : Backend C, HS : !BackendSpec C}.
Variable img : image.
Local Abbreviation bs := (block_size (sb img)).
Hypothesis Hbs : 4 <= bs.

Lemma file_byte_wf v ino : wf_buf v -> wf_buf (file_byte img v ino).
Proof. intros Hv i. unfold file_byte. case_match; [lia|apply Hv]. Qed.

Lemma scan_from_numbers fuel b size : wf_buf b -> forall off l ok,
  scan_from fuel b size off = (l, ok) -> Forall (fun x => 0 <= d_ino (snd x)) l.
Proof.
  intros Hwf. induction fuel as [|fuel IH]; intros off l ok H; cbn [scan_from] in H;
    destruct (off <? size); try by injection H as <- _.
  destruct (read_dirent b size off) as [ent|] eqn:E; [|by injection H as <- _].
  destruct (scan_from fuel b size (off + d_reclen ent)) as [l1 ok1] eqn:E1. injection H as <- _.
  constructor; [|by eapply IH]. cbn [snd]. unfold read_dirent in E.
  destruct (_ || _) in E; [done|]. destruct (bad_record _ _ _); [done|].
  destruct (_ && _) in E; [done|]. injection E as <-. cbn. apply (read_be32_range _ Hwf).
Qed.
Lemma dir_find_nonneg v ino nm : wf_buf v -> 0 <= dir_find img v ino nm.
Proof.
  intros Hv. unfold dir_find. destruct (find_first _ _) as [x|] eqn:E; [|done].
  apply find_first_some in E as (_ & i & _ & _ & Hf & _). cbv zeta in Hf.
  set (k := first_named _ _) in Hf. assert (Hk : 0 <= k).
  { unfold k, first_named. destruct (find _ _) as [e|] eqn:Ef; [|done].
    apply find_some in Ef as [Hin _]. unfold live in Hin.
    apply in_flat_map in Hin as ([o ent] & Hin & He). cbn [snd] in He.
    destruct (scan (slice (file_byte img v ino) (i * bs)) (chunk_bytes img (i_size ino) i))
      as [l ok] eqn:Es. unfold dir_records in Hin. rewrite Es in Hin. cbn [fst] in Hin.
    apply scan_from_numbers in Es; [|by apply wf_slice, file_byte_wf].
    rewrite Forall_forall in Es. specialize (Es _ (proj2 (list_elem_of_In _ _) Hin)). cbn [snd] in Es.
    destruct (d_ino ent =? 0); [done|]. destruct He as [<-|[]]. done. }
  destruct (k =? 0); [done|]. by injection Hf as <-.
Qed.

Lemma block_total_range size i : 0 <= size -> 0 <= i < block_total img size ->
  0 < chunk_bytes img size i <= bs /\ i * bs + chunk_bytes img size i <= size.
Proof.
  unfold block_total, chunk_bytes. intros Hs Hi.
  assert (Hlt : i * bs < size).
  { pose proof (Z.div_mod (size + bs - 1) bs ltac:(lia)).
    pose proof (Z.mod_pos_bound (size + bs - 1) bs ltac:(lia)). nia. }
  lia.
Qed.

Lemma read_dir_block_ok ino i (w w' : world C) b :
  bk_inv (w_ctx w) -> 0 <= i_size ino <= INT32_MAX -> 0 <= i < block_total img (i_size ino) ->
  read_dir_block img ino i w = (Ok b, w') ->
  scan (to_bytes b) (chunk_bytes img (i_size ino) i) = dir_records img (view w) ino i.
Proof.
  intros Hinv Hsz Hi Hr. pose proof (block_total_range _ _ (proj1 Hsz) Hi) as [Hc Hle].
  unfold read_dir_block in Hr. inv_step Hr. inv_step Hr. destruct a as [out got].
  unfold INT32_MAX in *.
  apply (inode_read_data_ok img Hbs) in Hrun as [Hgot Hb]; [|done|nia|nia|lia].
  assert (Hwf : wf_buf (slice (file_byte img (view w) ino) (i * bs))).
  { apply wf_slice, file_byte_wf. by apply bk_view_wf. }
  unfold dir_records. apply scan_eq_on; [done|apply wf_to_bytes|lia|].
  intros j Hj. unfold to_bytes. cbn [fst]. rewrite Hb by lia. apply wrap_small, Hwf.
Qed.

Lemma dir_records_equiv v v' ino i :
  wf_buf v -> v' ≡ v -> 0 <= chunk_bytes img (i_size ino) i ->
  dir_records img v' ino i = dir_records img v ino i.
Proof.
  intros Hwf Hv Hc. apply scan_equiv; [by apply wf_slice, file_byte_wf|done|].
  intros j. apply (file_byte_equiv img). done.
Qed.

(** The callback over the records of one block. *)
Lemma find_among nm l : forall x (w w' : world C) r,
  fold_until l (fun y a =>
    let ent := snd y in
    if negb (d_ino ent =? 0) && negb (d_namlen ent =? 0)
    then find_name_cb nm (d_ino ent) (d_name ent) a else ret (a, false)) x w = (Ok r, w') ->
  Forall (fun y => d_ino (snd y) <> 0 -> d_namlen (snd y) <> 0) l ->
  w' = w /\
  if snd r then named nm l (fst r) /\ fst r <> 0 /\ fst r = first_named nm l
  else fst r = x /\ forall k, ~ named nm l k.
Proof.
  induction l as [|[o e] l IH]; intros x w w' r Hr Hall; cbn [fold_until] in Hr.
  { injection Hr as <- <-. split; [done|]. by split; [|intros k []]. }
  apply Forall_cons in Hall as [He Hall]. cbn [snd] in *. inv_step Hr.
  unfold named. cbn [live flat_map snd].
  destruct (Z.eqb_spec (d_ino e) 0) as [H0|H0]; cbn [negb andb app] in *.
  { injection Hrun as <- <-. cbn [fst snd] in Hr. rewrite first_named_skip by done.
    by apply IH in Hr. }
  destruct (Z.eqb_spec (d_namlen e) 0); [by specialize (He H0)|]. cbn [negb andb] in Hrun.
  unfold find_name_cb in Hrun. destruct (decide (d_name e = nm)) as [Hn|Hn].
  - rewrite bool_decide_eq_true_2 in Hrun by done. injection Hrun as <- <-.
    cbn [snd] in Hr. injection Hr as <- <-. split; [done|]. cbn [fst snd].
    rewrite first_named_hit by done. split; [|done]. left. by rewrite Hn.
  - rewrite bool_decide_eq_false_2 in Hrun by done. injection Hrun as <- <-.
    cbn [fst snd] in Hr. apply IH in Hr as [-> Hr]; [|done]. split; [done|].
    destruct (snd r).
    + destruct Hr as [Hr ?]. rewrite first_named_skip by done. split; [by right|done].
    + destruct Hr as [-> Hr]. split; [done|]. intros k [[= _ ?]|Hk]; [done|]. by apply (Hr k).
Qed.

Lemma scan_names b size l ok : wf_buf b -> 0 <= size -> scan b size = (l, ok) ->
  Forall (fun y => d_ino (snd y) <> 0 -> d_namlen (snd y) <> 0) l.
Proof.
  intros Hwf Hs Hsc. apply scan_walks in Hsc as (stop & Hseg & _); [|done|done].
  assert (H0 : 0 <= 0) by lia. revert H0 Hseg. generalize 0 at 2 3. intros off.
  revert off. induction l as [|[o e] l IH]; intros off Ho Hseg; [constructor|].
  cbn [seg] in Hseg. destruct Hseg as (-> & _ & Hr & Hseg).
  apply read_dirent_some in Hr as (_ & _ & _ & H8 & _ & _ & _ & Hu & _); [|done|done].
  constructor; [cbn; intros Hi; specialize (Hu Hi); lia|]. eapply IH; [|exact Hseg]. lia.
Qed.

Lemma iterate_find_ok ino nm i x (w w' : world C) r :
  bk_inv (w_ctx w) -> 0 <= i_size ino <= INT32_MAX -> 0 <= i < block_total img (i_size ino) ->
  iterate_block img ino (find_name_cb nm) i x w = (Ok r, w') ->
  if snd r then named nm (fst (dir_records img (view w) ino i)) (fst r) /\ fst r <> 0 /\
                fst r = first_named nm (fst (dir_records img (view w) ino i))
  else fst r = x /\ snd (dir_records img (view w) ino i) = true /\
       forall k, ~ named nm (fst (dir_records img (view w) ino i)) k.
Proof.
  intros Hinv Hsz Hi Hr. pose proof (block_total_range _ _ (proj1 Hsz) Hi) as [Hc _].
  unfold iterate_block in Hr. inv_step Hr. inv_step Hrun.
  assert (Hwf : wf_buf a).
  { unfold read_dir_block in Hrun. inv_step Hrun. injection Hrun as <- _.
    destruct a0 as [out got]. by eapply inode_read_data_wf. }
  apply read_dir_block_ok in Hrun; [|done..].
  rewrite (scan_equiv a) in Hrun; [|done|lia|intros j; by apply to_bytes_id].
  rewrite <- Hrun in *. destruct (scan a _) as [l ok] eqn:Es.
  inv_step Hr. apply find_among in Hrun0 as [-> Hf]; [|by eapply scan_names; [| |exact Es]; [|lia]].
  destruct a0 as [y stop]. cbn [fst snd] in *. destruct stop.
  - by injection Hr as <- _.
  - destruct ok; [|by inv_step Hr]. injection Hr as <- _. cbn [fst snd]. tauto.
Qed.

(** The blocks from [a] on. *)
Lemma find_blocks_ok ino nm : forall n a x (w w' : world C) r,
  bk_inv (w_ctx w) -> 0 <= i_size ino <= INT32_MAX -> 0 <= a ->
  a + n = block_total img (i_size ino) ->
  fold_until (seqZ a n) (iterate_block img ino (find_name_cb nm)) x w = (Ok r, w') ->
  if snd r then fst r <> 0 /\ exists i, a <= i < a + n /\
    named nm (fst (dir_records img (view w) ino i)) (fst r) /\
    fst r = first_named nm (fst (dir_records img (view w) ino i)) /\
    forall j k, a <= j < i -> ~ named nm (fst (dir_records img (view w) ino j)) k
  else fst r = x /\ forall i, a <= i < a + n ->
    snd (dir_records img (view w) ino i) = true /\
    forall k, ~ named nm (fst (dir_records img (view w) ino i)) k.
Proof.
  intros n a x w w' r Hinv Hsz Ha Hn Hr. remember (seqZ a n) as l eqn:Hl.
  revert a n x w Hinv Ha Hn Hl Hr. induction l as [|y l IH]; intros a n x w Hinv Ha Hn Hl Hr.
  { injection Hr as <- _. split; [done|]. intros i Hi.
    assert (Hlen : length (seqZ a n) = 0%nat) by by rewrite <- Hl. rewrite length_seqZ in Hlen. lia. }
  destruct (decide (0 < n)) as [Hpos|Hneg]; [|rewrite seqZ_nil in Hl by lia; done].
  rewrite seqZ_cons in Hl by lia. injection Hl as -> Hl. cbn [fold_until] in Hr. inv_step Hr.
  assert (Hq : quiet w w0)
    by (eapply iterate_block_quiet; [|exact Hrun]; intros; apply find_name_cb_quiet).
  apply iterate_find_ok in Hrun; [|done|done|lia]. destruct (snd a0) eqn:E.
  - injection Hr as <- _. rewrite E. destruct Hrun as (Hnm & Hnz & Hfst). split; [done|].
    exists a. split_and!; [lia|lia|done|done|]. intros j k Hj. lia.
  - destruct Hrun as (Hx & Hok & Hno). rewrite Hx in Hr.
    apply (IH (Z.succ a) (Z.pred n)) in Hr; [|by apply Hq|lia|lia|done].
    assert (Heq : forall i, Z.succ a <= i < Z.succ a + Z.pred n ->
      dir_records img (view w0) ino i = dir_records img (view w) ino i).
    { intros i Hi. apply dir_records_equiv; [by apply bk_view_wf|by apply Hq|].
      pose proof (block_total_range (i_size ino) i (proj1 Hsz) ltac:(lia)). lia. }
    clear Hl IH. destruct (snd r).
    + destruct Hr as (Hnz & i & Hi & Hnm & Hfst & Hbefore). split; [done|]. exists i.
      rewrite Heq in Hnm, Hfst by done. split_and!; [lia|lia|done|done|]. intros j k Hj Hk.
      destruct (decide (j = a)) as [->|]; [by apply (Hno k)|].
      apply (Hbefore j k); [lia|]. by rewrite Heq by lia.
    + destruct Hr as [-> Hall]. split; [done|]. intros i Hi.
      destruct (decide (i = a)) as [->|]; [by split|].
      specialize (Hall i ltac:(lia)). rewrite Heq in Hall by lia. exact Hall.
Qed.

(** The number returned is a function of the contents. *)
Lemma find_name_value ino nm (w w' : world C) x :
  bk_inv (w_ctx w) -> 0 <= i_size ino <= INT32_MAX ->
  find_name_in_directory img ino nm w = (Ok x, w') -> x = dir_find img (view w) ino nm.
Proof.
  intros Hinv Hsz Hrun. unfold find_name_in_directory, directory_iterate in Hrun.
  apply bind_ok in Hrun as (a & w2 & Hit & Hret). injection Hret as <- _.
  apply bind_ok in Hit as (u & w1 & Hmal & Hrun0).
  assert (Hq : quiet w w1) by (eapply malloc_quiet; exact Hmal).
  assert (Heq : forall i, 0 <= i < block_total img (i_size ino) ->
    dir_records img (view w1) ino i = dir_records img (view w) ino i).
  { intros i Hi. apply dir_records_equiv; [by apply bk_view_wf|by apply Hq|].
    pose proof (block_total_range (i_size ino) i (proj1 Hsz) Hi). lia. }
  apply find_blocks_ok in Hrun0; [|by apply Hq|done|lia|reflexivity].
  unfold dir_find, dir_blocks. set (f := fun i => _).
  assert (Hnone : forall j, 0 <= j < block_total img (i_size ino) ->
    (forall k, ~ named nm (fst (dir_records img (view w1) ino j)) k) -> f j = None).
  { intros j Hj Hno. unfold f. rewrite <- Heq by lia. by rewrite first_named_none. }
  destruct (snd a).
  - destruct Hrun0 as (Hnz & i & Hi & _ & Hfst & Hbefore).
    rewrite (find_first_at f i (fst a)); [done|lia| |].
    + unfold f. rewrite <- Heq, <- Hfst by lia. by destruct (Z.eqb_spec (fst a) 0).
    + intros j Hj. apply Hnone; [lia|]. intros k. by apply Hbefore.
  - destruct Hrun0 as [-> Hall]. rewrite (proj2 (find_first_none f _)); [done|].
    rewrite Forall_forall. intros j Hj%elem_of_seqZ. apply Hnone; [lia|]. by apply Hall.
Qed.
Lemma dir_find_equiv v v' ino nm :
  wf_buf v -> v' ≡ v -> 0 <= i_size ino -> dir_find img v' ino nm = dir_find img v ino nm.
Proof.
  intros Hwf Hv Hsz. unfold dir_find. erewrite find_first_ext; [done|].
  intros i Hi%elem_of_seqZ. cbn beta. rewrite (dir_records_equiv v v'); [done..|].
  pose proof (block_total_range (i_size ino) i Hsz ltac:(lia)). lia.
Qed.
End lookup_spec.

(** ** Properties *)
Section directory_properties.
Context {C : Type} `{HB : Backend C, HS : !BackendSpec C}.
Variable img : image.

(** C37. Name lookup in a directory of at most 2^31 - 1 bytes, in blocks of four bytes or more,
    is exact: a number is returned only if it is the number of an entry in use with that
    name, in the first block that has one; zero means that every block of the directory
    walks to its end without a bad record and no entry in use has the name. *)
Theorem find_name_correct ino nm (w w' : world C) x
    (Hbs : 4 <= block_size (sb img)) (Hinv : bk_inv (w_ctx w))
    (Hsz : 0 <= i_size ino <= INT32_MAX)
    (Hrun : find_name_in_directory img ino nm w = (Ok x, w')) :
  let records := dir_records img (view w) ino in
  let n := block_total img (i_size ino) in
  if x =? 0 then
    forall i, 0 <= i < n -> snd (records i) = true /\ forall k, ~ named nm (fst (records i)) k
  else
    exists i, 0 <= i < n /\ named nm (fst (records i)) x /\
      forall j k, 0 <= j < i -> ~ named nm (fst (records j)) k.
Proof.
  intros records n. unfold find_name_in_directory, directory_iterate in Hrun.
  apply bind_ok in Hrun as (a & w2 & Hit & Hret). injection Hret as <- _.
  apply bind_ok in Hit as (u & w1 & Hmal & Hrun0).
  assert (Hq : quiet w w1) by (eapply malloc_quiet; exact Hmal).
  assert (Heq : forall i, 0 <= i < n -> dir_records img (view w1) ino i = records i).
  { intros i Hi. apply (dir_records_equiv img); [by apply bk_view_wf|by apply Hq|].
    pose proof (block_total_range img Hbs (i_size ino) i (proj1 Hsz) Hi). lia. }
  apply (find_blocks_ok img Hbs) in Hrun0; [|by apply Hq|done|lia|reflexivity].
  destruct (snd a).
  - destruct Hrun0 as (Hnz & i & Hi & Hnm & _ & Hbefore).
    destruct (Z.eqb_spec (fst a) 0); [done|]. exists i. fold n in Hi. rewrite Z.add_0_l in Hi.
    rewrite Heq in Hnm by done. split_and!; [lia|lia|done|]. intros j k Hj Hk.
    apply (Hbefore j k); [lia|]. by rewrite Heq by lia.
  - destruct Hrun0 as [-> Hall]. cbn [Z.eqb]. intros i Hi. rewrite <- Heq by done.
    apply Hall. fold n. lia.
Qed.
End directory_properties.

(** ** A small tree: the root directory holds the file [a] (inode 3) and the
    symbolic links [l] (inode 4, to "a") and [o] (inode 5, to itself). *)
Definition put_dirent (p : buf) (off ino reclen : Z) (nm : name) : buf :=
  match write_dirent_raw p off ino reclen nm with Ok b => b | Err _ => p end.
Lemma put_dirent_wf p off ino reclen nm :
  wf_buf p -> Forall (fun c => 0 <= c < 256) nm -> wf_buf (put_dirent p off ino reclen nm).
Proof.
  intros Hp Hnm. unfold put_dirent, write_dirent_raw. repeat case_match; simplify_eq; try done.
  pose proof (wf_buf_of nm Hnm). auto 10 with bytes.
Qed.
Definition root_block : buf :=
  put_dirent (put_dirent (put_dirent (put_dirent (put_dirent zeros
    0 2 12 [dot]) 12 2 12 [dot; dot]) 24 3 12 [97]) 36 4 12 [108]) 48 5 976 [111].
Definition root_inode : inode :=
  Inode 0x41ed 2 0 0 1024 0 0 0 (<[0%nat := 41]> zero12) zero3 0 2 0.
Definition file_inode : inode :=
  Inode 0x81a4 1 7 7 5 0 0 0 (<[0%nat := 42]> zero12) zero3 0 2 0.
Definition link_inode (target : Z) : inode :=
  store_inline_symlink
    (Inode 0xa1ff 1 0 0 1 0 0 0 zero12 zero3 NEXTUFS_IC_FASTLINK 0 0) (fun _ => target) 1.
Definition super_fields : list (Z * Z) :=
  [(0x08, 16); (0x0c, 24); (0x10, 32); (0x14, 40); (0x18, 0); (0x1c, 0xffffffff);
   (0x24, 512); (0x28, 430); (0x2c, 2); (0x30, 8192); (0x34, 1024); (0x38, 8); (0x3c, 10);
   (0x44, 60); (0x48, 0xffffe000); (0x4c, 0xfffffc00); (0x50, 13); (0x54, 10); (0x58, 1);
   (0x5c, 256); (0x60, 3); (0x68, 1380); (0x6c, 0xfffffe00); (0x70, 9); (0x74, 2048);
   (0x78, 64); (0x7c, 1); (0x98, 40); (0x9c, 1024); (0xa0, 2048); (0xa4, 1); (0xa8, 16);
   (0xac, 16); (0xb0, 32); (0xb4, 16); (0xb8, 64); (0xbc, 256); (0xc0, 1); (0xc4, 53);
   (0xc8, 122); (0xcc, 4); (0x55c, UFS_FS_MAGIC)].
Definition super_block : buf :=
  upd (foldr (fun x b => write_be32 b (fst x) (snd x)) zeros super_fields) 0xd1 1.
Definition tree_header : buf := mini_header 1 26 58 4 1 63 0xf0.
Definition tree_summary : buf := write_be32s (write_be32s zeros 0 [1; 26; 58; 4]) 16 [0; 27; 64; 0].
Definition tree_meta : buf :=
  blit (blit (blit mini_disk 8192 super_block 2048) 24576 tree_header 2048) 40960 tree_summary 32.
Lemma tree_meta_wf : wf_buf tree_meta.
Proof.
  unfold tree_meta, tree_summary.
  apply wf_blit; [apply wf_blit; [apply wf_blit; [apply mini_disk_wf|]|apply mini_header_wf]|
    auto with bytes].
  unfold super_block. apply wf_upd.
  induction super_fields as [|x l IH]; cbn [foldr]; [apply wf_zeros|by apply wf_write_be32].
Qed.
Definition tree_disk : buf :=
  blit (blit (blit (blit (blit tree_meta (41 * 1024) root_block 1024)
    (inode_offset mini_sb 0 2) (encode_inode root_inode) 128)
    (inode_offset mini_sb 0 3) (encode_inode file_inode) 128)
    (inode_offset mini_sb 0 4) (encode_inode (link_inode 97)) 128)
    (inode_offset mini_sb 0 5) (encode_inode (link_inode 111)) 128.
Definition tree_world : world file := raw_world (File tree_disk (512 * 1024) [] []).

Lemma tree_disk_wf : wf_buf tree_disk.
Proof.
  unfold tree_disk. do 4 (apply wf_blit; [|apply encode_inode_wf]).
  apply wf_blit; [apply tree_meta_wf|].
  unfold root_block. 
  repeat apply put_dirent_wf; [apply wf_zeros|..]; rewrite Forall_forall; intros c Hc;
    cbn in Hc; rewrite ?elem_of_cons, elem_of_nil in Hc; unfold dot in Hc; intuition lia.
Qed.
Lemma tree_world_inv : bk_inv (w_ctx tree_world).
Proof.
  split; [discriminate|]. split; [apply tree_disk_wf|].
  intros i Hi. cbn [w_ctx tree_world raw_world f_data f_size] in *.
  unfold tree_disk, inode_offset in *.
  change (blit (blit (blit (blit (blit tree_meta (41 * 1024) root_block 1024)
    33024 (encode_inode root_inode) 128) 33152 (encode_inode file_inode) 128)
    33280 (encode_inode (link_inode 97)) 128) 33408 (encode_inode (link_inode 111)) 128 i = 0).
  rewrite !blit_out by lia. unfold tree_meta. rewrite !blit_out by lia. by apply (mini_file_inv []).
Qed.

Lemma find_name_correct_witness :
  let run := find_name_in_directory mini_image root_inode [97] tree_world in
  fst run = Ok 3 /\
  exists i, 0 <= i < 1 /\ named [97] (fst (dir_records mini_image (view tree_world) root_inode i)) 3.
Proof.
  intros run. assert (Hr : fst run = Ok 3) by (vm_compute; reflexivity). split; [exact Hr|].
  pose proof (find_name_correct mini_image root_inode [97] tree_world (snd run) 3) as H.
  destruct H as (i & Hi & Hn & _).
  - discriminate.
  - exact tree_world_inv.
  - split; discriminate.
  - rewrite <- Hr. apply surjective_pairing.
  - exists i. split; [exact Hi|exact Hn].
Defined.
