(* ===== verification/Node.v ===== *)
(** * Nodes, attributes and access decisions

    src/src/core/node.c without the path-based entry points: [struct stat] and
    [struct statvfs] values, the image description, node loading and the access
    check.  Credentials are those of [struct nextufs_write_ctx]. *)
From S2P Require Import Prelude.
From S2P Require Import Bytes.
From S2P Require Import Backend.
From S2P Require Import Superblock.
From S2P Require Import Image.
From S2P Require Import Inode.
From S2P Require Import CylGroup.
From S2P Require Import Alloc.
From S2P Require Import BlockMap.
From S2P Require Import FileIO.
From S2P Require Import Dirent.
From S2P Require Import Directory.

Definition NEXTUFS_ROOT_INODE : Z := 2.
Definition NEXTUFS_IFIFO : Z := 0x1000.
Definition NEXTUFS_IFCHR : Z := 0x2000.
Definition NEXTUFS_IFBLK : Z := 0x6000.
Definition NEXTUFS_IFSOCK : Z := 0xc000.
Definition F_OK : Z := 0.
Definition X_OK : Z := 1.
Definition W_OK : Z := 2.
Definition R_OK : Z := 4.

Record node := Node {
  sector_size : Z;
  n_inode_no : Z;
  n_inode_off : Z;
  n_inode : inode;
}.
Definition node_sector_size (s : superblock) : Z :=
  if sectors_per_frag s =? 0 then 0 else frag_size s / sectors_per_frag s.

Definition node_is_dir (n : node) : bool := is_dir (n_inode n).
Definition node_is_reg (n : node) : bool := is_reg (n_inode n).
Definition node_is_lnk (n : node) : bool := is_lnk (n_inode n).

(** ** stat *)
Record stat_buf := Stat {
  st_ino : Z; st_mode : Z; st_nlink : Z; st_uid : Z; st_gid : Z; st_size : Z;
  st_blocks : Z; st_rdev : Z; st_atime : Z; st_mtime : Z; st_ctime : Z;
}.
Definition node_stat (n : node) : stat_buf :=
  let ino := n_inode n in
  Stat (n_inode_no n) (i_mode ino) (if i_nlink ino =? 0 then 1 else i_nlink ino)
    (i_uid ino) (i_gid ino) (i_size ino) (i_blocks ino * (sector_size n / 512))
    (if (ifmt (i_mode ino) =? NEXTUFS_IFCHR) || (ifmt (i_mode ino) =? NEXTUFS_IFBLK)
     then db_at ino 0 else 0)
    (i_atime ino) (i_mtime ino) (i_ctime ino).

(** ** Access *)
Inductive write_policy := NEXTUFS_WRITE_SU | NEXTUFS_WRITE_USER.
#[export] Instance write_policy_eq_dec : EqDecision write_policy.
Proof. solve_decision. Defined.
Record write_ctx := WriteCtx { policy : write_policy; c_uid : Z; c_gid : Z; groups : list Z }.

Definition has (mask bit : Z) : bool := negb (Z.land mask bit =? 0).
Definition class_perms (ino : inode) (uid gid : Z) (groups : list Z) : Z :=
  if uid =? i_uid ino then Z.land (Z.shiftr (i_mode ino) 6) 7
  else if (gid =? i_gid ino) || existsb (fun g => g =? i_gid ino) groups
  then Z.land (Z.shiftr (i_mode ino) 3) 7
  else Z.land (i_mode ino) 7.
Definition wanted_bits (mask : Z) : Z :=
  Z.lor (Z.lor (if has mask R_OK then 4 else 0) (if has mask W_OK then 2 else 0))
        (if has mask X_OK then 1 else 0).
Definition check_access (ino : inode) (uid gid : Z) (groups : list Z) (mask : Z)
    (allow_write : bool) : result unit :=
  if negb allow_write && has mask W_OK then Err EROFS
  else if mask =? F_OK then Ok tt
  else if uid =? 0 then
    if has mask X_OK && (Z.land (i_mode ino) 0x49 =? 0) then Err EACCES else Ok tt
  else
    let bits := wanted_bits mask in
    if Z.land (class_perms ino uid gid groups) bits =? bits then Ok tt else Err EACCES.
(** nextufs_node_check_access: for reading, without supplementary groups. *)
Definition node_check_access (n : node) (uid gid mask : Z) : result unit :=
  check_access (n_inode n) uid gid [] mask false.

(** ** statvfs and the image description *)
Record statvfs_buf := Statvfs {
  f_bsize : Z; f_frsize : Z; f_blocks : Z; f_bfree : Z; f_bavail : Z;
  f_files : Z; f_ffree : Z; f_favail : Z; f_namemax : Z;
}.
Definition fs_statvfs (img : image) : result statvfs_buf :=
  let s := sb img in
  if (frag_size s =? 0) || (block_size s =? 0) || (frags_per_block s =? 0) then Err EINVAL
  else
    let free_frags := free_block_count s * frags_per_block s + free_frag_count s in
    let reserved_frags := data_frag_count s * minfree s / 100 in
    let avail_frags := if reserved_frags <? free_frags then free_frags - reserved_frags else 0 in
    Ok (Statvfs (block_size s) (frag_size s) (data_frag_count s) free_frags avail_frags
          (cg_count s * inodes_per_group s) (free_inode_count s) (free_inode_count s) 255).

Record image_info := ImageInfo {
  ii_image_size : Z; ii_slice_base : Z; ii_slice_size : Z; ii_label_off : Z;
  ii_label_version : Z; ii_label_secsize : Z; ii_label_front : Z; ii_label_name : list Z;
  ii_rootpartition : Z; ii_used_disk_label : bool; ii_source_is_container : bool;
  ii_source_format : source_format;
}.
Definition image_info_get (img : image) : image_info :=
  ImageInfo (image_size img) (slice_base img) (slice_size img) (img_label_off img)
    (label_version img) (label_secsize img) (label_front img) (label_name img)
    (img_rootpartition img) (used_disk_label img) (source_is_container img)
    (img_source_format img).

(** ** Loading nodes *)
Section node.
Context {C : Type} `{!Backend C}.
Local Abbreviation M := (M (world C)).

Definition node_get_by_inode (img : image) (inode_no : Z) : M node :=
  let! '(ino, off) := inode_read img inode_no in
  ret (Node (node_sector_size (sb img)) inode_no off ino).

Definition directory_iterate_nodes {A} (img : image) (dirino : inode)
    (cb : node -> name -> A -> M (A * bool)) (a : A) : M (A * bool) :=
  directory_iterate img dirino (fun ino nm a =>
    let! n := node_get_by_inode img ino in cb n nm a) a.
End node.

(** ** The decision, bit by bit *)
Inductive class := Owner | Group | Other.
Definition class_of (ino : inode) (uid gid : Z) (groups : list Z) : class :=
  if decide (uid = i_uid ino) then Owner
  else if decide (i_gid ino = gid \/ i_gid ino ∈ groups) then Group else Other.
Definition class_shift (c : class) : Z := match c with Owner => 6 | Group => 3 | Other => 0 end.

(** Read, write and execute are bits 2, 1 and 0 of a request and of a class. *)
Definition granted (ino : inode) (uid gid : Z) (groups : list Z) (mask : Z) : Prop :=
  if decide (uid = 0) then
    Z.testbit mask 0 = true -> exists c, Z.testbit (i_mode ino) (class_shift c) = true
  else
    forall k, 0 <= k < 3 -> Z.testbit mask k = true ->
      Z.testbit (i_mode ino) (class_shift (class_of ino uid gid groups) + k) = true.

Lemma class_perms_spec ino uid gid gs k : 0 <= k < 3 ->
  Z.testbit (class_perms ino uid gid gs) k =
  Z.testbit (i_mode ino) (class_shift (class_of ino uid gid gs) + k).
Proof.
  intros Hk. unfold class_perms, class_of.
  assert (H7 : Z.testbit 7 k = true).
  { assert (k = 0 \/ k = 1 \/ k = 2) as [->|[->| ->]] by lia; done. }
  destruct (Z.eqb_spec uid (i_uid ino)) as [->|Hu].
  { rewrite decide_True, Z.land_spec, Z.shiftr_spec, H7, andb_true_r by (done || lia).
    f_equal. cbn [class_shift]. lia. }
  rewrite (decide_False (P := uid = i_uid ino)) by done.
  assert (Hg : (gid =? i_gid ino) || existsb (fun g => g =? i_gid ino) gs = true <->
    (i_gid ino = gid \/ i_gid ino ∈ gs)).
  { rewrite orb_true_iff, Z.eqb_eq, existsb_exists.
    split; (intros [->|H]; [by left|right]).
    - destruct H as (g & Hin & ->%Z.eqb_eq). by apply list_elem_of_In.
    - eexists. split; [by apply list_elem_of_In|]. lia. }
  destruct ((gid =? _) || _) eqn:E.
  - rewrite decide_True by (by apply Hg). rewrite Z.land_spec, Z.shiftr_spec, H7, andb_true_r by lia.
    f_equal. cbn [class_shift]. lia.
  - rewrite decide_False by (rewrite <- Hg; done). rewrite Z.land_spec, H7, andb_true_r. done.
Qed.

Lemma has_bit mask k : 0 <= k -> has mask (2 ^ k) = Z.testbit mask k.
Proof.
  intros Hk. unfold has. destruct (Z.testbit mask k) eqn:E.
  - destruct (Z.eqb_spec (Z.land mask (2 ^ k)) 0) as [H|H]; [|done].
    assert (Ht : Z.testbit (Z.land mask (2 ^ k)) k = true)
      by (rewrite Z.land_spec, E, Z.pow2_bits_true by lia; done).
    rewrite H, Z.testbit_0_l in Ht. done.
  - destruct (Z.eqb_spec (Z.land mask (2 ^ k)) 0) as [H|H]; [done|]. exfalso. apply H.
    apply Z.bits_inj'. intros j Hj. rewrite Z.land_spec, Z.testbit_0_l.
    destruct (decide (j = k)) as [->|Hne]; [by rewrite E|].
    rewrite Z.pow2_bits_false by lia. apply andb_false_r.
Qed.

Lemma wanted_bits_spec mask k : 0 <= k < 3 ->
  Z.testbit (wanted_bits mask) k = Z.testbit mask k.
Proof.
  intros Hk. unfold wanted_bits. rewrite !Z.lor_spec.
  change R_OK with (2 ^ 2). change W_OK with (2 ^ 1). change X_OK with (2 ^ 0).
  rewrite !has_bit by lia.
  assert (k = 0 \/ k = 1 \/ k = 2) as [->|[->| ->]] by lia;
    destruct (Z.testbit mask 0), (Z.testbit mask 1), (Z.testbit mask 2); done.
Qed.
Lemma wanted_bits_high mask k : 3 <= k -> Z.testbit (wanted_bits mask) k = false.
Proof.
  intros Hk. assert (Hw : wanted_bits mask mod 2 ^ 3 = wanted_bits mask).
  { unfold wanted_bits. by destruct (has mask R_OK), (has mask W_OK), (has mask X_OK). }
  rewrite <- Hw. apply Z.mod_pow2_bits_high. lia.
Qed.

Lemma land_covers p b : Z.land p b = b <-> forall k, 0 <= k -> Z.testbit b k = true -> Z.testbit p k = true.
Proof.
  split.
  - intros H k _ Hb. rewrite <- H, Z.land_spec, andb_true_iff in Hb. apply Hb.
  - intros H. apply Z.bits_inj'. intros k Hk. rewrite Z.land_spec.
    destruct (Z.testbit b k) eqn:E; [rewrite H by done; done|apply andb_false_r].
Qed.

Lemma any_execute mode : Z.land mode 0x49 = 0 <-> ~ exists c, Z.testbit mode (class_shift c) = true.
Proof.
  split.
  - intros H [c Hc]. assert (Ht : Z.testbit (Z.land mode 0x49) (class_shift c) = true).
    { rewrite Z.land_spec, Hc. by destruct c. }
    rewrite H, Z.testbit_0_l in Ht. done.
  - intros H. apply Z.bits_inj'. intros k Hk. rewrite Z.land_spec, Z.testbit_0_l.
    destruct (Z.testbit 0x49 k) eqn:E; [|apply andb_false_r]. rewrite andb_true_r.
    assert (Hk3 : k = 0 \/ k = 3 \/ k = 6).
    { destruct (decide (k < 7)) as [Hlt|Hge].
      - assert (Hc : k ∈ seqZ 0 7) by (apply elem_of_seqZ; lia).
        assert (Hall : forallb (fun k => negb (Z.testbit 0x49 k) ||
          (k =? 0) || (k =? 3) || (k =? 6)) (seqZ 0 7) = true) by reflexivity.
        rewrite forallb_forall in Hall. specialize (Hall k ltac:(by apply list_elem_of_In)).
        rewrite E in Hall. cbn [negb orb] in Hall. lia.
      - rewrite Z.bits_above_log2 in E by (cbn; lia). done. }
    destruct (Z.testbit mode k) eqn:Em; [|done]. exfalso. apply H.
    destruct Hk3 as [->|[->| ->]]; [by exists Other|by exists Group|by exists Owner].
Qed.

Lemma dec_any mode : ~ ~ (exists c, Z.testbit mode (class_shift c) = true) ->
  exists c, Z.testbit mode (class_shift c) = true.
Proof.
  intros H.
  destruct (Z.testbit mode 6) eqn:E6; [by exists Owner|].
  destruct (Z.testbit mode 3) eqn:E3; [by exists Group|].
  destruct (Z.testbit mode 0) eqn:E0; [by exists Other|].
  exfalso. apply H. intros [[] Hc]; cbn [class_shift] in Hc; congruence.
Qed.

(** ** Properties *)

(** The access decision is the permission-class rule: without write permission on
    the mount a write request is EROFS; otherwise the request is granted exactly when
    every requested bit is set for the caller's class (owner before group before
    others), the superuser needing only, for execution, some execute bit; every other
    request is EACCES. *)
Theorem check_access_correct ino uid gid gs mask allow_write :
  let writable := allow_write = true \/ Z.testbit mask 1 = false in
  match check_access ino uid gid gs mask allow_write with
  | Ok _ => writable /\ granted ino uid gid gs mask
  | Err EROFS => ~ writable
  | Err EACCES => writable /\ ~ granted ino uid gid gs mask
  | Err _ => False
  end.
Proof.
  cbv zeta. unfold check_access, granted.
  change W_OK with (2 ^ 1). change X_OK with (2 ^ 0). rewrite !has_bit by lia.
  destruct (negb allow_write && Z.testbit mask 1) eqn:Ew.
  { apply andb_true_iff in Ew as [Ea Eb]. destruct allow_write; [done|]. rewrite Eb. by intros [|]. }
  assert (Hw : allow_write = true \/ Z.testbit mask 1 = false).
  { destruct allow_write; [by left|]. right. by destruct (Z.testbit mask 1). }
  destruct (Z.eqb_spec mask F_OK) as [->|Hm].
  { split; [done|]. unfold F_OK. case_decide; [by rewrite Z.testbit_0_l|].
    intros k _. by rewrite Z.testbit_0_l. }
  destruct (Z.eqb_spec uid 0) as [->|Hu].
  - rewrite decide_True by done. destruct (Z.testbit mask 0) eqn:Ex; cbn [andb].
    + pose proof (any_execute (i_mode ino)) as Hany.
      destruct (Z.eqb_spec (Z.land (i_mode ino) 0x49) 0) as [H|H].
      * split; [done|]. intros Hg. apply Hany in H. by destruct (H (Hg eq_refl)).
      * split; [done|]. intros _. apply dec_any. intros Hno. by apply H, Hany.
    + split; [done|]. done.
  - rewrite decide_False by done.
    destruct (Z.eqb_spec (Z.land (class_perms ino uid gid gs) (wanted_bits mask))
      (wanted_bits mask)) as [H|H].
    + split; [done|]. rewrite land_covers in H. intros k Hk Hb.
      rewrite <- class_perms_spec by done. apply H; [lia|]. by rewrite wanted_bits_spec.
    + split; [done|]. intros Hg. apply H, land_covers. intros k Hk Hb.
      destruct (decide (k < 3)) as [Hlt|Hge]; [|by rewrite wanted_bits_high in Hb by lia].
      rewrite class_perms_spec by lia. apply Hg; [lia|]. by rewrite <- wanted_bits_spec by lia.
Qed.

(** statvfs and the allocator agree on what an ordinary user may still allocate:
    with the counters just read from the image, [f_bavail] is never negative, never
    more than [f_bfree], and reserve_available admits a request exactly when it does
    not exceed [f_bavail] (or fails because the image cannot be read). *)
Theorem statvfs_matches_reserve `{HB : Backend C, HS : !BackendSpec C}
    img img1 st n (w w1 w2 : world C) r
    (Hinv : bk_inv (w_ctx w)) (Husr : unprivileged img = true)
    (Hpct : minfree (sb img1) <= 99) (Hn : 0 < n)
    (Hrefresh : image_refresh img w = (Ok img1, w1))
    (Hst : fs_statvfs img1 = Ok st)
    (Hrun : reserve_available img1 n w1 = (r, w2)) :
  0 <= f_bavail st <= f_bfree st /\
  ((r = Ok tt /\ n <= f_bavail st) \/
   (r = Err ENOSPC /\ f_bavail st < n) \/
   (exists e, r = Err e /\
     fst (read_exact img1 12 (slice_base img1 + 8192 + 0xc4) w1) = Err e)).
Proof.
  unfold image_refresh in Hrefresh. inv_step Hrefresh. inv_step Hrefresh. inv_step Hrun1.
  inv_step Hrefresh. set (s := decode_superblock a) in *.
  pose proof (read_exact_quiet _ _ _ _ _ _ Hrun0) as Hq.
  pose proof (read_exact_ok _ _ _ _ _ _ Hrun0 Hinv) as (_ & _ & Hb). rewrite w64_small in Hb by lia.
  unfold reserve_available in Hrun. cbn [unprivileged with_sb] in Hrun. rewrite Husr in Hrun.
  cbn [negb sb slice_base with_sb] in *.
  destruct (Z.ltb_spec 99 (minfree s)); [lia|].
  unfold fs_statvfs in Hst. cbn [sb with_sb] in Hst. destruct (_ || _) in Hst; [done|].
  set (free := free_block_count s * frags_per_block s + free_frag_count s) in *.
  set (reserved := data_frag_count s * minfree s / 100) in *.
  set (avail := if reserved <? free then free - reserved else 0) in *.
  assert (Hbf : f_bfree st = free /\ f_bavail st = avail) by (by injection Hst as <-).
  destruct Hbf as [-> ->]. clear Hst.
  pose proof (decode_superblock_wf a (read_exact_wf _ _ _ _ _ _ Hrun0 Hinv)) as Hs.
  fold s in Hs.
  assert (Hfree : 0 <= free).
  { pose proof (wf_free_block_count _ Hs). pose proof (wf_frags_per_block _ Hs).
    pose proof (wf_free_frag_count _ Hs). unfold free. nia. }
  assert (Hres : 0 <= reserved).
  { apply Z.div_pos; [|lia]. pose proof (wf_data_frag_count _ Hs). pose proof (wf_minfree _ Hs). nia. }
  assert (Havail : 0 <= avail <= free /\ (free < reserved -> avail = 0) /\
    (reserved <= free -> avail = free - reserved)).
  { unfold avail. destruct (Z.ltb_spec reserved free); lia. }
  split; [apply Havail|].
  apply bind_inv in Hrun as [(b & w3 & Hrd & Hrun)|(e & Hrd & ->)].
  2: { right. right. exists e. split; [done|]. by rewrite Hrd. }
  apply read_exact_ok in Hrd as (_ & _ & Hb'); [|by apply Hq]. rewrite w64_small in Hb' by lia.
  assert (Hsame : forall j, 0 <= j < 12 -> b j = a (0xc4 + j)).
  { intros j Hj. rewrite Hb', Hb by lia. unfold slice.
    rewrite (quiet_view _ _ Hq Hinv _). f_equal. unfold UFS_SBLOCK_OFFSET. lia. }
  assert (Ht0 : read_be32 b 0 = free_block_count s).
  { unfold s. cbn [free_block_count decode_superblock]. unfold read_be32. rewrite !Hsame by lia. done. }
  assert (Ht8 : read_be32 b 8 = free_frag_count s).
  { unfold s. cbn [free_frag_count decode_superblock]. unfold read_be32. rewrite !Hsame by lia. done. }
  rewrite Ht0, Ht8 in Hrun. fold free reserved in Hrun. unfold fail_if in Hrun.
  destruct (Z.ltb_spec free reserved), (Z.ltb_spec (free - reserved) n); cbn [orb] in Hrun;
    injection Hrun as <- _; [right; left|right; left|right; left|left]; split; try done;
    destruct Havail as (? & ? & ?); lia.

Qed.

(** ** Witness *)
Definition user_image : image := with_flags mini_image true false false.
Lemma statvfs_matches_reserve_witness :
  let run1 := image_refresh user_image tree_world in
  match fst run1 with
  | Ok img1 =>
      match fs_statvfs img1 with
      | Ok st => fst (reserve_available img1 9 (snd run1)) = Ok tt /\ 9 <= f_bavail st
      | Err _ => False
      end
  | Err _ => False
  end.
Proof.
  intros run1. assert (Hk : is_ok (fst run1) = true) by (vm_compute; reflexivity).
  destruct (fst run1) as [img1|e] eqn:E1; [|discriminate Hk].
  assert (Hm : match fst run1 with Ok i => minfree (sb i) | _ => 100 end = 10) by (vm_compute; reflexivity).
  assert (Hr : match fst run1 with Ok i => fst (reserve_available i 9 (snd run1)) | Err e => Err e end
               = Ok tt) by (vm_compute; reflexivity).
  assert (Hs : match fst run1 with Ok i => is_ok (fs_statvfs i) | _ => false end = true)
    by (vm_compute; reflexivity).
  rewrite E1 in Hm, Hr, Hs. destruct (fs_statvfs img1) as [st|e] eqn:Est; [|discriminate Hs].
  split; [exact Hr|].
  destruct (statvfs_matches_reserve user_image img1 st 9 tree_world (snd run1)
    (snd (reserve_available img1 9 (snd run1))) (Ok tt)) as [_ H].
  - exact tree_world_inv.
  - reflexivity.
  - rewrite Hm. discriminate.
  - reflexivity.
  - rewrite <- E1. apply surjective_pairing.
  - exact Est.
  - rewrite <- Hr. apply surjective_pairing.
  - destruct H as [[_ H]|[[H _]|(e & H & _)]]; [exact H|discriminate H|discriminate H].
Defined.
