(* ===== verification/Path.v ===== *)
(** * Paths

    nextufs__path_split of src/src/core/layout.c, the lookup of
    src/src/core/path.c and the path-based entry points of src/src/core/node.c.
    A path is the list of its bytes, without the terminating zero.  The recursion
    on symbolic links is bounded by the code's own depth limit. *)
From S2P Require Import Prelude.
From S2P Require Import Bytes.
From S2P Require Import Backend.
From S2P Require Import Superblock.
From S2P Require Import Image.
From S2P Require Import Inode.
From S2P Require Import BlockMap.
From S2P Require Import FileIO.
From S2P Require Import Dirent.
From S2P Require Import Directory.
From S2P Require Import Node.

Definition NEXTUFS_MAX_LOOKUP_DEPTH : nat := 16.
Definition NEXTUFS_MAX_PATH_LEN : Z := 4096.

(** ** Strings *)

(** [strrchr(s, '/')]: the part before and the part after. *)
Fixpoint strrchr_slash (s : name) : option (name * name) :=
  match s with
  | [] => None
  | c :: s =>
      match strrchr_slash s with
      | Some (before, after) => Some (c :: before, after)
      | None => if c =? slash then Some ([], s) else None
      end
  end.
Definition path_split (path : name) (parent_size name_size : Z) : result (name * name) :=
  match path with
  | [] => Err EINVAL
  | c :: _ =>
      if negb (c =? slash) then Err EINVAL
      else
        match strrchr_slash path with
        | None | Some (_, []) => Err EINVAL
        | Some (parent, nm) =>
            if name_size <=? strlen nm then Err ENAMETOOLONG
            else
              match parent with
              | [] => if parent_size <? 2 then Err ENAMETOOLONG else Ok ([slash], nm)
              | _ => if parent_size <? strlen parent + 1 then Err ENAMETOOLONG
                     else Ok (parent, nm)
              end
        end
  end.

(** The segments strsep delivers, each with the value of the cursor after it. *)
Fixpoint segments (s : name) : list (name * option name) :=
  match s with
  | [] => [([], None)]
  | c :: s =>
      if c =? slash then ([], Some s) :: segments s
      else
        match segments s with
        | (a, r) :: l => (c :: a, r) :: l
        | [] => []
        end
  end.
Fixpoint skip_slashes (s : name) : name :=
  match s with
  | c :: s' => if c =? slash then skip_slashes s' else s
  | [] => []
  end.

(** snprintf into a path buffer *)
Definition fits (s : name) : result name :=
  if NEXTUFS_MAX_PATH_LEN <=? strlen s then Err ENAMETOOLONG else Ok s.
Definition append_path_component (path component : name) : result name :=
  fits (if bool_decide (path = [slash]) || bool_decide (path = [])
        then slash :: component else path ++ slash :: component).
Definition remainder_of (cursor : option name) : name :=
  match cursor with Some s => s | None => [] end.
Definition follow_path (prefix link_target remainder : name) : result name :=
  let rest := match remainder with [] => [] | _ => slash :: remainder end in
  match link_target with
  | c :: _ => if c =? slash then fits (link_target ++ rest)
              else fits (prefix ++ slash :: link_target ++ rest)
  | [] => fits (prefix ++ slash :: link_target ++ rest)
  end.

(** ** Lookup *)
Record found := Found { fd_no : Z; fd_inode : inode; fd_off : Z }.

(** Search permission is demanded of users only. *)
Definition search_allowed (ctx : option write_ctx) (ino : inode) : result unit :=
  match ctx with
  | Some c =>
      if decide (policy c = NEXTUFS_WRITE_USER)
      then check_access ino (c_uid c) (c_gid c) (groups c) X_OK true
      else Ok tt
  | None => Ok tt
  end.
Definition is_final (cursor : option name) : bool :=
  match cursor with None | Some [] => true | _ => false end.
Definition followed (follow : bool) (ino : inode) (cursor : option name) : bool :=
  is_lnk ino && (if is_final cursor then follow else true).

Section lookup.
Context {C : Type} `{!Backend C}.
Local Abbreviation M := (M (world C)).
Variables (img : image) (follow_final_symlink : bool) (ctx : option write_ctx).

Definition read_link_target (ino : inode) : M name :=
  let! '(out, got) := map_err EIO (inode_readlink img ino NEXTUFS_MAX_PATH_LEN) in
  ret (upto_nul (bytes_at out 0 got)).

(** One pass over the segments; [again] starts over with a rewritten path. *)
Fixpoint walk (again : name -> M found) (l : list (name * option name))
    (cur : found) (prefix : name) : M found :=
  match l with
  | [] => ret cur
  | ([], _) :: l => walk again l cur prefix
  | (segment, cursor) :: l =>
      fail_if (negb (is_dir (fd_inode cur))) ENOTDIR ;;;
      of_result (search_allowed ctx (fd_inode cur)) ;;;
      let! next := map_err EIO (find_name_in_directory img (fd_inode cur) segment) in
      fail_if (next =? 0) ENOENT ;;;
      let! '(ino, off) := map_err EIO (inode_read img next) in
      let! remainder := of_result (fits (remainder_of cursor)) in
      if followed follow_final_symlink ino cursor then
        let! link_target := read_link_target ino in
        let! new_path := of_result (follow_path prefix link_target remainder) in
        again new_path
      else
        let! prefix := of_result (append_path_component prefix segment) in
        walk again l (Found next ino off) prefix
  end.

(** [fuel] is how many more times the routine may be entered. *)
Fixpoint lookup_path_recursive (fuel : nat) (path : name) : M found :=
  match fuel with
  | O => fail ELOOP
  | S fuel =>
      let! '(ino, off) := map_err EIO (inode_read img NEXTUFS_ROOT_INODE) in
      let root := Found NEXTUFS_ROOT_INODE ino off in
      match skip_slashes path with
      | [] => ret root
      | path =>
          malloc (strlen path + 1) ;;;
          walk (lookup_path_recursive fuel) (segments path) root [slash]
      end
  end.
Definition lookup_path : name -> M found :=
  lookup_path_recursive (S NEXTUFS_MAX_LOOKUP_DEPTH).
End lookup.

(** ** Entry points *)
Section entry_points.
Context {C : Type} `{!Backend C}.
Local Abbreviation M := (M (world C)).

Definition path_lookup (img : image) (path : name) : M found := lookup_path img true None path.
Definition path_lookup_nofollow (img : image) (path : name) : M found :=
  lookup_path img false None path.
Definition node_of_found (img : image) (f : found) : node :=
  Node (node_sector_size (sb img)) (fd_no f) (fd_off f) (fd_inode f).
Definition node_lookup_as (ctx : write_ctx) (img : image) (path : name) (follow : bool)
    : M node :=
  let! f := lookup_path img follow (Some ctx) path in ret (node_of_found img f).
Definition node_lookup (img : image) (path : name) (follow : bool) : M node :=
  let! f := if follow then path_lookup img path else path_lookup_nofollow img path in
  ret (node_of_found img f).
Definition node_get_root (img : image) : M node := node_lookup img [slash] true.

Definition path_readlink (img : image) (path : name) (out_size : Z) : M (buf * Z) :=
  let! n := node_lookup img path false in inode_readlink img (n_inode n) out_size.
Definition directory_iterate_path {A} (img : image) (path : name) (follow : bool)
    (cb : Z -> name -> A -> M (A * bool)) (a : A) : M (A * bool) :=
  let! n := node_lookup img path follow in
  if negb (node_is_dir n) then fail ENOTDIR else directory_iterate img (n_inode n) cb a.
Definition directory_iterate_nodes_path {A} (img : image) (path : name) (follow : bool)
    (cb : node -> name -> A -> M (A * bool)) (a : A) : M (A * bool) :=
  let! n := node_lookup img path follow in
  if negb (node_is_dir n) then fail ENOTDIR else directory_iterate_nodes img (n_inode n) cb a.
Definition path_read (img : image) (path : name) (start buf_size : Z) : M (buf * Z) :=
  let! n := node_lookup img path true in
  if negb (node_is_reg n) then fail EINVAL else inode_read_data img (n_inode n) start buf_size.
End entry_points.

(** ** Frames: lookups only read *)
Section path_frames.
Context {C : Type} `{HB : Backend C, HS : !BackendSpec C}.
Variable (img : image).
Local Abbreviation quietly := (Stable (quiet (C:=C))).

Lemma read_link_target_quiet ino : quietly (read_link_target img ino).
Proof. unfold read_link_target. solve_stable. Qed.
Local Hint Resolve read_link_target_quiet : stable.
Lemma walk_quiet follow ctx again : (forall p, quietly (again p)) -> forall l cur prefix,
  quietly (walk img follow ctx again l cur prefix).
Proof.
  intros Hag. induction l as [|[[|x a] c] l IH]; intros cur prefix; cbn [walk]; [solve_stable|done|].
  solve_stable; by auto.
Qed.
Lemma lookup_recursive_quiet follow ctx depth : forall p,
  quietly (lookup_path_recursive img follow ctx depth p).
Proof.
  induction depth as [|depth IH]; intros p; cbn [lookup_path_recursive]; [solve_stable|].
  pose proof (walk_quiet follow ctx _ IH). solve_stable.
Qed.
Lemma lookup_quiet follow ctx p : quietly (lookup_path img follow ctx p).
Proof. apply lookup_recursive_quiet. Qed.
Local Hint Resolve lookup_quiet : stable.
Lemma node_lookup_as_quiet ctx p follow : quietly (node_lookup_as ctx img p follow).
Proof. unfold node_lookup_as. solve_stable. Qed.
Lemma node_get_by_inode_quiet no : quietly (node_get_by_inode img no).
Proof. unfold node_get_by_inode. solve_stable. Qed.
End path_frames.
#[export] Hint Resolve read_link_target_quiet lookup_quiet node_lookup_as_quiet
  node_get_by_inode_quiet : stable.
