(* ===== verification/VdiParent.v ===== *)
(** * The parent of a differencing VDI image

    nextufs_vdi_find_parent of src/src/core/image.c: the VDI file with the wanted UUID is
    looked for in the image's directory and in the one above.  Directories ([opendir] and
    [readdir]), files and [stat] are the host's: parameters of the search. *)
From S2P Require Import Prelude.
From S2P Require Import Bytes.
From S2P Require Import Backend.
From S2P Require Import Vdi.
From S2P Require Import Dirent.
From S2P Require Import Path.

Definition MAX_PATH : Z := 4096.
Definition VDI_UUID_IMAGE_OFF : Z := 0x188.
Definition dot_vdi : name := [46; 118; 100; 105].

Definition path_dirname (path : name) (out_size : Z) : result name :=
  match strrchr_slash path with
  | None => if out_size <? 2 then Err ENAMETOOLONG else Ok [dot]
  | Some (before, _) =>
      let dir := match before with [] => [slash] | _ => before end in
      if out_size <? strlen dir + 1 then Err ENAMETOOLONG else Ok dir
  end.

Section search.
Variable listing : name -> result (list name).      (* opendir, readdir *)
Variable host : name -> result file.                (* open for reading *)
Variable same_node : name -> name -> bool.          (* stat of both: one and the same file *)

Definition vdi_uuid_matches (path : name) (target_uuid : list Z) : bool :=
  match host path with
  | Err _ => false
  | Ok f =>
      match fst (read_exact_fd (VDI_UUID_PARENT_OFF + 16) 0 f) with
      | Err _ => false
      | Ok hdr =>
          (read_le32 hdr VDI_SIG_OFF =? VDI_SIGNATURE) &&
          bool_decide (bytes_at hdr VDI_UUID_IMAGE_OFF 16 = target_uuid)
      end
  end.

Definition named_vdi (d_name : name) : bool :=
  negb (bool_decide (head d_name = Some dot)) && (4 <=? strlen d_name) &&
  bool_decide (skipn (length d_name - 4) d_name = dot_vdi).
(** The entry is looked at and has the wanted UUID. *)
Definition wanted (dir self_path : name) (uuid : list Z) (d_name : name) : bool :=
  let candidate := dir ++ slash :: d_name in
  named_vdi d_name && (strlen dir + 1 + strlen d_name + 1 <=? MAX_PATH) &&
  negb (bool_decide (candidate = self_path)) && vdi_uuid_matches candidate uuid.
Fixpoint search_entries (out : name) (out_size : Z) (dir self_path : name) (uuid : list Z)
    (entries : list name) : result name :=
  match entries with
  | [] => match out with [] => Err ENOENT | _ => Ok out end
  | d_name :: entries =>
      let candidate := dir ++ slash :: d_name in
      if negb (wanted dir self_path uuid d_name)
      then search_entries out out_size dir self_path uuid entries
      else if out_size <? strlen candidate + 1 then Err ENAMETOOLONG
      else
        match out with
        | [] => search_entries candidate out_size dir self_path uuid entries
        | _ => if negb (same_node out candidate) then Err EEXIST
               else search_entries out out_size dir self_path uuid entries
        end
  end.
Definition vdi_search_dir (out : name) (out_size : Z) (dir self_path : name) (uuid : list Z)
    : result name :=
  match listing dir with
  | Err e => Err e
  | Ok entries => search_entries out out_size dir self_path uuid entries
  end.
Definition vdi_find_parent (out_size : Z) (path : name) (uuid : list Z) : result name :=
  match path_dirname path MAX_PATH with
  | Err e => Err e
  | Ok dir =>
      let above (out : name) :=
        match path_dirname dir MAX_PATH with
        | Err e => Err e
        | Ok parent_dir =>
            if bool_decide (parent_dir = dir)
            then match out with [] => Err ENOENT | _ => Ok out end
            else vdi_search_dir out out_size parent_dir path uuid
        end in
      match vdi_search_dir [] out_size dir path uuid with
      | Ok out => above out
      | Err ENOENT => above []
      | Err e => Err e
      end
  end.

(** ** What is found *)

(** The files of a directory that qualify *)
Definition qualifying (path : name) (uuid : list Z) (dir : name) (c : name) : Prop :=
  exists entries d_name, listing dir = Ok entries /\ d_name ∈ entries /\
    wanted dir path uuid d_name = true /\ c = dir ++ slash :: d_name.

Lemma search_entries_ok out_size dir self uuid entries : forall out found,
  search_entries out out_size dir self uuid entries = Ok found ->
  found <> [] /\
  (out <> [] -> found = out) /\
  (out = [] -> exists d, d ∈ entries /\ wanted dir self uuid d = true /\ found = dir ++ slash :: d) /\
  (forall d, d ∈ entries -> wanted dir self uuid d = true ->
     found = dir ++ slash :: d \/ same_node found (dir ++ slash :: d) = true).
Proof.
  induction entries as [|x entries IH]; intros out found H; cbn [search_entries] in H.
  { destruct out; [done|]. injection H as <-. split_and!; try done. intros d Hd. by apply elem_of_nil in Hd. }
  destruct (wanted dir self uuid x) eqn:Ew; cbn [negb] in H.
  - destruct (out_size <? _); [done|]. destruct out as [|o out].
    + apply IH in H as (H1 & H2 & _ & H4).
      assert (Hf : found = dir ++ slash :: x) by (apply H2; by destruct dir).
      split_and!; try done.
      * intros _. exists x. split_and!; [by left|done|done].
      * intros d [->|Hd]%elem_of_cons Hw; [by left|by apply H4].
    + destruct (same_node _ _) eqn:Es; cbn [negb] in H; [|done].
      apply IH in H as (H1 & H2 & _ & H4). rewrite H2 in * by done.
      split_and!; try done. intros d [->|Hd]%elem_of_cons Hw; [by right|by apply H4].
  - apply IH in H as (H1 & H2 & H3 & H4). split_and!; try done.
    + intros Ho. destruct (H3 Ho) as (d & Hd & Hw & Hf). exists d. split_and!; [by right|done|done].
    + intros d [->|Hd]%elem_of_cons Hw; [congruence|by apply H4].
Qed.
Lemma vdi_search_dir_ok out out_size dir self uuid found :
  vdi_search_dir out out_size dir self uuid = Ok found ->
  found <> [] /\ (out <> [] -> found = out) /\ (out = [] -> qualifying self uuid dir found) /\
  (forall c, qualifying self uuid dir c -> found = c \/ same_node found c = true).
Proof.
  unfold vdi_search_dir. intros H. destruct (listing dir) as [entries|e] eqn:El; [|done].
  apply search_entries_ok in H as (H1 & H2 & H3 & H4). split_and!; try done.
  - intros Ho. destruct (H3 Ho) as (d & Hd & Hw & Hf). by exists entries, d.
  - intros c (es & d & He & Hd & Hw & ->). rewrite El in He. injection He as ->. by apply H4.
Qed.

(** ENOENT means that nothing qualifies. *)
Lemma search_entries_none out_size dir self uuid entries : forall out,
  search_entries out out_size dir self uuid entries = Err ENOENT ->
  out = [] /\ forall d, d ∈ entries -> wanted dir self uuid d = false.
Proof.
  induction entries as [|x entries IH]; intros out H; cbn [search_entries] in H.
  { destruct out; [|done]. split; [done|]. intros d Hd. by apply elem_of_nil in Hd. }
  destruct (wanted dir self uuid x) eqn:Ew; cbn [negb] in H.
  - destruct (out_size <? _); [done|]. destruct out as [|o out].
    + apply IH in H as [H _]. by destruct dir.
    + destruct (same_node _ _); cbn [negb] in H; [|done]. by apply IH in H as [H _].
  - apply IH in H as [Ho H]. split; [done|]. intros d [->|Hd]%elem_of_cons; [done|by apply H].
Qed.
Lemma vdi_search_dir_none out out_size dir self uuid c :
  vdi_search_dir out out_size dir self uuid = Err ENOENT -> ~ qualifying self uuid dir c.
Proof.
  unfold vdi_search_dir. intros H (es & d & He & Hd & Hw & ->). rewrite He in H.
  apply search_entries_none in H as [_ H]. by rewrite (H _ Hd) in Hw.
Qed.
Lemma qualifying_file path uuid dir c :
  qualifying path uuid dir c -> c <> path /\ vdi_uuid_matches c uuid = true.
Proof.
  intros (es & d & _ & _ & Hw & ->). unfold wanted in Hw. rewrite !andb_true_iff in Hw.
  destruct Hw as [[_ Hs] Hu]. split; [|done]. by apply negb_true_iff, bool_decide_eq_false in Hs.
Qed.

(** ** Properties *)

(** The parent found for a differencing image is the right one: it is a VDI file with the
  wanted UUID, other than the image itself, listed in the image's directory or in the one
  above, and every other such file of the two directories is the same file under another
  name. *)
Theorem vdi_find_parent_correct out_size path uuid found
    (Hrun : vdi_find_parent out_size path uuid = Ok found) :
  found <> path /\ vdi_uuid_matches found uuid = true /\
  exists dir parent_dir, path_dirname path MAX_PATH = Ok dir /\
    path_dirname dir MAX_PATH = Ok parent_dir /\
    (qualifying path uuid dir found \/ qualifying path uuid parent_dir found) /\
    (forall c, qualifying path uuid dir c \/ qualifying path uuid parent_dir c ->
       found = c \/ same_node found c = true).
Proof.
  unfold vdi_find_parent in Hrun. destruct (path_dirname path MAX_PATH) as [dir|e] eqn:Ed; [|done].
  cbv zeta in Hrun. destruct (path_dirname dir MAX_PATH) as [pd|e'] eqn:Ep;
    destruct (vdi_search_dir [] out_size dir path uuid) as [out|e] eqn:Es; try done; try by destruct e.
  - apply vdi_search_dir_ok in Es as (Hne & _ & Hq & Hall). specialize (Hq eq_refl).
    assert (Hf : found = out /\ forall c, qualifying path uuid pd c -> out = c \/ same_node out c = true).
    { case_bool_decide as Epd.
      - destruct out; [done|]. injection Hrun as <-. subst pd. by split.
      - apply vdi_search_dir_ok in Hrun as (_ & Ho & _ & Hall2). by rewrite (Ho Hne) in *. }
    destruct Hf as [-> Hup]. destruct (qualifying_file _ _ _ _ Hq). split_and!; [done|done|].
    exists dir, pd. split_and!; [done|done|by left|]. intros c [Hc|Hc]; auto.
  - destruct e; try done. case_bool_decide as Epd; [done|].
    apply vdi_search_dir_ok in Hrun as (Hne & _ & Hq & Hall). specialize (Hq eq_refl).
    destruct (qualifying_file _ _ _ _ Hq). split_and!; [done|done|].
    exists dir, pd. split_and!; [done|done|by right|].
    intros c [Hc|Hc]; [by apply (vdi_search_dir_none _ _ _ _ _ _ Es) in Hc|by apply Hall].
Qed.
End search.

(** ** A small host: /d holds the image a.vdi and its parent b.vdi *)
Definition small_path : name := [47; 100; 47; 97; 46; 118; 100; 105].
Definition small_parent : name := [47; 100; 47; 98; 46; 118; 100; 105].
Definition small_uuid : list Z := repeat 7 16.
Definition small_listing (dir : name) : result (list name) :=
  if bool_decide (dir = [47; 100])
  then Ok [[dot]; [97; 46; 118; 100; 105]; [98; 46; 118; 100; 105]; [99]]
  else if bool_decide (dir = [47]) then Ok [[100]] else Err ENOENT.
Definition small_host (path : name) : result file :=
  if bool_decide (path = small_parent)
  then Ok (File (fill (write_le32 zeros VDI_SIG_OFF VDI_SIGNATURE) VDI_UUID_IMAGE_OFF 7 16) 512 [] [])
  else Err ENOENT.
Definition small_same (a b : name) : bool := bool_decide (a = b).

Lemma vdi_find_parent_correct_witness :
  small_parent <> small_path /\ vdi_uuid_matches small_host small_parent small_uuid = true /\
  exists dir parent_dir, path_dirname small_path MAX_PATH = Ok dir /\
    path_dirname dir MAX_PATH = Ok parent_dir /\
    (qualifying small_listing small_host small_path small_uuid dir small_parent \/
     qualifying small_listing small_host small_path small_uuid parent_dir small_parent) /\
    (forall c, qualifying small_listing small_host small_path small_uuid dir c \/
               qualifying small_listing small_host small_path small_uuid parent_dir c ->
       small_parent = c \/ small_same small_parent c = true).
Proof.
  apply (vdi_find_parent_correct small_listing small_host small_same MAX_PATH).
  vm_compute. reflexivity.
Defined.
