(* ===== verification/QcowOpen.v ===== *)
(** * Opening QCOW2 images and their backing chains

    nextufs__qcow2_open and qcow_open of src/src/core/qcow2.c: header, extensions, the
    validation of all tables against the refcounts, and the chain of backing files.  The
    host's answer for a path (open, lock, fstat) is a parameter.  [chain n] is a backing
    chain of at most [n] images. *)
From S2P Require Import Prelude.
From S2P Require Import Bytes.
From S2P Require Import Backend.
From S2P Require Import Qcow.
From S2P Require Import Dirent.
From S2P Require Import Path.

Definition QCOW_MAX_DEPTH : nat := 32.
Definition INT64_MAX : Z := 2 ^ 63 - 1.
Definition MAX_PATH : Z := 4096.

(** What the host says about an opened path; [so_heap] are the outcomes of the allocations
    made while the file is in use. *)
Record source := Source {
  so_file : file;
  so_regular : bool;          (* S_ISREG *)
  so_id : Z * Z;              (* st_dev, st_ino *)
  so_heap : list bool;
}.

Section open.
Context {P : Type} `{!Backend P}.
Local Abbreviation M := (M (qcow P)).

(** ** The tables *)

(** Metadata may not alias anything.  Shared data clusters are valid COW inputs. *)
Definition bad_alias (old tag : Z) : bool :=
  negb (old =? 0) && (negb (tag =? old) || (negb (tag =? 2) && negb (tag =? 3))).
Definition mark_cluster (tag i : Z) (expected : Z -> Z) : M (Z -> Z) :=
  let! q := get_q in
  if bad_alias (q_tags q i) tag then fail EINVAL
  else if expected i =? UINT16_MAX then fail EINVAL
  else
    modify (fun q => set_tags q (set_at (q_tags q) i tag)) ;;;
    ret (set_at expected i (expected i + 1)).
Definition clusters_of (q : qcow P) (bytes : Z) : Z :=
  (bytes + q_cluster_size q - 1) / q_cluster_size q.
Definition mark_region (expected : Z -> Z) (off bytes tag : Z) : M (Z -> Z) :=
  let! q := get_q in
  if negb (off mod q_cluster_size q =? 0) || negb (range_valid q off bytes) then fail EINVAL
  else
    let first := off / q_cluster_size q in
    let count := clusters_of q bytes in
    if (q_host_count q <? first) || (q_host_count q - first <? count) then fail EINVAL
    else fold_each (seqZ first count) (mark_cluster tag) expected.

Definition load_refcount (block : buf) (i j : Z) : M unit :=
  let! q := get_q in
  let n := i * refs_per_block q + j in
  let value := read_be16 block (j * 2) in
  if n <? q_host_count q then modify (fun q => set_refs q (set_at (q_refs q) n value))
  else fail_if (negb (value =? 0)) EINVAL.
Definition check_ref_block (i : Z) (expected : Z -> Z) : M (Z -> Z) :=
  let! q := get_q in
  let off := q_ref_table q i in
  if off =? 0 then ret expected
  else
    let! expected := mark_region expected off (q_cluster_size q) 1 in
    let! block := read_at (q_cluster_size q) off in
    for_each (seqZ 0 (refs_per_block q)) (load_refcount block i) ;;;
    ret expected.
(** An address is that of a cluster of the file, and its copied flag says whether the
    cluster has one reference. *)
Definition bad_address (q : qcow P) (entry : Z) : bool :=
  let off := offset_of entry in
  negb (off mod q_cluster_size q =? 0) || negb (range_valid q off (q_cluster_size q)) ||
  negb (Bool.eqb (has_flag entry QCOW_COPIED) (q_refs q (off / q_cluster_size q) =? 1)).
Definition reserved_bits (entry flags : Z) : bool := negb (Z.ldiff entry flags =? 0).
Definition check_l2_entry (block : buf) (j : Z) (expected : Z -> Z) : M (Z -> Z) :=
  let! q := get_q in
  let e := be64 block (j * 8) in
  let data := offset_of e in
  if has_flag e QCOW_COMPRESSED then fail ENOTSUP
  else if reserved_bits e (Z.lor (Z.lor QCOW_OFFSET QCOW_COPIED) QCOW_ZERO) ||
          ((q_version q =? 2) && has_flag e QCOW_ZERO) ||
          ((data =? 0) && has_flag e QCOW_COPIED) then fail EINVAL
  else if data =? 0 then ret expected
  else if bad_address q e then fail EINVAL
  else mark_region expected data (q_cluster_size q) 2.
Definition check_l1_entry (i : Z) (expected : Z -> Z) : M (Z -> Z) :=
  let! q := get_q in
  let entry := q_l1 q i in
  let off := offset_of entry in
  if reserved_bits entry (Z.lor QCOW_OFFSET QCOW_COPIED) || ((off =? 0) && negb (entry =? 0))
  then fail EINVAL
  else if off =? 0 then ret expected
  else if bad_address q entry then fail EINVAL
  else
    let! expected := mark_region expected off (q_cluster_size q) 3 in
    let! block := read_at (q_cluster_size q) off in
    fold_each (seqZ 0 (entries_per_l2 q)) (check_l2_entry block) expected.
Definition validate_tables : M unit :=
  let! c := attempt q_alloc in
  let! m := attempt q_alloc in
  if negb (is_ok c) || negb (is_ok m) then fail ENOMEM
  else
    let! q := get_q in
    let! expected := mark_region (fun _ => 0) 0 (q_cluster_size q) 1 in
    let! expected := mark_region expected (q_l1_offset q) (q_l1_size q * 8) 1 in
    let! expected := mark_region expected (q_ref_offset q) (q_ref_clusters q * q_cluster_size q) 1 in
    let! expected := fold_each (seqZ 0 (q_ref_entries q)) check_ref_block expected in
    let! expected := fold_each (seqZ 0 (q_l1_size q)) check_l1_entry expected in
    let! q := get_q in
    fail_if (negb (forallb (fun i => expected i =? q_refs q i) (seqZ 0 (q_host_count q)))) EINVAL.

(** ** The header *)
Definition header_len (hdr : buf) : Z :=
  if read_be32 hdr 4 =? 2 then 72 else read_be32 hdr 100.
Definition cluster_bits (hdr : buf) : Z := read_be32 hdr 20.
Definition backing_off (hdr : buf) : Z := be64 hdr 8.
Definition backing_len (hdr : buf) : Z := read_be32 hdr 16.
Definition fresh_qcow (src : source) (writable : bool) (heap : list bool) : qcow P :=
  Qcow (so_file src) false writable false false false false 0 0 0 0 0 (f_size (so_file src)) 0 0
    (fun _ => 0) (fun _ => 0) 0 0 0 (fun _ => 0) (fun _ => 0) (fun _ => false) None heap.
Definition as_raw (q : qcow P) : qcow P :=
  Qcow (q_file q) true (q_writable q) false false false false 0 0 0 0 (q_file_size q)
    (q_file_size q) 0 0 (fun _ => 0) (fun _ => 0) 0 0 0 (fun _ => 0) (fun _ => 0)
    (fun _ => false) None (q_heap q).
Definition with_header (q : qcow P) (hdr : buf) : qcow P :=
  let cluster_size := Z.shiftl 1 (cluster_bits hdr) in
  let host_count := (q_file_size q + cluster_size - 1) / cluster_size in
  Qcow (q_file q) false (q_writable q) false false false false (read_be32 hdr 4) cluster_size
    (read_be32 hdr 36) (read_be32 hdr 56) (be64 hdr 24) (q_file_size q) (be64 hdr 40) (be64 hdr 48)
    (fun _ => 0) (fun _ => 0) (read_be32 hdr 56 * (cluster_size / 8)) host_count host_count
    (fun _ => 0) (fun _ => 0) (fun _ => false) None (q_heap q).
Definition unsupported_header (hdr : buf) : bool :=
  (negb (read_be32 hdr 4 =? 2) && negb (read_be32 hdr 4 =? 3)) ||
  (cluster_bits hdr <? 9) || (21 <? cluster_bits hdr) ||
  negb (read_be32 hdr 32 =? 0) || negb (read_be32 hdr 60 =? 0) ||
  ((read_be32 hdr 4 =? 3) &&
   (negb (be64 hdr 72 =? 0) || negb (be64 hdr 80 =? 0) || negb (be64 hdr 88 =? 0) ||
    negb (read_be32 hdr 96 =? 4))).
Definition bad_header (q : qcow P) (hdr : buf) : bool :=
  (q_size q =? 0) || (INT64_MAX <? q_size q) || (q_l1_size q =? 0) ||
  (QCOW_MAX_L1_BYTES <? q_l1_size q * 8) ||
  (q_ref_clusters q =? 0) || (QCOW_MAX_REF_BYTES <? q_ref_clusters q * q_cluster_size q) ||
  (header_len hdr <? (if q_version q =? 2 then 72 else 104)) ||
  negb (Z.land (header_len hdr) 7 =? 0) || (q_cluster_size q <? header_len hdr) ||
  negb (range_valid q 0 (q_cluster_size q)) ||
  (q_l1_size q * entries_per_l2 q <?
     q_size q / q_cluster_size q + (if q_size q mod q_cluster_size q =? 0 then 0 else 1)) ||
  (negb (backing_off hdr =? 0) &&
   ((backing_len hdr =? 0) || (1023 <? backing_len hdr) || (backing_off hdr <? header_len hdr) ||
    (q_cluster_size q <? backing_off hdr) ||
    (q_cluster_size q - backing_off hdr <? backing_len hdr))).

Definition load_l1 (i : Z) : M unit :=
  let! q := get_q in
  let! entry := read_u64 (w64 (q_l1_offset q + i * 8)) in
  modify (fun q => set_l1 q (set_at (q_l1 q) i entry)).
Definition load_ref_table (i : Z) : M unit :=
  let! q := get_q in
  let! entry := read_u64 (w64 (q_ref_offset q + i * 8)) in
  modify (fun q => set_ref_table q (set_at (q_ref_table q) i entry)).

(** Extensions occupy the first cluster up to the backing filename; the backing format is
    remembered. *)
Definition str_raw : name := [114; 97; 119].
Definition str_qcow2 : name := [113; 99; 111; 119; 50].
Fixpoint extensions (fuel : nat) (ext ext_end : Z) (format : name) : M name :=
  if negb (ext + 8 <=? ext_end) then ret format
  else
    match fuel with
    | O => fail EIO
    | S fuel =>
        let! e := read_at 8 ext in
        let type := read_be32 e 0 in
        let len := read_be32 e 4 in
        if type =? 0 then ret format
        else if ext_end - ext - 8 <? len then fail EINVAL
        else
          let! format :=
            (if type =? 0xe2792aca then
               if (8 <=? len) || (len =? 0) || negb (bool_decide (format = [])) then fail ENOTSUP
               else
                 let! b := read_at len (ext + 8) in
                 let format := bytes_at b 0 len in
                 if bool_decide (format = str_raw \/ format = str_qcow2)
                 then ret format else fail ENOTSUP
             else ret format) in
          if (type =? 0x23852875) || (type =? 0x0537be77) || (type =? 0x44415441)
          then fail ENOTSUP
          else
            let ext := ext + (8 + Z.land (len + 7) (Z.lnot 7)) in
            if ext_end <? ext then fail EINVAL else extensions fuel ext ext_end format
    end.
Definition extension_fuel (q : qcow P) : nat := Z.to_nat (q_cluster_size q / 8).

(** The backing file's name, resolved in the directory of the image *)
Definition backing_path (path nm : name) : result name :=
  let prefix :=
    if bool_decide (head nm = Some slash) then []
    else match strrchr_slash path with Some (before, _) => before ++ [slash] | None => [] end in
  if MAX_PATH <=? strlen prefix + strlen nm then Err ENAMETOOLONG else Ok (prefix ++ nm).
Definition read_backing_name (hdr : buf) : M name :=
  let! b := read_at (backing_len hdr) (backing_off hdr) in
  let nm := bytes_at b 0 (backing_len hdr) in
  if existsb (Z.eqb 0) nm then fail EINVAL else ret nm.

(** [open_parent path force_raw] is qcow_open one level down: the image, its size and
    whether it is raw. *)
Definition open_backing (path : name) (hdr : buf) (format : name)
    (open_parent : name -> bool -> result (P * Z * bool)) : M unit :=
  let! nm := read_backing_name hdr in
  let! resolved := of_result (backing_path path nm) in
  let! '(p, psize, praw) := of_result (open_parent resolved (bool_decide (format = str_raw))) in
  if bool_decide (format = str_qcow2) && (praw : bool) then fail EINVAL
  else modify (fun q => set_parent q (Some (p, psize))).

Definition is_vdi_at_64 : M bool :=
  let! q := get_q in
  if q_file_size q <? 0x44 then ret false
  else
    let! rc := attempt (read_at 4 0x40) in
    ret (match rc with Ok sig => read_be32 sig 0 =? 0x7f10dabe | Err _ => false end).
Definition five_allocs : M unit :=
  let! r1 := attempt q_alloc in let! r2 := attempt q_alloc in let! r3 := attempt q_alloc in
  let! r4 := attempt q_alloc in let! r5 := attempt q_alloc in
  fail_if (negb (is_ok r1 && is_ok r2 && is_ok r3 && is_ok r4 && is_ok r5)) ENOMEM.
(** From the header to the backing file *)
Definition load_image (path : name) (hdr : buf)
    (open_parent : name -> bool -> result (P * Z * bool)) : M unit :=
  fail_if (unsupported_header hdr) ENOTSUP ;;;
  modify (fun q => with_header q hdr) ;;;
  let! q := get_q in
  fail_if (bad_header q hdr) EINVAL ;;;
  fail_if (QCOW_MAX_CLUSTERS <? q_host_count q) ENOTSUP ;;;
  five_allocs ;;;
  for_each (seqZ 0 (q_l1_size q)) load_l1 ;;;
  for_each (seqZ 0 (q_ref_entries q)) load_ref_table ;;;
  let ext_end := if backing_off hdr =? 0 then q_cluster_size q else backing_off hdr in
  let! format := extensions (extension_fuel q) (header_len hdr) ext_end [] in
  validate_tables ;;;
  if backing_off hdr =? 0 then ret tt else open_backing path hdr format open_parent.
Definition qcow_load (path : name) (force_raw : bool)
    (open_parent : name -> bool -> result (P * Z * bool)) : M unit :=
  if force_raw then modify as_raw
  else
    let! q := get_q in
    let n := if q_file_size q <? 104 then q_file_size q else 104 in
    let! b := read_at n 0 in
    let hdr := blit zeros 0 b n in
    if read_be32 hdr 0 =? QCOW_MAGIC then load_image path hdr open_parent
    else
      let! vdi := is_vdi_at_64 in
      if (vdi : bool) then fail ENOTSUP else modify as_raw.
End open.

(** ** Chains *)
Fixpoint chain (n : nat) : Type :=
  match n with
  | O => Empty_set
  | S n => qcow (chain n)
  end.
#[export] Instance no_backend : Backend Empty_set := {|
  bk_read _ _ := fail EIO; bk_write _ _ _ := fail EIO; bk_fsync := fail EIO |}.
Fixpoint chain_backend (n : nat) : Backend (chain n) :=
  match n with
  | O => no_backend
  | S n => @qcow_backend (chain n) (chain_backend n)
  end.
#[export] Existing Instance chain_backend.

Definition size_and_raw (n : nat) : chain n -> Z * bool :=
  match n with
  | O => fun e => match e with end
  | S m => fun q => (q_size q, q_raw q)
  end.

(** [n] levels are left; [host] opens, locks and stats a path. *)
Fixpoint qcow_open (n : nat) (host : name -> bool -> result source) (path : name)
    (writable force_raw : bool) (ancestors : list (Z * Z)) : result (chain n) :=
  match n with
  | O => Err ELOOP
  | S m =>
      match host path writable with
      | Err e => Err e
      | Ok src =>
          match so_heap src with
          | false :: _ => Err ENOMEM
          | h =>
              if negb (so_regular src) then Err EINVAL
              else if bool_decide (so_id src ∈ ancestors) then Err ELOOP
              else
                let open_parent path force_raw :=
                  match qcow_open m host path false force_raw (so_id src :: ancestors) with
                  | Err e => Err e
                  | Ok p => Ok (p, fst (size_and_raw m p), snd (size_and_raw m p))
                  end in
                let (rc, q) := qcow_load path force_raw open_parent
                                 (fresh_qcow src writable (tl h)) in
                match rc with Ok _ => Ok q | Err e => Err e end
          end
      end
  end.
(** nextufs__qcow2_open: what [img->backend_ctx] becomes. *)
Definition qcow2_open (host : name -> bool -> result source) (path : name) (writable : bool)
    : result (chain QCOW_MAX_DEPTH) :=
  match qcow_open QCOW_MAX_DEPTH host path writable false [] with
  | Err e => Err e
  | Ok q => if snd (size_and_raw QCOW_MAX_DEPTH q) then Err EINVAL else Ok q
  end.
