(* ===== verification/QcowCheck.v ===== *)
(** * What validating a QCOW2 image establishes

    validate_tables of src/src/core/qcow2.c against a declarative reading of the image: the
    list of all references from the header, the tables and their entries to host clusters.
    An image that is accepted has exactly the refcounts this list asks for. *)
From S2P Require Import Prelude.
From S2P Require Import Bytes.
From S2P Require Import Backend.
From S2P Require Import Qcow.
From S2P Require Import QcowOpen.

(** ** The references of an image *)

(** A reference is a host cluster with the kind of use: 1 metadata, 2 data, 3 an L2 table. *)
Definition region (cs off bytes tag : Z) : list (Z * Z) :=
  map (fun i => (i, tag)) (seqZ (off / cs) ((bytes + cs - 1) / cs)).
Definition uses (n : Z) (l : list (Z * Z)) : Z :=
  Z.of_nat (length (filter (fun c => fst c = n) l)).

Section references.
Context {P : Type}.
Implicit Types (q : qcow P).
Definition raw_data q : buf := f_data (q_file q).
(** The entries of the L2 table at [l2] *)
Definition l2_entries q (l2 : Z) : list Z :=
  map (fun j => be64 (raw_data q) (l2 + j * 8)) (seqZ 0 (entries_per_l2 q)).
Definition cluster_of q (tag off : Z) : list (Z * Z) :=
  if off =? 0 then [] else region (q_cluster_size q) off (q_cluster_size q) tag.
Definition block_references q (i : Z) : list (Z * Z) := cluster_of q 1 (q_ref_table q i).
Definition l1_references q (i : Z) : list (Z * Z) :=
  let off := offset_of (q_l1 q i) in
  if off =? 0 then []
  else cluster_of q 3 off ++ flat_map (fun e => cluster_of q 2 (offset_of e)) (l2_entries q off).
Definition fixed_references q : list (Z * Z) :=
  region (q_cluster_size q) 0 (q_cluster_size q) 1 ++
  region (q_cluster_size q) (q_l1_offset q) (q_l1_size q * 8) 1 ++
  region (q_cluster_size q) (q_ref_offset q) (q_ref_clusters q * q_cluster_size q) 1.
Definition references q : list (Z * Z) :=
  fixed_references q ++ flat_map (block_references q) (seqZ 0 (q_ref_entries q)) ++
  flat_map (l1_references q) (seqZ 0 (q_l1_size q)).
(** All entries that map something *)
Definition l1_entries q (i : Z) : list Z :=
  let off := offset_of (q_l1 q i) in
  if off =? 0 then [] else q_l1 q i :: l2_entries q off.
Definition entries q : list Z := flat_map (l1_entries q) (seqZ 0 (q_l1_size q)).
(** An entry is empty, or the address of a cluster of the file whose copied flag says
    whether this is its only reference; clusters are not compressed. *)
Definition good_entry q (e : Z) : Prop :=
  has_flag e QCOW_COMPRESSED = false /\
  (offset_of e <> 0 ->
     offset_of e mod q_cluster_size q = 0 /\ offset_of e + q_cluster_size q <= q_file_size q /\
     has_flag e QCOW_COPIED = (q_refs q (offset_of e / q_cluster_size q) =? 1)).
End references.

(** ** Marking *)
Definition tag_ok (tag : Z) : Prop := tag = 1 \/ tag = 2 \/ tag = 3.
Record marked (l : list (Z * Z)) (expected tags : Z -> Z) : Prop := Marked {
  mk_tag : Forall (fun c => tag_ok (snd c)) l;
  mk_count : forall n, expected n = uses n l;
  mk_max : forall n, uses n l <= UINT16_MAX;
  mk_none : forall n, uses n l = 0 -> tags n = 0;
  mk_same : forall c, c ∈ l -> tags (fst c) = snd c;
  mk_alone : forall c, c ∈ l -> snd c = 1 -> uses (fst c) l = 1;
}.
Lemma uses_app n l1 l2 : uses n (l1 ++ l2) = uses n l1 + uses n l2.
Proof. unfold uses. rewrite filter_app, length_app. lia. Qed.
Lemma uses_one n i tag : uses n [(i, tag)] = if decide (i = n) then 1 else 0.
Proof. unfold uses. cbn. by destruct (decide (i = n)). Qed.
Lemma uses_nonneg n l : 0 <= uses n l.
Proof. unfold uses. lia. Qed.
Lemma uses_elem c l : c ∈ l -> 1 <= uses (fst c) l.
Proof.
  intros Hc. unfold uses.
  assert (Hin : c ∈ filter (fun x : Z * Z => fst x = fst c) l) by by apply list_elem_of_filter.
  destruct (filter _ l); [by apply elem_of_nil in Hin|]. cbn [length]. lia.
Qed.
Lemma marked_nil : marked [] (fun _ => 0) (fun _ => 0).
Proof. constructor; try done; intros c Hc; by apply elem_of_nil in Hc. Qed.
Lemma marked_snoc l expected tags i tag :
  marked l expected tags -> tag_ok tag -> bad_alias (tags i) tag = false ->
  expected i <> UINT16_MAX ->
  marked (l ++ [(i, tag)]) (set_at expected i (expected i + 1)) (set_at tags i tag).
Proof.
  intros [Ht Hc Hm Hn Hs Ha] Hok Hb Hmax. unfold bad_alias in Hb.
  pose proof (uses_nonneg i l) as Hnn.
  assert (Hold : forall c, c ∈ l -> fst c = i -> snd c = tag /\ (tag = 2 \/ tag = 3)).
  { intros c Hc1 <-. rewrite (Hs c Hc1) in Hb. rewrite andb_false_iff, orb_false_iff in Hb.
    pose proof (proj1 (Forall_forall _ _) Ht c Hc1) as Hcx. unfold tag_ok in Hcx.
    rewrite andb_false_iff, !negb_false_iff, !Z.eqb_eq in Hb. lia. }
  constructor.
  - apply Forall_app. split; [done|]. by apply Forall_singleton.
  - intros n. rewrite uses_app, uses_one. unfold set_at.
    destruct (Z.eqb_spec n i) as [->|]; destruct (decide _); try lia; rewrite Hc; lia.
  - intros n. rewrite uses_app, uses_one. rewrite Hc in Hmax. pose proof (Hm n). pose proof (Hm i).
    destruct (decide _); [subst; lia|lia].
  - intros n. rewrite uses_app, uses_one. unfold set_at. intros Hz. pose proof (uses_nonneg n l).
    destruct (decide _); [lia|]. destruct (Z.eqb_spec n i); [lia|]. apply Hn. lia.
  - intros c [Hc1|Hc1%list_elem_of_singleton]%elem_of_app; unfold set_at.
    + destruct (Z.eqb_spec (fst c) i) as [E|]; [|by apply Hs]. symmetry. by apply Hold.
    + subst c. cbn [fst snd]. by rewrite Z.eqb_refl.
  - intros c [Hc1|Hc1%list_elem_of_singleton]%elem_of_app Hsnd; rewrite uses_app, uses_one.
    + destruct (decide _) as [E|]; [|rewrite (Ha c Hc1 Hsnd); lia].
      destruct (Hold c Hc1 (eq_sym E)). lia.
    + subst c. cbn [fst snd] in *. destruct (decide _); [|done].
      assert (uses i l = 0); [|lia].
      destruct (decide (uses i l = 0)) as [|Hne]; [done|]. unfold uses in Hne.
      destruct (filter (fun c : Z * Z => fst c = i) l) as [|c l'] eqn:Ef; [done|].
      assert (Hin : c ∈ filter (fun c : Z * Z => fst c = i) l) by (rewrite Ef; by left).
      apply list_elem_of_filter in Hin as [Hci Hcl]. destruct (Hold c Hcl Hci). lia.
Qed.

(** ** Runs of the validation *)
Section runs.
Context {P : Type}.
Implicit Types (q : qcow P).

(** Everything the references depend on *)
Definition layout q : Z * Z * Z * Z * Z * Z * Z * Z :=
  (q_cluster_size q, q_l1_size q, q_ref_clusters q, q_ref_entries q, q_l1_offset q,
   q_ref_offset q, q_file_size q, q_host_count q).
Record still q q' : Prop := Still {
  st_layout : layout q' = layout q;
  st_l1 : q_l1 q' = q_l1 q;
  st_table : q_ref_table q' = q_ref_table q;
  st_data : raw_data q' = raw_data q;
}.
#[export] Instance still_preorder : PreOrder still.
Proof.
  split; [by intros q|]. intros a b c [L1 A1 T1 D1] [L2 A2 T2 D2].
  constructor; congruence.
Qed.
Lemma layout_inv q q' : layout q' = layout q ->
  q_cluster_size q' = q_cluster_size q /\ q_l1_size q' = q_l1_size q /\
  q_ref_clusters q' = q_ref_clusters q /\ q_ref_entries q' = q_ref_entries q /\
  q_l1_offset q' = q_l1_offset q /\ q_ref_offset q' = q_ref_offset q /\
  q_file_size q' = q_file_size q /\ q_host_count q' = q_host_count q.
Proof. unfold layout. by intros [= ? ? ? ? ? ? ? ?]. Qed.
Lemma still_l2_entries q q' l2 : still q q' -> l2_entries q' l2 = l2_entries q l2.
Proof.
  intros [HL _ _ HD]. apply layout_inv in HL as (E & _). unfold l2_entries, entries_per_l2. by rewrite E, HD.
Qed.
Lemma still_block q q' i : still q q' -> block_references q' i = block_references q i.
Proof.
  intros [HL _ HT _]. apply layout_inv in HL as (E & _). unfold block_references, cluster_of. by rewrite E, HT.
Qed.
Lemma still_cluster q q' tag off : still q q' -> cluster_of q' tag off = cluster_of q tag off.
Proof. intros [HL _ _ _]. apply layout_inv in HL as (E & _). unfold cluster_of. by rewrite E. Qed.
Lemma still_l1_references q q' i : still q q' -> l1_references q' i = l1_references q i.
Proof.
  intros Hs. unfold l1_references. rewrite (st_l1 _ _ Hs), (still_l2_entries q q') by done.
  destruct (_ =? 0); [done|]. rewrite (still_cluster q q') by done. f_equal.
  apply flat_map_ext. intros e. by apply still_cluster.
Qed.
Lemma still_l1_entries q q' i : still q q' -> l1_entries q' i = l1_entries q i.
Proof. intros Hs. unfold l1_entries. by rewrite (st_l1 _ _ Hs), (still_l2_entries q q'). Qed.

(** What reading changes: the outcomes still to come *)
Definition polled q q' : Prop := exists f,
  f_data f = f_data (q_file q) /\ f_size f = f_size (q_file q) /\ q' = set_file q f.
Lemma polled_still q q' : polled q q' -> still q q' /\ q_refs q' = q_refs q /\ q_tags q' = q_tags q.
Proof. intros (f & Hd & _ & ->). split; [|done]. by constructor. Qed.
Lemma read_at_ok n off q b q' : read_at n off q = (Ok b, q') ->
  range_valid q off n = true /\ polled q q' /\ eq_on 0 n b (slice (raw_data q) off).
Proof.
  intros Hr. unfold read_at in Hr. rewrite (bind_run get_q _ q q q) in Hr by done.
  destruct (range_valid q off n); cbn [negb] in Hr; [|done].
  unfold on_fd in Hr. destruct (read_exact_fd n off (q_file q)) as [r f] eqn:E.
  injection Hr as -> <-. apply read_exact_fd_spec in E as (Hd & Hs & _ & Hb).
  split_and!; [done|by exists f|by apply Hb].
Qed.
Lemma range_valid_spec q off n : range_valid q off n = true <-> off <= q_file_size q /\ off + n <= q_file_size q.
Proof. unfold range_valid. rewrite andb_true_iff, !Z.leb_le. lia. Qed.

Lemma mark_cluster_ok tag i e q e' q' l :
  marked l e (q_tags q) -> tag_ok tag -> mark_cluster tag i e q = (Ok e', q') ->
  marked (l ++ [(i, tag)]) e' (q_tags q') /\ q' = set_tags q (q_tags q').
Proof.
  intros Hm Ht Hr. unfold mark_cluster in Hr. rewrite (bind_run get_q _ q q q) in Hr by done.
  destruct (bad_alias _ _) eqn:Eb in Hr; [done|].
  destruct (Z.eqb_spec (e i) UINT16_MAX) as [|Hne]; [done|].
  unfold modify in Hr. injection Hr as <- <-. split; [|done]. by apply marked_snoc.
Qed.
Lemma mark_region_ok e off bytes tag q e' q' l :
  marked l e (q_tags q) -> tag_ok tag -> 0 < q_cluster_size q -> 0 <= bytes ->
  mark_region e off bytes tag q = (Ok e', q') ->
  marked (l ++ region (q_cluster_size q) off bytes tag) e' (q_tags q') /\
  q' = set_tags q (q_tags q') /\ off mod q_cluster_size q = 0 /\ off + bytes <= q_file_size q.
Proof.
  intros Hm Ht Hcs Hb Hr. unfold mark_region in Hr. rewrite (bind_run get_q _ q q q) in Hr by done.
  destruct (Z.eqb_spec (off mod q_cluster_size q) 0) as [Hmod|]; [|done].
  destruct (range_valid q off bytes) eqn:Er; [|done]. cbn [negb orb] in Hr.
  destruct (_ || _) eqn:Ec in Hr; [done|]. apply range_valid_spec in Er.
  assert (Hn : 0 <= clusters_of q bytes) by (apply Z.div_pos; lia).
  apply (fold_each_inv (fun i b w =>
    marked (l ++ map (fun i => (i, tag)) (seqZ (off / q_cluster_size q) (i - off / q_cluster_size q)))
      b (q_tags w) /\ w = set_tags q (q_tags w))) in Hr.
  - destruct Hr as [H1 H2]. split_and!; [|done|done|lia]. unfold region.
    fold (clusters_of q bytes). by rewrite Z.add_simpl_l in H1.
  - done.
  - rewrite Z.sub_diag. cbn. rewrite app_nil_r. split; [done|]. by destruct q.
  - intros i b w b' w' Hi [H1 H2] Hs. apply (mark_cluster_ok _ _ _ _ _ _ _ H1 Ht) in Hs as [H3 H4].
    split.
    + replace (i + 1 - off / q_cluster_size q) with ((i - off / q_cluster_size q) + 1) by lia.
      rewrite seqZ_snoc, map_app, app_assoc by lia. cbn [map].
      by replace (off / q_cluster_size q + (i - off / q_cluster_size q)) with i by lia.
    + rewrite H4, H2. done.
Qed.

Definition marks_only q q' : Prop := still q q' /\ q_refs q' = q_refs q.
#[export] Instance marks_only_preorder : PreOrder marks_only.
Proof.
  split; [by intros q|]. intros a b c [H1 E1] [H2 E2]. split; [by etrans|congruence].
Qed.
Lemma tags_marks_only q t : marks_only q (set_tags q t).
Proof. by split. Qed.
Lemma polled_marks_only q q' : polled q q' -> marks_only q q'.
Proof. intros Hp. by apply polled_still in Hp as (? & ? & _). Qed.
Lemma good_entry_kept q q' e : marks_only q q' -> good_entry q' e -> good_entry q e.
Proof.
  intros [Hs Hr]. pose proof (layout_inv _ _ (st_layout _ _ Hs)) as (E & _ & _ & _ & _ & _ & F & _).
  unfold good_entry. by rewrite E, F, Hr.
Qed.
Lemma good_entry_kept' q q' e : marks_only q q' -> good_entry q e -> good_entry q' e.
Proof.
  intros [Hs Hr]. pose proof (layout_inv _ _ (st_layout _ _ Hs)) as (E & _ & _ & _ & _ & _ & F & _).
  unfold good_entry. by rewrite E, F, Hr.
Qed.

Lemma reserved_flag e mask f : reserved_bits e mask = false -> Z.land mask f = 0 -> has_flag e f = false.
Proof.
  unfold reserved_bits, has_flag. rewrite !negb_false_iff, !Z.eqb_eq. intros He Hf.
  rewrite <- (Z.lor_ldiff_and e mask), He, Z.lor_0_l, <- Z.land_assoc, Hf. apply Z.land_0_r.
Qed.
Lemma bad_address_false q e : bad_address q e = false ->
  has_flag e QCOW_COMPRESSED = false -> good_entry q e.
Proof.
  unfold bad_address. rewrite !orb_false_iff, !negb_false_iff, Z.eqb_eq.
  intros [[Hm Hr] Hf] Hc. apply range_valid_spec in Hr. apply eqb_prop in Hf.
  split; [done|]. intros _. split_and!; [done|lia|done].
Qed.
Lemma empty_good q e : offset_of e = 0 -> has_flag e QCOW_COMPRESSED = false -> good_entry q e.
Proof. by split. Qed.

(** *** Refcount blocks *)
Definition whole_cluster q (off : Z) : Prop :=
  off <> 0 -> off mod q_cluster_size q = 0 /\ off + q_cluster_size q <= q_file_size q.
Lemma load_refcounts_ok block i n q q' : 0 <= n ->
  for_each (seqZ 0 n) (load_refcount block i) q = (Ok tt, q') ->
  still q q' /\ q_tags q' = q_tags q.
Proof.
  intros Hn Hr.
  apply (for_each_inv (fun _ w => still q w /\ q_tags w = q_tags q)) in Hr; [done|done|done|].
  intros j w w' _ [Hs Ht] Hw. unfold load_refcount in Hw. rewrite (bind_run get_q _ w w w) in Hw by done.
  destruct (_ <? _) in Hw.
  - unfold modify in Hw. injection Hw as <-. split; [|done]. etrans; [exact Hs|]. by constructor.
  - apply fail_if_ok in Hw as [_ ->]. done.
Qed.
Lemma check_ref_block_ok i e q e' q' l :
  marked l e (q_tags q) -> 0 < q_cluster_size q -> check_ref_block i e q = (Ok e', q') ->
  marked (l ++ block_references q i) e' (q_tags q') /\ still q q' /\ whole_cluster q (q_ref_table q i).
Proof.
  intros Hm Hcs Hr. unfold check_ref_block in Hr. rewrite (bind_run get_q _ q q q) in Hr by done.
  unfold block_references, cluster_of. destruct (Z.eqb_spec (q_ref_table q i) 0).
  { injection Hr as <- <-. by rewrite app_nil_r. }
  apply bind_ok in Hr as (e1 & q1 & H1 & Hr).
  apply (mark_region_ok _ _ _ _ _ _ _ l) in H1 as (Hm1 & E1 & Hp1); [|done|by left|done|lia].
  apply bind_ok in Hr as (block & q2 & H2 & Hr). apply read_at_ok in H2 as (_ & Hp & _).
  apply polled_still in Hp as (Hs2 & _ & Ht2).
  apply bind_ok in Hr as ([] & q3 & H3 & Hr). injection Hr as <- <-.
  assert (Hs1 : still q q1) by (rewrite E1; by constructor).
  pose proof (layout_inv _ _ (st_layout _ _ Hs1)) as (C1 & _).
  apply load_refcounts_ok in H3 as [Hs3 Ht3].
  - split_and!; [by rewrite Ht3, Ht2|etrans; [exact Hs1|]; by etrans|intros _; exact Hp1].
  - unfold refs_per_block. apply Z.div_pos; lia.
Qed.

(** *** L2 tables and the L1 table *)
Lemma check_l2_entry_ok l2 block j e q e' q' l :
  marked l e (q_tags q) -> 0 < q_cluster_size q ->
  0 <= j < entries_per_l2 q -> eq_on 0 (q_cluster_size q) block (slice (raw_data q) l2) ->
  check_l2_entry block j e q = (Ok e', q') ->
  let x := be64 (raw_data q) (l2 + j * 8) in
  marked (l ++ cluster_of q 2 (offset_of x)) e' (q_tags q') /\ marks_only q q' /\ good_entry q x.
Proof.
  intros Hm Hcs Hj Hb Hr. unfold check_l2_entry in Hr. rewrite (bind_run get_q _ q q q) in Hr by done.
  cbv zeta in Hr |- *.
  assert (Hx : be64 block (j * 8) = be64 (raw_data q) (l2 + j * 8)).
  { unfold be64. unfold entries_per_l2 in Hj.
    pose proof (Z.mul_div_le (q_cluster_size q) 8 ltac:(lia)).
    transitivity (read_be64 (slice (raw_data q) l2) (j * 8)).
    - apply read_be64_eq_on. intros i Hi. apply Hb. lia.
    - unfold slice, read_be64, read_be32. repeat (f_equal; try lia). }
  rewrite Hx in Hr. set (x := be64 (raw_data q) (l2 + j * 8)) in *.
  destruct (has_flag x QCOW_COMPRESSED) eqn:Ec; [done|].
  destruct (_ || _) in Hr; [done|]. unfold cluster_of.
  destruct (Z.eqb_spec (offset_of x) 0) as [E0|].
  { injection Hr as <- <-. rewrite app_nil_r. split_and!; [done|done|]. by apply empty_good. }
  destruct (bad_address q x) eqn:Eb; [done|].
  apply (mark_region_ok _ _ _ _ _ _ _ l) in Hr as (Hm1 & E1 & _); [|done|by right; left|done|lia].
  split_and!; [done|rewrite E1; apply tags_marks_only|by apply bad_address_false].
Qed.
Lemma check_l1_entry_ok i e q e' q' l :
  marked l e (q_tags q) -> 0 < q_cluster_size q -> check_l1_entry i e q = (Ok e', q') ->
  marked (l ++ l1_references q i) e' (q_tags q') /\ marks_only q q' /\
  Forall (good_entry q) (l1_entries q i) /\ has_flag (q_l1 q i) QCOW_COMPRESSED = false.
Proof.
  intros Hm Hcs Hr. unfold check_l1_entry in Hr. rewrite (bind_run get_q _ q q q) in Hr by done.
  cbv zeta in Hr. destruct (_ || _) eqn:Er in Hr; [done|]. apply orb_false_iff in Er as [Eres _].
  apply (reserved_flag _ _ QCOW_COMPRESSED) in Eres; [|done].
  unfold l1_references, l1_entries. destruct (Z.eqb_spec (offset_of (q_l1 q i)) 0) as [E0|Hne].
  { injection Hr as <- <-. rewrite app_nil_r. by split_and!. }
  destruct (bad_address q (q_l1 q i)) eqn:Eb; [done|].
  set (l2 := offset_of (q_l1 q i)) in *.
  apply bind_ok in Hr as (e1 & q1 & H1 & Hr).
  apply (mark_region_ok _ _ _ _ _ _ _ l) in H1 as (Hm1 & E1 & _); [|done|by right; right|done|lia].
  assert (Hk1 : marks_only q q1) by (rewrite E1; apply tags_marks_only).
  apply bind_ok in Hr as (block & q2 & H2 & Hr). apply read_at_ok in H2 as (_ & Hp & Hb).
  pose proof (polled_marks_only _ _ Hp) as Hk2. apply polled_still in Hp as (_ & _ & Ht2).
  assert (Hk : marks_only q q2) by by etrans. rewrite <- Ht2 in Hm1.
  pose proof (layout_inv _ _ (st_layout _ _ (proj1 Hk))) as (C2 & _).
  pose proof (layout_inv _ _ (st_layout _ _ (proj1 Hk1))) as (C1 & _).
  set (refs_of := fun k => flat_map (fun x => cluster_of q 2 (offset_of x))
    (map (fun j => be64 (raw_data q) (l2 + j * 8)) (seqZ 0 k))).
  apply (fold_each_inv (fun k e w => marked (l ++ cluster_of q 3 l2 ++ refs_of k) e (q_tags w) /\
    marks_only q w /\ Forall (good_entry q) (map (fun j => be64 (raw_data q) (l2 + j * 8)) (seqZ 0 k))))
    in Hr.
  - destruct Hr as (Hm' & Hk' & Hall). split_and!; [done|done| |done].
    constructor; [by apply bad_address_false|done].
  - unfold entries_per_l2. apply Z.div_pos; lia.
  - cbn. rewrite app_nil_r. split_and!; [|done|done]. unfold cluster_of.
    rewrite (proj2 (Z.eqb_neq _ _) Hne). done.
  - intros j e2 w e3 w' Hj (Hm2 & Hkw & Hall) Hw.
    pose proof (layout_inv _ _ (st_layout _ _ (proj1 Hkw))) as (Cw & _).
    apply (check_l2_entry_ok l2 _ _ _ _ _ _ _ Hm2) in Hw as (Hm3 & Hk3 & Hg).
    + rewrite (st_data _ _ (proj1 Hkw)) in Hm3, Hg. rewrite (still_cluster q w) in Hm3 by apply Hkw.
      split_and!; [|by etrans|].
      * unfold refs_of. rewrite seqZ_snoc by lia. rewrite map_app, flat_map_app. cbn [map flat_map].
        rewrite app_nil_r, !app_assoc. unfold refs_of in Hm3. rewrite !app_assoc in Hm3. exact Hm3.
      * rewrite seqZ_snoc by lia. rewrite map_app. apply Forall_app. split; [done|].
        apply Forall_singleton. eapply good_entry_kept; [exact Hkw|exact Hg].
    + lia.
    + unfold entries_per_l2 in Hj |- *. rewrite Cw. lia.
    + rewrite Cw, (st_data _ _ (proj1 Hkw)), <- (st_data _ _ (proj1 Hk1)). exact Hb.
Qed.

Lemma still_references q q' : still q q' -> references q' = references q.
Proof.
  intros Hs. pose proof (layout_inv _ _ (st_layout _ _ Hs)) as (E1 & E2 & E3 & E4 & E5 & E6 & _).
  unfold references, fixed_references. rewrite E1, E2, E3, E4, E5, E6. do 2 f_equal.
  - apply flat_map_ext. intros i. by apply still_block.
  - apply flat_map_ext. intros i. by apply still_l1_references.
Qed.
Lemma still_entries q q' : still q q' -> entries q' = entries q.
Proof.
  intros Hs. pose proof (layout_inv _ _ (st_layout _ _ Hs)) as (_ & E2 & _).
  unfold entries. rewrite E2. apply flat_map_ext. intros i. by apply still_l1_entries.
Qed.
Lemma alloc_polled q r q' : q_alloc q = (r, q') -> still q q' /\ q_tags q' = q_tags q.
Proof. unfold q_alloc. destruct (q_heap q) as [|[|] h]; intros [= <- <-]; (split; [by constructor|done]). Qed.

(** The two loops *)
Lemma ref_blocks_ok e q e' q' l :
  marked l e (q_tags q) -> 0 < q_cluster_size q -> 0 <= q_ref_entries q ->
  fold_each (seqZ 0 (q_ref_entries q)) check_ref_block e q = (Ok e', q') ->
  marked (l ++ flat_map (block_references q) (seqZ 0 (q_ref_entries q))) e' (q_tags q') /\ still q q' /\
  forall i, 0 <= i < q_ref_entries q -> whole_cluster q (q_ref_table q i).
Proof.
  intros Hm Hcs Hn Hr.
  apply (fold_each_inv (fun k e w =>
    marked (l ++ flat_map (block_references q) (seqZ 0 k)) e (q_tags w) /\ still q w /\
    forall i, 0 <= i < k -> whole_cluster q (q_ref_table q i))) in Hr; [done|done| |].
  - cbn. rewrite app_nil_r. split_and!; [done|done|lia].
  - intros i e1 w e2 w' Hi (Hm1 & Hs & Hall) Hw.
    pose proof (layout_inv _ _ (st_layout _ _ Hs)) as (C & _ & _ & _ & _ & _ & F & _).
    apply (check_ref_block_ok _ _ _ _ _ _ Hm1) in Hw as (Hm2 & Hs2 & Hp); [|lia].
    rewrite (still_block q w) in Hm2 by done. split_and!; [|by etrans|].
    + rewrite seqZ_snoc, flat_map_app by lia. cbn [flat_map]. by rewrite app_nil_r, app_assoc.
    + intros k Hk. destruct (Z.eq_dec k i) as [->|]; [|apply Hall; lia].
      unfold whole_cluster in *. by rewrite (st_table _ _ Hs), C, F in Hp.
Qed.
Lemma l1_entries_ok e q e' q' l :
  marked l e (q_tags q) -> 0 < q_cluster_size q -> 0 <= q_l1_size q ->
  fold_each (seqZ 0 (q_l1_size q)) check_l1_entry e q = (Ok e', q') ->
  marked (l ++ flat_map (l1_references q) (seqZ 0 (q_l1_size q))) e' (q_tags q') /\
  marks_only q q' /\ Forall (good_entry q) (entries q) /\
  forall i, 0 <= i < q_l1_size q -> has_flag (q_l1 q i) QCOW_COMPRESSED = false.
Proof.
  intros Hm Hcs Hn Hr.
  apply (fold_each_inv (fun k e w =>
    marked (l ++ flat_map (l1_references q) (seqZ 0 k)) e (q_tags w) /\ marks_only q w /\
    Forall (good_entry q) (flat_map (l1_entries q) (seqZ 0 k)) /\
    forall i, 0 <= i < k -> has_flag (q_l1 q i) QCOW_COMPRESSED = false)) in Hr; [done|done| |].
  - cbn. rewrite app_nil_r. split_and!; [done|done|done|lia].
  - intros i e1 w e2 w' Hi (Hm1 & Hs & Hall & Hc) Hw.
    pose proof (layout_inv _ _ (st_layout _ _ (proj1 Hs))) as (C & _).
    apply (check_l1_entry_ok _ _ _ _ _ _ Hm1) in Hw as (Hm2 & Hs2 & Hg & Hf); [|lia].
    rewrite (still_l1_references q w) in Hm2 by apply Hs. rewrite (still_l1_entries q w) in Hg by apply Hs.
    rewrite seqZ_snoc, !flat_map_app by lia. cbn [flat_map]. rewrite !app_nil_r, app_assoc.
    split_and!; [done|by etrans| |].
    + apply Forall_app. split; [done|]. eapply Forall_impl; [exact Hg|]. intros x. by apply good_entry_kept.
    + intros k Hk. destruct (Z.eq_dec k i) as [->|]; [by rewrite (st_l1 _ _ (proj1 Hs)) in Hf|apply Hc; lia].
Qed.

(** Where the tables lie *)
Record placed q : Prop := Placed {
  pl_l1 : q_l1_offset q mod q_cluster_size q = 0 /\ q_l1_offset q + q_l1_size q * 8 <= q_file_size q;
  pl_ref : q_ref_offset q mod q_cluster_size q = 0 /\
    q_ref_offset q + q_ref_clusters q * q_cluster_size q <= q_file_size q;
  pl_blocks : forall i, 0 <= i < q_ref_entries q -> whole_cluster q (q_ref_table q i);
  pl_flags : forall i, 0 <= i < q_l1_size q -> has_flag (q_l1 q i) QCOW_COMPRESSED = false;
}.
(** What opening has set up before the validation *)
Record loaded q : Prop := Loaded {
  ld_cs : 0 < q_cluster_size q;
  ld_sizes : 0 <= q_l1_size q /\ 0 <= q_ref_clusters q /\ 0 <= q_ref_entries q;
  ld_tags : q_tags q = fun _ => 0;
}.
Lemma validate_ok q q' : loaded q -> validate_tables q = (Ok tt, q') ->
  still q q' /\ (forall n, 0 <= n < q_host_count q -> q_refs q' n = uses n (references q)) /\
  (exists e, marked (references q) e (q_tags q')) /\ Forall (good_entry q') (entries q) /\ placed q.
Proof.
  intros [Hcs (Hl1 & Hrc & Hre) Ht] Hr. unfold validate_tables in Hr.
  apply bind_ok in Hr as (a1 & q1 & H1 & Hr). apply attempt_inv in H1 as (r1 & _ & H1).
  apply alloc_polled in H1 as [S1 T1].
  apply bind_ok in Hr as (a2 & q2 & H2 & Hr). apply attempt_inv in H2 as (r2 & _ & H2).
  apply alloc_polled in H2 as [S2 T2]. destruct (_ || _) in Hr; [done|].
  assert (S02 : still q q2) by by etrans. clear S1 S2 r1 r2.
  rewrite (bind_run get_q _ q2 q2 q2) in Hr by done.
  pose proof (layout_inv _ _ (st_layout _ _ S02)) as (C & CL & CR & CE & CO & CP & _ & CH).
  rewrite C, CL, CR, CE, CO, CP in Hr.
  assert (M0 : marked [] (fun _ => 0) (q_tags q2)) by (rewrite T2, T1, Ht; apply marked_nil).
  apply bind_ok in Hr as (e3 & q3 & H3 & Hr).
  apply (mark_region_ok _ _ _ _ _ _ _ _ M0) in H3 as (M3 & E3 & _); [|by left|lia|lia].
  assert (S3 : still q q3) by (etrans; [exact S02|]; rewrite E3; by constructor).
  pose proof (layout_inv _ _ (st_layout _ _ S3)) as (C3 & _ & _ & _ & _ & _ & F3 & _).
  apply bind_ok in Hr as (e4 & q4 & H4 & Hr).
  apply (mark_region_ok _ _ _ _ _ _ _ _ M3) in H4 as (M4 & E4 & P4); [|by left|lia|lia].
  assert (S4 : still q q4) by (etrans; [exact S3|]; rewrite E4; by constructor).
  pose proof (layout_inv _ _ (st_layout _ _ S4)) as (C4 & _ & _ & _ & _ & _ & F4 & _).
  apply bind_ok in Hr as (e5 & q5 & H5 & Hr).
  apply (mark_region_ok _ _ _ _ _ _ _ _ M4) in H5 as (M5 & E5 & P5); [|by left|lia|nia].
  assert (S5 : still q q5) by (etrans; [exact S4|]; rewrite E5; by constructor).
  pose proof (layout_inv _ _ (st_layout _ _ S5)) as (C5 & L5 & _ & R5 & _ & _ & F5 & _).
  rewrite C, C3, C4 in M5. rewrite app_nil_l, <- app_assoc in M5. fold (fixed_references q) in M5.
  apply bind_ok in Hr as (e6 & q6 & H6 & Hr). rewrite <- R5 in H6.
  apply (ref_blocks_ok _ _ _ _ _ M5) in H6 as (M6 & S56 & P6); [|lia|lia].
  assert (S6 : still q q6) by by etrans.
  pose proof (layout_inv _ _ (st_layout _ _ S6)) as (C6 & L6 & _).
  apply bind_ok in Hr as (e7 & q7 & H7 & Hr). rewrite <- L6 in H7.
  apply (l1_entries_ok _ _ _ _ _ M6) in H7 as (M7 & K7 & G7 & P7); [|lia|lia].
  rewrite (bind_run get_q _ q7 q7 q7) in Hr by done. apply fail_if_ok in Hr as [Hall ->].
  assert (S7 : still q q7) by (etrans; [exact S6|apply K7]).
  pose proof (layout_inv _ _ (st_layout _ _ S7)) as (_ & _ & _ & _ & _ & _ & _ & C7).
  assert (Href : (fixed_references q ++ flat_map (block_references q5) (seqZ 0 (q_ref_entries q5))) ++
    flat_map (l1_references q6) (seqZ 0 (q_l1_size q6)) = references q).
  { unfold references. rewrite <- app_assoc, R5, L6. do 2 f_equal.
    - apply flat_map_ext. intros i. by apply still_block.
    - apply flat_map_ext. intros i. by apply still_l1_references. }
  assert (Hpl : placed q).
  { rewrite C3, F3 in P4. rewrite C4, F4 in P5. constructor; [done|done| |].
    - unfold whole_cluster in *. rewrite C5, F5, R5, (st_table _ _ S5) in P6. exact P6.
    - rewrite L6, (st_l1 _ _ S6) in P7. exact P7. }
  rewrite Href in M7. split_and!; [done| |by exists e7| |done].
  - intros n Hn. rewrite negb_false_iff, forallb_forall in Hall.
    specialize (Hall n). rewrite Z.eqb_eq, (mk_count _ _ _ M7) in Hall. rewrite Hall; [done|].
    apply list_elem_of_In, elem_of_seqZ. lia.
  - rewrite (still_entries q q6) in G7 by done. eapply Forall_impl; [exact G7|].
    intros x. by apply good_entry_kept'.
Qed.
End runs.

(** ** Property *)

(** C18. An image whose tables are accepted is consistent.  Every host cluster has exactly
  the refcount that the header, the L1 table, the refcount table and blocks, the L2 tables
  and their entries give it; a cluster of metadata has one use only, and data clusters and
  L2 tables are never shared with each other; every entry is empty or the aligned address of
  a whole cluster of the file, not compressed, whose copied flag says whether it has one
  reference.  The tags in memory tell metadata, data and L2 tables apart. *)
Theorem validate_tables_sound {P} (q q' : qcow P)
    (Hload : loaded q) (Hrun : validate_tables q = (Ok tt, q')) :
  (forall n, 0 <= n < q_host_count q -> q_refs q' n = uses n (references q)) /\
  (forall n tag1 tag2, (n, tag1) ∈ references q -> (n, tag2) ∈ references q ->
     tag1 = tag2 /\ q_tags q' n = tag1 /\ (tag1 = 1 -> uses n (references q) = 1)) /\
  (forall n, uses n (references q) = 0 -> q_tags q' n = 0) /\
  Forall (good_entry q') (entries q) /\ still q q'.
Proof.
  apply validate_ok in Hrun as (Hs & Hr & (e & HM) & Hg & _); [|done].
  split_and!; [done| |apply HM|done|done].
  intros n t1 t2 H1 H2. pose proof (mk_same _ _ _ HM _ H1) as E1.
  pose proof (mk_same _ _ _ HM _ H2) as E2. cbn [fst snd] in E1, E2.
  split_and!; [congruence|done|]. intros ->. by apply (mk_alone _ _ _ HM _ H1).
Qed.

(** ** A small image: one cluster for each table and two host clusters of data, one of them
    shared by two guest clusters *)
Definition small_tables : buf :=
  let b := foldr (fun '(off, v) p => write_be64 p off v) zeros
    [(512, Z.lor 2048 QCOW_COPIED); (1024, 1536); (2048, Z.lor 2560 QCOW_COPIED); (2056, 3072);
     (2064, 3072)] in
  foldr (fun '(off, v) p => write_be16 p off v) b
    [(1536, 1); (1538, 1); (1540, 1); (1542, 1); (1544, 1); (1546, 1); (1548, 2)].
Definition small_image : qcow Empty_set :=
  Qcow (File small_tables 3584 [] []) false false false false false false 2 512 1 1 2000 3584 512 1024
    (fun _ => Z.lor 2048 QCOW_COPIED) (fun i => if i =? 0 then 1536 else 0) 64 7 7 (fun _ => 0)
    (fun _ => 0) (fun _ => false) None [].
Definition small_checked : result unit * qcow Empty_set := validate_tables small_image.
Lemma validate_tables_sound_witness :
  (forall n, 0 <= n < q_host_count small_image -> q_refs (snd small_checked) n = uses n (references small_image)) /\
  (forall n tag1 tag2, (n, tag1) ∈ references small_image -> (n, tag2) ∈ references small_image ->
     tag1 = tag2 /\ q_tags (snd small_checked) n = tag1 /\
     (tag1 = 1 -> uses n (references small_image) = 1)) /\
  (forall n, uses n (references small_image) = 0 -> q_tags (snd small_checked) n = 0) /\
  Forall (good_entry (snd small_checked)) (entries small_image) /\ still small_image (snd small_checked).
Proof.
  apply validate_tables_sound.
  - constructor; cbn; [lia|lia|reflexivity].
  - assert (Hok : fst small_checked = Ok tt) by (vm_compute; reflexivity).
    rewrite <- Hok. unfold small_checked. apply surjective_pairing.
Defined.
Example small_refs :
  map (fun n => uses n (references small_image)) [0; 1; 2; 3; 4; 5; 6; 7] = [1; 1; 1; 1; 1; 1; 2; 0].
Proof. vm_compute. reflexivity. Qed.
