(* ===== verification/QcowRead.v ===== *)
(** * Reading QCOW2 images and their backing chains

    qcow_read of src/src/core/qcow2.c against the disk an image presents: for every guest
    cluster the L1 and L2 entry say whether it is zero, stored in the file or inherited from
    the backing file.  [ReadSpec] is what an image promises to the one that is based on it;
    it holds for whole chains by recursion. *)
From S2P Require Import Prelude.
From S2P Require Import Bytes.
From S2P Require Import Backend.
From S2P Require Import Dirent.
From S2P Require Import Path.
From S2P Require Import Qcow.
From S2P Require Import QcowOpen.
From S2P Require Import QcowCheck.

(** ** What a backing file promises *)
Class ReadSpec (C : Type) `{!Backend C} := {
  rd_view : C -> buf;
  rd_size : C -> Z;
  rd_inv : C -> Prop;
  rd_calm : C -> Prop;                (* the host fails no transfer *)
  rd_wf c : rd_inv c -> wf_buf (rd_view c);
  rd_read n off c r c' :
    rd_inv c -> 0 <= off -> 0 <= n -> bk_read n off c = (r, c') ->
    (rd_inv c' /\ rd_view c' ≡ rd_view c /\ rd_size c' = rd_size c) /\
    (forall b, r = Ok b -> eq_on 0 n b (slice (rd_view c) off) /\ wf_buf b) /\
    (rd_calm c -> off + n <= rd_size c -> is_ok r = true /\ rd_calm c');
}.

Section reading.
Context {P : Type} `{HB : Backend P, HR : !ReadSpec P}.
Implicit Types (q : qcow P).

(** ** The disk of an image *)
(** The L2 entry of a guest cluster, zero where there is none *)
Definition mapping q (guest : Z) : Z :=
  let l2 := offset_of (q_l1 q (guest / entries_per_l2 q)) in
  if l2 =? 0 then 0 else be64 (raw_data q) (l2 + guest mod entries_per_l2 q * 8).
Definition inherited q (i : Z) : Z :=
  match q_parent q with
  | Some (p, psize) => if i <? psize then rd_view p i else 0
  | None => 0
  end.
Definition stored_byte q (entry i : Z) : Z :=
  if has_flag entry QCOW_ZERO then 0
  else if negb (offset_of entry =? 0) then raw_data q (offset_of entry + i mod q_cluster_size q)
  else inherited q i.
Definition guest q : buf := fun i =>
  if (0 <=? i) && (i <? q_size q) then
    if q_raw q then raw_data q i else stored_byte q (mapping q (i / q_cluster_size q)) i
  else 0.

Definition parent_ok (p : option (P * Z)) : Prop :=
  match p with Some (p, psize) => rd_inv p /\ psize = rd_size p | None => True end.
Record tables_ok q : Prop := TablesOk {
  to_cs : 512 <= q_cluster_size q;
  to_l1 : 0 <= q_l1_size q;
  to_covers : q_size q <= q_l1_size q * entries_per_l2 q * q_cluster_size q;
  to_entries : Forall (good_entry q) (entries q);
}.
Record image_ok q : Prop := ImageOk {
  io_file : file_inv (q_file q);
  io_size : q_file_size q <= f_size (q_file q);
  io_parent : parent_ok (q_parent q);
  io_raw : q_raw q = true -> q_size q = q_file_size q;
  io_tables : q_raw q = false -> tables_ok q;
}.
Definition calm q : Prop :=
  f_script (q_file q) = [] /\
  match q_parent q with Some (p, _) => rd_calm p | None => True end.

(** What reading leaves as it is *)
Record same_image q q' : Prop := SameImage {
  si_marks : marks_only q q';
  si_raw : q_raw q' = q_raw q /\ q_size q' = q_size q;
  si_file : f_size (q_file q') = f_size (q_file q);
  si_parent : match q_parent q, q_parent q' with
    | Some (p, n), Some (p', n') => n' = n /\
        (rd_inv p -> rd_inv p' /\ rd_view p' ≡ rd_view p /\ rd_size p' = rd_size p)
    | None, None => True
    | _, _ => False
    end;
}.
#[export] Instance same_image_preorder : PreOrder same_image.
Proof.
  split.
  - intros q. constructor; try done. by destruct (q_parent q) as [[]|].
  - intros a b c [M1 R1 F1 P1] [M2 R2 F2 P2]. constructor.
    + by etrans.
    + destruct R1, R2. split; congruence.
    + congruence.
    + destruct (q_parent a) as [[p n]|], (q_parent b) as [[p1 n1]|], (q_parent c) as [[p2 n2]|]; try done.
      destruct P1 as [-> H1], P2 as [-> H2]. split; [done|]. intros Hi.
      destruct (H1 Hi) as (I1 & V1 & S1), (H2 I1) as (I2 & V2 & S2). split_and!; [done|by etrans|congruence].
Qed.
Lemma same_layout q q' : same_image q q' ->
  q_cluster_size q' = q_cluster_size q /\ q_l1_size q' = q_l1_size q /\ q_file_size q' = q_file_size q.
Proof. intros [[Hs _] _ _ _]. by apply st_layout, layout_inv in Hs as (? & ? & _ & _ & _ & _ & ? & _). Qed.
Lemma same_guest q q' : same_image q q' -> parent_ok (q_parent q) -> guest q' ≡ guest q.
Proof.
  intros Hs Hp i. pose proof (same_layout _ _ Hs) as (C & _). destruct Hs as [[[_ L1 _ D] _] [R S] _ HP].
  unfold guest, stored_byte, mapping, entries_per_l2, inherited. rewrite R, S, C, L1, D.
  destruct (q_parent q) as [[p n]|], (q_parent q') as [[p' n']|]; try done.
  destruct HP as [-> HP], Hp as [Hi ->]. destruct (HP Hi) as (_ & V & _). by rewrite (V i).
Qed.
Lemma same_ok q q' : same_image q q' -> file_inv (q_file q') -> image_ok q -> image_ok q'.
Proof.
  intros Hs Hf [I1 I2 I3 I4 I5]. pose proof (same_layout _ _ Hs) as (C & L & F).
  pose proof Hs as [Hm [R S] FS HP]. constructor.
  - done.
  - by rewrite FS, F.
  - destruct (q_parent q) as [[p n]|], (q_parent q') as [[p' n']|]; try done.
    destruct HP as [-> HP], I3 as [Hi ->]. destruct (HP Hi) as (? & _ & E). by cbn [parent_ok].
  - rewrite R, S, F. exact I4.
  - rewrite R. intros Hr. destruct (I5 Hr) as [T1 T2 T3 T4].
    constructor; unfold entries_per_l2; rewrite ?C, ?L, ?S; try done.
    rewrite (still_entries q q') by apply Hm. eapply Forall_impl; [exact T4|].
    intros x. by apply good_entry_kept'.
Qed.

(** ** Reads, piece by piece *)

(** The run changes nothing but outcomes still to come; what it returns is [want]; when the
    host is calm and [inside] holds, it returns. *)
Definition fetched {A} q (x : result A * qcow P) (want : A -> Prop) (inside : Prop) : Prop :=
  same_image q (snd x) /\ file_inv (q_file (snd x)) /\
  (forall a, fst x = Ok a -> want a) /\
  (calm q -> inside -> is_ok (fst x) = true /\ calm (snd x)).
Lemma fetched_ret {A} q (a : A) (want : A -> Prop) inside :
  file_inv (q_file q) -> want a -> fetched q (ret a q) want inside.
Proof. intros Hf Hw. split_and!; [done|done|by intros a' [= <-]|done]. Qed.
Lemma fetched_fail {A} q e (want : A -> Prop) (inside : Prop) :
  file_inv (q_file q) -> ~ inside -> fetched q (fail e q) want inside.
Proof. intros Hf Hn. split_and!; [done|done|done|by intros _ ?]. Qed.
Lemma fetched_bind {A B} q (m : M (qcow P) A) (k : A -> M (qcow P) B) want1 want (inside : Prop) :
  fetched q (m q) want1 inside ->
  (forall a q1, same_image q q1 -> file_inv (q_file q1) -> want1 a -> fetched q1 (k a q1) want inside) ->
  fetched q (bind m k q) want inside.
Proof.
  intros (S1 & F1 & W1 & T1) Hk. unfold bind. destruct (m q) as [[a|e] q1] eqn:E; cbn [fst snd] in *.
  - destruct (Hk a q1 S1 F1 (W1 a eq_refl)) as (S2 & F2 & W2 & T2). split_and!; [by etrans|done|done|].
    intros Hc Hi. apply T2; [by apply T1|done].
  - split_and!; [done|done|done|]. intros Hc Hi. by destruct (T1 Hc Hi).
Qed.
Lemma fetched_weaken {A} q (x : result A * qcow P) (w1 w2 : A -> Prop) (i1 i2 : Prop) :
  fetched q x w1 i1 -> (forall a, w1 a -> w2 a) -> (i2 -> i1) -> fetched q x w2 i2.
Proof. intros (S & F & W & T) Hw Hi. split_and!; auto. Qed.

Lemma read_at_fetched q n off : file_inv (q_file q) -> q_file_size q <= f_size (q_file q) ->
  fetched q (read_at n off q) (fun b => eq_on 0 n b (slice (raw_data q) off) /\ wf_buf b)
    (0 <= off /\ 0 <= n /\ off + n <= q_file_size q).
Proof.
  intros Hf Hs. unfold read_at. rewrite (bind_run get_q _ q q q) by done.
  destruct (range_valid q off n) eqn:Er; cbn [negb].
  2: { apply fetched_fail; [done|]. intros (Ho & Hn & He). rewrite (proj2 (range_valid_spec q off n)) in Er; [done|lia]. }
  unfold on_fd. destruct (read_exact_fd n off (q_file q)) as [r f] eqn:E.
  pose proof E as E'. apply read_exact_fd_spec in E' as (Hd & Hsz & _ & Hb). split_and!; cbn [fst snd].
  - constructor; [by split|done|done|]. cbn. by destruct (q_parent q) as [[]|].
  - cbn [q_file set_file]. unfold file_inv in *. by rewrite Hd, Hsz.
  - intros b ->. split; [by apply Hb|]. destruct (read_exact_fd_run n off (q_file q)) as (r1 & f1 & Hl & E1).
    rewrite E1 in E. injection E as -> ->. apply read_loop_wf in Hl; [done|apply Hf|apply wf_zeros].
  - intros Hc (Ho & Hn & He). destruct Hc as [Hc Hp]. destruct (read_calm n off (q_file q) Hc) as [b Hr]; [done|lia|].
    rewrite Hr in E. injection E as <- <-. split; [done|]. split; [done|exact Hp].
Qed.
Lemma read_u64_fetched q off : file_inv (q_file q) -> q_file_size q <= f_size (q_file q) ->
  fetched q (read_u64 off q) (fun e => e = be64 (raw_data q) off) (0 <= off /\ off + 8 <= q_file_size q).
Proof.
  intros Hf Hs. unfold read_u64. eapply fetched_bind.
  - eapply fetched_weaken; [by apply read_at_fetched|intros b Hb; exact Hb|lia].
  - intros b q1 _ Hf1 [Hb _]. apply fetched_ret; [done|]. unfold be64.
    rewrite (read_be64_eq_on b (slice (raw_data q) off) 0) by (intros i Hi; apply Hb; lia).
    unfold slice, read_be64, read_be32. repeat (f_equal; try lia).
Qed.

(** *** The part that comes from the backing file *)
Lemma inherited_fetched q pos chunk : file_inv (q_file q) -> parent_ok (q_parent q) ->
  0 <= pos -> 0 <= chunk ->
  fetched q (read_inherited pos chunk q) (fun b => eq_on 0 chunk b (fun i => inherited q (pos + i)) /\ wf_buf b) True.
Proof.
  intros Hf Hp Hpos Hch. unfold read_inherited, inherited. rewrite (bind_run get_q _ q q q) by done.
  destruct (q_parent q) as [[p psize]|] eqn:Ep; [|by apply fetched_ret].
  destruct Hp as [Hi ->].
  destruct (Z.ltb_spec pos (rd_size p)) as [Hlt|Hge].
  2: { apply fetched_ret; [done|]. split; [|apply wf_zeros]. intros i Hri. by destruct (Z.ltb_spec (pos + i) (rd_size p)); [lia|]. }
  set (n := Z.min (rd_size p - pos) chunk).
  apply (fetched_bind _ _ _ (fun b => eq_on 0 n b (slice (rd_view p) pos) /\ wf_buf b)).
  - unfold parent_read. rewrite Ep. destruct (bk_read n pos p) as [r p'] eqn:Er.
    apply rd_read in Er as ((I1 & V1 & S1) & Hb & Ht); [|done|done|lia].
    split_and!; cbn [fst snd]; [|done|done|].
    + constructor; [by split|done|done|]. rewrite Ep. cbn [q_parent set_parent]. by split.
    + intros [Hc Hcp] _. rewrite Ep in Hcp. destruct (Ht Hcp ltac:(lia)) as [? ?]. split; [done|by split].
  - intros b q1 _ Hf1 [Hb Hwf]. apply fetched_ret; [done|]. split; [|auto with bytes]. intros i Hri. unfold blit.
    destruct (Z.ltb_spec (pos + i) (rd_size p)); case_match eqn:E; try lia; try done.
    rewrite Z.sub_0_r, Hb by lia. done.
Qed.

(** *** One cluster *)
Lemma offset_nonneg e : 0 <= offset_of e.
Proof. apply Z.land_nonneg. right. done. Qed.
Lemma table_size q : 512 <= q_cluster_size q -> 64 <= entries_per_l2 q /\ entries_per_l2 q * 8 <= q_cluster_size q.
Proof.
  intros H. unfold entries_per_l2. split; [apply Z.div_le_lower_bound; lia|].
  pose proof (Z.mul_div_le (q_cluster_size q) 8). lia.
Qed.
Lemma table_entries q c : tables_ok q -> 0 <= c < q_l1_size q * entries_per_l2 q ->
  0 <= c / entries_per_l2 q < q_l1_size q /\ 0 <= c mod entries_per_l2 q < entries_per_l2 q.
Proof.
  intros Ht Hc. destruct (table_size q (to_cs _ Ht)) as [He _]. split.
  - split; [apply Z.div_pos; lia|]. apply Z.div_lt_upper_bound; lia.
  - apply Z.mod_pos_bound. lia.
Qed.
Lemma entry_good q c : tables_ok q -> 0 <= c < q_l1_size q * entries_per_l2 q ->
  let e := q_l1 q (c / entries_per_l2 q) in
  offset_of e <> 0 -> good_entry q e /\ good_entry q (mapping q c).
Proof.
  intros Ht Hc e He. destruct (table_entries q c Ht Hc) as [Hi Hj].
  pose proof (to_entries _ Ht) as Hall. rewrite Forall_forall in Hall.
  assert (Hin : forall x, x ∈ l1_entries q (c / entries_per_l2 q) -> good_entry q x).
  { intros x Hx. apply Hall. unfold entries. apply list_elem_of_In, in_flat_map.
    exists (c / entries_per_l2 q). split; [|by apply list_elem_of_In].
    apply list_elem_of_In, elem_of_seqZ. lia. }
  unfold l1_entries in Hin. fold e in Hin. rewrite (proj2 (Z.eqb_neq _ _) He) in Hin.
  split; apply Hin; [by left|right]. unfold mapping. fold e. rewrite (proj2 (Z.eqb_neq _ _) He).
  unfold l2_entries. apply list_elem_of_In, in_map_iff. exists (c mod entries_per_l2 q).
  split; [done|]. apply list_elem_of_In, elem_of_seqZ. lia.
Qed.
Lemma l2_entry_fetched q c : image_ok q -> tables_ok q -> 0 <= c < q_l1_size q * entries_per_l2 q ->
  fetched q (l2_entry c q) (fun e => e = mapping q c) True.
Proof.
  intros Hq Ht Hc. unfold l2_entry, mapping. rewrite (bind_run get_q _ q q q) by done. cbv zeta.
  destruct (Z.eqb_spec (offset_of (q_l1 q (c / entries_per_l2 q))) 0) as [|Hne].
  { by apply fetched_ret; [apply Hq|]. }
  eapply fetched_weaken; [by apply read_u64_fetched; apply Hq|done|]. intros _.
  destruct (entry_good q c Ht Hc Hne) as [[_ Hg] _]. destruct (Hg Hne) as (_ & Hend & _).
  pose proof (offset_nonneg (q_l1 q (c / entries_per_l2 q))).
  destruct (table_entries q c Ht Hc) as [_ Hj]. pose proof (table_size q (to_cs _ Ht)). lia.
Qed.
Lemma chunk_fetched q pos chunk : image_ok q -> q_raw q = false ->
  0 <= pos -> 0 < chunk -> chunk <= q_cluster_size q - pos mod q_cluster_size q ->
  pos + chunk <= q_size q ->
  fetched q (read_chunk pos chunk q) (fun b => eq_on 0 chunk b (slice (guest q) pos) /\ wf_buf b) True.
Proof.
  intros Hq Hraw Hp Hc Hin Hend. pose proof (io_tables _ Hq Hraw) as Ht. pose proof (to_cs _ Ht) as Hcs.
  assert (Hcl : 0 <= pos / q_cluster_size q < q_l1_size q * entries_per_l2 q).
  { split; [apply Z.div_pos; lia|]. apply Z.div_lt_upper_bound; [lia|].
    pose proof (to_covers _ Ht). lia. }
  assert (Hbyte : forall i, 0 <= i < chunk ->
    slice (guest q) pos i = stored_byte q (mapping q (pos / q_cluster_size q)) (pos + i)).
  { intros i Hi. unfold slice, guest. rewrite Hraw.
    destruct (in_block (q_cluster_size q) pos i) as [-> _]; [lia|lia|].
    destruct (Z.leb_spec 0 (pos + i)); [|lia]. by destruct (Z.ltb_spec (pos + i) (q_size q)); [|lia]. }
  unfold read_chunk. rewrite (bind_run get_q _ q q q) by done.
  eapply fetched_bind; [by apply l2_entry_fetched|]. intros e q1 Hs Hf1 ->.
  pose proof (same_ok _ _ Hs Hf1 Hq) as Hq1. pose proof (same_layout _ _ Hs) as (C & _ & F).
  pose proof (same_guest _ _ Hs (io_parent _ Hq)) as Hgu.
  set (e := mapping q (pos / q_cluster_size q)) in *. unfold stored_byte in Hbyte.
  destruct (has_flag e QCOW_ZERO).
  { apply fetched_ret; [done|]. split; [|apply wf_zeros]. intros i Hi. by rewrite Hbyte by lia. }
  destruct (Z.eqb_spec (offset_of e) 0) as [He|He]; cbn [negb].
  - eapply fetched_weaken; [apply inherited_fetched; [done|apply Hq1|lia|lia]| |done].
    intros b [Hb Hwf]. split; [|done]. intros i Hi. rewrite Hb, Hbyte by lia. cbn [negb].
    destruct Hs as [_ _ _ HP]. unfold inherited. pose proof (io_parent _ Hq) as Hpo.
    destruct (q_parent q) as [[p n]|], (q_parent q1) as [[p' n']|]; try done.
    destruct HP as [-> HP], Hpo as [Hi0 ->]. destruct (HP Hi0) as (_ & V & _). by rewrite (V _).
  - assert (Hg : good_entry q e).
    { destruct (Z.eq_dec (offset_of (q_l1 q (pos / q_cluster_size q / entries_per_l2 q))) 0) as [E|E].
      - unfold e, mapping in He. by rewrite E in He.
      - by apply entry_good. }
    destruct Hg as [_ Hg]. destruct (Hg He) as (_ & Hfit & _). pose proof (offset_nonneg e).
    pose proof (Z.mod_pos_bound pos (q_cluster_size q) ltac:(lia)).
    eapply fetched_weaken; [by apply read_at_fetched; apply Hq1| |intros _; rewrite F; lia].
    intros b [Hb Hwf]. split; [|done]. intros i Hi. rewrite Hb, Hbyte by lia. cbn [negb].
    destruct Hs as [[[_ _ _ D] _] _ _ _]. rewrite D. unfold slice.
    destruct (in_block (q_cluster_size q) pos i) as [_ ->]; [lia|lia|]. f_equal. lia.
Qed.

(** *** All clusters of a transfer *)
Lemma loop_fetched fuel : forall q bytes pos got out,
  image_ok q -> q_raw q = false -> 0 <= got <= pos -> 0 <= bytes -> pos + bytes <= q_size q ->
  blocks_left (q_cluster_size q) bytes pos 0 <= Z.of_nat fuel ->
  eq_on 0 got out (slice (guest q) (pos - got)) -> wf_buf out ->
  fetched q (read_loop fuel bytes pos got out q)
    (fun b => eq_on 0 (got + bytes) b (slice (guest q) (pos - got)) /\ wf_buf b) True.
Proof.
  induction fuel as [|fuel IH]; intros q bytes pos got out Hq Hraw Hp Hb Hend Hfu Hout Hwo; cbn [read_loop];
    pose proof (to_cs _ (io_tables _ Hq Hraw)) as Hcs;
    destruct (blocks_left_bounds (q_cluster_size q) bytes pos 0 ltac:(lia)) as [_ Hpos];
    (destruct (Z.eqb_spec bytes 0) as [->|Hnz];
     [apply fetched_ret; [apply Hq|by rewrite Z.add_0_r]|]); [lia|].
  rewrite (bind_run get_q _ q q q) by done. cbv zeta.
  set (c := Z.min _ bytes).
  pose proof (Z.mod_pos_bound pos (q_cluster_size q) ltac:(lia)) as Hm.
  eapply fetched_bind; [apply chunk_fetched; (done || lia)|]. intros b q1 Hs Hf1 [Hx Hwx].
  pose proof (same_ok _ _ Hs Hf1 Hq) as Hq1. pose proof (same_layout _ _ Hs) as (C & _ & _).
  pose proof (same_guest _ _ Hs (io_parent _ Hq)) as Hgu. pose proof (si_raw _ _ Hs) as [R S].
  pose proof (blocks_left_step (q_cluster_size q) bytes pos 0 ltac:(lia) ltac:(lia)) as [Hc Hst].
  rewrite Z.add_0_r, Z.sub_0_r in Hc, Hst. fold c in Hc, Hst. rewrite Z.add_0_l in Hst.
  rewrite <- blocks_left_shift in Hst.
  eapply fetched_weaken; [apply IH| |done].
  - done.
  - by rewrite R.
  - lia.
  - lia.
  - rewrite S. lia.
  - rewrite C. lia.
  - intros i Hi. replace (pos + c - (got + c)) with (pos - got) by lia. unfold slice at 1. rewrite (Hgu _).
    unfold blit. case_match eqn:E.
    + rewrite Hx by lia. unfold slice. f_equal. lia.
    + by apply Hout; lia.
  - auto with bytes.
  - intros a [Ha Hwa]. split; [|done]. intros i Hi. rewrite Ha by lia. replace (pos + c - (got + c)) with (pos - got) by lia.
    unfold slice. apply Hgu.
Qed.
Lemma qcow_read_fetched q n off : image_ok q -> 0 <= off -> 0 <= n ->
  fetched q (qcow_read n off q) (fun b => eq_on 0 n b (slice (guest q) off) /\ wf_buf b) (off + n <= q_size q).
Proof.
  intros Hq Ho Hn. unfold qcow_read. rewrite (bind_run get_q _ q q q) by done.
  destruct (outside q n off) eqn:Eo; unfold outside in Eo.
  { apply fetched_fail; [apply Hq|]. intros He. rewrite !orb_true_iff, !Z.ltb_lt in Eo. lia. }
  bool_to_prop. destruct (q_raw q) eqn:Er.
  - eapply fetched_weaken; [by apply read_at_fetched; apply Hq| |].
    + intros b [Hb Hwf]. split; [|done]. intros i Hi. rewrite Hb by done. unfold slice, guest. rewrite Er.
      destruct (Z.leb_spec 0 (off + i)); [|lia]. by destruct (Z.ltb_spec (off + i) (q_size q)); [|lia].
    + intros He. rewrite <- (io_raw _ Hq Er). lia.
  - pose proof (to_cs _ (io_tables _ Hq Er)) as Hcs.
    eapply fetched_weaken; [apply loop_fetched; try done; try lia| |done].
    + unfold transfer_fuel. pose proof (blocks_left_fuel (q_cluster_size q) n off ltac:(lia) Hn).
      pose proof (Z.div_pos n (q_cluster_size q) Hn ltac:(lia)). lia.
    + intros i Hi. lia.
    + intros b Hb. by rewrite Z.sub_0_r, Z.add_0_l in Hb.
Qed.

Lemma disk_bytes q : image_ok q -> wf_buf (guest q).
Proof.
  intros Hq i. pose proof (proj1 (proj2 (io_file _ Hq))) as Hf. pose proof (io_parent _ Hq) as Hp.
  unfold guest, stored_byte, inherited. destruct (_ && _); [|lia]. destruct (q_raw q); [apply Hf|].
  destruct (has_flag _ _); [lia|]. destruct (negb _); [apply Hf|].
  destruct (q_parent q) as [[p n]|]; [|lia]. destruct (_ <? _); [|lia]. apply rd_wf, Hp.
Qed.
#[export] Instance qcow_read_spec : ReadSpec (qcow P).
Proof.
  refine (Build_ReadSpec (qcow P) _ guest q_size image_ok calm disk_bytes _).
  intros n off q r q' Hq Ho Hn Hr. pose proof (qcow_read_fetched q n off Hq Ho Hn) as (Hs & Hf & Hw & Ht).
  change (qcow_read n off q = (r, q')) in Hr. rewrite Hr in Hs, Hf, Hw, Ht. cbn [fst snd] in *.
  split_and!; [by eapply same_ok|by apply same_guest; [|apply Hq]|by destruct (si_raw _ _ Hs)|done|done].
Defined.
End reading.
