(* ===== verification/QcowChain.v ===== *)
(** * Opened QCOW2 chains

    What nextufs__qcow2_open of src/src/core/qcow2.c hands to the filesystem code: an image
    with its backing files, each of them checked, that reads as one disk. *)
From S2P Require Import Prelude.
From S2P Require Import Bytes.
From S2P Require Import Backend.
From S2P Require Import Dirent.
From S2P Require Import Path.
From S2P Require Import Qcow.
From S2P Require Import QcowOpen.
From S2P Require Import QcowCheck.
From S2P Require Import QcowRead.

Section opening.
Context {P : Type} `{HB : Backend P, HR : !ReadSpec P}.
Implicit Types (q : qcow P).

(** Steps that keep the header's fields, the parent and the file *)
Record base q q' : Prop := Base {
  ba_layout : layout q' = layout q;
  ba_image : (q_raw q', q_size q', q_writable q', q_parent q', q_host_capacity q') =
    (q_raw q, q_size q, q_writable q, q_parent q, q_host_capacity q);
  ba_data : f_data (q_file q') = f_data (q_file q) /\ f_size (q_file q') = f_size (q_file q);
  ba_calm : f_script (q_file q) = [] -> f_script (q_file q') = [];
}.
#[export] Instance base_preorder : PreOrder base.
Proof.
  split; [by intros q|]. intros a b c [L1 I1 [D1 S1] C1] [L2 I2 [D2 S2] C2].
  constructor; [congruence|congruence|split; congruence|auto].
Qed.
Definition same_tags q q' : Prop := q_tags q' = q_tags q.
#[export] Instance same_tags_preorder : PreOrder same_tags.
Proof. split; [by intros q|]. unfold same_tags. intros a b c. congruence. Qed.

Section both.
Variable R : qcow P -> qcow P -> Prop.
Context `{!PreOrder R}.
Hypothesis R_set_file : forall q f, f_data f = f_data (q_file q) -> f_size f = f_size (q_file q) ->
  (f_script (q_file q) = [] -> f_script f = []) -> R q (set_file q f).
Hypothesis R_heap : forall q h, R q (set_heap q h).
Lemma get_q_stable : Stable R (get_q (P:=P)).
Proof. by intros q r q' [= <- <-]. Qed.
Lemma modify_stable f : (forall q, R q (f q)) -> Stable R (modify (P:=P) f).
Proof. intros Hf q r q' [= <- <-]. apply Hf. Qed.
Lemma q_alloc_stable : Stable R (q_alloc (P:=P)).
Proof. intros q r q'. unfold q_alloc. destruct (q_heap q) as [|b h]; intros [= <- <-]; [done|apply R_heap]. Qed.
Lemma read_at_stable n off : Stable R (read_at (P:=P) n off).
Proof.
  intros q r q' Hr. unfold read_at in Hr. rewrite (bind_run get_q _ q q q) in Hr by done.
  destruct (negb _) in Hr; [by injection Hr as <- <-|].
  unfold on_fd in Hr. destruct (read_exact_fd n off (q_file q)) as [x f] eqn:E. injection Hr as <- <-.
  pose proof E as E'. apply read_exact_fd_spec in E' as (Hd & Hs & _). apply R_set_file; [done|done|].
  intros Hc. destruct (read_exact_fd_run n off (q_file q)) as (r1 & f1 & Hl & Hrun).
  rewrite Hrun in E. injection E as <- <-. apply read_loop_script in Hl; [|done]. by subst f1.
Qed.
Hypothesis R_l1 : forall q x, R q (set_l1 q x).
Hypothesis R_table : forall q x, R q (set_ref_table q x).
Local Hint Resolve get_q_stable q_alloc_stable read_at_stable modify_stable R_l1 R_table : stable.
Lemma read_u64_stable off : Stable R (read_u64 (P:=P) off).
Proof. unfold read_u64. solve_stable. Qed.
Local Hint Resolve read_u64_stable : stable.
Lemma load_tables_stable n :
  Stable R (for_each (seqZ 0 n) (load_l1 (P:=P))) /\ Stable R (for_each (seqZ 0 n) (load_ref_table (P:=P))).
Proof. split; unfold load_l1, load_ref_table; solve_stable. Qed.
Lemma five_allocs_stable : Stable R (five_allocs (P:=P)).
Proof. unfold five_allocs. solve_stable. Qed.
Lemma extensions_stable fuel : forall ext ext_end format, Stable R (extensions (P:=P) fuel ext ext_end format).
Proof. induction fuel as [|fuel IH]; intros ext ext_end format; cbn [extensions]; solve_stable; by auto. Qed.
Lemma read_backing_stable hdr : Stable R (read_backing_name (P:=P) hdr).
Proof. unfold read_backing_name. solve_stable. Qed.
Lemma is_vdi_stable : Stable R (is_vdi_at_64 (P:=P)).
Proof. unfold is_vdi_at_64. solve_stable. Qed.
Hypothesis R_tags : forall q x, R q (set_tags q x).
Hypothesis R_refs : forall q x, R q (set_refs q x).
Local Hint Resolve R_tags R_refs : stable.
Lemma mark_region_stable e off bytes tag : Stable R (mark_region (P:=P) e off bytes tag).
Proof. unfold mark_region, mark_cluster. solve_stable. Qed.
Local Hint Resolve mark_region_stable : stable.
Lemma validate_stable : Stable R (validate_tables (P:=P)).
Proof.
  unfold validate_tables, check_ref_block, check_l1_entry, check_l2_entry, load_refcount. solve_stable.
Qed.
End both.

Lemma base_file q f : f_data f = f_data (q_file q) -> f_size f = f_size (q_file q) ->
  (f_script (q_file q) = [] -> f_script f = []) -> base q (set_file q f).
Proof. by constructor. Qed.
Lemma base_same q q' : q_file q' = q_file q -> layout q' = layout q ->
  (q_raw q', q_size q', q_writable q', q_parent q', q_host_capacity q') =
    (q_raw q, q_size q, q_writable q, q_parent q, q_host_capacity q) -> base q q'.
Proof. intros E ??. constructor; by rewrite ?E. Qed.
Definition setup q q' : Prop := base q q' /\ same_tags q q'.
#[export] Instance setup_preorder : PreOrder setup.
Proof. split; [by intros q|]. intros a b c [? ?] [? ?]. split; by etrans. Qed.
Lemma setup_file q f : f_data f = f_data (q_file q) -> f_size f = f_size (q_file q) ->
  (f_script (q_file q) = [] -> f_script f = []) -> setup q (set_file q f).
Proof. intros ???. split; [by apply base_file|done]. Qed.
Lemma setup_same q q' : q_file q' = q_file q -> layout q' = layout q ->
  (q_raw q', q_size q', q_writable q', q_parent q', q_host_capacity q') =
    (q_raw q, q_size q, q_writable q, q_parent q, q_host_capacity q) ->
  q_tags q' = q_tags q -> setup q q'.
Proof. intros ????. split; [by apply base_same|done]. Qed.
Lemma load_tables_setup n :
  Stable setup (for_each (seqZ 0 n) (load_l1 (P:=P))) /\
  Stable setup (for_each (seqZ 0 n) (load_ref_table (P:=P))).
Proof. apply (load_tables_stable setup); try apply _; intros; (by apply setup_file) || (by apply setup_same). Qed.
Lemma extensions_setup fuel ext ext_end format : Stable setup (extensions (P:=P) fuel ext ext_end format).
Proof. apply extensions_stable; try apply _; intros; (by apply setup_file) || (by apply setup_same). Qed.
Lemma allocs_setup : Stable setup (five_allocs (P:=P)).
Proof. apply five_allocs_stable; try apply _; intros; by apply setup_same. Qed.
Lemma validate_base : Stable base (validate_tables (P:=P)).
Proof. apply validate_stable; try apply _; intros; (by apply base_file) || (by apply base_same). Qed.
Lemma read_at_base n off : Stable base (read_at (P:=P) n off).
Proof. apply read_at_stable; try apply _; intros; by apply base_file. Qed.
Lemma read_at_keeps n off : Stable same_tags (read_at (P:=P) n off).
Proof. apply read_at_stable; try apply _; try done. Qed.
Lemma backing_name_base hdr : Stable base (read_backing_name (P:=P) hdr).
Proof. apply read_backing_stable; try apply _; intros; by apply base_file. Qed.
Lemma backing_name_marks hdr : Stable marks_only (read_backing_name (P:=P) hdr).
Proof. apply read_backing_stable; try apply _; intros; by (split; [constructor|]). Qed.
Lemma vdi_base : Stable base (is_vdi_at_64 (P:=P)).
Proof. apply is_vdi_stable; try apply _; intros; by apply base_file. Qed.

Lemma read_inside q n off b q' : qcow_read n off q = (Ok b, q') -> off + n <= q_size q.
Proof.
  unfold qcow_read. rewrite (bind_run get_q _ q q q) by done.
  destruct (outside q n off) eqn:Eq; [done|]. unfold outside in Eq. bool_to_prop. lia.
Qed.
Lemma read_completes q n off : image_ok q -> calm q -> 0 <= off -> 0 <= n -> off + n <= q_size q ->
  exists b q', qcow_read n off q = (Ok b, q').
Proof.
  intros Hq Hc Ho Hn He. destruct (qcow_read_fetched q n off Hq Ho Hn) as (_ & _ & _ & Ht).
  destruct (Ht Hc He) as [Hok _]. destruct (qcow_read n off q) as [[b|e] q']; [by exists b, q'|done].
Qed.

(** ** From the header to the checked image *)
Definition answers_ok (op : name -> bool -> result (P * Z * bool)) : Prop :=
  forall path raw p psize praw, op path raw = Ok (p, psize, praw) -> rd_inv p /\ psize = rd_size p.
Definition answers_calm (op : name -> bool -> result (P * Z * bool)) : Prop :=
  forall path raw p psize praw, op path raw = Ok (p, psize, praw) -> rd_calm p.
(** What is known of the file before anything is read *)
Record opened_file q : Prop := OpenedFile {
  of_file : file_inv (q_file q);
  of_size : q_file_size q = f_size (q_file q);
  of_parent : q_parent q = None;
}.
Lemma base_opened q q' : base q q' -> opened_file q -> opened_file q'.
Proof.
  intros [L I [D S] _] [O1 O2 O3]. apply layout_inv in L as (_ & _ & _ & _ & _ & _ & F & _).
  injection I as _ _ _ Hp. constructor; [unfold file_inv; by rewrite D, S|by rewrite F, S|congruence].
Qed.
Lemma header_facts q hdr : wf_buf hdr ->
  unsupported_header hdr = false -> bad_header (with_header (P:=P) q hdr) hdr = false ->
  let q1 := with_header (P:=P) q hdr in
  512 <= q_cluster_size q1 /\ 0 <= q_l1_size q1 /\ 0 <= q_ref_clusters q1 /\ 0 <= q_ref_entries q1 /\
  q_size q1 <= q_l1_size q1 * entries_per_l2 q1 * q_cluster_size q1.
Proof.
  intros Hwf Hu Hb q1. unfold unsupported_header in Hu. unfold bad_header in Hb. fold q1 in Hb. bool_to_prop.
  pose proof (read_be32_range _ Hwf 36) as R1. pose proof (read_be32_range _ Hwf 56) as R2.
  assert (Hcs : 512 <= q_cluster_size q1).
  { change (512 <= Z.shiftl 1 (cluster_bits hdr)). rewrite Z.shiftl_mul_pow2 by lia.
    change 512 with (2 ^ 9). pose proof (Z.pow_le_mono_r 2 9 (cluster_bits hdr) ltac:(lia) ltac:(lia)). lia. }
  destruct (table_size q1 Hcs) as [He _].
  assert (Hl : 0 <= q_l1_size q1) by apply R1. assert (Hr : 0 <= q_ref_clusters q1) by apply R2.
  split_and!; [done|done|done| |].
  - change (0 <= q_ref_clusters q1 * entries_per_l2 q1). nia.
  - pose proof (Z.div_mod (q_size q1) (q_cluster_size q1) ltac:(lia)).
    pose proof (Z.mod_pos_bound (q_size q1) (q_cluster_size q1) ltac:(lia)).
    destruct (Z.eqb_spec (q_size q1 mod q_cluster_size q1) 0); nia.
Qed.

Lemma open_backing_ok path hdr format op q q' :
  answers_ok op -> image_ok q -> open_backing path hdr format op q = (Ok tt, q') ->
  image_ok q' /\ q_raw q' = q_raw q /\ q_size q' = q_size q /\
  (answers_calm op -> f_script (q_file q) = [] -> calm q').
Proof.
  intros Ho Hq Hr. unfold open_backing in Hr. apply bind_ok in Hr as (nm & q1 & H1 & Hr).
  pose proof (backing_name_base _ _ _ _ H1) as [L1 I1 [D1 S1] C1].
  pose proof (backing_name_marks _ _ _ _ H1) as Hm.
  apply bind_ok in Hr as (res & q2 & H2 & Hr). unfold of_result in H2. injection H2 as _ <-.
  apply bind_ok in Hr as ([[p psize] praw] & q3 & H3 & Hr). unfold of_result in H3. injection H3 as Hop <-.
  destruct (_ && _) in Hr; [done|]. unfold modify in Hr. injection Hr as <-.
  injection I1 as R1 Z1 _ _ _. destruct (Ho _ _ _ _ _ Hop) as [Hi ->].
  pose proof (layout_inv _ _ L1) as (C & L & _ & _ & _ & _ & F & _).
  destruct Hq as [J1 J2 J3 J4 J5]. split_and!; [|done|done|].
  - constructor; cbn [q_file q_parent set_parent q_raw q_size q_file_size].
    + unfold file_inv in *. by rewrite D1, S1.
    + by rewrite F, S1.
    + by split.
    + by rewrite R1, Z1, F.
    + rewrite R1. intros Hraw. destruct (J5 Hraw) as [T1 T2 T3 T4].
      constructor; unfold entries_per_l2; cbn [q_cluster_size q_l1_size q_size set_parent];
        rewrite ?C, ?L, ?Z1; try done.
      change (Forall (good_entry q1) (entries q1)). rewrite (still_entries q q1) by apply Hm.
      eapply Forall_impl; [exact T4|]. intros x. by apply good_entry_kept'.
  - intros Hc Hs. split; [by apply C1|]. by apply (Hc _ _ _ _ _ Hop).
Qed.

(** The refcount table is read from the file, whose bytes are bytes. *)
Definition same_table q q' : Prop := q_ref_table q' = q_ref_table q.
#[export] Instance same_table_preorder : PreOrder same_table.
Proof. split; [by intros q|]. unfold same_table. intros a b c. congruence. Qed.
Lemma allocs_table : Stable same_table (five_allocs (P:=P)).
Proof. by apply five_allocs_stable; try apply _. Qed.
Lemma load_l1_table n : Stable same_table (for_each (seqZ 0 n) (load_l1 (P:=P))).
Proof.
  assert (Hr : forall off, Stable same_table (read_u64 (P:=P) off)) by (intros off; by apply read_u64_stable; try apply _).
  unfold load_l1. solve_stable; first [apply Hr|by apply get_q_stable; try apply _|by apply modify_stable].
Qed.
Lemma extensions_table fuel ext ext_end format : Stable same_table (extensions (P:=P) fuel ext ext_end format).
Proof. by apply extensions_stable; try apply _. Qed.
Lemma load_ref_table_range n q q' : 0 <= n -> wf_buf (raw_data q) -> (forall i, 0 <= q_ref_table q i) ->
  for_each (seqZ 0 n) load_ref_table q = (Ok tt, q') -> forall i, 0 <= q_ref_table q' i.
Proof.
  intros Hn Hwf H0 Hr.
  apply (for_each_inv (fun _ w => raw_data w = raw_data q /\ forall i, 0 <= q_ref_table w i)) in Hr; [by destruct Hr|done|done|].
  intros k w w' _ [Hd Hw] Hs. unfold load_ref_table in Hs. rewrite (bind_run get_q _ w w w) in Hs by done.
  apply bind_ok in Hs as (e & w1 & H1 & Hs). unfold modify in Hs. injection Hs as <-.
  unfold read_u64 in H1. apply bind_ok in H1 as (b & w2 & H1 & [= <- <-]). apply read_at_ok in H1 as (_ & (f & Hf & _ & ->) & Hb).
  split; [by rewrite <- Hd|]. intros i. cbn [q_ref_table set_ref_table]. unfold set_at. destruct (i =? k); [|apply Hw].
  unfold be64. rewrite (read_be64_eq_on b (slice (raw_data w) (w64 (q_ref_offset w + k * 8))) 0) by (intros x Hx; apply Hb; lia).
  apply read_be64_range. rewrite Hd. by apply wf_slice.
Qed.
(** The steps of opening up to the validation *)
Lemma load_image_inv path hdr op q q' : wf_buf hdr -> opened_file q -> load_image path hdr op q = (Ok tt, q') ->
  let q1 := with_header q hdr in
  unsupported_header hdr = false /\ bad_header q1 hdr = false /\
  exists q7 q8, setup q1 q7 /\ (forall i, 0 <= q_ref_table q7 i) /\ validate_tables q7 = (Ok tt, q8) /\
    exists format, (if backing_off hdr =? 0 then ret tt else open_backing path hdr format op) q8 = (Ok tt, q').
Proof.
  intros Hwf Hq Hr q1. unfold load_image in Hr.
  apply bind_ok in Hr as ([] & q0 & H0 & Hr). apply fail_if_ok in H0 as [Hu ->].
  rewrite (bind_run (modify _) _ q tt q1) in Hr by done.
  rewrite (bind_run get_q _ q1 q1 q1) in Hr by done.
  apply bind_ok in Hr as ([] & q2 & H2 & Hr). apply fail_if_ok in H2 as [Hb ->].
  apply bind_ok in Hr as ([] & q3 & H3 & Hr). apply fail_if_ok in H3 as [_ ->].
  apply bind_ok in Hr as ([] & q4 & H4 & Hr). pose proof (allocs_table _ _ _ H4) as T4. apply allocs_setup in H4.
  apply bind_ok in Hr as ([] & q5 & H5 & Hr). pose proof (load_l1_table _ _ _ _ H5) as T5. apply load_tables_setup in H5.
  apply bind_ok in Hr as ([] & q6 & H6 & Hr). pose proof H6 as T6. apply load_tables_setup in H6.
  apply bind_ok in Hr as (format & q7 & H7 & Hr). pose proof (extensions_table _ _ _ _ _ _ _ H7) as T7. apply extensions_setup in H7.
  assert (Hs5 : setup q1 q5) by (etrans; [exact H4|exact H5]).
  assert (Hs : setup q1 q7) by (etrans; [exact Hs5|]; by etrans).
  apply bind_ok in Hr as ([] & q8 & H8 & Hr). split_and!; [done|done|]. exists q7, q8. split_and!; [done| |done|by exists format].
  intros i. rewrite T7. apply (load_ref_table_range (q_ref_entries q1) q5); [| | |exact T6].
  - apply (header_facts q hdr Hwf Hu Hb).
  - unfold raw_data. rewrite (proj1 (ba_data _ _ (proj1 Hs5))). apply Hq.
  - intros k. by rewrite T5, T4.
Qed.
Lemma load_image_ok path hdr op q q' :
  wf_buf hdr -> answers_ok op -> opened_file q -> load_image path hdr op q = (Ok tt, q') ->
  image_ok q' /\ q_raw q' = false /\ (answers_calm op -> f_script (q_file q) = [] -> calm q').
Proof.
  intros Hwf Ho Hq Hr. apply load_image_inv in Hr as (Hu & Hb & q7 & q8 & [Hb7 Ht7] & _ & H8 & format & Hr); [|done|done].
  set (q1 := with_header q hdr) in *. destruct (header_facts q hdr Hwf Hu Hb) as (Hcs & Hl1 & Hrc & Hre & Hcov). fold q1 in Hcs, Hl1, Hrc, Hre, Hcov.
  assert (Hf1 : opened_file q1) by (destruct Hq; by constructor).
  pose proof (validate_base _ _ _ H8) as Hb8.
  pose proof (layout_inv _ _ (ba_layout _ _ Hb7)) as (C & L & RC & RE & _ & _ & F & _).
  apply validate_ok in H8 as (Hst & _ & _ & Hg & _).
  2: { constructor; [lia|lia|]. by rewrite Ht7. }
  pose proof (layout_inv _ _ (st_layout _ _ Hst)) as (C8 & L8 & _).
  assert (Hb18 : base q1 q8) by by etrans.
  pose proof Hb18 as [_ I _ Hcalm]. injection I as R8 Z8 _ P8 _.
  pose proof (base_opened _ _ Hb18 Hf1) as [O1 O2 O3].
  assert (Hq8 : image_ok q8).
  { constructor; [done|lia|by rewrite O3|by rewrite R8|]. intros _.
    constructor; unfold entries_per_l2; rewrite ?C8, ?L8, ?C, ?L, ?Z8; try done.
    by rewrite (still_entries q7 q8). }
  destruct (backing_off hdr =? 0).
  - injection Hr as <-. split_and!; [done|done|]. intros _ Hc. split; [by apply Hcalm|by rewrite O3].
  - apply open_backing_ok in Hr as (J1 & J2 & J3 & J4); [|done|done].
    split_and!; [done|congruence|]. intros Hc Hs. apply J4; [done|]. by apply Hcalm.
Qed.

Lemma qcow_load_ok path raw op src writable heap q' :
  answers_ok op -> file_inv (so_file src) ->
  qcow_load path raw op (fresh_qcow src writable heap) = (Ok tt, q') ->
  image_ok q' /\ (answers_calm op -> f_script (so_file src) = [] -> calm q').
Proof.
  intros Ho Hf Hr. set (q := fresh_qcow src writable heap) in *.
  assert (Hq : opened_file q) by by constructor.
  assert (Hasraw : forall q1, base q q1 -> image_ok (as_raw q1) /\
    (f_script (so_file src) = [] -> calm (as_raw q1))).
  { intros q1 Hb. pose proof (base_opened _ _ Hb Hq) as [O1 O2 O3].
    split; [constructor; [done|change (q_file_size q1 <= f_size (q_file q1)); lia|done|done|done]|]. intros Hs. split; [by apply Hb|done]. }
  unfold qcow_load in Hr. destruct raw.
  { unfold modify in Hr. injection Hr as <-. destruct (Hasraw q) as [? Hc]; [done|]. split; [done|by auto]. }
  rewrite (bind_run get_q _ q q q) in Hr by done.
  set (n := if _ <? 104 then _ else _) in Hr.
  apply bind_ok in Hr as (b & q1 & H1 & Hr). pose proof (read_at_base _ _ _ _ _ H1) as Hb1.
  apply read_at_ok in H1 as (_ & _ & Hb).
  assert (Hwf : wf_buf (blit zeros 0 b n)).
  { intros i. unfold blit. destruct ((0 <=? i) && (i <? 0 + n)) eqn:E; [|apply wf_zeros]. rewrite Hb by lia. apply Hf. }
  destruct (_ =? QCOW_MAGIC).
  - apply load_image_ok in Hr as (J1 & _ & J2); [|done|done|by eapply base_opened].
    split; [done|]. intros Hc Hs. apply J2; [done|]. by apply Hb1.
  - apply bind_ok in Hr as (vdi & q2 & H2 & Hr). apply vdi_base in H2. destruct vdi; [done|].
    unfold modify in Hr. injection Hr as <-. destruct (Hasraw q2) as [? Hc]; [by etrans|].
    split; [done|by auto].
Qed.
End opening.

(** ** Chains *)
#[export] Instance no_read_spec : ReadSpec Empty_set.
Proof.
  refine (Build_ReadSpec Empty_set _ (fun _ => zeros) (fun _ => 0) (fun _ => False) (fun _ => False) _ _).
  - by intros [].
  - by intros n off [].
Defined.
Fixpoint chain_read_spec (n : nat) : ReadSpec (chain n) :=
  match n with
  | O => no_read_spec
  | S n => @qcow_read_spec (chain n) (chain_backend n) (chain_read_spec n)
  end.
#[export] Existing Instance chain_read_spec.
Definition host_ok (host : name -> bool -> result source) : Prop :=
  forall path writable src, host path writable = Ok src -> file_inv (so_file src).
Definition host_calm (host : name -> bool -> result source) : Prop :=
  forall path writable src, host path writable = Ok src -> f_script (so_file src) = [].
Lemma size_and_raw_size n (p : chain n) : fst (size_and_raw n p) = rd_size p.
Proof. by destruct n as [|n]; [destruct p|]. Qed.
Lemma qcow_open_ok n host : host_ok host -> forall path writable raw ancestors q,
  qcow_open n host path writable raw ancestors = Ok q ->
  rd_inv q /\ (host_calm host -> rd_calm q).
Proof.
  intros Hh. induction n as [|n IH]; intros path writable raw ancestors q Ho; cbn [qcow_open] in Ho; [done|].
  destruct (host path writable) as [src|] eqn:Es; [|done].
  assert (Hrest : forall h, (if negb (so_regular src) then Err EINVAL
      else if bool_decide (so_id src ∈ ancestors) then Err ELOOP
      else
        let open_parent path force_raw :=
          match qcow_open n host path false force_raw (so_id src :: ancestors) with
          | Err e => Err e
          | Ok p => Ok (p, fst (size_and_raw n p), snd (size_and_raw n p))
          end in
        let (rc, q) := qcow_load path raw open_parent (fresh_qcow src writable h) in
        match rc with Ok _ => Ok q | Err e => Err e end) = Ok q ->
      rd_inv (C:=chain (S n)) q /\ (host_calm host -> rd_calm (C:=chain (S n)) q)).
  { intros h H. destruct (negb _) in H; [done|]. destruct (bool_decide _) in H; [done|].
    cbv zeta in H. set (op := fun path0 force_raw => _) in H.
    destruct (qcow_load path raw op _) as [[[]|e] q1] eqn:El in H; [|done]. injection H as <-.
    assert (Hop : forall path0 raw0 p psize praw, op path0 raw0 = Ok (p, psize, praw) ->
      (rd_inv p /\ psize = rd_size p) /\ (host_calm host -> rd_calm p)).
    { intros path0 raw0 p psize praw. unfold op. destruct (qcow_open n _ _ _ _ _) as [p1|] eqn:Ep; [|done].
      intros [= <- <- <-]. apply IH in Ep as [Hi Hc]. split; [|done]. split; [done|apply size_and_raw_size]. }
    apply qcow_load_ok in El as [J1 J2]; [|by intros ????? H; apply Hop in H as [? _]|by eapply Hh].
    split; [exact J1|]. intros Hc. apply J2; [|by eapply Hc].
    intros ????? H. apply Hop in H as [_ H]. by apply H. }
  destruct (so_heap src) as [|[|] h]; [| |done]; by apply Hrest in Ho.
Qed.

Lemma opened_reads m host path writable raw ancestors (q : qcow (chain m)) n off :
  host_ok host -> qcow_open (S m) host path writable raw ancestors = Ok q -> 0 <= off -> 0 <= n ->
  (forall r q', qcow_read n off q = (r, q') ->
     guest q' ≡ guest q /\
     forall b, r = Ok b -> off + n <= q_size q /\ eq_on 0 n b (slice (guest q) off)) /\
  (host_calm host -> off + n <= q_size q -> exists b q', qcow_read n off q = (Ok b, q')).
Proof.
  intros Hhost Ho Hoff Hn. apply (qcow_open_ok (S m)) in Ho as [Hi Hc]; [|done].
  change (image_ok q) in Hi. change (host_calm host -> calm q) in Hc.
  pose proof (qcow_read_fetched q n off Hi Hoff Hn) as (Hs & Hf & Hw & _).
  split.
  - intros r q' Hr. rewrite Hr in Hs, Hf, Hw. cbn [fst snd] in *.
    split; [by apply same_guest; [|apply Hi]|]. intros b ->. split; [|by apply Hw].
    by apply read_inside in Hr.
  - intros Hcalm Hend. apply read_completes; auto.
Qed.

(** ** Property *)

(** C19. An opened QCOW2 image reads as one disk, through all its backing files: whatever the
  host answers, a read that succeeds stays inside the disk and returns its bytes -- those of
  the cluster the tables map, zeros, or those of the backing file as far as that reaches --
  and changes nothing of the disk; and every read inside the disk succeeds when the host
  fails no transfer. *)
Theorem qcow2_reads host path writable (q : qcow (chain 31)) n off
    (Hhost : host_ok host) (Hopen : qcow2_open host path writable = Ok q)
    (Hoff : 0 <= off) (Hn : 0 <= n) :
  (forall r q', qcow_read n off q = (r, q') ->
     guest q' ≡ guest q /\
     forall b, r = Ok b -> off + n <= q_size q /\ eq_on 0 n b (slice (guest q) off)) /\
  (host_calm host -> off + n <= q_size q -> exists b q', qcow_read n off q = (Ok b, q')).
Proof.
  apply (opened_reads 31 host path writable false []); [done| |done|done].
  change (qcow_open QCOW_MAX_DEPTH host path writable false [] = Ok q).
  revert Hopen. unfold qcow2_open. generalize (qcow_open QCOW_MAX_DEPTH host path writable false []).
  intros [q1|e]; [|done]. destruct (snd _); [done|]. intros H; exact H.
Qed.

(** ** A small chain: an empty overlay of two clusters over a raw file of 600 bytes *)
Definition small_qcow2 : buf :=
  let b := foldr (fun '(off, v) p => write_be32 p off v) zeros
    [(0, QCOW_MAGIC); (4, 2); (12, 80); (16, 1); (20, 9); (28, 1000); (36, 1); (44, 512);
     (52, 1024); (56, 1); (1028, 1536); (80, 98 * 2 ^ 24)] in
  foldr (fun off p => write_be16 p off 1) b [1536; 1538; 1540; 1542].
Definition small_host (path : name) (writable : bool) : result source :=
  if bool_decide (path = [47; 111]) then Ok (Source (File small_qcow2 2048 [] []) true (1, 1) [])
  else if bool_decide (path = [47; 98])
  then Ok (Source (File (fill zeros 0 7 600) 600 [] []) true (1, 2) [])
  else Err ENOENT.
Definition small_open : result (qcow (chain 31)) := qcow2_open small_host [47; 111] false.
Definition small_source : source := Source (File zeros 0 [] []) true (0, 0) [].
Definition small_image : qcow (chain 31) :=
  match small_open return qcow (chain 31) with
  | Ok q => q
  | Err _ => fresh_qcow small_source false []
  end.
Lemma wf_words l b : wf_buf b -> wf_buf (foldr (fun '(off, v) p => write_be32 p off v) b l).
Proof. intros Hb. induction l as [|[off v] l IH]; [done|]. cbn [foldr]. by apply wf_write_be32. Qed.
Lemma wf_halves l b : wf_buf b -> wf_buf (foldr (fun off p => write_be16 p off 1) b l).
Proof. intros Hb. induction l as [|off l IH]; [done|]. cbn [foldr]. by apply wf_write_be16. Qed.
Lemma words_out l b i : Forall (fun x => ~ (fst x <= i < fst x + 4)) l ->
  foldr (fun '(off, v) p => write_be32 p off v) b l i = b i.
Proof. induction 1 as [|[off v] l Hx _ IH]; [done|]. cbn [foldr]. by rewrite write_be32_out. Qed.
Lemma halves_out l b i : Forall (fun off => ~ (off <= i < off + 2)) l ->
  foldr (fun off p => write_be16 p off 1) b l i = b i.
Proof. induction 1 as [|off l Hx _ IH]; [done|]. cbn [foldr]. by rewrite write_be16_out. Qed.
Lemma small_host_ok : host_ok small_host /\ host_calm small_host.
Proof.
  split; intros path writable src; unfold small_host; (case_bool_decide; [|case_bool_decide; [|done]]);
    intros [= <-]; try done; cbn [so_file].
  - split; [done|]. split; [apply wf_halves, wf_words, wf_zeros|].
    intros i Hi. cbn [f_size f_data] in *. unfold small_qcow2.
    rewrite halves_out, words_out; [done| |]; repeat constructor; cbn [fst]; lia.
  - split; [done|]. split; [cbn [f_data]; auto with bytes|]. intros i Hi. cbn [f_size f_data] in *.
    unfold fill. rewrite blit_out by lia. done.
Qed.
Lemma small_chain_opens : qcow2_open small_host [47; 111] false = Ok small_image.
Proof.
  assert (Hok : is_ok (qcow2_open small_host [47; 111] false) = true) by (vm_compute; reflexivity).
  unfold small_image, small_open. revert Hok.
  generalize (qcow2_open small_host [47; 111] false). by intros [q|e].
Qed.
Lemma qcow2_reads_witness :
  (forall r q', qcow_read 4 598 small_image = (r, q') ->
     guest q' ≡ guest small_image /\
     forall b, r = Ok b -> 598 + 4 <= q_size small_image /\ eq_on 0 4 b (slice (guest small_image) 598)) /\
  (host_calm small_host -> 598 + 4 <= q_size small_image ->
     exists b q', qcow_read 4 598 small_image = (Ok b, q')).
Proof.
  apply (qcow2_reads small_host [47; 111] false).
  - apply small_host_ok.
  - exact small_chain_opens.
  - lia.
  - lia.
Defined.
(** The last two bytes of the backing file, then zeros *)
Example small_bytes :
  q_size small_image = 1000 /\ map (guest small_image) [598; 599; 600; 601] = [7; 7; 0; 0].
Proof. vm_compute. split; reflexivity. Qed.
