(* ===== verification/QcowState.v ===== *)
(** * QCOW2 images that can be written: the invariant

    What every write relies on and keeps (src/src/core/qcow2.c): where the tables lie, what
    every host cluster is used for, and that the refcount of a cluster is the number of its
    uses.  The uses are counted by kind: metadata, L2 tables, data. *)
From S2P Require Import Prelude.
From S2P Require Import Bytes.
From S2P Require Import Backend.
From S2P Require Import Qcow.
From S2P Require Import QcowOpen.
From S2P Require Import QcowCheck.
From S2P Require Import QcowRead.

(** ** Counting *)
(** Does the cluster at [off] exist and have number [n]? *)
Definition points (cs off n : Z) : Z := if (off =? 0) || negb (off / cs =? n) then 0 else 1.
Definition within (first count n : Z) : Z := if (first <=? n) && (n <? first + count) then 1 else 0.

Lemma points_range cs off n : 0 <= points cs off n <= 1.
Proof. unfold points. destruct (_ || _); lia. Qed.
Lemma within_range first count n : 0 <= within first count n <= 1.
Proof. unfold within. destruct (_ && _); lia. Qed.
Lemma points_spec cs off n : points cs off n <> 0 <-> off <> 0 /\ off / cs = n.
Proof. unfold points. destruct (Z.eqb_spec off 0), (Z.eqb_spec (off / cs) n); cbn; naive_solver. Qed.
Lemma points_one cs off n : off <> 0 -> off / cs = n -> points cs off n = 1.
Proof. intros H1 H2. pose proof (points_range cs off n). pose proof (proj2 (points_spec cs off n)). intuition lia. Qed.
Lemma points_other cs off n : off / cs <> n -> points cs off n = 0.
Proof. intros H. destruct (Z.eq_dec (points cs off n) 0) as [|E]; [done|]. by apply points_spec in E as []. Qed.
Lemma within_spec first count n : within first count n <> 0 <-> first <= n < first + count.
Proof. unfold within. destruct (Z.leb_spec first n), (Z.ltb_spec n (first + count)); cbn; lia. Qed.

Lemma sumZ_nonneg f n : (forall k, 0 <= k < n -> 0 <= f k) -> 0 <= sumZ f n.
Proof.
  intros Hf. unfold sumZ. assert (H : forall k, k ∈ seqZ 0 n -> 0 <= f k) by (intros k Hk%elem_of_seqZ; apply Hf; lia).
  induction (seqZ 0 n) as [|k l IH]; cbn; [lia|].
  pose proof (H k ltac:(by left)). assert (0 <= foldr (fun k acc => f k + acc) 0 l); [|lia]. apply IH. intros j Hj. apply H. by right.
Qed.
(** A sum of terms that are not negative is positive exactly if one of them is. *)
Lemma sumZ_pos f n : (forall k, 0 <= k < n -> 0 <= f k) -> sumZ f n <> 0 -> exists k, 0 <= k < n /\ f k <> 0.
Proof.
  intros Hf Hn. destruct (decide (Exists (fun k => f k <> 0) (seqZ 0 n))) as [He|He].
  - apply Exists_exists in He as (k & Hk & Hne). apply elem_of_seqZ in Hk. exists k. split; [lia|done].
  - exfalso. apply Hn. rewrite (sumZ_ext f (fun _ => 0)).
    + unfold sumZ. generalize (seqZ 0 n). intros l. induction l as [|x l IH]; [done|]. cbn [foldr]. by rewrite IH.
    + intros k Hk. destruct (Z.eq_dec (f k) 0); [done|]. exfalso. apply He, Exists_exists. exists k.
      split; [apply elem_of_seqZ; lia|done].
Qed.
Lemma sumZ_le f n k : 0 <= k < n -> (forall j, 0 <= j < n -> 0 <= f j) -> f k <= sumZ f n.
Proof.
  intros Hk Hf. rewrite (sumZ_update (fun j => if decide (j = k) then 0 else f j) f n k Hk).
  - rewrite decide_True by done. enough (0 <= sumZ (fun j => if decide (j = k) then 0 else f j) n) by lia.
    apply sumZ_nonneg. intros j Hj. destruct (decide _); [lia|by apply Hf].
  - intros j _ Hj. by rewrite decide_False.
Qed.
(** Two terms are both in the sum. *)
Lemma sumZ_two f n j k : 0 <= j < n -> 0 <= k < n -> j <> k -> (forall i, 0 <= i < n -> 0 <= f i) ->
  f j + f k <= sumZ f n.
Proof.
  intros Hj Hk Hne Hf. rewrite (sumZ_update (fun i => if decide (i = k) then 0 else f i) f n k Hk).
  - rewrite decide_True by done. pose proof (sumZ_le (fun i => if decide (i = k) then 0 else f i) n j Hj) as H.
    cbv beta in H. rewrite decide_False in H by done. assert (forall i, 0 <= i < n -> 0 <= (if decide (i = k) then 0 else f i)).
    { intros i Hi. destruct (decide _); [lia|by apply Hf]. } intuition lia.
  - intros i _ Hi. by rewrite decide_False.
Qed.

Lemma uses_flat_map {A} n (f : A -> list (Z * Z)) l :
  uses n (flat_map f l) = foldr (fun a acc => uses n (f a) + acc) 0 l.
Proof. induction l as [|a l IH]; [done|]. cbn. by rewrite uses_app, IH. Qed.
Lemma uses_range n first count tag : 0 <= count ->
  uses n (map (fun i => (i, tag)) (seqZ first count)) = within first count n.
Proof.
  intros Hcount. revert first. pattern count. apply natlike_ind; [| |exact Hcount].
  - intros first. unfold within. cbn. destruct (Z.leb_spec first n), (Z.ltb_spec n (first + 0)); cbn; try done; lia.
  - intros c Hc IH first. rewrite <- Z.add_1_r, seqZ_snoc, map_app, uses_app, IH by done. cbn [map].
    rewrite uses_one. unfold within. destruct (decide (first + c = n)), (Z.leb_spec first n), (Z.ltb_spec n (first + c)),
      (Z.ltb_spec n (first + (c + 1))); cbn; lia.
Qed.

Section state.
Context {P : Type}.
Implicit Types (q : qcow P).

(** ** What host clusters are used for *)
Definition l1_off q (i : Z) : Z := offset_of (q_l1 q i).
Definition entry q (i j : Z) : Z := be64 (raw_data q) (l1_off q i + j * 8).
Definition meta q (n : Z) : Z :=
  within 0 1 n + within (q_l1_offset q / q_cluster_size q) (clusters_of q (q_l1_size q * 8)) n +
  within (q_ref_offset q / q_cluster_size q) (q_ref_clusters q) n +
  sumZ (fun i => points (q_cluster_size q) (q_ref_table q i) n) (q_ref_entries q).
Definition tables q (n : Z) : Z := sumZ (fun i => points (q_cluster_size q) (l1_off q i) n) (q_l1_size q).
Definition table_data q (n i : Z) : Z :=
  if l1_off q i =? 0 then 0
  else sumZ (fun j => points (q_cluster_size q) (offset_of (entry q i j)) n) (entries_per_l2 q).
Definition datas q (n : Z) : Z := sumZ (table_data q n) (q_l1_size q).

Lemma uses_cluster q tag off n : 0 < q_cluster_size q ->
  uses n (cluster_of q tag off) = points (q_cluster_size q) off n.
Proof.
  intros Hcs. unfold cluster_of, points. destruct (Z.eqb_spec off 0); [done|]. unfold region.
  replace ((q_cluster_size q + q_cluster_size q - 1) / q_cluster_size q) with 1.
  - rewrite uses_range by lia. unfold within.
    destruct (Z.eqb_spec (off / q_cluster_size q) n), (Z.leb_spec (off / q_cluster_size q) n),
      (Z.ltb_spec n (off / q_cluster_size q + 1)); cbn; lia.
  - apply (Z.div_unique _ _ _ (q_cluster_size q - 1)); lia.
Qed.
Lemma uses_table q i n : 0 < q_cluster_size q ->
  uses n (l1_references q i) = points (q_cluster_size q) (l1_off q i) n + table_data q n i.
Proof.
  intros Hcs. unfold l1_references, table_data. fold (l1_off q i).
  destruct (Z.eqb_spec (l1_off q i) 0) as [E|E].
  - unfold points. by rewrite E.
  - rewrite uses_app, uses_cluster by done. f_equal. rewrite uses_flat_map. unfold l2_entries, sumZ.
    generalize (seqZ 0 (entries_per_l2 q)). intros l. induction l as [|j l IH]; [done|].
    cbn [map foldr]. by rewrite uses_cluster, IH.
Qed.
(** The references of the validation, counted. *)
Lemma uses_references q n : 0 < q_cluster_size q -> 0 <= q_l1_size q -> 0 <= q_ref_clusters q ->
  uses n (references q) = meta q n + tables q n + datas q n.
Proof.
  intros Hcs Hl Hr. unfold references, fixed_references, meta, tables, datas. rewrite !uses_app, !uses_flat_map.
  assert (H1 : forall x, 0 <= x -> 0 <= (x + q_cluster_size q - 1) / q_cluster_size q) by (intros; apply Z.div_pos; lia).
  unfold region. rewrite !uses_range by (apply H1; nia).
  rewrite (Z.div_0_l (q_cluster_size q)) by lia.
  replace ((q_cluster_size q + q_cluster_size q - 1) / q_cluster_size q) with 1
    by (apply (Z.div_unique _ _ _ (q_cluster_size q - 1)); lia).
  replace ((q_ref_clusters q * q_cluster_size q + q_cluster_size q - 1) / q_cluster_size q) with (q_ref_clusters q)
    by (apply (Z.div_unique _ _ _ (q_cluster_size q - 1)); lia).
  fold (clusters_of q (q_l1_size q * 8)).
  assert (E1 : foldr (fun i acc => uses n (block_references q i) + acc) 0 (seqZ 0 (q_ref_entries q)) =
    sumZ (fun i => points (q_cluster_size q) (q_ref_table q i) n) (q_ref_entries q)).
  { unfold sumZ. apply foldr_sum_ext. intros i _. unfold block_references. by apply uses_cluster. }
  assert (E2 : foldr (fun i acc => uses n (l1_references q i) + acc) 0 (seqZ 0 (q_l1_size q)) =
    sumZ (fun i => points (q_cluster_size q) (l1_off q i) n) (q_l1_size q) + sumZ (table_data q n) (q_l1_size q)).
  { unfold sumZ. generalize (seqZ 0 (q_l1_size q)). intros l. induction l as [|i l IH]; [done|].
    cbn [foldr]. rewrite uses_table by done. lia. }
  rewrite E1, E2. lia.
Qed.

(** ** Where things lie *)
Definition fits q (off : Z) : Prop :=
  0 <= off /\ (off <> 0 -> off mod q_cluster_size q = 0 /\ off + q_cluster_size q <= q_file_size q).
Definition good_place q (e : Z) : Prop := has_flag e QCOW_COMPRESSED = false /\ fits q (offset_of e).
Record shape q : Prop := Shape {
  sh_cs : exists k, 9 <= k /\ q_cluster_size q = 2 ^ k;
  sh_sizes : 0 <= q_l1_size q /\ 0 < q_ref_clusters q /\ q_ref_entries q = q_ref_clusters q * entries_per_l2 q;
  sh_file : file_inv (q_file q) /\ f_size (q_file q) = q_file_size q;
  sh_hosts : 0 <= q_host_count q <= q_host_capacity q /\
    q_cluster_size q <= q_file_size q <= q_host_count q * q_cluster_size q;
  sh_l1 : 0 <= q_l1_offset q /\ q_l1_offset q mod q_cluster_size q = 0 /\
    q_l1_offset q + q_l1_size q * 8 <= q_file_size q;
  sh_ref : 0 <= q_ref_offset q /\ q_ref_offset q mod q_cluster_size q = 0 /\
    q_ref_offset q + q_ref_clusters q * q_cluster_size q <= q_file_size q;
  sh_blocks : forall i, 0 <= i < q_ref_entries q -> fits q (q_ref_table q i);
  sh_l1_entries : forall i, 0 <= i < q_l1_size q -> good_place q (q_l1 q i);
  sh_entries : forall i j, 0 <= i < q_l1_size q -> l1_off q i <> 0 -> 0 <= j < entries_per_l2 q ->
    good_place q (entry q i j);
}.

(** ** What refcounts and tags say *)
(** [extra]: clusters that are counted but not yet, or no longer, referred to. *)
Record tally (extra : Z -> Z) q : Prop := Tally {
  ta_refs : forall n, 0 <= n < q_host_count q -> q_refs q n = meta q n + tables q n + datas q n + extra n;
  ta_meta : forall n, 0 <= n < q_host_count q -> meta q n <> 0 -> q_tags q n = 1 /\ q_refs q n = 1;
  ta_table : forall n, 0 <= n < q_host_count q -> tables q n <> 0 -> q_tags q n = 3;
  ta_data : forall n, 0 <= n < q_host_count q -> datas q n <> 0 -> q_tags q n = 2;
  ta_extra : forall n, 0 <= extra n /\
    (extra n <> 0 -> 0 <= n < q_host_count q /\ (q_tags q n = 2 \/ q_tags q n = 3));
}.
Definition flag_ok q (e : Z) : Prop :=
  offset_of e <> 0 -> has_flag e QCOW_COPIED = (q_refs q (offset_of e / q_cluster_size q) =? 1).
Definition flags q : Prop := forall i, 0 <= i < q_l1_size q ->
  flag_ok q (q_l1 q i) /\
  (l1_off q i <> 0 -> forall j, 0 <= j < entries_per_l2 q -> flag_ok q (entry q i j)).

Lemma shape_cs q : shape q -> 512 <= q_cluster_size q /\ q_cluster_size q mod 512 = 0 /\
  64 <= entries_per_l2 q /\ entries_per_l2 q * 8 = q_cluster_size q.
Proof.
  intros Hs. destruct (sh_cs _ Hs) as (k & Hk & E). unfold entries_per_l2. rewrite E.
  replace (2 ^ k) with (2 ^ (k - 9) * 512) by (change 512 with (2 ^ 9); rewrite <- Z.pow_add_r by lia; f_equal; lia).
  assert (0 < 2 ^ (k - 9)) by (apply Z.pow_pos_nonneg; lia).
  replace (2 ^ (k - 9) * 512) with (2 ^ (k - 9) * 64 * 8) at 3 4 by lia. rewrite Z.div_mul by lia.
  split_and!; [lia|apply Z.mod_mul; lia|lia|lia].
Qed.
Lemma fits_cluster q off : shape q -> fits q off -> off <> 0 ->
  0 < off / q_cluster_size q < q_host_count q /\ off = off / q_cluster_size q * q_cluster_size q.
Proof.
  intros Hs [H0 H1] Hne. destruct (H1 Hne) as [Hm He]. destruct (shape_cs _ Hs) as (Hcs & _).
  pose proof (Z.div_mod off (q_cluster_size q) ltac:(lia)) as Hd. rewrite Hm in Hd.
  destruct (sh_hosts _ Hs) as (_ & _ & Hf). nia.
Qed.
Lemma table_data_nonneg q n i : 0 <= table_data q n i.
Proof.
  unfold table_data. destruct (_ =? 0); [lia|]. apply sumZ_nonneg. intros j _. apply points_range.
Qed.
Lemma meta_nonneg q n : 0 <= meta q n.
Proof.
  unfold meta. pose proof (within_range 0 1 n).
  pose proof (within_range (q_l1_offset q / q_cluster_size q) (clusters_of q (q_l1_size q * 8)) n).
  pose proof (within_range (q_ref_offset q / q_cluster_size q) (q_ref_clusters q) n).
  pose proof (sumZ_nonneg (fun i => points (q_cluster_size q) (q_ref_table q i) n) (q_ref_entries q)
    (fun i _ => proj1 (points_range _ _ _))). lia.
Qed.
Lemma tables_nonneg q n : 0 <= tables q n.
Proof. apply sumZ_nonneg. intros i _. apply points_range. Qed.
Lemma datas_nonneg q n : 0 <= datas q n.
Proof. apply sumZ_nonneg. intros i _. apply table_data_nonneg. Qed.

(** An L2 table of the image: its cluster is tagged. *)
Lemma l1_entry_uses q i : 0 <= i < q_l1_size q -> l1_off q i <> 0 ->
  1 <= tables q (l1_off q i / q_cluster_size q).
Proof.
  intros Hi Hne. unfold tables.
  pose proof (sumZ_le (fun i0 => points (q_cluster_size q) (l1_off q i0) (l1_off q i / q_cluster_size q)) (q_l1_size q) i Hi
    (fun j _ => proj1 (points_range _ _ _))) as H. cbv beta in H. rewrite points_one in H by done. done.
Qed.
Lemma entry_uses q i j : 0 <= i < q_l1_size q -> l1_off q i <> 0 -> 0 <= j < entries_per_l2 q ->
  offset_of (entry q i j) <> 0 -> 1 <= datas q (offset_of (entry q i j) / q_cluster_size q).
Proof.
  intros Hi Hl Hj Hne. set (n := offset_of (entry q i j) / q_cluster_size q).
  pose proof (sumZ_le (table_data q n) (q_l1_size q) i Hi (fun j _ => table_data_nonneg q n j)) as H1.
  assert (H2 : 1 <= table_data q n i); [|unfold datas; lia].
  unfold table_data. rewrite (proj2 (Z.eqb_neq _ _) Hl).
  pose proof (sumZ_le (fun j => points (q_cluster_size q) (offset_of (entry q i j)) n) (entries_per_l2 q) j Hj
    (fun j _ => proj1 (points_range _ _ _))) as H2. cbv beta in H2. rewrite points_one in H2 by done. done.
Qed.
Section live.
Variable (extra : Z -> Z).
Lemma l1_entry_live q i : shape q -> tally extra q -> 0 <= i < q_l1_size q -> l1_off q i <> 0 ->
  let n := l1_off q i / q_cluster_size q in
  0 < n < q_host_count q /\ l1_off q i = n * q_cluster_size q /\ q_tags q n = 3.
Proof.
  intros Hs Ht Hi Hne n. destruct (sh_l1_entries _ Hs i Hi) as [_ Hf]. destruct (fits_cluster _ _ Hs Hf Hne) as [H1 H2].
  split_and!; [apply H1|apply H1|exact H2|]. apply (ta_table _ _ Ht); [unfold n, l1_off; lia|].
  pose proof (l1_entry_uses q i Hi Hne). subst n. lia.
Qed.
Lemma entry_live q i j : shape q -> tally extra q -> 0 <= i < q_l1_size q -> l1_off q i <> 0 ->
  0 <= j < entries_per_l2 q -> offset_of (entry q i j) <> 0 ->
  let n := offset_of (entry q i j) / q_cluster_size q in
  0 < n < q_host_count q /\ offset_of (entry q i j) = n * q_cluster_size q /\ q_tags q n = 2.
Proof.
  intros Hs Ht Hi Hl Hj Hne n. destruct (sh_entries _ Hs i j Hi Hl Hj) as [_ Hf].
  destruct (fits_cluster _ _ Hs Hf Hne) as [H1 H2].
  split_and!; [apply H1|apply H1|exact H2|]. apply (ta_data _ _ Ht); [unfold n; lia|].
  pose proof (entry_uses q i j Hi Hl Hj Hne). subst n. lia.
Qed.
End live.

(** ** Steps that only touch metadata *)
Record aside q q' : Prop := Aside {
  as_geo : (q_cluster_size q', q_l1_size q', q_l1_offset q', q_size q', q_raw q', q_version q', q_writable q') =
    (q_cluster_size q, q_l1_size q, q_l1_offset q, q_size q, q_raw q, q_version q, q_writable q);
  as_l1 : q_l1 q' = q_l1 q;
  as_parent : q_parent q' = q_parent q;
  as_hosts : q_host_count q <= q_host_count q' /\ q_file_size q <= q_file_size q';
  as_live : forall n, 0 <= n < q_host_count q -> q_tags q n = 2 \/ q_tags q n = 3 ->
    q_tags q' n = q_tags q n /\ q_refs q' n = q_refs q n /\
    forall i, i / q_cluster_size q = n -> raw_data q' i = raw_data q i;
}.
#[export] Instance aside_preorder : PreOrder aside.
Proof.
  split; [intros q; constructor; try done; lia|]. intros a b c [G1 L1 P1 [H1 F1] V1] [G2 L2 P2 [H2 F2] V2].
  constructor; [congruence|congruence|congruence|lia|]. intros n Hn Ht.
  destruct (V1 n Hn Ht) as (T & R & D). destruct (V2 n ltac:(lia) ltac:(by rewrite T)) as (T' & R' & D').
  split_and!; [congruence|congruence|]. intros i Hi. injection G1 as E _ _ _ _ _ _. rewrite E in D'. by rewrite D', D.
Qed.
Lemma aside_geo q q' : aside q q' ->
  q_cluster_size q' = q_cluster_size q /\ q_l1_size q' = q_l1_size q /\ q_l1_offset q' = q_l1_offset q /\
  q_size q' = q_size q /\ q_raw q' = q_raw q /\ entries_per_l2 q' = entries_per_l2 q.
Proof. intros [G _ _ _ _]. injection G as ? ? ? ? ? _ _. unfold entries_per_l2. split_and!; congruence. Qed.

Section aside.
Context (extra : Z -> Z) (q q' : qcow P).
Hypothesis Hs : shape q.
Hypothesis Ht : tally extra q.
Hypothesis Ha : aside q q'.

Lemma aside_l1_off i : l1_off q' i = l1_off q i.
Proof. unfold l1_off. by rewrite (as_l1 _ _ Ha). Qed.
Lemma aside_word n off : 0 <= n < q_host_count q -> q_tags q n = 2 \/ q_tags q n = 3 ->
  n * q_cluster_size q <= off -> off + 8 <= n * q_cluster_size q + q_cluster_size q ->
  be64 (raw_data q') off = be64 (raw_data q) off.
Proof.
  intros Hn Hg H1 H2. destruct (shape_cs _ Hs) as (Hcs & _). destruct (as_live _ _ Ha n Hn Hg) as (_ & _ & D).
  apply read_be64_eq_on. intros i Hi. apply D. symmetry. apply (Z.div_unique _ _ _ (i - n * q_cluster_size q)); lia.
Qed.
Lemma aside_entry i j : 0 <= i < q_l1_size q -> l1_off q i <> 0 -> 0 <= j < entries_per_l2 q ->
  entry q' i j = entry q i j.
Proof.
  intros Hi Hl Hj. destruct (shape_cs _ Hs) as (_ & _ & _ & He).
  destruct (l1_entry_live extra q i Hs Ht Hi Hl) as (Hn & Eq & Htag).
  unfold entry. rewrite aside_l1_off. apply (aside_word (l1_off q i / q_cluster_size q)); [lia|by right|lia|lia].
Qed.
Lemma aside_tables n : tables q' n = tables q n.
Proof.
  destruct (aside_geo _ _ Ha) as (C & L & _). unfold tables. rewrite L, C. apply sumZ_ext. intros i _. by rewrite aside_l1_off.
Qed.
Lemma aside_datas n : datas q' n = datas q n.
Proof.
  destruct (aside_geo _ _ Ha) as (C & L & _ & _ & _ & E). unfold datas. rewrite L. apply sumZ_ext. intros i Hi.
  unfold table_data. rewrite aside_l1_off. destruct (Z.eqb_spec (l1_off q i) 0) as [|Hl]; [done|].
  rewrite E, C. apply sumZ_ext. intros j Hj. by rewrite aside_entry.
Qed.
Lemma aside_fits off : fits q off -> fits q' off.
Proof.
  destruct (aside_geo _ _ Ha) as (C & _). destruct (as_hosts _ _ Ha) as [_ F]. intros [H0 H1].
  split; [done|]. intros Hne. destruct (H1 Hne). rewrite C. split; [done|lia].
Qed.
(** The part of the shape that concerns L2 tables and data *)
Lemma aside_places :
  (forall i, 0 <= i < q_l1_size q' -> good_place q' (q_l1 q' i)) /\
  (forall i j, 0 <= i < q_l1_size q' -> l1_off q' i <> 0 -> 0 <= j < entries_per_l2 q' -> good_place q' (entry q' i j)).
Proof.
  destruct (aside_geo _ _ Ha) as (C & L & _ & _ & _ & E). rewrite L, E, (as_l1 _ _ Ha). split.
  - intros i Hi. destruct (sh_l1_entries _ Hs i Hi) as [H1 H2]. split; [done|by apply aside_fits].
  - intros i j Hi Hl Hj. rewrite aside_l1_off in Hl. rewrite aside_entry by done.
    destruct (sh_entries _ Hs i j Hi Hl Hj) as [H1 H2]. split; [done|by apply aside_fits].
Qed.
Lemma aside_flags : flags q -> flags q'.
Proof.
  destruct (aside_geo _ _ Ha) as (C & L & _ & _ & _ & E). intros Hf i Hi. rewrite L in Hi.
  destruct (Hf i Hi) as [F1 F2]. rewrite (as_l1 _ _ Ha), aside_l1_off, E. split.
  - intros Hne. rewrite C. destruct (l1_entry_live extra q i Hs Ht Hi Hne) as (Hn & _ & Htag).
    destruct (as_live _ _ Ha _ ltac:(split; [|apply Hn]; lia) (or_intror Htag)) as (_ & R & _).
    unfold l1_off in R. rewrite R. by apply F1.
  - intros Hl j Hj Hne. rewrite aside_entry in * by done. rewrite C.
    destruct (entry_live extra q i j Hs Ht Hi Hl Hj Hne) as (Hn & _ & Htag).
    destruct (as_live _ _ Ha _ ltac:(split; [|apply Hn]; lia) (or_introl Htag)) as (_ & R & _). rewrite R. by apply F2.
Qed.
End aside.
End state.

(** ** The disk that is read *)
Section disk.
Context {P : Type} `{HB : Backend P, HR : !ReadSpec P}.
Implicit Types (q : qcow P).

(** An image between two requests *)
Record settled q : Prop := Settled {
  se_shape : shape q;
  se_tally : tally (fun _ => 0) q;
  se_flags : flags q;
}.
Record disk_ok q : Prop := DiskOk {
  do_raw : q_raw q = false;
  do_parent : parent_ok (q_parent q);
  do_covers : q_size q <= q_l1_size q * entries_per_l2 q * q_cluster_size q;
}.
Lemma aside_disk q q' : aside q q' -> disk_ok q -> disk_ok q'.
Proof.
  intros Ha [D1 D2 D3]. destruct (aside_geo _ _ Ha) as (C & L & _ & Z & R & E).
  constructor; rewrite ?R, ?(as_parent _ _ Ha), ?Z, ?L, ?E, ?C; done.
Qed.
Lemma settled_image q : settled q -> disk_ok q -> image_ok q.
Proof.
  intros [Hs Ht Hf] [D1 D2 D3]. destruct (sh_file _ Hs) as [F1 F2].
  constructor; [done|lia|done|by rewrite D1|]. intros _. constructor; [apply (shape_cs _ Hs)|apply (sh_sizes _ Hs)|done|].
  apply Forall_forall. intros e He. apply list_elem_of_In, in_flat_map in He as (i & Hi & He).
  apply list_elem_of_In, elem_of_seqZ in Hi. assert (Hi' : 0 <= i < q_l1_size q) by lia. clear Hi.
  unfold l1_entries in He. fold (l1_off q i) in He. destruct (Z.eqb_spec (l1_off q i) 0) as [|Hl]; [done|].
  destruct (Hf i Hi') as [F3 F4]. apply list_elem_of_In in He.
  assert (Hg : forall e, good_place q e -> flag_ok q e -> good_entry q e).
  { intros x [G1 [_ G2]] G3. split; [done|]. intros Hx. destruct (G2 Hx). auto. }
  apply elem_of_cons in He as [->|He].
  - apply Hg; [by apply (sh_l1_entries _ Hs)|done].
  - unfold l2_entries in He. apply list_elem_of_In, in_map_iff in He as (j & <- & Hj).
    apply list_elem_of_In, elem_of_seqZ in Hj. change (good_entry q (entry q i j)).
    apply Hg; [apply (sh_entries _ Hs)|apply F4]; done || lia.
Qed.

(** A guest cluster's entry: its L1 index and its place in the table *)
Lemma guest_index q c : shape q -> disk_ok q -> 0 <= c -> c * q_cluster_size q < q_size q ->
  0 <= c / entries_per_l2 q < q_l1_size q /\ 0 <= c mod entries_per_l2 q < entries_per_l2 q.
Proof.
  intros Hs Hd Hc Hlt. destruct (shape_cs _ Hs) as (Hcs & _ & He & _). pose proof (do_covers _ Hd).
  split; [|apply Z.mod_pos_bound; lia]. split; [apply Z.div_pos; lia|]. apply Z.div_lt_upper_bound; [lia|]. nia.
Qed.
Lemma mapping_entry q c : mapping q c =
  if l1_off q (c / entries_per_l2 q) =? 0 then 0 else entry q (c / entries_per_l2 q) (c mod entries_per_l2 q).
Proof. done. Qed.
(** Two images show the same where their entries and data are the same. *)
Lemma guest_same q q' :
  q_raw q = false -> (q_cluster_size q', q_size q', q_raw q', q_parent q') = (q_cluster_size q, q_size q, q_raw q, q_parent q) ->
  0 < q_cluster_size q ->
  (forall c i, 0 <= c -> c * q_cluster_size q <= i < c * q_cluster_size q + q_cluster_size q -> i < q_size q ->
     stored_byte q' (mapping q' c) i = stored_byte q (mapping q c) i) ->
  guest q' ≡ guest q.
Proof.
  intros Hraw E Hcs Hb i. injection E as E1 E2 E3 E4. unfold guest. rewrite E1, E2, E3, Hraw.
  destruct (Z.leb_spec 0 i), (Z.ltb_spec i (q_size q)); cbn [andb]; try done.
  apply Hb; [apply Z.div_pos; lia| |done].
  pose proof (Z.div_mod i (q_cluster_size q) ltac:(lia)). pose proof (Z.mod_pos_bound i (q_cluster_size q) ltac:(lia)). lia.
Qed.
Lemma aside_guest extra q q' : shape q -> tally extra q -> disk_ok q -> aside q q' -> guest q' ≡ guest q.
Proof.
  intros Hs Ht Hd Ha. destruct (aside_geo _ _ Ha) as (C & L & _ & Z & R & E). destruct (shape_cs _ Hs) as (Hcs & _).
  apply guest_same; [apply Hd|by rewrite C, Z, R, (as_parent _ _ Ha)|lia|].
  intros c i Hc Hi Hsz. destruct (guest_index q c Hs Hd Hc ltac:(lia)) as [G1 G2].
  rewrite !mapping_entry, E, (aside_l1_off q q') by done.
  destruct (Z.eqb_spec (l1_off q (c / entries_per_l2 q)) 0) as [|Hl].
  { unfold stored_byte, inherited. by rewrite (as_parent _ _ Ha). }
  rewrite (aside_entry extra q q') by done. set (e := entry q _ _). unfold stored_byte.
  destruct (has_flag e QCOW_ZERO); [done|]. destruct (Z.eqb_spec (offset_of e) 0) as [|He]; cbn [negb].
  { unfold inherited. by rewrite (as_parent _ _ Ha). }
  destruct (entry_live extra q _ _ Hs Ht G1 Hl G2 He) as (Hn & Eo & Htag). fold e in Hn, Eo, Htag.
  destruct (as_live _ _ Ha _ ltac:(split; [|apply Hn]; lia) (or_introl Htag)) as (_ & _ & D). rewrite C. apply D.
  pose proof (Z.mod_pos_bound i (q_cluster_size q) ltac:(lia)).
  symmetry. apply (Z.div_unique _ _ _ (i mod q_cluster_size q)); lia.
Qed.
End disk.

(** ** Nothing is used beyond the file *)
Section beyond.
Context {P : Type}.
Implicit Types (q : qcow P).
Lemma region_within cs off bytes hosts n : 0 < cs -> 0 <= off -> off mod cs = 0 -> off + bytes <= hosts * cs -> 0 <= bytes ->
  within (off / cs) ((bytes + cs - 1) / cs) n <> 0 -> 0 <= n < hosts.
Proof.
  intros Hcs Ho Hm He Hb Hw. apply within_spec in Hw. pose proof (Z.div_mod off cs ltac:(lia)) as Hd. rewrite Hm in Hd.
  assert ((bytes + cs - 1) / cs <= hosts - off / cs); [|pose proof (Z.div_pos off cs ltac:(lia) ltac:(lia)); lia].
  enough ((bytes + cs - 1) / cs < hosts - off / cs + 1) by lia. apply Z.div_lt_upper_bound; nia.
Qed.
Lemma meta_inside q n : shape q -> meta q n <> 0 -> 0 <= n < q_host_count q.
Proof.
  intros Hs Hm. destruct (shape_cs _ Hs) as (Hcs & _). destruct (sh_hosts _ Hs) as (H0 & H1 & H2).
  destruct (sh_l1 _ Hs) as (A0 & A1 & A2), (sh_ref _ Hs) as (B0 & B1 & B2), (sh_sizes _ Hs) as (C0 & C1 & C2). unfold meta in Hm.
  destruct (Z.eq_dec (within 0 1 n) 0) as [E1|E1]; [|apply within_spec in E1; nia].
  destruct (Z.eq_dec (within (q_l1_offset q / q_cluster_size q) (clusters_of q (q_l1_size q * 8)) n) 0) as [E2|E2].
  2: { unfold clusters_of in E2. eapply region_within in E2; [exact E2|lia..]. }
  destruct (Z.eq_dec (within (q_ref_offset q / q_cluster_size q) (q_ref_clusters q) n) 0) as [E3|E3].
  2: { apply (region_within (q_cluster_size q) (q_ref_offset q) (q_ref_clusters q * q_cluster_size q)); [lia..|nia|].
       replace ((_ + _ - 1) / _) with (q_ref_clusters q); [done|].
       apply (Z.div_unique _ _ _ (q_cluster_size q - 1)); lia. }
  assert (H3 : sumZ (fun i => points (q_cluster_size q) (q_ref_table q i) n) (q_ref_entries q) <> 0) by lia.
  apply sumZ_pos in H3 as (i & Hi & Hp); [|intros; apply points_range]. apply points_spec in Hp as [Hne <-].
  destruct (fits_cluster _ _ Hs (sh_blocks _ Hs i Hi) Hne). lia.
Qed.
Lemma tables_inside q n : shape q -> tables q n <> 0 -> 0 <= n < q_host_count q.
Proof.
  intros Hs Hm. apply sumZ_pos in Hm as (i & Hi & Hp); [|intros; apply points_range]. apply points_spec in Hp as [Hne <-].
  destruct (fits_cluster _ _ Hs (proj2 (sh_l1_entries _ Hs i Hi)) Hne). unfold l1_off. lia.
Qed.
Lemma datas_inside q n : shape q -> datas q n <> 0 -> 0 <= n < q_host_count q.
Proof.
  intros Hs Hm. apply sumZ_pos in Hm as (i & Hi & Hp); [|intros; apply table_data_nonneg]. unfold table_data in Hp.
  destruct (Z.eqb_spec (l1_off q i) 0) as [|Hl]; [done|].
  apply sumZ_pos in Hp as (j & Hj & Hp); [|intros; apply points_range]. apply points_spec in Hp as [Hne <-].
  destruct (fits_cluster _ _ Hs (proj2 (sh_entries _ Hs i j Hi Hl Hj)) Hne). lia.
Qed.
(** A cluster that does not exist yet *)
Lemma unused extra q n : shape q -> tally extra q -> ~ (0 <= n < q_host_count q) ->
  meta q n = 0 /\ tables q n = 0 /\ datas q n = 0 /\ extra n = 0.
Proof.
  intros Hs Ht Hn. split_and!.
  - destruct (Z.eq_dec (meta q n) 0) as [|E]; [done|]. by apply meta_inside in E.
  - destruct (Z.eq_dec (tables q n) 0) as [|E]; [done|]. by apply tables_inside in E.
  - destruct (Z.eq_dec (datas q n) 0) as [|E]; [done|]. by apply datas_inside in E.
  - destruct (Z.eq_dec (extra n) 0) as [|E]; [done|]. by apply (ta_extra _ _ Ht) in E as [].
Qed.
(** Metadata lies where nothing else does. *)
Lemma meta_alone extra q n : shape q -> tally extra q -> meta q n <> 0 ->
  0 <= n < q_host_count q /\ q_tags q n = 1 /\ q_refs q n = 1 /\ meta q n = 1 /\ tables q n = 0 /\ datas q n = 0 /\ extra n = 0.
Proof.
  intros Hs Ht Hm. pose proof (meta_inside q n Hs Hm) as Hn. destruct (ta_meta _ _ Ht n Hn Hm) as [Htag Hr].
  pose proof (ta_refs _ _ Ht n Hn). pose proof (meta_nonneg q n). pose proof (tables_nonneg q n). pose proof (datas_nonneg q n).
  destruct (ta_extra _ _ Ht n) as [He _]. split_and!; lia || done.
Qed.
End beyond.
