(* ===== verification/QcowAlloc.v ===== *)
(** * QCOW2 images: host clusters and refcounts

    append_hosts, ensure_refcounts, flush_refcounts and allocate_cluster of
    src/src/core/qcow2.c keep the invariant of QcowState.v: new clusters lie behind all
    others, metadata is written where nothing else lies, and what is read does not change. *)
From S2P Require Import Prelude.
From S2P Require Import Bytes.
From S2P Require Import Backend.
From S2P Require Import Qcow.
From S2P Require Import QcowOpen.
From S2P Require Import QcowCheck.
From S2P Require Import QcowRead.
From S2P Require Import QcowState.

Section ops.
Context {P : Type} `{HB : Backend P}.
Implicit Types (q : qcow P).

(** ** Changes that the invariant does not see *)
Record idle q q' : Prop := Idle {
  id_layout : layout q' = layout q;
  id_image : (q_raw q', q_size q', q_version q', q_writable q', q_parent q', q_host_capacity q') =
    (q_raw q, q_size q, q_version q, q_writable q, q_parent q, q_host_capacity q);
  id_tables : q_l1 q' = q_l1 q /\ q_ref_table q' = q_ref_table q;
  id_refs : q_refs q' = q_refs q /\ q_tags q' = q_tags q;
  id_data : raw_data q' = raw_data q /\ f_size (q_file q') = f_size (q_file q);
}.
#[export] Instance idle_preorder : PreOrder idle.
Proof.
  split; [by intros q|]. intros a b c [L1 I1 [A1 B1] [R1 T1] [D1 S1]] [L2 I2 [A2 B2] [R2 T2] [D2 S2]].
  constructor; try split; congruence.
Qed.
Lemma idle_geo q q' : idle q q' ->
  q_cluster_size q' = q_cluster_size q /\ q_l1_size q' = q_l1_size q /\ q_ref_clusters q' = q_ref_clusters q /\
  q_ref_entries q' = q_ref_entries q /\ q_l1_offset q' = q_l1_offset q /\ q_ref_offset q' = q_ref_offset q /\
  q_file_size q' = q_file_size q /\ q_host_count q' = q_host_count q.
Proof. intros [L _ _ _ _]. by apply layout_inv. Qed.
Lemma idle_entry q q' i j : idle q q' -> entry q' i j = entry q i j.
Proof. intros [_ _ [A _] _ [D _]]. unfold entry, l1_off. by rewrite A, D. Qed.
Lemma idle_l1_off q q' i : idle q q' -> l1_off q' i = l1_off q i.
Proof. intros [_ _ [A _] _ _]. unfold l1_off. by rewrite A. Qed.
Lemma idle_counts q q' n : idle q q' -> meta q' n = meta q n /\ tables q' n = tables q n /\ datas q' n = datas q n.
Proof.
  intros Hi. destruct (idle_geo _ _ Hi) as (C & L & RC & RE & LO & RO & _ & _).
  assert (E : forall i, table_data q' n i = table_data q n i).
  { intros i. unfold table_data, entries_per_l2. rewrite (idle_l1_off q q'), C by done. destruct (_ =? 0); [done|].
    apply sumZ_ext. intros j _. by rewrite (idle_entry q q'). }
  unfold meta, tables, datas, clusters_of. rewrite C, L, RC, RE, LO, RO. destruct (id_tables _ _ Hi) as [_ ->].
  split_and!; [done| |].
  - apply sumZ_ext. intros i _. by rewrite (idle_l1_off q q').
  - apply sumZ_ext. intros i _. apply E.
Qed.
Lemma idle_place q q' e : idle q q' -> good_place q e -> good_place q' e.
Proof.
  intros Hi. destruct (idle_geo _ _ Hi) as (C & _ & _ & _ & _ & _ & F & _). unfold good_place, fits. by rewrite C, F.
Qed.
Lemma idle_shape q q' : idle q q' -> shape q -> shape q'.
Proof.
  intros Hi [S1 S2 [S3 S3'] S4 S5 S6 S7 S8 S9].
  destruct (idle_geo _ _ Hi) as (C & L & RC & RE & LO & RO & F & H). pose proof Hi as [_ I [A B] _ [D Z]].
  injection I as _ _ _ _ _ K.
  constructor; unfold entries_per_l2 in *; rewrite ?C, ?L, ?RC, ?RE, ?LO, ?RO, ?F, ?H, ?K; try done.
  - split; [|congruence]. unfold file_inv in *. unfold raw_data in D. by rewrite D, Z.
  - intros i Hr. rewrite B. unfold fits. rewrite C, F. by apply S7.
  - intros i Hr. rewrite A. apply (idle_place q); auto.
  - intros i j Hr. rewrite (idle_l1_off q q'), (idle_entry q q') by done. intros. apply (idle_place q); auto.
Qed.
Lemma idle_tally extra q q' : idle q q' -> tally extra q -> tally extra q'.
Proof.
  intros Hi [T1 T2 T3 T4 T5]. destruct (idle_geo _ _ Hi) as (_ & _ & _ & _ & _ & _ & _ & H).
  destruct (id_refs _ _ Hi) as [R G].
  constructor; intros n; rewrite ?H, ?R, ?G; destruct (idle_counts _ _ n Hi) as (E1 & E2 & E3); rewrite ?E1, ?E2, ?E3; auto.
Qed.
Lemma idle_aside q q' : idle q q' -> aside q q'.
Proof.
  intros Hi. destruct (idle_geo _ _ Hi) as (C & L & _ & _ & LO & _ & F & H). destruct Hi as [_ I [A _] [R G] [D _]].
  injection I as ? ? ? ? ? ?. constructor; [congruence|done|done|lia|]. intros n _ _. by rewrite R, G, D.
Qed.

Lemma alloc_idle q q' : q_alloc q = (Ok tt, q') -> idle q q'.
Proof. unfold q_alloc. destruct (q_heap q) as [|[] h]; by intros [= <-]. Qed.
Lemma sync_idle q q' : sync_fd q = (Ok tt, q') -> idle q q'.
Proof.
  unfold sync_fd. intros Hr. apply bind_ok in Hr as (rc & q1 & H1 & Hr). apply attempt_inv in H1 as (x & [= ->] & H1).
  unfold on_fd in H1. destruct (fsync (q_file q)) as [r f] eqn:E. injection H1 as <- <-.
  destruct r as [[]|]; [|done]. injection Hr as <-. apply fsync_frame in E as [D S]. by constructor.
Qed.
Lemma read_at_idle n off q b q' : read_at n off q = (Ok b, q') ->
  idle q q' /\ eq_on 0 n b (slice (raw_data q) off) /\ off + n <= q_file_size q.
Proof.
  intros Hr. apply read_at_ok in Hr as (Hv & (f & D & S & ->) & Hb). apply range_valid_spec in Hv as [_ Hv].
  split_and!; [by constructor|done|done].
Qed.
Lemma read_u64_idle off q e q' : read_u64 off q = (Ok e, q') -> idle q q' /\ e = be64 (raw_data q) off /\ off + 8 <= q_file_size q.
Proof.
  intros Hr. unfold read_u64 in Hr. apply bind_ok in Hr as (b & q1 & H1 & [= <- <-]).
  apply read_at_idle in H1 as (Hi & Hb & Hv). split_and!; [done| |done]. unfold be64.
  rewrite (read_be64_eq_on b (slice (raw_data q) off) 0) by (intros i Hr; apply Hb; lia).
  unfold slice, read_be64, read_be32. repeat (f_equal; try lia).
Qed.

(** ** Writing *)
Lemma write_at_ok b n off q q' : shape q -> 0 <= off -> 0 <= n -> off + n <= q_file_size q ->
  write_at b n off q = (Ok tt, q') ->
  exists f, q' = set_file q f /\ file_inv f /\ f_size f = f_size (q_file q) /\
    f_data f ≡ blit (raw_data q) off (to_bytes b) n.
Proof.
  intros Hs Ho Hn He Hr. unfold write_at in Hr. apply bind_ok in Hr as (rc & q1 & H1 & Hr).
  apply attempt_inv in H1 as (x & [= ->] & H1). unfold on_fd in H1.
  destruct (write_exact_fd b n off (q_file q)) as [r f] eqn:E. injection H1 as <- <-.
  destruct r as [[]|]; [|done]. injection Hr as <-. exists f. destruct (sh_file _ Hs) as [F1 F2].
  pose proof (write_exact_fd_bound _ _ _ _ _ _ E) as B1. pose proof (write_exact_fd_size _ _ _ _ _ _ E) as [B2 _].
  apply write_exact_fd_spec in E as (I & _ & _ & D); [|done|done]. split_and!; [done|done|lia|]. by apply D.
Qed.
Lemma in_cluster cs n i : 0 < cs -> n * cs <= i < n * cs + cs -> i / cs = n.
Proof. intros. symmetry. apply (Z.div_unique _ _ _ (i - n * cs)); lia. Qed.
(** Writing within one cluster that holds neither data nor an L2 table *)
Lemma write_meta extra b len off n q q' : shape q -> tally extra q -> 0 <= n < q_host_count q ->
  q_tags q n <> 2 -> q_tags q n <> 3 -> 0 <= len -> n * q_cluster_size q <= off ->
  off + len <= n * q_cluster_size q + q_cluster_size q -> off + len <= q_file_size q ->
  write_at b len off q = (Ok tt, q') ->
  shape q' /\ tally extra q' /\ aside q q' /\ exists f, q' = set_file q f.
Proof.
  intros Hs Ht Hn H2 H3 Hl Hlo Hhi He Hr. destruct (shape_cs _ Hs) as (Hcs & _).
  apply write_at_ok in Hr as (f & -> & Fi & Fs & Fd); [|done|nia|done|done].
  assert (Ha : aside q (set_file q f)).
  { constructor; try done. intros m Hm Htag. split_and!; [done|done|]. intros i Hi.
    change (f_data f i = raw_data q i). rewrite Fd, blit_out; [done|]. intros Hin.
    assert (i / q_cluster_size q = n) by (apply in_cluster; lia). assert (m = n) by congruence. subst m. naive_solver. }
  destruct (aside_places extra q _ Hs Ht Ha) as [A8 A9]. pose proof Hs as [S1 S2 [S3 S3'] S4 S5 S6 S7 S8 S9]. split_and!.
  - constructor; try done. split; [done|]. cbn. congruence.
  - destruct Ht as [T1 T2 T3 T4 T5]. constructor; try done; intros m Hm;
      rewrite ?(aside_tables q (set_file q f)), ?(aside_datas extra q (set_file q f)) by done; first [by apply T1|by apply T3|by apply T4].
  - done.
  - by exists f.
Qed.

(** ** New clusters at the end of the file *)
Definition claim_cluster (tag : Z) q (i : Z) : qcow P :=
  ref_changed (set_tags (set_refs q (set_at (q_refs q) i 1)) (set_at (q_tags q) i tag)) i.
Definition recounted q (refs tags : Z -> Z) (dirty : Z -> bool) : qcow P :=
  set_ref_dirty (set_tags (set_refs q refs) tags) dirty.
Lemma claim_clusters tag first count : forall q, 0 <= count -> exists refs tags dirty,
  foldl (claim_cluster tag) q (seqZ first count) = recounted q refs tags dirty /\
  forall n, refs n = (if decide (first <= n < first + count) then 1 else q_refs q n) /\
            tags n = (if decide (first <= n < first + count) then tag else q_tags q n).
Proof.
  intros q Hc. pattern count. apply natlike_ind; [| |exact Hc].
  - exists (q_refs q), (q_tags q), (q_ref_dirty q). split; [by destruct q|].
    intros n. rewrite !decide_False by lia. done.
  - intros c Hc0 (refs & tags & dirty & IH & Hn). rewrite <- Z.add_1_r, seqZ_snoc, foldl_app, IH by done. cbn [foldl].
    exists (set_at refs (first + c) 1), (set_at tags (first + c) tag).
    eexists (if (first + c) / refs_per_block q <? q_ref_entries q
             then set_at dirty ((first + c) / refs_per_block q) true else dirty). split.
    + unfold claim_cluster, ref_changed, recounted, refs_per_block. cbn. by destruct (_ <? _).
    + intros n. unfold set_at. destruct (Hn n) as [-> ->].
      destruct (Z.eqb_spec n (first + c)); repeat case_decide; lia || done.
Qed.

(** What appending does: everything else stays. *)
Record appended (count tag off : Z) q q' : Prop := Appended {
  ap_off : off = q_host_count q * q_cluster_size q;
  ap_end : (q_host_count q + count) * q_cluster_size q <= QCOW_OFFSET /\ q_host_count q + count <= QCOW_MAX_CLUSTERS;
  ap_hosts : q_host_count q' = q_host_count q + count /\ q_host_count q' <= q_host_capacity q' /\
    q_file_size q' = q_host_count q' * q_cluster_size q;
  ap_geo : (q_cluster_size q', q_l1_size q', q_ref_clusters q', q_ref_entries q', q_l1_offset q', q_ref_offset q') =
    (q_cluster_size q, q_l1_size q, q_ref_clusters q, q_ref_entries q, q_l1_offset q, q_ref_offset q);
  ap_image : (q_raw q', q_size q', q_version q', q_writable q', q_parent q') =
    (q_raw q, q_size q, q_version q, q_writable q, q_parent q);
  ap_tables : q_l1 q' = q_l1 q /\ q_ref_table q' = q_ref_table q;
  ap_refs : forall n, 0 <= n < q_host_count q -> q_refs q' n = q_refs q n /\ q_tags q' n = q_tags q n;
  ap_new : forall n, q_host_count q <= n < q_host_count q' -> q_refs q' n = 1 /\ q_tags q' n = tag;
  ap_file : file_inv (q_file q') /\ f_size (q_file q') = q_file_size q' /\ raw_data q' ≡ raw_data q;
}.
(** What appending needs of the state: the tables need not be in order. *)
Record hosted q : Prop := Hosted {
  ho_cs : 0 < q_cluster_size q;
  ho_hosts : 0 <= q_host_count q <= q_host_capacity q /\ q_file_size q <= q_host_count q * q_cluster_size q;
  ho_file : file_inv (q_file q) /\ f_size (q_file q) = q_file_size q;
}.
Lemma grow_capacity_enough fuel : forall capacity count, 1 <= capacity -> count <= QCOW_MAX_CLUSTERS ->
  QCOW_MAX_CLUSTERS <= capacity * 2 ^ Z.of_nat fuel -> count <= grow_capacity fuel capacity count.
Proof.
  unfold QCOW_MAX_CLUSTERS. induction fuel as [|fuel IH]; intros capacity count Hc Hn Hf; cbn [grow_capacity].
  { change (2 ^ Z.of_nat 0) with 1 in Hf. lia. }
  destruct (Z.ltb_spec capacity count); [|lia]. rewrite Nat2Z.inj_succ, Z.pow_succ_r in Hf by lia.
  fold QCOW_MAX_CLUSTERS. destruct (Z.ltb_spec (QCOW_MAX_CLUSTERS / 2) capacity).
  - apply IH; unfold QCOW_MAX_CLUSTERS; lia.
  - apply IH; unfold QCOW_MAX_CLUSTERS; lia.
Qed.
Lemma capacity_enough old count : 0 <= old -> count <= QCOW_MAX_CLUSTERS ->
  count <= grow_capacity 25 (if old =? 0 then 16 else old) count.
Proof.
  intros Ho Hc. apply grow_capacity_enough; [destruct (Z.eqb_spec old 0); lia|done|].
  replace (2 ^ Z.of_nat 25) with (2 * QCOW_MAX_CLUSTERS) by reflexivity. unfold QCOW_MAX_CLUSTERS.
  destruct (Z.eqb_spec old 0); lia.
Qed.
Lemma alloc_heap q q' : q_alloc q = (Ok tt, q') -> exists h, q' = set_heap q h.
Proof.
  unfold q_alloc. destruct (q_heap q) as [|[] h] eqn:E; intros [= <-]; [|by exists h].
  exists []. rewrite <- E. by destruct q.
Qed.
Lemma reserve_hosts_ok count q q' : hosted q -> q_host_count q <= count -> reserve_hosts count q = (Ok tt, q') ->
  exists refs tags capacity h, q' = set_heap (set_host_capacity (set_tags (set_refs q refs) tags) capacity) h /\
    count <= capacity /\ forall n, n < q_host_count q -> refs n = q_refs q n /\ tags n = q_tags q n.
Proof.
  intros [_ [H1 _] _] Hle Hr. unfold reserve_hosts in Hr. rewrite (bind_run get_q _ q q q) in Hr by done.
  destruct (Z.ltb_spec QCOW_MAX_CLUSTERS count); [done|]. destruct (Z.leb_spec count (q_host_capacity q)).
  { injection Hr as <-. exists (q_refs q), (q_tags q), (q_host_capacity q), (q_heap q). split; [by destruct q|by split]. }
  cbv zeta in Hr. pose proof (capacity_enough (q_host_capacity q) count ltac:(lia) ltac:(lia)) as Hcap.
  revert Hr Hcap. generalize (grow_capacity 25 (if q_host_capacity q =? 0 then 16 else q_host_capacity q) count).
  intros capacity Hr Hcap.
  apply bind_ok in Hr as ([] & q1 & A1 & Hr). apply alloc_heap in A1 as (h1 & ->).
  apply bind_ok in Hr as ([] & q2 & A2 & Hr). apply alloc_heap in A2 as (h2 & ->).
  unfold modify in Hr. injection Hr as <-. eexists _, _, capacity, h2. split; [reflexivity|].
  split; [done|]. intros n Hn. unfold set_range. cbn. destruct (Z.leb_spec (q_host_capacity q) n); [lia|done].
Qed.
Lemma append_ok count tag q off q' : hosted q -> 0 <= count -> append_hosts count tag q = (Ok off, q') ->
  appended count tag off q q'.
Proof.
  intros Hh Hc Hr. pose proof Hh as [Hcs [H1 H2] [F1 F2]]. unfold append_hosts in Hr.
  rewrite (bind_run get_q _ q q q) in Hr by done. cbv zeta in Hr. destruct (Z.ltb_spec (QCOW_MAX_CLUSTERS - q_host_count q) count); [done|].
  apply bind_ok in Hr as ([] & q1 & R1 & Hr). apply reserve_hosts_ok in R1 as (refs & tags & cap & h & -> & Hcap & Hsame); [|done|lia].
  set (end_ := (q_host_count q + count) * q_cluster_size q) in *. destruct (Z.ltb_spec QCOW_OFFSET end_).
  { apply bind_ok in Hr as (? & ? & _ & Hr). done. }
  apply bind_ok in Hr as (rc & q2 & T2 & Hr). apply attempt_inv in T2 as (x & [= ->] & T2).
  unfold on_fd, ftruncate in T2. cbn [q_file set_heap set_host_capacity set_tags set_refs] in T2.
  destruct (next_outcome (q_file q) 0) as [[c|e] f] eqn:En; injection T2 as <- <-.
  2: { apply bind_ok in Hr as (? & ? & _ & Hr). done. }
  apply next_outcome_frame in En as (D & S & _ & _).
  apply bind_ok in Hr as ([] & q3 & M3 & Hr). unfold modify in M3. injection M3 as <-. injection Hr as <- <-.
  match goal with |- context [foldl _ ?q0 _] => set (q3 := q0) end.
  destruct (claim_clusters tag (q_host_count q) count q3 Hc) as (refs' & tags' & dirty & E & Hn).
  unfold claim_cluster in E. rewrite E. clear E. constructor; try done.
  - split; lia.
  - intros n Hn'. change (refs' n = q_refs q n /\ tags' n = q_tags q n). destruct (Hn n) as [-> ->].
    rewrite !decide_False by lia. apply Hsame. lia.
  - intros n Hn'. cbn in Hn'. change (refs' n = 1 /\ tags' n = tag). destruct (Hn n) as [-> ->]. by rewrite !decide_True by lia.
  - assert (Hz : forall i, end_ <= i -> f_data (q_file q) i = 0) by (intros i Hi; apply F1; right; nia).
    assert (Hd : forall i, (if i <? end_ then f_data (q_file q) i else 0) = f_data (q_file q) i).
    { intros i. destruct (Z.ltb_spec i end_); [done|]. symmetry. by apply Hz. }
    split_and!; [|done|exact Hd]. destruct F1 as (G1 & G2 & G3). unfold file_inv. cbn. split_and!; [unfold end_; nia| |].
    + intros i. rewrite Hd. apply G2.
    + intros i Hi. rewrite Hd. destruct Hi as [Hi|Hi]; [by apply G3; left|]. by apply Hz.
Qed.

Lemma shape_hosted q : shape q -> hosted q.
Proof.
  intros Hs. destruct (shape_cs _ Hs) as (Hcs & _), (sh_hosts _ Hs) as (H1 & _ & H2). constructor; [lia|done|apply Hs].
Qed.
Section after_append.
Context (count tag off : Z) (q q' : qcow P).
Hypothesis Hs : shape q.
Hypothesis Hc : 0 <= count.
Hypothesis Happ : appended count tag off q q'.

Lemma append_aside : aside q q'.
Proof.
  destruct Happ as [_ _ [A1 [_ A2]] G I [L _] R _ [_ [_ D]]]. injection G as ? ? ? ? ? ?. injection I as ? ? ? ? ?.
  destruct (sh_hosts _ Hs) as (_ & _ & Hf). destruct (shape_cs _ Hs) as (Hcs & _).
  constructor; [congruence|done|done|nia|]. intros n Hn _. destruct (R n Hn). split_and!; [done|done|]. intros i _. apply D.
Qed.
Lemma append_counts n : meta q' n = meta q n /\ tables q' n = tables q n /\ datas q' n = datas q n.
Proof.
  destruct Happ as [_ _ _ G _ [L T] _ _ [_ [_ D]]]. injection G as C LS RC RE LO RO.
  assert (E : forall i j, entry q' i j = entry q i j).
  { intros i j. unfold entry, l1_off. rewrite L. apply read_be64_eq_on. intros x _. apply D. }
  assert (E1 : forall i, table_data q' n i = table_data q n i).
  { intros i. unfold table_data, entries_per_l2, l1_off. rewrite L, C. destruct (_ =? 0); [done|].
    apply sumZ_ext. intros j _. by rewrite E. }
  unfold meta, tables, datas, clusters_of, l1_off. rewrite C, LS, RC, RE, LO, RO, L, T. split_and!; [done|done|].
  apply sumZ_ext. intros i _. apply E1.
Qed.
Lemma append_shape : shape q'.
Proof.
  pose proof append_aside as Ha. destruct (as_hosts _ _ Ha) as [_ HF]. destruct (sh_hosts _ Hs) as (B1 & B2 & B3).
  destruct Happ as [_ _ [A1 [A2 A3]] G I [L T] R _ [F1 [F2 D]]]. injection G as C LS RC RE LO RO.
  assert (Hfit : forall o, fits q o -> fits q' o).
  { intros o [H0 H1]. split; [done|]. intros Hne. destruct (H1 Hne). rewrite C. split; [done|lia]. }
  assert (E : forall i j, entry q' i j = entry q i j).
  { intros i j. unfold entry, l1_off. rewrite L. apply read_be64_eq_on. intros x _. apply D. }
  destruct Hs as [S1 S2 S3 S4 S5 S6 S7 S8 S9].
  constructor; unfold entries_per_l2, l1_off in *; rewrite ?C, ?LS, ?RC, ?RE, ?LO, ?RO, ?L, ?T; try done; try lia.
  - intros i Hi. apply Hfit, S7, Hi.
  - intros i Hi. destruct (S8 i Hi) as [G1 G2]. split; [done|by apply Hfit].
  - intros i j Hi Hl Hj. rewrite E. destruct (S9 i j Hi Hl Hj) as [G1 G2]. split; [done|by apply Hfit].
Qed.
(** The new clusters are counted, and nothing uses them. *)
Lemma append_tally extra : tally extra q -> tag = 2 \/ tag = 3 ->
  tally (fun n => extra n + within (q_host_count q) count n) q'.
Proof.
  intros Ht Htag. destruct Happ as [_ _ [A1 _] _ _ _ R W _]. destruct (sh_hosts _ Hs) as [B1 _].
  assert (Hn : forall n, 0 <= n < q_host_count q' ->
    (0 <= n < q_host_count q /\ within (q_host_count q) count n = 0) \/
    (q_host_count q <= n < q_host_count q' /\ within (q_host_count q) count n = 1 /\ ~ (0 <= n < q_host_count q))).
  { intros n Hn. pose proof (within_range (q_host_count q) count n). pose proof (within_spec (q_host_count q) count n).
    destruct (Z.lt_ge_cases n (q_host_count q)); [left|right]; intuition lia. }
  constructor.
  - intros n Hr. destruct (append_counts n) as (-> & -> & ->). destruct (Hn n Hr) as [[H1 ->]|(H1 & -> & H2)].
    + destruct (R n H1) as [-> _]. rewrite (ta_refs _ _ Ht n H1). lia.
    + destruct (W n H1) as [-> _]. destruct (unused extra q n Hs Ht H2) as (-> & -> & -> & ->). done.
  - intros n Hr. destruct (append_counts n) as (-> & _). intros Hm. destruct (Hn n Hr) as [[H1 _]|(H1 & _ & H2)].
    + destruct (R n H1) as [-> ->]. by apply (ta_meta _ _ Ht).
    + by destruct (unused extra q n Hs Ht H2).
  - intros n Hr. destruct (append_counts n) as (_ & -> & _). intros Hm. destruct (Hn n Hr) as [[H1 _]|(H1 & _ & H2)].
    + destruct (R n H1) as [_ ->]. by apply (ta_table _ _ Ht).
    + by destruct (unused extra q n Hs Ht H2) as (_ & ? & _).
  - intros n Hr. destruct (append_counts n) as (_ & _ & ->). intros Hm. destruct (Hn n Hr) as [[H1 _]|(H1 & _ & H2)].
    + destruct (R n H1) as [_ ->]. by apply (ta_data _ _ Ht).
    + by destruct (unused extra q n Hs Ht H2) as (_ & _ & ? & _).
  - intros n. destruct (ta_extra _ _ Ht n) as [E1 E2]. pose proof (within_range (q_host_count q) count n). split; [lia|].
    intros Hne. destruct (Z.eq_dec (within (q_host_count q) count n) 0) as [E0|E0].
    + destruct (E2 ltac:(lia)) as [H1 H2]. destruct (R n H1) as [_ ->]. split; [lia|done].
    + apply within_spec in E0. destruct (W n ltac:(lia)) as [_ ->]. split; [lia|done].
Qed.
End after_append.

(** ** Metadata moves *)
(** Clusters are only added, up to the limit. *)
Definition grows q q' : Prop :=
  q_host_count q' = q_host_count q \/ q_host_count q < q_host_count q' <= QCOW_MAX_CLUSTERS.
Definition good (extra : Z -> Z) q : Prop := shape q /\ tally extra q.

(** Metadata appears in new clusters and disappears from old ones. *)
Lemma remeta extra count first old q q' : good extra q -> 0 <= count ->
  q_host_count q' = q_host_count q + count ->
  (forall n, tables q' n = tables q n /\ datas q' n = datas q n) ->
  (forall n, meta q' n = meta q n - within first old n + within (q_host_count q) count n) ->
  (forall n, 0 <= n < q_host_count q -> q_refs q' n = q_refs q n - within first old n /\
     (within first old n = 0 -> q_tags q' n = q_tags q n)) ->
  (forall n, q_host_count q <= n < q_host_count q' -> q_refs q' n = 1 /\ q_tags q' n = 1) ->
  (forall n, within first old n <> 0 -> meta q n <> 0) ->
  tally extra q'.
Proof.
  intros [Hs Ht] Hc Hh Htd Hm Hold Hnew Hw. destruct (sh_hosts _ Hs) as [B1 _].
  assert (Hn : forall n, 0 <= n < q_host_count q' ->
    (0 <= n < q_host_count q /\ within (q_host_count q) count n = 0) \/
    (q_host_count q <= n < q_host_count q' /\ within (q_host_count q) count n = 1 /\ ~ (0 <= n < q_host_count q))).
  { intros n Hn. pose proof (within_range (q_host_count q) count n). pose proof (within_spec (q_host_count q) count n).
    destruct (Z.lt_ge_cases n (q_host_count q)); [left|right]; intuition lia. }
  assert (Hgone : forall n, ~ (0 <= n < q_host_count q) -> within first old n = 0).
  { intros n Hr. destruct (Z.eq_dec (within first old n) 0) as [|E]; [done|]. by apply Hw, meta_inside in E. }
  assert (Hfree : forall n, within first old n <> 0 -> tables q n = 0 /\ datas q n = 0 /\ extra n = 0 /\ meta q n = 1 /\ within first old n = 1).
  { intros n E. pose proof (within_range first old n). apply Hw in E as Em. apply (meta_alone extra) in Em; [|done|done].
    destruct Em as (_ & _ & _ & -> & -> & -> & ->). split_and!; lia. }
  constructor.
  - intros n Hr. destruct (Htd n) as [-> ->]. rewrite Hm. destruct (Hn n Hr) as [[H1 ->]|(H1 & -> & H2)].
    + destruct (Hold n H1) as [-> _]. rewrite (ta_refs _ _ Ht n H1). lia.
    + destruct (Hnew n H1) as [-> _]. rewrite Hgone by done. destruct (unused extra q n Hs Ht H2) as (-> & -> & -> & ->). done.
  - intros n Hr. rewrite Hm. destruct (Hn n Hr) as [[H1 ->]|(H1 & _ & H2)]; [|by destruct (Hnew n H1)].
    destruct (Hold n H1) as [-> Htag]. intros E. destruct (Z.eq_dec (within first old n) 0) as [E0|E0].
    + rewrite Htag, E0 by done. rewrite Z.sub_0_r. apply (ta_meta _ _ Ht); [done|lia].
    + destruct (Hfree n E0) as (_ & _ & _ & ? & ?). lia.
  - intros n Hr. destruct (Htd n) as [-> _]. intros E. destruct (Hn n Hr) as [[H1 _]|(H1 & _ & H2)].
    + destruct (Hold n H1) as [_ ->]; [by apply (ta_table _ _ Ht)|].
      destruct (Z.eq_dec (within first old n) 0) as [|E0]; [done|]. by destruct (Hfree n E0).
    + by destruct (unused extra q n Hs Ht H2) as (_ & ? & _).
  - intros n Hr. destruct (Htd n) as [_ ->]. intros E. destruct (Hn n Hr) as [[H1 _]|(H1 & _ & H2)].
    + destruct (Hold n H1) as [_ ->]; [by apply (ta_data _ _ Ht)|].
      destruct (Z.eq_dec (within first old n) 0) as [|E0]; [done|]. by destruct (Hfree n E0) as (_ & ? & _).
    + by destruct (unused extra q n Hs Ht H2) as (_ & _ & ? & _).
  - intros n. destruct (ta_extra _ _ Ht n) as [E1 E2]. split; [done|]. intros Hne. destruct (E2 Hne) as [H1 H2].
    split; [lia|]. destruct (Hold n H1) as [_ ->]; [done|].
    destruct (Z.eq_dec (within first old n) 0) as [|E0]; [done|]. by destruct (Hfree n E0) as (_ & _ & ? & _).
Qed.

(** Same disk, other metadata *)
Lemma remeta_aside extra count first old q q' : good extra q ->
  (q_cluster_size q', q_l1_size q', q_l1_offset q', q_size q', q_raw q', q_version q', q_writable q') =
    (q_cluster_size q, q_l1_size q, q_l1_offset q, q_size q, q_raw q, q_version q, q_writable q) ->
  q_l1 q' = q_l1 q -> q_parent q' = q_parent q ->
  q_host_count q' = q_host_count q + count -> 0 <= count -> q_file_size q <= q_file_size q' ->
  raw_data q' ≡ raw_data q ->
  (forall n, 0 <= n < q_host_count q -> q_refs q' n = q_refs q n - within first old n /\
     (within first old n = 0 -> q_tags q' n = q_tags q n)) ->
  (forall n, within first old n <> 0 -> meta q n <> 0) -> aside q q'.
Proof.
  intros [Hs Ht] G L Pa Hh Hc Hf D Hold Hw. constructor; [done|done|done|lia|]. intros n Hn Htag.
  destruct (Hold n Hn) as [Hr Ht']. destruct (Z.eq_dec (within first old n) 0) as [E0|E0].
  - rewrite Ht', Hr, E0 by done. split_and!; [done|lia|]. intros i _. apply D.
  - apply Hw, (meta_alone extra) in E0 as (_ & E & _); [|done|done]. rewrite E in Htag. lia.
Qed.

Lemma add_ref_block_ok extra i q q' : good extra q -> 0 <= i < q_ref_entries q ->
  add_ref_block i q = (Ok tt, q') ->
  good extra q' /\ aside q q' /\ q_ref_entries q' = q_ref_entries q /\ grows q q'.
Proof.
  intros Hg Hi Hr. pose proof Hg as [Hs Ht]. unfold add_ref_block in Hr. rewrite (bind_run get_q _ q q q) in Hr by done.
  destruct (Z.eqb_spec (q_ref_table q i) 0) as [E0|]; cbn [negb] in Hr; [|by injection Hr as <-; split_and!; [..|left]].
  apply bind_ok in Hr as (off & q1 & H1 & Hr). apply append_ok in H1 as Happ; [|by apply shape_hosted|lia]. clear H1.
  unfold modify in Hr. injection Hr as <-.
  pose proof (append_shape 1 1 off q q1 Hs ltac:(lia) Happ) as Hs1.
  pose proof (append_counts 1 1 off q q1 Happ) as Hcnt. destruct (shape_cs _ Hs) as (Hcs & _).
  pose proof Happ as [Eoff [_ Hmax] [A1 [A2 A3]] G I [L T] R W [F1 [F2 D]]].
  injection G as C LS RC RE LO RO. injection I as I1 I2 I3 I4 I5. destruct (sh_hosts _ Hs) as (B1 & B2 & B3).
  set (q2 := set_table_dirty _ true). assert (Hh : 0 < q_host_count q) by nia.
  assert (Hbl : forall n, sumZ (fun j => points (q_cluster_size q) (set_at (q_ref_table q1) i off j) n) (q_ref_entries q) =
    sumZ (fun j => points (q_cluster_size q) (q_ref_table q j) n) (q_ref_entries q) + within (q_host_count q) 1 n).
  { intros n. rewrite (sumZ_update (fun j => points (q_cluster_size q) (q_ref_table q j) n) _ _ i Hi).
    - unfold set_at. rewrite Z.eqb_refl, E0. unfold points. cbn [Z.eqb orb]. rewrite (proj2 (Z.eqb_neq off 0)) by nia.
      rewrite Eoff, Z.div_mul by lia. unfold within.
      destruct (Z.eqb_spec (q_host_count q) n), (Z.leb_spec (q_host_count q) n), (Z.ltb_spec n (q_host_count q + 1)); cbn; lia.
    - intros j Hj Hne. unfold set_at. rewrite (proj2 (Z.eqb_neq j i)) by done. by rewrite T. }
  assert (Hm : forall n, meta q2 n = meta q n - within 0 0 n + within (q_host_count q) 1 n).
  { intros n. unfold meta, clusters_of. cbn [q2 q_cluster_size q_l1_offset q_l1_size q_ref_offset q_ref_clusters q_ref_table q_ref_entries
      set_table_dirty set_ref_dirty set_ref_table]. rewrite C, LS, RC, RE, LO, RO, Hbl.
    assert (within 0 0 n = 0) as ->; [|lia]. unfold within. destruct (Z.leb_spec 0 n), (Z.ltb_spec n (0 + 0)); cbn; lia. }
  assert (Hno : forall n, within 0 0 n = 0).
  { intros n. unfold within. destruct (Z.leb_spec 0 n), (Z.ltb_spec n (0 + 0)); cbn; lia. }
  assert (Hold : forall n, 0 <= n < q_host_count q -> q_refs q2 n = q_refs q n - within 0 0 n /\
    (within 0 0 n = 0 -> q_tags q2 n = q_tags q n)).
  { intros n Hn. destruct (R n Hn). rewrite Hno. split; [cbn; lia|done]. }
  split_and!; [split| |done|right; change (q_host_count q < q_host_count q1 <= QCOW_MAX_CLUSTERS); lia].
  - destruct Hs1 as [S1 S2 S3 S4 S5 S6 S7 S8 S9]. constructor; try done. intros j Hj.
    change (fits q1 (set_at (q_ref_table q1) i off j)). unfold set_at. destruct (Z.eqb_spec j i); [|by apply S7].
    split; [nia|]. intros _. rewrite C, Eoff, Z.mod_mul by lia. split; [done|nia].
  - apply (remeta extra 1 0 0 q q2 Hg); try done.
    + intros n. destruct (Hcnt n) as (_ & E1 & E2). by split.
    + intros n E. by rewrite Hno in E.
  - apply (remeta_aside extra 1 0 0 q q2 Hg); try done.
    + cbn. congruence.
    + change (q_file_size q <= q_file_size q1). nia.
    + intros n E. by rewrite Hno in E.
Qed.

Definition release_cluster q (i : Z) : qcow P :=
  let q := set_refs q (set_at (q_refs q) i (w16 (q_refs q i - 1))) in
  ref_changed (set_tags q (set_at (q_tags q) i 0)) i.
Lemma release_clusters first count : forall q, 0 <= count -> exists refs tags dirty,
  foldl release_cluster q (seqZ first count) = recounted q refs tags dirty /\
  forall n, refs n = (if decide (first <= n < first + count) then w16 (q_refs q n - 1) else q_refs q n) /\
            (~ first <= n < first + count -> tags n = q_tags q n).
Proof.
  intros q Hc. pattern count. apply natlike_ind; [| |exact Hc].
  - exists (q_refs q), (q_tags q), (q_ref_dirty q). split; [by destruct q|].
    intros n. rewrite !decide_False by lia. done.
  - intros c Hc0 (refs & tags & dirty & IH & Hn). rewrite <- Z.add_1_r, seqZ_snoc, foldl_app, IH by done. cbn [foldl].
    exists (set_at refs (first + c) (w16 (refs (first + c) - 1))), (set_at tags (first + c) 0).
    eexists (if (first + c) / refs_per_block q <? q_ref_entries q
             then set_at dirty ((first + c) / refs_per_block q) true else dirty). split.
    + unfold release_cluster, ref_changed, recounted, refs_per_block. cbn. by destruct (_ <? _).
    + intros n. unfold set_at. destruct (Hn n) as [H1 H2]. split.
      * destruct (Z.eqb_spec n (first + c)) as [->|].
        -- destruct (Hn (first + c)) as [-> _]. rewrite decide_False, decide_True by lia. done.
        -- rewrite H1. repeat case_decide; lia || done.
      * intros Hno. rewrite (proj2 (Z.eqb_neq n (first + c))) by lia. apply H2. lia.
Qed.
Lemma double_until_mult fuel : forall e required, 0 <= e -> exists m, 1 <= m /\ double_until fuel e required = e * m.
Proof.
  induction fuel as [|fuel IH]; intros e r He; cbn [double_until]; [exists 1; lia|].
  destruct (e <? r); [|exists 1; lia]. destruct (IH (e * 2) r ltac:(lia)) as (m & Hm & ->). exists (2 * m). lia.
Qed.

(** The table with more entries, before it has moved *)
Definition enlarged q (entries h : Z) (heap : list bool) : qcow P :=
  let q := set_heap q heap in
  let added := entries - q_ref_entries q in
  let q := set_ref_dirty q (set_range (q_ref_dirty q) (q_ref_entries q) added false) in
  let q := set_ref_table q (set_range (q_ref_table q) (q_ref_entries q) added 0) in
  set_table_size q entries h.
Definition moved_table q (off first old : Z) : qcow P :=
  foldl release_cluster (set_table_moved (set_table_dirty (set_ref_offset q off) true) true) (seqZ first old).
Lemma moved_table_good extra q heap m off qb : good extra q -> 1 <= m ->
  let count := q_ref_clusters q * m in
  appended count 1 off (enlarged q (q_ref_entries q * m) count heap) qb ->
  let qc := moved_table qb off (q_ref_offset q / q_cluster_size q) (q_ref_clusters q) in
  good extra qc /\ aside q qc /\ q_host_count q < q_host_count qc <= QCOW_MAX_CLUSTERS.
Proof.
  intros Hg Hm count Happ qc. pose proof Hg as [Hs Ht]. destruct (shape_cs _ Hs) as (Hcs & _ & He & _).
  destruct (sh_sizes _ Hs) as (Z1 & Z2 & Z3), (sh_hosts _ Hs) as (B1 & B2 & B3), (sh_ref _ Hs) as (O1 & O2 & O3).
  assert (Hc1 : 0 < count) by (unfold count; nia). assert (Hc : 0 <= count) by lia.
  destruct Happ as [Eoff [_ Hmax] [A1 [A2 A3]] G I [L T] R W [F1 [F2 D]]].
  injection G as C LS RC RE LO RO. injection I as I1 I2 I3 I4 I5.
  cbn [enlarged q_host_count q_cluster_size q_l1_size q_ref_clusters q_ref_entries q_l1_offset q_ref_offset q_l1 q_ref_table
    q_raw q_size q_version q_writable q_parent q_refs q_tags set_table_size set_ref_table set_ref_dirty set_heap] in *.
  change (raw_data (enlarged q (q_ref_entries q * m) count heap)) with (raw_data q) in D.
  set (first := q_ref_offset q / q_cluster_size q) in *. set (old := q_ref_clusters q) in *.
  destruct (release_clusters first old (set_table_moved (set_table_dirty (set_ref_offset qb off) true) true) ltac:(lia))
    as (refs & tags & dirty & Eq & Hn). unfold qc, moved_table. rewrite Eq. clear qc Eq. set (qc := recounted _ refs tags dirty).
  cbn [q_refs q_tags set_table_moved set_table_dirty set_ref_offset] in Hn.
  assert (Hw : forall n, within first old n <> 0 -> meta q n <> 0).
  { intros n E. pose proof (within_range first old n). unfold meta. pose proof (within_range 0 1 n).
    pose proof (within_range (q_l1_offset q / q_cluster_size q) (clusters_of q (q_l1_size q * 8)) n).
    pose proof (sumZ_nonneg (fun i => points (q_cluster_size q) (q_ref_table q i) n) (q_ref_entries q)
      (fun i _ => proj1 (points_range _ _ _))). fold first old. lia. }
  assert (Hold : forall n, 0 <= n < q_host_count q -> q_refs qc n = q_refs q n - within first old n /\
    (within first old n = 0 -> q_tags qc n = q_tags q n)).
  { intros n H0. change (q_refs qc n) with (refs n). change (q_tags qc n) with (tags n).
    destruct (Hn n) as [-> H2]. destruct (R n H0) as [-> <-].
    pose proof (within_range first old n). pose proof (within_spec first old n) as Hsp. split.
    - case_decide as Hd; [|assert (within first old n = 0) as -> by (destruct (Z.eq_dec (within first old n) 0) as [|E0]; [done|by apply Hsp in E0]); lia].
      assert (Hne : within first old n <> 0) by by apply Hsp. apply Hw, (meta_alone extra) in Hne as (_ & _ & E & _); [|done|done].
      rewrite E. assert (within first old n = 1) as -> by intuition lia. done.
    - intros E0. apply H2. intros Hd. by apply Hsp in Hd. }
  assert (Hnew : forall n, q_host_count q <= n < q_host_count qc -> q_refs qc n = 1 /\ q_tags qc n = 1).
  { intros n H0. change (q_host_count qc) with (q_host_count qb) in H0. change (q_refs qc n) with (refs n). change (q_tags qc n) with (tags n).
    destruct (Hn n) as [-> H2]. destruct (W n ltac:(lia)) as [W1 W2].
    assert (Hd : ~ first <= n < first + old).
    { intros Hd. apply within_spec, Hw, meta_inside in Hd; [lia|done]. }
    rewrite decide_False by done. split; [done|]. rewrite H2 by done. done. }
  assert (Hbl : forall n, sumZ (fun i => points (q_cluster_size q) (q_ref_table qb i) n) (q_ref_entries q * m) =
    sumZ (fun i => points (q_cluster_size q) (q_ref_table q i) n) (q_ref_entries q)).
  { intros n. rewrite T. rewrite (sumZ_tail _ (q_ref_entries q)); [| nia |].
    - apply sumZ_ext. intros i Hi. unfold set_range. destruct (Z.leb_spec (q_ref_entries q) i); [lia|done].
    - intros i Hi. unfold set_range. destruct (Z.leb_spec (q_ref_entries q) i), (Z.ltb_spec i (q_ref_entries q + (q_ref_entries q * m - q_ref_entries q)));
        cbn [andb]; try lia. done. }
  assert (Hme : forall n, meta qc n = meta q n - within first old n + within (q_host_count q) count n).
  { intros n. unfold meta, clusters_of. cbn [qc recounted q_cluster_size q_l1_offset q_l1_size q_ref_offset q_ref_clusters q_ref_table q_ref_entries
      set_table_dirty set_table_moved set_ref_offset set_ref_dirty set_tags set_refs]. rewrite C, LS, RC, RE, LO, Hbl, Eoff, Z.div_mul by lia.
    fold first old. lia. }
  assert (E : forall i j, entry qc i j = entry q i j).
  { intros i j. unfold entry, l1_off. change (q_l1 qc) with (q_l1 qb). rewrite L. apply read_be64_eq_on. intros x _. apply D. }
  assert (Hcnt : forall n, tables qc n = tables q n /\ datas qc n = datas q n).
  { intros n. unfold tables, datas, l1_off. change (q_l1 qc) with (q_l1 qb). change (q_cluster_size qc) with (q_cluster_size qb).
    change (q_l1_size qc) with (q_l1_size qb). rewrite LS, L, C. split; [done|]. apply sumZ_ext. intros i _.
    unfold table_data, entries_per_l2, l1_off. change (q_l1 qc) with (q_l1 qb). change (q_cluster_size qc) with (q_cluster_size qb).
    rewrite L, C. destruct (_ =? 0); [done|]. apply sumZ_ext. intros j _. by rewrite E. }
  assert (Hfit : forall o, fits q o -> fits qc o).
  { intros o [H0 H1]. split; [done|]. intros Hne. destruct (H1 Hne). change (q_cluster_size qc) with (q_cluster_size qb).
    change (q_file_size qc) with (q_file_size qb). rewrite C. split; [done|nia]. }
  assert (Hqc : q_host_count qc = q_host_count qb) by done. split_and!; [split| |lia|lia].
  - pose proof Hs as [S1 S2 S3 S4 S5 S6 S7 S8 S9].
    constructor; unfold entries_per_l2, l1_off in *;
      cbn [qc recounted q_cluster_size q_l1_offset q_l1_size q_ref_offset q_ref_clusters q_ref_entries q_file_size q_host_count
        q_host_capacity q_file q_l1 set_table_dirty set_table_moved set_ref_offset set_ref_dirty set_tags set_refs];
      rewrite ?C, ?LS, ?RC, ?RE, ?LO, ?L; try done; try lia.
    + split_and!; [nia|rewrite Eoff; by apply Z.mod_mul; lia|nia].
    + intros i Hi. apply Hfit. change (q_ref_table qc i) with (q_ref_table qb i). rewrite T. unfold set_range.
      destruct (Z.leb_spec (q_ref_entries q) i), (Z.ltb_spec i (q_ref_entries q + (q_ref_entries q * m - q_ref_entries q))); cbn [andb];
        try lia; [by split|apply S7; lia].
    + intros i Hi. destruct (S8 i Hi) as [G1 G2]. split; [done|by apply Hfit].
    + intros i j Hi Hl Hj. rewrite E. destruct (S9 i j Hi Hl Hj) as [G1 G2]. split; [done|by apply Hfit].
  - by apply (remeta extra count first old q qc Hg).
  - apply (remeta_aside extra count first old q qc Hg); try done.
    + cbn. congruence.
    + change (q_file_size q <= q_file_size qb). nia.
Qed.
Lemma move_table_ok extra required q q' : good extra q -> move_table required q = (Ok tt, q') ->
  good extra q' /\ aside q q' /\ q_host_count q < q_host_count q' <= QCOW_MAX_CLUSTERS.
Proof.
  intros Hg Hr. pose proof Hg as [Hs _]. destruct (shape_cs _ Hs) as (Hcs & _ & He & _). destruct (sh_sizes _ Hs) as (Z1 & Z2 & Z3).
  unfold move_table in Hr. rewrite (bind_run get_q _ q q q) in Hr by done. cbv zeta in Hr.
  destruct (double_until_mult 25 (q_ref_entries q) required ltac:(nia)) as (m & Hm & Ed). rewrite Ed in Hr. clear Ed.
  destruct (_ <? _) in Hr; [done|].
  apply bind_ok in Hr as ([] & q1 & A1 & Hr). apply alloc_heap in A1 as (h1 & ->).
  apply bind_ok in Hr as ([] & q2 & A2 & Hr). apply alloc_heap in A2 as (h2 & ->).
  apply bind_ok in Hr as ([] & q3 & M3 & Hr). unfold modify in M3. injection M3 as <-.
  assert (Ec : q_ref_entries q * m / entries_per_l2 q = q_ref_clusters q * m).
  { rewrite Z3, <- Z.mul_assoc, (Z.mul_comm (entries_per_l2 q)), Z.mul_assoc. apply Z.div_mul. lia. }
  apply bind_ok in Hr as (off & qb & Hb & Hr). unfold modify in Hr. injection Hr as <-.
  change (entries_per_l2 (set_ref_table _ _)) with (entries_per_l2 q) in Hb. rewrite Ec in Hb.
  apply append_ok in Hb; [| |nia].
  - pose proof (moved_table_good extra q h2 m off qb Hg Hm Hb) as H. cbv zeta in H.
    assert (C : q_cluster_size qb = q_cluster_size q) by (pose proof (ap_geo _ _ _ _ _ Hb) as G; by injection G).
    rewrite <- C in H. exact H.
  - destruct (sh_hosts _ Hs) as (B1 & B2 & B3). constructor; [cbn; lia|done|apply Hs].
Qed.

Lemma refcount_round_ok extra pending q b q' : good extra q -> 0 <= pending ->
  refcount_round pending q = (Ok b, q') ->
  good extra q' /\ aside q q' /\ (b = true -> q_host_count q < q_host_count q' <= QCOW_MAX_CLUSTERS).
Proof.
  intros Hg Hp Hr. pose proof Hg as [Hs _]. destruct (shape_cs _ Hs) as (Hcs & _), (sh_hosts _ Hs) as [B1 _].
  unfold refcount_round in Hr. rewrite (bind_run get_q _ q q q) in Hr by done. cbv zeta in Hr.
  assert (H0 : 0 <= blocks_required q pending).
  { unfold blocks_required, refs_per_block. pose proof (Z.div_le_lower_bound (q_cluster_size q) 2 1 ltac:(lia) ltac:(lia)).
    apply Z.div_pos; lia. }
  destruct (Z.ltb_spec (q_ref_entries q) (blocks_required q pending)).
  - apply bind_ok in Hr as ([] & q1 & H1 & [= <- <-]). apply (move_table_ok extra) in H1 as (? & ? & ?); [|done]. by split_and!.
  - apply bind_ok in Hr as ([] & q1 & H1 & Hr). rewrite (bind_run get_q _ q1 q1 q1) in Hr by done. injection Hr as <- <-.
    apply (for_each_inv (fun _ w => good extra w /\ aside q w /\ q_ref_entries w = q_ref_entries q /\ grows q w)) in H1; [|lia| |].
    + destruct H1 as (G & A & _ & Hgr). split_and!; [done|done|]. intros Hb. apply negb_true_iff, Z.eqb_neq in Hb.
      destruct Hgr as [E|]; [|done]. exfalso. apply Hb. unfold blocks_required, refs_per_block.
      destruct (aside_geo _ _ A) as (-> & _). by rewrite E.
    + split_and!; [done..|by left].
    + intros i w w' Hi (G & A & E & Hgr) Hw. apply (add_ref_block_ok extra) in Hw as (G' & A' & E' & Hgr'); [|done|lia].
      split_and!; [done|by etrans|congruence|]. unfold grows in *. lia.
Qed.
Lemma rounds_inv {W} (R : W -> W -> Prop) `{!PreOrder R} (I : W -> Prop) (body : M W bool) :
  (forall w b w', I w -> body w = (Ok b, w') -> I w' /\ R w w') ->
  forall n w b w', I w -> rounds n body w = (Ok b, w') -> I w' /\ R w w'.
Proof.
  intros Hb. induction n as [n IH|n IH|]; intros w b w' Hi Hr; cbn [rounds] in Hr.
  - apply bind_ok in Hr as (more & w1 & H1 & Hr). apply Hb in H1 as [I1 R1]; [|done].
    destruct more; cbn [negb] in Hr; [|by injection Hr as _ <-].
    apply bind_ok in Hr as (f1 & w2 & H2 & Hr). apply IH in H2 as [I2 R2]; [|done].
    destruct f1; [injection Hr as _ <-; split; [done|by etrans]|].
    apply IH in Hr as [I3 R3]; [|done]. split; [done|]. etrans; [exact R1|by etrans].
  - apply bind_ok in Hr as (f1 & w2 & H2 & Hr). apply IH in H2 as [I2 R2]; [|done].
    destruct f1; [by injection Hr as _ <-|]. apply IH in Hr as [I3 R3]; [|done]. split; [done|by etrans].
  - apply bind_ok in Hr as (more & w1 & H1 & Hr). apply Hb in H1 as [I1 R1]; [|done]. by injection Hr as _ <-.
Qed.
Lemma ensure_refcounts_ok extra pending q q' : good extra q -> 0 <= pending ->
  ensure_refcounts pending q = (Ok tt, q') -> good extra q' /\ aside q q'.
Proof.
  intros Hg Hp. unfold ensure_refcounts. generalize refcount_rounds. intros n Hr.
  apply bind_ok in Hr as (b & q1 & H1 & Hr).
  apply (rounds_inv aside (good extra)) in H1 as [G A]; [|intros w c w' Hi Hw; apply (refcount_round_ok extra) in Hw as (? & ? & _); [by split|done|done]|done].
  destruct b; [|done]. by injection Hr as <-.
Qed.
(** Every round that asks for another one adds a cluster, so the rounds are enough. *)
Lemma rounds_out {W} (I : W -> Prop) (m : W -> Z) (top : Z) (body : M W bool) :
  (forall w b w', I w -> body w = (Ok b, w') -> I w' /\ (b = true -> m w < m w' <= top)) ->
  forall n w b w', I w -> rounds n body w = (Ok b, w') -> I w' /\ (b = false -> m w + Zpos n <= m w' <= top).
Proof.
  intros Hb. induction n as [n IH|n IH|]; intros w b w' Hi Hr; cbn [rounds] in Hr.
  - apply bind_ok in Hr as (more & w1 & H1 & Hr). apply Hb in H1 as [I1 R1]; [|done].
    destruct more; cbn [negb] in Hr; [|by injection Hr as <- <-]. specialize (R1 eq_refl).
    apply bind_ok in Hr as (f1 & w2 & H2 & Hr). apply IH in H2 as [I2 R2]; [|done].
    destruct f1; [by injection Hr as <- <-|]. specialize (R2 eq_refl).
    apply IH in Hr as [I3 R3]; [|done]. split; [done|]. intros ->. specialize (R3 eq_refl). lia.
  - apply bind_ok in Hr as (f1 & w2 & H2 & Hr). apply IH in H2 as [I2 R2]; [|done].
    destruct f1; [by injection Hr as <- <-|]. specialize (R2 eq_refl).
    apply IH in Hr as [I3 R3]; [|done]. split; [done|]. intros ->. specialize (R3 eq_refl). lia.
  - apply bind_ok in Hr as (more & w1 & H1 & Hr). apply Hb in H1 as [I1 R1]; [|done]. injection Hr as <- <-. split; [done|].
    intros ->%negb_false_iff. specialize (R1 eq_refl). lia.
Qed.
Lemma refcount_rounds_enough extra pending q q' : good extra q -> 0 <= pending ->
  rounds refcount_rounds (refcount_round pending) q <> (Ok false, q').
Proof.
  intros Hg Hp Hr.
  revert Hr. assert (Hn : QCOW_MAX_CLUSTERS < Zpos refcount_rounds) by done. revert Hn. generalize refcount_rounds. intros n Hn Hr.
  apply (rounds_out (good extra) q_host_count QCOW_MAX_CLUSTERS) in Hr as [_ Hr]; [|clear -Hp|done].
  - specialize (Hr eq_refl). destruct (sh_hosts _ (proj1 Hg)) as [B _]. lia.
  - intros w b w' Hw Hr. apply (refcount_round_ok extra) in Hr as (? & _ & ?); [by split|done|done].
Qed.
(** From here on the loop is what this lemma says of it. *)
#[local] Opaque ensure_refcounts.

(** ** Writing the refcounts *)
(** Steps that write metadata and leave all tables as they are *)
Record flushed extra q q' : Prop := Flushed {
  fl_good : good extra q';
  fl_aside : aside q q';
  fl_layout : layout q' = layout q;
  fl_tables : q_ref_table q' = q_ref_table q /\ q_refs q' = q_refs q /\ q_tags q' = q_tags q;
}.
Lemma flushed_refl extra q : good extra q -> flushed extra q q.
Proof. by constructor. Qed.
Lemma flushed_trans extra a b c : flushed extra a b -> flushed extra b c -> flushed extra a c.
Proof.
  intros [G1 A1 L1 (T1 & R1 & X1)] [G2 A2 L2 (T2 & R2 & X2)]. constructor; [done|by etrans|congruence|].
  split_and!; congruence.
Qed.
Lemma idle_flushed extra q q' : good extra q -> idle q q' -> flushed extra q q'.
Proof.
  intros [Hs Ht] Hi. constructor; [|by apply idle_aside|apply Hi|split_and!; apply Hi].
  split; [by apply (idle_shape q)|by apply (idle_tally _ q)].
Qed.
(** Writing within one cluster of metadata *)
Lemma write_flushed extra b len off n q q' : good extra q -> meta q n <> 0 -> 0 <= len ->
  n * q_cluster_size q <= off -> off + len <= n * q_cluster_size q + q_cluster_size q -> off + len <= q_file_size q ->
  write_at b len off q = (Ok tt, q') -> flushed extra q q'.
Proof.
  intros [Hs Ht] Hm Hl Hlo Hhi He Hr. destruct (meta_alone extra q n Hs Ht Hm) as (Hn & Htag & _).
  apply (write_meta extra _ _ _ n) in Hr as (S' & T' & A' & f & ->); try done; lia.
Qed.
Lemma header_meta q : meta q 0 <> 0.
Proof.
  unfold meta. pose proof (within_range (q_l1_offset q / q_cluster_size q) (clusters_of q (q_l1_size q * 8)) 0).
  pose proof (within_range (q_ref_offset q / q_cluster_size q) (q_ref_clusters q) 0).
  pose proof (sumZ_nonneg (fun i => points (q_cluster_size q) (q_ref_table q i) 0) (q_ref_entries q)
    (fun i _ => proj1 (points_range _ _ _))). change (within 0 1 0) with 1. lia.
Qed.
Lemma block_meta q i : 0 <= i < q_ref_entries q -> q_ref_table q i <> 0 -> meta q (q_ref_table q i / q_cluster_size q) <> 0.
Proof.
  intros Hi Hne. unfold meta. set (n := q_ref_table q i / q_cluster_size q).
  pose proof (within_range 0 1 n). pose proof (within_range (q_l1_offset q / q_cluster_size q) (clusters_of q (q_l1_size q * 8)) n).
  pose proof (within_range (q_ref_offset q / q_cluster_size q) (q_ref_clusters q) n).
  pose proof (sumZ_le (fun i => points (q_cluster_size q) (q_ref_table q i) n) (q_ref_entries q) i Hi
    (fun i _ => proj1 (points_range _ _ _))) as Hle. cbv beta in Hle. rewrite points_one in Hle by done. lia.
Qed.
Lemma table_meta q k : 0 <= k < q_ref_clusters q -> meta q (q_ref_offset q / q_cluster_size q + k) <> 0.
Proof.
  intros Hk. unfold meta. set (n := q_ref_offset q / q_cluster_size q + k).
  pose proof (within_range 0 1 n). pose proof (within_range (q_l1_offset q / q_cluster_size q) (clusters_of q (q_l1_size q * 8)) n).
  pose proof (sumZ_nonneg (fun i => points (q_cluster_size q) (q_ref_table q i) n) (q_ref_entries q)
    (fun i _ => proj1 (points_range _ _ _))).
  assert (within (q_ref_offset q / q_cluster_size q) (q_ref_clusters q) n <> 0) by (apply within_spec; unfold n; lia).
  pose proof (within_range (q_ref_offset q / q_cluster_size q) (q_ref_clusters q) n). lia.
Qed.
Lemma header_write_ok extra b len off q q' : good extra q -> 0 <= off -> 0 <= len -> off + len <= 512 ->
  write_at b len off q = (Ok tt, q') -> flushed extra q q'.
Proof.
  intros Hg Ho Hl He Hr. pose proof Hg as [Hs _]. destruct (shape_cs _ Hs) as (Hcs & _), (sh_hosts _ Hs) as (_ & B & _).
  apply (write_flushed extra b len off 0 q q'); try done; first [apply header_meta|lia].
Qed.

Lemma flush_block_ok extra i q q' : good extra q -> 0 <= i < q_ref_entries q ->
  flush_block i q = (Ok tt, q') -> flushed extra q q'.
Proof.
  intros Hg Hi Hr. pose proof Hg as [Hs _]. destruct (shape_cs _ Hs) as (Hcs & _).
  unfold flush_block in Hr. rewrite (bind_run get_q _ q q q) in Hr by done.
  destruct (negb _); [injection Hr as <-; by apply flushed_refl|].
  destruct (Z.eqb_spec (q_ref_table q i) 0) as [|Hne]; [done|].
  apply bind_ok in Hr as ([] & q1 & H1 & Hr). unfold modify in Hr. injection Hr as <-.
  pose proof (sh_blocks _ Hs i Hi) as Hf. destruct (fits_cluster _ _ Hs Hf Hne) as [_ E]. destruct Hf as [H0 Hf]. destruct (Hf Hne) as [_ Hend].
  apply (write_flushed extra _ _ _ (q_ref_table q i / q_cluster_size q)) in H1 as F1; try done; try lia; [|by apply block_meta].
  eapply flushed_trans; [exact F1|]. apply idle_flushed; [apply F1|]. by constructor.
Qed.
Lemma flush_table_ok extra q q' : good extra q -> flush_table q = (Ok tt, q') -> flushed extra q q'.
Proof.
  intros Hg Hr. pose proof Hg as [Hs _]. destruct (shape_cs _ Hs) as (Hcs & _ & He & Hee), (sh_sizes _ Hs) as (_ & Z2 & Z3).
  destruct (sh_ref _ Hs) as (O1 & O2 & O3).
  unfold flush_table in Hr. rewrite (bind_run get_q _ q q q) in Hr by done.
  replace ((q_ref_entries q + entries_per_l2 q - 1) / entries_per_l2 q) with (q_ref_clusters q) in Hr
    by (rewrite Z3; apply (Z.div_unique _ _ _ (entries_per_l2 q - 1)); lia).
  apply (for_each_inv (fun _ w => flushed extra q w)) in Hr; [done|lia|by apply flushed_refl|].
  intros k w w' Hk Hf Hw. cbv beta zeta in Hw. pose proof Hf as [Gw _ L _].
  pose proof (layout_inv _ _ L) as (C & _ & RC & _ & _ & RO & F & _).
  pose proof (Z.div_mod (q_ref_offset q) (q_cluster_size q) ltac:(lia)) as Hd.
  eapply flushed_trans; [exact Hf|].
  apply (write_flushed extra _ _ _ (q_ref_offset w / q_cluster_size w + k)) in Hw; try done.
  - apply table_meta. lia.
  - lia.
  - rewrite RO, C. nia.
  - rewrite RO, C. nia.
  - rewrite F. nia.
Qed.
Lemma flush_refcounts_ok extra q q' : good extra q -> flush_refcounts q = (Ok tt, q') -> flushed extra q q'.
Proof.
  intros Hg Hr. unfold flush_refcounts in Hr. apply bind_ok in Hr as ([] & q1 & H1 & Hr).
  apply alloc_idle, (idle_flushed extra) in H1; [|done]. rewrite (bind_run get_q _ q1 q1 q1) in Hr by done.
  apply bind_ok in Hr as ([] & q2 & H2 & Hr).
  assert (H02 : flushed extra q q2).
  { eapply flushed_trans; [exact H1|]. pose proof (sh_sizes _ (proj1 (fl_good _ _ _ H1))) as (_ & Z2 & Z3).
    destruct (shape_cs _ (proj1 (fl_good _ _ _ H1))) as (_ & _ & He & _).
    apply (for_each_inv (fun _ w => flushed extra q1 w)) in H2; [done|nia|apply flushed_refl, H1|].
    intros i w w' Hi Hf Hw. eapply flushed_trans; [exact Hf|]. pose proof (layout_inv _ _ (fl_layout _ _ _ Hf)) as (_ & _ & _ & RE & _).
    apply (flush_block_ok extra i); [apply Hf|lia|done]. }
  clear H1 H2. rewrite (bind_run get_q _ q2 q2 q2) in Hr by done.
  apply bind_ok in Hr as ([] & q3 & H3 & Hr).
  assert (H03 : flushed extra q q3).
  { eapply flushed_trans; [exact H02|]. pose proof (fl_good _ _ _ H02) as G2. destruct (q_table_dirty q2).
    - apply bind_ok in H3 as ([] & q4 & H4 & H5). apply (flush_table_ok extra) in H4; [|done].
      unfold modify in H5. injection H5 as <-. eapply flushed_trans; [exact H4|]. apply idle_flushed; [apply H4|by constructor].
    - injection H3 as <-. by apply flushed_refl. }
  clear H02 H3. apply bind_ok in Hr as ([] & q4 & H4 & Hr).
  apply sync_idle, (idle_flushed extra) in H4; [|apply H03].
  pose proof (flushed_trans _ _ _ _ H03 H4) as H04. clear H03 H4. rewrite (bind_run get_q _ q4 q4 q4) in Hr by done.
  destruct (q_table_moved q4); [|by injection Hr as <-].
  apply bind_ok in Hr as ([] & q5 & H5 & Hr). apply (header_write_ok extra) in H5; [|apply H04|lia..].
  apply bind_ok in Hr as ([] & q6 & H6 & Hr). apply sync_idle, (idle_flushed extra) in H6; [|apply H5].
  unfold modify in Hr. injection Hr as <-. eapply flushed_trans; [exact H04|]. eapply flushed_trans; [exact H5|].
  eapply flushed_trans; [exact H6|]. apply idle_flushed; [apply H6|by constructor].
Qed.

(** ** A new cluster with contents *)
Record allocated extra (b : buf) (tag off : Z) q q' : Prop := Allocated {
  al_good : good (fun n => extra n + points (q_cluster_size q) off n) q';
  al_aside : aside q q';
  al_new : q_host_count q <= off / q_cluster_size q < q_host_count q';
  al_off : off <> 0 /\ off = off / q_cluster_size q * q_cluster_size q /\ off + q_cluster_size q <= QCOW_OFFSET;
  al_fits : off + q_cluster_size q <= q_file_size q';
  al_tag : q_tags q' (off / q_cluster_size q) = tag /\ q_refs q' (off / q_cluster_size q) = 1;
  al_data : eq_on 0 (q_cluster_size q) (slice (raw_data q') off) (to_bytes b);
}.
Lemma allocate_ok extra b tag q off q' : good extra q -> tag = 2 \/ tag = 3 ->
  allocate_cluster b tag q = (Ok off, q') -> allocated extra b tag off q q'.
Proof.
  intros Hg Htag Hr. unfold allocate_cluster in Hr. apply bind_ok in Hr as ([] & q1 & H1 & Hr).
  apply (ensure_refcounts_ok extra) in H1 as [[S1 T1] A1]; [|done|lia].
  destruct (aside_geo _ _ A1) as (C1 & _). destruct (shape_cs _ S1) as (Hcs & _).
  destruct (as_hosts _ _ A1) as [Hh _]. destruct (sh_hosts _ S1) as (B1 & B2 & B3).
  apply bind_ok in Hr as (off1 & q2 & H2 & Hr). apply append_ok in H2; [|by apply shape_hosted|lia].
  pose proof (append_aside 1 tag off1 q1 q2 S1 ltac:(lia) H2) as A2.
  pose proof (append_shape 1 tag off1 q1 q2 S1 ltac:(lia) H2) as S2.
  pose proof (append_tally 1 tag off1 q1 q2 S1 ltac:(lia) H2 extra T1 Htag) as T2.
  rewrite (bind_run get_q _ q2 q2 q2) in Hr by done. destruct H2 as [Eoff Hend [Hc [_ HF]] G _ _ _ W _].
  injection G as C2 _ _ _ _ _. apply bind_ok in Hr as ([] & q3 & H3 & Hr). rewrite C2 in H3.
  assert (En : off1 / q_cluster_size q1 = q_host_count q1) by (rewrite Eoff; apply Z.div_mul; lia).
  destruct (W (q_host_count q1) ltac:(lia)) as [W1 W2].
  apply write_at_ok in H3 as (f & E3 & F1 & F2 & F3); [|done|nia|lia|rewrite HF; nia].
  set (ex := fun n => extra n + within (q_host_count q1) 1 n) in *.
  (* nothing but the new cluster is written *)
  assert (Hpost : tally ex q3 /\ shape q3 /\ aside q1 q3).
  { assert (Hnone : meta q1 (q_host_count q1) = 0 /\ tables q1 (q_host_count q1) = 0 /\ datas q1 (q_host_count q1) = 0).
    { destruct (unused extra q1 (q_host_count q1) S1 T1 ltac:(lia)) as (? & ? & ? & _). done. }
    assert (A13 : aside q1 q3).
    { subst q3. pose proof A2 as [G2 L2 P2 H2 V2]. constructor; try done. intros n Hn Ht2. destruct (V2 n Hn Ht2) as (X1 & X2 & X3).
      split_and!; [done|done|]. intros i Hi. change (f_data f i = raw_data q1 i). rewrite F3, blit_out; [by apply X3|].
      intros Hin. assert (i / q_cluster_size q1 = q_host_count q1) by (apply in_cluster; lia). lia. }
    pose proof (aside_places extra q1 q3 S1 T1 A13) as [P8 P9].
    split_and!; [| |done].
    - assert (Hcount : forall n, meta q3 n = meta q2 n /\ tables q3 n = tables q2 n /\ datas q3 n = datas q2 n).
      { intros n. split; [by subst q3|]. rewrite (aside_tables q1 q3), (aside_datas extra q1 q3) by done.
        rewrite (aside_tables q1 q2), (aside_datas extra q1 q2) by done. done. }
      assert (Hf : q_host_count q3 = q_host_count q2 /\ q_refs q3 = q_refs q2 /\ q_tags q3 = q_tags q2) by by subst q3.
      destruct Hf as (Y1 & Y2 & Y3). destruct T2 as [U1 U2 U3 U4 U5].
      constructor; intros n; rewrite ?Y1, ?Y2, ?Y3; destruct (Hcount n) as (Z1 & Z2 & Z3); rewrite ?Z1, ?Z2, ?Z3; auto.
    - subst q3. destruct S2 as [V1 V2 [V3 V3'] V4 V5 V6 V7 V8 V9]. constructor; try done. split; [done|]. cbn. congruence. }
  destruct Hpost as (T3 & S3 & A13). pose proof (as_live _ _ A13) as _.
  apply bind_ok in Hr as ([] & q4 & H4 & Hr). injection Hr as <- <-.
  apply (flush_refcounts_ok ex) in H4 as [[S4 T4] A4 L4 (T41 & T42 & T43)]; [|by split].
  apply layout_inv in L4 as (_ & _ & _ & _ & _ & _ & HF4 & H4).
  assert (Hh3 : q_host_count q3 = q_host_count q1 + 1 /\ q_tags q3 = q_tags q2 /\ q_refs q3 = q_refs q2 /\
    q_cluster_size q3 = q_cluster_size q1 /\ q_file_size q3 = q_file_size q2) by (subst q3; by split_and!).
  destruct Hh3 as (Hh3 & Ht3 & Hr3 & Hc3 & Hf3).
  constructor; try rewrite <- C1; rewrite ?En.
  - split; [done|]. destruct T4 as [U1 U2 U3 U4 U5].
    assert (Eex : forall n, extra n + points (q_cluster_size q1) off1 n = ex n).
    { intros n. unfold ex, points, within. rewrite En, (proj2 (Z.eqb_neq off1 0)) by nia. cbn [orb].
      destruct (Z.eqb_spec (q_host_count q1) n), (Z.leb_spec (q_host_count q1) n), (Z.ltb_spec n (q_host_count q1 + 1)); cbn; lia. }
    constructor; intros n; rewrite ?Eex; auto.
  - etrans; [exact A1|]. by etrans.
  - lia.
  - split_and!; [nia|lia|]. rewrite Eoff. lia.
  - rewrite HF4, Hf3, HF. lia.
  - rewrite T42, T43, Ht3, Hr3. by split.
  - intros i Hi. unfold slice. destruct (as_live _ _ A4 (q_host_count q1)) as (_ & _ & D); [lia|rewrite Ht3, W2; lia|].
    rewrite D by (rewrite Hc3; apply in_cluster; lia). subst q3. change (f_data f (off1 + i) = to_bytes b i).
    rewrite F3, blit_in by lia. f_equal. lia.
Qed.
End ops.
