(* ===== verification/QcowRefs.v ===== *)
(** * QCOW2 images: references

    Entries of the L1 and L2 tables, refresh_copied_flags and drop_reference of
    src/src/core/qcow2.c: when a reference is dropped, refcounts stay right and the copied
    flags come to describe the references that are left. *)
From S2P Require Import Prelude.
From S2P Require Import Bytes.
From S2P Require Import Backend.
From S2P Require Import Qcow.
From S2P Require Import QcowOpen.
From S2P Require Import QcowCheck.
From S2P Require Import QcowRead.
From S2P Require Import QcowChain.
From S2P Require Import QcowState.
From S2P Require Import QcowAlloc.
#[local] Opaque ensure_refcounts allocate_cluster.

(** ** Entries *)
Lemma offset_copied e : offset_of (Z.lor e QCOW_COPIED) = offset_of e.
Proof. unfold offset_of. rewrite Z.land_lor_distr_l. change (Z.land QCOW_COPIED QCOW_OFFSET) with 0. apply Z.lor_0_r. Qed.
Lemma flag_copied e f : Z.land QCOW_COPIED f = 0 -> has_flag (Z.lor e QCOW_COPIED) f = has_flag e f.
Proof. intros H. unfold has_flag. by rewrite Z.land_lor_distr_l, H, Z.lor_0_r. Qed.
Lemma copied_copied e : has_flag (Z.lor e QCOW_COPIED) QCOW_COPIED = true.
Proof.
  unfold has_flag. rewrite Z.land_lor_distr_l, Z.land_diag. apply negb_true_iff, Z.eqb_neq. intros H.
  apply Z.lor_eq_0_iff in H as [_ H]. done.
Qed.
Lemma address_bits off i : off mod 512 = 0 -> 0 <= off <= QCOW_OFFSET -> 0 <= i -> ~ (9 <= i < 56) -> Z.testbit off i = false.
Proof.
  intros Hm Ho Hi Hn. destruct (Z.lt_ge_cases i 9).
  - rewrite <- (Z.mod_pow2_bits_low off 9 i) by lia. change (2 ^ 9) with 512. rewrite Hm. apply Z.bits_0.
  - apply (Z.bits_above_log2 off i); [lia|]. destruct (Z.eq_dec off 0) as [->|]; [cbn; lia|].
    apply Z.log2_lt_pow2; [lia|]. unfold QCOW_OFFSET in *. pose proof (Z.pow_le_mono_r 2 56 i ltac:(lia) ltac:(lia)). lia.
Qed.
Lemma offset_id off : off mod 512 = 0 -> 0 <= off <= QCOW_OFFSET -> offset_of off = off.
Proof.
  intros Hm Ho. unfold offset_of. apply Z.bits_inj'. intros i Hi. rewrite Z.land_spec.
  destruct (decide (9 <= i < 56)) as [Hr|Hr].
  - replace (Z.testbit QCOW_OFFSET i) with true; [apply andb_true_r|].
    change QCOW_OFFSET with (Z.shiftl (Z.ones 47) 9). rewrite Z.shiftl_spec, Z.ones_spec_low by lia. done.
  - by rewrite address_bits.
Qed.
Lemma address_flag off k : off mod 512 = 0 -> 0 <= off <= QCOW_OFFSET -> 0 <= k -> ~ (9 <= k < 56) -> has_flag off (2 ^ k) = false.
Proof.
  intros Hm Ho Hk Hn. unfold has_flag. apply negb_false_iff, Z.eqb_eq, Z.bits_inj'. intros i Hi.
  rewrite Z.land_spec, Z.bits_0, Z.pow2_bits_eqb by lia. destruct (Z.eqb_spec k i) as [<-|]; [|apply andb_false_r].
  by rewrite address_bits.
Qed.
(** The entry for a new cluster *)
Lemma new_entry off : off mod 512 = 0 -> 0 <= off <= QCOW_OFFSET ->
  let e := Z.lor off QCOW_COPIED in
  offset_of e = off /\ has_flag e QCOW_COMPRESSED = false /\ has_flag e QCOW_ZERO = false /\
  has_flag e QCOW_COPIED = true /\ 0 <= e < 2 ^ 64.
Proof.
  intros Hm Ho e. unfold e. rewrite offset_copied, !flag_copied by done. split_and!.
  - by apply offset_id.
  - change QCOW_COMPRESSED with (2 ^ 62). apply address_flag; lia.
  - change QCOW_ZERO with (2 ^ 0). apply address_flag; lia.
  - apply copied_copied.
  - apply Z.lor_nonneg. unfold QCOW_COPIED. lia.
  - apply Z.log2_lt_cancel. rewrite Z.log2_lor, Z.log2_pow2 by (unfold QCOW_COPIED; lia). unfold QCOW_COPIED. rewrite Z.log2_pow2 by lia.
    pose proof (Z.log2_le_mono off QCOW_OFFSET ltac:(lia)). change (Z.log2 QCOW_OFFSET) with 55 in *. lia.
Qed.
Lemma copied_range e : 0 <= e < 2 ^ 64 -> 0 <= Z.lor e QCOW_COPIED < 2 ^ 64.
Proof.
  intros He. split; [apply Z.lor_nonneg; unfold QCOW_COPIED; lia|].
  apply Z.log2_lt_cancel. rewrite Z.log2_lor, Z.log2_pow2 by (unfold QCOW_COPIED; lia). unfold QCOW_COPIED. rewrite Z.log2_pow2 by lia.
  pose proof (Z.log2_le_mono e (2 ^ 64 - 1) ltac:(lia)). change (Z.log2 (2 ^ 64 - 1)) with 63 in *. lia.
Qed.

Lemma be64_slice b off : be64 (slice b off) 0 = be64 b off.
Proof. unfold be64, slice, read_be64, read_be32. repeat (f_equal; try lia). Qed.

Section write.
Context {P : Type} `{HB : Backend P, HR : !ReadSpec P}.
Implicit Types (q : qcow P).

(** ** Writing one entry *)
Lemma write_u64_ok off v q q' : shape q -> 0 <= off -> off + 8 <= q_file_size q -> 0 <= v < 2 ^ 64 ->
  write_u64 off v q = (Ok tt, q') ->
  exists f, q' = set_file q f /\ file_inv f /\ f_size f = f_size (q_file q) /\ be64 (f_data f) off = v /\
    forall i, ~ off <= i < off + 8 -> f_data f i = raw_data q i.
Proof.
  intros Hs Ho He Hv Hr. apply write_at_ok in Hr as (f & -> & F1 & F2 & F3); [|done..].
  exists f. split_and!; try done.
  - rewrite <- be64_slice. rewrite <- (read_write_be64 zeros 0 v Hv). apply read_be64_eq_on. intros i Hi. unfold slice.
    rewrite F3, blit_in by lia. rewrite to_bytes_id by (apply wf_write_be64, wf_zeros). f_equal. lia.
  - intros i Hi. rewrite F3. by apply blit_out.
Qed.
(** Where the entries lie: two places of the tables are the same or apart. *)
Lemma entry_place extra q i j : good extra q -> 0 <= i < q_l1_size q -> l1_off q i <> 0 -> 0 <= j < entries_per_l2 q ->
  let n := l1_off q i / q_cluster_size q in
  0 < n < q_host_count q /\ q_tags q n = 3 /\ n * q_cluster_size q <= l1_off q i + j * 8 /\
  l1_off q i + j * 8 + 8 <= n * q_cluster_size q + q_cluster_size q /\ l1_off q i + j * 8 + 8 <= q_file_size q.
Proof.
  intros [Hs Ht] Hi Hl Hj n. destruct (shape_cs _ Hs) as (Hcs & _ & _ & He).
  destruct (l1_entry_live extra q i Hs Ht Hi Hl) as (Hn & Eo & Htag). fold n in Hn, Eo, Htag.
  destruct (sh_l1_entries _ Hs i Hi) as [_ [_ Hf]]. destruct (Hf Hl) as [_ Hend].
  change (offset_of (q_l1 q i)) with (l1_off q i) in Hend. split_and!; lia || done.
Qed.
Lemma slot_entries extra q f i j i' j' : good extra q -> 0 <= i < q_l1_size q -> l1_off q i <> 0 -> 0 <= j < entries_per_l2 q ->
  0 <= i' < q_l1_size q -> l1_off q i' <> 0 -> 0 <= j' < entries_per_l2 q ->
  (forall x, ~ l1_off q i + j * 8 <= x < l1_off q i + j * 8 + 8 -> f_data f x = raw_data q x) ->
  entry (set_file q f) i' j' =
    if (l1_off q i' =? l1_off q i) && (j' =? j) then be64 (f_data f) (l1_off q i + j * 8) else entry q i' j'.
Proof.
  intros Hg Hi Hl Hj Hi' Hl' Hj' Hf. pose proof Hg as [Hs Ht]. destruct (shape_cs _ Hs) as (Hcs & _ & _ & He).
  destruct (l1_entry_live extra q i Hs Ht Hi Hl) as (Hn & Eo & _). destruct (l1_entry_live extra q i' Hs Ht Hi' Hl') as (Hn' & Eo' & _).
  unfold entry. change (l1_off (set_file q f) i') with (l1_off q i'). change (raw_data (set_file q f)) with (f_data f).
  destruct (Z.eqb_spec (l1_off q i') (l1_off q i)) as [E|E]; cbn [andb].
  - rewrite E. destruct (Z.eqb_spec j' j) as [->|]; [done|]. apply read_be64_eq_on. intros x Hx. apply Hf. lia.
  - apply read_be64_eq_on. intros x Hx. apply Hf.
    assert (l1_off q i / q_cluster_size q <> l1_off q i' / q_cluster_size q) by congruence. nia.
Qed.

(** ** Steps that change only copied flags *)
Definition same_place (e e' : Z) : Prop :=
  offset_of e' = offset_of e /\ has_flag e' QCOW_COMPRESSED = has_flag e QCOW_COMPRESSED.
Definition same_entry (e e' : Z) : Prop := same_place e e' /\ has_flag e' QCOW_ZERO = has_flag e QCOW_ZERO.
Record kin q q' : Prop := Kin {
  ki_layout : layout q' = layout q;
  ki_image : (q_raw q', q_size q', q_version q', q_writable q', q_parent q') =
    (q_raw q, q_size q, q_version q, q_writable q, q_parent q);
  ki_tables : q_ref_table q' = q_ref_table q /\ q_refs q' = q_refs q /\ q_tags q' = q_tags q;
  ki_file : shape q -> file_inv (q_file q') /\ f_size (q_file q') = q_file_size q /\ q_host_count q <= q_host_capacity q';
  ki_l1 : forall i, 0 <= i < q_l1_size q -> same_place (q_l1 q i) (q_l1 q' i);
  ki_entries : forall i j, 0 <= i < q_l1_size q -> l1_off q i <> 0 -> 0 <= j < entries_per_l2 q ->
    same_entry (entry q i j) (entry q' i j);
  ki_data : forall n, 0 <= n < q_host_count q -> q_tags q n = 2 ->
    forall x, x / q_cluster_size q = n -> raw_data q' x = raw_data q x;
}.
Lemma kin_geo q q' : kin q q' ->
  q_cluster_size q' = q_cluster_size q /\ q_l1_size q' = q_l1_size q /\ q_ref_clusters q' = q_ref_clusters q /\
  q_ref_entries q' = q_ref_entries q /\ q_l1_offset q' = q_l1_offset q /\ q_ref_offset q' = q_ref_offset q /\
  q_file_size q' = q_file_size q /\ q_host_count q' = q_host_count q.
Proof. intros [L _ _ _ _ _ _]. by apply layout_inv. Qed.
Lemma kin_off q q' i : kin q q' -> 0 <= i < q_l1_size q -> l1_off q' i = l1_off q i.
Proof. intros Hk Hi. by destruct (ki_l1 _ _ Hk i Hi). Qed.
Lemma kin_shape q q' : kin q q' -> shape q -> shape q'.
Proof.
  intros Hk Hs. destruct (kin_geo _ _ Hk) as (C & L & RC & RE & LO & RO & F & H).
  destruct (ki_tables _ _ Hk) as (T & R & G). destruct (ki_file _ _ Hk Hs) as (I1 & I2 & I3).
  assert (Hfit : forall e e', same_place e e' -> good_place q e -> good_place q' e').
  { intros e e' (E1 & E3) [G1 G2]. unfold good_place, fits in *. by rewrite E3, E1, C, F. }
  pose proof Hs as [S1 S2 S3 [S4 S4'] S5 S6 S7 S8 S9].
  constructor; unfold entries_per_l2 in *; rewrite ?C, ?L, ?RC, ?RE, ?LO, ?RO, ?F, ?H, ?T; try done.
  - split; [lia|done].
  - intros i Hi. unfold fits. rewrite C, F. by apply S7.
  - intros i Hi. eapply Hfit; [by apply (ki_l1 _ _ Hk)|by apply S8].
  - intros i j Hi Hl Hj. rewrite (kin_off q q') in Hl by done. eapply Hfit; [by apply (ki_entries _ _ Hk)|by apply S9].
Qed.
#[export] Instance kin_preorder : PreOrder kin.
Proof.
  split; [intros q; constructor; try done; intros Hs; split_and!; apply Hs|]. intros a b c H1 H2. destruct (kin_geo _ _ H1) as (C & L & _ & _ & _ & _ & _ & H).
  pose proof H1 as [L1 I1 (A1 & R1 & T1) F1 N1 E1 D1]. pose proof H2 as [L2 I2 (A2 & R2 & T2) F2 N2 E2 D2].
  assert (Hplace : forall x y z, same_place x y -> same_place y z -> same_place x z).
  { intros x y z [? ?] [? ?]. split; congruence. }
  assert (Htrans : forall x y z, same_entry x y -> same_entry y z -> same_entry x z).
  { intros x y z [X1 ?] [X2 ?]. split; [by eapply Hplace|congruence]. }
  constructor; [congruence|congruence|split_and!; congruence| | | |].
  - intros Hf. destruct (F2 (kin_shape _ _ H1 Hf)) as (? & ? & ?). destruct (kin_geo _ _ H1) as (_ & _ & _ & _ & _ & _ & X & _).
    split_and!; [done|congruence|lia].
  - intros i Hi. eapply Hplace; [by apply N1|]. apply N2. by rewrite L.
  - intros i j Hi Hl Hj. eapply Htrans; [by apply E1|]. apply E2; [by rewrite L|by rewrite (kin_off a b)|].
    unfold entries_per_l2. by rewrite C.
  - intros n Hn Ht x Hx. rewrite D2 with (n := n); [by apply (D1 n)|by rewrite H|by rewrite T1|by rewrite C].
Qed.
Lemma idle_kin q q' : idle q q' -> kin q q'.
Proof.
  intros Hi. pose proof Hi as [L I [A B] [R T] [D Z]]. injection I as I1 I2 I3 I4 I5 I6. constructor; try done.
  - congruence.
  - intros Hs. destruct (sh_file _ Hs) as [F1 F2], (sh_hosts _ Hs) as [B1 _]. rewrite I6, Z. split_and!; [|done|lia].
    unfold file_inv in *. unfold raw_data in D. by rewrite D, Z.
  - intros i _. by rewrite A.
  - intros i j _ _ _. by rewrite (idle_entry q q').
  - intros n _ _ x _. by rewrite D.
Qed.
Lemma kin_counts q q' n : kin q q' -> meta q' n = meta q n /\ tables q' n = tables q n /\ datas q' n = datas q n.
Proof.
  intros Hk. destruct (kin_geo _ _ Hk) as (C & L & RC & RE & LO & RO & _ & _). destruct (ki_tables _ _ Hk) as (T & _ & _).
  unfold meta, tables, datas, clusters_of. rewrite C, L, RC, RE, LO, RO, T. split_and!; [done| |].
  - apply sumZ_ext. intros i Hi. by rewrite (kin_off q q').
  - apply sumZ_ext. intros i Hi. unfold table_data, entries_per_l2. rewrite (kin_off q q'), C by done.
    destruct (Z.eqb_spec (l1_off q i) 0) as [|Hl]; [done|]. apply sumZ_ext. intros j Hj.
    by destruct (ki_entries _ _ Hk i j Hi Hl Hj) as [[-> _] _].
Qed.
Lemma kin_good extra q q' : kin q q' -> good extra q -> good extra q'.
Proof.
  intros Hk [Hs Ht]. destruct (kin_geo _ _ Hk) as (_ & _ & _ & _ & _ & _ & _ & H).
  destruct (ki_tables _ _ Hk) as (_ & R & G). split; [by eapply kin_shape|]. destruct Ht as [T1 T2 T3 T4 T5].
  constructor; intros n; rewrite ?H, ?R, ?G; destruct (kin_counts _ _ n Hk) as (E1 & E2 & E3); rewrite ?E1, ?E2, ?E3; auto.
Qed.
Lemma kin_disk q q' : kin q q' -> disk_ok q -> disk_ok q'.
Proof.
  intros Hk [D1 D2 D3]. destruct (kin_geo _ _ Hk) as (C & L & _). pose proof (ki_image _ _ Hk) as I. injection I as R Z _ _ Pa.
  constructor; unfold entries_per_l2; rewrite ?R, ?Pa, ?Z, ?L, ?C; done.
Qed.
Lemma kin_guest extra q q' : good extra q -> disk_ok q -> kin q q' -> guest q' ≡ guest q.
Proof.
  intros [Hs Ht] Hd Hk. destruct (kin_geo _ _ Hk) as (C & L & _). pose proof (ki_image _ _ Hk) as I. injection I as R Z _ _ Pa.
  destruct (shape_cs _ Hs) as (Hcs & _). apply guest_same; [apply Hd|by rewrite C, Z, R, Pa|lia|].
  intros c i Hc Hi Hsz. destruct (guest_index q c Hs Hd Hc ltac:(lia)) as [G1 G2].
  rewrite !mapping_entry. unfold entries_per_l2. rewrite C. fold (entries_per_l2 q). rewrite (kin_off q q') by done.
  destruct (Z.eqb_spec (l1_off q (c / entries_per_l2 q)) 0) as [|Hl].
  { unfold stored_byte, inherited. by rewrite Pa. }
  destruct (ki_entries _ _ Hk _ _ G1 Hl G2) as [[E1 _] E2]. unfold stored_byte. rewrite E1, E2, C.
  set (e := entry q _ _) in *. destruct (has_flag e QCOW_ZERO); [done|].
  destruct (Z.eqb_spec (offset_of e) 0) as [|He]; cbn [negb]; [unfold inherited; by rewrite Pa|].
  destruct (entry_live extra q _ _ Hs Ht G1 Hl G2 He) as (Hn & Eo & Htag). fold e in Hn, Eo, Htag.
  apply (ki_data _ _ Hk (offset_of e / q_cluster_size q)); [lia|done|].
  pose proof (Z.mod_pos_bound i (q_cluster_size q) ltac:(lia)). apply in_cluster; lia.
Qed.

(** ** The copied flags after a reference has gone *)
Lemma entry_range q i j : shape q -> 0 <= entry q i j < 2 ^ 64.
Proof. intros Hs. unfold entry. apply read_be64_range. apply (sh_file _ Hs). Qed.
Lemma flag_entry_ok extra q i j q' : good extra q -> 0 <= i < q_l1_size q -> l1_off q i <> 0 -> 0 <= j < entries_per_l2 q ->
  write_u64 (l1_off q i + j * 8) (Z.lor (entry q i j) QCOW_COPIED) q = (Ok tt, q') ->
  kin q q' /\ q_l1 q' = q_l1 q /\
  forall i' j', 0 <= i' < q_l1_size q -> l1_off q i' <> 0 -> 0 <= j' < entries_per_l2 q ->
    entry q' i' j' = if (l1_off q i' =? l1_off q i) && (j' =? j) then Z.lor (entry q i' j') QCOW_COPIED else entry q i' j'.
Proof.
  intros Hg Hi Hl Hj Hr. pose proof Hg as [Hs Ht]. destruct (entry_place extra q i j Hg Hi Hl Hj) as (Hn & Htag & P1 & P2 & P3).
  destruct (shape_cs _ Hs) as (Hcs & _). destruct (sh_l1_entries _ Hs i Hi) as [_ [H0 _]]. change (offset_of (q_l1 q i)) with (l1_off q i) in H0.
  apply write_u64_ok in Hr as (f & -> & F1 & F2 & F3 & F4); [|done|lia|done|apply copied_range; by apply entry_range].
  assert (He : forall i' j', 0 <= i' < q_l1_size q -> l1_off q i' <> 0 -> 0 <= j' < entries_per_l2 q ->
    entry (set_file q f) i' j' = if (l1_off q i' =? l1_off q i) && (j' =? j) then Z.lor (entry q i' j') QCOW_COPIED else entry q i' j').
  { intros i' j' Hi' Hl' Hj'. rewrite (slot_entries extra q f i j) by done. rewrite F3.
    destruct (Z.eqb_spec (l1_off q i') (l1_off q i)) as [E|], (Z.eqb_spec j' j) as [->|]; cbn [andb]; try done.
    unfold entry. by rewrite E. }
  split_and!; [|done|exact He]. constructor; try done.
  - intros _. destruct (sh_file _ Hs) as [_ F6], (sh_hosts _ Hs) as [B1 _]. cbn. split_and!; [done|congruence|lia].
  - intros i' j' Hi' Hl' Hj'. rewrite He by done. destruct (_ && _); [|done].
    split; [split|]; [apply offset_copied|by apply flag_copied|by apply flag_copied].
  - intros n Hn' Ht' x Hx. apply F4. intros Hin. assert (x / q_cluster_size q = l1_off q i / q_cluster_size q) by (apply in_cluster; lia).
    assert (n = l1_off q i / q_cluster_size q) by congruence. subst n. congruence.
Qed.
Lemma l1_meta extra q i : good extra q -> 0 <= i < q_l1_size q ->
  let n := (q_l1_offset q + i * 8) / q_cluster_size q in
  meta q n <> 0 /\ n * q_cluster_size q <= q_l1_offset q + i * 8 /\
  q_l1_offset q + i * 8 + 8 <= n * q_cluster_size q + q_cluster_size q /\ q_l1_offset q + i * 8 + 8 <= q_file_size q.
Proof.
  intros [Hs Ht] Hi n. destruct (shape_cs _ Hs) as (Hcs & _ & Hee & He). destruct (sh_l1 _ Hs) as (A0 & A1 & A2).
  pose proof (Z.div_mod (q_l1_offset q) (q_cluster_size q) ltac:(lia)) as Hd. rewrite A1 in Hd.
  set (a := q_l1_offset q / q_cluster_size q) in *.
  pose proof (Z.div_mod i (entries_per_l2 q) ltac:(lia)) as Hd2. pose proof (Z.mod_pos_bound i (entries_per_l2 q) ltac:(lia)) as Hm.
  assert (En : n = a + i / entries_per_l2 q).
  { unfold n. symmetry. apply (Z.div_unique _ _ _ (i mod entries_per_l2 q * 8)); [lia|].
    transitivity (q_cluster_size q * a + (entries_per_l2 q * 8) * (i / entries_per_l2 q) + i mod entries_per_l2 q * 8); [lia|rewrite He; lia]. }
  split_and!; [|rewrite En; nia|rewrite En; nia|lia].
  assert (within a (clusters_of q (q_l1_size q * 8)) n <> 0).
  { apply within_spec. pose proof (Z.div_pos i (entries_per_l2 q) ltac:(lia) ltac:(lia)). split; [lia|]. rewrite En.
    enough (i / entries_per_l2 q < clusters_of q (q_l1_size q * 8)) by lia. unfold clusters_of.
    apply Z.lt_le_trans with ((i * 8) / q_cluster_size q + 1).
    - rewrite <- He. rewrite Z.div_mul_cancel_r by lia. lia.
    - replace ((i * 8) / q_cluster_size q + 1) with ((i * 8 + 1 * q_cluster_size q) / q_cluster_size q) by (apply Z.div_add; lia).
      apply Z.div_le_mono; lia. }
  unfold meta. fold a. pose proof (within_range 0 1 n).
  pose proof (within_range a (clusters_of q (q_l1_size q * 8)) n).
  pose proof (within_range (q_ref_offset q / q_cluster_size q) (q_ref_clusters q) n).
  pose proof (sumZ_nonneg (fun i => points (q_cluster_size q) (q_ref_table q i) n) (q_ref_entries q)
    (fun i _ => proj1 (points_range _ _ _))). lia.
Qed.

Lemma flushed_kin extra q q' : good extra q -> flushed extra q q' -> kin q q'.
Proof.
  intros [Hs Ht] [[Hs' _] Ha L (T & R & G)]. pose proof (as_geo _ _ Ha) as E. injection E as E1 E2 E3 E4 E5 E6 E7.
  destruct (sh_hosts _ Hs') as [B _]. destruct (sh_file _ Hs') as [F1 F2].
  pose proof (layout_inv _ _ L) as (_ & _ & _ & _ & _ & _ & F & H). constructor; try done.
  - rewrite (as_parent _ _ Ha). congruence.
  - intros _. split_and!; [done|congruence|lia].
  - intros i _. by rewrite (as_l1 _ _ Ha).
  - intros i j Hi Hl Hj. by rewrite (aside_entry extra q q').
  - intros n Hn Htag. by apply (as_live _ _ Ha n Hn (or_introl Htag)).
Qed.
Lemma write_l1_ok extra i v q q' : good extra q -> 0 <= i < q_l1_size q -> 0 <= v < 2 ^ 64 ->
  write_u64 (q_l1_offset q + i * 8) v q = (Ok tt, q') -> flushed extra q q' /\ q_l1 q' = q_l1 q.
Proof.
  intros Hg Hi Hv Hr. destruct (l1_meta extra q i Hg Hi) as (M1 & M2 & M3 & M4).
  unfold write_u64 in Hr. assert (F : flushed extra q q') by (apply (write_flushed extra _ _ _ _ q q' Hg M1) in Hr; done || lia).
  split; [done|]. apply (as_l1 _ _ (fl_aside _ _ _ F)).
Qed.
(** The table in memory with entry [i] replaced, at the same place *)
Lemma set_l1_kin q i v : same_place (q_l1 q i) v ->
  kin q (set_l1 q (set_at (q_l1 q) i v)) /\ forall i' j, 0 <= i' < q_l1_size q ->
    entry (set_l1 q (set_at (q_l1 q) i v)) i' j = entry q i' j.
Proof.
  intros Hv. set (q' := set_l1 _ _).
  assert (Hl : forall i', l1_off q' i' = l1_off q i').
  { intros i'. unfold l1_off. cbn [q' q_l1 set_l1]. unfold set_at. destruct (Z.eqb_spec i' i) as [->|]; [by destruct Hv|done]. }
  assert (He : forall i' j, entry q' i' j = entry q i' j) by (intros i' j; unfold entry; by rewrite Hl).
  split; [|intros; apply He]. constructor; try done.
  - intros Hs. split_and!; [apply Hs|apply Hs|]. cbn. destruct (sh_hosts _ Hs) as [B _]. lia.
  - intros i' _. cbn [q' q_l1 set_l1]. unfold set_at. by destruct (Z.eqb_spec i' i) as [->|].
  - intros i' j _ _ _. by rewrite He.
Qed.

(** The flags are right but for entries at [off]; of these, the ones before table [i0], slot
    [j0] are set. *)
Record half (off i0 j0 : Z) q : Prop := Half {
  ha_l1 : forall i, 0 <= i < q_l1_size q -> l1_off q i <> 0 ->
    (l1_off q i = off -> i < i0 -> has_flag (q_l1 q i) QCOW_COPIED = true) /\
    (l1_off q i <> off -> flag_ok q (q_l1 q i));
  ha_entry : forall i j, 0 <= i < q_l1_size q -> l1_off q i <> 0 -> 0 <= j < entries_per_l2 q ->
    (offset_of (entry q i j) = off -> i < i0 \/ i = i0 /\ j < j0 -> has_flag (entry q i j) QCOW_COPIED = true) /\
    (offset_of (entry q i j) <> off -> flag_ok q (entry q i j));
}.
Lemma idle_half off i0 j0 q q' : idle q q' -> half off i0 j0 q -> half off i0 j0 q'.
Proof.
  intros Hi [H1 H2]. destruct (idle_geo _ _ Hi) as (C & L & _). destruct (id_tables _ _ Hi) as [A _]. destruct (id_refs _ _ Hi) as [R _].
  constructor.
  - intros i. rewrite L, (idle_l1_off q q'), A by done. unfold flag_ok. rewrite R, C. apply H1.
  - intros i j. unfold entries_per_l2. rewrite L, C, (idle_l1_off q q'), (idle_entry q q') by done. unfold flag_ok. rewrite R, C. apply H2.
Qed.
Lemma flushed_half extra off i0 j0 q q' : good extra q -> flushed extra q q' -> half off i0 j0 q -> half off i0 j0 q'.
Proof.
  intros [Hs Ht] [_ Ha L (_ & R & _)] [H1 H2]. apply layout_inv in L as (C & L & _). constructor.
  - intros i. rewrite L, (aside_l1_off q q'), (as_l1 _ _ Ha) by done. unfold flag_ok. rewrite R, C. apply H1.
  - intros i j. unfold entries_per_l2. rewrite L, C, (aside_l1_off q q') by done. intros Hi Hl Hj.
    rewrite (aside_entry extra q q') by done. unfold flag_ok. rewrite R, C. by apply H2.
Qed.
Lemma refresh_slot_ok extra off i j q q' : good extra q -> 0 <= i < q_l1_size q -> l1_off q i <> 0 -> 0 <= j < entries_per_l2 q ->
  off <> 0 -> half off i j q ->
  (let! entry := read_u64 (l1_off q i + j * 8) in
   if offset_of entry =? off then write_u64 (l1_off q i + j * 8) (Z.lor entry QCOW_COPIED) else ret tt) q = (Ok tt, q') ->
  kin q q' /\ half off i (j + 1) q'.
Proof.
  intros Hg Hi Hl Hj Hoff Hh Hr. apply bind_ok in Hr as (e & q1 & H1 & Hr).
  apply read_u64_idle in H1 as (I1 & -> & _). change (be64 (raw_data q) (l1_off q i + j * 8)) with (entry q i j) in Hr.
  pose proof (idle_kin _ _ I1) as K1. pose proof (kin_good _ _ _ K1 Hg) as Hg1. pose proof (idle_half _ _ _ _ _ I1 Hh) as Hh1.
  destruct (kin_geo _ _ K1) as (C & L & _). assert (Hl1 : l1_off q1 i = l1_off q i) by by apply idle_l1_off.
  assert (He1 : entry q1 i j = entry q i j) by by apply idle_entry. rewrite <- Hl1, <- He1 in Hr.
  assert (Hi1 : 0 <= i < q_l1_size q1) by lia. assert (Hj1 : 0 <= j < entries_per_l2 q1) by (unfold entries_per_l2; by rewrite C).
  rewrite <- Hl1 in Hl. destruct (Z.eqb_spec (offset_of (entry q1 i j)) off) as [Eo|Eo].
  - apply (flag_entry_ok extra q1 i j) in Hr as (K2 & A2 & E2); try done. destruct (kin_geo _ _ K2) as (C2 & L2 & _).
    destruct (ki_tables _ _ K2) as (_ & R2 & _).
    split; [by etrans|]. destruct Hh1 as [G1 G2]. constructor.
    + intros x Hx. unfold l1_off. rewrite A2. fold (l1_off q1 x). unfold flag_ok. rewrite R2, C2. rewrite L2 in Hx. by apply G1.
    + intros x y Hx Hlx Hy. rewrite L2 in Hx. unfold l1_off in Hlx. rewrite A2 in Hlx. fold (l1_off q1 x) in Hlx.
      assert (Hy1 : 0 <= y < entries_per_l2 q1) by (unfold entries_per_l2 in *; by rewrite C2 in Hy).
      rewrite E2 by done. destruct (G2 x y Hx Hlx Hy1) as [G3 G4]. unfold flag_ok. rewrite R2, C2.
      destruct (Z.eqb_spec (l1_off q1 x) (l1_off q1 i)) as [El|], (Z.eqb_spec y j) as [->|]; cbn [andb].
      * assert (Es : entry q1 x j = entry q1 i j) by (unfold entry; by rewrite El). rewrite Es, offset_copied.
        split; [intros _ _; apply copied_copied|done].
      * split; [|done]. intros Ha Hb. apply G3; [done|]. lia.
      * split; [|done]. intros Ha Hb. apply G3; [done|]. destruct Hb as [|[-> _]]; [by left|done].
      * split; [|done]. intros Ha Hb. apply G3; [done|]. lia.
  - injection Hr as <-. split; [done|]. destruct Hh1 as [G1 G2]. constructor; [done|]. intros x y Hx Hlx Hy.
    destruct (G2 x y Hx Hlx Hy) as [G3 G4]. split; [|done]. intros Ha Hb. apply G3; [done|].
    destruct Hb as [|[-> Hb]]; [by left|]. destruct (Z.eq_dec y j) as [->|]; [done|]. right. lia.
Qed.
Lemma half_next off i j q : 0 <= i -> entries_per_l2 q <= j -> half off i j q -> l1_off q i <> off -> half off (i + 1) 0 q.
Proof.
  intros Hi Hj [G1 G2] Hl. constructor.
  - intros x Hx Hlx. destruct (G1 x Hx Hlx) as [G3 G4]. split; [|done]. intros Ha Hb. apply G3; [done|].
    destruct (Z.eq_dec x i) as [->|]; [done|lia].
  - intros x y Hx Hlx Hy. destruct (G2 x y Hx Hlx Hy) as [G3 G4]. split; [|done]. intros Ha Hb. apply G3; [done|]. lia.
Qed.
Lemma refresh_l2_ok extra off i q q' : good extra q -> 0 <= i < q_l1_size q -> l1_off q i <> 0 -> off <> 0 -> l1_off q i <> off ->
  half off i 0 q -> refresh_l2 (l1_off q i) off q = (Ok tt, q') -> kin q q' /\ half off (i + 1) 0 q'.
Proof.
  intros Hg Hi Hl Hoff Hne Hh Hr. unfold refresh_l2 in Hr. rewrite (bind_run get_q _ q q q) in Hr by done.
  destruct (shape_cs _ (proj1 Hg)) as (_ & _ & He & _).
  apply (for_each_inv (fun j w => kin q w /\ half off i j w)) in Hr; [|lia|done|].
  - destruct Hr as [K H]. split; [done|]. rewrite Z.add_0_l in H. destruct (kin_geo _ _ K) as (C & _).
    apply (half_next off i (entries_per_l2 q)); [lia|unfold entries_per_l2; by rewrite C|done|by rewrite (kin_off q q')].
  - intros j w w' Hj [K H] Hw. destruct (kin_geo _ _ K) as (C & L & _). rewrite <- (kin_off q w) in Hw by done.
    apply (refresh_slot_ok extra) in Hw as [K' H']; [split; [by etrans|done]|by eapply kin_good|by rewrite L|by rewrite (kin_off q w)| |done|done].
    unfold entries_per_l2 in *. rewrite C. lia.
Qed.

Lemma half_skip off i q : l1_off q i = 0 -> half off i 0 q -> half off (i + 1) 0 q.
Proof.
  intros H0 [G1 G2]. constructor.
  - intros x Hx Hlx. destruct (G1 x Hx Hlx) as [G3 G4]. split; [|done]. intros Ha Hb. apply G3; [done|].
    destruct (Z.eq_dec x i) as [->|]; [done|lia].
  - intros x y Hx Hlx Hy. destruct (G2 x y Hx Hlx Hy) as [G3 G4]. split; [|done]. intros Ha Hb. apply G3; [done|].
    destruct (Z.eq_dec x i) as [->|]; [done|lia].
Qed.
(** Clusters with different tags are different. *)
Lemma l1_off_tag extra off tag q i : good extra q -> q_tags q (off / q_cluster_size q) = tag -> tag <> 3 ->
  0 <= i < q_l1_size q -> l1_off q i <> 0 -> l1_off q i <> off.
Proof.
  intros [Hs Ht] Htag Hne Hi Hl E. destruct (l1_entry_live extra q i Hs Ht Hi Hl) as (_ & _ & H). rewrite E, Htag in H. done.
Qed.
Lemma entry_tag extra off tag q i j : good extra q -> q_tags q (off / q_cluster_size q) = tag -> tag <> 2 -> off <> 0 ->
  0 <= i < q_l1_size q -> l1_off q i <> 0 -> 0 <= j < entries_per_l2 q -> offset_of (entry q i j) <> off.
Proof.
  intros [Hs Ht] Htag Hne H0 Hi Hl Hj E.
  destruct (entry_live extra q i j Hs Ht Hi Hl Hj ltac:(by rewrite E)) as (_ & _ & H). rewrite E, Htag in H. done.
Qed.
Lemma refresh_l1_ok extra off i q q' : good extra q -> q_tags q (off / q_cluster_size q) = 3 -> off <> 0 ->
  0 <= i < q_l1_size q -> l1_off q i = off -> half off i 0 q ->
  (write_u64 (q_l1_offset q + i * 8) (Z.lor (l1_off q i) QCOW_COPIED) ;;;
   modify (fun q0 => set_l1 q0 (set_at (q_l1 q0) i (Z.lor (l1_off q i) QCOW_COPIED)))) q = (Ok tt, q') ->
  kin q q' /\ half off (i + 1) 0 q'.
Proof.
  intros Hg Htag H0 Hi Hl Hh Hr. set (v := Z.lor (l1_off q i) QCOW_COPIED) in *.
  assert (Hoo : offset_of (l1_off q i) = l1_off q i).
  { unfold l1_off, offset_of. by rewrite <- Z.land_assoc, Z.land_diag. }
  assert (Hv : same_place (q_l1 q i) v).
  { destruct (sh_l1_entries _ (proj1 Hg) i Hi) as [Hc _]. split.
    - unfold v. rewrite offset_copied. exact Hoo.
    - rewrite Hc. unfold v. rewrite flag_copied by done. unfold l1_off, offset_of, has_flag. rewrite <- Z.land_assoc.
      change (Z.land QCOW_OFFSET QCOW_COMPRESSED) with 0. by rewrite Z.land_0_r. }
  apply bind_ok in Hr as ([] & q1 & H1 & Hr). apply (write_l1_ok extra) in H1 as [F1 A1]; [|done|done|].
  2: { apply copied_range. rewrite <- Hoo. unfold offset_of. split; [apply Z.land_nonneg; right; done|].
       apply Z.le_lt_trans with QCOW_OFFSET; [|done]. rewrite <- Hoo. apply Z.ldiff_le; [done|].
       unfold offset_of. rewrite Z.ldiff_land. rewrite <- !Z.land_assoc, Z.land_lnot_diag. apply Z.land_0_r. }
  pose proof (flushed_kin _ _ _ Hg F1) as K1. unfold modify in Hr. injection Hr as <-.
  destruct (set_l1_kin q1 i v ltac:(by rewrite A1)) as [K2 E2]. set (q2 := set_l1 q1 _) in *.
  assert (K : kin q q2) by by etrans. split; [done|].
  destruct (kin_geo _ _ K1) as (C1 & L1 & _). destruct (ki_tables _ _ K1) as (_ & R1 & _). destruct Hh as [G1 G2]. constructor.
  - intros x Hx Hlx. change (q_l1_size q2) with (q_l1_size q1) in Hx. rewrite L1 in Hx. rewrite (kin_off q q2) in Hlx |- * by done.
    unfold flag_ok. change (q_refs q2) with (q_refs q1). change (q_cluster_size q2) with (q_cluster_size q1). rewrite R1, C1.
    cbn [q2 q_l1 set_l1]. rewrite A1. unfold set_at. destruct (G1 x Hx Hlx) as [G3 G4].
    destruct (Z.eqb_spec x i) as [->|].
    + split; [intros _ _; apply copied_copied|done].
    + split; [|exact G4]. intros Ha Hb. apply G3; [done|lia].
  - intros x y Hx Hlx Hy. change (q_l1_size q2) with (q_l1_size q1) in Hx. rewrite E2 by done. rewrite L1 in Hx.
    rewrite (kin_off q q2) in Hlx by done. assert (Hy0 : 0 <= y < entries_per_l2 q).
    { unfold entries_per_l2 in *. change (q_cluster_size q2) with (q_cluster_size q1) in Hy. by rewrite C1 in Hy. }
    rewrite (aside_entry extra q q1) by (done || apply Hg || apply F1). unfold flag_ok.
    change (q_refs q2) with (q_refs q1). change (q_cluster_size q2) with (q_cluster_size q1). rewrite R1, C1.
    split; [|apply G2; done]. intros Ha. exfalso. by apply (entry_tag extra off 3 q x y) in Ha.
Qed.
Lemma refresh_ok extra off tag q q' : good extra q -> q_tags q (off / q_cluster_size q) = tag -> tag = 2 \/ tag = 3 -> off <> 0 ->
  q_refs q (off / q_cluster_size q) = 1 -> half off 0 0 q -> refresh_copied_flags off tag q = (Ok tt, q') ->
  kin q q' /\ flags q'.
Proof.
  intros Hg Htag Htt H0 Hr1 Hh Hr. unfold refresh_copied_flags in Hr. rewrite (bind_run get_q _ q q q) in Hr by done.
  apply bind_ok in Hr as ([] & q1 & H1 & Hr). destruct (sh_sizes _ (proj1 Hg)) as [Z1 _].
  apply (for_each_inv (fun i w => kin q w /\ half off i 0 w)) in H1; [|done|done|].
  - destruct H1 as [K1 Hh1]. rewrite Z.add_0_l in Hh1. apply sync_idle in Hr as I2. pose proof (idle_kin _ _ I2) as K2.
    assert (K : kin q q') by by etrans. split; [done|]. pose proof (idle_half _ _ _ _ _ I2 Hh1) as [G1 G2].
    destruct (kin_geo _ _ K) as (C & L & _). destruct (ki_tables _ _ K) as (_ & R & _).
    intros i Hi. split.
    + intros Hne. change (l1_off q' i <> 0) in Hne. destruct (G1 i Hi Hne) as [G3 G4].
      destruct (Z.eq_dec (l1_off q' i) off) as [E|E]; [|by apply G4].
      unfold l1_off in E. rewrite E, R, C, Hr1. apply G3; [done|lia].
    + intros Hl j Hj Hne. destruct (G2 i j Hi Hl Hj) as [G3 G4]. destruct (Z.eq_dec (offset_of (entry q' i j)) off) as [E|E]; [|by apply G4].
      rewrite E, R, C, Hr1. apply G3; [done|lia].
  - intros i w w' Hi [K Hw] Hstep. rewrite (bind_run get_q _ w w w) in Hstep by done. cbv zeta in Hstep.
    fold (l1_off w i) in Hstep. pose proof (kin_good _ _ _ K Hg) as Hgw. destruct (kin_geo _ _ K) as (C & L & _).
    destruct (ki_tables _ _ K) as (_ & _ & T). assert (Htw : q_tags w (off / q_cluster_size w) = tag) by by rewrite C, T.
    assert (Hiw : 0 <= i < q_l1_size w) by lia.
    destruct (Z.eqb_spec (l1_off w i) 0) as [E0|E0].
    { injection Hstep as <-. split; [done|by apply half_skip]. }
    destruct Htt as [-> | ->]; cbn [Z.eqb andb] in Hstep.
    + apply (refresh_l2_ok extra) in Hstep as [K' H']; [|done..|by apply (l1_off_tag extra off 2)|done]. split; [by etrans|done].
    + change (3 =? 3) with true in Hstep. cbn [andb] in Hstep. destruct (Z.eqb_spec (l1_off w i) off) as [Eo|Eo].
      * apply (refresh_l1_ok extra off) in Hstep as [K' H']; [|done..]. split; [by etrans|done].
      * change (3 =? 2) with false in Hstep. injection Hstep as <-. split; [done|].
        destruct Hw as [G1 G2]. constructor.
        -- intros x Hx Hlx. destruct (G1 x Hx Hlx) as [G3 G4]. split; [|done]. intros Ha Hb. apply G3; [done|].
           destruct (Z.eq_dec x i) as [->|]; [done|lia].
        -- intros x y Hx Hlx Hy. destruct (G2 x y Hx Hlx Hy) as [G3 G4]. split; [|done]. intros Ha.
           exfalso. by apply (entry_tag extra off 3 w x y) in Ha.
Qed.

(** One use less of the cluster at [off], which no entry refers to by this use any more *)
Record dropped extra off q q' : Prop := Dropped {
  dr_good : good (fun n => extra n - points (q_cluster_size q) off n) q';
  dr_flags : flags q';
  dr_disk : disk_ok q -> disk_ok q' /\ guest q' ≡ guest q;
  dr_l1 : forall i, 0 <= i < q_l1_size q -> l1_off q' i = l1_off q i;
  dr_geo : (q_cluster_size q', q_l1_size q', q_size q', q_writable q') = (q_cluster_size q, q_l1_size q, q_size q, q_writable q);
  dr_refs : forall n, n <> off / q_cluster_size q -> q_refs q' n = q_refs q n;
}.
Lemma unref_good extra off q dirty : good extra q -> flags q -> off <> 0 -> off = off / q_cluster_size q * q_cluster_size q ->
  let n := off / q_cluster_size q in 1 <= extra n ->
  let r := q_refs q n - 1 in
  let q1 := recounted q (set_at (q_refs q) n r) (if r =? 0 then set_at (q_tags q) n 0 else q_tags q) dirty in
  good (fun m => extra m - points (q_cluster_size q) off m) q1 /\ half off 0 0 q1 /\ 0 <= r /\ (r <> 1 -> flags q1).
Proof.
  intros [Hs Ht] Hf H0 Eoff n Hex r q1. destruct (ta_extra _ _ Ht n) as [_ Hx]. destruct (Hx ltac:(lia)) as [Hn Htag].
  pose proof (ta_refs _ _ Ht n Hn) as Hsum. pose proof (meta_nonneg q n). pose proof (tables_nonneg q n). pose proof (datas_nonneg q n).
  destruct (shape_cs _ Hs) as (Hcs & _).
  assert (Hpn : points (q_cluster_size q) off n = 1) by by apply points_one.
  assert (Hpo : forall m, m <> n -> points (q_cluster_size q) off m = 0) by (intros m Hm; apply points_other; unfold n in Hm; congruence).
  assert (Hrefs : forall m, q_refs q1 m = if m =? n then r else q_refs q m) by done.
  assert (Htags : forall m, m <> n \/ r <> 0 -> q_tags q1 m = q_tags q m).
  { intros m Hm. cbn [q1 recounted q_tags set_ref_dirty set_tags]. destruct (Z.eqb_spec r 0); [|done].
    unfold set_at. destruct (Z.eqb_spec m n); [lia|done]. }
  assert (Hmn : meta q n = 0).
  { destruct (Z.eq_dec (meta q n) 0) as [|E]; [done|]. destruct (ta_meta _ _ Ht n Hn E). lia. }
  (* entries elsewhere have other clusters *)
  assert (Helse : forall e, fits q e -> e <> 0 -> e <> off -> e / q_cluster_size q <> n).
  { intros e He Hne Ho E. destruct (fits_cluster _ _ Hs He Hne) as [_ X]. unfold n in E. congruence. }
  assert (Hl1 : forall i, 0 <= i < q_l1_size q -> l1_off q i <> 0 -> l1_off q i <> off -> flag_ok q1 (q_l1 q i)).
  { intros i Hi Hl Ho Hne. rewrite Hrefs. change (q_cluster_size q1) with (q_cluster_size q).
    rewrite (proj2 (Z.eqb_neq _ n)) by (apply Helse; [apply (sh_l1_entries _ Hs i Hi)|done|done]). by apply Hf. }
  assert (Hen : forall i j, 0 <= i < q_l1_size q -> l1_off q i <> 0 -> 0 <= j < entries_per_l2 q -> offset_of (entry q i j) <> off ->
    flag_ok q1 (entry q i j)).
  { intros i j Hi Hl Hj Ho Hne. rewrite Hrefs. change (q_cluster_size q1) with (q_cluster_size q).
    rewrite (proj2 (Z.eqb_neq _ n)) by (apply Helse; [apply (sh_entries _ Hs i j Hi Hl Hj)|done|done]). by apply Hf. }
  split_and!; [split| |lia|].
  - pose proof Hs as [S1 S2 S3 S4 S5 S6 S7 S8 S9]. by constructor.
  - pose proof Ht as [T1 T2 T3 T4 T5]. constructor.
    + intros m Hm. change (meta q1 m) with (meta q m). change (tables q1 m) with (tables q m). change (datas q1 m) with (datas q m).
      rewrite Hrefs. destruct (Z.eqb_spec m n) as [->|Hne]; [rewrite Hpn; unfold r; lia|]. rewrite Hpo by done. rewrite (T1 m Hm). lia.
    + intros m Hm E. change (meta q m <> 0) in E. assert (m <> n) by congruence. rewrite Htags by by left. rewrite Hrefs.
      rewrite (proj2 (Z.eqb_neq m n)) by done. by apply T2.
    + intros m Hm E. change (tables q m <> 0) in E. rewrite Htags; [by apply T3|]. destruct (Z.eq_dec m n) as [->|]; [right; unfold r; pose proof (tables_nonneg q n); lia|by left].
    + intros m Hm E. change (datas q m <> 0) in E. rewrite Htags; [by apply T4|]. destruct (Z.eq_dec m n) as [->|]; [right; unfold r; lia|by left].
    + intros m. destruct (T5 m) as [E1 E2]. destruct (Z.eq_dec m n) as [->|Hne].
      * rewrite Hpn. split; [lia|]. intros E. rewrite Htags by (right; unfold r; lia). apply E2. lia.
      * rewrite Hpo by done. split; [lia|]. intros E. rewrite Htags by by left. apply E2. lia.
  - constructor.
    + intros i Hi Hl. split; [intros; lia|]. intros Ho. by apply Hl1.
    + intros i j Hi Hl Hj. split; [intros; lia|]. intros Ho. by apply Hen.
  - intros Hr1 i Hi. change (q_l1_size q1) with (q_l1_size q) in Hi. split.
    + destruct (Z.eq_dec (l1_off q i) off) as [Eo|Eo].
      * intros Hne. change (q_cluster_size q1) with (q_cluster_size q). change (q_l1 q1 i) with (q_l1 q i) in *.
        destruct (Hf i Hi) as [F1 _]. specialize (F1 Hne). change (offset_of (q_l1 q i)) with (l1_off q i) in *.
        rewrite Hrefs, Eo in *. fold n in F1 |- *. rewrite Z.eqb_refl. rewrite F1.
        pose proof (l1_entry_uses q i Hi ltac:(by rewrite Eo)) as Hu. rewrite Eo in Hu. fold n in Hu. unfold r in *.
        destruct (Z.eqb_spec (q_refs q n) 1), (Z.eqb_spec (q_refs q n - 1) 1); lia || done.
      * destruct (Z.eq_dec (l1_off q i) 0) as [El|El]; [|by apply Hl1]. intros Hne. by destruct Hne.
    + intros Hl j Hj. change (l1_off q1 i) with (l1_off q i) in Hl. change (entry q1 i j) with (entry q i j).
      destruct (Z.eq_dec (offset_of (entry q i j)) off) as [Eo|Eo]; [|by apply Hen].
      intros Hne. change (q_cluster_size q1) with (q_cluster_size q). destruct (Hf i Hi) as [_ F1]. specialize (F1 Hl j Hj Hne).
      rewrite Hrefs, Eo in *. fold n in F1 |- *. rewrite Z.eqb_refl. rewrite F1.
      pose proof (entry_uses q i j Hi Hl Hj ltac:(by rewrite Eo)) as Hu. rewrite Eo in Hu. fold n in Hu. unfold r in *.
      destruct (Z.eqb_spec (q_refs q n) 1), (Z.eqb_spec (q_refs q n - 1) 1); lia || done.
Qed.
Lemma drop_ok extra off q q' : good extra q -> flags q -> off <> 0 -> off = off / q_cluster_size q * q_cluster_size q ->
  1 <= extra (off / q_cluster_size q) -> drop_reference off q = (Ok tt, q') -> dropped extra off q q'.
Proof.
  intros Hg Hf H0 Eoff Hex Hr. unfold drop_reference in Hr. rewrite (bind_run get_q _ q q q) in Hr by done. cbv zeta in Hr.
  set (n := off / q_cluster_size q) in *. destruct (q_refs q n =? 0); [done|].
  apply bind_ok in Hr as ([] & q1 & H1 & Hr). unfold modify in H1. injection H1 as H1.
  set (r := q_refs q n - 1).
  assert (E1 : exists dirty, q1 = recounted q (set_at (q_refs q) n r) (if r =? 0 then set_at (q_tags q) n 0 else q_tags q) dirty).
  { rewrite <- H1. unfold ref_changed, recounted. cbn.
    assert (Er : set_at (q_refs q) n (q_refs q n - 1) n = r) by (unfold set_at; by rewrite Z.eqb_refl). rewrite !Er. fold r.
    destruct (r =? 0); cbn; (destruct (_ <? _); [by eexists|]; exists (q_ref_dirty q); by destruct q). }
  clear H1. destruct E1 as (dirty & E1). destruct (ta_extra _ _ (proj2 Hg) n) as [_ Hx]. destruct (Hx ltac:(lia)) as [_ Htag].
  destruct (unref_good extra off q dirty Hg Hf H0 Eoff Hex) as (G1 & Hh1 & Hr0 & Hf1). fold n r in G1, Hh1, Hr0, Hf1. rewrite <- E1 in G1, Hh1, Hf1.
  set (ex := fun m => extra m - points (q_cluster_size q) off m) in *.
  apply bind_ok in Hr as ([] & q2 & H2 & Hr). apply (flush_refcounts_ok ex) in H2 as F2; [|done]. clear H2.
  pose proof (flushed_kin _ _ _ G1 F2) as K2. rewrite (bind_run get_q _ q2 q2 q2) in Hr by done.
  destruct (ki_tables _ _ K2) as (_ & R2 & T2). destruct (kin_geo _ _ K2) as (C2 & L2 & _).
  assert (C1 : q_cluster_size q1 = q_cluster_size q) by by rewrite E1.
  assert (Hr2 : q_refs q2 n = r) by (rewrite R2, E1; cbn; unfold set_at; by rewrite Z.eqb_refl).
  assert (Hpost : forall q3, kin q1 q3 -> flags q3 -> dropped extra off q q3).
  { intros q3 K Hf3. destruct (kin_geo _ _ K) as (C & L & _). pose proof (ki_image _ _ K) as I. injection I as I1 I2 I3 I4 I5.
    assert (Hd1 : disk_ok q -> disk_ok q1 /\ guest q1 ≡ guest q) by (intros [D1 D2 D3]; rewrite E1; by split).
    constructor.
    - by apply (kin_good ex q1).
    - done.
    - intros Hd. destruct (Hd1 Hd) as [Hd' Hgu]. split; [by apply (kin_disk q1)|]. etrans; [by eapply kin_guest|done].
    - intros i Hi. rewrite (kin_off q1 q3) by (done || by rewrite E1). by rewrite E1.
    - rewrite C, L, I2, I4. by rewrite E1.
    - intros m Hm. fold n in Hm. destruct (ki_tables _ _ K) as (_ & -> & _). rewrite E1. cbn. unfold set_at.
      by destruct (Z.eqb_spec m n). }
  rewrite Hr2 in Hr. destruct (Z.eqb_spec r 1) as [Er|Er].
  - assert (Ht1 : q_tags q1 n = q_tags q n) by (rewrite E1; cbn; by rewrite (proj2 (Z.eqb_neq r 0)) by lia).
    apply (refresh_ok ex) in Hr as [K3 Hf3]; [apply Hpost; [by etrans|done]|by apply F2|rewrite C2, C1; fold n; congruence|by destruct Htag; auto|done|rewrite C2, C1; fold n; congruence|].
    by apply (flushed_half ex off 0 0 q1).
  - injection Hr as <-. apply Hpost; [done|]. apply (aside_flags ex q1); [apply G1|apply G1|apply F2|by apply Hf1].
Qed.

(** ** An L2 table of one's own *)
Section relink.
Context (q : qcow P) (index off : Z).
Hypothesis Hg : good (points (q_cluster_size q) off) q.
Hypothesis Hf : flags q.
Hypothesis Hd : disk_ok q.
Hypothesis Hi : 0 <= index < q_l1_size q.
Hypothesis Hoff : off <> 0 /\ off = off / q_cluster_size q * q_cluster_size q /\ off + q_cluster_size q <= QCOW_OFFSET.
Hypothesis Hfit : off + q_cluster_size q <= q_file_size q.
Hypothesis Htag : q_tags q (off / q_cluster_size q) = 3 /\ q_refs q (off / q_cluster_size q) = 1.
Hypothesis Hcopy : forall j, 0 <= j < entries_per_l2 q ->
  be64 (raw_data q) (off + j * 8) = if l1_off q index =? 0 then 0 else entry q index j.
Local Abbreviation q' := (set_l1 q (set_at (q_l1 q) index (Z.lor off QCOW_COPIED))).

Lemma relink_address : off mod 512 = 0 /\ 0 <= off <= QCOW_OFFSET.
Proof.
  destruct (shape_cs _ (proj1 Hg)) as (Hcs & Hm & _). destruct Hoff as (H0 & H1 & H2).
  pose proof (Z.div_mod (q_cluster_size q) 512 ltac:(lia)) as Hd5. rewrite Hm in Hd5. split.
  - rewrite H1, Hd5, Z.add_0_r. rewrite (Z.mul_comm 512), Z.mul_assoc. by apply Z.mod_mul.
  - destruct (ta_extra _ _ (proj2 Hg) (off / q_cluster_size q)) as [_ Hx]. rewrite points_one in Hx by done.
    destruct (Hx ltac:(lia)) as [Hn _]. nia.
Qed.
Lemma relink_l1_off i : l1_off q' i = if i =? index then off else l1_off q i.
Proof.
  unfold l1_off. cbn [q_l1 set_l1]. unfold set_at. destruct (i =? index); [|done].
  destruct relink_address as [A1 A2]. by destruct (new_entry off A1 A2).
Qed.
Lemma relink_entry i j : 0 <= j < entries_per_l2 q ->
  entry q' i j = if i =? index then (if l1_off q index =? 0 then 0 else entry q index j) else entry q i j.
Proof.
  intros Hj. unfold entry at 1. rewrite relink_l1_off. destruct (Z.eqb_spec i index); [by apply Hcopy|done].
Qed.
Lemma relink_tables n : tables q' n = tables q n - points (q_cluster_size q) (l1_off q index) n + points (q_cluster_size q) off n.
Proof.
  unfold tables. change (q_cluster_size q') with (q_cluster_size q). change (q_l1_size q') with (q_l1_size q).
  rewrite (sumZ_update (fun i => points (q_cluster_size q) (l1_off q i) n) _ _ index Hi).
  - by rewrite relink_l1_off, Z.eqb_refl.
  - intros i _ Hne. by rewrite relink_l1_off, (proj2 (Z.eqb_neq i index)).
Qed.
Lemma relink_datas n : datas q' n = datas q n.
Proof.
  unfold datas. change (q_l1_size q') with (q_l1_size q). apply sumZ_ext. intros i Hr. unfold table_data.
  rewrite relink_l1_off. change (entries_per_l2 q') with (entries_per_l2 q). change (q_cluster_size q') with (q_cluster_size q).
  destruct (Z.eqb_spec i index) as [Ei|Hne]; [subst i|].
  - rewrite (proj2 (Z.eqb_neq off 0)) by apply Hoff. pose proof relink_entry as He. destruct (Z.eqb_spec (l1_off q index) 0) as [E|E].
    + rewrite (sumZ_ext _ (fun _ => 0)); [unfold sumZ; generalize (seqZ 0 (entries_per_l2 q)); intros l; induction l as [|x l IH]; [done|]; cbn [foldr]; by rewrite IH|].
      intros j Hj. by rewrite He, Z.eqb_refl.
    + apply sumZ_ext. intros j Hj. by rewrite He, Z.eqb_refl.
  - destruct (Z.eqb_spec (l1_off q i) 0) as [|_]; [done|]. apply sumZ_ext. intros j Hj.
    by rewrite relink_entry, (proj2 (Z.eqb_neq i index) Hne).
Qed.
Lemma zero_place : good_place q' 0.
Proof. split; [done|]. split; [done|]. done. Qed.
Lemma relink_good : good (points (q_cluster_size q) (l1_off q index)) q'.
Proof.
  destruct relink_address as [A1 A2]. destruct (new_entry off A1 A2) as (N1 & N2 & N3 & N4 & N5).
  pose proof Hg as [Hs Ht]. destruct (shape_cs _ Hs) as (Hcs & _). destruct Hoff as (O1 & O2 & O3).
  assert (Hmod : off mod q_cluster_size q = 0) by (rewrite O2; apply Z.mod_mul; lia). split.
  - pose proof Hs as [S1 S2 S3 S4 S5 S6 S7 S8 S9]. constructor; try done.
    + intros i Hr. cbn [q_l1 set_l1]. unfold set_at. destruct (Z.eqb_spec i index); [|by apply S8].
      split; [done|]. rewrite N1. split; [lia|]. intros _. split; [exact Hmod|exact Hfit].
    + intros i j Hr. rewrite relink_l1_off. change (entries_per_l2 q') with (entries_per_l2 q). intros Hl Hj.
      rewrite relink_entry by done. destruct (Z.eqb_spec i index) as [Ei|]; [subst i|by apply S9].
      destruct (Z.eqb_spec (l1_off q index) 0) as [E|E]; [apply zero_place|by apply S9].
  - pose proof Ht as [T1 T2 T3 T4 T5]. constructor.
    + intros n Hn. rewrite relink_tables, relink_datas. change (meta q' n) with (meta q n). change (q_refs q' n) with (q_refs q n).
      rewrite (T1 n Hn). lia.
    + done.
    + intros n Hn. rewrite relink_tables. intros Hne. change (q_tags q' n) with (q_tags q n).
      destruct (Z.eq_dec (points (q_cluster_size q) off n) 0) as [E|E].
      * apply T3; [done|]. pose proof (points_range (q_cluster_size q) (l1_off q index) n).
        pose proof (tables_nonneg q' n) as Hn'. rewrite relink_tables in Hn'. lia.
      * apply points_spec in E as [_ <-]. apply Htag.
    + intros n Hn. rewrite relink_datas. by apply T4.
    + intros n. pose proof (points_range (q_cluster_size q) (l1_off q index) n). split; [lia|]. intros E. apply points_spec in E as [E <-].
      destruct (l1_entry_live _ q index Hs Ht Hi E) as (H1 & _ & H2). split; [|by right]. change (q_host_count q') with (q_host_count q). lia.
Qed.
Lemma relink_flags : flags q'.
Proof.
  destruct relink_address as [A1 A2]. destruct (new_entry off A1 A2) as (N1 & N2 & N3 & N4 & N5).
  intros i Hr. change (q_l1_size q') with (q_l1_size q) in Hr. destruct (Hf i Hr) as [F1 F2]. split.
  - cbn [q_l1 set_l1]. unfold set_at. destruct (Z.eqb_spec i index); [|exact F1].
    intros _. rewrite N4, N1. symmetry. apply Z.eqb_eq, Htag.
  - rewrite relink_l1_off. change (entries_per_l2 q') with (entries_per_l2 q). intros Hl j Hj. rewrite relink_entry by done.
    destruct (Z.eqb_spec i index) as [Ei|]; [subst i|by apply F2].
    destruct (Z.eqb_spec (l1_off q index) 0) as [E|E]; [intros H; by destruct H|by apply F2].
Qed.
Lemma relink_disk : disk_ok q' /\ guest q' ≡ guest q.
Proof.
  split; [by destruct Hd|]. destruct (shape_cs _ (proj1 Hg)) as (Hcs & _).
  apply guest_same; [apply Hd|done|lia|]. intros c i Hc Hr Hsz.
  destruct (guest_index q c (proj1 Hg) Hd Hc ltac:(lia)) as [G1 G2]. rewrite !mapping_entry.
  change (entries_per_l2 q') with (entries_per_l2 q). rewrite relink_l1_off, relink_entry by done.
  destruct (Z.eqb_spec (c / entries_per_l2 q) index) as [E|E]; [|done]. rewrite E.
  rewrite (proj2 (Z.eqb_neq off 0)) by apply Hoff. by destruct (l1_off q index =? 0).
Qed.
End relink.
End write.
