(* ===== verification/QcowWrite.v ===== *)
(** * QCOW2 images: copy on write

    writable_l2, qcow_write_chunk, qcow_write and qcow_sync of src/src/core/qcow2.c: a write
    that succeeds replaces the bytes of its range, no others, and leaves an image whose
    refcounts and copied flags are right; so does a sync, which changes nothing. *)
From S2P Require Import Prelude.
From S2P Require Import Bytes.
From S2P Require Import Backend.
From S2P Require Import Qcow.
From S2P Require Import QcowOpen.
From S2P Require Import QcowCheck.
From S2P Require Import QcowRead.
From S2P Require Import QcowChain.
From S2P Require Import QcowState.
From S2P Require Import QcowAlloc.
From S2P Require Import QcowRefs.
#[local] Opaque ensure_refcounts allocate_cluster drop_reference.

Section write.
Context {P : Type} `{HB : Backend P, HR : !ReadSpec P}.
Implicit Types (q : qcow P).

(** ** Progress of a write *)
(** From [q], whose disk is to become [g]; [extra] counts clusters that are in use but not
    referred to. *)
Record held (extra : Z -> Z) (g : buf) q q' : Prop := Held {
  he_good : good extra q';
  he_flags : flags q';
  he_disk : disk_ok q';
  he_guest : guest q' ≡ g;
  he_geo : (q_cluster_size q', q_l1_size q', q_size q', q_writable q') =
    (q_cluster_size q, q_l1_size q, q_size q, q_writable q);
}.
Definition none : Z -> Z := fun _ => 0.
Lemma extra_same e1 e2 q : (forall n, e1 n = e2 n) -> good e1 q -> good e2 q.
Proof.
  intros E [Hs [T1 T2 T3 T4 T5]]. split; [done|]. constructor; [|done..|]; intros n; rewrite <- E; auto.
Qed.
Lemma held_settled g q q' : held none g q q' -> settled q'.
Proof. intros [[Hs Ht] Hf _ _ _]. by constructor. Qed.
Lemma settled_held q : settled q -> disk_ok q -> held none (guest q) q q.
Proof. intros [Hs Ht Hf] Hd. constructor; [by split|done..]. Qed.
Lemma held_geo extra g q q' : held extra g q q' ->
  q_cluster_size q' = q_cluster_size q /\ q_l1_size q' = q_l1_size q /\ q_size q' = q_size q /\
  q_writable q' = q_writable q /\ entries_per_l2 q' = entries_per_l2 q.
Proof. intros [_ _ _ _ G]. injection G as C L Z W. unfold entries_per_l2. split_and!; congruence. Qed.
Lemma held_trans extra g g' q q1 q2 : held extra g q q1 -> held none g' q1 q2 -> held none g' q q2.
Proof. intros [_ _ _ _ G1] [H1 H2 H3 H4 G2]. constructor; try done. congruence. Qed.
Lemma held_aside e e' g q q1 q2 : held e g q q1 -> aside q1 q2 -> good e' q2 -> held e' g q q2.
Proof.
  intros [[Hs Ht] Hf Hd Hg G] Ha Hg2. pose proof (as_geo _ _ Ha) as E. injection E as E1 E2 _ E4 _ _ E7.
  constructor; [done| | | |congruence].
  - by apply (aside_flags e q1).
  - by apply (aside_disk q1).
  - etrans; [by apply (aside_guest e q1)|done].
Qed.
Lemma held_idle e g q q1 q2 : held e g q q1 -> idle q1 q2 -> held e g q q2.
Proof.
  intros Hh Hi. pose proof (fl_good _ _ _ (idle_flushed e _ _ (he_good _ _ _ _ Hh) Hi)).
  eapply held_aside; [done|by apply idle_aside|done].
Qed.
(** Giving up the use of the cluster at [off] *)
Lemma held_drop off g q q1 q2 : held (points (q_cluster_size q) off) g q q1 -> off = off / q_cluster_size q * q_cluster_size q ->
  (if off =? 0 then ret tt else drop_reference off) q1 = (Ok tt, q2) ->
  held none g q q2 /\ (forall i, 0 <= i < q_l1_size q -> l1_off q2 i = l1_off q1 i) /\
  forall n, off = 0 \/ n <> off / q_cluster_size q -> q_refs q2 n = q_refs q1 n.
Proof.
  intros [Hg Hf Hd Hgu G] Ho Hr. injection G as C L Z W. destruct (Z.eqb_spec off 0) as [E0|E0].
  - injection Hr as <-. split_and!; [|done|done]. constructor; try done; [|congruence].
    apply (extra_same (points (q_cluster_size q) off)); [|done]. intros n. unfold points. by rewrite E0.
  - assert (Hp : points (q_cluster_size q) off (off / q_cluster_size q) = 1) by by apply points_one.
    rewrite <- C in Hp, Ho. apply (drop_ok (points (q_cluster_size q) off)) in Hr; [|done|done|done|done|rewrite <- C, Hp; lia].
    destruct Hr as [D1 D2 D3 D4 D5 D6]. destruct (D3 Hd) as [D3a D3b]. injection D5 as C' L' Z' W'. split_and!.
    + constructor; [|done|done|by etrans|congruence].
      eapply extra_same; [|exact D1]. intros n. cbv beta. rewrite C. unfold none. lia.
    + intros i Hi. apply D4. by rewrite L.
    + intros n [Hn|Hn]; [done|]. apply D6. by rewrite C.
Qed.
(** ** A cluster that has been allocated and written *)
Record fresh (off tag : Z) (b : buf) q : Prop := Fresh {
  fr_off : off <> 0 /\ off = off / q_cluster_size q * q_cluster_size q /\ off + q_cluster_size q <= QCOW_OFFSET;
  fr_fits : off + q_cluster_size q <= q_file_size q;
  fr_host : 0 <= off / q_cluster_size q < q_host_count q;
  fr_tag : q_tags q (off / q_cluster_size q) = tag /\ q_refs q (off / q_cluster_size q) = 1;
  fr_data : eq_on 0 (q_cluster_size q) (slice (raw_data q) off) (to_bytes b);
}.
Lemma fresh_aside off tag b q q' : tag = 2 \/ tag = 3 -> shape q -> fresh off tag b q -> aside q q' -> fresh off tag b q'.
Proof.
  intros Ht Hs [(O1 & O2 & O3) F H [T R] D] Ha. pose proof (as_geo _ _ Ha) as G. injection G as C _ _ _ _ _ _.
  destruct (as_hosts _ _ Ha) as [A1 A2]. destruct (shape_cs _ Hs) as (Hcs & _).
  destruct (as_live _ _ Ha _ H) as (L1 & L2 & L3); [rewrite T; by destruct Ht; auto|].
  constructor; rewrite ?C; [by split_and!|lia|lia|split; congruence|].
  intros i Hi. unfold slice. rewrite L3 by (apply in_cluster; lia). by apply D.
Qed.
Lemma allocate_held b tag g q q1 off q2 : held none g q q1 -> tag = 2 \/ tag = 3 ->
  allocate_cluster b tag q1 = (Ok off, q2) ->
  held (points (q_cluster_size q) off) g q q2 /\ fresh off tag b q2 /\ aside q1 q2 /\
  q_host_count q1 <= off / q_cluster_size q.
Proof.
  intros Hh Ht Hr. destruct (held_geo _ _ _ _ Hh) as (C & _). pose proof (he_good _ _ _ _ Hh) as Hg.
  apply (allocate_ok none) in Hr as [G A N O F T D]; [|done|done]. pose proof (as_geo _ _ A) as GA. injection GA as C2 _ _ _ _ _ _.
  destruct (sh_hosts _ (proj1 Hg)) as [B _].
  assert (Hg2 : good (points (q_cluster_size q) off) q2) by (eapply extra_same; [|exact G]; intros n; by rewrite C).
  split_and!; [by eapply held_aside| |done|rewrite <- C; lia]. constructor; rewrite ?C2; try done. lia.
Qed.
Lemma fresh_entry extra off tag b q : shape q -> tally extra q -> fresh off tag b q -> 0 <= Z.lor off QCOW_COPIED < 2 ^ 64.
Proof.
  intros Hs _ [(O1 & O2 & O3) F H _ _]. destruct (shape_cs _ Hs) as (Hcs & _). apply copied_range. unfold QCOW_OFFSET in O3. nia.
Qed.

(** ** An L2 table to write to *)
Lemma l1_cluster extra q i : good extra q -> 0 <= i < q_l1_size q -> l1_off q i = l1_off q i / q_cluster_size q * q_cluster_size q.
Proof.
  intros [Hs Ht] Hi. destruct (Z.eq_dec (l1_off q i) 0) as [->|Hl]; [by rewrite Zdiv_0_l|].
  destruct (l1_entry_live extra q i Hs Ht Hi Hl) as (_ & E & _). exact E.
Qed.
(** The table's contents that go to the new cluster *)
Lemma table_contents extra g q q1 index b q2 : held extra g q q1 -> 0 <= index < q_l1_size q1 ->
  (if l1_off q1 index =? 0 then ret zeros
   else let! b := read_at (q_cluster_size q1) (l1_off q1 index) in ret (blit zeros 0 b (q_cluster_size q1))) q1 = (Ok b, q2) ->
  idle q1 q2 /\ forall j, 0 <= j < entries_per_l2 q1 ->
    be64 (to_bytes b) (j * 8) = if l1_off q1 index =? 0 then 0 else entry q1 index j.
Proof.
  intros Hh Hi Hr. destruct (Z.eqb_spec (l1_off q1 index) 0) as [|Hl].
  - injection Hr as <- <-. split; [done|]. intros j _. done.
  - apply bind_ok in Hr as (b1 & q3 & H1 & Hr). injection Hr as <- <-. apply read_at_idle in H1 as (I & Hb & _). split; [done|].
    intros j Hj. destruct (shape_cs _ (proj1 (he_good _ _ _ _ Hh))) as (_ & _ & _ & He). unfold entry.
    rewrite <- be64_slice, <- (be64_slice _ (l1_off q1 index + j * 8)). apply read_be64_eq_on. intros x Hx. unfold slice.
    pose proof (proj1 (proj2 (proj1 (sh_file _ (proj1 (he_good _ _ _ _ Hh)))))) as Hwf.
    assert (E : b1 (j * 8 + x) = raw_data q1 (l1_off q1 index + (j * 8 + x))) by (rewrite Hb by lia; done).
    unfold to_bytes. rewrite blit_in by lia. rewrite Z.sub_0_r, E.
    etransitivity; [apply wrap_small, Hwf|]. f_equal. lia.
Qed.
Lemma writable_l2_ok index q l2 q' : settled q -> disk_ok q -> 0 <= index < q_l1_size q ->
  writable_l2 index q = (Ok l2, q') ->
  held none (guest q) q q' /\ l1_off q' index = l2 /\ l2 <> 0 /\ q_refs q' (l2 / q_cluster_size q) = 1.
Proof.
  intros Hse Hd Hi Hr. pose proof (settled_held q Hse Hd) as H0. unfold writable_l2 in Hr.
  rewrite (bind_run get_q _ q q q) in Hr by done. cbv zeta in Hr. fold (l1_off q index) in Hr.
  destruct (_ && _) eqn:Eown in Hr.
  { injection Hr as <- <-. apply andb_true_iff in Eown as [E1 E2]. apply negb_true_iff, Z.eqb_neq in E1. apply Z.eqb_eq in E2. done. }
  apply bind_ok in Hr as (b & q1 & H1 & Hr). apply (table_contents none (guest q) q) in H1 as [I1 Hb]; [|done|done].
  pose proof (held_idle _ _ _ _ _ H0 I1) as Hh1. destruct (held_geo _ _ _ _ Hh1) as (C1 & L1 & Z1 & W1 & E1).
  apply bind_ok in Hr as (off & q2 & H2 & Hr). apply (allocate_held _ _ _ _ _ _ _ Hh1 (or_intror eq_refl)) in H2 as (Hh2 & N2 & A2 & B2).
  destruct (he_good _ _ _ _ Hh2) as [S2 T2]. pose proof (fresh_entry _ _ _ _ _ S2 T2 N2) as Hv.
  destruct (held_geo _ _ _ _ Hh2) as (C2 & L2 & _).
  pose proof (as_geo _ _ A2) as GA. injection GA as _ _ LO2 _ _ _ _. destruct (idle_geo _ _ I1) as (_ & _ & _ & _ & LO1 & _ & _ & HC1).
  apply bind_ok in Hr as ([] & q3 & H3 & Hr). rewrite <- LO1, <- LO2 in H3.
  apply (write_l1_ok (points (q_cluster_size q) off)) in H3 as [F3 _]; [|done|lia|done].
  apply bind_ok in Hr as ([] & q4 & H4 & Hr). apply sync_idle in H4 as I4.
  pose proof (held_idle _ _ _ _ _ (held_aside _ _ _ _ _ _ Hh2 (fl_aside _ _ _ F3) (fl_good _ _ _ F3)) I4) as Hh4.
  assert (A24 : aside q2 q4) by (etrans; [apply F3|by apply idle_aside]).
  pose proof (fresh_aside off 3 b q2 q4 (or_intror eq_refl) S2 N2 A24) as N4.
  destruct (held_geo _ _ _ _ Hh4) as (C4 & L4 & Z4 & W4 & E4).
  assert (A14 : aside q1 q4) by by etrans. assert (A04 : aside q q4) by (etrans; [by apply idle_aside|done]).
  assert (K : forall i, l1_off q4 i = l1_off q i) by (intros i; by apply aside_l1_off).
  destruct Hse as [Hs Ht Hf]. destruct (shape_cs _ Hs) as (Hcs & _ & _ & He).
  assert (Hcopy : forall j, 0 <= j < entries_per_l2 q4 ->
    be64 (raw_data q4) (off + j * 8) = if l1_off q4 index =? 0 then 0 else entry q4 index j).
  { intros j Hj. rewrite E4 in Hj. rewrite K. specialize (Hb j Hj).
    transitivity (be64 (to_bytes b) (j * 8)).
    - rewrite <- be64_slice, <- (be64_slice (to_bytes b)). apply read_be64_eq_on. intros x Hx. unfold slice.
      rewrite <- (fr_data _ _ _ _ N4) by lia. unfold slice. f_equal. lia.
    - rewrite Hb. destruct (Z.eqb_spec (l1_off q index) 0) as [|Hl]; [done|]. symmetry. by apply (aside_entry none). }
  assert (Hg4 : good (points (q_cluster_size q4) off) q4) by (rewrite C4; apply Hh4).
  rewrite <- L4 in Hi. destruct Hh4 as [_ Hf4 Hd4 Hgu4 G4].
  unfold modify in Hr. apply bind_ok in Hr as ([] & q5 & H5 & Hr). injection H5 as <-.
  destruct N4 as [O4 F4 B4 T4 _]. rewrite L4 in Hi. assert (Hi4 : 0 <= index < q_l1_size q4) by lia.
  pose proof (relink_good q4 index off Hg4 Hi4 O4 F4 T4 Hcopy) as R1.
  pose proof (relink_flags q4 index off Hg4 Hf4 O4 T4 Hcopy) as R2.
  destruct (relink_disk q4 index off Hg4 Hd4 O4 T4 Hcopy) as [R3 R4].
  pose proof (relink_l1_off q4 index off Hg4 O4 T4) as R5. set (q5 := set_l1 q4 _) in *.
  rewrite C4, K in R1. assert (Hh5 : held (points (q_cluster_size q) (l1_off q index)) (guest q) q q5) by (constructor; try done; by etrans).
  apply bind_ok in Hr as ([] & q6 & H6 & Hr). injection Hr as <- <-.
  apply (held_drop _ _ _ _ _ Hh5) in H6 as (H6 & X1 & X2); [|by apply (l1_cluster none)].
  split_and!; [done| |by apply O4|].
  - rewrite X1, R5 by done. by rewrite Z.eqb_refl.
  - rewrite X2; [rewrite <- C4; apply T4|]. destruct (Z.eq_dec (l1_off q index) 0) as [|Hl]; [by left|right]. rewrite HC1 in B2.
    destruct (l1_entry_live none q index Hs Ht Hi Hl) as (X & _). lia.
Qed.
(** ** What has one reference is referred to once *)
Lemma sole_table extra q i i' : good extra q -> 0 <= i < q_l1_size q -> 0 <= i' < q_l1_size q ->
  l1_off q i <> 0 -> l1_off q i' = l1_off q i -> q_refs q (l1_off q i / q_cluster_size q) = 1 -> i' = i.
Proof.
  intros [Hs Ht] Hi Hi' Hl E Hr. destruct (Z.eq_dec i' i) as [|Hne]; [done|exfalso].
  destruct (l1_entry_live extra q i Hs Ht Hi Hl) as (Hn & _ & _). set (n := l1_off q i / q_cluster_size q) in *.
  pose proof (ta_refs _ _ Ht n ltac:(lia)) as Hsum. destruct (ta_extra _ _ Ht n) as [He _].
  pose proof (meta_nonneg q n). pose proof (datas_nonneg q n).
  assert (P1 : points (q_cluster_size q) (l1_off q i) n = 1) by by apply points_one.
  pose proof (sumZ_two (fun i => points (q_cluster_size q) (l1_off q i) n) (q_l1_size q) i' i Hi' Hi Hne
    (fun j _ => proj1 (points_range _ _ _))) as H2. cbv beta in H2. rewrite E, P1 in H2. unfold tables in Hsum. lia.
Qed.
Lemma sole_entry extra q i j i' j' : good extra q -> 0 <= i < q_l1_size q -> 0 <= i' < q_l1_size q ->
  l1_off q i <> 0 -> l1_off q i' <> 0 -> 0 <= j < entries_per_l2 q -> 0 <= j' < entries_per_l2 q ->
  offset_of (entry q i j) <> 0 -> offset_of (entry q i' j') = offset_of (entry q i j) ->
  q_refs q (offset_of (entry q i j) / q_cluster_size q) = 1 -> i' = i /\ j' = j.
Proof.
  intros [Hs Ht] Hi Hi' Hl Hl' Hj Hj' Ho E Hr.
  destruct (entry_live extra q i j Hs Ht Hi Hl Hj Ho) as (Hn & _ & _). set (n := offset_of (entry q i j) / q_cluster_size q) in *.
  pose proof (ta_refs _ _ Ht n ltac:(lia)) as Hsum. destruct (ta_extra _ _ Ht n) as [He _].
  pose proof (meta_nonneg q n). pose proof (tables_nonneg q n).
  set (f := fun i j => points (q_cluster_size q) (offset_of (entry q i j)) n).
  assert (Hf : forall i j, 0 <= f i j) by (intros; apply points_range).
  assert (P1 : f i j = 1) by by apply points_one. assert (P2 : f i' j' = 1) by (apply points_one; [by rewrite E|unfold n; by rewrite E]).
  assert (Htd : forall i, l1_off q i <> 0 -> table_data q n i = sumZ (f i) (entries_per_l2 q)).
  { intros x Hx. unfold table_data. by rewrite (proj2 (Z.eqb_neq _ _) Hx). }
  assert (Hd : datas q n <= 1) by lia. unfold datas in Hd.
  destruct (Z.eq_dec i' i) as [->|Hne].
  - split; [done|]. destruct (Z.eq_dec j' j) as [|Hne]; [done|exfalso].
    pose proof (sumZ_le _ _ i Hi (fun x _ => table_data_nonneg q n x)) as H1. rewrite Htd in H1 by done.
    pose proof (sumZ_two (f i) _ j' j Hj' Hj Hne (fun x _ => Hf i x)). lia.
  - exfalso. pose proof (sumZ_two _ _ i' i Hi' Hi Hne (fun x _ => table_data_nonneg q n x)) as H1. rewrite !Htd in H1 by done.
    pose proof (sumZ_le (f i) _ j Hj (fun x _ => Hf i x)). pose proof (sumZ_le (f i') _ j' Hj' (fun x _ => Hf i' x)). lia.
Qed.

(** ** A disk of which one cluster changes *)
Lemma guest_patch q q' c0 (g : buf) :
  q_raw q = false -> (q_cluster_size q', q_size q', q_raw q', q_parent q') = (q_cluster_size q, q_size q, q_raw q, q_parent q) ->
  0 < q_cluster_size q ->
  (forall c x, 0 <= c -> c <> c0 -> c * q_cluster_size q <= x < c * q_cluster_size q + q_cluster_size q -> x < q_size q ->
     stored_byte q' (mapping q' c) x = stored_byte q (mapping q c) x) ->
  (forall x, c0 * q_cluster_size q <= x < c0 * q_cluster_size q + q_cluster_size q -> 0 <= x < q_size q ->
     stored_byte q' (mapping q' c0) x = g x) ->
  guest q' ≡ fun x => if (0 <=? x) && (x <? q_size q) && (x / q_cluster_size q =? c0) then g x else guest q x.
Proof.
  intros Hraw E Hcs H1 H2 x. injection E as E1 E2 E3 E4. unfold guest. rewrite E1, E2, E3, Hraw.
  destruct (Z.leb_spec 0 x), (Z.ltb_spec x (q_size q)); cbn [andb]; try done.
  pose proof (Z.div_mod x (q_cluster_size q) ltac:(lia)). pose proof (Z.mod_pos_bound x (q_cluster_size q) ltac:(lia)).
  destruct (Z.eqb_spec (x / q_cluster_size q) c0) as [<-|Hne]; [apply H2; lia|].
  apply H1; [apply Z.div_pos; lia|done|lia|done].
Qed.

(** ** Writing in place *)
Section in_place.
Context (q : qcow P) (i j : Z) (f : file) (b : buf) (within chunk : Z).
Hypothesis Hh : held none (guest q) q q.
Hypothesis Hi : 0 <= i < q_l1_size q.
Hypothesis Hj : 0 <= j < entries_per_l2 q.
Hypothesis Hl : l1_off q i <> 0.
Local Abbreviation e := (entry q i j).
Hypothesis He : offset_of e <> 0 /\ has_flag e QCOW_ZERO = false /\ q_refs q (offset_of e / q_cluster_size q) = 1.
Hypothesis Hw : 0 <= within /\ 0 < chunk /\ within + chunk <= q_cluster_size q.
Hypothesis Hf : file_inv f /\ f_size f = f_size (q_file q) /\ f_data f ≡ blit (raw_data q) (offset_of e + within) (to_bytes b) chunk.
Local Abbreviation q' := (set_file q f).

Lemma in_place_cluster : let n := offset_of e / q_cluster_size q in
  0 < n < q_host_count q /\ offset_of e = n * q_cluster_size q /\ q_tags q n = 2.
Proof. destruct (he_good _ _ _ _ Hh) as [Hs Ht]. apply (entry_live none q i j Hs Ht Hi Hl Hj), He. Qed.
Lemma in_place_else x : x / q_cluster_size q <> offset_of e / q_cluster_size q -> f_data f x = raw_data q x.
Proof.
  intros Hx. destruct Hf as (_ & _ & ->). apply blit_out. intros Hin. destruct in_place_cluster as (_ & E & _).
  destruct (shape_cs _ (proj1 (he_good _ _ _ _ Hh))) as (Hcs & _). apply Hx. apply in_cluster; lia.
Qed.
Lemma in_place_entry i' j' : 0 <= i' < q_l1_size q -> l1_off q i' <> 0 -> 0 <= j' < entries_per_l2 q ->
  entry q' i' j' = entry q i' j'.
Proof.
  intros Hi' Hl' Hj'. destruct (he_good _ _ _ _ Hh) as [Hs Ht].
  destruct (entry_place none q i' j' (he_good _ _ _ _ Hh) Hi' Hl' Hj') as (Hn & Htag & P1 & P2 & _).
  destruct (shape_cs _ Hs) as (Hcs & _). unfold entry. change (l1_off q' i') with (l1_off q i').
  apply read_be64_eq_on. intros x Hx. apply in_place_else. rewrite (in_cluster (q_cluster_size q) (l1_off q i' / q_cluster_size q) x) by lia.
  intros E. destruct in_place_cluster as (_ & _ & T). rewrite E, T in Htag. done.
Qed.
Lemma in_place_settled : good none q' /\ flags q' /\ disk_ok q'.
Proof.
  destruct Hh as [[Hs Ht] Hfl [D1 D2 D3] _ _]. destruct Hf as (F1 & F2 & _). split_and!; [split| |by constructor].
  - pose proof Hs as [S1 S2 [S3 S3'] S4 S5 S6 S7 S8 S9]. constructor; try done.
    + split; [done|]. cbn. congruence.
    + intros i' j' Hi' Hl' Hj'. rewrite in_place_entry by done. by apply S9.
  - assert (E : forall n, datas q' n = datas q n).
    { intros n. unfold datas. apply sumZ_ext. intros i' Hi'. unfold table_data. change (l1_off q' i') with (l1_off q i').
      destruct (Z.eqb_spec (l1_off q i') 0) as [|Hl']; [done|]. apply sumZ_ext. intros j' Hj'. by rewrite in_place_entry. }
    pose proof Ht as [T1 T2 T3 T4 T5]. constructor; try done; intros n; rewrite E; first [apply T1|apply T4].
  - intros i' Hi'. destruct (Hfl i' Hi') as [G1 G2]. split; [done|]. intros Hl' j' Hj'. rewrite in_place_entry by done. by apply G2.
Qed.
Lemma in_place_guest pos : pos / q_cluster_size q = i * entries_per_l2 q + j -> pos mod q_cluster_size q = within ->
  0 <= pos -> pos + chunk <= q_size q -> guest q' ≡ blit (guest q) pos (to_bytes b) chunk.
Proof.
  intros Hc Hm Hp Hsz. destruct (he_good _ _ _ _ Hh) as [Hs Ht]. pose proof (he_disk _ _ _ _ Hh) as Hd.
  destruct (shape_cs _ Hs) as (Hcs & _ & Hee & _). pose proof (Z.div_mod pos (q_cluster_size q) ltac:(lia)) as Hdm.
  destruct Hf as (_ & _ & F3). destruct in_place_cluster as (Hn & Eo & Htag). set (n := offset_of e / q_cluster_size q) in *.
  assert (Em : forall c, 0 <= c -> c * q_cluster_size q < q_size q -> mapping q' c = mapping q c).
  { intros c Hc0 Hc1. destruct (guest_index q c Hs Hd Hc0 Hc1) as [G1 G2].
    rewrite !mapping_entry. change (entries_per_l2 q') with (entries_per_l2 q). change (l1_off q' ?i) with (l1_off q i).
    destruct (Z.eqb_spec (l1_off q (c / entries_per_l2 q)) 0) as [|Hl']; [done|]. by apply in_place_entry. }
  assert (D1 : (i * entries_per_l2 q + j) / entries_per_l2 q = i) by (symmetry; apply (Z.div_unique _ _ _ j); lia).
  assert (D2 : (i * entries_per_l2 q + j) mod entries_per_l2 q = j) by (symmetry; apply (Z.mod_unique _ _ i); lia).
  rewrite (guest_patch q q' (pos / q_cluster_size q) (blit (guest q) pos (to_bytes b) chunk)); [|apply Hd|done|lia| |].
  - intros x. destruct (_ && _) eqn:E; [done|]. rewrite blit_out; [done|]. intros Hx.
    assert (x / q_cluster_size q = pos / q_cluster_size q) by (apply in_cluster; lia). lia.
  - intros c x Hc0 Hne Hx Hsx. rewrite Em by lia. destruct (guest_index q c Hs Hd Hc0 ltac:(lia)) as [G1 G2].
    rewrite mapping_entry. destruct (Z.eqb_spec (l1_off q (c / entries_per_l2 q)) 0) as [|Hl']; [done|].
    set (e' := entry q _ _). unfold stored_byte. destruct (has_flag e' QCOW_ZERO); [done|].
    destruct (Z.eqb_spec (offset_of e') 0) as [|He']; [done|]. cbn [negb]. change (raw_data q') with (f_data f). apply in_place_else.
    destruct (entry_live none q _ _ Hs Ht G1 Hl' G2 He') as (_ & Eo' & _). fold e' in Eo'.
    pose proof (Z.mod_pos_bound x (q_cluster_size q) ltac:(lia)).
    rewrite (in_cluster (q_cluster_size q) (offset_of e' / q_cluster_size q)) by (change (q_cluster_size q') with (q_cluster_size q); lia).
    intros En. assert (Eoo : offset_of e' = offset_of e) by (rewrite Eo', Eo; fold n in En; by rewrite En).
    destruct (sole_entry none q i j _ _ (conj Hs Ht) Hi G1 Hl Hl' Hj G2 (proj1 He) Eoo (proj2 (proj2 He))) as [X1 X2].
    apply Hne. rewrite Hc, <- X1, <- X2. pose proof (Z.div_mod c (entries_per_l2 q) ltac:(lia)). lia.
  - intros x Hx Hsx. assert (Ex : x / q_cluster_size q = pos / q_cluster_size q) by (apply in_cluster; lia).
    pose proof (Z.div_mod x (q_cluster_size q) ltac:(lia)) as Hdx. rewrite Ex in Hdx.
    assert (Hg : guest q x = raw_data q (offset_of e + x mod q_cluster_size q)).
    { unfold guest. rewrite (do_raw _ Hd), Ex, Hc, mapping_entry, D1, D2, (proj2 (Z.eqb_neq _ _) Hl).
      unfold stored_byte. destruct He as (He1 & -> & _). rewrite (proj2 (Z.eqb_neq _ _) He1). cbn [negb].
      destruct (Z.leb_spec 0 x); [|lia]. by destruct (Z.ltb_spec x (q_size q)); [|lia]. }
    rewrite Em by lia. rewrite Hc, mapping_entry, D1, D2, (proj2 (Z.eqb_neq _ _) Hl).
    unfold stored_byte. destruct He as (He1 & -> & _). rewrite (proj2 (Z.eqb_neq _ _) He1). cbn [negb].
    change (raw_data q') with (f_data f). change (q_cluster_size q') with (q_cluster_size q). rewrite (F3 _).
    destruct (decide (pos <= x < pos + chunk)).
    + rewrite !blit_in by lia. f_equal. lia.
    + rewrite !blit_out by lia. done.
Qed.
End in_place.
(** ** Mapping a guest cluster to a new host cluster *)
Lemma fresh_address off tag b q : shape q -> fresh off tag b q -> off mod 512 = 0 /\ 0 <= off <= QCOW_OFFSET /\ off mod q_cluster_size q = 0.
Proof.
  intros Hs [(O1 & O2 & O3) _ H _ _]. destruct (shape_cs _ Hs) as (Hcs & Hm & _).
  pose proof (Z.div_mod (q_cluster_size q) 512 ltac:(lia)) as Hd. rewrite Hm in Hd. split_and!; [|nia|nia|].
  - rewrite O2, Hd, Z.add_0_r, (Z.mul_comm 512), Z.mul_assoc. by apply Z.mod_mul.
  - rewrite O2. apply Z.mod_mul. lia.
Qed.
Section remap.
Context (q : qcow P) (i j off : Z) (f : file) (b : buf).
Hypothesis Hg : good (points (q_cluster_size q) off) q.
Hypothesis Hfl : flags q.
Hypothesis Hd : disk_ok q.
Hypothesis Hi : 0 <= i < q_l1_size q.
Hypothesis Hj : 0 <= j < entries_per_l2 q.
Hypothesis Hl : l1_off q i <> 0 /\ q_refs q (l1_off q i / q_cluster_size q) = 1.
Hypothesis Hn : fresh off 2 b q.
Hypothesis Hf : file_inv f /\ f_size f = f_size (q_file q) /\ be64 (f_data f) (l1_off q i + j * 8) = Z.lor off QCOW_COPIED /\
  forall x, ~ l1_off q i + j * 8 <= x < l1_off q i + j * 8 + 8 -> f_data f x = raw_data q x.
Local Abbreviation q' := (set_file q f).
Local Abbreviation old := (offset_of (entry q i j)).

Lemma remap_new : let e := Z.lor off QCOW_COPIED in
  offset_of e = off /\ has_flag e QCOW_COMPRESSED = false /\ has_flag e QCOW_ZERO = false /\ has_flag e QCOW_COPIED = true.
Proof. destruct (fresh_address _ _ _ _ (proj1 Hg) Hn) as (A1 & A2 & _). by destruct (new_entry off A1 A2) as (? & ? & ? & ? & _). Qed.
Lemma remap_entry i' j' : 0 <= i' < q_l1_size q -> l1_off q i' <> 0 -> 0 <= j' < entries_per_l2 q ->
  entry q' i' j' = if (i' =? i) && (j' =? j) then Z.lor off QCOW_COPIED else entry q i' j'.
Proof.
  intros Hi' Hl' Hj'. destruct Hf as (_ & _ & F3 & F4). rewrite (slot_entries _ q f i j i' j' Hg Hi (proj1 Hl) Hj) by done. rewrite F3.
  destruct (Z.eqb_spec i' i) as [->|Hne]; [by rewrite Z.eqb_refl|].
  destruct (Z.eqb_spec (l1_off q i') (l1_off q i)) as [E|]; [|done].
  exfalso. apply Hne. apply (sole_table _ q i i' Hg); try done; apply Hl.
Qed.
Lemma remap_elsewhere n x : 0 <= n < q_host_count q -> q_tags q n = 2 -> x / q_cluster_size q = n -> f_data f x = raw_data q x.
Proof.
  intros Hn' Ht Hx. destruct Hf as (_ & _ & _ & F4). apply F4. intros Hin.
  destruct (entry_place _ q i j Hg Hi (proj1 Hl) Hj) as (Hm & Htag & P1 & P2 & _). destruct (shape_cs _ (proj1 Hg)) as (Hcs & _).
  rewrite (in_cluster (q_cluster_size q) (l1_off q i / q_cluster_size q)) in Hx by lia. rewrite Hx, Ht in Htag. done.
Qed.
Lemma remap_datas n : datas q' n = datas q n - points (q_cluster_size q) old n + points (q_cluster_size q) off n.
Proof.
  destruct remap_new as (N1 & _). unfold datas. change (q_l1_size q') with (q_l1_size q).
  rewrite (sumZ_update (table_data q n) _ _ i Hi).
  - unfold table_data. change (l1_off q' i) with (l1_off q i). rewrite (proj2 (Z.eqb_neq _ _) (proj1 Hl)).
    change (entries_per_l2 q') with (entries_per_l2 q). change (q_cluster_size q') with (q_cluster_size q).
    rewrite (sumZ_update (fun j => points (q_cluster_size q) (offset_of (entry q i j)) n)
      (fun j => points (q_cluster_size q) (offset_of (entry q' i j)) n) _ j Hj).
    + rewrite remap_entry by (done || apply Hl). rewrite !Z.eqb_refl. cbn [andb]. rewrite N1. lia.
    + intros j' Hj' Hne. rewrite remap_entry by (done || apply Hl). rewrite (proj2 (Z.eqb_neq j' j) Hne). by rewrite andb_false_r.
  - intros i' Hi' Hne. unfold table_data. change (l1_off q' i') with (l1_off q i').
    destruct (Z.eqb_spec (l1_off q i') 0) as [|Hl']; [done|]. apply sumZ_ext. intros j' Hj'.
    rewrite remap_entry by done. by rewrite (proj2 (Z.eqb_neq i' i) Hne).
Qed.
Lemma remap_good : good (points (q_cluster_size q) old) q'.
Proof.
  destruct remap_new as (N1 & N2 & _). pose proof Hg as [Hs Ht]. destruct Hf as (F1 & F2 & _).
  destruct (fresh_address _ _ _ _ Hs Hn) as (_ & A2 & A3). split.
  - pose proof Hs as [S1 S2 [S3 S3'] S4 S5 S6 S7 S8 S9]. constructor; try done.
    + split; [done|]. cbn. congruence.
    + intros i' j' Hi' Hl' Hj'. rewrite remap_entry by done. destruct (_ && _); [|by apply S9].
      split; [done|]. rewrite N1. split; [lia|]. intros _. split; [exact A3|apply Hn].
  - pose proof Ht as [T1 T2 T3 T4 T5]. constructor; try done.
    + intros n Hr. rewrite remap_datas. change (meta q' n) with (meta q n). change (tables q' n) with (tables q n).
      change (q_refs q' n) with (q_refs q n). rewrite (T1 n Hr). lia.
    + intros n Hr Hne. pose proof (datas_nonneg q' n) as Hnn. rewrite remap_datas in Hne, Hnn. change (q_tags q' n) with (q_tags q n).
      destruct (Z.eq_dec (points (q_cluster_size q) off n) 0) as [E|E].
      * apply T4; [done|]. pose proof (points_range (q_cluster_size q) old n). lia.
      * apply points_spec in E as [_ <-]. apply Hn.
    + intros n. pose proof (points_range (q_cluster_size q) old n). split; [lia|]. intros E. apply points_spec in E as [E <-].
      destruct (entry_live _ q i j Hs Ht Hi (proj1 Hl) Hj E) as (H1 & _ & H2). split; [|by left]. change (q_host_count q') with (q_host_count q). lia.
Qed.
Lemma remap_flags : flags q'.
Proof.
  destruct remap_new as (N1 & _ & _ & N4). intros i' Hi'. destruct (Hfl i' Hi') as [G1 G2]. split; [done|]. intros Hl' j' Hj'.
  rewrite remap_entry by done. destruct (_ && _); [|by apply G2]. intros _. rewrite N4, N1. symmetry. apply Z.eqb_eq, Hn.
Qed.
Lemma remap_guest : disk_ok q' /\
  guest q' ≡ fun x => if (0 <=? x) && (x <? q_size q) && (x / q_cluster_size q =? i * entries_per_l2 q + j)
    then w8 (b (x mod q_cluster_size q)) else guest q x.
Proof.
  split; [by destruct Hd|]. pose proof Hg as [Hs Ht]. destruct (shape_cs _ Hs) as (Hcs & _ & Hee & _). destruct remap_new as (N1 & _ & N3 & _).
  apply guest_patch; [apply Hd|done|lia| |].
  - intros c x Hc Hne Hx Hsx. destruct (guest_index q c Hs Hd Hc ltac:(lia)) as [G1 G2]. rewrite !mapping_entry.
    change (entries_per_l2 q') with (entries_per_l2 q). change (l1_off q' ?i) with (l1_off q i).
    destruct (Z.eqb_spec (l1_off q (c / entries_per_l2 q)) 0) as [|Hl']; [done|]. rewrite remap_entry by done.
    destruct (_ && _) eqn:E.
    { exfalso. apply andb_true_iff in E as [E1 E2]. apply Z.eqb_eq in E1, E2. apply Hne. rewrite <- E1, <- E2.
      pose proof (Z.div_mod c (entries_per_l2 q) ltac:(lia)). lia. }
    set (e' := entry q _ _). unfold stored_byte. destruct (has_flag e' QCOW_ZERO); [done|].
    destruct (Z.eqb_spec (offset_of e') 0) as [|He']; [done|]. cbn [negb].
    destruct (entry_live _ q _ _ Hs Ht G1 Hl' G2 He') as (Hr & Eo & Htag). fold e' in Hr, Eo, Htag.
    pose proof (Z.mod_pos_bound x (q_cluster_size q) ltac:(lia)).
    apply (remap_elsewhere (offset_of e' / q_cluster_size q)); [lia|done|]. apply in_cluster; [lia|].
    change (q_cluster_size q') with (q_cluster_size q). lia.
  - intros x Hx Hsx. rewrite mapping_entry. change (entries_per_l2 q') with (entries_per_l2 q).
    assert (D1 : (i * entries_per_l2 q + j) / entries_per_l2 q = i) by (symmetry; apply (Z.div_unique _ _ _ j); lia).
    assert (D2 : (i * entries_per_l2 q + j) mod entries_per_l2 q = j) by (symmetry; apply (Z.mod_unique _ _ i); lia).
    rewrite D1, D2. change (l1_off q' i) with (l1_off q i). rewrite (proj2 (Z.eqb_neq _ _) (proj1 Hl)).
    rewrite remap_entry by (done || apply Hl). rewrite !Z.eqb_refl. cbn [andb]. unfold stored_byte. rewrite N3, N1.
    destruct (fr_off _ _ _ _ Hn) as (O1 & O2 & _). rewrite (proj2 (Z.eqb_neq _ _) O1). cbn [negb].
    change (q_cluster_size q') with (q_cluster_size q). pose proof (Z.mod_pos_bound x (q_cluster_size q) ltac:(lia)) as Hm.
    transitivity (raw_data q (off + x mod q_cluster_size q)).
    + apply (remap_elsewhere (off / q_cluster_size q)); [apply Hn|apply Hn|apply in_cluster; lia].
    + apply (fr_data _ _ _ _ Hn). lia.
Qed.
End remap.
(** ** Reading the old contents *)
Definition reading q q' : Prop := exists f p h, q' = set_heap (set_parent (set_file q f) p) h.
#[export] Instance reading_preorder : PreOrder reading.
Proof.
  split; [intros q; exists (q_file q), (q_parent q), (q_heap q); by destruct q|].
  intros a b c (f1 & p1 & h1 & ->) (f2 & p2 & h2 & ->). by exists f2, p2, h2.
Qed.
Lemma reading_settled q q' : reading q q' -> raw_data q' = raw_data q -> f_size (q_file q') = f_size (q_file q) ->
  settled q -> settled q'.
Proof.
  intros (f & p & h & ->) D Z [Hs Ht Hf]. assert (Hi : idle q (set_file q f)) by by constructor.
  pose proof (aside_flags none _ _ Hs Ht (idle_aside _ _ Hi) Hf).
  apply (idle_shape _ _ Hi) in Hs as [S1 S2 S3 S4 S5 S6 S7 S8 S9]. apply (idle_tally _ _ _ Hi) in Ht as [T1 T2 T3 T4 T5].
  by constructor; [constructor|constructor|].
Qed.
Lemma reading_file q f : reading q (set_file q f).
Proof. exists f, (q_parent q), (q_heap q). by destruct q. Qed.
Lemma reading_read_at n off : Stable reading (read_at (P:=P) n off).
Proof. apply read_at_stable; [apply _|]. intros. apply reading_file. Qed.
Lemma reading_parent n off : Stable reading (parent_read (P:=P) n off).
Proof.
  intros q r q' Hr. unfold parent_read in Hr. destruct (q_parent q) as [[p s]|]; [|by injection Hr as <- <-].
  destruct (bk_read n off p) as [x p']. injection Hr as <- <-. exists (q_file q), (Some (p', s)), (q_heap q). by destruct q.
Qed.
Lemma reading_get : Stable reading (get_q (P:=P)).
Proof. apply (get_q_stable reading). Qed.
Local Hint Resolve reading_read_at reading_parent reading_get : stable.
Lemma reading_loop fuel : forall bytes pos got out, Stable reading (read_loop (P:=P) fuel bytes pos got out).
Proof.
  induction fuel as [|fuel IH]; intros bytes pos got out; cbn [read_loop]; unfold read_chunk, l2_entry, read_u64, read_inherited;
    solve_stable; by auto.
Qed.
Local Hint Resolve reading_loop : stable.
Lemma reading_read n off : Stable reading (qcow_read (P:=P) n off).
Proof. unfold qcow_read. solve_stable. Qed.
Lemma read_held g q q1 n off r q2 : held none g q q1 -> 0 <= off -> 0 <= n -> qcow_read n off q1 = (r, q2) ->
  held none g q q2 /\ (forall i, l1_off q2 i = l1_off q1 i) /\ (forall i j, entry q2 i j = entry q1 i j) /\
  q_refs q2 = q_refs q1 /\ q_failed q2 = q_failed q1 /\
  forall b, r = Ok b -> off + n <= q_size q1 /\ eq_on 0 n b (slice g off) /\ wf_buf b.
Proof.
  intros Hh Ho Hn Hr. pose proof (settled_image _ (held_settled _ _ _ Hh) (he_disk _ _ _ _ Hh)) as Hq.
  pose proof (qcow_read_fetched q1 n off Hq Ho Hn) as (Hsame & Hf & Hw & _).
  pose proof (reading_read n off q1 _ _ Hr) as Hrd. rewrite Hr in Hsame, Hf, Hw. cbn [fst snd] in *.
  pose proof (same_guest _ _ Hsame (io_parent _ Hq)) as Hgu. pose proof (same_ok _ _ Hsame Hf Hq) as Hq2.
  destruct Hsame as [[[_ _ _ D] _] _ Z _].
  destruct (reading_settled _ _ Hrd D Z (held_settled _ _ _ Hh)) as [S T Fl]. destruct Hh as [_ _ [D1 D2 D3] H4 H5].
  destruct Hrd as (f & p & h & ->). split_and!; try done.
  - constructor; [by split|done|constructor; [done|apply Hq2|done]|by etrans; [exact Hgu|]|done].
  - intros i j. unfold entry. by rewrite D.
  - intros b ->. destruct (Hw b eq_refl) as [W1 W2]. split_and!; [by apply read_inside in Hr| |done].
    intros i Hi'. rewrite W1 by done. unfold slice. apply H4.
Qed.
(** ** One cluster of a write *)
(** The table of guest cluster [c] is this image's alone. *)
Record own_table (i : Z) q : Prop := OwnTable {
  ow_index : 0 <= i < q_l1_size q;
  ow_table : l1_off q i <> 0 /\ q_refs q (l1_off q i / q_cluster_size q) = 1;
}.
Lemma own_aside extra i q q' : good extra q -> own_table i q -> aside q q' -> own_table i q'.
Proof.
  intros [Hs Ht] [O1 [O2 O3]] Ha. destruct (aside_geo _ _ Ha) as (C & L & _). destruct (l1_entry_live extra q i Hs Ht O1 O2) as (Hn & _ & Htag).
  destruct (as_live _ _ Ha (l1_off q i / q_cluster_size q)) as (_ & R & _); [lia|by right|].
  constructor; [lia|]. rewrite (aside_l1_off q q'), C by done. split; [done|congruence].
Qed.
(** The cluster as it was, with the new bytes *)
Definition merged q (b : buf) (pos chunk : Z) (old : buf) : buf :=
  let c := pos / q_cluster_size q in
  blit (blit zeros 0 old (Z.min (q_size q - c * q_cluster_size q) (q_cluster_size q))) (pos mod q_cluster_size q) (to_bytes b) chunk.
Lemma merged_bytes q b pos chunk old g : 0 < q_cluster_size q -> 0 <= pos -> 0 < chunk -> chunk <= q_cluster_size q - pos mod q_cluster_size q ->
  pos + chunk <= q_size q -> wf_buf old -> wf_buf g ->
  let c := pos / q_cluster_size q in
  eq_on 0 (Z.min (q_size q - c * q_cluster_size q) (q_cluster_size q)) old (slice g (c * q_cluster_size q)) ->
  (fun x => if (0 <=? x) && (x <? q_size q) && (x / q_cluster_size q =? c)
    then w8 (merged q b pos chunk old (x mod q_cluster_size q)) else g x) ≡ blit g pos (to_bytes b) chunk.
Proof.
  intros Hcs Hp Hc Hcc Hsz Hwo Hwg c Hold x. pose proof (Z.div_mod pos (q_cluster_size q) ltac:(lia)) as Hdp. fold c in Hdp.
  pose proof (Z.mod_pos_bound pos (q_cluster_size q) ltac:(lia)) as Hmp.
  destruct (_ && _) eqn:E.
  - apply andb_true_iff in E as [E E3]. apply andb_true_iff in E as [E1 E2]. apply Z.leb_le in E1. apply Z.ltb_lt in E2. apply Z.eqb_eq in E3.
    pose proof (Z.div_mod x (q_cluster_size q) ltac:(lia)) as Hdx. rewrite E3 in Hdx.
    pose proof (Z.mod_pos_bound x (q_cluster_size q) ltac:(lia)) as Hmx. unfold merged. fold c.
    destruct (decide (pos <= x < pos + chunk)).
    + rewrite !blit_in by lia. etransitivity; [apply wrap_small, wf_to_bytes|]. f_equal. lia.
    + rewrite (blit_out g) by lia. rewrite blit_out by lia. rewrite blit_in by lia. rewrite Z.sub_0_r, Hold by lia.
      etransitivity; [apply wrap_small, Hwg|]. unfold slice. f_equal. lia.
  - rewrite blit_out; [done|]. intros Hin. assert (x / q_cluster_size q = c) by (apply in_cluster; lia).
    destruct (Z.leb_spec 0 x), (Z.ltb_spec x (q_size q)), (Z.eqb_spec (x / q_cluster_size q) c); cbn in E; lia || done.
Qed.
Lemma copy_chunk_ok g b pos chunk i j q q2 q' : held none g q q2 -> own_table i q2 -> 0 <= j < entries_per_l2 q ->
  pos / q_cluster_size q = i * entries_per_l2 q + j -> wf_buf g -> 0 <= pos -> 0 < chunk ->
  chunk <= q_cluster_size q - pos mod q_cluster_size q -> pos + chunk <= q_size q ->
  let c := pos / q_cluster_size q in
  let data := offset_of (entry q2 i j) in
  (let! old := qcow_read (Z.min (q_size q2 - c * q_cluster_size q) (q_cluster_size q)) (c * q_cluster_size q) in
   let! off := allocate_cluster (blit (blit zeros 0 old (Z.min (q_size q2 - c * q_cluster_size q) (q_cluster_size q)))
     (pos mod q_cluster_size q) (to_bytes b) chunk) 2 in
   write_u64 (l1_off q2 i + j * 8) (Z.lor off QCOW_COPIED) ;;;
   sync_fd ;;;
   (if data =? 0 then ret tt else drop_reference data)) q2 = (Ok tt, q') ->
  held none (blit g pos (to_bytes b) chunk) q q'.
Proof.
  intros Hh Hown Hj Hc Hwg Hp Hch Hcc Hsz c data Hr. destruct (held_geo _ _ _ _ Hh) as (C2 & L2 & Z2 & _ & E2).
  destruct (shape_cs _ (proj1 (he_good _ _ _ _ Hh))) as (Hcs & _). rewrite C2 in Hcs. rewrite Z2 in Hr.
  pose proof (Z.div_mod pos (q_cluster_size q) ltac:(lia)) as Hdp. fold c in Hdp, Hc.
  pose proof (Z.mod_pos_bound pos (q_cluster_size q) ltac:(lia)) as Hmp.
  assert (Hc0 : 0 <= c) by (apply Z.div_pos; lia).
  apply bind_ok in Hr as (old & q3 & H3 & Hr). apply (read_held _ _ _ _ _ _ _ Hh) in H3 as (Hh3 & K3 & N3 & R3 & _ & B3); [|nia|lia].
  destruct (B3 old eq_refl) as (_ & Hold & Hwo). clear B3.
  pose proof (merged_bytes q b pos chunk old g ltac:(lia) Hp Hch Hcc Hsz Hwo Hwg Hold) as Hm. fold c in Hm.
  change (blit (blit zeros 0 old _) _ _ _) with (merged q b pos chunk old) in Hr.
  assert (Hown3 : own_table i q3).
  { destruct Hown as [W1 W2]. destruct (held_geo _ _ _ _ Hh3) as (C3 & L3 & _). constructor; [lia|]. by rewrite K3, R3, C3, <- C2. }
  apply bind_ok in Hr as (off & q4 & H4 & Hr). apply (allocate_held _ _ _ _ _ _ _ Hh3 (or_introl eq_refl)) in H4 as (Hh4 & F4 & A4 & B4).
  pose proof (own_aside _ _ _ _ (he_good _ _ _ _ Hh3) Hown3 A4) as Hown4.
  assert (El : l1_off q4 i = l1_off q2 i) by (rewrite (aside_l1_off q3 q4) by done; apply K3).
  destruct (held_geo _ _ _ _ Hh4) as (C4 & L4 & Z4 & _ & E4).
  assert (Ee : entry q4 i j = entry q2 i j).
  { destruct (he_good _ _ _ _ Hh3) as [S3 T3]. destruct (held_geo _ _ _ _ Hh3) as (_ & _ & _ & _ & E3).
    rewrite (aside_entry none q3 q4 S3 T3 A4); [apply N3|apply Hown3|apply Hown3|by rewrite E3]. }
  assert (Hg4 : good (points (q_cluster_size q4) off) q4) by (rewrite C4; apply Hh4).
  destruct Hown4 as [W1 W2]. assert (Hj4 : 0 <= j < entries_per_l2 q4) by by rewrite E4.
  destruct (entry_place _ q4 i j Hg4 W1 (proj1 W2) Hj4) as (Hn & _ & P1 & _ & P3). rewrite <- El in Hr.
  apply bind_ok in Hr as ([] & q5 & H5 & Hr). destruct Hg4 as [S4 T4].
  destruct (shape_cs _ S4) as (Hcs4 & _).
  apply write_u64_ok in H5 as (f & E5 & G1 & G2 & G3 & G4); [|done|nia|done|by eapply fresh_entry].
  assert (Hf : file_inv f /\ f_size f = f_size (q_file q4) /\ be64 (f_data f) (l1_off q4 i + j * 8) = Z.lor off QCOW_COPIED /\
    forall x, ~ l1_off q4 i + j * 8 <= x < l1_off q4 i + j * 8 + 8 -> f_data f x = raw_data q4 x) by done.
  destruct Hh4 as [_ Hf4 Hd4 Hgu4 HG4].
  pose proof (remap_good q4 i j off f _ (conj S4 T4) W1 Hj4 W2 F4 Hf) as X1.
  pose proof (remap_flags q4 i j off f _ (conj S4 T4) Hf4 W1 Hj4 W2 F4 Hf) as X2.
  destruct (remap_guest q4 i j off f _ (conj S4 T4) Hd4 W1 Hj4 W2 F4 Hf) as [X3 X4]. rewrite <- E5 in X1, X2, X3, X4.
  assert (Hh5 : held (points (q_cluster_size q) data) (blit g pos (to_bytes b) chunk) q q5).
  { constructor; [by rewrite C4, Ee in X1|done|done| |by rewrite E5].
    etrans; [exact X4|]. rewrite <- Hm. intros x. rewrite Z4, C4, E4, <- Hc. destruct (_ && _); [done|]. apply Hgu4. }
  apply bind_ok in Hr as ([] & q6 & H6 & Hr). apply sync_idle in H6 as I6. pose proof (held_idle _ _ _ _ _ Hh5 I6) as Hh6.
  apply (held_drop _ _ _ _ _ Hh6) in Hr as (Hr & _); [done|].
  destruct (Z.eq_dec data 0) as [->|Hne]; [by rewrite Zdiv_0_l|].
  destruct (entry_live none q2 i j) as (_ & Eo & _); [apply Hh|apply Hh|apply Hown|apply Hown|by rewrite E2|done|]. by rewrite <- C2.
Qed.
Lemma settled_wf q : settled q -> disk_ok q -> wf_buf (guest q).
Proof. intros Hs Hd. apply disk_bytes. by apply settled_image. Qed.
Lemma write_chunk_ok b pos chunk q q' : settled q -> disk_ok q -> 0 <= pos -> 0 < chunk ->
  chunk <= q_cluster_size q - pos mod q_cluster_size q -> pos + chunk <= q_size q ->
  write_chunk b pos chunk q = (Ok tt, q') -> held none (blit (guest q) pos (to_bytes b) chunk) q q'.
Proof.
  intros Hse Hd Hp Hch Hcc Hsz Hr. unfold write_chunk in Hr. rewrite (bind_run get_q _ q q q) in Hr by done. cbv zeta in Hr.
  destruct (shape_cs _ (se_shape _ Hse)) as (Hcs & _ & He & _). pose proof (Z.div_mod pos (q_cluster_size q) ltac:(lia)) as Hdp.
  pose proof (Z.mod_pos_bound pos (q_cluster_size q) ltac:(lia)) as Hmp.
  set (c := pos / q_cluster_size q) in *. assert (Hc0 : 0 <= c) by (apply Z.div_pos; lia).
  destruct (guest_index q c (se_shape _ Hse) Hd Hc0 ltac:(lia)) as [G1 G2].
  set (i := c / entries_per_l2 q) in *. set (j := c mod entries_per_l2 q) in *.
  assert (Hc : c = i * entries_per_l2 q + j) by (pose proof (Z.div_mod c (entries_per_l2 q) ltac:(lia)); lia).
  apply bind_ok in Hr as (l2 & q1 & H1 & Hr). apply writable_l2_ok in H1 as (Hh1 & El & Hl & Hr1); [|done..].
  destruct (held_geo _ _ _ _ Hh1) as (C1 & L1 & _ & _ & E1).
  apply bind_ok in Hr as (e & q2 & H2 & Hr). apply read_u64_idle in H2 as (I2 & Ee & _).
  pose proof (held_idle _ _ _ _ _ Hh1 I2) as Hh2. destruct (held_geo _ _ _ _ Hh2) as (C2 & L2 & Z2 & _ & E2).
  assert (El2 : l1_off q2 i = l2) by (by rewrite (idle_l1_off q1 q2)).
  assert (Ee2 : e = entry q2 i j) by (rewrite (idle_entry q1 q2) by done; unfold entry; by rewrite El).
  assert (Hown : own_table i q2).
  { constructor; [lia|]. rewrite El2, C2, (proj1 (id_refs _ _ I2)). by split. }
  rewrite (bind_run get_q _ q2 q2 q2) in Hr by done. rewrite Ee2 in Hr. rewrite <- El2 in Hr.
  destruct (_ || _) eqn:Ecase in Hr.
  - apply (copy_chunk_ok (guest q) b pos chunk i j q q2 q'); try done; [by apply settled_wf|]. rewrite C2 in Hr. exact Hr.
  - rewrite !orb_false_iff, negb_false_iff in Ecase. destruct Ecase as [[X1 X2] X3]. apply Z.eqb_neq in X1. apply Z.eqb_eq in X3.
    pose proof (settled_held _ (held_settled _ _ _ Hh2) (he_disk _ _ _ _ Hh2)) as Hh.
    assert (Hj : 0 <= j < entries_per_l2 q2) by by rewrite E2.
    destruct (he_good _ _ _ _ Hh2) as [S2 T2]. destruct Hown as [W1 [W2 _]].
    destruct (entry_live none q2 i j S2 T2 W1 W2 Hj X1) as (Hn & Eo & _).
    destruct (sh_entries _ S2 i j W1 W2 Hj) as [_ [_ Hfit]]. destruct (Hfit X1) as [_ Hend].
    apply write_at_ok in Hr as (f & Eq & F1 & F2 & F3); [|done|nia|lia|lia].
    assert (Hw : 0 <= pos mod q_cluster_size q /\ 0 < chunk /\ pos mod q_cluster_size q + chunk <= q_cluster_size q2) by lia.
    assert (He2 : offset_of (entry q2 i j) <> 0 /\ has_flag (entry q2 i j) QCOW_ZERO = false /\
      q_refs q2 (offset_of (entry q2 i j) / q_cluster_size q2) = 1) by done.
    destruct (in_place_settled q2 i j f b _ chunk Hh W1 Hj W2 He2 Hw (conj F1 (conj F2 F3))) as (Y1 & Y2 & Y3).
    pose proof (in_place_guest q2 i j f b _ chunk Hh W1 Hj W2 He2 Hw (conj F1 (conj F2 F3)) pos) as Y4.
    rewrite C2, E2, Z2 in Y4. specialize (Y4 Hc eq_refl Hp Hsz). subst q'.
    constructor; [done|done|done| |by rewrite <- (he_geo _ _ _ _ Hh2)].
    etrans; [exact Y4|]. by rewrite (he_guest _ _ _ _ Hh2).
Qed.

(** ** All clusters of a write *)
Lemma blit_step g pos b n m x : 0 <= n <= m ->
  blit (blit g pos (to_bytes b) n) (pos + n) (to_bytes (slice b n)) (m - n) x = blit g pos (to_bytes b) m x.
Proof.
  intros Hn. destruct (decide (pos <= x < pos + n)).
  - rewrite blit_out, !blit_in by lia. done.
  - destruct (decide (pos + n <= x < pos + m)); [|by rewrite !blit_out by lia].
    rewrite !blit_in by lia. unfold to_bytes, slice. do 2 f_equal. lia.
Qed.
Lemma write_loop_ok fuel : forall b bytes pos q q', settled q -> disk_ok q -> 0 <= pos -> 0 <= bytes -> pos + bytes <= q_size q ->
  write_loop fuel b bytes pos q = (Ok tt, q') -> held none (blit (guest q) pos (to_bytes b) bytes) q q'.
Proof.
  induction fuel as [|fuel IH]; intros b bytes pos q q' Hse Hd Hp Hb Hsz Hr; cbn [write_loop] in Hr;
    (destruct (Z.eqb_spec bytes 0) as [->|Hne];
     [injection Hr as <-; destruct (settled_held q Hse Hd) as [K1 K2 K3 _ K5]; constructor; try done; intros x; by rewrite blit_out by lia|]); [done|].
  rewrite (bind_run get_q _ q q q) in Hr by done. cbv zeta in Hr. destruct (shape_cs _ (se_shape _ Hse)) as (Hcs & _).
  pose proof (Z.mod_pos_bound pos (q_cluster_size q) ltac:(lia)) as Hmp. set (n := Z.min _ bytes) in Hr.
  apply bind_ok in Hr as ([] & q1 & H1 & Hr). apply write_chunk_ok in H1 as H1; [|done|done|lia|lia|lia|lia].
  pose proof (held_settled _ _ _ H1) as Hse1. destruct (held_geo _ _ _ _ H1) as (_ & _ & Z1 & _).
  apply IH in Hr; [|done|apply H1|lia|lia|rewrite Z1; lia]. eapply held_trans in Hr; [|exact H1]. destruct Hr as [K1 K2 K3 K4 K5].
  constructor; try done. etrans; [exact K4|]. rewrite (he_guest _ _ _ _ H1). intros x. apply blit_step. lia.
Qed.
(** More fuel than one round for every cluster the transfer touches changes nothing. *)
Lemma cow_loop_fuel fuel : forall fuel' b bytes pos q, settled q -> disk_ok q -> 0 <= pos -> 0 <= bytes -> pos + bytes <= q_size q ->
  blocks_left (q_cluster_size q) bytes pos 0 <= Z.of_nat fuel -> (fuel <= fuel')%nat ->
  write_loop fuel' b bytes pos q = write_loop fuel b bytes pos q.
Proof.
  induction fuel as [|fuel IH]; intros fuel' b bytes pos q Hse Hd Hp Hb Hsz Hfu Hle; destruct (shape_cs _ (se_shape _ Hse)) as (Hcs & _);
    destruct (blocks_left_bounds (q_cluster_size q) bytes pos 0 ltac:(lia)) as [_ Hpos];
    (destruct (Z.eqb_spec bytes 0) as [->|Hne]; [by destruct fuel'|]); [lia|].
  destruct fuel' as [|fuel']; [lia|]. cbn [write_loop]. rewrite (proj2 (Z.eqb_neq bytes 0)) by done.
  rewrite !(bind_run get_q _ q q q) by done. cbv zeta. pose proof (Z.mod_pos_bound pos (q_cluster_size q) ltac:(lia)) as Hm.
  pose proof (blocks_left_step (q_cluster_size q) bytes pos 0 ltac:(lia) ltac:(lia)) as [Hc Hst].
  rewrite Z.add_0_r, Z.sub_0_r in Hc, Hst. set (n := Z.min _ bytes) in *. rewrite Z.add_0_l in Hst. rewrite <- blocks_left_shift in Hst.
  unfold bind. destruct (write_chunk b pos n q) as [[[]|e] q1] eqn:E; [|done].
  apply write_chunk_ok in E as Hh; [|done|done|lia|lia|lia|lia]. destruct (held_geo _ _ _ _ Hh) as (C & _ & Z1 & _).
  apply IH; [by eapply held_settled|apply Hh|lia|lia|rewrite Z1; lia|rewrite C; lia|lia].
Qed.

(** ** Writes and syncs *)
Definition stays_failed q q' : Prop := q_failed q = true -> q_failed q' = true.
#[local] Instance stays_failed_preorder : PreOrder stays_failed.
Proof. split; [by intros q H|]. unfold stays_failed. intros a b c. auto. Qed.
Lemma failed_modify f : (forall q, stays_failed q (f q)) -> Stable stays_failed (modify (P:=P) f).
Proof. by apply modify_stable. Qed.
Lemma failed_on_fd {A} (m : M file A) : Stable stays_failed (on_fd (P:=P) m).
Proof. intros q r q' Hr. unfold on_fd in Hr. destruct (m (q_file q)) as [x f]. injection Hr as <- <-. by intros H. Qed.
Local Hint Resolve failed_on_fd : stable.
Lemma failed_write_at b n off : Stable stays_failed (write_at (P:=P) b n off).
Proof. unfold write_at, mark_failed. solve_stable. apply failed_modify. by intros w Hw. Qed.
Lemma failed_sync_fd : Stable stays_failed (sync_fd (P:=P)).
Proof. unfold sync_fd, mark_failed. solve_stable. apply failed_modify. by intros w Hw. Qed.
(** A failing access to the file leaves the image failed. *)
Lemma failing_write_at b n off q e q' : write_at b n off q = (Err e, q') -> q_failed q' = true.
Proof.
  unfold write_at, bind, attempt, mark_failed, modify, fail, ret. destruct (on_fd _ q) as [[a|x] q1]; [done|]. by intros [= <- <-].
Qed.
Lemma failing_sync_fd q e q' : sync_fd q = (Err e, q') -> q_failed q' = true.
Proof.
  unfold sync_fd, bind, attempt, mark_failed, modify, fail, ret. destruct (on_fd _ q) as [[a|x] q1]; [done|]. by intros [= <- <-].
Qed.
Lemma begin_write_ok q q' : settled q -> disk_ok q -> begin_write q = (Ok tt, q') -> held none (guest q) q q' /\ q_failed q = false.
Proof.
  intros Hse Hd Hr. pose proof (settled_held q Hse Hd) as Hh. unfold begin_write in Hr. rewrite (bind_run get_q _ q q q) in Hr by done.
  destruct (q_failed q); [done|]. split; [|done]. destruct (q_changed q); [by injection Hr as <-|].
  apply bind_ok in Hr as ([] & q1 & H1 & Hr). assert (Hh1 : held none (guest q) q q1).
  { destruct (q_version q =? 3); [|by injection H1 as <-]. apply bind_ok in H1 as ([] & q2 & H2 & H1).
    unfold write_u64 in H2. apply (header_write_ok none) in H2 as [G A _ _]; [|apply Hh|lia..].
    apply sync_idle in H1. eapply held_idle; [by eapply held_aside|done]. }
  unfold modify in Hr. injection Hr as <-. eapply held_idle; [exact Hh1|by constructor].
Qed.
Definition attempted {A} (m : M (qcow P) A) : M (qcow P) unit :=
  let! rc := attempt m in
  match rc with
  | Ok _ => ret tt
  | Err e => mark_failed ;;; fail e
  end.
Lemma attempted_run {A} (m : M (qcow P) A) q r q' : attempted m q = (r, q') ->
  (r = Ok tt /\ exists a, m q = (Ok a, q')) \/ (is_ok r = false /\ q_failed q' = true /\ is_ok (fst (m q)) = false).
Proof.
  unfold attempted, bind, attempt, mark_failed, modify, fail, ret. destruct (m q) as [[a|e] q1]; intros [= <- <-]; [left; by eauto|by right].
Qed.
(** A write replaces its range, or is refused and changes nothing, or leaves the image failed. *)
Lemma qcow_write_run b n off q r q' : settled q -> disk_ok q -> 0 <= n -> qcow_write b n off q = (r, q') ->
  (r = Ok tt /\ 0 <= off /\ off + n <= q_size q /\ held none (blit (guest q) off (to_bytes b) n) q q') \/
  (is_ok r = false /\ held none (guest q) q q') \/
  (is_ok r = false /\ q_failed q' = true).
Proof.
  intros Hse Hd Hn Hr. pose proof (settled_held q Hse Hd) as Hh. unfold qcow_write in Hr. rewrite (bind_run get_q _ q q q) in Hr by done.
  destruct (negb (q_writable q)); [injection Hr as <- <-; right; by left|].
  destruct (outside q n off) eqn:Eo; [injection Hr as <- <-; right; by left|]. unfold outside in Eo. bool_to_prop.
  destruct (Z.eqb_spec n 0) as [->|Hne].
  { injection Hr as <- <-. left. split_and!; [done|lia|lia|]. destruct Hh. constructor; try done. intros x. by rewrite blit_out by lia. }
  unfold bind at 1 in Hr. destruct (q_alloc q) as [[[]|e] q1] eqn:Ea.
  2: { injection Hr as <- <-. right. left. split; [done|]. unfold q_alloc in Ea. destruct (q_heap q) as [|[] h]; try done.
       injection Ea as _ <-. eapply held_idle; [exact Hh|by constructor]. }
  apply alloc_idle in Ea. pose proof (held_idle _ _ _ _ _ Hh Ea) as Hh1. destruct (held_geo _ _ _ _ Hh1) as (_ & _ & Z1 & _).
  apply attempted_run in Hr as [[-> [[] Hr]]|(X1 & X2 & _)]; [|by right; right].
  left. split_and!; [done|lia|lia|]. apply bind_ok in Hr as ([] & q2 & X2 & Hr).
  apply begin_write_ok in X2 as [X2 _]; [|by eapply held_settled|apply Hh1].
  pose proof (held_trans _ _ _ _ _ _ Hh1 X2) as Hh2. destruct (held_geo _ _ _ _ Hh2) as (_ & _ & Z2 & _).
  apply write_loop_ok in Hr; [|by eapply held_settled|apply Hh2|done|done|lia].
  pose proof (held_trans _ _ _ _ _ _ Hh2 Hr) as [K1 K2 K3 K4 K5]. constructor; try done.
  etrans; [exact K4|]. by rewrite (he_guest _ _ _ _ X2), (he_guest _ _ _ _ Hh1).
Qed.
Lemma qcow_write_failed b n off q r q' : q_failed q = true -> n <> 0 -> qcow_write b n off q = (r, q') ->
  is_ok r = false /\ q_failed q' = true.
Proof.
  intros Hf Hne Hr. unfold qcow_write in Hr. rewrite (bind_run get_q _ q q q) in Hr by done.
  destruct (negb _); [by injection Hr as <- <-|]. destruct (outside _ _ _); [by injection Hr as <- <-|].
  rewrite (proj2 (Z.eqb_neq _ _) Hne) in Hr. unfold bind at 1 in Hr. destruct (q_alloc q) as [[[]|e] q1] eqn:Ea.
  - apply attempted_run in Hr as [[-> [a Hr]]|(H1 & H2 & _)]; [|done]. exfalso.
    assert (Hf1 : q_failed q1 = true) by (unfold q_alloc in Ea; destruct (q_heap q) as [|[] h]; by simplify_eq/=).
    apply bind_ok in Hr as ([] & q2 & H2 & _). unfold begin_write in H2. rewrite (bind_run get_q _ q1 q1 q1) in H2 by done. by rewrite Hf1 in H2.
  - injection Hr as <- <-. split; [done|]. unfold q_alloc in Ea. destruct (q_heap q) as [|[] h]; by simplify_eq/=.
Qed.
Lemma qcow_sync_run q r q' : settled q -> disk_ok q -> qcow_sync q = (r, q') ->
  (r = Ok tt /\ held none (guest q) q q') \/ (is_ok r = false /\ q_failed q' = true).
Proof.
  intros Hse Hd Hr. pose proof (settled_held q Hse Hd) as Hh. unfold qcow_sync in Hr. rewrite (bind_run get_q _ q q q) in Hr by done.
  destruct (q_failed q) eqn:Ef; [injection Hr as <- <-; by right|]. destruct (negb (q_changed q)); [injection Hr as <- <-; by left|].
  apply bind_inv in Hr as [(rc & q1 & H1 & Hr)|(e & H1 & _)]; [|by apply attempt_inv in H1 as (? & ? & _)].
  apply attempt_inv in H1 as (x & [= ->] & H1). destruct x as [[]|e].
  2: { unfold bind, mark_failed, modify, fail in Hr. injection Hr as <- <-. by right. }
  apply (flush_refcounts_ok none) in H1 as [G1 A1 _ _]; [|apply Hh]. pose proof (held_aside _ _ _ _ _ _ Hh A1 G1) as Hh1. clear G1 A1.
  assert (Hdone : forall q2, held none (guest q) q q2 -> modify (fun q => set_changed q false) q2 = (r, q') ->
    (r = Ok tt /\ held none (guest q) q q') \/ (is_ok r = false /\ q_failed q' = true)).
  { intros q2 Hh2 Hr2. unfold modify in Hr2. injection Hr2 as <- <-. left. split; [done|]. eapply held_idle; [exact Hh2|by constructor]. }
  apply bind_inv in Hr as [([] & q2 & H2 & Hr)|(e & H2 & ->)].
  - apply (Hdone q2); [|done]. destruct (q_version q =? 3); [|by injection H2 as <-].
    apply bind_ok in H2 as (rc & q3 & H3 & H2). apply attempt_inv in H3 as (x & [= ->] & H3). destruct x as [[]|e].
    2: { apply bind_ok in H2 as (? & ? & _ & H2). by apply bind_ok in H2 as (? & ? & _ & H2). }
    injection H2 as <-. apply bind_ok in H3 as ([] & q4 & H4 & H3).
    unfold write_u64 in H4. apply (header_write_ok none) in H4 as [G A _ _]; [|apply Hh1|lia..].
    apply sync_idle in H3. eapply held_idle; [by eapply held_aside|done].
  - right. split; [done|]. destruct (q_version q =? 3); [|done].
    apply bind_inv in H2 as [(rc & q3 & H3 & H2)|(e' & H3 & _)]; [|by apply attempt_inv in H3 as (? & ? & _)].
    apply attempt_inv in H3 as (x & [= ->] & H3). destruct x as [a|e1]; [done|].
    assert (Hf3 : q_failed q3 = true).
    { apply bind_inv in H3 as [([] & q4 & _ & H3)|(e2 & H3 & _)]; [by apply failing_sync_fd in H3|by apply failing_write_at in H3]. }
    assert (Hst : Stable stays_failed (attempt (write_u64 (P:=P) 72 1) ;;; attempt (sync_fd (P:=P)) ;;; fail (W:=qcow P) (A:=unit) e1)).
    { unfold write_u64. solve_stable; [apply failed_write_at|apply failed_sync_fd]. }
    by apply (Hst q3 _ _ H2).
Qed.
Lemma qcow_sync_failed q : q_failed q = true -> qcow_sync q = (Err EIO, q).
Proof. intros Hf. unfold qcow_sync. rewrite (bind_run get_q _ q q q) by done. by rewrite Hf. Qed.
End write.
