(* ===== verification/QcowDisk.v ===== *)
(** * QCOW2 images as disks

    From nextufs__qcow2_open of src/src/core/qcow2.c to the contract of its backend: an opened
    image is in the state every write relies on, and requests to it are a run of an abstract
    disk up to the first write or sync that breaks it; then the image refuses all changes. *)
From S2P Require Import Prelude.
From S2P Require Import Bytes.
From S2P Require Import Backend.
From S2P Require Import Disk.
From S2P Require Import Dirent.
From S2P Require Import Path.
From S2P Require Import Qcow.
From S2P Require Import QcowOpen.
From S2P Require Import QcowCheck.
From S2P Require Import QcowRead.
From S2P Require Import QcowChain.
From S2P Require Import QcowState.
From S2P Require Import QcowAlloc.
From S2P Require Import QcowRefs.
From S2P Require Import QcowWrite.

(** ** Members of the list of references *)
Lemma uses_member n l : uses n l <> 0 -> exists tag, (n, tag) ∈ l.
Proof.
  unfold uses. destruct (filter (fun c : Z * Z => fst c = n) l) as [|[m tag] l'] eqn:E; [done|]. intros _.
  assert (Hin : (m, tag) ∈ filter (fun c : Z * Z => fst c = n) l) by (rewrite E; by left).
  apply list_elem_of_filter in Hin as [Hm Hin]. cbn in Hm. subst m. by exists tag.
Qed.
Lemma region_tag cs off bytes tag c : c ∈ region cs off bytes tag -> snd c = tag.
Proof. unfold region. intros Hc. by apply list_elem_of_In, in_map_iff in Hc as (i & <- & _). Qed.
(** ** A disk that can break *)
Definition changes (r : request) : Prop := match r with Read _ _ => False | Write _ n _ => n <> 0 | Sync => True end.
(** The state is the disk, or nothing is known of it after a failure.  A request is served as
    by a disk, or refused without effect, or it is a write or sync that breaks the image; a
    broken image refuses all of these. *)
Inductive cow_step (size : Z) : option buf -> request -> result response -> option buf -> Prop :=
  | step_served s r a s' : disk_step size s r (Ok a) s' -> cow_step size (Some s) r (Ok a) (Some s')
  | step_refused s r e s' : s' ≡ s -> cow_step size (Some s) r (Err e) (Some s')
  | step_breaks s r e : changes r -> cow_step size (Some s) r (Err e) None
  | step_lost r e : changes r -> cow_step size None r (Err e) None
  | step_unchecked r x : ~ changes r -> cow_step size None r x None.
Inductive cow_run (size : Z) : option buf -> list request -> list (result response) -> option buf -> Prop :=
  | cow_nil s : cow_run size s [] [] s
  | cow_cons s q r s1 qs rs s2 : cow_step size s q r s1 -> cow_run size s1 qs rs s2 -> cow_run size s (q :: qs) (r :: rs) s2.

Section opened.
Context {P : Type} `{HB : Backend P, HR : !ReadSpec P}.
Implicit Types (q : qcow P).

Lemma cluster_member q tag off n : 0 < q_cluster_size q -> points (q_cluster_size q) off n <> 0 -> (n, tag) ∈ cluster_of q tag off.
Proof.
  intros Hcs Hp. rewrite <- (uses_cluster q tag) in Hp by done. apply uses_member in Hp as [tag' Hin].
  enough (tag' = tag) as <- by done. unfold cluster_of in Hin. destruct (off =? 0); [by apply elem_of_nil in Hin|].
  by apply region_tag in Hin.
Qed.
Definition meta_references q : list (Z * Z) :=
  fixed_references q ++ flat_map (block_references q) (seqZ 0 (q_ref_entries q)).
Lemma meta_uses q n : 0 < q_cluster_size q -> 0 <= q_l1_size q -> 0 <= q_ref_clusters q ->
  uses n (meta_references q) = meta q n.
Proof.
  intros H1 H2 H3. pose proof (uses_references q n H1 H2 H3) as E. unfold references in E. rewrite app_assoc, uses_app in E.
  fold (meta_references q) in E. enough (uses n (flat_map (l1_references q) (seqZ 0 (q_l1_size q))) = tables q n + datas q n) by lia.
  rewrite uses_flat_map. unfold tables, datas, sumZ. generalize (seqZ 0 (q_l1_size q)). intros l.
  induction l as [|i l IH]; [done|]. cbn [foldr]. rewrite uses_table by done. lia.
Qed.
Lemma meta_tag q c : c ∈ meta_references q -> snd c = 1.
Proof.
  unfold meta_references, fixed_references. rewrite !elem_of_app. intros [[H|[H|H]]|H]; [by apply region_tag in H..|].
  apply list_elem_of_In, in_flat_map in H as (i & _ & H). apply list_elem_of_In in H. unfold block_references, cluster_of in H.
  destruct (_ =? 0); [by apply elem_of_nil in H|]. by apply region_tag in H.
Qed.
Lemma table_member q n : 0 < q_cluster_size q -> tables q n <> 0 -> (n, 3) ∈ references q.
Proof.
  intros Hcs Ht. apply sumZ_pos in Ht as (i & Hi & Hp); [|intros; apply points_range].
  unfold references. rewrite !elem_of_app. right. right. apply list_elem_of_In, in_flat_map. exists i.
  split; [apply list_elem_of_In, elem_of_seqZ; lia|]. apply list_elem_of_In. unfold l1_references. fold (l1_off q i).
  rewrite (proj2 (Z.eqb_neq _ _)) by by apply points_spec in Hp as [? _]. apply elem_of_app. left. by apply cluster_member.
Qed.
Lemma data_member q n : 0 < q_cluster_size q -> datas q n <> 0 -> (n, 2) ∈ references q.
Proof.
  intros Hcs Ht. apply sumZ_pos in Ht as (i & Hi & Hp); [|intros; apply table_data_nonneg].
  unfold table_data in Hp. destruct (Z.eqb_spec (l1_off q i) 0) as [|Hl]; [done|].
  apply sumZ_pos in Hp as (j & Hj & Hp); [|intros; apply points_range].
  unfold references. rewrite !elem_of_app. right. right. apply list_elem_of_In, in_flat_map. exists i.
  split; [apply list_elem_of_In, elem_of_seqZ; lia|]. apply list_elem_of_In. unfold l1_references. fold (l1_off q i).
  rewrite (proj2 (Z.eqb_neq _ _) Hl). apply elem_of_app. right. apply list_elem_of_In, in_flat_map. exists (entry q i j). split.
  - unfold l2_entries. apply in_map_iff. exists j. split; [done|]. apply list_elem_of_In, elem_of_seqZ. lia.
  - apply list_elem_of_In. by apply cluster_member.
Qed.
(** What the validation found is what writing relies on. *)
Lemma marked_tally q : 0 < q_cluster_size q -> 0 <= q_l1_size q -> 0 <= q_ref_clusters q ->
  (forall n, 0 <= n < q_host_count q -> q_refs q n = uses n (references q)) ->
  (exists e, marked (references q) e (q_tags q)) -> tally none q.
Proof.
  intros Hcs Hl Hr Hrefs [e HM]. constructor.
  - intros n Hn. rewrite Hrefs, uses_references by done. unfold none. lia.
  - intros n Hn Hm. rewrite <- meta_uses in Hm by done. apply uses_member in Hm as [tag Hin]. pose proof (meta_tag _ _ Hin) as E. cbn in E. subst tag.
    assert (Hin' : (n, 1) ∈ references q) by (unfold references; rewrite app_assoc; apply elem_of_app; by left).
    split; [apply (mk_same _ _ _ HM _ Hin')|]. rewrite Hrefs by done. by apply (mk_alone _ _ _ HM _ Hin').
  - intros n Hn Ht. apply (mk_same _ _ _ HM (n, 3)). by apply table_member.
  - intros n Hn Ht. apply (mk_same _ _ _ HM (n, 2)). by apply data_member.
  - intros n. unfold none. lia.
Qed.
(** ** From the opened file to the invariant *)
Lemma header_shape q hdr : wf_buf hdr -> 0 <= f_size (q_file q) -> opened_file q ->
  unsupported_header hdr = false -> bad_header (with_header (P:=P) q hdr) hdr = false ->
  let q1 := with_header (P:=P) q hdr in
  (exists k, 9 <= k /\ q_cluster_size q1 = 2 ^ k) /\
  (0 <= q_host_count q1 <= q_host_capacity q1 /\ q_cluster_size q1 <= q_file_size q1 <= q_host_count q1 * q_cluster_size q1) /\
  0 <= q_l1_offset q1 /\ 0 <= q_ref_offset q1 /\ 0 < q_ref_clusters q1.
Proof.
  intros Hwf Hsz Hq Hu Hb q1. destruct (header_facts q hdr Hwf Hu Hb) as (Hcs & _ & Hrc & _). fold q1 in Hcs, Hrc.
  unfold unsupported_header in Hu. unfold bad_header in Hb. fold q1 in Hb. bool_to_prop.
  assert (Hr : q_cluster_size q1 <= q_file_size q1).
  { match goal with H : range_valid q1 0 _ = true |- _ => apply range_valid_spec in H; lia end. }
  split_and!.
  - exists (cluster_bits hdr). split; [lia|]. change (Z.shiftl 1 (cluster_bits hdr) = 2 ^ cluster_bits hdr).
    rewrite Z.shiftl_mul_pow2 by lia. lia.
  - change (0 <= (q_file_size q1 + q_cluster_size q1 - 1) / q_cluster_size q1). apply Z.div_pos; lia.
  - change (q_host_count q1 <= q_host_count q1). lia.
  - done.
  - change (q_file_size q1 <= (q_file_size q1 + q_cluster_size q1 - 1) / q_cluster_size q1 * q_cluster_size q1).
    pose proof (Z.div_mod (q_file_size q1 + q_cluster_size q1 - 1) (q_cluster_size q1) ltac:(lia)).
    pose proof (Z.mod_pos_bound (q_file_size q1 + q_cluster_size q1 - 1) (q_cluster_size q1) ltac:(lia)). lia.
  - apply (read_be64_range hdr Hwf 40).
  - apply (read_be64_range hdr Hwf 48).
  - lia.
Qed.
Lemma entry_member q i e : 0 <= i < q_l1_size q -> l1_off q i <> 0 ->
  e = q_l1 q i \/ (exists j, 0 <= j < entries_per_l2 q /\ e = entry q i j) -> e ∈ entries q.
Proof.
  intros Hi Hl He. apply list_elem_of_In, in_flat_map. exists i. split; [apply list_elem_of_In, elem_of_seqZ; lia|].
  apply list_elem_of_In. unfold l1_entries. fold (l1_off q i). rewrite (proj2 (Z.eqb_neq _ _) Hl).
  destruct He as [->|(j & Hj & ->)]; [by left|right]. apply list_elem_of_In, in_map_iff. exists j. split; [done|].
  apply list_elem_of_In, elem_of_seqZ. lia.
Qed.
Lemma good_entries q : 0 <= q_l1_size q -> Forall (good_entry q) (entries q) ->
  (forall i, 0 <= i < q_l1_size q -> has_flag (q_l1 q i) QCOW_COMPRESSED = false) ->
  (forall i, 0 <= i < q_l1_size q -> good_place q (q_l1 q i)) /\
  (forall i j, 0 <= i < q_l1_size q -> l1_off q i <> 0 -> 0 <= j < entries_per_l2 q -> good_place q (entry q i j)) /\
  flags q.
Proof.
  intros Hl Hall Hc. rewrite Forall_forall in Hall.
  assert (Hg : forall e, good_entry q e -> good_place q e /\ flag_ok q e).
  { intros e [G1 G2]. split; [split; [done|]; split; [apply offset_nonneg|]|]; intros Hne; by destruct (G2 Hne) as (? & ? & ?). }
  split_and!.
  - intros i Hi. destruct (Z.eq_dec (l1_off q i) 0) as [E|E].
    + split; [by apply Hc|]. unfold l1_off in E. by rewrite E.
    + apply Hg, Hall. eapply entry_member; [done|done|by left].
  - intros i j Hi E Hj. apply Hg, Hall. eapply entry_member; [done|done|right; by exists j].
  - intros i Hi. destruct (Z.eq_dec (l1_off q i) 0) as [E|E]; [split; intros Hne; by destruct Hne|]. split.
    + apply Hg, Hall. eapply entry_member; [done|done|by left].
    + intros _ j Hj. apply Hg, Hall. eapply entry_member; [done|done|right; by exists j].
Qed.
Lemma load_settled path hdr op q q8 : wf_buf hdr -> opened_file q -> load_image path hdr op q = (Ok tt, q8) ->
  (backing_off hdr = 0 -> settled q8) /\
  (backing_off hdr <> 0 -> exists format q7, settled q7 /\ open_backing path hdr format op q7 = (Ok tt, q8)).
Proof.
  intros Hwf Hq Hr. pose proof (of_file _ Hq) as Hfi. apply load_image_inv in Hr as (Hu & Hb & q7 & q9 & [Hb7 Ht7] & Hpos & H8 & format & Hr); [|done|done].
  set (q1 := with_header q hdr) in *. destruct (header_facts q hdr Hwf Hu Hb) as (Hcs & Hl1 & Hrc & Hre & Hcov). fold q1 in Hcs, Hl1, Hrc, Hre, Hcov.
  destruct (header_shape q hdr Hwf (proj1 Hfi) Hq Hu Hb) as (S1 & S4 & S5 & S6 & S7). fold q1 in S1, S4, S5, S6, S7.
  assert (Hf1 : opened_file q1) by (destruct Hq; by constructor).
  pose proof (validate_base _ _ _ H8) as Hb8. assert (Hb9 : base q1 q9) by by etrans.
  pose proof (layout_inv _ _ (ba_layout _ _ Hb7)) as (C & L & RC & RE & LO & RO & F & HC).
  apply validate_ok in H8 as (Hst & Hrefs & HM & Hg & Hpl).
  2: { constructor; [lia|lia|]. by rewrite Ht7. }
  pose proof (layout_inv _ _ (st_layout _ _ Hst)) as (C8 & L8 & RC8 & RE8 & LO8 & RO8 & F8 & HC8).
  pose proof (base_opened _ _ Hb9 Hf1) as [O1 O2 _]. pose proof (ba_image _ _ Hb9) as I. injection I as _ _ _ _ K.
  rewrite <- (still_references q7 q9) in Hrefs, HM by done. rewrite <- (still_entries q7 q9) in Hg by done.
  destruct Hpl as [P1 P2 P3 P4].
  assert (Hset : settled q9).
  { destruct (good_entries q9) as (G1 & G2 & G3); [lia|done|intros i Hi; rewrite (st_l1 _ _ Hst); apply P4; lia|].
    constructor; [|apply marked_tally; try lia; [intros n Hn; apply Hrefs; lia|done]|done].
    constructor; try done; rewrite ?C8, ?L8, ?RC8, ?RE8, ?LO8, ?RO8, ?F8, ?HC8, ?K, ?C, ?L, ?RC, ?RE, ?LO, ?RO, ?F, ?HC; try done.
    - unfold entries_per_l2. rewrite C8, C. done.
    - rewrite LO, C, L, F in P1. done.
    - rewrite RO, C, RC, F in P2. done.
    - intros i Hi. rewrite (st_table _ _ Hst). split; [done|]. intros Hne. rewrite C8, F8. apply P3; [lia|done]. }
  destruct (Z.eqb_spec (backing_off hdr) 0) as [E|E].
  - injection Hr as <-. by split.
  - split; [done|]. intros _. by exists format, q9.
Qed.
Lemma backing_settled path hdr format op q q' : settled q -> open_backing path hdr format op q = (Ok tt, q') -> settled q'.
Proof.
  intros Hs Hr. unfold open_backing in Hr. apply bind_ok in Hr as (nm & q1 & H1 & Hr).
  assert (Hrd : reading q q1) by (revert H1; apply read_backing_stable; try apply _; intros; apply reading_file).
  pose proof (ba_data _ _ (backing_name_base _ _ _ _ H1)) as [D Z]. apply (reading_settled _ _ Hrd D Z) in Hs as [S T Fl].
  apply bind_ok in Hr as (res & q2 & H2 & Hr). unfold of_result in H2. injection H2 as _ <-.
  apply bind_ok in Hr as ([[p psize] praw] & q3 & H3 & Hr). unfold of_result in H3. injection H3 as _ <-.
  destruct (_ && _) in Hr; [done|]. unfold modify in Hr. injection Hr as <-.
  destruct S, T. by constructor; [constructor|constructor|].
Qed.
Lemma qcow_load_settled path raw op src writable heap q' : file_inv (so_file src) ->
  qcow_load path raw op (fresh_qcow src writable heap) = (Ok tt, q') -> q_raw q' = false -> settled q'.
Proof.
  intros Hf Hr Hnr. set (q := fresh_qcow src writable heap) in *.
  assert (Hq : opened_file q) by by constructor. unfold qcow_load in Hr. destruct raw.
  { unfold modify in Hr. injection Hr as <-. done. }
  rewrite (bind_run get_q _ q q q) in Hr by done. set (n := if _ <? 104 then _ else _) in Hr.
  apply bind_ok in Hr as (b & q1 & H1 & Hr). pose proof (read_at_base _ _ _ _ _ H1) as Hb1. apply read_at_ok in H1 as (_ & _ & Hb).
  assert (Hwf : wf_buf (blit zeros 0 b n)).
  { intros i. unfold blit. destruct ((0 <=? i) && (i <? 0 + n)) eqn:E; [|apply wf_zeros]. rewrite Hb by lia. apply Hf. }
  destruct (_ =? QCOW_MAGIC).
  - apply load_settled in Hr as [H2 H3]; [|done|by eapply base_opened].
    destruct (Z.eq_dec (backing_off (blit zeros 0 b n)) 0) as [E|E]; [by apply H2|].
    destruct (H3 E) as (format & q7 & Hs & Hr). by eapply backing_settled.
  - apply bind_ok in Hr as (vdi & q2 & H2 & Hr). destruct vdi; [done|]. unfold modify in Hr. by injection Hr as <-.
Qed.
Lemma image_disk_ok q : image_ok q -> q_raw q = false -> disk_ok q.
Proof. intros [_ _ I3 _ I5] Hr. constructor; [done|done|apply (I5 Hr)]. Qed.

(** ** Requests to an image *)
(** How an image in memory shows the state *)
Definition shows (size : Z) q (s : option buf) : Prop :=
  match s with
  | Some b => settled q /\ disk_ok q /\ guest q ≡ b /\ q_size q = size
  | None => q_failed q = true
  end.
(** Sizes are [size_t]. *)
Definition sized (r : request) : Prop := match r with Read n _ | Write _ n _ => 0 <= n | Sync => True end.

Lemma held_shows g q q' size : held none g q q' -> q_size q = size -> shows size q' (Some g).
Proof.
  intros Hh Hs. destruct (held_geo _ _ _ _ Hh) as (_ & _ & Z & _). split_and!; [by eapply held_settled|apply Hh|apply Hh|congruence].
Qed.
Lemma serve_read size n off q r q' s : 0 <= n -> shows size q s -> serve (Read n off) q = (r, q') ->
  exists s', cow_step size s (Read n off) r s' /\ shows size q' s'.
Proof.
  intros Hn Hs Hr. cbn [serve] in Hr. change (bk_read n off) with (qcow_read (P:=P) n off) in Hr.
  assert (Hx : exists x, qcow_read n off q = (x, q') /\ r = match x with Ok b => Ok (Contents b) | Err e => Err e end).
  { unfold bind, ret in Hr. destruct (qcow_read n off q) as [[b|e] q1]; injection Hr as <- <-; by eexists. }
  destruct Hx as (x & Hx & ->). clear Hr. destruct s as [g|].
  - destruct Hs as (Hse & Hd & Hg & Hz). destruct (Z.le_gt_cases 0 off) as [Ho|Ho].
    + destruct (read_held _ _ _ _ _ _ _ (settled_held q Hse Hd) Ho Hn Hx) as (Hh & _ & _ & _ & _ & Hb).
      apply (held_shows _ _ _ size) in Hh as (K1 & K2 & K3 & K4); [|done]. exists (Some g). split.
      * destruct x as [b|e]; [|by constructor]. destruct (Hb b eq_refl) as (B1 & B2 & B3). constructor. constructor; try done.
        -- by split; [|lia].
        -- intros i Hi. rewrite B2 by done. unfold slice. apply Hg.
      * split_and!; [done|done| |done]. by etrans.
    + unfold qcow_read in Hx. rewrite (bind_run get_q _ q q q) in Hx by done. unfold outside in Hx.
      rewrite (proj2 (Z.ltb_lt off 0)) in Hx by lia. injection Hx as <- <-. exists (Some g). split; [by constructor|done].
  - exists None. split; [apply step_unchecked; by intros []|]. destruct (reading_read _ _ _ _ _ Hx) as (f & p & h & ->). exact Hs.
Qed.
Lemma serve_write size b n off q r q' s : 0 <= n -> shows size q s -> serve (Write b n off) q = (r, q') ->
  exists s', cow_step size s (Write b n off) r s' /\ shows size q' s'.
Proof.
  intros Hn Hs Hr. cbn [serve] in Hr. change (bk_write b n off) with (qcow_write (P:=P) b n off) in Hr.
  assert (Hx : exists x, qcow_write b n off q = (x, q') /\ r = match x with Ok _ => Ok Nothing | Err e => Err e end).
  { unfold bind, ret in Hr. destruct (qcow_write b n off q) as [[[]|e] q1]; injection Hr as <- <-; by eexists. }
  destruct Hx as (x & Hx & ->). clear Hr. destruct s as [g|].
  - destruct Hs as (Hse & Hd & Hg & Hz).
    destruct (qcow_write_run b n off q x q' Hse Hd Hn Hx) as [(-> & H1 & H2 & Hh)|[[H1 Hh]|[H1 H2]]].
    + exists (Some (blit (guest q) off (to_bytes b) n)). split; [|by apply (held_shows _ q)]. do 2 constructor; [split; lia|by rewrite Hg].
    + destruct x as [|e]; [done|]. exists (Some (guest q)). split; [by constructor|by apply (held_shows _ q)].
    + destruct x as [|e]; [done|]. destruct (Z.eq_dec n 0) as [->|Hne]; [|exists None; split; [by constructor|done]].
      (* a write of nothing is refused before anything happens *)
      unfold qcow_write in Hx. rewrite (bind_run get_q _ q q q) in Hx by done.
      exists (Some g). split; [by constructor|].
      destruct (negb _); [by injection Hx as _ <-|]. destruct (outside _ _ _); [by injection Hx as _ <-|done].
  - destruct (Z.eq_dec n 0) as [->|Hne].
    + exists None. split; [apply step_unchecked; intros H; by apply H|]. unfold qcow_write in Hx. rewrite (bind_run get_q _ q q q) in Hx by done.
      destruct (negb _); [by injection Hx as _ <-|]. destruct (outside _ _ _); by injection Hx as _ <-.
    + apply qcow_write_failed in Hx as [H1 H2]; [|done|done]. destruct x as [|e]; [done|]. exists None. split; [by constructor|done].
Qed.
Lemma serve_sync size q r q' s : shows size q s -> serve Sync q = (r, q') ->
  exists s', cow_step size s Sync r s' /\ shows size q' s'.
Proof.
  intros Hs Hr. cbn [serve] in Hr. change bk_fsync with (qcow_sync (P:=P)) in Hr.
  assert (Hx : exists x, qcow_sync q = (x, q') /\ r = match x with Ok _ => Ok Nothing | Err e => Err e end).
  { unfold bind, ret in Hr. destruct (qcow_sync q) as [[[]|e] q1]; injection Hr as <- <-; by eexists. }
  destruct Hx as (x & Hx & ->). clear Hr. destruct s as [g|].
  - destruct Hs as (Hse & Hd & Hg & Hz). destruct (qcow_sync_run q x q' Hse Hd Hx) as [[-> Hh]|[H1 H2]].
    + exists (Some (guest q)). split; [|by apply (held_shows _ q)]. by do 2 constructor.
    + destruct x as [|e]; [done|]. exists None. split; [by constructor|done].
  - rewrite qcow_sync_failed in Hx by done. injection Hx as <- <-. exists None. split; [by constructor|done].
Qed.
Lemma serve_all_shows size qs : forall q rs q' s, Forall sized qs -> shows size q s -> serve_all qs q = (rs, q') ->
  exists s', cow_run size s qs rs s' /\ shows size q' s'.
Proof.
  induction qs as [|r qs IH]; intros q rs q' s Hq Hs Hr; cbn [serve_all] in Hr.
  { injection Hr as <- <-. exists s. by split; [constructor|]. }
  apply Forall_cons in Hq as [H1 Hq]. destruct (serve r q) as [x q1] eqn:E1. destruct (serve_all qs q1) as [xs q2] eqn:E2.
  injection Hr as <- <-.
  assert (Hstep : exists s1, cow_step size s r x s1 /\ shows size q1 s1).
  { destruct r as [n off|b n off|]; [by apply (serve_read size n off q)|by apply (serve_write size b n off q)|by apply (serve_sync size q)]. }
  destruct Hstep as (s1 & Hstep & Hs1). destruct (IH _ _ _ _ Hq Hs1 E2) as (s' & Hrun & Hs'). exists s'. split; [by econstructor|done].
Qed.
End opened.

(** ** From the host's files *)
Lemma qcow_open_settled m host path writable raw ancestors (q : qcow (chain m)) :
  host_ok host -> qcow_open (S m) host path writable raw ancestors = Ok q -> q_raw q = false -> settled q /\ disk_ok q.
Proof.
  intros Hh Ho Hraw. pose proof Ho as Hi. apply (qcow_open_ok (S m)) in Hi as [Hi _]; [|done]. change (image_ok q) in Hi.
  split; [|by apply image_disk_ok]. cbn [qcow_open] in Ho. destruct (host path writable) as [src|] eqn:Es; [|done].
  assert (Hrest : forall h op, (let (rc, q) := qcow_load path raw op (fresh_qcow src writable h) in
      match rc with Ok _ => Ok q | Err e => Err e end) = Ok q -> settled q).
  { intros h op H. destruct (qcow_load path raw op _) as [[[]|e] q1] eqn:El in H; [|done]. injection H as <-.
    eapply qcow_load_settled; [|exact El|done]. by eapply Hh. }
  destruct (so_heap src) as [|[|] h]; [| |done];
    (destruct (negb _) in Ho; [done|]; destruct (bool_decide _) in Ho; [done|]; by apply Hrest in Ho).
Qed.
Lemma qcow2_open_inv host path writable (q : qcow (chain 31)) : qcow2_open host path writable = Ok q ->
  qcow_open (S 31) host path writable false [] = Ok q /\ q_raw q = false.
Proof.
  unfold qcow2_open. change QCOW_MAX_DEPTH with (S 31). generalize (qcow_open (S 31) host path writable false []).
  intros [q1|e]; [|done]. cbn [size_and_raw snd]. destruct (q_raw q1) eqn:E; [done|]. by intros [= ->].
Qed.

(** ** Property *)

(** C20. A QCOW2 image that has been opened is a disk that can be written, and that can break.
  Reads, writes and syncs are served as by an array of bytes of the image's size -- a write
  replaces its range and nothing else, through copy on write over any chain of backing files --
  or are refused without effect.  A write or sync that fails on the way breaks the image, and
  from then on every write and sync is refused.  While it is not broken, every host cluster
  has exactly as many references as the tables in the file give it, and every entry's copied
  flag says whether it is the only one. *)
Theorem qcow2_requests_refine host path writable (q q' : qcow (chain 31)) qs rs
    (Hhost : host_ok host) (Hopen : qcow2_open host path writable = Ok q)
    (Hsized : Forall sized qs) (Hrun : serve_all qs q = (rs, q')) :
  exists s, cow_run (q_size q) (Some (guest q)) qs rs s /\
    match s with
    | Some b => guest q' ≡ b /\ q_size q' = q_size q /\
        (forall n, 0 <= n < q_host_count q' -> q_refs q' n = uses n (references q')) /\
        Forall (good_entry q') (entries q')
    | None => q_failed q' = true
    end.
Proof.
  apply qcow2_open_inv in Hopen as [Ho Hraw]. apply qcow_open_settled in Ho as [Hs Hd]; [|done|done].
  destruct (serve_all_shows (q_size q) qs q rs q' (Some (guest q)) Hsized) as (s & Hr & Hq); [done|done|].
  exists s. split; [done|]. destruct s as [b|]; [|done]. destruct Hq as (Hs' & Hd' & Hg & Hz).
  split_and!; [done|done| |].
  - intros n Hn. destruct Hs' as [S T _]. destruct (shape_cs _ S) as (Hcs & _), (sh_sizes _ S) as (H1 & H2 & _).
    rewrite uses_references by lia. rewrite (ta_refs _ _ T n Hn). unfold none. lia.
  - apply (io_tables _ (settled_image _ Hs' Hd')). apply Hd'.
Qed.

(** C21. Writing to a QCOW2 image ends.  Both loops of a write stop by themselves before the
  bounds of the model do: the loop over the clusters of the range gives the same with any
  more fuel, and the loop that provides refcount blocks for the blocks it adds itself never
  uses up its rounds, from any state with the invariant that every step of a write keeps
  ([good]), because every round that asks for another one has added a cluster and an image
  has at most 2^24 of them. *)
Theorem qcow2_writes_terminate host path writable (q q' : qcow (chain 31)) qs rs b n off
    (Hhost : host_ok host) (Hopen : qcow2_open host path writable = Ok q)
    (Hsized : Forall sized qs) (Hrun : serve_all qs q = (rs, q')) (Hgood : q_failed q' = false)
    (Hinside : 0 <= off /\ 0 <= n /\ off + n <= q_size q') :
  (forall fuel, (transfer_fuel q' n <= fuel)%nat ->
     write_loop fuel b n off q' = write_loop (transfer_fuel q' n) b n off q') /\
  good none q' /\
  (forall extra pending q1 q2, good extra q1 -> 0 <= pending ->
     rounds refcount_rounds (refcount_round (P:=chain 31) pending) q1 <> (Ok false, q2)).
Proof.
  apply qcow2_open_inv in Hopen as [Ho Hraw]. apply qcow_open_settled in Ho as [Hs Hd]; [|done|done].
  destruct (serve_all_shows (q_size q) qs q rs q' (Some (guest q)) Hsized) as (s & _ & Hq); [done|done|].
  destruct s as [g|]; [|change (q_failed q' = true) in Hq; by rewrite Hgood in Hq]. destruct Hq as (Hs' & Hd' & _). destruct (shape_cs _ (se_shape _ Hs')) as (Hcs & _).
  split_and!; [|split; apply Hs'|apply refcount_rounds_enough].
  intros fuel Hf. apply cow_loop_fuel; try done; try lia. unfold transfer_fuel.
  pose proof (blocks_left_fuel (q_cluster_size q') n off ltac:(lia) ltac:(lia)).
  pose proof (Z.div_pos n (q_cluster_size q') ltac:(lia) ltac:(lia)). lia.
Qed.

(** ** The small chain, opened for writing *)
Definition small_requests : list request :=
  [Write (fun i => 65 + i) 4 598; Read 6 597; Sync; Write zeros 1 1000].
Definition small_disk : qcow (chain 31) :=
  match qcow2_open small_host [47; 111] true return qcow (chain 31) with
  | Ok q => q
  | Err _ => fresh_qcow small_source false []
  end.
Definition small_run : list (result response) * qcow (chain 31) := serve_all small_requests small_disk.
Lemma small_opens_writable : qcow2_open small_host [47; 111] true = Ok small_disk.
Proof.
  assert (Hok : is_ok (qcow2_open small_host [47; 111] true) = true) by (vm_compute; reflexivity).
  unfold small_disk. revert Hok. generalize (qcow2_open small_host [47; 111] true). by intros [q|e].
Qed.
Lemma qcow2_requests_refine_witness :
  exists s, cow_run (q_size small_disk) (Some (guest small_disk)) small_requests (fst small_run) s /\
    match s with
    | Some b => guest (snd small_run) ≡ b /\ q_size (snd small_run) = q_size small_disk /\
        (forall n, 0 <= n < q_host_count (snd small_run) -> q_refs (snd small_run) n = uses n (references (snd small_run))) /\
        Forall (good_entry (snd small_run)) (entries (snd small_run))
    | None => q_failed (snd small_run) = true
    end.
Proof.
  apply (qcow2_requests_refine small_host [47; 111] true).
  - apply small_host_ok.
  - exact small_opens_writable.
  - repeat (apply List.Forall_cons; [cbn; lia|]). apply List.Forall_nil.
  - unfold small_run. apply surjective_pairing.
Defined.
Example small_run_done : map (@is_ok response) (fst small_run) = [true; true; true; false] /\
  q_failed (snd small_run) = false /\ q_host_count (snd small_run) = 6 /\
  map (guest (snd small_run)) [597; 598; 599; 600; 601; 602] = [7; 65; 66; 67; 68; 0].
Proof. vm_compute. split_and!; reflexivity. Qed.
Lemma qcow2_writes_terminate_witness :
  (forall fuel, (transfer_fuel (snd small_run) 4 <= fuel)%nat ->
     write_loop fuel zeros 4 510 (snd small_run) = write_loop (transfer_fuel (snd small_run) 4) zeros 4 510 (snd small_run)) /\
  good none (snd small_run) /\
  (forall extra pending q1 q2, good extra q1 -> 0 <= pending ->
     rounds refcount_rounds (refcount_round (P:=chain 31) pending) q1 <> (Ok false, q2)).
Proof.
  apply (qcow2_writes_terminate small_host [47; 111] true small_disk (snd small_run) small_requests (fst small_run)).
  - apply small_host_ok.
  - exact small_opens_writable.
  - repeat (apply List.Forall_cons; [cbn; lia|]). apply List.Forall_nil.
  - unfold small_run. apply surjective_pairing.
  - vm_compute. reflexivity.
  - assert (E : q_size (snd small_run) = 1000) by (vm_compute; reflexivity). rewrite E. lia.
Defined.
