(* ===== verification/Lookup.v ===== *)
(** * What a path lookup means

    [resolves] is the name space as a relation on directory contents: one rule per
    step, relative symbolic links resolved in the directory that holds them.  The
    code instead starts over from the root with a rewritten string; the refinement
    theorem says that both agree, outcome by outcome. *)
From S2P Require Import Prelude.
From S2P Require Import Bytes.
From S2P Require Import Backend.
From S2P Require Import Superblock.
From S2P Require Import Image.
From S2P Require Import Inode.
From S2P Require Import BlockMap.
From S2P Require Import BlockLookup.
From S2P Require Import FileIO.
From S2P Require Import Dirent.
From S2P Require Import Directory.
From S2P Require Import Node.
From S2P Require Import Path.

(** ** The abstract name space *)
Definition inode_at (img : image) (v : buf) (no : Z) : inode :=
  decode_inode (slice v (inode_offset (sb img) (slice_base img) no)).
(** The target of a symbolic link, as far as the lookup buffer takes it. *)
Definition link_text (img : image) (v : buf) (ino : inode) : name :=
  let (n, raw) := decode_inline_symlink ino NEXTUFS_MAX_PATH_LEN in
  if n =? 0
  then upto_nul (bytes_at (file_byte img v ino) 0
                   (Z.max 0 (Z.min (i_size ino) (NEXTUFS_MAX_PATH_LEN - 1))))
  else upto_nul (bytes_at raw 0 n).
Definition joined (target rest : name) : name :=
  match rest with [] => target | _ => target ++ slash :: rest end.
Definition absolute (target : name) : bool :=
  match target with c :: _ => c =? slash | [] => false end.

Section resolves.
Variables (img : image) (follow : bool) (ctx : option write_ctx) (v : buf).
Local Abbreviation at_ := (inode_at img v).

Inductive resolves : nat -> Z -> list (name * option name) -> result Z -> Prop :=
  | res_done links cur : resolves links cur [] (Ok cur)
  | res_skip links cur c l r : resolves links cur l r -> resolves links cur (([], c) :: l) r
  | res_not_dir links cur a c l : a <> [] -> is_dir (at_ cur) = false ->
      resolves links cur ((a, c) :: l) (Err ENOTDIR)
  | res_denied links cur a c l e : a <> [] -> is_dir (at_ cur) = true ->
      search_allowed ctx (at_ cur) = Err e -> resolves links cur ((a, c) :: l) (Err e)
  | res_missing links cur a c l : a <> [] -> is_dir (at_ cur) = true ->
      search_allowed ctx (at_ cur) = Ok tt -> dir_find img v (at_ cur) a = 0 ->
      resolves links cur ((a, c) :: l) (Err ENOENT)
  | res_enter links cur a c l r (next := dir_find img v (at_ cur) a) :
      a <> [] -> is_dir (at_ cur) = true -> search_allowed ctx (at_ cur) = Ok tt ->
      next <> 0 -> followed follow (at_ next) c = false ->
      resolves links next l r -> resolves links cur ((a, c) :: l) r
  | res_link links cur a c l r (next := dir_find img v (at_ cur) a)
      (text := link_text img v (at_ next)) :
      a <> [] -> is_dir (at_ cur) = true -> search_allowed ctx (at_ cur) = Ok tt ->
      next <> 0 -> followed follow (at_ next) c = true ->
      resolves links (if absolute text then NEXTUFS_ROOT_INODE else cur)
        (segments (joined text (remainder_of c))) r ->
      resolves (S links) cur ((a, c) :: l) r
  | res_loop cur a c l (next := dir_find img v (at_ cur) a) :
      a <> [] -> is_dir (at_ cur) = true -> search_allowed ctx (at_ cur) = Ok tt ->
      next <> 0 -> followed follow (at_ next) c = true ->
      resolves O cur ((a, c) :: l) (Err ELOOP).

(** Every path has at most one outcome. *)
Lemma resolves_functional links cur l r1 : resolves links cur l r1 ->
  forall r2, resolves links cur l r2 -> r1 = r2.
Proof.
  induction 1; intros r2 Hr2; inversion Hr2; subst; try done; try congruence; eauto.
  all: exfalso; repeat match goal with x := _ |- _ => subst x end; congruence.
Qed.
End resolves.

(** ** Strings *)
Lemma segments_cons_name a : existsb (Z.eqb slash) a = false -> forall t,
  segments (a ++ slash :: t) = (a, Some t) :: segments t.
Proof.
  induction a as [|c a IH]; cbn [existsb app segments]; intros H t.
  - by rewrite Z.eqb_refl.
  - apply orb_false_iff in H as [Hc Ha]. rewrite Z.eqb_sym in Hc. rewrite Hc, IH by done. done.
Qed.
Lemma segments_cases s : exists a c l, segments s = (a, c) :: l /\
  existsb (Z.eqb slash) a = false /\ (c = None -> l = []) /\ (forall t, c = Some t -> l = segments t).
Proof.
  induction s as [|x s (a & c & l & Hs & Ha & Hn & Ht)]; cbn [segments].
  - exists [], None, []. by split_and!.
  - destruct (Z.eqb_spec x slash) as [->|Hx].
    + exists [], (Some s), (segments s). split_and!; try done. intros t [= ->]. done.
    + rewrite Hs. exists (x :: a), c, l. split_and!; try done. cbn [existsb].
      destruct (Z.eqb_spec slash x); [congruence|done].
Qed.

Lemma strlen_nonneg s : 0 <= strlen s.
Proof. unfold strlen. lia. Qed.
Lemma fits_ok s t : fits s = Ok t -> t = s.
Proof. unfold fits. case_match; congruence. Qed.
Lemma fits_err s e : fits s = Err e -> e = ENAMETOOLONG.
Proof. unfold fits. case_match; congruence. Qed.
Lemma resolves_skip_slashes img follow ctx v links cur s r :
  resolves img follow ctx v links cur (segments (skip_slashes s)) r ->
  resolves img follow ctx v links cur (segments s) r.
Proof.
  induction s as [|c s IH]; cbn [skip_slashes]; [done|]. destruct (Z.eqb_spec c slash) as [->|Hc]; [|done].
  intros Hr. cbn [segments]. rewrite Z.eqb_refl. apply res_skip. by apply IH.
Qed.

(** The components walked so far, and the string the code keeps for them. *)
Definition flat (comps : list name) : name := concat (map (cons slash) comps).
Definition prefix_of (comps : list name) : name :=
  match comps with [] => [slash] | _ => flat comps end.
Lemma flat_snoc comps a : flat (comps ++ [a]) = flat comps ++ slash :: a.
Proof. unfold flat. rewrite map_app, concat_app. cbn [map concat]. by rewrite app_nil_r. Qed.
Lemma append_prefix comps a p : Forall (fun a => a <> []) comps ->
  append_path_component (prefix_of comps) a = Ok p -> p = prefix_of (comps ++ [a]).
Proof.
  intros Hne H. unfold append_path_component in H. apply fits_ok in H as ->.
  destruct comps as [|b comps].
  { rewrite bool_decide_eq_true_2 by done. cbn. unfold flat. cbn. by rewrite app_nil_r. }
  rewrite bool_decide_eq_false_2; [rewrite bool_decide_eq_false_2 by done|].
  - change (prefix_of ((b :: comps) ++ [a])) with (flat ((b :: comps) ++ [a])).
    by rewrite flat_snoc.
  - apply Forall_cons in Hne as [Hb _]. cbn. by destruct b.
Qed.

Section plain.
Variables (img : image) (follow : bool) (ctx : option write_ctx) (v : buf).
Local Abbreviation at_ := (inode_at img v).

Fixpoint plain (x : Z) (comps : list name) (y : Z) : Prop :=
  match comps with
  | [] => x = y
  | a :: comps =>
      a <> [] /\ existsb (Z.eqb slash) a = false /\ is_dir (at_ x) = true /\
      search_allowed ctx (at_ x) = Ok tt /\ dir_find img v (at_ x) a <> 0 /\
      is_lnk (at_ (dir_find img v (at_ x) a)) = false /\
      plain (dir_find img v (at_ x) a) comps y
  end.
Lemma plain_names x comps y : plain x comps y -> Forall (fun a => a <> []) comps.
Proof.
  revert x. induction comps as [|a comps IH]; intros x; cbn [plain]; [done|].
  intros (Ha & _ & _ & _ & _ & _ & Hp). constructor; [done|by eapply IH].
Qed.
Lemma plain_snoc x comps y a : plain x comps y ->
  a <> [] -> existsb (Z.eqb slash) a = false -> is_dir (at_ y) = true ->
  search_allowed ctx (at_ y) = Ok tt -> dir_find img v (at_ y) a <> 0 ->
  is_lnk (at_ (dir_find img v (at_ y) a)) = false ->
  plain x (comps ++ [a]) (dir_find img v (at_ y) a).
Proof.
  revert x. induction comps as [|b comps IH]; intros x; cbn [plain app].
  - intros ->. tauto.
  - intros (? & ? & ? & ? & ? & ? & Hp) ??????. split_and!; try done. by apply IH.
Qed.

Local Abbreviation res := (resolves img follow ctx v).
Lemma res_skip_inv links cur c l r : res links cur (([], c) :: l) r -> res links cur l r.
Proof. intros H. inversion H; subst; done. Qed.
Lemma unprefix comps : forall links x y s r, plain x comps y ->
  res links x (segments (flat comps ++ slash :: s)) r -> res links y (segments s) r.
Proof.
  induction comps as [|a comps IH]; intros links x y s r.
  - cbn [plain flat map concat app segments]. rewrite Z.eqb_refl. intros ->. apply res_skip_inv.
  - cbn [plain]. intros (Ha & Hsl & Hd & Hok & Hnz & Hlnk & Hp) Hr.
    assert (Heq : exists t, flat (a :: comps) ++ slash :: s = slash :: a ++ slash :: t /\
      flat comps ++ slash :: s = slash :: t).
    { unfold flat. cbn [map concat]. destruct comps as [|b comps].
      - exists s. cbn. by rewrite app_nil_r.
      - cbn [map concat]. eexists. cbn. rewrite <- !app_assoc. cbn. by rewrite <- !app_assoc. }
    destruct Heq as (t & H1 & H2). rewrite H1 in Hr. cbn [segments] in Hr.
    rewrite Z.eqb_refl in Hr. apply res_skip_inv in Hr. rewrite segments_cons_name in Hr by done.
    assert (Hf : followed follow (at_ (dir_find img v (at_ x) a)) (Some t) = false)
      by (unfold followed; by rewrite Hlnk).
    apply (IH _ _ _ _ _ Hp). rewrite H2. cbn [segments]. rewrite Z.eqb_refl. apply res_skip.
    inversion Hr; subst; try done;
      repeat match goal with x := _ |- _ => subst x end; try done; congruence.
Qed.
Lemma unprefix_prefix comps links y s r : plain NEXTUFS_ROOT_INODE comps y ->
  res links NEXTUFS_ROOT_INODE (segments (prefix_of comps ++ slash :: s)) r ->
  res links y (segments s) r.
Proof.
  destruct comps as [|a comps]; [|by apply unprefix].
  cbn [plain prefix_of app segments]. rewrite Z.eqb_refl. intros <- Hr. by do 2 apply res_skip_inv in Hr.
Qed.
Lemma follow_path_joined prefix text rem p : follow_path prefix text rem = Ok p ->
  p = if absolute text then joined text rem else prefix ++ slash :: joined text rem.
Proof.
  unfold follow_path, absolute, joined. destruct text as [|c text].
  - intros ->%fits_ok. by destruct rem.
  - destruct (c =? slash); intros ->%fits_ok; destruct rem; by rewrite ?app_nil_r.
Qed.
Lemma follow_path_err prefix text rem e : follow_path prefix text rem = Err e -> e = ENAMETOOLONG.
Proof. unfold follow_path. repeat case_match; apply fits_err. Qed.
End plain.

(** ** Reading the image *)
Section reading.
Context {C : Type} `{HB : Backend C, HS : !BackendSpec C}.
Variables (img : image) (v : buf).
Hypothesis Hbs : 4 <= block_size (sb img).
Hypothesis Hv : wf_buf v.

(** A world that shows [v]. *)
Definition shows (w : world C) : Prop := bk_inv (w_ctx w) /\ view w ≡ v.
Lemma quiet_shows w w' : quiet w w' -> shows w -> shows w'.
Proof. intros Hq [Hi He]. split; [by apply Hq|]. etrans; [by apply Hq|done]. Qed.

Lemma inode_read_at no (w w' : world C) ino off : shows w ->
  inode_read img no w = (Ok (ino, off), w') ->
  ino = inode_at img v no /\ inode_wf ino /\ i_size ino <= INT32_MAX /\
  no < cg_count (sb img) * inodes_per_group (sb img) /\ shows w'.
Proof.
  intros Hs Hr. pose proof (inode_read_quiet img no _ _ _ Hr) as Hq.
  apply inode_read_ok in Hr as (-> & _ & _ & Hno & -> & Hwf & Hsz); [|apply Hs].
  assert (He : decode_inode (slice (view w) (inode_offset (sb img) (slice_base img) no)) =
    inode_at img v no).
  { apply decode_inode_eq_on. intros i _. apply (proj2 Hs). }
  rewrite He in *. split_and!; try done. by eapply quiet_shows.
Qed.

Lemma find_name_at ino nm (w w' : world C) x : shows w -> inode_wf ino ->
  i_size ino <= INT32_MAX -> find_name_in_directory img ino nm w = (Ok x, w') ->
  x = dir_find img v ino nm /\ shows w'.
Proof.
  intros Hs Hwf Hsz Hr. pose proof (iw_size _ Hwf). split.
  - rewrite (find_name_value img Hbs ino nm w w' x) by (done || lia || apply Hs).
    apply (dir_find_equiv img Hbs); [done|apply Hs|lia].
  - eapply quiet_shows; [|done]. by eapply find_name_quiet.
Qed.

Lemma read_link_at ino (w w' : world C) t : shows w -> inode_wf ino ->
  read_link_target img ino w = (Ok t, w') -> t = link_text img v ino /\ shows w'.
Proof.
  intros Hs Hwf Hr. unfold read_link_target in Hr.
  apply bind_ok in Hr as ([out got] & w1 & Hl & Hr). injection Hr as <- <-.
  apply map_err_ok in Hl. split; [|by eapply quiet_shows; [eapply inode_readlink_quiet|]].
  unfold inode_readlink in Hl. destruct (_ || _) in Hl; [by inv_step Hl|].
  unfold link_text. destruct (decode_inline_symlink ino NEXTUFS_MAX_PATH_LEN) as [n raw] eqn:Ed.
  destruct (Z.eqb_spec n 0) as [->|Hn]; cbn [negb] in Hl.
  - apply map_err_ok in Hl. pose proof (iw_size _ Hwf).
    apply (inode_read_data_ok img Hbs) in Hl as [-> Hb]; [|apply Hs|lia|done|done].
    unfold NEXTUFS_MAX_PATH_LEN in *. rewrite Z.sub_0_r. f_equal. apply bytes_at_eq.
    intros i Hi. rewrite Hb by lia. rewrite (file_byte_equiv img (view w) v) by apply Hs.
    f_equal; lia.
  - by injection Hl as <- <- _.
Qed.
End reading.

(** ** The refinement *)
Definition resource (e : errno) : bool :=
  match e with EIO | ENOMEM | ENAMETOOLONG => true | _ => false end.

Section refinement.
Context {C : Type} `{HB : Backend C, HS : !BackendSpec C}.
Variables (img : image) (follow : bool) (ctx : option write_ctx) (v : buf).
Hypothesis Hbs : 4 <= block_size (sb img).
Hypothesis Hv : wf_buf v.
Local Abbreviation at_ := (inode_at img v).
Local Abbreviation shows := (shows v).

Definition loaded (f : found) : Prop :=
  fd_inode f = at_ (fd_no f) /\ inode_wf (fd_inode f) /\ i_size (fd_inode f) <= INT32_MAX /\
  0 <= fd_no f < cg_count (sb img) * inodes_per_group (sb img).
Definition outcome (links : nat) (cur : Z) (l : list (name * option name)) (r : result found)
    : Prop :=
  match r with
  | Ok f => loaded f /\ resolves img follow ctx v links cur l (Ok (fd_no f))
  | Err e => resource e = true \/ resolves img follow ctx v links cur l (Err e)
  end.
(** What the recursive call does, [depth] links still allowed before it. *)
Definition answers (depth : nat) (again : name -> M (world C) found) : Prop :=
  forall p w r w', shows w -> again p w = (r, w') ->
    match depth with
    | O => r = Err ELOOP
    | S links => outcome links NEXTUFS_ROOT_INODE (segments p) r
    end.

Lemma map_err_run {A} e (m : M (world C) A) w r w' : map_err e m w = (r, w') ->
  (exists a, r = Ok a /\ m w = (Ok a, w')) \/ r = Err e.
Proof. unfold map_err. destruct (m w) as [[a|x] w1]; intros [= <- <-]; eauto. Qed.

(** A followed link: the rewritten path means the same as going on from here. *)
Lemma follow_ok links again cur a c l comps ino w r w' :
  answers links again -> shows w ->
  let next := dir_find img v (at_ cur) a in
  a <> [] -> is_dir (at_ cur) = true -> search_allowed ctx (at_ cur) = Ok tt ->
  next <> 0 -> ino = at_ next -> inode_wf ino -> followed follow ino c = true ->
  plain img ctx v NEXTUFS_ROOT_INODE comps cur ->
  (let! link_target := read_link_target img ino in
   let! new_path := of_result (follow_path (prefix_of comps) link_target (remainder_of c)) in
   again new_path) w = (r, w') ->
  outcome links cur ((a, c) :: l) r.
Proof.
  intros Hag Hs next Ha Hd Hok Hnz Hino Hwf Hf Hp Hr.
  apply bind_inv in Hr as [(t & w1 & H1 & Hr)|(e & H1 & ->)].
  2: { unfold read_link_target in H1. apply bind_inv in H1 as [([??] & ? & _ & [=])|(x & H1 & [= ->])].
    apply map_err_run in H1 as [(? & [=] & _)|[= ->]]. by left. }
  apply (read_link_at img v Hbs) in H1 as [-> Hs1]; [|done..]. subst ino.
  apply bind_inv in Hr as [(p & w2 & H2 & Hr)|(e & H2 & ->)];
    unfold of_result in H2; injection H2 as H2 <-.
  2: { apply follow_path_err in H2 as ->. by left. }
  apply follow_path_joined in H2. apply Hag in Hr; [|done].
  destruct links as [|links]; [subst r; right; by apply res_loop|].
  assert (Hlift : forall x, resolves img follow ctx v links NEXTUFS_ROOT_INODE (segments p) x ->
    resolves img follow ctx v (S links) cur ((a, c) :: l) x).
  { intros x Hx. apply res_link; try done. fold next. destruct (absolute _); subst p; [done|].
    by eapply unprefix_prefix. }
  destruct r as [f|e]; cbn [outcome] in *; [|destruct Hr; auto].
  destruct Hr. split; auto.
Qed.

Lemma walk_ok links again : answers links again -> forall l cur prefix comps w r w',
  shows w -> loaded cur ->
  (l = [] \/ exists s, l = segments s) ->
  (plain img ctx v NEXTUFS_ROOT_INODE comps (fd_no cur) /\ prefix = prefix_of comps \/
   Forall (fun x => fst x = []) l) ->
  walk img follow ctx again l cur prefix w = (r, w') ->
  outcome links (fd_no cur) l r.
Proof.
  intros Hag. induction l as [|[a c] l IH]; intros cur prefix comps w r w' Hs Hld Htl Hpre Hr.
  { injection Hr as <- <-. split; [done|]. apply res_done. }
  destruct Htl as [|[s Hsg]]; [done|].
  destruct (segments_cases s) as (a' & c' & l' & E & Hsl & Hnone & Hsome).
  rewrite <- Hsg in E. injection E as <- <- <-.
  assert (Htl : l = [] \/ exists s, l = segments s).
  { destruct c as [t|]; [right; exists t; auto|left; auto]. }
  cbn [walk] in Hr. destruct a as [|a0 a1] eqn:Ea.
  { apply (IH cur prefix comps) in Hr; try done.
    - destruct r; cbn [outcome] in *; [destruct Hr; split; [done|by apply res_skip]|].
      destruct Hr; [by left|right; by apply res_skip].
    - destruct Hpre as [?|Hall]; [by left|right]. by inversion Hall. }
  rewrite <- Ea in *. assert (Ha : a <> []) by by rewrite Ea. clear Ea a0 a1.
  destruct Hpre as [[Hp ->]|Hall]; [|by inversion Hall].
  destruct Hld as (Hat & Hwf & Hsz & Hrange). rewrite Hat in Hr.
  unfold bind at 1, fail_if at 1 in Hr. destruct (is_dir (at_ (fd_no cur))) eqn:Hd; cbn [negb] in Hr.
  2: { injection Hr as <- <-. right. by apply res_not_dir. }
  unfold ret at 1 in Hr. cbn beta iota in Hr.
  unfold bind at 1, of_result at 1 in Hr.
  destruct (search_allowed ctx (at_ (fd_no cur))) as [[]|e] eqn:Hok.
  2: { injection Hr as <- <-. right. by apply res_denied. }
  apply bind_inv in Hr as [(next & w1 & H1 & Hr)|(e & H1 & ->)].
  2: { apply map_err_run in H1 as [(? & [=] & _)|[= ->]]. by left. }
  apply map_err_ok in H1.
  apply (find_name_at img v Hbs Hv) in H1 as [-> Hs1]; [|done|by rewrite <- Hat|by rewrite <- Hat].
  set (next := dir_find _ _ _ _) in *.
  unfold bind at 1, fail_if at 1 in Hr. destruct (Z.eqb_spec next 0) as [Hz|Hnz].
  { injection Hr as <- <-. right. by apply res_missing. }
  unfold ret at 1 in Hr.
  apply bind_inv in Hr as [([ino off] & w2 & H2 & Hr)|(e & H2 & ->)].
  2: { apply map_err_run in H2 as [(? & [=] & _)|[= ->]]. by left. }
  apply map_err_ok, (inode_read_at img v) in H2 as (Hino & Hiwf & Hisz & Hno & Hs2); [|done].
  pose proof (dir_find_nonneg img v (at_ (fd_no cur)) a Hv) as Hnn. fold next in Hnn.
  apply bind_inv in Hr as [(rem & w3 & H3 & Hr)|(e & H3 & ->)];
    unfold of_result in H3; injection H3 as H3 <-.
  2: { apply fits_err in H3 as ->. by left. }
  apply fits_ok in H3 as ->.
  destruct (followed follow ino c) eqn:Hf.
  { by eapply (follow_ok links again (fd_no cur) a c l comps ino). }
  apply bind_inv in Hr as [(p & w4 & H4 & Hr)|(e & H4 & ->)];
    unfold of_result in H4; injection H4 as H4 <-.
  2: { apply fits_err in H4 as ->. by left. }
  assert (Hp' : plain img ctx v NEXTUFS_ROOT_INODE (comps ++ [a]) next /\
                p = prefix_of (comps ++ [a]) \/ Forall (fun x => fst x = []) l).
  { unfold followed in Hf. destruct (is_lnk ino) eqn:El.
    - right. cbn [andb] in Hf. destruct c as [[|]|]; cbn [is_final] in Hf; try done.
      + rewrite (Hsome [] eq_refl). by repeat constructor.
      + by rewrite Hnone.
    - left. rewrite Hino in El. split; [by apply plain_snoc|].
      eapply append_prefix; [|done]. by eapply plain_names. }
  apply (IH (Found next ino off) p (comps ++ [a])) in Hr; try done.
  assert (Hlift : forall x, resolves img follow ctx v links next l x ->
    resolves img follow ctx v links (fd_no cur) ((a, c) :: l) x).
  { intros x Hx. apply res_enter; try done. fold next. by rewrite <- Hino. }
  destruct r; cbn [outcome fd_no] in *; [destruct Hr; auto|]. destruct Hr; auto.
Qed.

Lemma lookup_ok depth : answers depth (lookup_path_recursive img follow ctx depth).
Proof.
  induction depth as [|links IH]; intros p w r w' Hs Hr; cbn [lookup_path_recursive] in Hr.
  { by injection Hr as <- <-. }
  apply bind_inv in Hr as [([ino off] & w1 & H1 & Hr)|(e & H1 & ->)].
  2: { apply map_err_run in H1 as [(? & [=] & _)|[= ->]]. by left. }
  apply map_err_ok, (inode_read_at img v) in H1 as (Hino & Hiwf & Hisz & Hno & Hs1); [|done].
  set (root := Found NEXTUFS_ROOT_INODE ino off) in *.
  assert (Hroot : loaded root) by by split_and!.
  assert (Hlift : forall r, outcome links NEXTUFS_ROOT_INODE (segments (skip_slashes p)) r ->
    outcome links NEXTUFS_ROOT_INODE (segments p) r).
  { intros [f|e]; cbn [outcome]; [intros [? H]; split; [done|]|intros [|H]; [by left|right]];
      by apply resolves_skip_slashes. }
  apply Hlift. destruct (skip_slashes p) as [|x p'] eqn:Ep.
  { injection Hr as <- <-. split; [done|]. apply res_skip, res_done. }
  rewrite <- Ep in *.
  apply bind_inv in Hr as [(u & w2 & H2 & Hr)|(e & H2 & ->)].
  - eapply (walk_ok links _ IH _ root [slash] []); [|done|by eauto|by left|exact Hr].
    eapply quiet_shows; [by eapply malloc_quiet|done].
  - unfold malloc in H2. apply bind_inv in H2 as [(ok & w2 & _ & H2)|(z & H2 & _)]; [|done].
    unfold fail_if in H2. destruct (_ || _); [|done]. injection H2 as <- _. by left.
Qed.
End refinement.

Lemma strrchr_slash_spec s :
  match strrchr_slash s with
  | Some (a, b) => s = a ++ slash :: b /\ existsb (Z.eqb slash) b = false
  | None => existsb (Z.eqb slash) s = false
  end.
Proof.
  induction s as [|c s IH]; cbn [strrchr_slash existsb]; [done|].
  destruct (strrchr_slash s) as [[a b]|].
  - destruct IH as [-> ?]. done.
  - destruct (Z.eqb_spec c slash) as [->|Hc]; [done|].
    destruct (Z.eqb_spec slash c); [congruence|done].
Qed.
Definition ends_in_slash (path : name) : Prop := exists a, path = a ++ [slash].

(** ** Properties *)

(** Splitting a path is exact: on success the name is the last component, not
    empty, without a slash and short enough for its buffer, and parent, slash and name
    make up the path (the root standing for an empty parent); EINVAL is returned only
    for relative paths and paths that end in a slash, ENAMETOOLONG only for components
    that do not fit their buffer. *)
Theorem path_split_correct path parent_size name_size :
  match path_split path parent_size name_size with
  | Ok (parent, nm) =>
      nm <> [] /\ existsb (Z.eqb slash) nm = false /\ strlen nm < name_size /\
      strlen parent < parent_size /\
      (path = parent ++ slash :: nm \/ (parent = [slash] /\ path = slash :: nm))
  | Err EINVAL => head path <> Some slash \/ ends_in_slash path
  | Err ENAMETOOLONG => exists parent nm, path = parent ++ slash :: nm /\
      existsb (Z.eqb slash) nm = false /\
      (name_size <= strlen nm \/ parent_size < Z.max 2 (strlen parent + 1))
  | Err _ => False
  end.
Proof.
  unfold path_split. destruct path as [|c s]; [by left|].
  destruct (Z.eqb_spec c slash) as [->|Hc]; cbn [negb]; [|left; cbn; congruence].
  pose proof (strrchr_slash_spec (slash :: s)) as H.
  destruct (strrchr_slash (slash :: s)) as [[parent nm]|]; [|done].
  destruct H as [Hs Hn]. destruct nm as [|x nm]; [right; by exists parent|].
  destruct (Z.leb_spec name_size (strlen (x :: nm))); [by exists parent, (x :: nm); auto|].
  destruct parent as [|y parent].
  - destruct (Z.ltb_spec parent_size 2).
    + exists [], (x :: nm). split_and!; [done|done|right; lia].
    + split_and!; [done|done|done|change (strlen [slash]) with 1; lia|by right].
  - destruct (Z.ltb_spec parent_size (strlen (y :: parent) + 1)).
    + exists (y :: parent), (x :: nm). split_and!; [done|done|right; lia].
    + split_and!; [done|done|done|lia|by left].
Qed.

(** C15. Path lookup refines the name space: whatever nextufs's lookup answers -- a
    node, ENOENT, ENOTDIR, the refusal of search permission or, after sixteen symbolic
    links, ELOOP -- is the one outcome the relation gives, with the node's inode as it
    is on the image; and a path with an outcome gets that outcome, unless the device,
    memory or the 4096-byte path limit get in the way. *)
Theorem lookup_refines `{HB : Backend C, HS : !BackendSpec C}
    img follow ctx path (w w' : world C) r
    (Hbs : 4 <= block_size (sb img)) (Hinv : bk_inv (w_ctx w))
    (Hrun : lookup_path img follow ctx path w = (r, w')) :
  let outcome_is := resolves img follow ctx (view w) NEXTUFS_MAX_LOOKUP_DEPTH
                      NEXTUFS_ROOT_INODE (segments path) in
  match r with
  | Ok f => outcome_is (Ok (fd_no f)) /\ fd_inode f = inode_at img (view w) (fd_no f)
  | Err e => resource e = true \/ outcome_is (Err e)
  end /\
  forall x, outcome_is x ->
    match r with Ok f => x = Ok (fd_no f) | Err e => resource e = true \/ x = Err e end.
Proof.
  intros outcome_is.
  assert (H : outcome img follow ctx (view w) NEXTUFS_MAX_LOOKUP_DEPTH NEXTUFS_ROOT_INODE
    (segments path) r).
  { by eapply (lookup_ok img follow ctx (view w) Hbs (bk_view_wf _ Hinv)
      (S NEXTUFS_MAX_LOOKUP_DEPTH)). }
  destruct r as [f|e]; cbn [outcome] in H.
  - destruct H as [[Hl _] H]. split; [done|]. intros x Hx.
    by eapply resolves_functional.
  - split; [done|]. intros x Hx. destruct H as [|H]; [by left|right].
    by eapply resolves_functional.
Qed.

(** ** Witness: a symbolic link is followed, a circular one is refused *)
Lemma lookup_refines_witness :
  let run p := lookup_path mini_image true None p tree_world in
  (match fst (run [slash; 108]) with Ok f => fd_no f | Err _ => 0 end = 3 /\
   resolves mini_image true None (view tree_world) 16 2 (segments [slash; 108]) (Ok 3)) /\
  (match fst (run [slash; 111]) with Ok _ => EIO | Err e => e end = ELOOP /\
   resolves mini_image true None (view tree_world) 16 2 (segments [slash; 111]) (Err ELOOP)).
Proof.
  intros run. split.
  - assert (H : match fst (run [slash; 108]) with Ok f => fd_no f | Err _ => 0 end = 3)
      by (vm_compute; reflexivity).
    split; [exact H|].
    destruct (lookup_refines mini_image true None [slash; 108] tree_world
      (snd (run [slash; 108])) (fst (run [slash; 108]))) as [Hr _].
    + discriminate.
    + exact tree_world_inv.
    + apply surjective_pairing.
    + destruct (fst (run [slash; 108])) as [f|e]; [|discriminate H].
      rewrite <- H. exact (proj1 Hr).
  - assert (H : match fst (run [slash; 111]) with Ok _ => EIO | Err e => e end = ELOOP)
      by (vm_compute; reflexivity).
    split; [exact H|].
    destruct (lookup_refines mini_image true None [slash; 111] tree_world
      (snd (run [slash; 111])) (fst (run [slash; 111]))) as [Hr _].
    + discriminate.
    + exact tree_world_inv.
    + apply surjective_pairing.
    + destruct (fst (run [slash; 111])) as [f|e]; [discriminate H|]. subst e.
      destruct Hr as [Hr|Hr]; [discriminate Hr|exact Hr].
Defined.
