(* ===== verification/Label.v ===== *)
(** * NeXT disk labels

    src/src/core/label.c: decoding a label copy, choosing the filesystem slice,
    writing the four copies, validating and patching them.  Offsets are those of the
    label block; the disktab begins at [DT]. *)
From Stdlib Require Import String Ascii.
From S2P Require Import Prelude.
From S2P Require Import Bytes.
From S2P Require Import Backend.
From S2P Require Import Dirent.

Definition str (s : string) : name :=
  map (fun c => Z.of_N (N_of_ascii c)) (list_ascii_of_string s).

Definition DEV_SECTOR_SIZE : Z := 512.
Definition LABEL_COPY_COUNT : Z := 4.
Definition LABEL_COPY_STRIDE : Z := 7680.
Definition LABEL_VALIDATE_SIZE : Z := 0x660.
Definition LABEL_WRITE_SIZE : Z := 0x300.
Definition LABEL_CKSUM_SIZE : Z := 0x230.
Definition LABEL_SECTOR_SIZE : Z := 1024.
Definition LABEL_FRONT_PORCH_BYTES : Z := 160 * 1024.
Definition LABEL_SCAN_LIMIT : Z := 128 * 1024.
Definition LABEL_DECODE_SIZE : Z := 0x1c5a.
Definition LABEL_PART_COUNT : Z := 8.
Definition LABEL_NAME_LEN : Z := 24.
Definition LABEL_FSTYPE_LEN : Z := 8.
Definition DL_V1 : Z := 0x4e655854.
Definition DL_V2 : Z := 0x646c5632.
Definition DL_V3 : Z := 0x646c5633.
Definition DL_V3_CKSUM_OFF : Z := 0x22e.
Definition DL_CKSUM_OFF : Z := 0x1c58.
Definition DT : Z := 0x2c.
Definition DT_SECSIZE_OFF : Z := DT + 0x32.
Definition DT_FRONT_OFF : Z := DT + 0x44.
Definition DT_ROOTPART_OFF : Z := DT + 0x90.
Definition DT_PARTITIONS_OFF : Z := DT + 0x94.
Definition DT_PARTITION_SIZE : Z := 0x40.
Definition PART_SIZE_OFF : Z := 0x03.
Definition PART_BSIZE_OFF : Z := 0x06.
Definition PART_FSIZE_OFF : Z := 0x08.
Definition PART_TYPE_OFF : Z := 0x23.
Definition UNUSED24 : Z := 0xffffff.

(** ** Field access *)
Definition read_be24 (p : buf) (off : Z) : Z :=
  Z.lor (Z.lor (Z.shiftl (p off) 16) (Z.shiftl (p (off + 1)) 8)) (p (off + 2)).
Definition write_be24 (p : buf) (off v : Z) : buf :=
  upd (upd (upd p off (Z.shiftr v 16)) (off + 1) (Z.shiftr v 8)) (off + 2) v.

(** The one's-complement sum of the big-endian words. *)
Definition checksum_step (b : buf) (sum i : Z) : Z :=
  let sum := sum + read_be16 b (2 * i) in if 65535 <? sum then sum - 65535 else sum.
Definition checksum_be16 (b : buf) (size : Z) : Z :=
  w16 (foldl (checksum_step b) 0 (seqZ 0 (size / 2))).

Definition put_string (dst : buf) (off len : Z) (s : name) : buf :=
  let n := if len <=? strlen s then len - 1 else strlen s in
  blit dst off (buf_of s) n.
Definition copy_cstr_field (dst_size : Z) (src : buf) (off src_size : Z) : name :=
  firstn (Z.to_nat (dst_size - 1)) (upto_nul (bytes_at src off src_size)).

(** A byte converted to [char]. *)
Definition schar (z : Z) : Z := if z <? 128 then z else z - 256.

(** ** Decoding *)
Record label_partition := LabelPartition {
  lp_present : bool; base_blocks : Z; size_blocks : Z; lp_block_size : Z;
  lp_frag_size : Z; lp_type : name;
}.
Record disk_label := DiskLabel {
  dl_label_off : Z; dl_version : Z; label_blkno : Z; dl_secsize : Z; dl_front : Z;
  dl_name : name; rootpartition : Z; part : list label_partition;
  dl_checksum : Z; checksum_valid : bool; checksum_present : bool;
}.

Definition label_is_version (version : Z) : bool :=
  (version =? DL_V1) || (version =? DL_V2) || (version =? DL_V3).
Definition part_off (i : Z) : Z := DT_PARTITIONS_OFF + i * DT_PARTITION_SIZE.
Definition all_bytes (b : buf) (off n v : Z) : bool :=
  forallb (fun c => c =? v) (bytes_at b off n).
Definition decode_partition (b : buf) (i : Z) : label_partition :=
  let p := part_off i in
  let base := read_be24 b p in
  let size := read_be24 b (p + PART_SIZE_OFF) in
  let bsize := read_be16 b (p + PART_BSIZE_OFF) in
  let fsize := read_be16 b (p + PART_FSIZE_OFF) in
  let type := copy_cstr_field (LABEL_FSTYPE_LEN + 1) b (p + PART_TYPE_OFF) LABEL_FSTYPE_LEN in
  let present :=
    negb (all_bytes b p DT_PARTITION_SIZE 0) && negb (all_bytes b p DT_PARTITION_SIZE 255) &&
    negb (base =? UNUSED24) && negb (size =? 0) && negb (size =? UNUSED24) &&
    negb (bsize =? 0) && negb (bsize =? 0xffff) && negb (fsize =? 0) && negb (fsize =? 0xffff) &&
    (fsize <=? bsize) && negb (bool_decide (type = [])) in
  LabelPartition present base size bsize fsize type.

(** The bytes under the version 3 checksum, the block number and the sum cleared. *)
Definition checksummed (b : buf) : buf := fill (fill b 0x04 0 4) DL_V3_CKSUM_OFF 0 2.
Definition label_decode (b : buf) (size off : Z) : option disk_label :=
  if size <? LABEL_DECODE_SIZE then None
  else
    let version := read_be32 b 0x00 in
    if negb (label_is_version version) then None
    else
      let blkno := read_be32 b 0x04 in
      let secsize := read_be16 b DT_SECSIZE_OFF in
      let checksum := if version =? DL_V3 then read_be16 b DL_V3_CKSUM_OFF
                      else read_be16 b DL_CKSUM_OFF in
      let valid := (version =? DL_V3) &&
                   (checksum_be16 (checksummed b) LABEL_CKSUM_SIZE =? checksum) in
      let present := negb (checksum =? 0) in
      if (secsize =? 0) || negb (secsize mod DEV_SECTOR_SIZE =? 0) then None
      else if negb (blkno * DEV_SECTOR_SIZE =? w64 off) then None
      else if present && negb valid then None
      else Some (DiskLabel off version blkno secsize (read_be16 b DT_FRONT_OFF)
                   (copy_cstr_field (LABEL_NAME_LEN + 1) b 0x0c LABEL_NAME_LEN)
                   (schar (b DT_ROOTPART_OFF))
                   (map (decode_partition b) (seqZ 0 LABEL_PART_COUNT))
                   checksum valid present).

(** ** Choosing the slice: base and size in bytes *)
Definition no_partition : label_partition := LabelPartition false 0 0 0 0 [].
Definition part_at (dl : disk_label) (i : Z) : label_partition :=
  nth (Z.to_nat i) (part dl) no_partition.
Definition slice_of (dl : disk_label) (p : label_partition) : Z * Z :=
  ((dl_front dl + base_blocks p) * dl_secsize dl, size_blocks p * dl_secsize dl).
Definition usable (p : label_partition) : bool := lp_present p && negb (size_blocks p =? 0).
Definition char_a : Z := 97.
Definition is_rootpart (c : Z) : bool := (char_a <=? c) && (c <? char_a + LABEL_PART_COUNT).
Definition label_pick_slice (dl : disk_label) : option (Z * Z) :=
  let root := rootpartition dl in
  if is_rootpart root && usable (part_at dl (root - char_a))
  then Some (slice_of dl (part_at dl (root - char_a)))
  else
    find_first (fun i =>
      let p := part_at dl i in
      if usable p && bool_decide (lp_type p = str "4.3BSD") then Some (slice_of dl p) else None)
      (seqZ 0 LABEL_PART_COUNT).

(** ** Writing the copies *)
Definition label_body (total_blocks slice_blocks ncyl : Z) (label : name) : buf :=
  let b := zeros in
  let b := write_be32 b 0x00 DL_V3 in
  let b := write_be32 b 0x08 total_blocks in
  let b := put_string b 0x0c 24 label in
  let b := put_string b DT 24 (str "nextufs") in
  let b := put_string b (DT + 0x18) 24 (str "fixed_rw_scsi") in
  let b := write_be16 b DT_SECSIZE_OFF LABEL_SECTOR_SIZE in
  let b := write_be16 b (DT + 0x36) 4 in
  let b := write_be16 b (DT + 0x3a) 32 in
  let b := write_be16 b (DT + 0x3e) ncyl in
  let b := write_be16 b (DT + 0x42) 3600 in
  let b := write_be16 b DT_FRONT_OFF (LABEL_FRONT_PORCH_BYTES / LABEL_SECTOR_SIZE) in
  let b := write_be16 b (DT + 0x46) 0 in
  let b := write_be32 b (DT + 0x56) 32 in
  let b := write_be32 b (DT + 0x5a) 96 in
  let b := put_string b (DT + 0x58) 24 (str "sdmach") in
  let b := put_string b (DT + 0x70) 32 (str "localhost") in
  let b := upd b DT_ROOTPART_OFF 97 in
  let b := upd b (DT + 0x91) 98 in
  let b := fill b DT_PARTITIONS_OFF 255 (LABEL_PART_COUNT * DT_PARTITION_SIZE) in
  let p := DT_PARTITIONS_OFF in
  let b := fill b p 0 DT_PARTITION_SIZE in
  let b := write_be24 b p 0 in
  let b := write_be24 b (p + PART_SIZE_OFF) slice_blocks in
  let b := write_be16 b (p + PART_BSIZE_OFF) 8192 in
  let b := write_be16 b (p + PART_FSIZE_OFF) 1024 in
  let b := upd b (p + 0x0a) 116 in
  let b := write_be16 b (p + 0x0c) 16 in
  let b := write_be16 b (p + 0x0e) 4096 in
  let b := upd b (p + 0x10) 10 in
  let b := upd b (p + 0x11) 1 in
  let b := upd b (p + 0x22) 1 in
  put_string b (p + PART_TYPE_OFF) 8 (str "4.3BSD").
Definition label_copy (off total_blocks slice_blocks ncyl : Z) (label : name) : buf :=
  let b := checksummed (label_body total_blocks slice_blocks ncyl label) in
  let b := write_be16 b DL_V3_CKSUM_OFF (checksum_be16 b LABEL_CKSUM_SIZE) in
  write_be32 b 0x04 (off / DEV_SECTOR_SIZE).
Definition write_label_copy (off total_blocks slice_blocks ncyl : Z) (label : name)
    : M file unit :=
  write_exact_fd (label_copy off total_blocks slice_blocks ncyl label) LABEL_WRITE_SIZE off.
(** The target file is open. *)
Definition label_write_path (image_bytes slice_bytes : Z) (label : name) : M file unit :=
  let total_blocks := w32 (image_bytes / LABEL_SECTOR_SIZE) in
  let slice_blocks := w32 (slice_bytes / LABEL_SECTOR_SIZE) in
  let ncyl := total_blocks / (4 * 32) in
  if (UNUSED24 <? total_blocks) || (UNUSED24 <? slice_blocks) then fail EFBIG
  else if 0xffff <? ncyl then fail EFBIG
  else
    for_each (seqZ 0 LABEL_COPY_COUNT) (fun i =>
      write_label_copy (i * LABEL_COPY_STRIDE) total_blocks slice_blocks ncyl label).

(** ** Validating and patching the copies of an open file *)
Definition label_partition_present (b : buf) (p : Z) : bool :=
  let base := read_be24 b p in
  let size := read_be24 b (p + PART_SIZE_OFF) in
  let bsize := read_be16 b (p + PART_BSIZE_OFF) in
  let fsize := read_be16 b (p + PART_FSIZE_OFF) in
  negb ((base =? UNUSED24) || (size =? 0) || (size =? UNUSED24) ||
        (bsize =? 0) || (bsize =? 0xffff) || (fsize =? 0) || (fsize =? 0xffff) ||
        all_bytes b (p + PART_TYPE_OFF) LABEL_FSTYPE_LEN 0).
(** strcmp with "4.3BSD": the six characters and the terminating zero. *)
Definition is_bsd (b : buf) (p : Z) : bool :=
  bool_decide (bytes_at b (p + PART_TYPE_OFF) 7 = str "4.3BSD" ++ [0]).
Definition is_label_at (b : buf) (label_off : Z) : bool :=
  label_is_version (read_be32 b 0) && (read_be32 b 0x04 * DEV_SECTOR_SIZE =? label_off).
Definition slice_base_of (b : buf) (p : Z) : Z :=
  (read_be16 b DT_FRONT_OFF + read_be24 b p) * read_be16 b DT_SECSIZE_OFF.

(** [true]: this copy names the slice. *)
Definition validate_one_label_copy (label_off slice_base : Z) : M file bool :=
  let! label := read_exact_fd LABEL_VALIDATE_SIZE label_off in
  if negb (is_label_at label label_off) then ret false
  else
    let root := schar (label DT_ROOTPART_OFF) in
    if negb (is_rootpart root) then fail EINVAL
    else
      let present_count := length (filter (fun i => label_partition_present label (part_off i) = true)
                                     (seqZ 0 LABEL_PART_COUNT)) in
      let p := part_off (root - char_a) in
      if negb (label_partition_present label p) then fail EINVAL
      else if negb (bool_decide (present_count = 1%nat)) then fail ENOTSUP
      else if negb (is_bsd label p) then fail ENOTSUP
      else if negb (slice_base_of label p =? slice_base) then fail EINVAL
      else ret true.
(** The label offsets that are tried. *)
Definition scan_offsets (size limit : Z) : list Z :=
  map (fun k => k * DEV_SECTOR_SIZE)
    (if limit <? size then [] else seqZ 0 ((limit - size) / DEV_SECTOR_SIZE + 1)).
Definition count_hits (f : Z -> M file bool) (n : Z) (off : Z) : M file Z :=
  let! hit := f off in ret (if (hit : bool) then n + 1 else n).
Definition label_validate_single_slice_fd (slice_base : Z) : M file unit :=
  let! matched := fold_each (scan_offsets LABEL_VALIDATE_SIZE LABEL_SCAN_LIMIT)
    (fun off n => count_hits (fun off => validate_one_label_copy off slice_base) n off) 0 in
  fail_if (matched =? 0) EINVAL.

Definition patched_label (label : buf) (p new_blocks : Z) : buf :=
  let b := write_be24 label (p + PART_SIZE_OFF) new_blocks in
  if read_be32 label 0 =? DL_V3
  then write_be16 b DL_V3_CKSUM_OFF (checksum_be16 (checksummed b) LABEL_CKSUM_SIZE)
  else b.
Definition patch_one_label_partition_size (label_off slice_base slice_bytes : Z) : M file bool :=
  let! label := read_exact_fd LABEL_VALIDATE_SIZE label_off in
  if negb (is_label_at label label_off) then ret false
  else
    let secsize := read_be16 label DT_SECSIZE_OFF in
    let root := schar (label DT_ROOTPART_OFF) in
    if negb (is_rootpart root) || (secsize =? 0) || negb (slice_bytes mod secsize =? 0)
    then ret false
    else
      let new_blocks := w32 (slice_bytes / secsize) in
      if UNUSED24 <? new_blocks then fail EFBIG
      else
        let p := part_off (root - char_a) in
        if negb (slice_base_of label p =? slice_base) then ret false
        else
          write_exact_fd (patched_label label p new_blocks) LABEL_VALIDATE_SIZE label_off ;;;
          ret true.
(** How many copies were patched. *)
Definition label_patch_slice_size_fd (slice_base slice_bytes : Z) : M file Z :=
  let! patched := fold_each (scan_offsets LABEL_VALIDATE_SIZE LABEL_SCAN_LIMIT)
    (fun off n => count_hits (fun off =>
       patch_one_label_partition_size off slice_base slice_bytes) n off) 0 in
  if patched =? 0 then fail EINVAL else ret patched.

(** ** Bytes *)
Lemma read_be24_ext a b off : eq_on off 3 a b -> read_be24 a off = read_be24 b off.
Proof. intros H. unfold read_be24. rewrite !H by lia. done. Qed.
Lemma bytes24 v : 0 <= v < 2 ^ 24 ->
  Z.lor (Z.lor (Z.shiftl (w8 (Z.shiftr v 16)) 16) (Z.shiftl (w8 (Z.shiftr v 8)) 8)) (w8 v) = v.
Proof.
  intros Hv. pose proof (w8_range (Z.shiftr v 8)). pose proof (w8_range v).
  rewrite <- Z.lor_assoc. rewrite (lor_add (w8 (Z.shiftr v 8)) _ 8) by lia.
  rewrite (lor_add (w8 (Z.shiftr v 16)) _ 16) by lia.
  unfold w8. rewrite !Z.shiftr_div_pow2 by lia. Z.to_euclidean_division_equations; lia.
Qed.
Lemma all_bytes_false b off n v i : 0 <= i < n -> b (off + i) <> v -> all_bytes b off n v = false.
Proof.
  intros Hi Hne. unfold all_bytes. destruct (forallb _ _) eqn:E; [|done].
  rewrite forallb_forall in E. exfalso. apply Hne.
  assert (Hin : In (b (off + i)) (bytes_at b off n)).
  { unfold bytes_at. apply in_map_iff. exists i. split; [done|].
    apply list_elem_of_In, elem_of_seqZ. lia. }
  apply E in Hin. lia.
Qed.
Lemma checksum_ext a b n : eq_on 0 n a b -> checksum_be16 a n = checksum_be16 b n.
Proof.
  intros H. unfold checksum_be16. f_equal.
  assert (Hl : forall l s, (forall i, In i l -> 0 <= i < n / 2) ->
    foldl (checksum_step a) s l = foldl (checksum_step b) s l).
  { induction l as [|i l IH]; intros s Hall; [done|]. cbn [foldl].
    pose proof (Hall i ltac:(by left)).
    assert (Hi : read_be16 a (2 * i) = read_be16 b (2 * i)).
    { apply read_be16_eq_on. intros j Hj. apply H.
      Z.to_euclidean_division_equations; lia. }
    unfold checksum_step at 2 4. rewrite Hi. apply IH. intros j Hj. apply Hall. by right. }
  apply Hl. intros i Hi%list_elem_of_In%elem_of_seqZ. lia.
Qed.

Section agree.
Variables (a b : buf) (i : Z).
Hypothesis H : a i = b i.
Lemma upd_agree j v : upd a j v i = upd b j v i.
Proof. unfold upd. by case_match. Qed.
Lemma blit_agree off src n : blit a off src n i = blit b off src n i.
Proof. unfold blit. by case_match. Qed.
End agree.

Lemma put_string_out b off len s i : 0 < len -> ~ (off <= i < off + len) ->
  put_string b off len s i = b i.
Proof.
  intros Hl Hi. unfold put_string. apply blit_out. destruct (Z.leb_spec len (strlen s)); lia.
Qed.

(** Only the name field depends on the label. *)
Lemma label_body_name t s n label i : ~ (12 <= i < 36) ->
  label_body t s n label i = label_body t s n [] i.
Proof.
  intros Hi. unfold label_body, put_string, write_be24, write_be32, write_be16, fill.
  repeat first [apply upd_agree | apply blit_agree].
  rewrite !blit_out; [done| |].
  all: unfold strlen; cbn; repeat case_match; lia.
Qed.

(** The bytes of a written copy outside the name, the block number and the sum. *)
Lemma label_copy_byte off t s n label i :
  ~ (4 <= i < 8) -> ~ (0x22e <= i < 0x230) -> ~ (12 <= i < 36) ->
  label_copy off t s n label i = label_body t s n [] i.
Proof.
  intros H1 H2 H3. unfold label_copy, checksummed. rewrite write_be32_out by lia.
  unfold DL_V3_CKSUM_OFF. rewrite write_be16_out by lia. unfold fill.
  rewrite !blit_out by lia. by apply label_body_name.
Qed.
Lemma checksum_range b n : 0 <= checksum_be16 b n < 2 ^ 16.
Proof. apply w16_range. Qed.
Lemma label_copy_sum off t s n label :
  let b := label_copy off t s n label in
  checksum_be16 (checksummed b) LABEL_CKSUM_SIZE = read_be16 b DL_V3_CKSUM_OFF.
Proof.
  cbv zeta. unfold label_copy. set (b0 := checksummed (label_body t s n label)). set (ck := checksum_be16 b0 _).
  rewrite read_be16_write32_other by (unfold DL_V3_CKSUM_OFF; lia).
  rewrite read_write_be16. unfold w16. rewrite Z.mod_small by apply checksum_range.
  apply checksum_ext. intros i Hi. unfold checksummed at 1, DL_V3_CKSUM_OFF, fill.
  destruct (decide (0x22e <= i < 0x230)) as [Hc|Hc].
  { rewrite blit_in by lia. unfold b0, checksummed, DL_V3_CKSUM_OFF, fill. by rewrite blit_in by lia. }
  rewrite blit_out by lia. destruct (decide (4 <= i < 8)) as [Hb|Hb].
  { rewrite blit_in by lia. unfold b0, checksummed, DL_V3_CKSUM_OFF, fill.
    by rewrite blit_out, blit_in by lia. }
  rewrite blit_out by lia. rewrite write_be32_out, write_be16_out by lia. done.
Qed.
Lemma label_copy_name_byte off t s n label i : 12 <= i < 36 ->
  label_copy off t s n label i =
  buf_of (firstn 23 label ++ repeat 0 (24 - length (firstn 23 label))) (i - 12).
Proof.
  intros Hi. unfold label_copy, checksummed. rewrite write_be32_out by lia.
  unfold DL_V3_CKSUM_OFF. rewrite write_be16_out by lia. unfold fill. rewrite !blit_out by lia.
  unfold label_body, write_be24, write_be16, write_be32, fill, DT_SECSIZE_OFF, DT_FRONT_OFF,
    DT_ROOTPART_OFF, DT_PARTITIONS_OFF, PART_SIZE_OFF, PART_BSIZE_OFF, PART_FSIZE_OFF,
    PART_TYPE_OFF, DT.
  unfold LABEL_PART_COUNT, DT_PARTITION_SIZE.
  repeat first [rewrite upd_other by lia | rewrite blit_out by lia | rewrite put_string_out by lia].
  unfold put_string. set (k := if 24 <=? strlen label then 24 - 1 else strlen label).
  assert (Hk : k = Z.of_nat (length (firstn 23 label))).
  { unfold k, strlen. rewrite length_take. destruct (Z.leb_spec 24 (Z.of_nat (length label))); lia. }
  unfold buf_of. destruct (Z.ltb_spec (i - 12) 0); [lia|].
  destruct (decide (i < 12 + k)) as [Hin|Hout].
  - rewrite blit_in by lia. destruct (Z.ltb_spec (i - 12) 0); [lia|].
    rewrite app_nth1 by lia. rewrite nth_firstn. destruct (Nat.ltb_spec (Z.to_nat (i - 12)) 23); [done|].
    exfalso. rewrite length_take in Hk. lia.
  - rewrite blit_out by lia. repeat rewrite upd_other by lia. rewrite app_nth2 by lia.
    by rewrite nth_repeat.
Qed.
Lemma upto_nul_app l m : Forall (fun c => c <> 0) l -> upto_nul (l ++ repeat 0 m) = l.
Proof.
  intros H. induction H as [|c l Hc _ IH]; cbn [app upto_nul].
  - by destruct m.
  - destruct (Z.eqb_spec c 0); [done|]. by rewrite IH.
Qed.
Lemma label_copy_name off t s n label :
  Forall (fun c => 0 < c < 256) label ->
  copy_cstr_field (LABEL_NAME_LEN + 1) (label_copy off t s n label) 0x0c LABEL_NAME_LEN =
  firstn 23 label.
Proof.
  intros Hl. unfold copy_cstr_field, LABEL_NAME_LEN.
  set (text := firstn 23 label ++ repeat 0 (24 - length (firstn 23 label))).
  assert (Hlen : (length (firstn 23 label) <= 23)%nat) by (rewrite length_take; lia).
  assert (Ht : strlen text = 24).
  { unfold text, strlen. rewrite length_app, repeat_length. lia. }
  rewrite <- Ht at 2. rewrite (bytes_at_buf_of _ _ text).
  - unfold text. rewrite upto_nul_app.
    + apply firstn_all2. change (Z.to_nat (24 + 1 - 1)) with 24%nat. lia.
    + apply Forall_take. eapply Forall_impl; [done|]. cbn. lia.
  - intros i Hi. rewrite label_copy_name_byte by lia. fold text. f_equal. lia.
Qed.

(** ** A buffer that begins with a written copy *)
Section copy.
Variables (off total slice ncyl : Z) (label : name) (b : buf).
Local Abbreviation copy := (label_copy off total slice ncyl label).
Hypothesis Hb : eq_on 0 LABEL_WRITE_SIZE b copy.
Hypothesis Hslice : 0 <= slice < 2 ^ 24.

(** Words away from the name, the block number and the sum. *)
Definition plain_range (o n : Z) : bool :=
  (0 <=? o) && (o + n <=? 0x300) && ((o + n <=? 4) || (8 <=? o)) && ((o + n <=? 12) || (36 <=? o)) &&
  ((o + n <=? 0x22e) || (0x230 <=? o)).
Lemma copy_plain o n : plain_range o n = true -> eq_on o n b (label_body total slice ncyl []).
Proof.
  unfold plain_range. rewrite !andb_true_iff, !orb_true_iff, !Z.leb_le. intros H i Hi.
  rewrite Hb by (unfold LABEL_WRITE_SIZE; lia). apply label_copy_byte; lia.
Qed.
Lemma copy_be16 o : plain_range o 2 = true -> read_be16 b o = read_be16 (label_body total slice ncyl []) o.
Proof. intros H. by apply read_be16_eq_on, copy_plain. Qed.
Lemma copy_be24 o : plain_range o 3 = true -> read_be24 b o = read_be24 (label_body total slice ncyl []) o.
Proof. intros H. by apply read_be24_ext, copy_plain. Qed.

Lemma copy_version : read_be32 b 0 = DL_V3.
Proof. rewrite (read_be32_eq_on b _ 0 (copy_plain 0 4 eq_refl)). reflexivity. Qed.
Lemma copy_blkno : read_be32 b 4 = w32 (off / 512).
Proof.
  rewrite (read_be32_eq_on b copy) by (intros i Hi; apply Hb; unfold LABEL_WRITE_SIZE; lia).
  apply read_write_be32.
Qed.
Lemma copy_secsize : read_be16 b DT_SECSIZE_OFF = 1024.
Proof. rewrite copy_be16 by reflexivity. reflexivity. Qed.
Lemma copy_front : read_be16 b DT_FRONT_OFF = 160.
Proof. rewrite copy_be16 by reflexivity. reflexivity. Qed.
Lemma copy_root : b DT_ROOTPART_OFF = 97.
Proof. rewrite (copy_plain DT_ROOTPART_OFF 1 eq_refl) by lia. reflexivity. Qed.
Lemma copy_sum : checksum_be16 (checksummed b) LABEL_CKSUM_SIZE = read_be16 b DL_V3_CKSUM_OFF.
Proof.
  transitivity (checksum_be16 (checksummed copy) LABEL_CKSUM_SIZE).
  - apply checksum_ext. intros i Hi. unfold checksummed, fill, LABEL_CKSUM_SIZE in *.
    do 2 apply blit_agree. apply Hb. unfold LABEL_WRITE_SIZE. lia.
  - rewrite label_copy_sum. symmetry. apply read_be16_eq_on. intros i Hi. apply Hb.
    unfold LABEL_WRITE_SIZE, DL_V3_CKSUM_OFF in *. lia.
Qed.
Lemma copy_name : Forall (fun c => 0 < c < 256) label ->
  copy_cstr_field (LABEL_NAME_LEN + 1) b 0x0c LABEL_NAME_LEN = firstn 23 label.
Proof.
  intros Hl. rewrite <- (label_copy_name off total slice ncyl) by done.
  unfold copy_cstr_field. do 2 f_equal. apply bytes_at_eq. intros i Hi. apply Hb.
  unfold LABEL_WRITE_SIZE, LABEL_NAME_LEN in *. lia.
Qed.

Lemma copy_part0 : decode_partition b 0 =
  LabelPartition (negb (slice =? 0) && negb (slice =? UNUSED24)) 0 slice 8192 1024 (str "4.3BSD").
Proof.
  unfold decode_partition.
  assert (Hbase : read_be24 b (part_off 0) = 0) by (rewrite copy_be24 by reflexivity; reflexivity).
  assert (Hsize : read_be24 b (part_off 0 + PART_SIZE_OFF) = slice).
  { rewrite copy_be24 by reflexivity. etrans; [|exact (bytes24 slice Hslice)]. reflexivity. }
  assert (Hbs : read_be16 b (part_off 0 + PART_BSIZE_OFF) = 8192)
    by (rewrite copy_be16 by reflexivity; reflexivity).
  assert (Hfs : read_be16 b (part_off 0 + PART_FSIZE_OFF) = 1024)
    by (rewrite copy_be16 by reflexivity; reflexivity).
  assert (Hty : copy_cstr_field (LABEL_FSTYPE_LEN + 1) b (part_off 0 + PART_TYPE_OFF)
    LABEL_FSTYPE_LEN = str "4.3BSD").
  { unfold copy_cstr_field.
    rewrite (bytes_at_eq b (label_body total slice ncyl [])) by (by apply copy_plain). reflexivity. }
  rewrite Hbase, Hsize, Hbs, Hfs, Hty.
  assert (H20 : b (part_off 0 + 6) = 0x20)
    by (rewrite (copy_plain (part_off 0 + 6) 1 eq_refl) by lia; reflexivity).
  rewrite !(all_bytes_false _ _ _ _ 6) by (rewrite ?H20; unfold DT_PARTITION_SIZE; lia).
  f_equal. by destruct (slice =? 0), (slice =? UNUSED24).
Qed.
Lemma copy_part_unused i : 1 <= i < 8 -> lp_present (decode_partition b i) = false.
Proof.
  intros Hi. unfold decode_partition. cbn [lp_present].
  assert (Hbase : read_be24 b (part_off i) = UNUSED24).
  { assert (i = 1 \/ i = 2 \/ i = 3 \/ i = 4 \/ i = 5 \/ i = 6 \/ i = 7) as Hc by lia.
    destruct Hc as [->|[->|[->|[->|[->|[->| ->]]]]]];
      rewrite copy_be24 by reflexivity; reflexivity. }
  rewrite Hbase. cbn [negb]. by rewrite andb_false_r.
Qed.

Lemma copy_decodes size : LABEL_DECODE_SIZE <= size -> 0 <= off < 2 ^ 41 -> off mod 512 = 0 ->
  Forall (fun c => 0 < c < 256) label ->
  exists dl, label_decode b size off = Some dl /\ dl_version dl = DL_V3 /\
    dl_label_off dl = off /\ dl_secsize dl = 1024 /\ dl_front dl = 160 /\
    dl_name dl = firstn 23 label /\ rootpartition dl = char_a /\
    part dl = map (decode_partition b) (seqZ 0 LABEL_PART_COUNT).
Proof.
  intros Hsz Ho Hm Hl. unfold label_decode.
  destruct (Z.ltb_spec size LABEL_DECODE_SIZE); [lia|].
  rewrite copy_version, copy_blkno, copy_secsize, copy_sum, copy_front, copy_root, copy_name by done.
  cbn [label_is_version negb]. change (label_is_version DL_V3) with true. cbn [negb].
  change ((1024 =? 0) || negb (1024 mod DEV_SECTOR_SIZE =? 0)) with false. cbv iota.
  change (DL_V3 =? DL_V3) with true. cbv iota. rewrite Z.eqb_refl.
  rewrite w32_small, w64_small by (Z.to_euclidean_division_equations; lia).
  assert (He : off / 512 * DEV_SECTOR_SIZE = off)
    by (unfold DEV_SECTOR_SIZE; Z.to_euclidean_division_equations; lia).
  rewrite He, Z.eqb_refl. cbn [negb andb]. rewrite andb_false_r.
  eexists. split; [reflexivity|]. by split_and!.
Qed.

Lemma copy_slice dl : rootpartition dl = char_a -> dl_secsize dl = 1024 -> dl_front dl = 160 ->
  part dl = map (decode_partition b) (seqZ 0 LABEL_PART_COUNT) ->
  label_pick_slice dl =
    if (slice =? 0) || (slice =? UNUSED24) then None
    else Some (LABEL_FRONT_PORCH_BYTES, slice * 1024).
Proof.
  intros Hr Hs Hf Hp. unfold label_pick_slice. rewrite Hr.
  change (is_rootpart char_a) with true. rewrite Z.sub_diag.
  assert (Hpart : forall i, 0 <= i < 8 -> part_at dl i = decode_partition b i).
  { intros i Hi. unfold part_at. rewrite Hp.
    assert (i = 0 \/ i = 1 \/ i = 2 \/ i = 3 \/ i = 4 \/ i = 5 \/ i = 6 \/ i = 7) as Hc by lia.
    by destruct Hc as [->|[->|[->|[->|[->|[->|[->| ->]]]]]]]. }
  rewrite Hpart, copy_part0 by lia. unfold usable. cbn [lp_present size_blocks].
  destruct (Z.eqb_spec slice 0) as [H0|H0], (Z.eqb_spec slice UNUSED24) as [H1|H1]; cbn [negb andb orb].
  all: try (unfold slice_of; cbn [base_blocks size_blocks]; rewrite Hf, Hs; done).
  all: rewrite (proj2 (find_first_none _ _)); [done|]; rewrite Forall_forall.
  all: intros i Hi%elem_of_seqZ; rewrite Hpart by (unfold LABEL_PART_COUNT in *; lia).
  all: destruct (decide (i = 0)) as [->|Hne]; [rewrite copy_part0; cbn [lp_present size_blocks];
    destruct (Z.eqb_spec slice 0), (Z.eqb_spec slice UNUSED24); try done; lia|].
  all: rewrite copy_part_unused; [done|]; unfold LABEL_PART_COUNT in *; lia.
Qed.
End copy.

Lemma wf_put_string b off len s : wf_buf b -> Forall (fun c => 0 <= c < 256) s ->
  wf_buf (put_string b off len s).
Proof. intros Hb Hs. apply wf_blit; [done|by apply wf_buf_of]. Qed.
Lemma str_bytes s : Forall (fun c => 0 <= c < 256) (str s).
Proof.
  unfold str. induction (list_ascii_of_string s) as [|c l IH]; cbn [map]; constructor; [|done].
  pose proof (N_ascii_bounded c). lia.
Qed.
Lemma label_copy_wf off t s n label : Forall (fun c => 0 < c < 256) label ->
  wf_buf (label_copy off t s n label).
Proof.
  intros Hl. assert (Hl' : Forall (fun c => 0 <= c < 256) label)
    by (eapply Forall_impl; [exact Hl|]; cbn; lia).
  unfold label_copy, checksummed. apply wf_write_be32, wf_write_be16, wf_fill, wf_fill.
  unfold label_body. cbv zeta. unfold write_be24.
  repeat first [apply wf_upd | apply wf_write_be16 | apply wf_write_be32 | apply wf_fill
    | apply wf_put_string; [|exact Hl'] | apply wf_put_string; [|apply str_bytes]].
  apply wf_zeros.
Qed.

(** One copy is in place, or will be overwritten later. *)
Lemma write_copies_ok total slice ncyl label (f f' : file) :
  file_inv f -> Forall (fun c => 0 < c < 256) label ->
  for_each (seqZ 0 LABEL_COPY_COUNT) (fun i =>
    write_label_copy (i * LABEL_COPY_STRIDE) total slice ncyl label) f = (Ok tt, f') ->
  forall k, 0 <= k < LABEL_COPY_COUNT ->
    eq_on 0 LABEL_WRITE_SIZE (Bytes.slice (f_data f') (k * LABEL_COPY_STRIDE))
      (label_copy (k * LABEL_COPY_STRIDE) total slice ncyl label).
Proof.
  intros Hinv Hl Hr.
  apply (for_each_inv (fun i f1 => file_inv f1 /\ forall k, 0 <= k < i ->
    eq_on 0 LABEL_WRITE_SIZE (Bytes.slice (f_data f1) (k * LABEL_COPY_STRIDE))
      (label_copy (k * LABEL_COPY_STRIDE) total slice ncyl label))) in Hr.
  - apply Hr.
  - unfold LABEL_COPY_COUNT. lia.
  - split; [done|]. intros k Hk. lia.
  - intros i f1 f2 Hi [Hf Hold] Hstep. unfold write_label_copy in Hstep.
    apply write_exact_fd_spec in Hstep as (Hf2 & _ & Hout & Hin); [|done|unfold LABEL_COPY_STRIDE; lia].
    split; [done|]. intros k Hk j Hj. unfold Bytes.slice.
    unfold LABEL_WRITE_SIZE, LABEL_COPY_STRIDE in *.
    destruct (decide (k = i)) as [->|Hne].
    + rewrite (Hin eq_refl (i * 7680 + j)), blit_in, to_bytes_id by
        (done || lia || by apply label_copy_wf). f_equal. lia.
    + rewrite Hout by lia. apply (Hold k); [lia|done].
Qed.

(** ** Properties *)

(** What a label for a slice of [blocks] sectors names. *)
Definition named_slice (blocks : Z) : option (Z * Z) :=
  if (blocks =? 0) || (blocks =? UNUSED24) then None
  else Some (LABEL_FRONT_PORCH_BYTES, blocks * LABEL_SECTOR_SIZE).

(** C36. Writing the label puts four copies on the disk, and each of them, decoded at
    its own offset, is a label of version 3 under the given name.  For a requested slice
    below 4 TiB (2^42 bytes) it names that slice, in whole sectors behind the front
    porch, except for the two sizes that the format reads as "no partition": zero and
    the largest block count the routine accepts.  From 4 TiB on the routine does not
    always refuse: it cuts the sector count to 32 bits before it compares it with the
    largest one, and then the label names the slice of the size that is left. *)
Theorem label_write_path_correct image_bytes slice_bytes label (f f' : file) size k
    (Hinv : file_inv f) (Hname : Forall (fun c => 0 < c < 256) label)
    (Hslice : 0 <= slice_bytes)
    (Hrun : label_write_path image_bytes slice_bytes label f = (Ok tt, f'))
    (Hk : 0 <= k < LABEL_COPY_COUNT) (Hsize : LABEL_DECODE_SIZE <= size) :
  let off := k * LABEL_COPY_STRIDE in
  let sectors := slice_bytes / LABEL_SECTOR_SIZE in
  exists dl, label_decode (slice (f_data f') off) size off = Some dl /\
    dl_version dl = DL_V3 /\ dl_name dl = firstn 23 label /\
    (slice_bytes < 2 ^ 42 -> label_pick_slice dl = named_slice sectors) /\
    (2 ^ 42 <= slice_bytes -> label_pick_slice dl = named_slice (sectors mod 2 ^ 32)).
Proof.
  intros off sectors. unfold label_write_path in Hrun. fold sectors in Hrun.
  set (blocks := w32 sectors) in *.
  set (total := w32 (image_bytes / LABEL_SECTOR_SIZE)) in *.
  destruct (Z.ltb_spec UNUSED24 total); [done|]. destruct (Z.ltb_spec UNUSED24 blocks); [done|].
  cbn [orb] in Hrun. destruct (Z.ltb_spec 0xffff (total / (4 * 32))); [done|].
  pose proof (write_copies_ok _ _ _ _ _ _ Hinv Hname Hrun k Hk) as Hb. fold off in Hb.
  assert (Hs : 0 <= blocks < 2 ^ 24).
  { pose proof (w32_range sectors) as Hw. fold blocks in Hw. unfold UNUSED24 in *. lia. }
  assert (Hoff : 0 <= off < 2 ^ 41) by (unfold off, LABEL_COPY_COUNT, LABEL_COPY_STRIDE in *; lia).
  assert (Hsec : off mod 512 = 0).
  { unfold off, LABEL_COPY_STRIDE. replace (k * 7680) with (k * 15 * 512) by lia. by apply Z.mod_mul. }
  destruct (copy_decodes _ _ _ _ _ _ Hb Hs size Hsize Hoff Hsec Hname)
    as (dl & Hd & Hv & Ho & Hss & Hf & Hn & Hr & Hp).
  assert (Hpick : label_pick_slice dl = named_slice blocks) by by apply (copy_slice _ _ _ _ _ _ Hb Hs).
  exists dl. split_and!; try done. intros Hsmall. rewrite Hpick. unfold blocks.
  rewrite w32_small; [done|]. unfold sectors, LABEL_SECTOR_SIZE.
  split; [by apply Z.div_pos|]. apply Z.div_lt_upper_bound; lia.
Qed.

(** A slice 4 TiB larger gets the same label. *)
Theorem label_size_wraps image_bytes slice_bytes label f :
  label_write_path image_bytes (slice_bytes + 2 ^ 42) label f =
  label_write_path image_bytes slice_bytes label f.
Proof.
  unfold label_write_path. replace (w32 ((slice_bytes + 2 ^ 42) / LABEL_SECTOR_SIZE))
    with (w32 (slice_bytes / LABEL_SECTOR_SIZE)); [done|].
  unfold LABEL_SECTOR_SIZE. replace (2 ^ 42) with (2 ^ 32 * 1024) by done.
  rewrite Z.div_add by lia. unfold w32. by rewrite Z.add_mod, Z.mod_same, Z.add_0_r, Z.mod_mod by lia.
Qed.

(** The boot block numbers of a written label are lost: whatever the arguments, the
    two words write_label_copy stores at DT_BOOT0_BLKNO_OFF (32 and 96) are overwritten
    by the boot file name two bytes further on. *)
Theorem boot_blocks_overwritten off total slice ncyl label :
  let b := label_copy off total slice ncyl label in
  read_be32 b (DT + 0x56) = 0x7364 /\ read_be32 b (DT + 0x5a) = 0x6d616368.
Proof.
  cbv zeta. split.
  - rewrite (read_be32_eq_on _ (label_body total slice ncyl []) (DT + 0x56)); [reflexivity|].
    intros i Hi. unfold DT in *. apply label_copy_byte; lia.
  - rewrite (read_be32_eq_on _ (label_body total slice ncyl []) (DT + 0x5a)); [reflexivity|].
    intros i Hi. unfold DT in *. apply label_copy_byte; lia.
Qed.

(** ** Witnesses *)
Lemma label_write_path_correct_witness :
  let f := File zeros (2000 * 1024) [] [] in
  let run := label_write_path (2000 * 1024) (1800 * 1024) (str "disk") f in
  fst run = Ok tt /\
  exists dl, label_decode (slice (f_data (snd run)) 7680) 8192 7680 = Some dl /\
    label_pick_slice dl = Some (163840, 1843200).
Proof.
  intros f run. assert (Hr : fst run = Ok tt) by (vm_compute; reflexivity). split; [exact Hr|].
  destruct (label_write_path_correct (2000 * 1024) (1800 * 1024) (str "disk") f (snd run) 8192 1)
    as (dl & Hd & _ & _ & Hp & _).
  - apply file_inv_zeros. lia.
  - cbn. repeat (apply Forall_cons; split; [lia|]). apply Forall_nil. exact I.
  - lia.
  - rewrite <- Hr. apply surjective_pairing.
  - unfold LABEL_COPY_COUNT. lia.
  - unfold LABEL_DECODE_SIZE. lia.
  - exists dl. split; [exact Hd|]. rewrite Hp by reflexivity. reflexivity.
Defined.
