(* ===== verification/Open.v ===== *)
(** * Finding the filesystem in an opened source

    nextufs_open_with_mode of src/src/core/image.c from the point where the backend
    is in place ([init_backend] has set [image_size] and the source kind), and
    nextufs_image_close.  The scan buffer is read once; a disk label is tried first,
    then an explicitly selected superblock, then any superblock magic. *)
From S2P Require Import Prelude.
From S2P Require Import Bytes.
From S2P Require Import Backend.
From S2P Require Import Superblock.
From S2P Require Import Image.
From S2P Require Import Inode.
From S2P Require Import Dirent.
From S2P Require Import Label.
From S2P Require Import Directory.

Definition DEFAULT_SCAN_LIMIT : Z := 32 * 1024 * 1024.

Definition with_slice (img : image) (base size : Z) (s : superblock) : image :=
  Image (backend_open img) (writable img) (unprivileged img) (restore_clean img)
    (fs_write_active img) (source_is_container img) (img_source_format img)
    (image_size img) base size (img_label_off img) (label_version img) (label_secsize img)
    (label_front img) (label_name img) (img_rootpartition img) (used_disk_label img) s.
Definition with_label (img : image) (dl : disk_label) : image :=
  Image (backend_open img) (writable img) (unprivileged img) (restore_clean img)
    (fs_write_active img) (source_is_container img) (img_source_format img)
    (image_size img) (slice_base img) (slice_size img) (dl_label_off dl) (dl_version dl)
    (dl_secsize dl) (dl_front dl) (dl_name dl) (rootpartition dl) true (sb img).

Definition plausible (s : superblock) : bool :=
  (fs_magic s =? UFS_FS_MAGIC) && negb (block_size s =? 0) && negb (frag_size s =? 0).
Definition slice_fits (img : image) (selected base size : Z) : bool :=
  (0 <=? base) && (base <? image_size img) &&
  (0 <? size) && (size <=? image_size img - base) &&
  negb ((0 <=? selected) && ((size <? 2048) || (size - 2048 <? selected))).
(** The magic number is where the scan buffer says it is. *)
Definition magic_at (scanbuf : buf) (scan_size base : Z) : bool :=
  let magic_off := base + UFS_SBLOCK_OFFSET + UFS_SUPER_MAGIC_OFFSET in
  (magic_off + 4 <=? scan_size) && (read_be32 scanbuf magic_off =? UFS_FS_MAGIC).

(** [n] offsets from [off] on, [by_] apart. *)
Fixpoint steps (n : nat) (off by_ : Z) : list Z :=
  match n with O => [] | S n => off :: steps n (off + by_) by_ end.

Section open.
Context {C : Type} `{!Backend C}.
Local Abbreviation M := (M (world C)).

(** A writer refuses damaged geometry; reading stays possible. *)
Definition accept (img : image) (for_writing : bool) : M (option image) :=
  if for_writing && negb (is_ok (image_validate (sb img) (slice_base img) (slice_size img)))
  then fail EINVAL else ret (Some img).
Definition try_superblock (img : image) (base size at_ : Z) : M (option image) :=
  let! r := attempt (read_exact img 2048 at_) in
  match r with
  | Err _ => ret None
  | Ok sbuf =>
      let s := decode_superblock sbuf in
      if plausible s then ret (Some (with_slice img base size s)) else ret None
  end.

Definition try_label (img : image) (scanbuf : buf) (scan_size : Z) (for_writing : bool)
    (selected off : Z) (_ : option image) : M (option image * bool) :=
  let skip := ret (None, false) in
  if negb (label_is_version (read_be32 scanbuf off)) then skip
  else
    match label_decode (slice scanbuf off) (scan_size - off) off with
    | None => skip
    | Some dl =>
        match label_pick_slice dl with
        | None => skip
        | Some (base, size) =>
            if negb (slice_fits img selected base size) then skip
            else if (selected <? 0) && negb (magic_at scanbuf scan_size base) then skip
            else
              let! r := try_superblock img base size
                (base + (if selected <? 0 then UFS_SBLOCK_OFFSET else selected)) in
              match r with
              | None => skip
              | Some img' =>
                  let! img' := accept (with_label img' dl) for_writing in ret (img', true)
              end
        end
    end.
Definition label_offsets (scan_size : Z) : list Z :=
  scan_offsets LABEL_DECODE_SIZE
    (if scan_size <? LABEL_SCAN_LIMIT then scan_size else LABEL_SCAN_LIMIT).

Definition try_magic (img : image) (scanbuf : buf) (for_writing : bool) (off : Z)
    (_ : option image) : M (option image * bool) :=
  let skip := ret (None, false) in
  if negb (read_be32 scanbuf off =? UFS_FS_MAGIC) then skip
  else
    let base := off - UFS_SUPER_MAGIC_OFFSET - UFS_SBLOCK_OFFSET in
    if (off <? UFS_SUPER_MAGIC_OFFSET) || (base <? 0) then skip
    else
      let! r := try_superblock img base (image_size img - base) (base + UFS_SBLOCK_OFFSET) in
      match r with
      | None => skip
      | Some img' => let! img' := accept img' for_writing in ret (img', true)
      end.
Definition magic_offsets (scan_size : Z) : list Z :=
  steps (Z.to_nat (scan_size / 4)) 0 4.

(** A superblock named by its offset in an unlabelled source. *)
Definition open_selected (img : image) (selected : Z) : M image :=
  let! sbuf := read_exact img 2048 selected in
  let s := decode_superblock sbuf in
  of_result (image_validate s 0 (image_size img)) ;;;
  ret (with_slice img 0 (image_size img) s).

Definition open_with_mode (img : image) (for_writing : bool) (selected : Z) : M image :=
  if (0 <=? selected) && ((image_size img <? 2048) || (image_size img - 2048 <? selected))
  then fail EINVAL
  else
    let scan_size := if image_size img <? DEFAULT_SCAN_LIMIT then image_size img
                     else DEFAULT_SCAN_LIMIT in
    malloc scan_size ;;;
    let! scanbuf := map_err EIO (read_exact img scan_size 0) in
    let! r := fold_until (label_offsets scan_size)
                (try_label img scanbuf scan_size for_writing selected) None in
    match fst r with
    | Some img' => ret img'
    | None =>
        if 0 <=? selected then open_selected img selected
        else
          let! r := fold_until (magic_offsets scan_size) (try_magic img scanbuf for_writing) None in
          match fst r with Some img' => ret img' | None => fail EINVAL end
    end.

Definition image_open (img : image) : M image := open_with_mode img false (-1).
Definition image_open_rw (img : image) : M image := open_with_mode img true (-1).
Definition image_open_super (img : image) (for_writing : bool) (offset : Z) : M image :=
  if offset <? 0 then fail EINVAL else open_with_mode img for_writing offset.

(** An open transaction is cancelled first. *)
Definition cancel_transaction (img : image) : M (result unit) :=
  let! t := get_tx in
  match t with
  | Some _ =>
      let! rc := attempt (transaction_end (Err ECANCELED)) in
      let safe := match rc with Err EUCLEAN => false | _ => true end in
      attempt (write_finish img safe) ;;; ret rc
  | None => ret (Ok tt)
  end.
Definition image_close (img : image) : M image :=
  cancel_transaction img ;;;
  ret (Image false false (unprivileged img) (restore_clean img) (fs_write_active img) false
         SOURCE_RAW (image_size img) (slice_base img) (slice_size img) (img_label_off img)
         (label_version img) (label_secsize img) (label_front img) (label_name img)
         (img_rootpartition img) (used_disk_label img) (sb img)).
End open.

(** ** What an opened image is *)
Section open_facts.
Context {C : Type} `{HB : Backend C, HS : !BackendSpec C}.
Variable (img : image).
Local Abbreviation quietly := (Stable (quiet (C:=C))).

Lemma accept_quiet i fw : quietly (accept i fw).
Proof. unfold accept. solve_stable. Qed.
Local Hint Resolve accept_quiet : stable.
Lemma try_superblock_quiet a b c : quietly (try_superblock img a b c).
Proof. unfold try_superblock. solve_stable. Qed.
Local Hint Resolve try_superblock_quiet : stable.
Lemma try_label_quiet a b c d e f : quietly (try_label img a b c d e f).
Proof. unfold try_label. solve_stable. Qed.
Lemma try_magic_quiet a b c d : quietly (try_magic img a b c d).
Proof. unfold try_magic. solve_stable. Qed.
Local Hint Resolve try_label_quiet try_magic_quiet : stable.
Lemma open_with_mode_quiet fw sel : quietly (open_with_mode img fw sel).
Proof. unfold open_with_mode, open_selected. solve_stable. Qed.

(** [img'] is [img] with a slice inside it, valid if it is to be written. *)
Record placed (fw : bool) (img' : image) : Prop := Placed {
  pl_size : image_size img' = image_size img;
  pl_base : 0 <= slice_base img';
  pl_fits : slice_base img' + slice_size img' <= image_size img';
  pl_wf : sb_wf (sb img');
  pl_valid : fw = true ->
    image_validate (sb img') (slice_base img') (slice_size img') = Ok tt;
}.

(** A superblock candidate, before validation. *)
Lemma try_superblock_ok base size at_ (w w' : world C) img' :
  bk_inv (w_ctx w) -> try_superblock img base size at_ w = (Ok (Some img'), w') ->
  exists s, img' = with_slice img base size s /\ sb_wf s.
Proof.
  intros Hinv Hr. unfold try_superblock in Hr. inv_step Hr. inv_step Hrun.
  destruct x as [b|e]; [|done]. destruct (plausible _); [|done].
  injection Hr as <- _. eexists. split; [reflexivity|]. apply decode_superblock_wf.
  by eapply read_exact_wf.
Qed.
Lemma accept_ok img1 fw (w w' : world C) o : accept img1 fw w = (Ok o, w') ->
  o = Some img1 /\
  (fw = true -> image_validate (sb img1) (slice_base img1) (slice_size img1) = Ok tt).
Proof.
  unfold accept. destruct (fw && _) eqn:E; [done|]. intros [= <- _]. split; [done|]. intros ->.
  destruct (image_validate _ _ _) as [[]|]; done.
Qed.

Definition fine (fw : bool) (o : option image) (w : world C) : Prop :=
  bk_inv (w_ctx w) /\ forall img', o = Some img' -> placed fw img'.

Lemma try_label_fine scanbuf n fw sel off o (w w' : world C) r :
  fine fw o w -> try_label img scanbuf n fw sel off o w = (Ok r, w') -> fine fw (fst r) w'.
Proof.
  intros [Hinv _] Hr. split; [by eapply try_label_quiet in Hr; apply Hr|]. intros img' Himg.
  unfold try_label in Hr. destruct (negb (label_is_version _)); [by injection Hr as <- _|].
  destruct (label_decode _ _ _) as [dl|]; [|by injection Hr as <- _].
  destruct (label_pick_slice dl) as [[base size]|]; [|by injection Hr as <- _].
  destruct (slice_fits img sel base size) eqn:Ef; cbn [negb] in Hr; [|by injection Hr as <- _].
  destruct (_ && _) in Hr; [by injection Hr as <- _|]. inv_step Hr.
  destruct a as [img1|]; [|by injection Hr as <- _]. inv_step Hr. injection Hr as <- _.
  cbn [fst] in Himg. subst a. pose proof (try_superblock_quiet _ _ _ _ _ _ Hrun) as Hq.
  apply try_superblock_ok in Hrun as (s & -> & Hs); [|done].
  apply accept_ok in Hrun0 as [[= ->] Hv]. unfold slice_fits in Ef.
  rewrite !andb_true_iff, !Z.leb_le, !Z.ltb_lt in Ef.
  constructor; cbn [image_size slice_base slice_size sb with_label with_slice] in *; try done; lia.
Qed.
Lemma try_magic_fine scanbuf fw off o (w w' : world C) r :
  fine fw o w -> try_magic img scanbuf fw off o w = (Ok r, w') -> fine fw (fst r) w'.
Proof.
  intros [Hinv _] Hr. split; [by eapply try_magic_quiet in Hr; apply Hr|]. intros img' Himg.
  unfold try_magic in Hr. destruct (negb _); [by injection Hr as <- _|].
  destruct (_ || _) eqn:Eb in Hr; [by injection Hr as <- _|]. inv_step Hr.
  destruct a as [img1|]; [|by injection Hr as <- _]. inv_step Hr. injection Hr as <- _.
  cbn [fst] in Himg. subst a.
  apply try_superblock_ok in Hrun as (s & -> & Hs); [|done].
  apply accept_ok in Hrun0 as [[= ->] Hv].
  rewrite orb_false_iff, !Z.ltb_ge in Eb.
  constructor; cbn [image_size slice_base slice_size sb with_slice] in *; try done; lia.
Qed.

Lemma open_placed fw sel (w w' : world C) img' :
  bk_inv (w_ctx w) -> open_with_mode img fw sel w = (Ok img', w') -> placed fw img'.
Proof.
  intros Hinv Hr. unfold open_with_mode in Hr. destruct (_ && _); [by inv_step Hr|].
  apply bind_ok in Hr as (u & w1 & H1 & Hr). apply malloc_quiet in H1.
  apply bind_ok in Hr as (scan & w2 & H2 & Hr). apply map_err_ok, read_exact_quiet in H2.
  apply bind_ok in Hr as (r & w3 & H3 & Hr).
  assert (Hi2 : bk_inv (w_ctx w2)) by (apply H2, H1, Hinv).
  apply (fold_until_inv (fine fw)) in H3; [|by split|intros; by eapply try_label_fine].
  destruct H3 as [Hi3 Hfine]. destruct (fst r) as [i|].
  { injection Hr as <- _. by apply Hfine. }
  destruct (0 <=? sel).
  - unfold open_selected in Hr. apply bind_ok in Hr as (b & w4 & H4 & Hr).
    apply bind_ok in Hr as (u' & w5 & H5 & Hr). unfold of_result in H5. injection H5 as H5 ->.
    injection Hr as <- _. destruct u'.
    constructor; cbn [image_size slice_base slice_size sb with_slice]; try done; try lia.
    apply decode_superblock_wf. by eapply read_exact_wf.
  - apply bind_ok in Hr as (r2 & w4 & H4 & Hr).
    apply (fold_until_inv (fine fw)) in H4; [|by split|intros; by eapply try_magic_fine].
    destruct H4 as [_ Hfine2]. destruct (fst r2) as [i|]; [|done].
    injection Hr as <- _. by apply Hfine2.
Qed.
Lemma placed_sane img' : image_ok img -> placed true img' -> image_sane img'.
Proof.
  intros Hok [Hs Hb Hf Hw Hv]. constructor; [|done|by apply Hv|done].
  unfold image_ok. by rewrite Hs.
Qed.
End open_facts.
#[export] Hint Resolve open_with_mode_quiet : stable.

(** ** Properties *)

(** C31. Whatever a source contains, an image opened for writing is safe to mutate: its
    geometry has been validated, its slice lies inside the image, and opening it has
    not changed a byte.  (These are the hypotheses the mutation theorems ask for.) *)
Theorem opened_for_writing_sane `{HB : Backend C, HS : !BackendSpec C}
    img selected img' (w w' : world C)
    (Himg : image_ok img) (Hinv : bk_inv (w_ctx w))
    (Hrun : open_with_mode img true selected w = (Ok img', w')) :
  image_sane img' /\ 0 <= slice_base img' /\ image_size img' = image_size img /\
  bk_inv (w_ctx w') /\ view w' ≡ view w.
Proof.
  pose proof (open_with_mode_quiet _ _ _ _ _ _ Hrun) as Hq.
  pose proof (open_placed _ _ _ _ _ _ Hinv Hrun) as Hp.
  split; [by eapply placed_sane|]. split_and!; try apply Hp; by apply Hq.
Qed.

(** ** Witness: the sample filesystem is found by its magic number *)
Definition blank_sb : superblock := decode_superblock zeros.
Definition blank_image (for_writing : bool) (size : Z) : image :=
  Image true for_writing false false false false SOURCE_RAW size 0 0 0 0 0 0 [] 0 false blank_sb.
Lemma opened_for_writing_sane_witness :
  let img := blank_image true (512 * 1024) in
  let run := open_with_mode img true (-1) tree_world in
  is_ok (fst run) = true /\
  forall img', fst run = Ok img' -> image_sane img' /\ image_size img' = 512 * 1024.
Proof.
  intros img run. split; [vm_compute; reflexivity|]. intros img' Hr.
  destruct (opened_for_writing_sane img (-1) img' tree_world (snd run)) as (Hs & _ & Hz & _).
  - unfold image_ok. cbn. lia.
  - exact tree_world_inv.
  - rewrite <- Hr. apply surjective_pairing.
  - split; [exact Hs|exact Hz].
Defined.
