(* ===== verification/Policy.v ===== *)
(** * Who may change what

    The decision functions at the top of src/src/mutate/mutate.c: credentials that fit
    the on-disk fields, access and sticky-directory checks, the owner and the mode of
    new and changed inodes. *)
From S2P Require Import Prelude.
From S2P Require Import Bytes.
From S2P Require Import Inode.
From S2P Require Import BlockMap.
From S2P Require Import FileIO.
From S2P Require Import Dirent.
From S2P Require Import Node.

Definition S_ISVTX : Z := 0x200.      (* 01000 *)
Definition S_ISGID : Z := 0x400.      (* 02000 *)
Definition S_ISUID : Z := 0x800.      (* 04000 *)
(** [(uid_t)-1] *)
Definition NO_ID : Z := 2 ^ 32 - 1.

Definition is_user (ctx : write_ctx) : bool := bool_decide (policy ctx = NEXTUFS_WRITE_USER).
Definition ctx_is_root (ctx : write_ctx) : bool := c_uid ctx =? 0.
Definition id_fits_nextstep (id : Z) : bool := id <=? INT16_MAX.
Definition require_ctx_ids_fit (ctx : write_ctx) : result unit :=
  if negb (is_user ctx) then Ok tt
  else if negb (id_fits_nextstep (c_uid ctx)) || negb (id_fits_nextstep (c_gid ctx))
  then Err EOVERFLOW else Ok tt.
Definition require_owner_ids_fit (uid gid : Z) : result unit :=
  if negb (uid =? NO_ID) && negb (id_fits_nextstep uid) then Err EOVERFLOW
  else if negb (gid =? NO_ID) && negb (id_fits_nextstep gid) then Err EOVERFLOW
  else Ok tt.
Definition ctx_in_group (ctx : write_ctx) (gid : Z) : bool :=
  (c_gid ctx =? gid) || existsb (fun g => g =? gid) (groups ctx).
Definition require_user_access (ctx : write_ctx) (n : node) (mask : Z) : result unit :=
  if negb (is_user ctx) then Ok tt
  else check_access (n_inode n) (c_uid ctx) (c_gid ctx) (groups ctx) mask true.
Definition require_parent_mutation (ctx : write_ctx) (parent : node) : result unit :=
  require_user_access ctx parent (Z.lor W_OK X_OK).
Definition check_sticky_parent (ctx : write_ctx) (parent target : node) : result unit :=
  if negb (is_user ctx) then Ok tt
  else if Z.land (i_mode (n_inode parent)) S_ISVTX =? 0 then Ok tt
  else if ctx_is_root ctx then Ok tt
  else if (c_uid ctx =? i_uid (n_inode parent)) || (c_uid ctx =? i_uid (n_inode target))
  then Ok tt else Err EPERM.

Definition set_owner (ino : inode) (uid gid : Z) : inode :=
  Inode (i_mode ino) (i_nlink ino) uid gid (i_size ino) (i_atime ino) (i_mtime ino)
    (i_ctime ino) (i_db ino) (i_ib ino) (i_flags ino) (i_blocks ino) (i_gen ino).
Definition set_nlink (ino : inode) (n : Z) : inode :=
  Inode (i_mode ino) n (i_uid ino) (i_gid ino) (i_size ino) (i_atime ino) (i_mtime ino)
    (i_ctime ino) (i_db ino) (i_ib ino) (i_flags ino) (i_blocks ino) (i_gen ino).
Definition set_ctime (ino : inode) (t : Z) : inode := set_times ino (i_atime ino) (i_mtime ino) t.
(** [memset] of everything but the generation. *)
Definition cleared_inode (gen : Z) : inode := Inode 0 0 0 0 0 0 0 0 zero12 zero3 0 0 gen.

Definition set_new_inode_owner (ctx : write_ctx) (parent : node) (ino : inode) : inode :=
  if is_user ctx then set_owner ino (w16 (c_uid ctx)) (i_gid (n_inode parent))
  else set_owner ino 0 (i_gid (n_inode parent)).
Definition require_chmod_allowed (ctx : write_ctx) (n : node) : result unit :=
  if negb (is_user ctx) then Ok tt
  else if ctx_is_root ctx || (c_uid ctx =? i_uid (n_inode n)) then Ok tt else Err EPERM.
Definition require_chown_allowed (ctx : write_ctx) (n : node) (uid gid : Z) : result unit :=
  if negb (is_user ctx) then Ok tt
  else if ctx_is_root ctx then Ok tt
  else if negb (c_uid ctx =? i_uid (n_inode n)) then Err EPERM
  else if negb (uid =? i_uid (n_inode n)) then Err EPERM
  else if ctx_in_group ctx gid then Ok tt else Err EPERM.

(** Clear the bits of [m] in a 16-bit mode. *)
Definition clear_bits (mode m : Z) : Z := Z.land mode (Z.lnot m).
(** What is left of the sticky and set-group bits for an ordinary user. *)
Definition sanitize_mode (ctx : write_ctx) (mode gid : Z) : Z :=
  if negb (is_user ctx) || ctx_is_root ctx then mode
  else
    let mode1 := if negb (ifmt mode =? NEXTUFS_IFDIR) then clear_bits mode S_ISVTX else mode in
    if negb (Z.land mode1 S_ISGID =? 0) && negb (ctx_in_group ctx gid)
    then clear_bits mode1 S_ISGID else mode1.
Definition sanitize_new_inode_mode (ctx : write_ctx) (ino : inode) : inode :=
  set_mode ino (sanitize_mode ctx (i_mode ino) (i_gid ino)).
Definition sanitize_chmod_mode (ctx : write_ctx) (n : node) (mode : Z) : Z :=
  let ino := n_inode n in
  sanitize_mode ctx (Z.lor (ifmt (i_mode ino)) (Z.land mode 0xfff)) (i_gid ino).

Definition name_is_dot_or_dotdot (nm : name) : bool := is_dot nm || is_dotdot nm.
Definition disallow_dot_names (nm : name) : result unit :=
  if name_is_dot_or_dotdot nm then Err EINVAL else Ok tt.
Definition disallow_target_dot_names (nm : name) : result unit :=
  if name_is_dot_or_dotdot nm then Err ENOTEMPTY else Ok tt.
Definition clear_inode_layout (ino : inode) : inode := set_size (set_blocks ino zero12 zero3) 0 0.
