(* ===== verification/Mutate.v ===== *)
(** * Name-space and attribute operations on an open image

    The bodies of the path operations of src/src/mutate/mutate.c, between
    nextufs__open_image_rw and finish_mutation: what they look up, whom they ask and
    what they write, in the code's order.  Session.v wraps them. *)
From S2P Require Import Prelude.
From S2P Require Import Bytes.
From S2P Require Import Backend.
From S2P Require Import Superblock.
From S2P Require Import Image.
From S2P Require Import Inode.
From S2P Require Import Alloc.
From S2P Require Import BlockMap.
From S2P Require Import FileIO.
From S2P Require Import Dirent.
From S2P Require Import Directory.
From S2P Require Import Node.
From S2P Require Import Path.
From S2P Require Import Policy.

Definition with_n_inode (n : node) (ino : inode) : node :=
  Node (sector_size n) (n_inode_no n) (n_inode_off n) ino.
Definition bump_nlink (ino : inode) (d now : Z) : inode :=
  set_times (set_nlink ino (w16 (i_nlink ino + d))) (i_atime ino) now now.

Section mutate.
Context {C : Type} `{!Backend C}.
Local Abbreviation M := (M (world C)).
Local Abbreviation MI := (Prelude.M (istate C)).

(** Run a routine that changes a node in place. *)
Definition on_node {A} (n : node) (m : MI A) : M (A * node) :=
  let! '(rc, ino) := with_inode (n_inode n) m in
  let! a := of_result rc in
  ret (a, with_n_inode n ino).
Definition write_node (img : image) (n : node) : M unit :=
  write_inode_raw img (n_inode_no n) (n_inode n).

(** ** Releasing inodes *)
Definition write_cleared (img : image) (inode_no gen : Z) : M unit :=
  write_inode_raw img inode_no (cleared_inode (w32 (gen + 1))).
Definition is_special (ino : inode) : bool :=
  (ifmt (i_mode ino) =? NEXTUFS_IFIFO) || (ifmt (i_mode ino) =? NEXTUFS_IFCHR) ||
  (ifmt (i_mode ino) =? NEXTUFS_IFBLK) || (ifmt (i_mode ino) =? NEXTUFS_IFSOCK).
Definition remove_linked_inode (img : image) (target : node) : M unit :=
  let ino := n_inode target in
  if i_nlink ino =? 0 then fail EINVAL
  else
    let ino := set_nlink ino (i_nlink ino - 1) in
    if i_nlink ino =? 0 then
      (if is_special ino then ret tt
       else let! '(rc, _) := with_inode ino (free_file_storage img) in of_result rc) ;;;
      write_cleared img (n_inode_no target) (i_gen ino) ;;;
      free_inode_in_group img (n_inode_no target) (i_mode ino)
    else
      let! now := time_now in
      write_inode_raw img (n_inode_no target) (set_ctime ino now).
(** The parent as it is left. *)
Definition remove_dir_inode (img : image) (parent target : node) : M node :=
  let ino := n_inode target in
  (let! '(rc, _) := with_inode ino (free_file_storage img) in of_result rc) ;;;
  write_cleared img (n_inode_no target) (i_gen ino) ;;;
  free_inode_in_group img (n_inode_no target) (i_mode ino) ;;;
  let! now := time_now in
  let parent := with_n_inode parent (bump_nlink (n_inode parent) (-1) now) in
  write_node img parent ;;;
  ret parent.
Definition discard_new_inode (img : image) (inode_no : Z) : MI unit :=
  free_file_storage img ;;;
  let! ino := get_inode in
  io (write_cleared img inode_no (i_gen ino)) ;;;
  io (free_inode_in_group img inode_no (i_mode ino)) ;;;
  put_inode (clear_inode_layout ino).
(** On failure the new inode is given back, as far as that succeeds. *)
Definition or_discard {A} (img : image) (inode_no : Z) (ino : inode) (m : M A) : M A :=
  let! rc := attempt m in
  match rc with
  | Ok a => ret a
  | Err e => with_inode ino (discard_new_inode img inode_no) ;;; fail e
  end.

(** ** The chain of parents: [true] also when it cannot be followed to the root *)
Fixpoint has_ancestor (fuel : nat) (img : image) (cur : node) (ancestor_inode : Z) : M bool :=
  match fuel with
  | O => ret true
  | S fuel =>
      if n_inode_no cur =? ancestor_inode then ret true
      else if n_inode_no cur =? NEXTUFS_ROOT_INODE then ret false
      else
        let! rc := attempt (read_directory_parent_inode img (n_inode_no cur) (n_inode cur)) in
        match rc with
        | Err _ => ret true
        | Ok parent_inode =>
            if parent_inode =? n_inode_no cur then ret true
            else
              let! rc := attempt (node_get_by_inode img parent_inode) in
              match rc with
              | Err _ => ret true
              | Ok cur => has_ancestor fuel img cur ancestor_inode
              end
        end
  end.
Definition directory_has_ancestor (img : image) (dirnode : node) (ancestor_inode : Z) : M bool :=
  has_ancestor 1024 img dirnode ancestor_inode.

(** ** Steps the operations share *)
Definition find_parent (ctx : write_ctx) (img : image) (parent_path : name) (check_dir : bool)
    : M node :=
  let! parent := node_lookup_as ctx img parent_path true in
  fail_if (check_dir && negb (node_is_dir parent)) ENOTDIR ;;;
  of_result (require_parent_mutation ctx parent) ;;;
  ret parent.
Definition must_not_exist (ctx : write_ctx) (img : image) (path : name) : M unit :=
  let! rc := attempt (node_lookup_as ctx img path false) in
  match rc with
  | Ok _ => fail EEXIST
  | Err ENOENT => ret tt
  | Err e => fail e
  end.
Definition parent_group (img : image) (parent : node) : Z :=
  n_inode_no parent / inodes_per_group (sb img).
(** A new inode keeps only the generation of its slot. *)
Definition fresh_inode (ctx : write_ctx) (img : image) (parent : node)
    (inode_no mode nlink size : Z) : M inode :=
  let! '(ino, _) := inode_read img inode_no in
  let! now := time_now in
  let ino := set_nlink (set_mode (cleared_inode (i_gen ino)) mode) nlink in
  let ino := sanitize_new_inode_mode ctx (set_new_inode_owner ctx parent ino) in
  ret (set_times (set_size ino size (i_blocks ino)) now now now).
Definition remove_named (img : image) (parent : node) (nm : name) (expected : Z) : M node :=
  let! '(removed_inode, parent) := on_node parent (remove_dirent img (n_inode_no parent) nm) in
  fail_if (negb (removed_inode =? expected)) EINVAL ;;;
  ret parent.
Definition insert_named (img : image) (parent : node) (nm : name) (ino : Z) : M node :=
  let! '(_, parent) := on_node parent (insert_dirent img (n_inode_no parent) nm ino) in
  ret parent.

(** ** Files *)
Definition create_file (ctx : write_ctx) (path parent_path nm : name) (data : buf)
    (data_len : Z) (img : image) : M unit :=
  let! parent := find_parent ctx img parent_path true in
  must_not_exist ctx img path ;;;
  let parent_cg := parent_group img parent in
  let mode := Z.lor NEXTUFS_IFREG 0x1a4 in
  let! new_inode_no := allocate_inode_in_group img parent_cg mode in
  let! ino := fresh_inode ctx img parent new_inode_no mode 1 data_len in
  let! '(rc, ino) := with_inode ino (allocate_data_for_inode img parent_cg data data_len) in
  or_discard img new_inode_no ino (of_result rc) ;;;
  or_discard img new_inode_no ino (write_inode_raw img new_inode_no ino) ;;;
  or_discard img new_inode_no ino (insert_named img parent nm new_inode_no) ;;;
  image_fsync img.
Definition unlink (ctx : write_ctx) (path parent_path nm : name) (img : image) : M unit :=
  let! parent := find_parent ctx img parent_path true in
  let! target := node_lookup_as ctx img path false in
  fail_if (node_is_dir target) EISDIR ;;;
  of_result (check_sticky_parent ctx parent target) ;;;
  of_result (require_user_access ctx target W_OK) ;;;
  remove_named img parent nm (n_inode_no target) ;;;
  remove_linked_inode img target ;;;
  image_fsync img.
Definition rewrite_file_contents (ctx : write_ctx) (path : name) (data : buf) (data_len : Z)
    (append : bool) (img : image) : M unit :=
  let! target := node_lookup_as ctx img path false in
  fail_if (negb (node_is_reg target)) EISDIR ;;;
  of_result (require_user_access ctx target W_OK) ;;;
  let! '(_, target) :=
    if append then ret (tt, target)
    else on_node target (file_resize img (n_inode_no target) data_len) in
  on_node target (file_write img (n_inode_no target) data data_len
                    (if append then i_size (n_inode target) else 0)) ;;;
  image_fsync img.
Definition truncate (ctx : write_ctx) (path : name) (size : Z) (img : image) : M unit :=
  let! target := node_lookup_as ctx img path false in
  fail_if (negb (node_is_reg target)) EINVAL ;;;
  of_result (require_user_access ctx target W_OK) ;;;
  on_node target (file_resize img (n_inode_no target) size) ;;;
  image_fsync img.
Definition pwrite_file (ctx : write_ctx) (path : name) (data : buf) (data_len offset : Z)
    (img : image) : M unit :=
  let! target := node_lookup_as ctx img path false in
  fail_if (negb (node_is_reg target)) EINVAL ;;;
  of_result (require_user_access ctx target W_OK) ;;;
  on_node target (file_write img (n_inode_no target) data data_len offset) ;;;
  image_fsync img.
Definition opened_file_update (ino gen : Z) (data : buf) (len offset : Z) (truncating : bool)
    (img : image) : M unit :=
  let! n := node_get_by_inode img ino in
  fail_if (negb (i_gen (n_inode n) =? gen) || negb (node_is_reg n)) ESTALE ;;;
  on_node n (if truncating then file_resize img ino offset
             else file_write img ino data len offset) ;;;
  image_fsync img.

(** ** Directories *)
Definition mkdir (ctx : write_ctx) (path parent_path nm : name) (mode : Z) (img : image)
    : M unit :=
  let! parent := find_parent ctx img parent_path true in
  must_not_exist ctx img path ;;;
  let parent_cg := parent_group img parent in
  let mode := Z.lor NEXTUFS_IFDIR (Z.land mode 0x1ff) in
  let! new_inode_no := allocate_inode_in_group img parent_cg mode in
  let! alloc_frag := allocate_frags_anycg img parent_cg 1 in
  let! rc := attempt (write_new_directory_block img alloc_frag new_inode_no (n_inode_no parent)) in
  match rc with
  | Err e =>
      attempt (free_fragment_run img alloc_frag 1) ;;;
      attempt (free_inode_in_group img new_inode_no mode) ;;;
      fail e
  | Ok _ =>
      let! ino := fresh_inode ctx img parent new_inode_no mode 2 DIRBLKSIZ in
      let now := i_ctime ino in
      let ino := set_size (set_db ino 0 alloc_frag) (i_size ino) (sectors_per_frag (sb img)) in
      or_discard img new_inode_no ino (write_inode_raw img new_inode_no ino) ;;;
      let! parent := or_discard img new_inode_no ino
                       (insert_named img parent nm new_inode_no) in
      fail_if (INT16_MAX <=? i_nlink (n_inode parent)) EMLINK ;;;
      write_node img (with_n_inode parent (bump_nlink (n_inode parent) 1 now)) ;;;
      image_fsync img
  end.
Definition rmdir (ctx : write_ctx) (path parent_path nm : name) (img : image) : M unit :=
  let! parent := find_parent ctx img parent_path false in
  let! target := node_lookup_as ctx img path false in
  fail_if (negb (node_is_dir target)) ENOTDIR ;;;
  of_result (check_sticky_parent ctx parent target) ;;;
  let! empty := if negb (i_nlink (n_inode target) =? 2) then ret false
                else directory_is_empty img (n_inode_no target) (n_inode target)
                       (n_inode_no parent) in
  fail_if (negb empty) ENOTEMPTY ;;;
  let! parent := remove_named img parent nm (n_inode_no target) in
  remove_dir_inode img parent target ;;;
  image_fsync img.

(** ** Links and special files *)
Definition link (ctx : write_ctx) (source_path target_path parent_path nm : name)
    (img : image) : M unit :=
  let! parent := find_parent ctx img parent_path false in
  let! source := node_lookup_as ctx img source_path false in
  fail_if (node_is_dir source) EPERM ;;;
  must_not_exist ctx img target_path ;;;
  let ino := n_inode source in
  fail_if (INT16_MAX <=? i_nlink ino) EMLINK ;;;
  let! now := time_now in
  write_inode_raw img (n_inode_no source) (set_ctime (set_nlink ino (i_nlink ino + 1)) now) ;;;
  insert_named img parent nm (n_inode_no source) ;;;
  image_fsync img.
Definition symlink (ctx : write_ctx) (target link_path parent_path nm : name) (img : image)
    : M unit :=
  let target_len := strlen target in
  let! parent := find_parent ctx img parent_path false in
  must_not_exist ctx img link_path ;;;
  let parent_cg := parent_group img parent in
  let mode := Z.lor NEXTUFS_IFLNK 0x1ff in
  let! new_inode_no := allocate_inode_in_group img parent_cg mode in
  let! ino := fresh_inode ctx img parent new_inode_no mode 1 target_len in
  let! '(rc, ino) :=
    if target_len <=? 60
    then ret (Ok tt, store_inline_symlink (set_flags ino NEXTUFS_IC_FASTLINK)
                       (buf_of target) target_len)
    else with_inode ino (allocate_data_for_inode img parent_cg (buf_of target) target_len) in
  or_discard img new_inode_no ino (of_result rc) ;;;
  or_discard img new_inode_no ino (write_inode_raw img new_inode_no ino) ;;;
  or_discard img new_inode_no ino (insert_named img parent nm new_inode_no) ;;;
  image_fsync img.
Definition mknod (ctx : write_ctx) (path parent_path nm : name) (mode rdev : Z) (img : image)
    : M unit :=
  let! parent := find_parent ctx img parent_path true in
  must_not_exist ctx img path ;;;
  let parent_cg := parent_group img parent in
  let! new_inode_no := allocate_inode_in_group img parent_cg mode in
  let! ino := fresh_inode ctx img parent new_inode_no mode 1 0 in
  let ino := if (ifmt mode =? NEXTUFS_IFCHR) || (ifmt mode =? NEXTUFS_IFBLK)
             then set_db ino 0 rdev else ino in
  or_discard img new_inode_no ino (write_inode_raw img new_inode_no ino) ;;;
  or_discard img new_inode_no ino (insert_named img parent nm new_inode_no) ;;;
  image_fsync img.

(** ** Renaming *)

(** Make room for the new name: the entry in the way is removed with its inode. *)
Definition replace_existing (ctx : write_ctx) (img : image) (new_parent existing : node)
    (new_name : name) (moving_dir : bool) : M node :=
  fail_if (negb (bool_decide (moving_dir = node_is_dir existing)))
    (if moving_dir then ENOTDIR else EISDIR) ;;;
  of_result (check_sticky_parent ctx new_parent existing) ;;;
  let! busy :=
    if negb moving_dir then ret false
    else if 2 <? i_nlink (n_inode existing) then ret true
    else
      let! empty := directory_is_empty img (n_inode_no existing) (n_inode existing)
                      (n_inode_no new_parent) in
      ret (negb empty) in
  fail_if busy ENOTEMPTY ;;;
  let! new_parent := remove_named img new_parent new_name (n_inode_no existing) in
  if moving_dir then remove_dir_inode img new_parent existing
  else remove_linked_inode img existing ;;; ret new_parent.
(** Both parents after a directory has moved between them. *)
Definition move_between (img : image) (source old_parent new_parent : node) (now : Z)
    : M node :=
  let! '(_, source) := on_node source
    (update_directory_parent_inode img (n_inode_no source) (n_inode_no new_parent)) in
  write_node img (with_n_inode old_parent (bump_nlink (n_inode old_parent) (-1) now)) ;;;
  fail_if (INT16_MAX <=? i_nlink (n_inode new_parent)) EMLINK ;;;
  write_node img (with_n_inode new_parent (bump_nlink (n_inode new_parent) 1 now)) ;;;
  ret source.
Definition move_entry (img : image) (source old_parent new_parent : node)
    (old_name new_name : name) : M unit :=
  let moving_dir := node_is_dir source in
  let changing_parent := negb (n_inode_no old_parent =? n_inode_no new_parent) in
  let! new_parent := insert_named img new_parent new_name (n_inode_no source) in
  let old_parent := if negb changing_parent then new_parent else old_parent in
  let! old_parent := remove_named img old_parent old_name (n_inode_no source) in
  let! now := time_now in
  let! source := if moving_dir && changing_parent
                 then move_between img source old_parent new_parent now else ret source in
  write_node img (with_n_inode source (set_ctime (n_inode source) now)) ;;;
  image_fsync img.
Definition rename (ctx : write_ctx) (source_path old_parent_path old_name : name)
    (target_path new_parent_path new_name : name) (img : image) : M unit :=
  let! source := node_lookup_as ctx img source_path false in
  let! old_parent := find_parent ctx img old_parent_path false in
  let! new_parent := find_parent ctx img new_parent_path true in
  let moving_dir := node_is_dir source in
  let changing_parent := negb (n_inode_no old_parent =? n_inode_no new_parent) in
  of_result (check_sticky_parent ctx old_parent source) ;;;
  of_result (if moving_dir && changing_parent
             then require_user_access ctx source W_OK else Ok tt) ;;;
  let! inside := if moving_dir then directory_has_ancestor img new_parent (n_inode_no source)
                 else ret false in
  fail_if inside EINVAL ;;;
  let! rc := attempt (node_lookup_as ctx img target_path false) in
  match rc with
  | Ok existing =>
      if n_inode_no existing =? n_inode_no source then ret tt
      else
        let! new_parent := replace_existing ctx img new_parent existing new_name moving_dir in
        move_entry img source old_parent new_parent old_name new_name
  | Err ENOENT => move_entry img source old_parent new_parent old_name new_name
  | Err e => fail e
  end.

(** ** Attributes *)
Definition chmod (ctx : write_ctx) (path : name) (mode : Z) (img : image) : M unit :=
  let! n := node_lookup_as ctx img path false in
  of_result (require_chmod_allowed ctx n) ;;;
  let! now := time_now in
  write_inode_raw img (n_inode_no n)
    (set_ctime (set_mode (n_inode n) (sanitize_chmod_mode ctx n mode)) now) ;;;
  image_fsync img.
Definition chown (ctx : write_ctx) (path : name) (uid gid : Z) (img : image) : M unit :=
  let! n := node_lookup_as ctx img path false in
  let ino := n_inode n in
  let new_uid := if uid =? NO_ID then i_uid ino else uid in
  let new_gid := if gid =? NO_ID then i_gid ino else gid in
  of_result (require_chown_allowed ctx n new_uid new_gid) ;;;
  let ino := set_owner ino (w16 new_uid) (w16 new_gid) in
  let ino := if is_user ctx && negb (ctx_is_root ctx)
             then set_mode ino (clear_bits (i_mode ino) (Z.lor S_ISUID S_ISGID)) else ino in
  let! now := time_now in
  write_inode_raw img (n_inode_no n) (set_ctime ino now) ;;;
  image_fsync img.
Definition utimes (ctx : write_ctx) (path : name) (atime mtime : Z) (img : image) : M unit :=
  let! n := node_lookup_as ctx img path false in
  let ino := n_inode n in
  fail_if (is_user ctx && negb (ctx_is_root ctx) && negb (c_uid ctx =? i_uid ino)) EPERM ;;;
  let! now := time_now in
  write_inode_raw img (n_inode_no n) (set_times ino atime mtime now) ;;;
  image_fsync img.
End mutate.

(** ** Frames: every body changes the image through checked writes only *)
Section mutate_frames.
Context {C : Type} `{HB : Backend C, HS : !BackendSpec C}.
Variable (img : image).
Hypothesis Himg : image_ok img.
Local Abbreviation carried := (Stable (carries (C:=C))).

Lemma on_node_carries {A} n (m : Prelude.M (istate C) A) :
  Stable (on_world carries) m -> carried (on_node n m).
Proof. intros Hm. unfold on_node. solve_stable. Qed.
Lemma write_inode_carries n ino : carried (write_inode_raw img n ino).
Proof. by apply write_inode_raw_carries. Qed.
Local Hint Resolve write_inode_carries : stable.
Local Hint Extern 3 (Stable _ (on_node _ _)) =>
  (apply on_node_carries; solve [solve_stable]) : stable.
Lemma write_node_carries n : carried (write_node img n).
Proof. unfold write_node. solve_stable. Qed.
Lemma write_cleared_carries n g : carried (write_cleared img n g).
Proof. unfold write_cleared. solve_stable. Qed.
Local Hint Resolve write_node_carries write_cleared_carries : stable.
Lemma remove_linked_carries n : carried (remove_linked_inode img n).
Proof. unfold remove_linked_inode. solve_stable. Qed.
Lemma remove_dir_carries p n : carried (remove_dir_inode img p n).
Proof. unfold remove_dir_inode. solve_stable. Qed.
Lemma discard_carries n : Stable (on_world carries) (discard_new_inode (C:=C) img n).
Proof. unfold discard_new_inode. solve_stable. Qed.
Local Hint Resolve remove_linked_carries remove_dir_carries discard_carries : stable.
Lemma or_discard_carries {A} n ino (m : M (world C) A) : carried m -> carried (or_discard img n ino m).
Proof. intros Hm. unfold or_discard. solve_stable. Qed.
Local Hint Extern 3 (Stable _ (or_discard _ _ _ _)) =>
  (apply or_discard_carries; solve [solve_stable]) : stable.
Lemma has_ancestor_quiet fuel : forall n a, Stable quiet (has_ancestor (C:=C) fuel img n a).
Proof. induction fuel as [|fuel IH]; intros n a; cbn [has_ancestor]; solve_stable; done. Qed.
Lemma directory_has_ancestor_quiet n a : Stable quiet (directory_has_ancestor (C:=C) img n a).
Proof. apply has_ancestor_quiet. Qed.
Lemma find_parent_quiet ctx p b : Stable quiet (find_parent (C:=C) ctx img p b).
Proof. unfold find_parent. solve_stable. Qed.
Lemma must_not_exist_quiet ctx p : Stable quiet (must_not_exist (C:=C) ctx img p).
Proof. unfold must_not_exist. solve_stable. Qed.
Lemma fresh_inode_quiet ctx p a b c d : Stable quiet (fresh_inode (C:=C) ctx img p a b c d).
Proof. unfold fresh_inode. solve_stable. Qed.
Local Hint Resolve directory_has_ancestor_quiet find_parent_quiet must_not_exist_quiet
  fresh_inode_quiet : stable.
Lemma remove_named_carries p nm i : carried (remove_named img p nm i).
Proof. unfold remove_named. solve_stable. Qed.
Lemma insert_named_carries p nm i : carried (insert_named img p nm i).
Proof. unfold insert_named. solve_stable. Qed.
Local Hint Resolve remove_named_carries insert_named_carries : stable.

Lemma create_file_carries ctx a b c d e : carried (create_file ctx a b c d e img).
Proof. unfold create_file. solve_stable. Qed.
Lemma unlink_carries ctx a b c : carried (unlink ctx a b c img).
Proof. unfold unlink. solve_stable. Qed.
Lemma rewrite_carries ctx a b c d : carried (rewrite_file_contents ctx a b c d img).
Proof. unfold rewrite_file_contents. solve_stable. Qed.
Lemma truncate_carries ctx a b : carried (truncate ctx a b img).
Proof. unfold truncate. solve_stable. Qed.
Lemma pwrite_file_carries ctx a b c d : carried (pwrite_file ctx a b c d img).
Proof. unfold pwrite_file. solve_stable. Qed.
Lemma opened_file_carries a b c d e f : carried (opened_file_update a b c d e f img).
Proof. unfold opened_file_update. destruct f; solve_stable. Qed.
Lemma mkdir_carries ctx a b c d : carried (mkdir ctx a b c d img).
Proof. unfold mkdir. solve_stable. Qed.
Lemma rmdir_carries ctx a b c : carried (rmdir ctx a b c img).
Proof. unfold rmdir. solve_stable. Qed.
Lemma link_carries ctx a b c d : carried (link ctx a b c d img).
Proof. unfold link. solve_stable. Qed.
Lemma symlink_carries ctx a b c d : carried (symlink ctx a b c d img).
Proof. unfold symlink. solve_stable. Qed.
Lemma mknod_carries ctx a b c d e : carried (mknod ctx a b c d e img).
Proof. unfold mknod. solve_stable. Qed.
Lemma replace_carries ctx a b c d : carried (replace_existing ctx img a b c d).
Proof. unfold replace_existing. solve_stable. Qed.
Lemma move_between_carries a b c d : carried (move_between img a b c d).
Proof. unfold move_between. solve_stable. Qed.
Local Hint Resolve replace_carries move_between_carries : stable.
Lemma move_entry_carries a b c d e : carried (move_entry img a b c d e).
Proof. unfold move_entry. solve_stable. Qed.
Local Hint Resolve move_entry_carries : stable.
Lemma rename_carries ctx a b c d e f : carried (rename ctx a b c d e f img).
Proof. unfold rename. solve_stable. Qed.
Lemma chmod_carries ctx a b : carried (chmod ctx a b img).
Proof. unfold chmod. solve_stable. Qed.
Lemma chown_carries ctx a b c : carried (chown ctx a b c img).
Proof. unfold chown. solve_stable. Qed.
Lemma utimes_carries ctx a b c : carried (utimes ctx a b c img).
Proof. unfold utimes. solve_stable. Qed.
End mutate_frames.
#[export] Hint Resolve create_file_carries unlink_carries rewrite_carries truncate_carries
  pwrite_file_carries opened_file_carries mkdir_carries rmdir_carries link_carries
  symlink_carries mknod_carries rename_carries chmod_carries chown_carries utimes_carries
  : stable.
