(* ===== verification/Attributes.v ===== *)
(** * chmod, chown and utimes: who may, and what changes

    The attribute operations of src/src/mutate/mutate.c against the abstract name space
    of Lookup.v: which inode the path names, what the caller must be allowed to do,
    which fields of that one inode change, and that every other inode stays as it was. *)
From S2P Require Import Prelude.
From S2P Require Import Bytes.
From S2P Require Import Backend.
From S2P Require Import Superblock.
From S2P Require Import Image.
From S2P Require Import Inode.
From S2P Require Import BlockMap.
From S2P Require Import FileIO.
From S2P Require Import Dirent.
From S2P Require Import Directory.
From S2P Require Import Node.
From S2P Require Import Path.
From S2P Require Import Lookup.
From S2P Require Import Policy.
From S2P Require Import Mutate.

(** Bound by the rules for ordinary users. *)
Definition restricted (ctx : write_ctx) : bool := is_user ctx && negb (ctx_is_root ctx).
(** The bit of a mode after chmod: the type is the old one, the sticky bit is kept for
    directories only, the set-group bit for members of the group only. *)
Definition chmod_bit (ctx : write_ctx) (old : inode) (mode k : Z) : bool :=
  if 12 <=? k then Z.testbit (i_mode old) k
  else if k =? 9 then Z.testbit mode k && (negb (restricted ctx) || is_dir old)
  else if k =? 10 then Z.testbit mode k && (negb (restricted ctx) || ctx_in_group ctx (i_gid old))
  else Z.testbit mode k.

(** ** Modes, bit by bit *)
Lemma ifmt_bit mode k : 0 <= k ->
  Z.testbit (ifmt mode) k = Z.testbit mode k && (12 <=? k) && (k <? 16).
Proof.
  intros Hk. unfold ifmt. change 0xf000 with (Z.shiftl (Z.ones 4) 12).
  rewrite Z.land_spec, <- andb_assoc. f_equal. rewrite Z.shiftl_spec by done.
  destruct (Z.leb_spec 12 k).
  - rewrite Z.testbit_ones_nonneg by lia. cbn [andb]. destruct (Z.ltb_spec k 16), (Z.ltb_spec (k - 12) 4); lia || done.
  - rewrite Z.testbit_neg_r by lia. done.
Qed.
Lemma perm_bit mode k : 0 <= k -> Z.testbit (Z.land mode 0xfff) k = Z.testbit mode k && (k <? 12).
Proof.
  intros Hk. change 0xfff with (Z.ones 12). by rewrite Z.land_spec, Z.testbit_ones_nonneg.
Qed.
Lemma clear_bits_bit mode m k : 0 <= k ->
  Z.testbit (clear_bits mode m) k = Z.testbit mode k && negb (Z.testbit m k).
Proof. intros Hk. unfold clear_bits. by rewrite Z.land_spec, Z.lnot_spec. Qed.
Lemma same_bits a b : (forall k, 0 <= k -> Z.testbit a k = Z.testbit b k) -> a = b.
Proof. apply Z.bits_inj'. Qed.

Lemma sanitize_bit ctx mode gid k : 0 <= k ->
  Z.testbit (sanitize_mode ctx mode gid) k =
  Z.testbit mode k &&
  negb (restricted ctx &&
        ((k =? 9) && negb (ifmt mode =? NEXTUFS_IFDIR) ||
         (k =? 10) && negb (ctx_in_group ctx gid))).
Proof.
  intros Hk. unfold sanitize_mode, restricted.
  destruct (is_user ctx), (ctx_is_root ctx); cbn [negb orb andb]; try by rewrite andb_true_r.
  set (mode1 := if negb (ifmt mode =? NEXTUFS_IFDIR) then _ else mode).
  assert (H1 : Z.testbit mode1 k =
    Z.testbit mode k && negb ((k =? 9) && negb (ifmt mode =? NEXTUFS_IFDIR))).
  { unfold mode1. destruct (ifmt mode =? NEXTUFS_IFDIR); cbn [negb].
    - by rewrite andb_false_r, andb_true_r.
    - rewrite clear_bits_bit by done. change S_ISVTX with (2 ^ 9).
      rewrite Z.pow2_bits_eqb, andb_true_r, Z.eqb_sym by done. done. }
  assert (H2 : Z.testbit (if negb (Z.land mode1 S_ISGID =? 0) && negb (ctx_in_group ctx gid)
                          then clear_bits mode1 S_ISGID else mode1) k =
               Z.testbit mode1 k && negb ((k =? 10) && negb (ctx_in_group ctx gid))).
  { change S_ISGID with (2 ^ 10). change (negb (Z.land mode1 (2 ^ 10) =? 0)) with (has mode1 (2 ^ 10)).
    rewrite has_bit by done. destruct (ctx_in_group ctx gid); cbn [negb].
    { by rewrite !andb_false_r, andb_true_r. }
    rewrite !andb_true_r. destruct (Z.testbit mode1 10) eqn:E.
    - by rewrite clear_bits_bit, Z.pow2_bits_eqb, Z.eqb_sym by done.
    - destruct (Z.eqb_spec k 10) as [->|_]; [by rewrite E|by rewrite andb_true_r]. }
  rewrite H2, H1, <- andb_assoc, negb_orb. done.
Qed.

Lemma chmod_mode_type old mode :
  ifmt (Z.lor (ifmt old) (Z.land mode 0xfff)) = ifmt old.
Proof.
  apply same_bits. intros k Hk. rewrite !ifmt_bit, Z.lor_spec, ifmt_bit, perm_bit by done.
  destruct (Z.leb_spec 12 k), (Z.ltb_spec k 16), (Z.ltb_spec k 12); try lia;
    by rewrite ?andb_true_r, ?andb_false_r, ?orb_false_r.
Qed.

Lemma sanitize_chmod_bit ctx n mode k :
  0 <= i_mode (n_inode n) < 2 ^ 16 -> 0 <= k ->
  Z.testbit (sanitize_chmod_mode ctx n mode) k = chmod_bit ctx (n_inode n) mode k.
Proof.
  intros Hm Hk. unfold sanitize_chmod_mode, chmod_bit, is_dir.
  rewrite sanitize_bit, chmod_mode_type, Z.lor_spec, ifmt_bit, perm_bit by done.
  assert (Hhigh : 16 <= k -> Z.testbit (i_mode (n_inode n)) k = false).
  { intros Hk16. rewrite <- (Z.mod_small (i_mode (n_inode n)) (2 ^ 16)) by done.
    by apply Z.mod_pow2_bits_high. }
  destruct (Z.leb_spec 12 k) as [H12|H12].
  - destruct (Z.ltb_spec k 12); [lia|].
    destruct (Z.eqb_spec k 9); [lia|]. destruct (Z.eqb_spec k 10); [lia|].
    assert (Hlow : Z.testbit (i_mode (n_inode n)) k && (k <? 16) = Z.testbit (i_mode (n_inode n)) k).
    { destruct (Z.ltb_spec k 16); [by rewrite andb_true_r|]. by rewrite Hhigh. }
    cbn [andb orb]. rewrite andb_true_r, Hlow, !andb_false_r, orb_false_r. by rewrite andb_true_r.
  - destruct (Z.ltb_spec k 12); [|lia].
    destruct (Z.eqb_spec k 9) as [->|]; [|destruct (Z.eqb_spec k 10) as [->|]].
    all: cbn [andb orb]; rewrite ?andb_true_r, ?andb_false_r, ?orb_false_r, ?negb_andb, ?negb_involutive.
    all: cbn [andb orb]; rewrite ?andb_false_r, ?andb_true_r, ?negb_involutive; try done.
Qed.

(** ** Updating the inode a path names *)
Section attributes.
Context {C : Type} `{HB : Backend C, HS : !BackendSpec C}.
Variable img : image.
Hypothesis Himg : image_sane img.
Local Abbreviation at_ := (inode_at img).
Local Abbreviation total := (cg_count (sb img) * inodes_per_group (sb img)).

(** The path names inode [no] for this caller; links at the end are not followed. *)
Definition names (ctx : write_ctx) (v : buf) (path : name) (no : Z) : Prop :=
  resolves img false (Some ctx) v NEXTUFS_MAX_LOOKUP_DEPTH NEXTUFS_ROOT_INODE
    (segments path) (Ok no) /\ 0 <= no < total.
(** Only inode [no] changes, to [ino]. *)
Definition updates (v v' : buf) (no : Z) (ino : inode) : Prop :=
  at_ v' no = ino /\ forall m, 0 <= m < total -> m <> no -> at_ v' m = at_ v m.

Lemma sane_block_size : 4 <= block_size (sb img).
Proof.
  pose proof (valid_geometry _ _ _ (sane_wf _ Himg) (sane_valid _ Himg)) as G.
  pose proof (geo_block_size _ G). lia.
Qed.

Lemma lookup_names ctx path (w w' : world C) n :
  bk_inv (w_ctx w) -> node_lookup_as ctx img path false w = (Ok n, w') ->
  names ctx (view w) path (n_inode_no n) /\ n_inode n = at_ (view w) (n_inode_no n) /\
  inode_wf (n_inode n) /\ i_size (n_inode n) <= INT32_MAX /\
  bk_inv (w_ctx w') /\ view w' ≡ view w.
Proof.
  intros Hinv Hr. unfold node_lookup_as in Hr.
  apply bind_ok in Hr as (f & w1 & H1 & Hr). injection Hr as <- <-.
  pose proof (lookup_quiet _ _ _ _ _ _ _ H1) as Hq.
  pose proof (lookup_ok img false (Some ctx) (view w) sane_block_size (bk_view_wf _ Hinv)
    (S NEXTUFS_MAX_LOOKUP_DEPTH) path w (Ok f) w1 (conj Hinv (reflexivity _)) H1)
    as ((Hat & Hwf & Hsz & Hrange) & Hres).
  cbn [n_inode n_inode_no node_of_found]. split_and!; try done; by apply Hq.
Qed.

(** Writing an inode back, and flushing. *)
Lemma write_back_ok no ino (w w' : world C) :
  0 <= no < total -> inode_wf ino -> bk_inv (w_ctx w) ->
  (write_inode_raw img no ino ;;; image_fsync img) w = (Ok tt, w') ->
  updates (view w) (view w') no ino.
Proof.
  intros Hno Hwf Hinv Hr. apply bind_ok in Hr as (u & w1 & H1 & H2). destruct u.
  apply write_inode_raw_ok in H1 as (Hi1 & _ & Ho & _ & Hv1); [|done].
  apply image_fsync_quiet in H2 as [_ Qv _ _]. specialize (Qv Hi1).
  assert (Hv : view w' ≡ blit (view w) (inode_offset (sb img) (slice_base img) no)
                            (encode_inode ino) UFS_INODE_SIZE) by by etrans.
  pose proof (inode_offset_bounds _ no Himg Hno) as [[? ?] ?]. split.
  - unfold inode_at. rewrite (decode_inode_eq_on _ (encode_inode ino)); [by apply decode_encode|].
    intros i Hi. unfold slice. rewrite (Hv _), blit_in by lia. f_equal. lia.
  - intros m Hm Hne. apply decode_inode_eq_on. intros i Hi. unfold slice.
    rewrite (Hv _). apply blit_out.
    pose proof (inode_slots_disjoint _ _ _ no m (sane_wf _ Himg) (sane_valid _ Himg) Hno Hm ltac:(done)).
    lia.
Qed.
Lemma updates_from v0 v v' no ino : v ≡ v0 -> updates v v' no ino -> updates v0 v' no ino.
Proof.
  intros Hv [Ha Hb]. split; [done|]. intros m Hm Hne. rewrite Hb by done.
  apply decode_inode_eq_on. intros i _. apply Hv.
Qed.

Lemma set_times_wf ino a m c : inode_wf ino -> 0 <= a < 2 ^ 32 -> 0 <= m < 2 ^ 32 ->
  0 <= c < 2 ^ 32 -> inode_wf (set_times ino a m c).
Proof. intros [] ???. by constructor. Qed.
Lemma set_mode_wf ino mode : inode_wf ino -> 0 <= mode < 2 ^ 16 -> inode_wf (set_mode ino mode).
Proof. intros [] ?. by constructor. Qed.
Lemma set_owner_wf ino u g : inode_wf ino -> 0 <= u < 2 ^ 16 -> 0 <= g < 2 ^ 16 ->
  inode_wf (set_owner ino u g).
Proof. intros [] ??. by constructor. Qed.
Lemma time_now_range (w w' : world C) t : time_now w = (Ok t, w') -> 0 <= t < 2 ^ 32.
Proof.
  unfold time_now. intros H. apply bind_ok in H as (x & w1 & _ & H). injection H as <- _.
  apply w32_range.
Qed.
Lemma mode_range m n : 0 <= n -> (forall k, n <= k -> Z.testbit m k = false) -> 0 <= m < 2 ^ n.
Proof.
  intros Hn H. assert (E : m = m mod 2 ^ n).
  { apply same_bits. intros k Hk. destruct (decide (k < n)).
    - by rewrite Z.mod_pow2_bits_low.
    - rewrite Z.mod_pow2_bits_high by lia. apply H. lia. }
  rewrite E. apply Z.mod_pos_bound. lia.
Qed.

(** The attributes that only chmod, chown and utimes may change. *)
Definition same_file_data (a b : inode) : Prop :=
  ifmt (i_mode a) = ifmt (i_mode b) /\ i_nlink a = i_nlink b /\ i_size a = i_size b /\
  i_db a = i_db b /\ i_ib a = i_ib b /\ i_flags a = i_flags b /\ i_blocks a = i_blocks b /\
  i_gen a = i_gen b.

Lemma chmod_mode_range ctx n mode :
  0 <= i_mode (n_inode n) < 2 ^ 16 -> 0 <= sanitize_chmod_mode ctx n mode < 2 ^ 16.
Proof.
  intros Hm. apply mode_range; [lia|]. intros k Hk. rewrite sanitize_chmod_bit by (done || lia).
  unfold chmod_bit. destruct (Z.leb_spec 12 k); [|lia].
  rewrite <- (Z.mod_small (i_mode (n_inode n)) (2 ^ 16)) by done. apply Z.mod_pow2_bits_high. lia.
Qed.
Lemma chmod_ifmt ctx n mode : 0 <= i_mode (n_inode n) < 2 ^ 16 ->
  ifmt (sanitize_chmod_mode ctx n mode) = ifmt (i_mode (n_inode n)).
Proof.
  intros Hm. apply same_bits. intros k Hk. rewrite !ifmt_bit, sanitize_chmod_bit by done.
  unfold chmod_bit. by destruct (12 <=? k); rewrite ?andb_false_r.
Qed.
Lemma clear_bits_range mode m : 0 <= mode < 2 ^ 16 -> 0 <= clear_bits mode m < 2 ^ 16.
Proof.
  intros Hm. apply mode_range; [lia|]. intros k Hk. rewrite clear_bits_bit by lia.
  rewrite <- (Z.mod_small mode (2 ^ 16)), Z.mod_pow2_bits_high by lia. done.
Qed.

Lemma chmod_effect ctx path mode (w w' : world C) :
  bk_inv (w_ctx w) -> chmod ctx path mode img w = (Ok tt, w') ->
  exists no now, names ctx (view w) path no /\ 0 <= now < 2 ^ 32 /\
    let old := at_ (view w) no in
    let n := Node (node_sector_size (sb img)) no (inode_offset (sb img) (slice_base img) no) old in
    inode_wf old /\ require_chmod_allowed ctx n = Ok tt /\
    updates (view w) (view w') no (set_ctime (set_mode old (sanitize_chmod_mode ctx n mode)) now).
Proof.
  intros Hinv Hr. unfold chmod in Hr.
  apply bind_ok in Hr as (n & w1 & H1 & Hr).
  apply lookup_names in H1 as (Hn & Hat & Hwf & _ & Hi1 & Hv1); [|done].
  apply bind_ok in Hr as (u & w2 & H2 & Hr). unfold of_result in H2. injection H2 as Hallow <-.
  apply bind_ok in Hr as (now & w3 & H3 & Hr).
  pose proof (time_now_range _ _ _ H3) as Hnow. apply time_now_quiet in H3 as [Qi Qv _ _].
  exists (n_inode_no n), now. split; [done|]. split; [done|]. cbv zeta.
  rewrite <- Hat. split; [done|]. destruct u. split; [exact Hallow|].
  apply write_back_ok in Hr; [|apply Hn| |by apply Qi].
  - eapply updates_from; [|exact Hr]. etrans; [by apply Qv|done].
  - apply set_times_wf; [|apply Hwf|apply Hwf|done]. apply set_mode_wf; [done|].
    apply chmod_mode_range, Hwf.
Qed.

(** What chown leaves in the inode. *)
Definition chowned (ctx : write_ctx) (old : inode) (uid gid : Z) : inode :=
  let ino := set_owner old (w16 (if uid =? NO_ID then i_uid old else uid))
                           (w16 (if gid =? NO_ID then i_gid old else gid)) in
  if restricted ctx then set_mode ino (clear_bits (i_mode old) (Z.lor S_ISUID S_ISGID)) else ino.
Lemma chowned_wf ctx old uid gid : inode_wf old -> inode_wf (chowned ctx old uid gid).
Proof.
  intros Hwf. unfold chowned. destruct (restricted ctx).
  - apply set_mode_wf; [|apply clear_bits_range, Hwf]. apply set_owner_wf; auto using w16_range.
  - apply set_owner_wf; auto using w16_range.
Qed.

Lemma chown_effect ctx path uid gid (w w' : world C) :
  bk_inv (w_ctx w) -> chown ctx path uid gid img w = (Ok tt, w') ->
  exists no now, names ctx (view w) path no /\ 0 <= now < 2 ^ 32 /\
    let old := at_ (view w) no in
    inode_wf old /\
    require_chown_allowed ctx
      (Node (node_sector_size (sb img)) no (inode_offset (sb img) (slice_base img) no) old)
      (if uid =? NO_ID then i_uid old else uid) (if gid =? NO_ID then i_gid old else gid) = Ok tt /\
    updates (view w) (view w') no (set_ctime (chowned ctx old uid gid) now).
Proof.
  intros Hinv Hr. unfold chown in Hr.
  apply bind_ok in Hr as (n & w1 & H1 & Hr).
  apply lookup_names in H1 as (Hn & Hat & Hwf & _ & Hi1 & Hv1); [|done].
  apply bind_ok in Hr as (u & w2 & H2 & Hr). unfold of_result in H2. injection H2 as Hallow <-.
  apply bind_ok in Hr as (now & w3 & H3 & Hr).
  pose proof (time_now_range _ _ _ H3) as Hnow. apply time_now_quiet in H3 as [Qi Qv _ _].
  exists (n_inode_no n), now. split; [done|]. split; [done|]. cbv zeta.
  rewrite <- Hat. split; [done|]. destruct u. split; [exact Hallow|].
  apply write_back_ok in Hr; [|apply Hn| |by apply Qi].
  - eapply updates_from; [|exact Hr]. etrans; [by apply Qv|done].
  - pose proof (chowned_wf ctx (n_inode n) uid gid Hwf) as Hc.
    apply set_times_wf; [exact Hc| | |done]; apply Hc.
Qed.

Lemma utimes_effect ctx path atime mtime (w w' : world C) :
  0 <= atime < 2 ^ 32 -> 0 <= mtime < 2 ^ 32 ->
  bk_inv (w_ctx w) -> utimes ctx path atime mtime img w = (Ok tt, w') ->
  exists no now, names ctx (view w) path no /\
    let old := at_ (view w) no in
    (restricted ctx = true -> c_uid ctx = i_uid old) /\
    updates (view w) (view w') no (set_times old atime mtime now).
Proof.
  intros Ha Hm Hinv Hr. unfold utimes in Hr.
  apply bind_ok in Hr as (n & w1 & H1 & Hr).
  apply lookup_names in H1 as (Hn & Hat & Hwf & _ & Hi1 & Hv1); [|done].
  apply bind_ok in Hr as (u & w2 & H2 & Hr). apply fail_if_ok in H2 as [Hallow ->].
  apply bind_ok in Hr as (now & w3 & H3 & Hr).
  pose proof (time_now_range _ _ _ H3) as Hnow. apply time_now_quiet in H3 as [Qi Qv _ _].
  exists (n_inode_no n), now. split; [done|]. cbv zeta. rewrite <- Hat. split.
  - unfold restricted. intros Hres. rewrite Hres in Hallow. cbn [andb] in Hallow.
    destruct (Z.eqb_spec (c_uid ctx) (i_uid (n_inode n))); [done|].
    by destruct (is_user ctx), (ctx_is_root ctx).
  - apply write_back_ok in Hr; [|apply Hn|by apply set_times_wf|by apply Qi].
    eapply updates_from; [|exact Hr]. etrans; [by apply Qv|done].
Qed.

(** ** Properties *)

(** C28. A successful chmod was asked for by the owner or a privileged caller and
  changes one inode, the one the path names: its type stays, its permission bits are
  the requested ones, and for ordinary users the sticky bit survives on directories
  only and the set-group bit for members of the group only. *)
Theorem chmod_correct ctx path mode (w w' : world C)
    (Hinv : bk_inv (w_ctx w)) (Hrun : chmod ctx path mode img w = (Ok tt, w')) :
  exists no mode' now, names ctx (view w) path no /\
    let old := at_ (view w) no in
    (restricted ctx = true -> c_uid ctx = i_uid old) /\
    (forall k, 0 <= k -> Z.testbit mode' k = chmod_bit ctx old mode k) /\
    updates (view w) (view w') no (set_ctime (set_mode old mode') now).
Proof.
  apply chmod_effect in Hrun as (no & now & Hn & _ & Hwf & Hallow & Hup); [|done].
  eexists no, _, now. split; [done|]. cbv zeta in Hallow |- *. split; [|split; [|exact Hup]].
  - unfold require_chmod_allowed, restricted in *. cbn [n_inode] in Hallow.
    destruct (is_user ctx); [|done]. destruct (ctx_is_root ctx); [done|].
    cbn [negb andb orb] in *. intros _.
    destruct (Z.eqb_spec (c_uid ctx) (i_uid (at_ (view w) no))); done.
  - intros k Hk. apply sanitize_chmod_bit; [apply Hwf|done].
Qed.

(** C29. A successful chown by an ordinary user leaves the owner as it is, was asked for
  by that owner, moves the file only into a group of the caller, and clears the
  set-user and set-group bits; whoever asks, only the named inode changes, and only in
  its owner, group, those two bits and the change time. *)
Theorem chown_correct ctx path uid gid (w w' : world C)
    (Hinv : bk_inv (w_ctx w)) (Hrun : chown ctx path uid gid img w = (Ok tt, w')) :
  exists no now, names ctx (view w) path no /\
    let old := at_ (view w) no in
    let new := at_ (view w') no in
    (restricted ctx = true ->
       c_uid ctx = i_uid old /\ i_uid new = i_uid old /\
       ctx_in_group ctx (if gid =? NO_ID then i_gid old else gid) = true /\
       Z.testbit (i_mode new) 11 = false /\ Z.testbit (i_mode new) 10 = false) /\
    (forall k, 0 <= k -> k <> 10 -> k <> 11 -> Z.testbit (i_mode new) k = Z.testbit (i_mode old) k) /\
    i_uid new = w16 (if uid =? NO_ID then i_uid old else uid) /\
    i_gid new = w16 (if gid =? NO_ID then i_gid old else gid) /\
    updates (view w) (view w') no
      (set_ctime (set_mode (set_owner old (i_uid new) (i_gid new)) (i_mode new)) now).
Proof.
  apply chown_effect in Hrun as (no & now & Hn & _ & Hwf & Hallow & Hup); [|done].
  exists no, now. split; [done|]. pose proof (proj1 Hup) as Hnew.
  cbv zeta in Hallow |- *. rewrite Hnew. set (old := at_ (view w) no) in *.
  assert (Hbit : forall k, 0 <= k -> Z.testbit (i_mode (chowned ctx old uid gid)) k =
    Z.testbit (i_mode old) k && negb (restricted ctx && ((k =? 11) || (k =? 10)))).
  { intros k Hk. unfold chowned. destruct (restricted ctx); [|by rewrite andb_true_r].
    cbn [i_mode set_mode set_owner]. rewrite clear_bits_bit, Z.lor_spec by done.
    change S_ISUID with (2 ^ 11). change S_ISGID with (2 ^ 10).
    by rewrite !Z.pow2_bits_eqb, (Z.eqb_sym 11), (Z.eqb_sym 10). }
  split_and!.
  - intros Hres. unfold require_chown_allowed in Hallow. unfold restricted in Hres.
    destruct (is_user ctx) eqn:Eu; [|done]. destruct (ctx_is_root ctx) eqn:Er; [done|].
    cbn [negb n_inode] in Hallow.
    destruct (Z.eqb_spec (c_uid ctx) (i_uid old)); [|done]. cbn [negb] in Hallow.
    destruct (Z.eqb_spec (if uid =? NO_ID then i_uid old else uid) (i_uid old)) as [Hu|]; [|done].
    cbn [negb] in Hallow. destruct (ctx_in_group ctx _) eqn:Eg; [|done].
    assert (Hr : restricted ctx = true) by by unfold restricted; rewrite Eu, Er.
    split_and!; [done| |done| |].
    + unfold chowned. rewrite Hr. cbn [set_ctime set_times i_uid set_mode set_owner].
      rewrite Hu. unfold w16. rewrite Z.mod_small; [done|apply Hwf].
    + cbn [set_ctime set_times i_mode]. rewrite Hbit, Hr by done. by rewrite andb_false_r.
    + cbn [set_ctime set_times i_mode]. rewrite Hbit, Hr by done. by rewrite andb_false_r.
  - intros k Hk H10 H11. cbn [set_ctime set_times i_mode]. rewrite Hbit by done.
    destruct (Z.eqb_spec k 11); [done|]. destruct (Z.eqb_spec k 10); [done|].
    by rewrite andb_false_r, andb_true_r.
  - unfold chowned. by destruct (restricted ctx).
  - unfold chowned. by destruct (restricted ctx).
  - replace (set_ctime _ now) with (set_ctime (chowned ctx old uid gid) now); [done|].
    unfold chowned. by destruct (restricted ctx), old.
Qed.

(** C30. File types are preserved: chmod, chown and utimes leave the type, the links, the
  size, the blocks and the generation of every inode of the filesystem as they were. *)
Theorem attributes_keep_types ctx path (w w' : world C) m
    (Hinv : bk_inv (w_ctx w)) (Hm : 0 <= m < total)
    (Hrun : (exists mode, chmod ctx path mode img w = (Ok tt, w')) \/
            (exists uid gid, chown ctx path uid gid img w = (Ok tt, w')) \/
            (exists atime mtime, (0 <= atime < 2 ^ 32) /\ (0 <= mtime < 2 ^ 32) /\
               utimes ctx path atime mtime img w = (Ok tt, w'))) :
  same_file_data (at_ (view w') m) (at_ (view w) m).
Proof.
  assert (H : exists no ino, updates (view w) (view w') no ino /\
    same_file_data ino (at_ (view w) no)).
  { destruct Hrun as [(mode & Hr)|[(uid & gid & Hr)|(a & t & Ha & Ht & Hr)]].
    - apply chmod_effect in Hr as (no & now & _ & _ & Hwf & _ & Hup); [|done].
      eexists no, _. split; [exact Hup|]. split; [|done]. apply chmod_ifmt, Hwf.
    - apply chown_effect in Hr as (no & now & _ & _ & Hwf & _ & Hup); [|done].
      eexists no, _. split; [exact Hup|]. unfold chowned.
      destruct (restricted ctx); [|done]. split; [|done]. apply same_bits. intros k Hk.
      rewrite !ifmt_bit by done. cbn [set_ctime set_times set_mode i_mode].
      rewrite clear_bits_bit, Z.lor_spec by done.
      change S_ISUID with (2 ^ 11). change S_ISGID with (2 ^ 10). rewrite !Z.pow2_bits_eqb by done.
      destruct (Z.leb_spec 12 k); [|by rewrite !andb_false_r].
      destruct (Z.eqb_spec 11 k); [lia|]. destruct (Z.eqb_spec 10 k); [lia|].
      by rewrite andb_true_r.
    - apply utimes_effect in Hr as (no & now & _ & _ & Hup); [|done..].
      eexists no, _. split; [exact Hup|done]. }
  destruct H as (no & ino & [Hat Ho] & Hs).
  destruct (decide (m = no)) as [->|Hne]; [by rewrite Hat|]. by rewrite Ho.
Qed.
End attributes.

(** ** Witnesses, on the sample tree *)
(** The owner of "a", also in group 8. *)
Definition plain_user : write_ctx := WriteCtx NEXTUFS_WRITE_USER 7 7 [8].
Definition tree_path (c : Z) : name := [slash; c].

Lemma chmod_correct_witness :
  let run := chmod plain_user (tree_path 97) 0xf80 mini_image tree_world in
  fst run = Ok tt /\
  exists no mode' now, names mini_image plain_user (view tree_world) (tree_path 97) no /\
    updates mini_image (view tree_world) (view (snd run)) no
      (set_ctime (set_mode (inode_at mini_image (view tree_world) no) mode') now).
Proof.
  intros run. assert (Hr : fst run = Ok tt) by (vm_compute; reflexivity). split; [exact Hr|].
  destruct (chmod_correct mini_image mini_image_sane plain_user (tree_path 97) 0xf80
    tree_world (snd run) tree_world_inv) as (no & mode' & now & Hn & _ & _ & Hu).
  - rewrite <- Hr. apply surjective_pairing.
  - exists no, mode', now. split; [exact Hn|exact Hu].
Defined.

Lemma chown_correct_witness :
  let run := chown plain_user (tree_path 97) 7 8 mini_image tree_world in
  fst run = Ok tt /\
  exists no, names mini_image plain_user (view tree_world) (tree_path 97) no /\
    i_uid (inode_at mini_image (view (snd run)) no) = 7 /\
    i_gid (inode_at mini_image (view (snd run)) no) = 8.
Proof.
  intros run. assert (Hr : fst run = Ok tt) by (vm_compute; reflexivity). split; [exact Hr|].
  destruct (chown_correct mini_image mini_image_sane plain_user (tree_path 97) 7 8
    tree_world (snd run) tree_world_inv) as (no & now & Hn & _ & _ & Hu & Hg & _).
  - rewrite <- Hr. apply surjective_pairing.
  - exists no. split; [exact Hn|]. split; [exact Hu|exact Hg].
Defined.

Lemma attributes_keep_types_witness :
  let run := utimes plain_user (tree_path 97) 5 6 mini_image tree_world in
  fst run = Ok tt /\
  same_file_data (inode_at mini_image (view (snd run)) 3) (inode_at mini_image (view tree_world) 3).
Proof.
  intros run. assert (Hr : fst run = Ok tt) by (vm_compute; reflexivity). split; [exact Hr|].
  apply (attributes_keep_types mini_image mini_image_sane plain_user (tree_path 97)
    tree_world (snd run) 3 tree_world_inv).
  - vm_compute. split; [discriminate|reflexivity].
  - right. right. exists 5, 6. split; [split; [discriminate|reflexivity]|].
    split; [split; [discriminate|reflexivity]|]. rewrite <- Hr. apply surjective_pairing.
Defined.
