(* ===== verification/Session.v ===== *)
(** * Mutations as transactions, one-shot and in write sessions

    nextufs__open_image_rw, finish_mutation, the write session and the exported path
    operations of src/src/mutate/mutate.c.  A write session owns the opened image; a
    one-shot operation opens the source, marks it dirty, runs and restores the mark.
    What the host says about the image path (can it be opened, is it the file of the
    session) is the [target] argument. *)
From S2P Require Import Prelude.
From S2P Require Import Bytes.
From S2P Require Import Backend.
From S2P Require Import Superblock.
From S2P Require Import Image.
From S2P Require Import Inode.
From S2P Require Import BlockMap.
From S2P Require Import FileIO.
From S2P Require Import Dirent.
From S2P Require Import Directory.
From S2P Require Import Node.
From S2P Require Import Path.
From S2P Require Import Label.
From S2P Require Import Open.
From S2P Require Import Policy.
From S2P Require Import Mutate.

(** [struct nextufs_write_session] *)
Record session := Session { s_image : image; s_failed : bool }.
Record sworld (C : Type) := SWorld { s_world : world C; s_session : option session }.
Arguments SWorld {C} _ _.
Arguments s_world {C} _.
Arguments s_session {C} _.

(** The host's answers about an image path. *)
Record target := Target {
  source : result image;      (* what init_backend sets up when it opens the path *)
  same_file : result bool;    (* stat against fstat of the session's descriptor *)
}.

(** A host file: its size, what fread delivers and whether it reports an error. *)
Record host_file := HostFile { hf_size : Z; hf_read : Z; hf_error : bool; hf_data : buf }.

Definition with_unprivileged (img : image) (u : bool) : image :=
  with_flags img u (restore_clean img) (fs_write_active img).
(** A result as the status code of finish_mutation. *)
Definition status {A} (r : result A) : result unit :=
  match r with Ok _ => Ok tt | Err e => Err e end.
Definition is_euclean {A} (r : result A) : bool :=
  match r with Err EUCLEAN => true | _ => false end.

(** ** One operation of the interface, as a value *)
Inductive operation :=
  | OpCreateFile (path : name) (data : buf) (len : Z)
  | OpCreateFromHost (path : name) (host : result host_file)
  | OpUnlink (path : name)
  | OpMkdir (path : name) (mode : Z)
  | OpOverwrite (path : name) (data : buf) (len : Z)
  | OpAppend (path : name) (data : buf) (len : Z)
  | OpRmdir (path : name)
  | OpLink (source_path target_path : name)
  | OpSymlink (link_target link_path : name)
  | OpTruncate (path : name) (size : Z)
  | OpPwrite (path : name) (data : buf) (len offset : Z)
  | OpMknod (path : name) (mode rdev : Z)
  | OpRename (source_path target_path : name)
  | OpChmod (path : name) (mode : Z)
  | OpChown (path : name) (uid gid : Z)
  | OpUtimes (path : name) (atime mtime : Z)
  | OpUpdateOpened (ino gen : Z) (data : buf) (len offset : Z) (truncating : bool).

Section session.
Context {C : Type} `{!Backend C}.
Local Abbreviation M := (M (world C)).
Local Abbreviation MS := (Prelude.M (sworld C)).

Definition on_world_of {A} (m : M A) : MS A := fun s =>
  let (r, w) := m (s_world s) in (r, SWorld w (s_session s)).
Definition get_session : MS (option session) := fun s => (Ok (s_session s), s).
Definition put_session (x : session) : MS unit := fun s => (Ok tt, SWorld (s_world s) (Some x)).

Definition close_quietly (img : image) : M unit := attempt (image_close img) ;;; ret tt.
(** Open and mark dirty, closing again on failure. *)
Definition open_and_begin (src : result image) : M image :=
  let! src := of_result src in
  let! img := image_open_rw src in
  let! rc := attempt (write_begin img) in
  match rc with
  | Ok img => ret img
  | Err e => close_quietly img ;;; fail e
  end.

Definition write_session_open (tgt : target) : MS unit :=
  let! img := on_world_of (open_and_begin (source tgt)) in
  put_session (Session img false).
Definition write_session_close : MS unit :=
  let! s := get_session in
  match s with
  | None => ret tt
  | Some s =>
      let! rc := attempt (on_world_of (write_finish (s_image s) (negb (s_failed s)))) in
      let img := match rc with Ok img => img | Err _ => s_image s end in
      let! img := on_world_of (image_close img) in
      put_session (Session img true) ;;;
      of_result (status rc)
  end.

Definition open_image_rw (ctx : write_ctx) (tgt : target) : MS image :=
  let! s := get_session in
  let! img :=
    match s with
    | Some s =>
        if s_failed s then fail EIO
        else
          let! same := of_result (same_file tgt) in
          if (same : bool) then ret (s_image s) else fail ESTALE
    | None => on_world_of (open_and_begin (source tgt))
    end in
  let img := with_unprivileged img (is_user ctx && negb (ctx_is_root ctx)) in
  let! rc := attempt (on_world_of transaction_begin) in
  match rc with
  | Ok _ => ret img
  | Err e =>
      match s with
      | Some _ => fail e
      | None =>
          on_world_of (attempt (write_finish img true) ;;; close_quietly img) ;;; fail e
      end
  end.

(** The clean mark of a successful one-shot operation is written outside the
    transaction, which is still there to undo the operation if that fails. *)
Definition finish_clean (img : image) : M (result image) :=
  let! t := get_tx in
  put_tx None ;;;
  let! rc := attempt (write_finish img true) in
  put_tx t ;;;
  ret rc.
Definition finish_one_shot (img : image) (rc : result unit) : M unit :=
  let! '(img, rc) :=
    match rc with
    | Ok _ =>
        let! r := finish_clean img in
        ret (match r with Ok img => (img, Ok tt) | Err e => (img, Err e) end)
    | Err e => ret (img, Err e)
    end in
  let! rc := attempt (transaction_end rc) in
  let! finish := attempt (write_finish img (negb (is_euclean rc))) in
  let img := match finish with Ok img => img | Err _ => img end in
  close_quietly img ;;;
  of_result (match finish with Ok _ => rc | Err e => Err e end).
(** The session's superblock is read again; a session that cannot be trusted any more
    refuses every later operation. *)
Definition finish_in_session (s : session) (rc : result unit) : MS unit :=
  let! rc := attempt (on_world_of (transaction_end rc)) in
  let! refresh := attempt (on_world_of (image_refresh (s_image s))) in
  put_session (Session (match refresh with Ok img => img | Err _ => s_image s end)
                 (s_failed s || is_euclean rc || negb (is_ok refresh))) ;;;
  of_result (match rc with Ok _ => status refresh | Err e => Err e end).
Definition finish_mutation (img : image) (rc : result unit) : MS unit :=
  let! s := get_session in
  match s with
  | None => on_world_of (finish_one_shot img rc)
  | Some s => finish_in_session s rc
  end.

(** open -- body -- finish *)
Definition mutation (ctx : write_ctx) (tgt : target) (body : image -> M unit) : MS unit :=
  let! img := open_image_rw ctx tgt in
  let! rc := attempt (on_world_of (body img)) in
  finish_mutation img rc.

(** ** The exported operations *)
Definition PATH_SIZE : Z := 4096.
Definition NAME_SIZE : Z := 256.
Definition split (path : name) : MS (name * name) :=
  of_result (path_split path PATH_SIZE NAME_SIZE).
(** The checks most operations on a new or removed name begin with. *)
Definition split_named (ctx : write_ctx) (path : name) : MS (name * name) :=
  of_result (require_ctx_ids_fit ctx) ;;;
  let! '(parent_path, nm) := split path in
  of_result (disallow_dot_names nm) ;;;
  ret (parent_path, nm).

Definition path_create_file (ctx : write_ctx) (tgt : target) (path : name) (data : buf)
    (data_len : Z) : MS unit :=
  let! '(parent_path, nm) := split_named ctx path in
  mutation ctx tgt (create_file ctx path parent_path nm data data_len).

Definition path_create_file_from_hostfile (ctx : write_ctx) (tgt : target) (path : name)
    (host : result host_file) : MS unit :=
  let! h := of_result host in
  if INT32_MAX <? hf_size h then fail EFBIG
  else
    on_world_of (malloc (if hf_size h =? 0 then 1 else hf_size h)) ;;;
    if negb (hf_read h =? hf_size h) then fail (if hf_error h then EIO else EINVAL)
    else path_create_file ctx tgt path (hf_data h) (hf_size h).

Definition path_unlink (ctx : write_ctx) (tgt : target) (path : name) : MS unit :=
  let! '(parent_path, nm) := split_named ctx path in
  mutation ctx tgt (unlink ctx path parent_path nm).
Definition path_mkdir (ctx : write_ctx) (tgt : target) (path : name) (mode : Z) : MS unit :=
  let! '(parent_path, nm) := split_named ctx path in
  mutation ctx tgt (mkdir ctx path parent_path nm mode).
Definition rewrite_contents (ctx : write_ctx) (tgt : target) (path : name) (data : buf)
    (data_len : Z) (append : bool) : MS unit :=
  of_result (require_ctx_ids_fit ctx) ;;;
  mutation ctx tgt (rewrite_file_contents ctx path data data_len append).
Definition path_overwrite_file (ctx : write_ctx) (tgt : target) (path : name) (data : buf)
    (data_len : Z) : MS unit := rewrite_contents ctx tgt path data data_len false.
Definition path_append_file (ctx : write_ctx) (tgt : target) (path : name) (data : buf)
    (data_len : Z) : MS unit := rewrite_contents ctx tgt path data data_len true.
(** Unlike the others, this one takes names like "." *)
Definition path_rmdir (ctx : write_ctx) (tgt : target) (path : name) : MS unit :=
  of_result (require_ctx_ids_fit ctx) ;;;
  let! '(parent_path, nm) := split path in
  mutation ctx tgt (rmdir ctx path parent_path nm).
Definition path_link (ctx : write_ctx) (tgt : target) (source_path target_path : name)
    : MS unit :=
  let! '(parent_path, nm) := split_named ctx target_path in
  mutation ctx tgt (link ctx source_path target_path parent_path nm).
Definition path_symlink (ctx : write_ctx) (tgt : target) (link_target link_path : name)
    : MS unit :=
  let! '(parent_path, nm) := split_named ctx link_path in
  mutation ctx tgt (symlink ctx link_target link_path parent_path nm).
(** [size > SIZE_MAX] cannot happen where [size_t] has 64 bits. *)
Definition path_truncate (ctx : write_ctx) (tgt : target) (path : name) (size : Z) : MS unit :=
  of_result (require_ctx_ids_fit ctx) ;;;
  mutation ctx tgt (truncate ctx path size).
Definition path_pwrite (ctx : write_ctx) (tgt : target) (path : name) (data : buf)
    (data_len offset : Z) : MS unit :=
  if UINT64_MAX - offset <? data_len then fail EFBIG
  else
    of_result (require_ctx_ids_fit ctx) ;;;
    mutation ctx tgt (pwrite_file ctx path data data_len offset).
Definition path_mknod (ctx : write_ctx) (tgt : target) (path : name) (mode rdev : Z)
    : MS unit :=
  let fmt := ifmt mode in
  if is_user ctx && negb (ctx_is_root ctx) && negb (fmt =? NEXTUFS_IFREG) &&
     negb (fmt =? NEXTUFS_IFIFO) then fail EPERM
  else if negb (fmt =? NEXTUFS_IFREG) && negb (fmt =? NEXTUFS_IFIFO) &&
          negb (fmt =? NEXTUFS_IFCHR) && negb (fmt =? NEXTUFS_IFBLK) &&
          negb (fmt =? NEXTUFS_IFSOCK) then fail EINVAL
  else
    let! '(parent_path, nm) := split_named ctx path in
    mutation ctx tgt (mknod ctx path parent_path nm mode rdev).
Definition path_rename (ctx : write_ctx) (tgt : target) (source_path target_path : name)
    : MS unit :=
  let! '(old_parent_path, old_name) := split_named ctx source_path in
  let! '(new_parent_path, new_name) := split target_path in
  of_result (disallow_target_dot_names new_name) ;;;
  mutation ctx tgt (rename ctx source_path old_parent_path old_name
                      target_path new_parent_path new_name).
Definition path_chmod (ctx : write_ctx) (tgt : target) (path : name) (mode : Z) : MS unit :=
  of_result (require_ctx_ids_fit ctx) ;;;
  mutation ctx tgt (chmod ctx path mode).
Definition path_chown (ctx : write_ctx) (tgt : target) (path : name) (uid gid : Z) : MS unit :=
  of_result (require_ctx_ids_fit ctx) ;;;
  of_result (require_owner_ids_fit uid gid) ;;;
  mutation ctx tgt (chown ctx path uid gid).
Definition path_utimes (ctx : write_ctx) (tgt : target) (path : name) (atime mtime : Z)
    : MS unit :=
  of_result (require_ctx_ids_fit ctx) ;;;
  mutation ctx tgt (utimes ctx path atime mtime).
Definition update_opened_file (ctx : write_ctx) (tgt : target) (ino gen : Z) (data : buf)
    (len offset : Z) (truncating : bool) : MS unit :=
  mutation ctx tgt (opened_file_update ino gen data len offset truncating).

Definition run_op (ctx : write_ctx) (tgt : target) (op : operation) : MS unit :=
  match op with
  | OpCreateFile p d n => path_create_file ctx tgt p d n
  | OpCreateFromHost p h => path_create_file_from_hostfile ctx tgt p h
  | OpUnlink p => path_unlink ctx tgt p
  | OpMkdir p mode => path_mkdir ctx tgt p mode
  | OpOverwrite p d n => path_overwrite_file ctx tgt p d n
  | OpAppend p d n => path_append_file ctx tgt p d n
  | OpRmdir p => path_rmdir ctx tgt p
  | OpLink p q => path_link ctx tgt p q
  | OpSymlink t p => path_symlink ctx tgt t p
  | OpTruncate p n => path_truncate ctx tgt p n
  | OpPwrite p d n off => path_pwrite ctx tgt p d n off
  | OpMknod p mode rdev => path_mknod ctx tgt p mode rdev
  | OpRename p q => path_rename ctx tgt p q
  | OpChmod p mode => path_chmod ctx tgt p mode
  | OpChown p u g => path_chown ctx tgt p u g
  | OpUtimes p a m => path_utimes ctx tgt p a m
  | OpUpdateOpened i g d n off t => update_opened_file ctx tgt i g d n off t
  end.
End session.
