(* ===== verification/Transact.v ===== *)
(** * What an operation leaves behind, one-shot or in a session

    Every exported operation either stops before it opens the image or is
    open -- body -- finish with a body that writes through the undo log ([Guarded]).
    The facts here follow the undo log and the clean mark through
    nextufs__open_image_rw and finish_mutation of src/src/mutate/mutate.c; the
    properties at the end are about every operation of the interface and, by rule
    induction, about every history of calls in a write session. *)
From S2P Require Import Prelude.
From S2P Require Import Bytes.
From S2P Require Import Backend.
From S2P Require Import Superblock.
From S2P Require Import Image.
From S2P Require Import Inode.
From S2P Require Import BlockMap.
From S2P Require Import FileIO.
From S2P Require Import Dirent.
From S2P Require Import Directory.
From S2P Require Import Node.
From S2P Require Import Path.
From S2P Require Import Label.
From S2P Require Import Open.
From S2P Require Import Policy.
From S2P Require Import Mutate.
From S2P Require Import Session.

(** Two contents that agree except, perhaps, on one byte. *)
Definition same_but (o : option Z) (v v' : buf) : Prop := forall i, o <> Some i -> v' i = v i.
#[export] Instance same_but_preorder o : PreOrder (same_but o).
Proof. split; [by intros ??|]. intros v1 v2 v3 H1 H2 i Hi. by rewrite H2, H1. Qed.
Lemma equiv_same_but o (v v' : buf) : v' ≡ v -> same_but o v v'.
Proof. intros H i _. apply H. Qed.
#[export] Hint Resolve equiv_same_but : core.

(** The image a one-shot operation works on, and where its state byte is. *)
Definition opened `{Backend C} (tgt : target) (w : world C) : option image :=
  match source tgt with
  | Ok src => match fst (image_open_rw src w) with Ok img => Some img | Err _ => None end
  | Err _ => None
  end.
Definition state_byte `{Backend C} (tgt : target) (w : world C) : option Z :=
  state_off <$> opened tgt w.
(** Sources whose sizes fit [off_t] with room for a log record. *)
Definition target_ok (tgt : target) : Prop := forall src, source tgt = Ok src -> image_ok src.

Section transact.
Context {C : Type} `{HB : Backend C, HS : !BackendSpec C}.
Implicit Types (w : world C) (s : sworld C).

(** ** Steps outside a transaction that change at most the state byte *)
Record unlogged (o : option Z) w w' : Prop := Unlogged {
  ul_inv : bk_inv (w_ctx w) -> bk_inv (w_ctx w');
  ul_view : bk_inv (w_ctx w) -> w_tx w = None -> same_but o (view w) (view w');
  ul_tx : w_tx w = None -> w_tx w' = None;
  ul_env : env_same (w_env w) (w_env w');
}.
#[export] Instance unlogged_preorder o : PreOrder (unlogged o).
Proof.
  split; [by constructor|]. intros w1 w2 w3 [I1 V1 T1 E1] [I2 V2 T2 E2].
  constructor; [by auto| |by auto|by etrans].
  intros Hi Ht. etrans; [by apply V1|]. apply V2; auto.
Qed.
Lemma quiet_unlogged o {A} (m : M (world C) A) : Stable quiet m -> Stable (unlogged o) m.
Proof.
  intros Hq w r w' Hm. destruct (Hq _ _ _ Hm) as [Qi Qv Qt Qe].
  constructor; [done|auto|congruence|done].
Qed.
Local Hint Extern 4 (Stable (unlogged _) _) =>
  (apply quiet_unlogged; solve [eauto with stable]) : stable.

Lemma write_state_tx img st w r w' :
  write_state img st w = (r, w') -> w_tx w = None -> w_tx w' = None.
Proof.
  intros Hr Ht. unfold write_state, write_exact in Hr.
  destruct (negb (backend_open img)); [by injection Hr as _ <-|].
  destruct (negb (writable img)); [by injection Hr as _ <-|].
  destruct (_ || _) in Hr; [by injection Hr as _ <-|].
  unfold transaction_record, bind, get_tx, ret, lift in Hr. rewrite Ht in Hr.
  destruct (bk_write _ _ _ _) as [r1 c1]. injection Hr as _ <-. done.
Qed.
Lemma write_state_unlogged img st o :
  o = Some (state_off img) -> Stable (unlogged o) (write_state (C:=C) img st).
Proof.
  intros -> w r w' Hr. constructor.
  - intros Hi. by apply write_state_spec in Hr as (? & _).
  - intros Hi _ i Hne. apply write_state_spec in Hr as (_ & _ & Hfr & _); [|done].
    apply Hfr. congruence.
  - by eapply write_state_tx.
  - clear -HS Hr. unfold write_state, write_exact in Hr.
    destruct (negb (backend_open img)); [by injection Hr as _ <-|].
    destruct (negb (writable img)); [by injection Hr as _ <-|].
    destruct (_ || _) in Hr; [by injection Hr as _ <-|].
    apply bind_inv in Hr as [(u & w1 & H1 & Hr)|(e & H1 & _)];
      apply transaction_record_viewed in H1 as [_ _ He]; [|done].
    unfold lift in Hr. destruct (bk_write _ _ _ _) as [r1 c1]. by injection Hr as _ <-.
Qed.
Local Hint Extern 3 (Stable (unlogged _) (write_state _ _)) =>
  (apply write_state_unlogged; reflexivity) : stable.

Lemma write_begin_unlogged img :
  Stable (unlogged (Some (state_off img))) (write_begin (C:=C) img).
Proof. unfold write_begin. solve_stable. Qed.
Lemma write_finish_unlogged img safe o :
  o = Some (state_off img) -> Stable (unlogged o) (write_finish (C:=C) img safe).
Proof. intros ->. unfold write_finish. solve_stable. Qed.

(** Closing when no transaction is open touches nothing. *)
Lemma image_close_idle img w : w_tx w = None -> snd (image_close img w) = w.
Proof. intros Ht. unfold image_close, cancel_transaction, bind, get_tx. by rewrite Ht. Qed.
Lemma close_quietly_idle img w r w' :
  close_quietly img w = (r, w') -> w_tx w = None -> r = Ok tt /\ w' = w.
Proof.
  intros Hr Ht. pose proof (image_close_idle img w Ht) as Hc.
  unfold close_quietly, attempt, bind, ret in Hr.
  destruct (image_close img w) as [r1 w1]. cbn in Hc. subst w1. by injection Hr as <- <-.
Qed.

(** ** The undo log when the state byte was written behind its back *)
Definition undoable_but (o : option Z) (d0 : buf) w : Prop :=
  restorable (fun rs => same_but o d0 (undo rs (view w))) w.

Lemma undo_same_but o rs : forall v v', same_but o v v' -> same_but o (undo rs v) (undo rs v').
Proof.
  induction rs as [|x rs IH]; intros v v' H; cbn [undo]; [done|].
  apply IH. intros i Hi. unfold blit. case_match; [done|by apply H].
Qed.

Lemma transaction_end_but o e d0 w r w' :
  undoable_but o d0 w -> transaction_end (Err e) w = (r, w') ->
  bk_inv (w_ctx w') /\ w_tx w' = None /\ env_same (w_env w) (w_env w') /\
  ((r = Err e /\ same_but o d0 (view w')) \/ r = Err EUCLEAN).
Proof.
  intros Hu Hr. eapply transaction_end_restores in Hr as (? & ? & ? & H); [|exact Hu].
  split_and!; [done..|]. destruct H as [(-> & rs & HP & Hv)|]; [left|by right]. split; [done|].
  etrans; [exact HP|]. by apply equiv_same_but.
Qed.
Lemma undoable_weaken o d0 w : undoable d0 w -> undoable_but o d0 w.
Proof.
  intros H. eapply restorable_step; [exact H| |done..]. intros rs HP. by apply equiv_same_but.
Qed.

(** Steps with the log put aside: what they change is not undone. *)
Lemma undoable_aside o d0 t w w1 :
  undoable_but o d0 w -> w_tx w = t -> unlogged o (World (w_ctx w) None (w_env w)) w1 ->
  undoable_but o d0 (World (w_ctx w1) t (w_env w1)).
Proof.
  intros Hu <- [Ui Uv Ut Ue]. eapply restorable_step; [exact Hu| |exact Ui|done|exact Ue].
  intros rs HP. etrans; [exact HP|]. apply undo_same_but. apply Uv; [apply Hu|done].
Qed.

(** ** The clean mark at the end *)
Lemma write_finish_twice img safe safe' w img' w' :
  write_finish img safe w = (Ok img', w') -> safe = true ->
  forall w1, write_finish img' safe' w1 = (Ok img', w1).
Proof.
  intros Hr -> w1. unfold write_finish in Hr. cbn [negb orb] in Hr.
  enough (restore_clean img' = false) as E
    by (unfold write_finish; rewrite E, orb_true_r; done).
  destruct (restore_clean img) eqn:E; cbn [negb] in Hr.
  - apply bind_ok in Hr as (u & w2 & _ & Hr). apply bind_ok in Hr as (rc & w3 & _ & Hr).
    destruct rc; [by injection Hr as <- _|].
    apply bind_ok in Hr as (a & w4 & _ & Hr). by apply bind_ok in Hr as (b & w5 & _ & Hr).
  - by injection Hr as <- _.
Qed.
Lemma write_finish_marks img w img' w' :
  write_finish img true w = (Ok img', w') -> bk_inv (w_ctx w) -> restore_clean img = true ->
  view w' (state_off img) = 1.
Proof.
  intros Hr Hinv Hc. unfold write_finish in Hr. rewrite Hc in Hr. cbn [negb orb] in Hr.
  apply bind_ok in Hr as (u & w2 & H2 & Hr). apply image_fsync_quiet in H2.
  apply bind_ok in Hr as (rc & w3 & H3 & Hr). apply attempt_inv in H3 as (y & [= ->] & H3).
  apply write_state_sync in H3 as (_ & _ & Hv); [|by apply H2].
  destruct y as [[]|]; [injection Hr as _ <-; by apply Hv|].
  apply bind_ok in Hr as (a & w4 & _ & Hr). by apply bind_ok in Hr as (b & w5 & _ & Hr).
Qed.

(** The tail of finish_mutation after a failed operation. *)
Lemma finish_failed img e d0 o w r w' :
  o = Some (state_off img) -> undoable_but o d0 w ->
  (let! rc := attempt (transaction_end (Err e)) in
   let! finish := attempt (write_finish img (negb (is_euclean rc))) in
   let img := match finish with Ok img => img | Err _ => img end in
   close_quietly img ;;;
   of_result (match finish with Ok _ => rc | Err e => Err e end)) w = (r, w') ->
  bk_inv (w_ctx w') /\ w_tx w' = None /\ env_same (w_env w) (w_env w') /\
  exists e', r = Err e' /\ (e' = EUCLEAN \/ same_but o d0 (view w')).
Proof.
  intros Ho Hu Hr.
  apply bind_inv in Hr as [(rc & w1 & H1 & Hr)|(x & H1 & _)];
    apply attempt_inv in H1 as (y & Hy & H1); [|done]. injection Hy as <-.
  apply (transaction_end_but o _ d0) in H1 as (Hi1 & Ht1 & He1 & Hend); [|done].
  apply bind_inv in Hr as [(fin & w2 & H2 & Hr)|(x & H2 & _)];
    apply attempt_inv in H2 as (y & Hy & H2); [|done]. injection Hy as <-.
  pose proof (write_finish_unlogged img (negb (is_euclean rc)) o Ho _ _ _ H2) as [Ui Uv Ut Ue].
  specialize (Ui Hi1). specialize (Uv Hi1 Ht1). specialize (Ut Ht1).
  apply bind_inv in Hr as [(u & w3 & H3 & Hr)|(x & H3 & _)];
    apply close_quietly_idle in H3 as [Hx H3]; [|done|done|done]. subst w3.
  injection Hr as <- <-. split_and!; [done|done|by etrans|].
  destruct Hend as [[-> Hv]| ->].
  - assert (same_but o d0 (view w2)) by by etrans.
    destruct fin; eexists; (split; [reflexivity|by right]).
  - unfold write_finish in H2. cbn in H2. injection H2 as <- <-. eexists. split; [done|by left].
Qed.

Lemma finish_one_shot_spec img rc d0 o w r w' :
  o = Some (state_off img) -> undoable_but o d0 w ->
  finish_one_shot img rc w = (r, w') ->
  bk_inv (w_ctx w') /\ w_tx w' = None /\ env_same (w_env w) (w_env w') /\
  (forall e, r = Err e -> e = EUCLEAN \/ same_but o d0 (view w')) /\
  (r = Ok tt -> rc = Ok tt /\ (restore_clean img = true -> view w' (state_off img) = 1)).
Proof.
  intros Ho Hd1 Hr. unfold finish_one_shot in Hr. destruct rc as [[]|e].
  - unfold bind at 1 2 in Hr.
    destruct (finish_clean img w) as [r1 w3] eqn:Hfc.
    unfold finish_clean in Hfc. unfold bind at 1 2, get_tx, put_tx in Hfc.
    destruct (write_finish img true (World (w_ctx w) None (w_env w))) as [rf w2] eqn:Hf.
    unfold bind, attempt in Hfc. rewrite Hf in Hfc. unfold put_tx, ret in Hfc.
    injection Hfc as <- <-.
    pose proof (write_finish_unlogged img true o Ho _ _ _ Hf) as Hul.
    pose proof (undoable_aside o d0 (w_tx w) w w2 Hd1 eq_refl Hul) as Hd2.
    destruct rf as [img'|e].
    + unfold ret in Hr. cbn beta iota in Hr.
      apply bind_inv in Hr as [(rc & w4 & H4 & Hr)|(x & H4 & _)];
        apply attempt_inv in H4 as (y & Hy & H4); [|done]. injection Hy as <-.
      apply transaction_end_ok in H4 as (-> & Ht4 & Hc4 & He4). cbn in Hc4, He4.
      assert (Hw4 : w4 = World (w_ctx w2) None (w_env w2)) by (destruct w4; cbn in *; congruence).
      unfold bind, attempt in Hr.
      rewrite (write_finish_twice _ _ (negb (is_euclean (Ok tt))) _ _ _ Hf eq_refl) in Hr.
      destruct (close_quietly img' w4) as [rq wq] eqn:Eq.
      apply close_quietly_idle in Eq as [-> ->]; [|done].
      injection Hr as <- <-.
      destruct Hul as [Ui Uv Ut Ue]. destruct Hd1 as (Hi & _). cbn in Ui, Uv, Ut, Ue.
      rewrite Hw4. cbn [w_ctx w_tx w_env]. split_and!; [auto|done|exact Ue|intros ? [=]|].
      intros _. split; [done|]. intros Hc. exact (write_finish_marks _ _ _ _ Hf Hi Hc).
    + unfold ret in Hr. cbn beta iota in Hr.
      apply (finish_failed img e d0 o) in Hr as (? & ? & He & e' & -> & Hv); [|done|done].
      split_and!; [done|done| |by intros ? [= <-]|done].
      etrans; [apply Hul|exact He].
  - rewrite (bind_run _ _ w (img, Err e) w) in Hr by done. cbn beta iota in Hr.
    apply (finish_failed img e d0 o) in Hr as (? & ? & He & e' & -> & Hv); [|done|done].
    split_and!; [done|done|done|by intros ? [= <-]|done].
Qed.
(** ** Opening *)
Lemma on_world_of_inv {A} (m : M (world C) A) s r s' :
  on_world_of m s = (r, s') ->
  exists w', m (s_world s) = (r, w') /\ s' = SWorld w' (s_session s).
Proof. unfold on_world_of. destruct (m (s_world s)) as [r1 w1]. intros [= <- <-]. eauto. Qed.

Lemma image_open_unlogged o src : Stable (unlogged o) (image_open_rw (C:=C) src).
Proof. apply quiet_unlogged, open_with_mode_quiet. Qed.
Lemma image_open_ok img w img' w' :
  bk_inv (w_ctx w) -> image_ok img -> image_open_rw img w = (Ok img', w') -> image_ok img'.
Proof.
  intros Hi Hok Hr. apply open_placed in Hr as [Hz _ _ _ _]; [|done].
  unfold image_ok in *. by rewrite Hz.
Qed.
Lemma write_begin_ok img w img' w' :
  write_begin img w = (Ok img', w') ->
  state_off img' = state_off img /\ image_size img' = image_size img /\
  restore_clean img' = (sb_state (sb img) =? 1).
Proof.
  intros Hr. unfold write_begin in Hr. apply bind_ok in Hr as (rc & w1 & _ & Hr).
  destruct rc; [by injection Hr as <- _|].
  apply bind_ok in Hr as (a & w2 & _ & Hr). by apply bind_ok in Hr as (b & w3 & _ & Hr).
Qed.

Lemma open_and_begin_spec tgt w r w' :
  bk_inv (w_ctx w) -> w_tx w = None -> target_ok tgt ->
  open_and_begin (source tgt) w = (r, w') ->
  unlogged (state_byte tgt w) w w' /\
  forall img, r = Ok img -> image_ok img /\ exists img0, opened tgt w = Some img0 /\
    state_off img = state_off img0 /\ restore_clean img = (sb_state (sb img0) =? 1).
Proof.
  intros Hi Ht Htgt Hr. unfold open_and_begin in Hr.
  unfold state_byte, opened. specialize (Htgt). destruct (source tgt) as [src|e] eqn:Es.
  2: { unfold bind, of_result in Hr. injection Hr as <- <-. by split. }
  specialize (Htgt src Es). rewrite (bind_run (of_result (Ok src)) _ w src w) in Hr by done.
  apply bind_inv in Hr as [(img & w1 & H1 & Hr)|(e & H1 & ->)]; pose proof H1 as Hq;
    apply open_with_mode_quiet in Hq; rewrite H1; cbn [fst fmap option_fmap option_map].
  2: { split; [by eapply image_open_unlogged|done]. }
  assert (Hu1 : unlogged (Some (state_off img)) w w1)
    by by eapply image_open_unlogged.
  apply (image_open_ok src w) in H1; [|done|done].
  apply bind_inv in Hr as [(rc & w2 & H2 & Hr)|(e & H2 & _)];
    apply attempt_inv in H2 as (y & Hy & H2); [|done]. injection Hy as <-.
  pose proof (write_begin_unlogged img _ _ _ H2) as Hu2.
  destruct rc as [img1|e].
  - injection Hr as <- <-. split; [by etrans|]. intros ? [= <-].
    apply write_begin_ok in H2 as (Hs & Hz & Hc).
    split; [unfold image_ok; by rewrite Hz|]. eauto.
  - assert (Ht2 : w_tx w2 = None) by (apply Hu2, Hu1, Ht).
    destruct (close_quietly img w2) as [rq wq] eqn:Eq. rewrite (bind_run _ _ w2 tt w2) in Hr.
    + injection Hr as <- <-. split; [etrans; [exact Hu1|exact Hu2]|intros ? [=]].
    + rewrite Eq. by apply close_quietly_idle in Eq as [-> ->].
Qed.
(** ** Whole operations *)
Definition s_view s : buf := view (s_world s).

(** Between two calls: no transaction is open. *)
Definition between_calls s : Prop :=
  bk_inv (w_ctx (s_world s)) /\ w_tx (s_world s) = None /\
  (forall x, s_session s = Some x -> image_ok (s_image x)).
(** And the undo files of the calls to come stay full once they are. *)
Record ready s : Prop := Ready {
  rd_inv : bk_inv (w_ctx (s_world s));
  rd_log : log_sticky (w_env (s_world s));
  rd_idle : w_tx (s_world s) = None;
  rd_session : forall x, s_session s = Some x -> image_ok (s_image x);
}.
Lemma between_ready s : between_calls s -> log_sticky (w_env (s_world s)) -> ready s.
Proof. intros (? & ? & ?) ?. by constructor. Qed.
Lemma ready_between s : ready s -> between_calls s.
Proof. by intros []. Qed.
Lemma ready_again s w' :
  ready s -> bk_inv (w_ctx w') -> env_same (w_env (s_world s)) (w_env w') -> w_tx w' = None ->
  ready (SWorld w' (s_session s)).
Proof. intros [] ???. constructor; cbn; try done. by eapply log_sticky_same. Qed.
Lemma unlogged_ready o s w' :
  ready s -> unlogged o (s_world s) w' -> ready (SWorld w' (s_session s)).
Proof. intros Hs [Ui _ Ut Ue]. apply ready_again; [done|apply Ui|done|apply Ut]; apply Hs. Qed.
Lemma unlogged_view o s w' :
  ready s -> unlogged o (s_world s) w' -> same_but o (s_view s) (view w').
Proof. intros Hs [_ Uv _ _]. apply Uv; apply Hs. Qed.

(** A body that writes through the undo log only. *)
Definition logged (body : image -> M (world C) unit) : Prop :=
  forall img, image_ok img -> Stable carries (body img).

Definition one_shot_result (tgt : target) s (r : result unit) s' : Prop :=
  ready s' /\ s_session s' = None /\
  (forall e, r = Err e ->
     e = EUCLEAN \/ same_but (state_byte tgt (s_world s)) (s_view s) (s_view s')) /\
  (r = Ok tt -> exists img, opened tgt (s_world s) = Some img /\
     (sb_state (sb img) = 1 -> s_view s' (state_off img) = 1)).

Lemma one_shot_stopped tgt s e w' :
  ready s -> s_session s = None -> unlogged (state_byte tgt (s_world s)) (s_world s) w' ->
  one_shot_result tgt s (Err e) (SWorld w' (s_session s)).
Proof.
  intros Hs Hn Hu. split_and!; [by eapply unlogged_ready|done| |done].
  intros e' _. right. by apply unlogged_view.
Qed.

(** The transaction of a one-shot operation, once the image is open. *)
Lemma transact_one_shot u tgt body img img0 s w1 r s' :
  ready s -> s_session s = None -> logged body -> image_ok img ->
  opened tgt (s_world s) = Some img0 -> state_off img = state_off img0 ->
  restore_clean img = (sb_state (sb img0) =? 1) ->
  unlogged (state_byte tgt (s_world s)) (s_world s) w1 ->
  (let! img := (let! rc := attempt (on_world_of transaction_begin) in
                match rc with
                | Ok _ => ret (with_unprivileged img u)
                | Err e => on_world_of (attempt (write_finish (with_unprivileged img u) true) ;;;
                                        close_quietly (with_unprivileged img u)) ;;; fail e
                end) in
   let! rc := attempt (on_world_of (body img)) in
   finish_mutation img rc) (SWorld w1 (s_session s)) = (r, s') ->
  one_shot_result tgt s r s'.
Proof.
  intros Hs Hn Hb Hok Hop Hoff Hclean Hu Hr. set (img1 := with_unprivileged img u) in *.
  assert (Hst : state_byte tgt (s_world s) = Some (state_off img1))
    by (unfold state_byte; rewrite Hop; cbn; by rewrite <- Hoff).
  destruct (unlogged_ready _ _ _ Hs Hu) as [Hi1 Hl1 Ht1 _]. cbn in Hi1, Hl1, Ht1.
  rewrite <- bind_assoc in Hr.
  apply bind_inv in Hr as [(rc & s2 & H2 & Hr)|(x & H2 & _)];
    apply attempt_inv in H2 as (y & Hy & H2); [|done]. injection Hy as <-.
  apply on_world_of_inv in H2 as (w2 & H2 & ->). cbn in H2, Hr.
  apply transaction_begin_spec in H2 as (Hi2 & Hv2 & He2 & Hrc); [|done|done].
  destruct rc as [[]|e].
  - unfold bind at 1, ret in Hr. cbn beta iota in Hr.
    apply bind_inv in Hr as [(rc & s3 & H3 & Hr)|(x & H3 & _)];
      apply attempt_inv in H3 as (y & Hy & H3); [|done]. injection Hy as <-.
    apply on_world_of_inv in H3 as (w3 & H3 & ->). cbn [s_world s_session] in H3, Hr.
    apply (Hb img1 ltac:(exact Hok) _ _ _ H3) in Hrc.
    unfold finish_mutation in Hr. unfold bind, get_session in Hr. cbn [s_session] in Hr.
    rewrite Hn in Hr. apply on_world_of_inv in Hr as (w4 & Hr & ->). cbn [s_world] in Hr.
    apply (finish_one_shot_spec img1 rc (view w1) _ _ _ _ Hst (undoable_weaken _ _ _ Hrc)) in Hr
      as (Hi4 & Ht4 & He4 & Herr & Hok4).
    assert (Hrel3 : log_sticky (w_env w3)) by apply Hrc. clear Hrc.
    split_and!; cbn [s_session]; [|done| |].
    + constructor; cbn; [done|by eapply log_sticky_same|done|done].
    + intros e He. destruct (Herr e He) as [|Hsame]; [by left|right].
      etrans; [by apply unlogged_view|exact Hsame].
    + intros Hrok. exists img0. split; [done|]. intros H1. rewrite <- Hoff.
      destruct (Hok4 Hrok) as [_ Hm]. apply Hm. cbn. rewrite Hclean, H1. done.
  - apply bind_inv in Hr as [(a & s3 & H3 & Hr)|(x & H3 & ->)].
    { by apply bind_inv in H3 as [(? & ? & _ & H3)|(? & _ & H3)]. }
    assert (Hq : unlogged (state_byte tgt (s_world s)) w1 w2).
    { constructor; [done|auto|by rewrite Hrc|done]. }
    assert (Hs3 : exists w3, s' = SWorld w3 (s_session s) /\
      unlogged (state_byte tgt (s_world s)) w2 w3).
    { apply bind_inv in H3 as [(? & ? & H3 & H4)|(? & H3 & _)];
        apply on_world_of_inv in H3 as (w3 & H3 & ->).
      - injection H4 as _ <-. exists w3. split; [done|]. cbn in H3.
        apply bind_ok in H3 as (? & w4 & H4 & H3). apply attempt_inv in H4 as (? & _ & H4).
        apply (write_finish_unlogged _ _ _ Hst) in H4.
        apply close_quietly_idle in H3 as [_ ->]; [done|]. apply H4. by rewrite Hrc.
      - exists w3. split; [done|]. cbn in H3.
        apply bind_inv in H3 as [(? & w4 & H4 & H3)|(? & H4 & _)];
          apply attempt_inv in H4 as (? & _ & H4);
          apply (write_finish_unlogged _ _ _ Hst) in H4; [|done].
        apply close_quietly_idle in H3 as [_ ->]; [done|]. apply H4. by rewrite Hrc. }
    destruct Hs3 as (w3 & -> & Hu3). apply one_shot_stopped; [done|done|].
    etrans; [exact Hu|]. by etrans.
Qed.

Lemma mutation_one_shot ctx tgt body s r s' :
  ready s -> s_session s = None -> target_ok tgt -> logged body ->
  mutation ctx tgt body s = (r, s') -> one_shot_result tgt s r s'.
Proof.
  intros Hs Hn Htgt Hb Hr. unfold mutation, open_image_rw in Hr.
  rewrite <- bind_assoc in Hr. unfold bind at 1, get_session in Hr. cbn beta iota in Hr.
  rewrite Hn, <- bind_assoc in Hr.
  apply bind_inv in Hr as [(img & s1 & H1 & Hr)|(e & H1 & ->)];
    apply on_world_of_inv in H1 as (w1 & H1 & ->);
    (apply open_and_begin_spec in H1 as [Hu Hok]; [|apply Hs|apply Hs|done]).
  - destruct (Hok img eq_refl) as (Himg & img0 & Hop & Hoff & Hc).
    by eapply transact_one_shot.
  - by apply one_shot_stopped.
Qed.
(** In a session *)
Definition session_failed s : bool :=
  match s_session s with Some x => s_failed x | None => false end.

(** The operation left the image alone, or the session is marked failed. *)
Definition session_result s (r : result unit) s' : Prop :=
  ready s' /\ is_Some (s_session s') /\
  (forall e, r = Err e -> s_view s' ≡ s_view s \/ session_failed s' = true) /\
  (session_failed s = true ->
     (exists e, r = Err e) /\ s_view s' ≡ s_view s /\ session_failed s' = true).

Lemma session_stopped s e w' :
  ready s -> is_Some (s_session s) -> viewed (s_world s) w' -> w_tx w' = None ->
  session_result s (Err e) (SWorld w' (s_session s)).
Proof.
  intros Hs Hx [Vi Vv Ve] Ht.
  assert (Hv : view w' ≡ s_view s) by apply Vv, Hs.
  split_and!; [|done|by left|intros Hf; split_and!; eauto].
  apply ready_again; [done|apply Vi, Hs|done|done].
Qed.

Lemma image_refresh_viewed img : Stable quiet (image_refresh (C:=C) img).
Proof. unfold image_refresh. solve_stable. Qed.
Lemma image_refresh_ok img w img' w' :
  image_refresh img w = (Ok img', w') -> image_size img' = image_size img.
Proof.
  intros Hr. unfold image_refresh in Hr. apply bind_ok in Hr as (b & w1 & _ & Hr).
  apply bind_ok in Hr as (u & w2 & _ & Hr). by injection Hr as <- _.
Qed.

Lemma finish_in_session_spec s x rc d0 w r s' :
  ready s -> s_session s = Some x -> s_failed x = false ->
  s_view s ≡ d0 -> undoable d0 w ->
  finish_in_session x rc (SWorld w (s_session s)) = (r, s') ->
  session_result s r s'.
Proof.
  intros Hs Hx Hf Hd Hu Hr. unfold finish_in_session in Hr.
  apply bind_inv in Hr as [(rc1 & s1 & H1 & Hr)|(e & H1 & _)];
    apply attempt_inv in H1 as (y & Hy & H1); [|done]. injection Hy as <-.
  apply on_world_of_inv in H1 as (w1 & H1 & ->). cbn [s_world s_session] in H1, Hr.
  apply bind_inv in Hr as [(ref & s2 & H2 & Hr)|(e & H2 & _)];
    apply attempt_inv in H2 as (y & Hy & H2); [|done]. injection Hy as <-.
  apply on_world_of_inv in H2 as (w2 & H2 & ->). cbn [s_world s_session] in H2, Hr.
  pose proof (image_refresh_viewed _ _ _ _ H2) as [Qi Qv Qt Qe].
  set (x' := Session _ _) in Hr.
  rewrite (bind_run _ _ _ tt (SWorld w2 (Some x'))) in Hr by done.
  unfold of_result in Hr. injection Hr as <- <-.
  assert (Himg : image_ok (s_image x')).
  { unfold x'. cbn. destruct ref; [|by eapply rd_session].
    unfold image_ok. rewrite (image_refresh_ok _ _ _ _ H2). by eapply rd_session. }
  assert (Hw1 : bk_inv (w_ctx w1) /\ w_tx w1 = None /\ env_same (w_env w) (w_env w1) /\
    (forall e, rc1 = Err e -> view w1 ≡ d0 \/ e = EUCLEAN)).
  { destruct rc as [[]|e].
    - apply transaction_end_ok in H1 as (-> & ? & Hc & He). rewrite Hc, He.
      split_and!; [apply Hu|done|done|done].
    - apply (transaction_end_err _ d0) in H1 as (? & ? & ? & Hend); [|done].
      split_and!; [done..|]. intros e' ->. destruct Hend as [[[= <-] ?]|[= ->]]; auto. }
  destruct Hw1 as (Hi1 & Ht1 & He1 & Hv1).
  split_and!; cbn [s_session]; [|done| |].
  - constructor; cbn; [by apply Qi| |congruence|by intros ? [= <-]].
    eapply log_sticky_same; [|apply Hu]. by etrans.
  - intros e He. unfold session_failed. cbn [s_session]. unfold x'. cbn [s_failed].
    destruct rc1 as [[]|e1].
    + right. destruct ref as [i|e2]; [done|]. cbn. by rewrite orb_true_r.
    + destruct (Hv1 e1 eq_refl) as [Hv| ->]; [left|right; by rewrite orb_true_r].
      unfold s_view at 1. cbn [s_world]. etrans; [by apply Qv|]. by rewrite Hv, Hd.
  - unfold session_failed. rewrite Hx. congruence.
Qed.

Lemma mutation_in_session ctx tgt body s r s' :
  ready s -> is_Some (s_session s) -> logged body ->
  mutation ctx tgt body s = (r, s') -> session_result s r s'.
Proof.
  intros Hs [x Hx] Hb Hr. unfold mutation, open_image_rw in Hr.
  assert (Hsome : is_Some (s_session s)) by by exists x.
  assert (Hes : SWorld (s_world s) (s_session s) = s) by by destruct s.
  assert (Hstop : forall e, session_result s (Err e) s).
  { intros e. rewrite <- Hes at 2. apply session_stopped; [done..|apply Hs]. }
  rewrite <- bind_assoc in Hr. unfold bind at 1, get_session in Hr. cbn beta iota in Hr.
  rewrite Hx in Hr. destruct (s_failed x) eqn:Hf.
  { cbn in Hr. injection Hr as <- <-. apply Hstop. }
  destruct (same_file tgt) as [[]|e]; [|cbn in Hr; injection Hr as <- <-; apply Hstop..].
  rewrite <- bind_assoc, (bind_run _ _ s (s_image x) s) in Hr by done.
  set (img := with_unprivileged _ _) in Hr.
  rewrite <- bind_assoc in Hr.
  apply bind_inv in Hr as [(rc & s1 & H1 & Hr)|(e & H1 & _)];
    apply attempt_inv in H1 as (y & Hy & H1); [|done]. injection Hy as <-.
  apply on_world_of_inv in H1 as (w1 & H1 & ->).
  apply transaction_begin_spec in H1 as (Hi1 & Hv1 & He1 & Hrc); [|apply Hs..].
  destruct rc as [[]|e].
  - rewrite (bind_run _ _ _ img (SWorld w1 (s_session s))) in Hr by done.
    apply bind_inv in Hr as [(rc & s2 & H2 & Hr)|(e & H2 & _)];
      apply attempt_inv in H2 as (y & Hy & H2); [|done]. injection Hy as <-.
    apply on_world_of_inv in H2 as (w2 & H2 & ->). cbn [s_world s_session] in H2, Hr.
    assert (Himg : image_ok img) by (apply (rd_session _ Hs x Hx)).
    apply (Hb img Himg) in H2. apply H2 in Hrc.
    unfold finish_mutation in Hr.
    rewrite (bind_run get_session _ _ (Some x) (SWorld w2 (s_session s))) in Hr
      by (unfold get_session; by rewrite Hx).
    by apply (finish_in_session_spec s x rc (s_view s)) in Hr.
  - rewrite (bind_err _ _ _ e (SWorld w1 (s_session s))) in Hr by done. injection Hr as <- <-.
    apply session_stopped; [done|done|by constructor|]. rewrite Hrc. apply Hs.
Qed.
(** ** Every exported operation is guarded *)
Definition quietly s s' : Prop :=
  quiet (s_world s) (s_world s') /\ s_session s' = s_session s.
#[export] Instance quietly_preorder : PreOrder quietly.
Proof.
  split; [by intros s|]. intros s1 s2 s3 [Q1 E1] [Q2 E2]. split; [by etrans|congruence].
Qed.
Lemma on_world_of_quietly {A} (m : M (world C) A) :
  Stable quiet m -> Stable quietly (on_world_of m).
Proof. intros Hm s r s' Hr. apply on_world_of_inv in Hr as (w & Hr & ->). split; [by eapply Hm|done]. Qed.
Lemma quietly_ready s s' : quietly s s' -> ready s -> ready s'.
Proof.
  intros [[Qi Qv Qt Qe] E] [Hi Hl Ht Hx]. constructor; [auto|by eapply log_sticky_same|congruence|].
  by rewrite E.
Qed.
Lemma quietly_view s s' : quietly s s' -> ready s -> s_view s' ≡ s_view s.
Proof. intros [[_ Qv _ _] _] Hs. by apply Qv, Hs. Qed.

(** It gives up with the world as it was, or runs one logged body. *)
Definition guarded (tgt : target) (m : Prelude.M (sworld C) unit) : Prop :=
  forall s r s', m s = (r, s') ->
    (quietly s s' /\ exists e, r = Err e) \/
    (exists s1 ctx body, quietly s s1 /\ logged body /\ mutation ctx tgt body s1 = (r, s')).

Lemma guarded_fail tgt e : guarded tgt (fail e).
Proof. intros s r s' [= <- <-]. left. split; [done|by exists e]. Qed.
Lemma guarded_mutation ctx tgt body : logged body -> guarded tgt (mutation ctx tgt body).
Proof. intros Hb s r s' Hr. right. by exists s, ctx, body. Qed.
Lemma guarded_bind {A} tgt (m : Prelude.M (sworld C) A) k :
  Stable quietly m -> (forall a, guarded tgt (k a)) -> guarded tgt (bind m k).
Proof.
  intros Hm Hk s r s' Hr. apply bind_inv in Hr as [(a & s1 & H1 & Hr)|(e & H1 & ->)].
  - apply Hm in H1. apply Hk in Hr as [[Hq He]|(s2 & ctx & body & Hq & Hb & Hr)].
    + left. split; [by etrans|done].
    + right. exists s2, ctx, body. split; [by etrans|done].
  - left. split; [by eapply Hm|by exists e].
Qed.
Lemma stable_split path : Stable quietly (split (C:=C) path).
Proof. unfold split. solve_stable. Qed.
Lemma stable_split_named ctx path : Stable quietly (split_named (C:=C) ctx path).
Proof. unfold split_named. solve_stable. all: apply stable_split. Qed.

Ltac solve_guarded :=
  repeat first
    [ apply guarded_mutation; intros ? ?; by typeclasses eauto with stable
    | apply guarded_fail
    | apply guarded_bind; [first [ apply stable_split | apply stable_split_named
                                 | apply stable_of_result; typeclasses eauto
                                 | apply on_world_of_quietly; by typeclasses eauto with stable ]
                          |intro]
    | case_match ].
Lemma run_op_guarded ctx tgt op : guarded tgt (run_op (C:=C) ctx tgt op).
Proof.
  destruct op; cbn [run_op];
    unfold path_create_file_from_hostfile, path_create_file, path_unlink, path_mkdir,
      path_overwrite_file, path_append_file, rewrite_contents, path_rmdir, path_link,
      path_symlink, path_truncate, path_pwrite, path_mknod, path_rename, path_chmod,
      path_chown, path_utimes, update_opened_file; cbv zeta; solve_guarded.
Qed.
(** Opening a session *)
Lemma session_opened tgt s s' :
  ready s -> target_ok tgt -> write_session_open tgt s = (Ok tt, s') ->
  ready s' /\ is_Some (s_session s').
Proof.
  intros Hs Htgt Hr. unfold write_session_open in Hr.
  apply bind_ok in Hr as (img & s1 & H1 & Hr). apply on_world_of_inv in H1 as (w1 & H1 & ->).
  pose proof Hs as [Hi Hl Ht _].
  apply open_and_begin_spec in H1 as [[Ui _ Ut Ue] Hok]; [|done|done|done].
  destruct (Hok img eq_refl) as (Himg & _).
  injection Hr as <-. split; [|by eexists].
  constructor; cbn; [exact (Ui Hi)|by eapply log_sticky_same|exact (Ut Ht)|by intros ? [= <-]].
Qed.
(** ** Histories of a write session, newest call first *)
Record event := Event { e_before : sworld C; e_result : result unit; e_after : sworld C }.
Inductive history (s0 : sworld C) : list event -> sworld C -> Prop :=
  | history_start : history s0 [] s0
  | history_call l s ctx tgt op r s' :
      history s0 l s -> run_op ctx tgt op s = (r, s') ->
      history s0 (Event s r s' :: l) s'.
(** What the latest successful call left. *)
Fixpoint last_good (s0 : sworld C) (l : list event) : sworld C :=
  match l with
  | [] => s0
  | ev :: l => if is_ok (e_result ev) then e_after ev else last_good s0 l
  end.

Lemma run_op_in_session ctx tgt op s r s' :
  ready s -> is_Some (s_session s) -> run_op ctx tgt op s = (r, s') -> session_result s r s'.
Proof.
  intros Hs Hx Hr. apply run_op_guarded in Hr as [[Hq [e ->]]|(s1 & c & body & Hq & Hb & Hr)].
  - assert (Hf : session_failed s' = session_failed s) by (unfold session_failed; by rewrite (proj2 Hq)).
    pose proof (quietly_view _ _ Hq Hs) as Hv. rewrite <- (proj2 Hq) in Hx.
    split_and!; [by eapply quietly_ready|done|by left|].
    intros Hfail. rewrite Hf. eauto.
  - assert (Hs1 : ready s1) by by eapply quietly_ready.
    pose proof (quietly_view _ _ Hq Hs) as Hv.
    apply mutation_in_session in Hr as (? & ? & Herr & Hfail); [|done|by rewrite (proj2 Hq)|done].
    assert (Hf : session_failed s1 = session_failed s) by (unfold session_failed; by rewrite (proj2 Hq)).
    split_and!; [done|done| |].
    + intros e He. destruct (Herr e He) as [Hsame|Hsame]; [left; by rewrite Hsame|by right].
    + intros Hbefore. destruct Hfail as (? & Hv' & ?); [by rewrite Hf|].
      split_and!; [done|by rewrite Hv'|done].
Qed.

Lemma history_result s0 l s :
  ready s0 -> is_Some (s_session s0) -> history s0 l s ->
  (ready s /\ is_Some (s_session s)) /\
  (forall ev, ev ∈ l -> session_result (e_before ev) (e_result ev) (e_after ev)) /\
  (session_failed s = false -> s_view s ≡ s_view (last_good s0 l)).
Proof.
  intros Hs0 Hx0. induction 1 as [|l s ctx tgt op r s' Hh IH Hr].
  { split_and!; [done|done|intros ev Hev; by apply elem_of_nil in Hev|done]. }
  destruct IH as ([Hs Hx] & Hall & Hlast).
  pose proof (run_op_in_session _ _ _ _ _ _ Hs Hx Hr) as Hres.
  pose proof Hres as (Hs' & Hx' & Herr & Hfail).
  split_and!; [done|done| |].
  - intros ev [->|Hev]%elem_of_cons; [done|by apply Hall].
  - intros Hf. cbn [last_good e_result e_after]. destruct r as [[]|e]; [done|].
    cbn [is_ok]. destruct (Herr e eq_refl) as [Hv|Hv]; [|congruence].
    rewrite Hv. apply Hlast. destruct (session_failed s); [|done].
    destruct Hfail as (_ & _ & ?); [done|congruence].
Qed.

(** What a one-shot call may have opened. *)
Definition opens (tgt : target) (w : world C) (img : image) : Prop :=
  exists src w1 w2, quiet w w1 /\ source tgt = Ok src /\ image_open_rw src w1 = (Ok img, w2).
Lemma opened_opens tgt w w1 img : quiet w w1 -> opened tgt w1 = Some img -> opens tgt w img.
Proof.
  intros Hq. unfold opened. destruct (source tgt) as [src|e] eqn:Es; [|done].
  destruct (image_open_rw src w1) as [[i|e] w2] eqn:Eo; cbn [fst]; [|done].
  intros [= ->]. by exists src, w1, w2.
Qed.

(** ** Properties *)

(** C1. An operation of the path interface run outside a session is all or nothing, on
    any host whose undo file, once an fwrite to it has come up short, takes no further
    record ([log_sticky]: every other failure, of the device, memory, the clock, a first
    short undo write, reading the log back, is allowed; [short_undo_write_corrupts] is
    what a host that recovers can do), for a source below 2^63 - 16 bytes.  Unless it reports EUCLEAN, a failing operation
    leaves every byte of the image as it was, except perhaps the clean mark of the
    filesystem it opened; a successful one leaves a filesystem that was clean marked
    clean again.  Nothing is left of the transaction in either case. *)
Theorem one_shot_atomic ctx tgt op s s' r
    (Hs : between_calls s) (Hfull : log_sticky (w_env (s_world s)))
    (Hn : s_session s = None) (Htgt : target_ok tgt)
    (Hrun : run_op ctx tgt op s = (r, s')) :
  between_calls s' /\ s_session s' = None /\
  match r with
  | Err e => e = EUCLEAN \/ s_view s' ≡ s_view s \/
      exists img, opens tgt (s_world s) img /\
        forall i, i <> state_off img -> s_view s' i = s_view s i
  | Ok _ => exists img, opens tgt (s_world s) img /\
      (sb_state (sb img) = 1 -> s_view s' (state_off img) = 1)
  end.
Proof.
  pose proof (between_ready _ Hs Hfull) as Hready. clear Hs Hfull. rename Hready into Hs.
  apply run_op_guarded in Hrun as [[Hq [e ->]]|(s1 & c & body & Hq & Hb & Hr)].
  - split_and!; [by eapply ready_between, quietly_ready|by rewrite (proj2 Hq)|right; left; by apply quietly_view].
  - pose proof (quietly_view _ _ Hq Hs) as Hv.
    apply mutation_one_shot in Hr as (? & ? & Herr & Hok);
      [|by eapply quietly_ready|by rewrite (proj2 Hq)|done|done].
    split; [by apply ready_between|]. split; [done|]. destruct r as [[]|e].
    + destruct Hok as (img & Hop & Hm); [done|]. exists img. split; [|done].
      by eapply opened_opens, Hop; apply Hq.
    + destruct (Herr e eq_refl) as [|Hsame]; [by left|right].
      unfold state_byte in Hsame. destruct (opened tgt (s_world s1)) as [img|] eqn:Eo; cbn in Hsame.
      * right. exists img. split; [eapply opened_opens, Eo; apply Hq|].
        intros i Hi. rewrite Hsame by congruence. apply Hv.
      * left. intros i. rewrite Hsame by done. apply Hv.
Qed.

(** C2. A write session, over every history of calls, on any host whose undo file, once
    an fwrite to it has come up short, takes no further record ([log_sticky], as in
    [one_shot_atomic]), for an image below 2^63 - 16 bytes: a failing call either leaves the image untouched or marks the
    session failed, a failed session refuses every later call without touching the image,
    and as long as the session has not failed the image is exactly as the last successful
    call left it. *)
Theorem session_history s0 l s
    (Hs : between_calls s0) (Hfull : log_sticky (w_env (s_world s0)))
    (Hx : is_Some (s_session s0)) (Hhist : history s0 l s) :
  (forall ev, ev ∈ l ->
     (forall e, e_result ev = Err e ->
        s_view (e_after ev) ≡ s_view (e_before ev) \/ session_failed (e_after ev) = true) /\
     (session_failed (e_before ev) = true ->
        (exists e, e_result ev = Err e) /\ s_view (e_after ev) ≡ s_view (e_before ev) /\
        session_failed (e_after ev) = true)) /\
  (session_failed s = false -> s_view s ≡ s_view (last_good s0 l)).
Proof.
  apply history_result in Hhist as (_ & Hall & Hlast); [|by apply between_ready|done].
  split; [|done]. intros ev (_ & _ & H)%Hall. exact H.
Qed.

(** Closing a session settles the clean mark: it changes no byte but the state byte,
    none at all when the session has failed; after a successful close of a sound
    session the mark it found on opening is restored; the closed session refuses
    every later call. *)
Theorem session_close_mark s x s' r
    (Hs : between_calls s) (Hx : s_session s = Some x)
    (Hrun : write_session_close s = (r, s')) :
  let off := state_off (s_image x) in
  session_failed s' = true /\
  (forall i, i <> off -> s_view s' i = s_view s i) /\
  (s_failed x = true -> r = Ok tt /\ s_view s' ≡ s_view s) /\
  (s_failed x = false -> r = Ok tt -> restore_clean (s_image x) = true -> s_view s' off = 1).
Proof.
  intros off. destruct Hs as (Hinv & Hidle & _). unfold write_session_close in Hrun.
  rewrite (bind_run get_session _ s (Some x) s) in Hrun by (unfold get_session; by rewrite Hx).
  apply bind_inv in Hrun as [(rc & s1 & H1 & Hr)|(e & H1 & _)];
    apply attempt_inv in H1 as (y & Hy & H1); [|done]. injection Hy as <-.
  apply on_world_of_inv in H1 as (w1 & H1 & ->).
  pose proof (write_finish_unlogged _ _ (Some off) eq_refl _ _ _ H1) as [Ui Uv Ut _].
  specialize (Ui Hinv). specialize (Uv Hinv Hidle).
  specialize (Ut Hidle).
  set (img := match rc with Ok img => img | Err _ => _ end) in Hr.
  apply bind_inv in Hr as [(img' & s2 & H2 & Hr)|(e & H2 & _)];
    apply on_world_of_inv in H2 as (w2 & H2 & ->); cbn [s_world s_session] in H2;
    pose proof (image_close_idle img w1 Ut) as Hc; rewrite H2 in Hc; cbn [snd] in Hc; subst w2.
  2: { unfold image_close, cancel_transaction, bind, get_tx in H2. by rewrite Ut in H2. }
  rewrite (bind_run _ _ _ tt (SWorld w1 (Some (Session img' true)))) in Hr by done.
  injection Hr as <- <-. cbn [s_world s_session]. split_and!.
  - done.
  - intros i Hi. apply Uv. congruence.
  - intros Hf. rewrite Hf in H1. unfold write_finish in H1. cbn in H1. by injection H1 as <- <-.
  - intros Hf Hok Hclean. rewrite Hf in H1. cbn [negb] in H1.
    destruct rc as [i|e]; [|done]. by apply (write_finish_marks _ _ _ _ H1); [exact Hinv|].
Qed.
End transact.
#[export] Hint Extern 4 (Stable (unlogged _) _) =>
  (apply quiet_unlogged; solve [eauto with stable]) : stable.

(** ** Witnesses, on the sample filesystem *)
Definition tree_target : target := Target (Ok (blank_image true (512 * 1024))) (Ok true).
Definition superuser : write_ctx := WriteCtx NEXTUFS_WRITE_SU 0 0 [].
Definition in_root (c : Z) : name := [slash; c].
Definition tree_start : sworld file := SWorld tree_world None.

Lemma tree_start_ready : ready tree_start.
Proof. constructor; [apply tree_world_inv|exact calm_env_sticky|done|done]. Qed.
Lemma tree_target_ok : target_ok tree_target.
Proof. intros src [= <-]. unfold image_ok. cbn. lia. Qed.

Lemma one_shot_atomic_witness :
  let run := run_op superuser tree_target (OpMkdir (in_root 97) 0x1ff) tree_start in
  fst run = Err EEXIST /\
  (s_view (snd run) ≡ s_view tree_start \/
   exists img, opens tree_target tree_world img /\
     forall i, i <> state_off img -> s_view (snd run) i = s_view tree_start i).
Proof.
  intros run. assert (Hr : fst run = Err EEXIST) by (vm_compute; reflexivity).
  split; [exact Hr|].
  destruct (one_shot_atomic superuser tree_target (OpMkdir (in_root 97) 0x1ff) tree_start
              (snd run) (fst run)) as (_ & _ & H).
  - apply ready_between, tree_start_ready.
  - apply tree_start_ready.
  - reflexivity.
  - exact tree_target_ok.
  - apply surjective_pairing.
  - rewrite Hr in H. destruct H as [H|H]; [discriminate H|exact H].
Defined.

(** A session on it, in which a directory is made once and refused once. *)
Definition tree_session : sworld file :=
  snd (write_session_open tree_target tree_start).
Definition made : result unit * sworld file :=
  run_op superuser tree_target (OpMkdir (in_root 98) 0x1ff) tree_session.
Definition refused : result unit * sworld file :=
  run_op superuser tree_target (OpMkdir (in_root 98) 0x1ff) (snd made).

Lemma tree_session_ready : ready tree_session /\ is_Some (s_session tree_session).
Proof.
  refine (session_opened tree_target tree_start tree_session tree_start_ready tree_target_ok _).
  assert (H : fst (write_session_open tree_target tree_start) = Ok tt) by (vm_compute; reflexivity).
  revert H. unfold tree_session.
  destruct (write_session_open tree_target tree_start) as [r s']. cbn [fst snd]. by intros ->.
Qed.

Lemma last_good_skip (s0 b2 : sworld file) r2 a2 b1 r1 a1 e :
  r2 = Err e -> is_ok r1 = true ->
  last_good s0 [Event b2 r2 a2; Event b1 r1 a1] = a1.
Proof. intros -> H. cbn. by rewrite H. Qed.
Lemma made_run :
  run_op superuser tree_target (OpMkdir (in_root 98) 0x1ff) tree_session = (fst made, snd made).
Proof. unfold made. apply surjective_pairing. Qed.
Lemma refused_run :
  run_op superuser tree_target (OpMkdir (in_root 98) 0x1ff) (snd made) =
  (fst refused, snd refused).
Proof. unfold refused. apply surjective_pairing. Qed.
Lemma session_history_witness :
  is_ok (fst made) = true /\ fst refused = Err EEXIST /\
  session_failed (snd refused) = false /\ s_view (snd refused) ≡ s_view (snd made).
Proof.
  assert (H1 : is_ok (fst made) = true) by (vm_compute; reflexivity).
  assert (H2 : fst refused = Err EEXIST) by (vm_compute; reflexivity).
  assert (H3 : session_failed (snd refused) = false) by (vm_compute; reflexivity).
  split; [exact H1|]. split; [exact H2|]. split; [exact H3|].
  destruct tree_session_ready as [Hs Hx].
  destruct (session_history tree_session
    [Event (snd made) (fst refused) (snd refused); Event tree_session (fst made) (snd made)]
    (snd refused) (ready_between _ Hs) (rd_log _ Hs) Hx) as [_ Hlast].
  - refine (history_call tree_session [Event tree_session (fst made) (snd made)] (snd made)
      superuser tree_target (OpMkdir (in_root 98) 0x1ff) (fst refused) (snd refused) _ refused_run).
    exact (history_call tree_session [] tree_session superuser tree_target
      (OpMkdir (in_root 98) 0x1ff) (fst made) (snd made) (history_start _) made_run).
  - rewrite <- (last_good_skip tree_session (snd made) (fst refused) (snd refused)
      tree_session (fst made) (snd made) EEXIST H2 H1). exact (Hlast H3).
Defined.

Lemma session_close_mark_witness :
  let run := write_session_close tree_session in
  fst run = Ok tt /\
  match s_session tree_session with
  | Some x => s_failed x = false /\ restore_clean (s_image x) = true /\
      s_view tree_session (state_off (s_image x)) = 2 /\
      s_view (snd run) (state_off (s_image x)) = 1
  | None => False
  end.
Proof.
  intros run. assert (Hr : fst run = Ok tt) by (vm_compute; reflexivity). split; [exact Hr|].
  destruct tree_session_ready as [Hs Hx].
  assert (Hf : match s_session tree_session with
               | Some x => s_failed x = false /\ restore_clean (s_image x) = true /\
                   s_view tree_session (state_off (s_image x)) = 2
               | None => False end) by (vm_compute; split_and!; reflexivity).
  destruct (s_session tree_session) as [x|] eqn:E; [|exact Hf].
  destruct Hf as (Hf1 & Hf2 & Hf3). split; [exact Hf1|]. split; [exact Hf2|]. split; [exact Hf3|].
  destruct (session_close_mark tree_session x (snd run) (fst run) (ready_between _ Hs) E
    (surjective_pairing _)) as (_ & _ & _ & H).
  exact (H Hf1 Hr Hf2).
Defined.
