(* ===== verification/Size.v ===== *)
(** * Numbers and sizes on the command line

    src/src/core/size.c.  [strtoull] is the Standard C function as the code uses it: it
    is only called on a string that begins with a digit, so that white space and signs do
    not arise; the value is exact and [ERANGE] is a value above [UINT64_MAX]. *)
From S2P Require Import Prelude.
From S2P Require Import Bytes.
From S2P Require Import Dirent.

Definition NEXTUFS_KIB_BYTES : Z := 1024.
Definition NEXTUFS_COMPAT_MAX_BYTES : Z := 4294836224.

Inductive bare_size_unit := BARE_SIZE_BYTES | BARE_SIZE_1K_SECTORS.

Definition isdigit (c : Z) : bool := (48 <=? c) && (c <=? 57).

(** ** strtoull *)
Definition digit_of (c : Z) : option Z :=
  if isdigit c then Some (c - 48)
  else if (97 <=? c) && (c <=? 122) then Some (c - 87)
  else if (65 <=? c) && (c <=? 90) then Some (c - 55)
  else None.
Definition is_digit_of (base c : Z) : bool :=
  match digit_of c with Some d => d <? base | None => false end.
Definition digit_value (c : Z) : Z := match digit_of c with Some d => d | None => 0 end.
(** The longest prefix of digits: its value, and what follows it. *)
Fixpoint digits (base acc : Z) (s : name) : Z * name :=
  match s with
  | [] => (acc, [])
  | c :: s' =>
      if is_digit_of base c then digits base (acc * base + digit_value c) s' else (acc, s)
  end.
(** Bases 0 and 16 accept a prefix [0x] before a hexadecimal digit. *)
Definition hex_prefixed (s : name) : bool :=
  match s with
  | z :: x :: h :: _ => (z =? 48) && ((x =? 120) || (x =? 88)) && is_digit_of 16 h
  | _ => false
  end.
Definition leading_zero (s : name) : bool :=
  match s with z :: _ => z =? 48 | [] => false end.
(** The value and [end]. *)
Definition strtoull (s : name) (base : Z) : Z * name :=
  if ((base =? 0) || (base =? 16)) && hex_prefixed s then digits 16 0 (skipn 2 s)
  else if base =? 0 then digits (if leading_zero s then 8 else 10) 0 s
  else digits base 0 s.

(** ** The parsers: [None] is the return value -1 *)
Definition starts_with_digit (s : name) : bool :=
  match s with c :: _ => isdigit c | [] => false end.

Definition parse_number (s : name) (base limit : Z) : option Z :=
  if negb (starts_with_digit s) then None
  else
    let '(v, end_) := strtoull s base in
    if (UINT64_MAX <? v) || (length end_ =? length s)%nat || negb (bool_decide (end_ = [])) ||
       (limit <? v)
    then None else Some v.
Definition parse_u64 (s : name) : option Z := parse_number s 10 UINT64_MAX.

Definition suffix_mult (bare : bare_size_unit) (end_ : name) : option Z :=
  match end_ with
  | [] => Some (match bare with BARE_SIZE_1K_SECTORS => NEXTUFS_KIB_BYTES | BARE_SIZE_BYTES => 1 end)
  | [c] =>
      if (c =? 107) || (c =? 75) then Some NEXTUFS_KIB_BYTES
      else if (c =? 109) || (c =? 77) then Some (NEXTUFS_KIB_BYTES * NEXTUFS_KIB_BYTES)
      else if (c =? 103) || (c =? 71)
      then Some (NEXTUFS_KIB_BYTES * NEXTUFS_KIB_BYTES * NEXTUFS_KIB_BYTES)
      else None
  | _ => None
  end.
Definition parse_size_bytes (s : name) (bare : bare_size_unit) : option Z :=
  if negb (starts_with_digit s) then None
  else
    let '(value, end_) := strtoull s 10 in
    if (UINT64_MAX <? value) || (length end_ =? length s)%nat then None
    else
      match suffix_mult bare end_ with
      | None => None
      | Some mult =>
          if (value =? 0) || (UINT64_MAX / mult <? value) then None
          else Some (value * mult)
      end.

(** ** Digit strings *)

(** The number a string of decimal digits denotes. *)
Definition numeral (ds : name) : Z := foldl (fun a c => a * 10 + (c - 48)) 0 ds.

Lemma isdigit_ten c : is_digit_of 10 c = isdigit c.
Proof.
  unfold is_digit_of, digit_of, isdigit.
  destruct (Z.leb_spec 48 c), (Z.leb_spec c 57); cbn [andb];
    repeat (case_match; simplify_eq); repeat match goal with H : _ && _ = true |- _ =>
      apply andb_true_iff in H as [?%Z.leb_le ?%Z.leb_le] end; try done;
    first [apply Z.ltb_lt | apply Z.ltb_ge]; lia.
Qed.
Lemma digit_value_ten c : isdigit c = true -> digit_value c = c - 48.
Proof. intros H. unfold digit_value, digit_of. by rewrite H. Qed.

Lemma digits_ten ds rest : forall acc,
  Forall (fun c => isdigit c = true) ds ->
  match rest with c :: _ => isdigit c = false | [] => True end ->
  digits 10 acc (ds ++ rest) = (foldl (fun a c => a * 10 + (c - 48)) acc ds, rest).
Proof.
  induction ds as [|c ds IH]; intros acc Hd Hr; cbn [app].
  - destruct rest as [|c rest]; [done|]. cbn [digits]. by rewrite isdigit_ten, Hr.
  - apply Forall_cons in Hd as [Hc Hd]. cbn [digits foldl].
    rewrite isdigit_ten, Hc, digit_value_ten by done. by apply IH.
Qed.
Lemma strtoull_ten ds rest :
  Forall (fun c => isdigit c = true) ds ->
  match rest with c :: _ => isdigit c = false | [] => True end ->
  strtoull (ds ++ rest) 10 = (numeral ds, rest).
Proof. intros Hd Hr. change (strtoull (ds ++ rest) 10) with (digits 10 0 (ds ++ rest)). by apply digits_ten. Qed.
(** Every string splits at its first character that is not a digit. *)
Lemma split_digits s : exists ds rest, s = ds ++ rest /\
  Forall (fun c => isdigit c = true) ds /\
  match rest with c :: _ => isdigit c = false | [] => True end.
Proof.
  induction s as [|c s (ds & rest & -> & Hd & Hr)]; [by exists [], []|].
  destruct (isdigit c) eqn:E.
  - exists (c :: ds), rest. split_and!; [done|by constructor|done].
  - exists [], (c :: ds ++ rest). by split_and!.
Qed.
Lemma starts_with_digit_split ds rest :
  Forall (fun c => isdigit c = true) ds ->
  match rest with c :: _ => isdigit c = false | [] => True end ->
  starts_with_digit (ds ++ rest) = negb (bool_decide (ds = [])).
Proof.
  destruct ds as [|c ds]; cbn [app].
  - by destruct rest as [|c rest].
  - intros [Hc _]%Forall_cons _. by cbn.
Qed.
Lemma suffix_not_digit bare suf m : suffix_mult bare suf = Some m ->
  0 < m /\ match suf with c :: _ => isdigit c = false | [] => True end.
Proof.
  destruct suf as [|c [|? ?]]; cbn; [|unfold isdigit|done].
  - intros [= <-]. by destruct bare.
  - intros H. repeat (case_match; simplify_eq); (split; [by vm_compute|]);
      repeat match goal with E : (_ || _) = true |- _ =>
        apply orb_true_iff in E as [?%Z.eqb_eq|?%Z.eqb_eq]; subst end; done.
Qed.

(** nextufs_parse_size_bytes accepts exactly a decimal numeral and one optional unit
    letter whose product is a positive 64-bit number, and returns the product. *)
Theorem parse_size_bytes_correct s bare n :
  parse_size_bytes s bare = Some n <->
  exists ds suf m, s = ds ++ suf /\ ds <> [] /\ Forall (fun c => isdigit c = true) ds /\
    suffix_mult bare suf = Some m /\ n = numeral ds * m /\ 0 < n <= UINT64_MAX.
Proof.
  split.
  - destruct (split_digits s) as (ds & rest & -> & Hd & Hr). unfold parse_size_bytes.
    rewrite starts_with_digit_split by done.
    destruct (decide (ds = [])) as [->|Hne]; [by rewrite bool_decide_true|].
    rewrite bool_decide_false by done. cbn [negb]. rewrite strtoull_ten by done. cbv beta iota.
    destruct (Z.ltb_spec UINT64_MAX (numeral ds)) as [|E]; cbn [orb]; [done|].
    destruct (_ =? _)%nat; [done|].
    destruct (suffix_mult bare rest) as [m|] eqn:Es; [|done].
    destruct (Z.eqb_spec (numeral ds) 0) as [|E2]; cbn [orb]; [done|].
    destruct (Z.ltb_spec (UINT64_MAX / m) (numeral ds)) as [|E3]; [done|]. intros [= <-].
    apply suffix_not_digit in Es as Hm. destruct Hm as [Hm _].
    assert (Hpos : forall a l, 0 <= a -> Forall (fun c => isdigit c = true) l ->
      0 <= foldl (fun a c => a * 10 + (c - 48)) a l).
    { intros a l. revert a. induction l as [|c l IH]; intros a Ha Hl; cbn; [done|].
      apply Forall_cons in Hl as [Hc Hl]. apply IH; [|done].
      unfold isdigit in Hc. apply andb_true_iff in Hc as [?%Z.leb_le _]. lia. }
    specialize (Hpos 0 ds ltac:(lia) Hd). fold (numeral ds) in Hpos.
    exists ds, rest, m. split_and!; try done; [nia|].
    pose proof (Z.mul_div_le UINT64_MAX m Hm). nia.
  - intros (ds & suf & m & -> & Hne & Hd & Hs & -> & Hp & Hmax).
    pose proof (suffix_not_digit _ _ _ Hs) as [Hm Hr]. unfold parse_size_bytes.
    rewrite starts_with_digit_split, bool_decide_false by done. cbn [negb].
    rewrite strtoull_ten by done. cbv beta iota. rewrite Hs.
    assert (0 < numeral ds) by nia.
    destruct (Z.ltb_spec UINT64_MAX (numeral ds)); [nia|].
    destruct (Nat.eqb_spec (length suf) (length (ds ++ suf))) as [El|_].
    { rewrite length_app in El. destruct ds; [done|cbn in El; lia]. }
    cbn [orb]. destruct (Z.eqb_spec (numeral ds) 0); [lia|].
    destruct (Z.ltb_spec (UINT64_MAX / m) (numeral ds)) as [Hlt|]; [|done].
    pose proof (Z.div_le_lower_bound UINT64_MAX m (numeral ds) Hm). lia.
Qed.
