(* ===== verification/GrowGroups.v ===== *)
(** * Growing: cylinder-group headers

    The buffer computations of src/src/commands/resize.c: marking a range of fragments
    free in a header, taking the fragments of the enlarged summary area out of the first
    group, the header of a new group and of the old last one.  The theorems show that
    each leaves a header whose counters, run summary and map agree. *)
From stdpp Require Import sets.
From S2P Require Import Prelude.
From S2P Require Import Bytes.
From S2P Require Import Superblock.
From S2P Require Import CylGroup.
From S2P Require Import Alloc.

Definition CG_CGX_OFF : Z := 12.
Definition CG_NCYL_OFF : Z := 16.
Definition CG_NIBLK_OFF : Z := 18.

(** ** Addresses *)
Definition cgsblock (s : superblock) (cg : Z) : Z := w64 (cgstart s cg + sb_off s).
Definition cgtod (s : superblock) (cg : Z) : Z := w64 (cgstart s cg + cg_off s).
Definition cgimin (s : superblock) (cg : Z) : Z := w64 (cgstart s cg + ino_off s).
Definition cgdmin (s : superblock) (cg : Z) : Z := w64 (cgstart s cg + data_off s).

Definition cg_frag_count (s : superblock) (cg fs_frags : Z) : Z :=
  let remaining := w64 (fs_frags - cg * frags_per_group s) in
  if remaining <? frags_per_group s then w32 remaining else frags_per_group s.
(** The legacy formatter stores zero for a full final group. *)
Definition cg_cylinder_count (s : superblock) (cg ncg ncyl : Z) : Z :=
  w16 (if cg =? w32 (ncg - 1) then ncyl mod cpg s else cpg s).
Definition cbtocylno (s : superblock) (cg_local_frag : Z) : Z :=
  w32 (cg_local_frag * sectors_per_frag s) / sectors_per_cyl s.
Definition cbtorpos (s : superblock) (cg_local_frag : Z) : Z :=
  w32 (w32 (cg_local_frag * sectors_per_frag s) mod sectors_per_cyl s
         mod sectors_per_track s * NRPOS) / sectors_per_track s.

(** ** Bitmap of one block *)
Definition count_free_bits (b : buf) (start count : Z) : Z :=
  foldl (fun total i => if bit_test b CG_FREE_OFF (start + i) then total + 1 else total) 0
    (seqZ 0 count).

(** The totals by cylinder and rotational position, for a block that becomes whole
    ([d] = 1) or stops being so (-1). *)
Definition reclassify (s : superblock) (b : buf) (block_base d : Z) : buf :=
  let cylno := cbtocylno s block_base in
  let rotpos := cbtorpos s block_base in
  if (cylno <? 32) && (rotpos <? NRPOS) then
    let b := add_be32 b (CG_BTOT_OFF + cylno * 4) d in
    let bposp := CG_BPOS_OFF + (cylno * NRPOS + rotpos) * 2 in
    write_be16 b bposp (read_be16 b bposp + d)
  else b.

(** [while (pos < end)], cut at block boundaries: [step] gets the header and the part
    [pos, part_end) of one block, and returns the changes of the two free counts. *)
Definition part_step : Type := buf -> Z -> Z -> result (buf * Z * Z).
Fixpoint block_parts (fuel : nat) (fpb : Z) (step : part_step) (b : buf) (pos end_ nb nf : Z)
    : result (buf * Z * Z) :=
  match fuel with
  | O => Err EIO
  | S fuel =>
      if pos <? end_ then
        let block_end := w32 (pos - pos mod fpb + fpb) in
        let part_end := if end_ <? block_end then end_ else block_end in
        match step b pos part_end with
        | Err e => Err e
        | Ok (b, d_nb, d_nf) => block_parts fuel fpb step b part_end end_ (nb + d_nb) (nf + d_nf)
        end
      else Ok (b, nb, nf)
  end.
(** Every part has at least one fragment. *)
Definition parts_fuel (pos end_ : Z) : nat := S (Z.to_nat (end_ - pos)).

(** ** add_free_frag_range *)
Definition add_free_part (s : superblock) : part_step := fun b start add_end =>
  let frags := frags_per_block s in
  let block_base := start - start mod frags in
  let before_runs := count_free_runs_in_block b block_base frags in
  match set_free_bits b (seqZ start (add_end - start)) with
  | None => Err EINVAL
  | Some b =>
      let after_runs := count_free_runs_in_block b block_base frags in
      let b := apply_cg_frsum_delta b before_runs after_runs frags in
      let d_nffree := add_end - start in
      if count_free_bits b block_base frags =? frags
      then Ok (reclassify s b block_base 1, 1, d_nffree - frags)
      else Ok (b, 0, d_nffree)
  end.
Definition add_free_frag_range (s : superblock) (b : buf) (start end_ : Z)
    : result (buf * Z * Z) :=
  let frags := frags_per_block s in
  if (end_ <? start) || (frags_per_group s <? end_) then Err EINVAL
  else if (frags =? 0) || (8 <? frags) then Err ENOTSUP
  else block_parts (parts_fuel start end_) frags (add_free_part s) b start end_ 0 0.

(** ** The header part of reserve_summary_extension *)
Definition reserve_part (s : superblock) : part_step := fun b pos clear_end =>
  let frags := frags_per_block s in
  let block_base := pos - pos mod frags in
  if 8 <? frags then Err ENOTSUP
  else if negb (set_run_bits b pos (clear_end - pos)) then Err ENOSPC
  else
    let before_free := count_free_bits b block_base frags in
    let before_runs := count_free_runs_in_block b block_base frags in
    let b := clear_block_bits b pos (clear_end - pos) in
    let after_free := count_free_bits b block_base frags in
    let after_runs := count_free_runs_in_block b block_base frags in
    let b := apply_cg_frsum_delta b before_runs after_runs frags in
    if (before_free =? frags) && negb (after_free =? frags)
    then Ok (reclassify s b block_base (-1), -1, after_free)
    else Ok (b, 0, after_free - before_free).
Definition reserve_blocks (s : superblock) (b : buf) (pos end_ : Z) : result (buf * Z * Z) :=
  block_parts (parts_fuel pos end_) (frags_per_block s) (reserve_part s) b pos end_ 0 0.
(** The fields written after the map of a header is in place. *)
Definition close_counters (b : buf) (nb nf now : Z) : buf :=
  write_be32 (add_be32 (add_be32 b CG_CS_NBFREE_OFF nb) CG_CS_NFFREE_OFF nf) CG_TIME_OFF now.

(** ** build_new_cg, after its size test *)
Definition cg_dlower (s : superblock) (cg : Z) : Z :=
  w32 (cgsblock s cg - frags_per_group s * cg).
Definition cg_dupper (s : superblock) (cg : Z) : Z :=
  w32 (cgdmin s cg - frags_per_group s * cg).
Definition blank_cg (s : superblock) (cg ncyl ndblk now : Z) : buf :=
  let b := write_be32 zeros CG_TIME_OFF now in
  let b := write_be32 b CG_CGX_OFF cg in
  let b := write_be16 b CG_NCYL_OFF ncyl in
  let b := write_be16 b CG_NIBLK_OFF (inodes_per_group s) in
  let b := write_be32 b CG_NDBLK_OFF ndblk in
  let b := write_be32 b CG_IROTOR_OFF 0 in
  write_be32 b CG_MAGIC_OFF CG_MAGIC.
Definition new_cg_header (s : superblock) (cg ncyl ndblk now : Z) : result (buf * Z * Z) :=
  match add_free_frag_range s (blank_cg s cg ncyl ndblk now) 0 (cg_dlower s cg) with
  | Err e => Err e
  | Ok (b, nbfree, nffree) =>
      match add_free_frag_range s b (cg_dupper s cg) ndblk with
      | Err e => Err e
      | Ok (b, range_nbfree, range_nffree) =>
          let nbfree := nbfree + range_nbfree in
          let nffree := nffree + range_nffree in
          let b := write_be32 b CG_CS_NBFREE_OFF nbfree in
          let b := write_be32 b CG_CS_NIFREE_OFF (inodes_per_group s) in
          Ok (write_be32 b CG_CS_NFFREE_OFF nffree, nbfree, nffree)
      end
  end.

(** The fields expand_old_last_cg sets after freeing the range that was gained. *)
Definition resized_header (b : buf) (end_ ncyl nbfree nffree now : Z) : buf :=
  close_counters (write_be32 (write_be16 b CG_NCYL_OFF ncyl) CG_NDBLK_OFF end_) nbfree nffree now.

(** ** Counting *)
Definition free_count (l : list bool) : Z := Z.of_nat (length (filter (fun x => x = true) l)).

Lemma count_free_bits_blk b fpb k : 0 <= fpb ->
  count_free_bits b (k * fpb) fpb = free_count (blk b fpb k).
Proof.
  intros Hf. unfold count_free_bits, blk, free_count. generalize (seqZ 0 fpb). intros l.
  assert (forall a, foldl (fun total i => if bit_test b CG_FREE_OFF (k * fpb + i)
      then total + 1 else total) a l =
    a + Z.of_nat (length (filter (fun x => x = true)
      (map (fun i => bit_test b CG_FREE_OFF (k * fpb + i)) l)))) as H; [|by rewrite H].
  induction l as [|i l IH]; intros a; cbn [foldl map]; [by rewrite Z.add_0_r|].
  rewrite IH, filter_cons. case_decide as Hb; rewrite ?Hb; cbn [length]; [lia|].
  destruct (bit_test _ _ _); [done|lia].
Qed.
Lemma free_count_entire l : (free_count l =? Z.of_nat (length l)) = entire l.
Proof.
  unfold free_count, entire. induction l as [|[] l IH]; [done| |]; cbn [forallb id andb].
  - rewrite filter_cons, decide_True by done. cbn [length]. rewrite <- IH.
    destruct (Z.eqb_spec (Z.of_nat (length (filter (fun x => x = true) l))) (Z.of_nat (length l)));
    [apply Z.eqb_eq|apply Z.eqb_neq]; lia.
  - rewrite filter_cons, decide_False by done. cbn [length]. apply Z.eqb_neq.
    pose proof (length_filter (fun x : bool => x = true) l). lia.
Qed.
Lemma blk_is_entire b fpb k : 0 <= fpb ->
  (count_free_bits b (k * fpb) fpb =? fpb) = entire (blk b fpb k).
Proof.
  intros Hf. rewrite count_free_bits_blk, <- free_count_entire, blk_length, Z2Nat.id by done. done.
Qed.
Lemma frag_count_free l : frag_count_of l = if entire l then 0 else free_count l.
Proof. done. Qed.

(** ** A range of the map changes *)

(** The sum of [f] over the first [N] blocks of the map. *)
Definition tally (f : list bool -> Z) (s : superblock) (b : buf) (N : Z) : Z :=
  sumZ (fun k => f (blk b (frags_per_block s) k)) N.

(** The fragments [lo, hi) were all [negb v] and become [v]: the run summary follows the
    map (modulo 2^32), [nb] and [nf] are the changes of the numbers of whole free blocks
    and of free fragments in split blocks, and nothing else of the header moves. *)
Record range_step (s : superblock) (v : bool) (N : Z) (b b' : buf) (lo hi nb nf : Z) : Prop :=
  RangeStep {
  rs_wf : wf_buf b';
  rs_bits : bits_after b' b lo (hi - lo) v;
  rs_was : forall j, lo <= j < hi -> bit_test b CG_FREE_OFF j = negb v;
  rs_whole : nb = tally whole_count s b' N - tally whole_count s b N;
  rs_frags : nf = tally frag_count_of s b' N - tally frag_count_of s b N;
  rs_runs : forall j, 1 <= j < frags_per_block s ->
    w32 (read_be32 b' (CG_FRSUM_OFF + j * 4) - tally (run_count j) s b' N) =
    w32 (read_be32 b (CG_FRSUM_OFF + j * 4) - tally (run_count j) s b N);
  rs_frame : forall o, o < CG_FREE_OFF -> ~ (56 <= o < 84) ->
    ~ (CG_BTOT_OFF <= o < CG_IUSED_OFF) -> b' o = b o;
}.

Lemma bits_after_adjacent a b c lo m m' v :
  0 <= m -> 0 <= m' ->
  bits_after b c lo m v -> bits_after a b (lo + m) m' v -> bits_after a c lo (m + m') v.
Proof.
  intros ?? H1 H2 j Hj. rewrite H2, H1 by done.
  destruct (Z.leb_spec (lo + m) j), (Z.ltb_spec j (lo + m + m')), (Z.leb_spec lo j),
    (Z.ltb_spec j (lo + m)), (Z.ltb_spec j (lo + (m + m'))); done || lia.
Qed.

Lemma range_step_refl s v N b lo : wf_buf b -> range_step s v N b b lo lo 0 0.
Proof.
  intros Hb. constructor; try done; try lia. intros j Hj.
  destruct (Z.leb_spec lo j), (Z.ltb_spec j (lo + (lo - lo))); done || lia.
Qed.
Lemma range_step_trans s v N b1 b2 b3 lo mid hi nb nf nb' nf' :
  0 <= lo <= mid -> mid <= hi ->
  range_step s v N b1 b2 lo mid nb nf -> range_step s v N b2 b3 mid hi nb' nf' ->
  range_step s v N b1 b3 lo hi (nb + nb') (nf + nf').
Proof.
  intros ?? [W1 B1 A1 N1 F1 R1 O1] [W2 B2 A2 N2 F2 R2 O2].
  constructor; [done| | |lia|lia| |].
  - replace (hi - lo) with ((mid - lo) + (hi - mid)) by lia.
    eapply bits_after_adjacent; [lia|lia|exact B1|]. by replace (lo + (mid - lo)) with mid by lia.
  - intros j Hj. destruct (decide (j < mid)); [apply A1; lia|].
    rewrite <- (A2 j), B1 by lia.
    destruct (Z.leb_spec lo j), (Z.ltb_spec j (lo + (mid - lo))); done || lia.
  - intros j Hj. by rewrite R2, R1.
  - intros o ???. by rewrite O2, O1.
Qed.

Lemma read_be32_below (a b : buf) o P :
  (forall i, o <= i < o + 4 -> P i) -> (forall i, P i -> a i = b i) -> read_be32 a o = read_be32 b o.
Proof. intros H1 H2. apply read_be32_eq_on. intros i Hi. by apply H2, H1. Qed.

Lemma tally_block f s b b' N k :
  0 <= k < N ->
  (forall k', 0 <= k' -> k' <> k -> blk b' (frags_per_block s) k' = blk b (frags_per_block s) k') ->
  tally f s b' N = tally f s b N - f (blk b (frags_per_block s) k) + f (blk b' (frags_per_block s) k).
Proof.
  intros Hk Hsame. unfold tally.
  apply (sumZ_update (fun k => f (blk b (frags_per_block s) k))
    (fun k => f (blk b' (frags_per_block s) k)) N k Hk).
  intros j ??. by rewrite Hsame by lia.
Qed.

Section parts.
Context (s : superblock) (N : Z).
Context (Hf : In (frags_per_block s) block_sizes).
Context (Hspc : 0 < sectors_per_cyl s) (Hspt : 0 < sectors_per_track s).
Local Abbreviation fpb := (frags_per_block s).

(** The map of one block was changed and the run summary brought up to date. *)
Lemma summarised_step b b1 k off m v :
  wf_buf b1 -> 0 <= k < N -> 0 <= off -> 0 < m -> off + m <= fpb ->
  bits_after b1 b (k * fpb + off) m v ->
  (forall j, k * fpb + off <= j < k * fpb + off + m -> bit_test b CG_FREE_OFF j = negb v) ->
  (forall o, o < CG_FREE_OFF -> b1 o = b o) ->
  let b2 := apply_cg_frsum_delta b1 (count_free_runs_in_block b (k * fpb) fpb)
              (count_free_runs_in_block b1 (k * fpb) fpb) fpb in
  range_step s v N b b2 (k * fpb + off) (k * fpb + off + m)
    (whole_count (blk b1 fpb k) - whole_count (blk b fpb k))
    (frag_count_of (blk b1 fpb k) - frag_count_of (blk b fpb k)) /\
  (forall k', 0 <= k' -> blk b2 fpb k' = blk b1 fpb k').
Proof.
  intros Hw Hk Ho Hm Hom Hbits Hwas Hlow b2. pose proof (block_size_pos _ Hf).
  destruct (apply_delta_spec b1 (count_free_runs_in_block b (k * fpb) fpb)
              (count_free_runs_in_block b1 (k * fpb) fpb) fpb Hw) as (Hw2 & Hout & Hval).
  fold b2 in Hw2, Hout, Hval.
  assert (Hbit : forall j, 0 <= j -> bit_test b2 CG_FREE_OFF j = bit_test b1 CG_FREE_OFF j).
  { intros j Hj. apply bit_test_high; [|done]. unfold CG_FREE_OFF, CG_FRSUM_OFF in *.
    intros o Hoo. apply Hout. lia. }
  assert (Hblk : forall k', 0 <= k' -> blk b2 fpb k' = blk b1 fpb k').
  { intros k' Hk'. apply blk_ext. intros i Hi. apply Hbit. nia. }
  destruct (blk_set_range b1 b fpb k off m v) as [_ Hsame]; [lia|lia|done|done|done|].
  assert (Ht : forall f, tally f s b2 N = tally f s b N - f (blk b fpb k) + f (blk b1 fpb k)).
  { intros f. rewrite (tally_block f s b b2 N k) by (done || intros; rewrite Hblk by done; auto).
    by rewrite Hblk by lia. }
  split; [|done]. constructor; [done| | |rewrite Ht; lia|rewrite Ht; lia| |].
  - replace (k * fpb + off + m - (k * fpb + off)) with m by lia.
    by eapply bits_after_trans.
  - intros j Hj. by apply Hwas.
  - intros j Hj. rewrite Hval, Ht by done. rewrite !count_free_runs_table by done.
    rewrite !run_table_nth by done.
    rewrite (read_be32_eq_on b1 b) by (intros i Hi; apply Hlow; unfold CG_FRSUM_OFF, CG_FREE_OFF in *; lia).
    unfold w32. rewrite Zminus_mod_idemp_l. f_equal. lia.
  - intros o ???. unfold CG_FRSUM_OFF in Hout. rewrite Hout by lia. by apply Hlow.
Qed.

Lemma reclassify_spec b base d : wf_buf b ->
  wf_buf (reclassify s b base d) /\
  forall o, ~ (CG_BTOT_OFF <= o < CG_IUSED_OFF) -> reclassify s b base d o = b o.
Proof. exact (adjust_positions_spec s b base d Hspc Hspt). Qed.

(** Reclassifying a block touches neither the map nor the run summary. *)
Lemma range_step_reclassify v b b' lo hi nb nf base d :
  0 <= lo -> range_step s v N b b' lo hi nb nf ->
  range_step s v N b (reclassify s b' base d) lo hi nb nf.
Proof.
  intros Hlo [W B A Nb F R O]. destruct (reclassify_spec b' base d W) as [Hw Hout].
  pose proof (block_size_pos _ Hf).
  assert (Hbit : forall j, 0 <= j ->
    bit_test (reclassify s b' base d) CG_FREE_OFF j = bit_test b' CG_FREE_OFF j).
  { intros j Hj. apply bit_test_high; [|done].
    unfold CG_FREE_OFF, CG_BTOT_OFF, CG_IUSED_OFF in *. intros o Hoo. apply Hout. lia. }
  assert (Ht : forall f, tally f s (reclassify s b' base d) N = tally f s b' N).
  { intros f. apply sumZ_ext. intros k Hk. f_equal. apply blk_ext. intros i Hi. apply Hbit. nia. }
  constructor; [done|by eapply bits_after_trans|done|by rewrite Ht|by rewrite Ht| |].
  - intros j Hj. rewrite Ht, <- R by done. f_equal. f_equal. apply read_be32_eq_on.
    unfold CG_FRSUM_OFF, CG_BTOT_OFF, CG_IUSED_OFF in *. intros i Hi. apply Hout. lia.
  - intros o ???. rewrite Hout by done. by apply O.
Qed.

(** What one part does: the change of the map, or the error because some fragment
    was [v] already. *)
Definition part_spec (v : bool) (e0 : errno) (step : part_step) : Prop :=
  forall b k off m, wf_buf b -> 0 <= k < N -> 0 <= off -> 0 < m -> off + m <= fpb ->
  match step b (k * fpb + off) (k * fpb + off + m) with
  | Ok (b', nb, nf) =>
      range_step s v N b b' (k * fpb + off) (k * fpb + off + m) nb nf
  | Err e => e = e0 /\ exists j, k * fpb + off <= j < k * fpb + off + m /\
                 bit_test b CG_FREE_OFF j = v
  end.

Lemma add_free_part_spec : part_spec true EINVAL (add_free_part s).
Proof.
  intros b k off m Hb Hk Ho Hm Hom. pose proof (block_size_pos _ Hf). unfold add_free_part.
  rewrite block_base_eq by lia. replace (k * fpb + off + m - (k * fpb + off)) with m by lia.
  destruct (set_free_bits _ _) as [b1|] eqn:E.
  - pose proof (set_free_bits_after _ _ _ _ E) as [Hb1 Hfree].
    assert (Hlow : forall o, o < CG_FREE_OFF -> b1 o = b o).
    { intros o. eapply set_free_bits_out; [done|]. apply Forall_forall.
      intros x Hx%elem_of_seqZ. nia. }
    destruct (summarised_step b b1 k off m true) as [Hstep Hblk];
      [by eapply set_free_bits_wf|done..|].
    set (b2 := apply_cg_frsum_delta _ _ _ _) in *.
    rewrite blk_is_entire, Hblk by lia.
    destruct (blk_set_range b1 b fpb k off m true) as [Hr _]; [lia|lia|done|done|done|].
    destruct (give_counts fpb (blk b fpb k) off m Hf (blk_length _ _ _) Ho Hm Hom) as [Hwc Hfc].
    { by apply range_is_blk. }
    rewrite <- Hr in Hwc, Hfc. rewrite Hwc, Hfc in Hstep.
    destruct (entire (blk b1 fpb k)).
    + apply range_step_reclassify; [nia|done].
    + done.
  - split; [done|].
    destruct (decide (Exists (fun j => bit_test b CG_FREE_OFF j = true) (seqZ (k * fpb + off) m)))
      as [Hex|Hno].
    + apply Exists_exists in Hex as (j & Hj%elem_of_seqZ & Hbit). exists j. split; [lia|done].
    + exfalso. enough (is_Some (set_free_bits b (seqZ (k * fpb + off) m))) as [? ?] by congruence.
      apply set_free_bits_total; [apply NoDup_seqZ|].
      intros i Hi. destruct (bit_test b CG_FREE_OFF i) eqn:Eb; [|done].
      destruct Hno. apply Exists_exists. eauto.
Qed.

Lemma not_entire_after b1 b k off m :
  0 <= k -> 0 <= off -> 0 < m -> off + m <= fpb -> bits_after b1 b (k * fpb + off) m false ->
  entire (blk b1 fpb k) = false.
Proof.
  intros Hk Ho Hm Hom Hb. pose proof (block_size_pos _ Hf).
  destruct (entire (blk b1 fpb k)) eqn:E; [|done].
  rewrite entire_range, range_is_blk in E by lia.
  specialize (E (k * fpb + off) ltac:(lia)). rewrite Hb in E by nia.
  destruct (Z.leb_spec (k * fpb + off) (k * fpb + off)),
    (Z.ltb_spec (k * fpb + off) (k * fpb + off + m)); done || lia.
Qed.

Lemma reserve_part_spec : part_spec false ENOSPC (reserve_part s).
Proof.
  intros b k off m Hb Hk Ho Hm Hom. pose proof (block_size_pos _ Hf). unfold reserve_part.
  rewrite block_base_eq by lia. replace (k * fpb + off + m - (k * fpb + off)) with m by lia.
  destruct (Z.ltb_spec 8 fpb); [lia|]. rewrite set_run_bits_range by done.
  destruct (range_is _ _ _ _) eqn:Er; cbn [negb].
  - assert (Hfree : forall j, k * fpb + off <= j < k * fpb + off + m ->
      bit_test b CG_FREE_OFF j = negb false) by by apply range_is_blk.
    pose proof (clear_block_bits_after b (k * fpb + off) m) as Hb1.
    set (b1 := clear_block_bits b (k * fpb + off) m) in *.
    destruct (summarised_step b b1 k off m false) as [Hstep Hblk]; try done.
    { by apply clear_block_bits_wf. }
    { intros o Hoo. apply clear_block_bits_out; [nia|done]. }
    set (b2 := apply_cg_frsum_delta _ _ _ _) in *.
    pose proof (not_entire_after b1 b k off m ltac:(lia) Ho Hm Hom Hb1) as He1.
    unfold whole_count in Hstep. rewrite !frag_count_free, He1 in Hstep.
    rewrite !blk_is_entire, He1 by lia. rewrite !count_free_bits_blk by lia. cbn [negb].
    rewrite andb_true_r. destruct (entire (blk b fpb k)).
    + rewrite Z.sub_0_r in Hstep. apply range_step_reclassify; [nia|exact Hstep].
    + exact Hstep.
  - split; [done|]. unfold range_is in Er.
    destruct (decide (Exists (fun j => bit_test b CG_FREE_OFF j = false) (seqZ (k * fpb + off) m)))
      as [Hex|Hno].
    + apply Exists_exists in Hex as (j & Hj%elem_of_seqZ & Hbit). exists j. split; [lia|done].
    + exfalso. enough (range_is (blk b fpb k) off m true = true) by (unfold range_is in *; congruence).
      apply range_is_blk; [done|done|]. intros j Hj.
      destruct (bit_test b CG_FREE_OFF j) eqn:Eb; [done|].
      destruct Hno. apply Exists_exists. exists j. split; [apply elem_of_seqZ; lia|done].
Qed.

(** ** The loop over the parts *)
Lemma block_parts_spec v e0 step : part_spec v e0 step -> N * fpb < 2 ^ 32 ->
  forall fuel b pos end_ nb nf, wf_buf b -> 0 <= pos <= end_ -> end_ <= N * fpb ->
  (Z.to_nat (end_ - pos) < fuel)%nat ->
  match block_parts fuel fpb step b pos end_ nb nf with
  | Ok (b', nb', nf') => range_step s v N b b' pos end_ (nb' - nb) (nf' - nf)
  | Err e => e = e0 /\ exists j, pos <= j < end_ /\ bit_test b CG_FREE_OFF j = v
  end.
Proof.
  intros Hstep HN. pose proof (block_size_pos _ Hf).
  induction fuel as [|fuel IH]; intros b pos end_ nb nf Hb Hpos Hend Hfuel; [lia|].
  cbn [block_parts]. destruct (Z.ltb_spec pos end_) as [Hlt|Hge].
  2: { replace end_ with pos by lia. rewrite !Z.sub_diag. by apply range_step_refl. }
  pose proof (Z.div_mod pos fpb ltac:(lia)) as Hdm.
  pose proof (Z.mod_pos_bound pos fpb ltac:(lia)) as Hmod.
  assert (Hk : 0 <= pos / fpb < N).
  { split; [apply Z.div_pos; lia|apply Z.div_lt_upper_bound; lia]. }
  set (k := pos / fpb) in *. set (off := pos mod fpb) in *.
  rewrite w32_small by nia.
  set (part_end := if end_ <? pos - off + fpb then end_ else pos - off + fpb).
  assert (Hp : pos < part_end /\ part_end <= end_ /\ off + (part_end - pos) <= fpb).
  { unfold part_end. destruct (Z.ltb_spec end_ (pos - off + fpb)); lia. }
  pose proof (Hstep b k off (part_end - pos) Hb Hk ltac:(lia) ltac:(lia) ltac:(lia)) as Hs.
  replace (k * fpb + off) with pos in Hs by lia.
  replace (pos + (part_end - pos)) with part_end in Hs by lia.
  destruct (step b pos part_end) as [[[b1 x] y]|e].
  - pose proof (IH b1 part_end end_ (nb + x) (nf + y) (rs_wf _ _ _ _ _ _ _ _ _ Hs)
      ltac:(lia) Hend ltac:(lia)) as Hrest.
    destruct (block_parts _ _ _ _ _ _ _ _) as [[[b2 nb'] nf']|e].
    + replace (nb' - nb) with (x + (nb' - (nb + x))) by lia.
      replace (nf' - nf) with (y + (nf' - (nf + y))) by lia.
      apply (range_step_trans s v N b b1 b2 pos part_end end_); done || lia.
    + destruct Hrest as (-> & j & Hj & Hbit). split; [done|]. exists j. split; [lia|].
      rewrite <- Hbit. rewrite (rs_bits _ _ _ _ _ _ _ _ _ Hs j ltac:(lia)).
      destruct (Z.leb_spec pos j), (Z.ltb_spec j (pos + (part_end - pos))); done || lia.
  - destruct Hs as (-> & j & Hj & Hbit). split; [done|]. exists j. split; [lia|done].
Qed.
End parts.

(** ** Counters out of tallies *)
Lemma tally_ext f s a b N :
  (forall j, 0 <= j -> bit_test a CG_FREE_OFF j = bit_test b CG_FREE_OFF j) ->
  0 < frags_per_block s -> tally f s a N = tally f s b N.
Proof.
  intros H Hf. apply sumZ_ext. intros k Hk. f_equal. apply blk_ext. intros i Hi. apply H. nia.
Qed.
Lemma tally_bounds s b N j : In (frags_per_block s) block_sizes -> 0 <= N ->
  0 <= tally whole_count s b N <= 8 * N /\ 0 <= tally frag_count_of s b N <= 8 * N /\
  0 <= tally (run_count j) s b N <= 8 * N.
Proof.
  intros Hf HN. unfold tally. split; [|split]; apply sumZ_bounds; try done; intros k; by apply (counts_bounded _ b k j).
Qed.

(** A block with no free fragment counts nothing. *)
Lemma empty_block_counts b fpb k :
  In fpb block_sizes -> (forall i, 0 <= i < fpb -> bit_test b CG_FREE_OFF (k * fpb + i) = false) ->
  whole_count (blk b fpb k) = 0 /\ frag_count_of (blk b fpb k) = 0 /\
  forall j, run_count j (blk b fpb k) = 0.
Proof.
  intros Hf Hall. pose proof (block_size_pos _ Hf).
  assert (every_block (fun n l => negb (range_is l 0 n false) ||
    ((whole_count l =? 0) && (frag_count_of l =? 0) && bool_decide (runs l 0 = []))) = true) as H0
    by (vm_compute; reflexivity).
  eapply every_block_spec in H0; [|exact Hf|apply (blk_length b fpb k)]. cbn beta in H0.
  assert (range_is (blk b fpb k) 0 fpb false = true) as Hr.
  { apply range_is_blk; [lia|lia|]. intros j Hj. specialize (Hall (j - k * fpb) ltac:(lia)).
    rewrite <- Hall. f_equal. lia. }
  rewrite Hr in H0. cbn [negb orb] in H0.
  rewrite !andb_true_iff, !Z.eqb_eq, bool_decide_eq_true in H0. destruct H0 as [[H1 H2] H3].
  split_and!; [done|done|]. intros j. unfold run_count. by rewrite H3.
Qed.
Lemma tally_tail s b N0 N (f : list bool -> Z) :
  In (frags_per_block s) block_sizes -> 0 <= N0 <= N ->
  (forall i, N0 * frags_per_block s <= i < N * frags_per_block s ->
     bit_test b CG_FREE_OFF i = false) ->
  (f = whole_count \/ f = frag_count_of \/ exists j, f = run_count j) ->
  tally f s b N = tally f s b N0.
Proof.
  intros Hf HN Hbit Hcase. apply sumZ_tail; [done|]. intros k Hk.
  destruct (empty_block_counts b (frags_per_block s) k Hf) as (H1 & H2 & H3).
  - intros i Hi. apply Hbit. nia.
  - destruct Hcase as [->|[->|[j ->]]]; auto.
Qed.

(** No bit of the map is set at or beyond the size of the group. *)
Definition clean_tail (s : superblock) (b : buf) : Prop :=
  forall i, read_be32 b CG_NDBLK_OFF <= i < 8 * ((frags_per_group s + 7) / 8) ->
    bit_test b CG_FREE_OFF i = false.

(** The run summary stays in agreement. *)
Lemma range_step_runs s v N b b' lo hi nb nf :
  In (frags_per_block s) block_sizes -> 0 <= N < 2 ^ 20 ->
  range_step s v N b b' lo hi nb nf ->
  (forall j, 1 <= j < frags_per_block s ->
     read_be32 b (CG_FRSUM_OFF + j * 4) = tally (run_count j) s b N) ->
  forall j, 1 <= j < frags_per_block s ->
    read_be32 b' (CG_FRSUM_OFF + j * 4) = tally (run_count j) s b' N.
Proof.
  intros Hf HN [W _ _ _ _ R _] H j Hj. specialize (R j Hj). rewrite H, Z.sub_diag in R by done.
  pose proof (tally_bounds s b' N j Hf ltac:(lia)) as (_ & _ & Ht).
  pose proof (read_be32_range b' W (CG_FRSUM_OFF + j * 4)) as Hr.
  unfold w32 in R. rewrite (Z.mod_small 0) in R by lia.
  apply Z.mod_divide in R as [q Hq]; [|lia]. nia.
Qed.

Section headers.
Context (s : superblock) (G : geometry s) (Hwf : sb_wf s).
Local Abbreviation fpb := (frags_per_block s).

Definition blocks_of (n : Z) : Z := (n + fpb - 1) / fpb.

Lemma grow_sizes : In fpb block_sizes /\ 0 < frags_per_group s <= 65536 /\
  0 < sectors_per_cyl s /\ 0 < sectors_per_track s.
Proof.
  pose proof (geo_cg_map _ G). pose proof (geo_cg_size _ G). pose proof (geo_block_size _ G).
  pose proof (geo_fpg _ G). pose proof (geo_spc _ G).
  split; [by apply geometry_block_sizes|]. split; [|done].
  pose proof (Z.mul_succ_div_gt (frags_per_group s + 7) 8 ltac:(lia)).
  unfold CG_FREE_OFF in *. lia.
Qed.
Lemma blocks_of_bounds n : 0 <= n <= frags_per_group s ->
  0 <= blocks_of n <= frags_per_group s /\ n <= blocks_of n * fpb /\
  blocks_of n * fpb <= 8 * ((frags_per_group s + 7) / 8) /\ blocks_of n * fpb < 2 ^ 20.
Proof.
  intros Hn. destruct grow_sizes as (Hf & Hg & _). pose proof (block_size_pos _ Hf).
  unfold blocks_of. pose proof (Z.div_mod (n + fpb - 1) fpb ltac:(lia)).
  pose proof (Z.mod_pos_bound (n + fpb - 1) fpb ltac:(lia)).
  assert (Hle : (n + fpb - 1) / fpb * fpb <= 8 * ((n + 7) / 8)).
  { cbn in Hf. destruct Hf as [<-|[<-|[<-|[<-|[]]]]]; Z.to_euclidean_division_equations; lia. }
  pose proof (Z.div_le_mono (n + 7) (frags_per_group s + 7) 8 ltac:(lia) ltac:(lia)).
  pose proof (Z.mul_div_le (frags_per_group s + 7) 8 ltac:(lia)).
  split_and!; nia.
Qed.

(** The final counters of a header whose map and run summary are in place. *)
Lemma acct_of_tallies b n (N := blocks_of n) :
  read_be32 b CG_NDBLK_OFF = n ->
  read_be32 b CG_CS_NBFREE_OFF = tally whole_count s b N ->
  read_be32 b CG_CS_NFFREE_OFF = tally frag_count_of s b N ->
  (forall j, 1 <= j < fpb -> read_be32 b (CG_FRSUM_OFF + j * 4) = tally (run_count j) s b N) ->
  (forall i, n <= i < N * fpb -> bit_test b CG_FREE_OFF i = false) ->
  acct s b.
Proof.
  intros Hn H1 H2 H3 H4.
  assert (blocks s b = N) as HN by (unfold blocks, N, blocks_of; by rewrite Hn).
  constructor; rewrite ?HN, ?Hn; done.
Qed.

(** A group in agreement, in terms of the tallies over [N] blocks. *)
Lemma acct_tallies b N : acct s b -> blocks s b <= N -> 0 <= blocks s b ->
  (forall i, read_be32 b CG_NDBLK_OFF <= i < N * fpb -> bit_test b CG_FREE_OFF i = false) ->
  read_be32 b CG_NDBLK_OFF <= blocks s b * fpb ->
  tally whole_count s b N = read_be32 b CG_CS_NBFREE_OFF /\
  tally frag_count_of s b N = read_be32 b CG_CS_NFFREE_OFF /\
  forall j, 1 <= j < fpb -> tally (run_count j) s b N = read_be32 b (CG_FRSUM_OFF + j * 4).
Proof.
  intros [A1 A2 A3 _] HN H0 Htail Hle. destruct grow_sizes as (Hf & _).
  assert (Ht : forall f, (f = whole_count \/ f = frag_count_of \/ exists j, f = run_count j) ->
    tally f s b N = tally f s b (blocks s b)).
  { intros f Hc. apply tally_tail; try done. intros i Hi. apply Htail. lia. }
  split_and!.
  - rewrite Ht by auto. by rewrite A1.
  - rewrite Ht by auto. by rewrite A2.
  - intros j Hj. rewrite Ht by eauto. by rewrite A3.
Qed.

(** The bytes outside the free map that growing never touches: the inode map, the
    directory and inode counters, the magic number. *)
Definition header_keeps (b b' : buf) : Prop :=
  (forall o, CG_IUSED_OFF <= o < CG_FREE_OFF -> b' o = b o) /\
  read_be32 b' CG_CS_NDIR_OFF = read_be32 b CG_CS_NDIR_OFF /\
  read_be32 b' CG_CS_NIFREE_OFF = read_be32 b CG_CS_NIFREE_OFF.
Lemma keeps_iacct b b' : header_keeps b b' -> iacct s b -> iacct s b'.
Proof.
  intros (Hu & _ & Hn) Hi. unfold iacct in *. rewrite Hn, Hi. apply sumZ_ext. intros i Hi'.
  pose proof (geo_ipg _ G). pose proof (iused_byte i ltac:(lia)).
  by rewrite (bit_test_byte b' b) by (apply Hu; unfold CG_MAGIC_OFF, CG_FREE_OFF in *; lia).
Qed.
Lemma keeps_magic b b' : header_keeps b b' -> read_be32 b' CG_MAGIC_OFF = read_be32 b CG_MAGIC_OFF.
Proof.
  intros (Hu & _). apply read_be32_eq_on. intros i Hi. apply Hu.
  unfold CG_IUSED_OFF, CG_MAGIC_OFF, CG_FREE_OFF in *. lia.
Qed.
Lemma keeps_frame b b' :
  (forall o, o < CG_FREE_OFF -> ~ (56 <= o < 84) -> ~ (CG_BTOT_OFF <= o < CG_IUSED_OFF) ->
     ~ (8 <= o < 24) -> ~ (28 <= o < 32) -> ~ (36 <= o < 40) -> b' o = b o) ->
  header_keeps b b'.
Proof.
  intros H. unfold header_keeps, CG_IUSED_OFF, CG_FREE_OFF, CG_BTOT_OFF, CG_CS_NDIR_OFF,
    CG_CS_NIFREE_OFF in *. split_and!.
  - intros o Ho. apply H; lia.
  - apply read_be32_eq_on. intros i Hi. apply H; lia.
  - apply read_be32_eq_on. intros i Hi. apply H; lia.
Qed.

(** Freeing a range that lies in the group and is not free yet succeeds. *)
Lemma add_range_ok b lo hi n :
  wf_buf b -> 0 <= lo <= hi -> hi <= n <= frags_per_group s ->
  (forall j, lo <= j < hi -> bit_test b CG_FREE_OFF j = false) ->
  exists b' nb nf, add_free_frag_range s b lo hi = Ok (b', nb, nf) /\
    range_step s true (blocks_of n) b b' lo hi nb nf.
Proof.
  intros Hb Hlo Hhi Hclear. destruct grow_sizes as (Hf & Hg & Hspc & Hspt).
  pose proof (block_size_pos _ Hf).
  destruct (blocks_of_bounds n ltac:(lia)) as (HN & Hle & _ & Hmax).
  unfold add_free_frag_range. destruct (Z.ltb_spec hi lo); [lia|].
  destruct (Z.ltb_spec (frags_per_group s) hi); [lia|]. cbn [orb].
  destruct (Z.eqb_spec fpb 0); [lia|]. destruct (Z.ltb_spec 8 fpb); [lia|]. cbn [orb].
  pose proof (block_parts_spec s (blocks_of n) Hf true EINVAL (add_free_part s)
    (add_free_part_spec s (blocks_of n) Hf Hspc Hspt) ltac:(lia)
    (parts_fuel lo hi) b lo hi 0 0 Hb Hlo ltac:(lia) ltac:(unfold parts_fuel; lia)) as Hrun.
  destruct (block_parts _ _ _ _ _ _ _ _) as [[[b' nb] nf]|e].
  - rewrite !Z.sub_0_r in Hrun. eauto.
  - destruct Hrun as (_ & j & Hj & Hbit). by rewrite Hclear in Hbit.
Qed.

Lemma close_counters_spec b nb nf now : wf_buf b ->
  let b' := close_counters b nb nf now in
  wf_buf b' /\
  read_be32 b' CG_CS_NBFREE_OFF = w32 (read_be32 b CG_CS_NBFREE_OFF + nb) /\
  read_be32 b' CG_CS_NFFREE_OFF = w32 (read_be32 b CG_CS_NFFREE_OFF + nf) /\
  forall o, ~ (8 <= o < 12) -> ~ (28 <= o < 32) -> ~ (36 <= o < 40) -> b' o = b o.
Proof.
  intros Hb b'. unfold b', close_counters, CG_CS_NBFREE_OFF, CG_CS_NFFREE_OFF, CG_TIME_OFF.
  split_and!.
  - auto with bytes.
  - rewrite read_be32_write_other by lia.
    rewrite (read_be32_eq_on _ (add_be32 b 28 nb)) by (intros i Hi; apply add_be32_out; lia).
    apply read_add_be32.
  - rewrite read_be32_write_other, read_add_be32 by lia. by do 2 f_equal.
  - intros o ???. by rewrite write_be32_out, !add_be32_out by lia.
Qed.

(** A header whose summary follows its map, before the counters are brought up to
    date: what the last writes have to store. *)
Lemma finish_header b b1 b2 lo hi v n nb nf now :
  range_step s v (blocks_of n) b b1 lo hi nb nf -> wf_buf b2 -> 0 <= n <= frags_per_group s ->
  (forall o, ~ (16 <= o < 24) -> b2 o = b1 o) -> read_be32 b2 CG_NDBLK_OFF = n ->
  tally whole_count s b (blocks_of n) = read_be32 b CG_CS_NBFREE_OFF ->
  tally frag_count_of s b (blocks_of n) = read_be32 b CG_CS_NFFREE_OFF ->
  (forall j, 1 <= j < fpb ->
     tally (run_count j) s b (blocks_of n) = read_be32 b (CG_FRSUM_OFF + j * 4)) ->
  (forall i, n <= i < blocks_of n * fpb -> bit_test b1 CG_FREE_OFF i = false) ->
  let b' := close_counters b2 nb nf now in
  wf_buf b' /\ acct s b' /\ read_be32 b' CG_NDBLK_OFF = n /\ bits_after b' b lo (hi - lo) v /\
  counters_move b b' nb nf /\ header_keeps b b'.
Proof.
  intros Hstep Hw2 Hn H2 Hnd Hnb Hnf Hruns Htail b'.
  destruct grow_sizes as (Hf & Hg & _). pose proof (block_size_pos _ Hf).
  destruct (blocks_of_bounds n Hn) as (HN & _ & _ & HM).
  destruct (close_counters_spec b2 nb nf now Hw2) as (Hw & Hcb & Hcf & Hout).
  fold b' in Hw, Hcb, Hcf, Hout.
  pose proof Hstep as [_ Hbits _ Hwhole Hfrag _ Hframe].
  assert (Hlow : forall o, o < CG_FREE_OFF -> ~ (56 <= o < 84) ->
    ~ (CG_BTOT_OFF <= o < CG_IUSED_OFF) -> ~ (8 <= o < 24) -> ~ (28 <= o < 32) ->
    ~ (36 <= o < 40) -> b' o = b o).
  { intros o ??????. rewrite Hout, H2 by lia. by apply Hframe. }
  assert (Hbit1 : forall j, 0 <= j -> bit_test b' CG_FREE_OFF j = bit_test b1 CG_FREE_OFF j).
  { intros j Hj. apply bit_test_high; [|done]. unfold CG_FREE_OFF. intros i Hi.
    rewrite Hout, H2 by lia. done. }
  assert (Hword : forall o, o = CG_CS_NBFREE_OFF \/ o = CG_CS_NFFREE_OFF ->
    read_be32 b2 o = read_be32 b o).
  { intros o Ho. apply read_be32_eq_on. unfold CG_CS_NBFREE_OFF, CG_CS_NFFREE_OFF in Ho.
    intros i Hi. rewrite H2 by lia.
    apply Hframe; unfold CG_FREE_OFF, CG_BTOT_OFF, CG_IUSED_OFF; lia. }
  rewrite Hword in Hcb, Hcf by auto.
  destruct (tally_bounds s b1 (blocks_of n) 0 Hf ltac:(lia)) as (Tb & Tf & _).
  rewrite <- Hnb, Hwhole in Hcb. rewrite <- Hnf, Hfrag in Hcf.
  rewrite w32_small in Hcb, Hcf by lia.
  assert (Hte : forall f, tally f s b' (blocks_of n) = tally f s b1 (blocks_of n)).
  { intros f. apply tally_ext; [done|lia]. }
  assert (Hn' : read_be32 b' CG_NDBLK_OFF = n).
  { rewrite <- Hnd. apply read_be32_eq_on. unfold CG_NDBLK_OFF. intros i Hi. apply Hout; lia. }
  split_and!.
  - done.
  - apply (acct_of_tallies b' n); try done.
    + rewrite Hte, Hcb. lia.
    + rewrite Hte, Hcf. lia.
    + intros j Hj. rewrite Hte. rewrite (read_be32_eq_on b' b1).
      2: { unfold CG_FRSUM_OFF. intros i Hi. rewrite Hout, H2 by lia. done. }
      apply (range_step_runs s v (blocks_of n) b b1 lo hi nb nf); try done; [lia|].
      intros j' Hj'. symmetry. by apply Hruns.
    + intros i Hi. rewrite Hbit1 by lia. by apply Htail.
  - done.
  - eapply bits_after_trans; [exact Hbit1|done].
  - split; lia.
  - by apply keeps_frame.
Qed.

(** The old last group: its size becomes [end_], the fragments gained are free. *)
Lemma resized_header_ok b start end_ ncyl now :
  wf_buf b -> group_ok s b -> clean_tail s b -> start = read_be32 b CG_NDBLK_OFF ->
  start <= end_ <= frags_per_group s ->
  exists b1 nb nf, add_free_frag_range s b start end_ = Ok (b1, nb, nf) /\
    let b' := resized_header b1 end_ ncyl nb nf now in
    wf_buf b' /\ group_ok s b' /\ clean_tail s b' /\ read_be32 b' CG_NDBLK_OFF = end_ /\
    bits_after b' b start (end_ - start) true /\ counters_move b b' nb nf /\ header_keeps b b'.
Proof.
  intros Hb [Hlim Ha Hi] Htail Hst Hend. destruct grow_sizes as (Hf & Hg & _).
  pose proof (block_size_pos _ Hf). pose proof (read_be32_range b Hb CG_NDBLK_OFF) as Hr.
  destruct (blocks_of_bounds end_ ltac:(lia)) as (HN & Hle & Hmap & HM).
  destruct (blocks_of_bounds start ltac:(lia)) as (HN0 & Hle0 & _ & _).
  destruct (add_range_ok b start end_ end_) as (b1 & nb & nf & Hadd & Hstep);
    [done|lia|lia|intros j Hj; apply Htail; lia|].
  pose proof (rs_bits _ _ _ _ _ _ _ _ _ Hstep) as Hbits.
  set (b2 := write_be32 (write_be16 b1 CG_NCYL_OFF ncyl) CG_NDBLK_OFF end_).
  assert (Hbl : blocks s b = blocks_of start) by (unfold blocks, blocks_of; by rewrite Hst).
  assert (Hmono : blocks_of start <= blocks_of end_) by (apply Z.div_le_mono; lia).
  destruct (acct_tallies b (blocks_of end_) Ha) as (T1 & T2 & T3); rewrite ?Hbl; try lia.
  { intros i Hii. apply Htail. lia. }
  destruct (finish_header b b1 b2 start end_ true end_ nb nf now)
    as (Hw & Hacct & Hn & Hba & Hcm & Hk); try done; try lia.
  { unfold b2. pose proof (rs_wf _ _ _ _ _ _ _ _ _ Hstep). auto with bytes. }
  { intros o Ho. unfold b2, CG_NDBLK_OFF, CG_NCYL_OFF.
    by rewrite write_be32_out, write_be16_out by lia. }
  { unfold b2. rewrite read_write_be32. by rewrite w32_small by lia. }
  { intros i Hii. rewrite Hbits by lia.
    destruct (Z.leb_spec start i), (Z.ltb_spec i (start + (end_ - start))); cbn [andb]; try lia.
    apply Htail. lia. }
  exists b1, nb, nf. split; [done|]. unfold resized_header. fold b2.
  split_and!; try done.
  - constructor; [lia|done|by eapply keeps_iacct].
  - intros i Hii. rewrite Hn in Hii. rewrite Hba by lia.
    destruct (Z.leb_spec start i), (Z.ltb_spec i (start + (end_ - start))); cbn [andb]; try lia.
    apply Htail. lia.
Qed.

(** The enlarged summary area: its fragments are taken when all of them are free. *)
Lemma reserve_blocks_ok b pos end_ now :
  wf_buf b -> group_ok s b -> 0 <= pos <= end_ -> end_ <= read_be32 b CG_NDBLK_OFF ->
  match reserve_blocks s b pos end_ with
  | Ok (b1, nb, nf) =>
      let b' := close_counters b1 nb nf now in
      (forall j, pos <= j < end_ -> bit_test b CG_FREE_OFF j = true) /\
      wf_buf b' /\ group_ok s b' /\ read_be32 b' CG_NDBLK_OFF = read_be32 b CG_NDBLK_OFF /\
      bits_after b' b pos (end_ - pos) false /\ counters_move b b' nb nf /\ header_keeps b b'
  | Err e => e = ENOSPC /\ exists j, pos <= j < end_ /\ bit_test b CG_FREE_OFF j = false
  end.
Proof.
  intros Hb [Hlim Ha Hi] Hpos Hend. destruct grow_sizes as (Hf & Hg & Hspc & Hspt).
  pose proof (block_size_pos _ Hf). pose proof (read_be32_range b Hb CG_NDBLK_OFF) as Hr.
  set (n := read_be32 b CG_NDBLK_OFF) in *.
  destruct (blocks_of_bounds n ltac:(lia)) as (HN & Hle & Hmap & HM).
  unfold reserve_blocks.
  pose proof (block_parts_spec s (blocks_of n) Hf false ENOSPC (reserve_part s)
    (reserve_part_spec s (blocks_of n) Hf Hspc Hspt) ltac:(lia)
    (parts_fuel pos end_) b pos end_ 0 0 Hb Hpos ltac:(lia) ltac:(unfold parts_fuel; lia)) as Hrun.
  destruct (block_parts _ _ _ _ _ _ _ _) as [[[b1 nb] nf]|e]; [|exact Hrun].
  rewrite !Z.sub_0_r in Hrun.
  pose proof (rs_bits _ _ _ _ _ _ _ _ _ Hrun) as Hbits.
  assert (Hbl : blocks s b = blocks_of n) by done.
  destruct (acct_tallies b (blocks_of n) Ha) as (T1 & T2 & T3); rewrite ?Hbl; try lia.
  { intros i Hii. apply (ac_tail _ _ Ha). rewrite Hbl. exact Hii. }
  destruct (finish_header b b1 b1 pos end_ false n nb nf now)
    as (Hw & Hacct & Hn & Hba & Hcm & Hk); try done; try lia.
  { by eapply rs_wf. }
  { unfold n. apply read_be32_eq_on. unfold CG_NDBLK_OFF. intros i Hii.
    apply (rs_frame _ _ _ _ _ _ _ _ _ Hrun); unfold CG_FREE_OFF, CG_BTOT_OFF, CG_IUSED_OFF; lia. }
  { intros i Hii. rewrite Hbits by lia.
    destruct (Z.leb_spec pos i), (Z.ltb_spec i (pos + (end_ - pos))); cbn [andb]; try lia.
    apply (ac_tail _ _ Ha). rewrite Hbl. exact Hii. }
  split_and!; try done.
  - intros j Hj. by apply (rs_was _ _ _ _ _ _ _ _ _ Hrun).
  - constructor; [lia|done|by eapply keeps_iacct].
Qed.

(** Where the parts of a group lie, also for a group that does not exist yet. *)
Lemma cg_addresses cg (d := cg_delta s * Z.land cg (not32 (cg_cyc_mask s))) :
  0 <= cg < 2 ^ 32 ->
  0 <= d /\ d + data_off s <= frags_per_group s /\
  cgstart s cg = frags_per_group s * cg + d /\
  cgsblock s cg = frags_per_group s * cg + d + sb_off s /\
  cgtod s cg = frags_per_group s * cg + d + cg_off s /\
  cgimin s cg = frags_per_group s * cg + d + ino_off s /\
  cgdmin s cg = frags_per_group s * cg + d + data_off s.
Proof.
  intros Hcg. destruct grow_sizes as (_ & Hg & _).
  pose proof (geo_stagger _ G). pose proof (geo_order _ G). pose proof (wf_cg_delta _ Hwf).
  pose proof (wf_sb_off _ Hwf). pose proof (wf_data_off _ Hwf).
  assert (Hl : 0 <= Z.land cg (not32 (cg_cyc_mask s)) <= not32 (cg_cyc_mask s))
    by (apply land_le_r; [lia|apply w32_range]).
  assert (Hd : 0 <= d /\ d + data_off s <= frags_per_group s) by (unfold d; nia).
  assert (0 <= frags_per_group s * cg <= 65536 * 2 ^ 32) by nia.
  assert (Hst : cgstart s cg = frags_per_group s * cg + d)
    by (unfold cgstart; fold d; apply w64_small; lia).
  unfold cgsblock, cgtod, cgimin, cgdmin. rewrite Hst, !w64_small by lia. split_and!; lia.
Qed.
Lemma new_cg_bounds cg : 0 <= cg < 2 ^ 32 ->
  0 <= cg_dlower s cg < cg_dupper s cg /\ cg_dupper s cg <= frags_per_group s.
Proof.
  intros Hcg. destruct (cg_addresses cg Hcg) as (H1 & H2 & _ & Hs & _ & _ & Hd).
  destruct grow_sizes as (_ & Hg & _). pose proof (geo_order _ G). pose proof (wf_sb_off _ Hwf).
  unfold cg_dlower, cg_dupper. rewrite Hs, Hd, !w32_small by lia. lia.
Qed.

Lemma blank_cg_fields cg ncyl ndblk now : 0 <= ndblk < 2 ^ 32 ->
  let b := blank_cg s cg ncyl ndblk now in
  wf_buf b /\ read_be32 b CG_NDBLK_OFF = ndblk /\ read_be32 b CG_MAGIC_OFF = CG_MAGIC /\
  (forall o, 24 <= o < CG_MAGIC_OFF -> b o = 0) /\
  (forall j, 0 <= j -> bit_test b CG_FREE_OFF j = false).
Proof.
  intros Hn b.
  assert (Hz : forall o, 24 <= o -> ~ (48 <= o < 52) -> ~ (CG_MAGIC_OFF <= o < CG_FREE_OFF) -> b o = 0).
  { intros o ???. unfold b, blank_cg, CG_TIME_OFF, CG_CGX_OFF, CG_NCYL_OFF, CG_NIBLK_OFF,
      CG_NDBLK_OFF, CG_IROTOR_OFF, CG_MAGIC_OFF, CG_FREE_OFF in *.
    rewrite !write_be32_out, !write_be16_out, !write_be32_out by lia. done. }
  split_and!.
  - unfold b, blank_cg. auto 10 with bytes.
  - unfold b, blank_cg, CG_NDBLK_OFF, CG_IROTOR_OFF, CG_MAGIC_OFF.
    rewrite !read_be32_write_other, read_write_be32 by lia. by apply w32_small.
  - unfold b, blank_cg. apply read_write_be32.
  - intros o Ho. destruct (decide (48 <= o < 52)) as [Hi|Hi].
    + unfold b, blank_cg, CG_IROTOR_OFF, CG_MAGIC_OFF. rewrite write_be32_out by lia.
      assert (o = 48 \/ o = 49 \/ o = 50 \/ o = 51) as Hc by lia.
      destruct Hc as [->|[->|[->| ->]]]; reflexivity.
    + apply Hz; unfold CG_MAGIC_OFF in *; lia.
  - intros j Hj. rewrite bit_test_testbit. pose proof (Z.div_pos j 8 Hj ltac:(lia)).
    rewrite Hz; [apply Z.testbit_0_l| | |]; unfold CG_FREE_OFF, CG_MAGIC_OFF; lia.
Qed.

(** The three counters of a fresh header. *)
Definition set_counters (b : buf) (nb ni nf : Z) : buf :=
  write_be32 (write_be32 (write_be32 b CG_CS_NBFREE_OFF nb) CG_CS_NIFREE_OFF ni)
    CG_CS_NFFREE_OFF nf.
Lemma set_counters_spec b nb ni nf : wf_buf b ->
  let b' := set_counters b nb ni nf in
  wf_buf b' /\ read_be32 b' CG_CS_NBFREE_OFF = w32 nb /\
  read_be32 b' CG_CS_NIFREE_OFF = w32 ni /\ read_be32 b' CG_CS_NFFREE_OFF = w32 nf /\
  forall o, ~ (28 <= o < 40) -> b' o = b o.
Proof.
  intros Hb b'. unfold b', set_counters, CG_CS_NBFREE_OFF, CG_CS_NIFREE_OFF, CG_CS_NFFREE_OFF.
  split_and!.
  - auto with bytes.
  - by rewrite !read_be32_write_other, read_write_be32 by lia.
  - by rewrite read_be32_write_other, read_write_be32 by lia.
  - by rewrite read_write_be32.
  - intros o Ho. by rewrite !write_be32_out by lia.
Qed.

Lemma blank_tally b N f :
  (forall j, 0 <= j -> bit_test b CG_FREE_OFF j = false) -> 0 <= N ->
  (f = whole_count \/ f = frag_count_of \/ exists j, f = run_count j) -> tally f s b N = 0.
Proof.
  intros Hbits HN Hc. destruct grow_sizes as (Hf & _). pose proof (block_size_pos _ Hf).
  rewrite (tally_tail s b 0 N f Hf) by (done || lia || (intros; apply Hbits; lia)). done.
Qed.

(** The fragments of a group that hold data: those before its superblock copy and
    those after its inodes. *)
Definition data_fragment (cg ndblk j : Z) : bool :=
  (j <? cg_dlower s cg) || ((cg_dupper s cg <=? j) && (j <? ndblk)).

(** The map of a new group after both ranges are freed. *)
Lemma fresh_map cg ncyl ndblk now (N := blocks_of ndblk) :
  0 <= cg < 2 ^ 32 -> cg_dupper s cg <= ndblk <= frags_per_group s ->
  exists b1 nb1 nf1 b nb2 nf2,
    add_free_frag_range s (blank_cg s cg ncyl ndblk now) 0 (cg_dlower s cg) = Ok (b1, nb1, nf1) /\
    add_free_frag_range s b1 (cg_dupper s cg) ndblk = Ok (b, nb2, nf2) /\
    wf_buf b /\ (forall j, 0 <= j -> bit_test b CG_FREE_OFF j = data_fragment cg ndblk j) /\
    nb1 + nb2 = tally whole_count s b N /\ nf1 + nf2 = tally frag_count_of s b N /\
    (forall j, 1 <= j < fpb -> read_be32 b (CG_FRSUM_OFF + j * 4) = tally (run_count j) s b N) /\
    (forall o, o < CG_FREE_OFF -> ~ (56 <= o < 84) -> ~ (CG_BTOT_OFF <= o < CG_IUSED_OFF) ->
       b o = blank_cg s cg ncyl ndblk now o).
Proof.
  intros Hcg Hn. destruct (new_cg_bounds cg Hcg) as [Hdl Hdu].
  destruct grow_sizes as (Hf & Hg & _). pose proof (block_size_pos _ Hf).
  destruct (blocks_of_bounds ndblk ltac:(lia)) as (HN & _ & _ & HM). fold N in HN, HM.
  set (b0 := blank_cg s cg ncyl ndblk now).
  destruct (blank_cg_fields cg ncyl ndblk now ltac:(lia)) as (W0 & _ & _ & Z0 & C0).
  fold b0 in W0, Z0, C0.
  destruct (add_range_ok b0 0 (cg_dlower s cg) ndblk) as (b1 & nb1 & nf1 & E1 & S1);
    [done|lia|lia|intros; apply C0; lia|].
  assert (B1 : forall j, 0 <= j -> bit_test b1 CG_FREE_OFF j = (j <? cg_dlower s cg)).
  { intros j Hj. rewrite (rs_bits _ _ _ _ _ _ _ _ _ S1 j Hj), C0 by done.
    destruct (Z.leb_spec 0 j), (Z.ltb_spec j (0 + (cg_dlower s cg - 0))),
      (Z.ltb_spec j (cg_dlower s cg)); done || lia. }
  destruct (add_range_ok b1 (cg_dupper s cg) ndblk ndblk) as (b2 & nb2 & nf2 & E2 & S2);
    [by eapply rs_wf|lia|lia|intros j Hj; rewrite B1 by lia; apply Z.ltb_ge; lia|].
  assert (T0 : forall f, (f = whole_count \/ f = frag_count_of \/ exists j, f = run_count j) ->
    tally f s b0 N = 0) by (intros; apply blank_tally; done || lia).
  pose proof (range_step_runs s true N b0 b1 _ _ _ _ Hf ltac:(lia) S1) as R1.
  pose proof (range_step_runs s true N b1 b2 _ _ _ _ Hf ltac:(lia) S2) as R2.
  pose proof (rs_whole _ _ _ _ _ _ _ _ _ S1) as P1. pose proof (rs_whole _ _ _ _ _ _ _ _ _ S2) as P2.
  pose proof (rs_frags _ _ _ _ _ _ _ _ _ S1) as Q1. pose proof (rs_frags _ _ _ _ _ _ _ _ _ S2) as Q2.
  fold N in P1, P2, Q1, Q2. rewrite T0 in P1, Q1 by auto.
  exists b1, nb1, nf1, b2, nb2, nf2. split_and!; try done; try lia.
  - by eapply rs_wf.
  - intros j Hj. rewrite (rs_bits _ _ _ _ _ _ _ _ _ S2 j Hj), B1 by done. unfold data_fragment.
    destruct (Z.leb_spec (cg_dupper s cg) j),
      (Z.ltb_spec j (cg_dupper s cg + (ndblk - cg_dupper s cg))), (Z.ltb_spec j ndblk),
      (Z.ltb_spec j (cg_dlower s cg)); done || lia.
  - apply R2, R1. intros j Hj. rewrite T0 by eauto. unfold CG_FRSUM_OFF.
    rewrite (read_be32_eq_on b0 zeros); [done|]. intros i Hi. apply Z0. unfold CG_MAGIC_OFF. lia.
  - intros o ???.
    by rewrite (rs_frame _ _ _ _ _ _ _ _ _ S2), (rs_frame _ _ _ _ _ _ _ _ _ S1) by done.
Qed.

Lemma new_cg_header_ok cg ncyl ndblk now :
  0 <= cg < 2 ^ 32 -> cg_dupper s cg <= ndblk <= frags_per_group s ->
  exists b nb nf, new_cg_header s cg ncyl ndblk now = Ok (b, nb, nf) /\
    wf_buf b /\ group_ok s b /\ clean_tail s b /\ read_be32 b CG_NDBLK_OFF = ndblk /\
    read_be32 b CG_MAGIC_OFF = CG_MAGIC /\
    read_be32 b CG_CS_NDIR_OFF = 0 /\ read_be32 b CG_CS_NBFREE_OFF = nb /\
    read_be32 b CG_CS_NIFREE_OFF = inodes_per_group s /\ read_be32 b CG_CS_NFFREE_OFF = nf /\
    (forall j, 0 <= j -> bit_test b CG_FREE_OFF j = data_fragment cg ndblk j) /\
    (forall i, 0 <= i < inodes_per_group s -> bit_test b CG_IUSED_OFF i = false).
Proof.
  intros Hcg Hn. destruct (new_cg_bounds cg Hcg) as [Hdl Hdu].
  destruct grow_sizes as (Hf & Hg & _). pose proof (block_size_pos _ Hf).
  destruct (blocks_of_bounds ndblk ltac:(lia)) as (HN & Hle & Hmap & HM).
  destruct (fresh_map cg ncyl ndblk now Hcg Hn)
    as (b1 & nb1 & nf1 & b2 & nb2 & nf2 & E1 & E2 & W2 & B2 & Pb & Pf & Hruns & Hlow2).
  destruct (blank_cg_fields cg ncyl ndblk now ltac:(lia)) as (_ & N0 & M0 & Z0 & _).
  set (N := blocks_of ndblk) in *.
  destruct (tally_bounds s b2 N 0 Hf ltac:(lia)) as (T1 & T2 & _).
  destruct (set_counters_spec b2 (nb1 + nb2) (inodes_per_group s) (nf1 + nf2) W2)
    as (W & Cb & Ci & Cf & Hout).
  set (b := set_counters b2 (nb1 + nb2) (inodes_per_group s) (nf1 + nf2)) in *.
  pose proof (geo_ipg _ G). rewrite w32_small in Cb, Ci, Cf by lia.
  assert (Hlow : forall o, o < CG_FREE_OFF -> ~ (56 <= o < 84) ->
    ~ (CG_BTOT_OFF <= o < CG_IUSED_OFF) -> ~ (28 <= o < 40) -> b o = blank_cg s cg ncyl ndblk now o).
  { intros o ????. rewrite Hout by done. by apply Hlow2. }
  unfold CG_FREE_OFF, CG_BTOT_OFF, CG_IUSED_OFF in Hlow.
  assert (Hbits : forall j, 0 <= j -> bit_test b CG_FREE_OFF j = bit_test b2 CG_FREE_OFF j).
  { intros j Hj. apply bit_test_high; [|done]. unfold CG_FREE_OFF. intros i Hi. apply Hout. lia. }
  assert (Hte : forall f, tally f s b N = tally f s b2 N) by (intros f; apply tally_ext; [done|lia]).
  assert (Hnd : read_be32 b CG_NDBLK_OFF = ndblk).
  { rewrite <- N0. apply read_be32_eq_on. unfold CG_NDBLK_OFF. intros i Hi. apply Hlow; lia. }
  assert (Hiu : forall i, 0 <= i < inodes_per_group s -> bit_test b CG_IUSED_OFF i = false).
  { intros i Hi. pose proof (iused_byte i ltac:(lia)) as Hb. unfold CG_IUSED_OFF, CG_MAGIC_OFF in Hb.
    rewrite bit_test_testbit. unfold CG_IUSED_OFF.
    rewrite Hlow, Z0 by (unfold CG_MAGIC_OFF; lia). apply Z.testbit_0_l. }
  assert (Htail : clean_tail s b).
  { intros i Hi. rewrite Hnd in Hi. rewrite Hbits, B2 by lia. unfold data_fragment.
    destruct (Z.ltb_spec i (cg_dlower s cg)), (Z.ltb_spec i ndblk); try lia. }
  exists b, (nb1 + nb2), (nf1 + nf2). unfold new_cg_header. rewrite E1, E2.
  split_and!; try done.
  - constructor; [lia| |].
    + apply (acct_of_tallies b ndblk); try done; fold N; rewrite ?Hte; try lia.
      * intros j Hj. rewrite Hte, <- Hruns by done. apply read_be32_eq_on.
        unfold CG_FRSUM_OFF. intros i Hi. apply Hout. lia.
      * intros i Hi. apply Htail. lia.
    + unfold iacct. rewrite Ci.
      rewrite (sumZ_ext _ (fun _ => 1)) by (intros i Hi; by rewrite Hiu by lia).
      symmetry. apply sumZ_ones. lia.
  - rewrite <- M0. apply read_be32_eq_on. unfold CG_MAGIC_OFF. intros i Hi. apply Hlow; lia.
  - rewrite (read_be32_eq_on b zeros); [done|]. unfold CG_CS_NDIR_OFF. intros i Hi.
    rewrite Hlow, Z0 by (unfold CG_MAGIC_OFF; lia). done.
  - intros j Hj. by rewrite Hbits, B2 by done.
Qed.
End headers.
