(* ===== verification/Resize.v ===== *)
(** * Growing a filesystem

    src/src/commands/resize.c over a raw source: the checks of [resize_grow], moving
    file data out of the way of the enlarged summary area, the disk label, the old last
    group, the new groups and the superblocks.  The computations on group headers are in
    GrowGroups.  [resize_grow] is cut where it starts over: [grow_pass] is everything up to
    its messages, and one pass either grows the filesystem or only moves data.  Every
    [Err] is exit status 1; the errno is that of the message, [EUCLEAN] if the undo log
    could not be replayed. *)
From Stdlib Require Import String.
From S2P Require Import Prelude.
From S2P Require Import Bytes.
From S2P Require Import Backend.
From S2P Require Import Superblock.
From S2P Require Import Image.
From S2P Require Import Inode.
From S2P Require Import CylGroup.
From S2P Require Import Alloc.
From S2P Require Import Dirent.
From S2P Require Import Label.
From S2P Require Import Open.
From S2P Require Import Size.
From S2P Require Import GrowGroups.

Definition UINT32_MAX : Z := 2 ^ 32 - 1.
Definition CSUM_SIZE : Z := 16.
Definition SB_SIZE_OFF : Z := 0x24.
Definition SB_DSIZE_OFF : Z := 0x28.
Definition SB_NCG_OFF : Z := 0x2c.
Definition SB_CSADDR_OFF : Z := 0x98.
Definition SB_CSSIZE_OFF : Z := 0x9c.
Definition SB_NCYL_OFF : Z := 0xb0.

Definition with_extent (img : image) (size ssize : Z) : image :=
  Image (backend_open img) (writable img) (unprivileged img) (restore_clean img)
    (fs_write_active img) (source_is_container img) (img_source_format img)
    size (slice_base img) ssize (img_label_off img)
    (label_version img) (label_secsize img) (label_front img) (label_name img)
    (img_rootpartition img) (used_disk_label img) (sb img).

(** ** Pure parts *)
Definition round_frags (s : superblock) (bytes : Z) : Z :=
  w32 (bytes + frag_size s - 1) / frag_size s.
Definition inode_direct_frags (s : superblock) (ino : inode) (slot : Z) : Z :=
  let off := slot * block_size s in
  if i_size ino <=? off then 0
  else
    let remaining := i_size ino - off in
    let bytes := if remaining <? block_size s then remaining else block_size s in
    w32 ((bytes + frag_size s - 1) / frag_size s).
Definition frag_ranges_overlap (a_start a_frags b_start b_frags : Z) : bool :=
  (a_start <? w32 (b_start + b_frags)) && (b_start <? w32 (a_start + a_frags)).

(** [ino->db[slot] = frag; ino->ctime = now] *)
Definition with_direct (ino : inode) (slot frag now : Z) : inode :=
  Inode (i_mode ino) (i_nlink ino) (i_uid ino) (i_gid ino) (i_size ino) (i_atime ino)
    (i_mtime ino) now (<[Z.to_nat slot := frag]> (i_db ino)) (i_ib ino) (i_flags ino)
    (i_blocks ino) (i_gen ino).

(** The sizes [resize_grow] derives from the requested one. *)
Record plan := Plan {
  pl_backing : Z;          (* target_backing_bytes *)
  pl_slice : Z;            (* target_slice_bytes *)
  pl_frags : Z;            (* target_frags *)
  pl_ncg : Z;
  pl_ncyl : Z;
  pl_cssize : Z;
}.

Definition slice_bytes_of (img : image) (backing : Z) : result Z :=
  if used_disk_label img
  then if backing <=? slice_base img then Err EINVAL else Ok (backing - slice_base img)
  else Ok backing.

(** The tests after the label layout has been validated. *)
Definition plan_of (img : image) (backing slice : Z) : result plan :=
  let s := sb img in
  if negb (slice mod frag_size s =? 0) then Err EINVAL
  else
    let target_frags := slice / frag_size s in
    if UINT32_MAX <? target_frags then Err EFBIG
    else
      let new_ncg := (target_frags + frags_per_group s - 1) / frags_per_group s in
      if (new_ncg <? cg_count s) || (UINT32_MAX <? new_ncg) then Err EINVAL
      else
        let new_ncyl := (target_frags * cpg s + frags_per_group s - 1) / frags_per_group s in
        if (new_ncyl =? 0) || (UINT32_MAX <? new_ncyl) then Err EINVAL
        else
          let new_cssize := (new_ncg * CSUM_SIZE + frag_size s - 1) / frag_size s * frag_size s in
          if UINT32_MAX <? new_cssize then Err EFBIG
          else if existsb (fun cg => cg_frag_count s cg target_frags <? cg_dupper s cg)
                    (seqZ (cg_count s) (new_ncg - cg_count s))
          then Err ENOSPC
          else Ok (Plan backing slice target_frags new_ncg new_ncyl new_cssize).

(** What the grown superblock adds up. *)
Record gains := Gains { g_dsize : Z; g_nbfree : Z; g_nifree : Z; g_nffree : Z }.

Definition patched_superblock (s : superblock) (old_sb : buf) (p : plan) (g : gains) (now : Z)
    : buf :=
  let b := write_be32 old_sb SB_TIME_OFF now in
  let b := write_be32 b SB_SIZE_OFF (pl_frags p) in
  let b := write_be32 b SB_DSIZE_OFF (g_dsize g) in
  let b := write_be32 b SB_NCG_OFF (pl_ncg p) in
  let b := write_be32 b SB_CSADDR_OFF (cyl_summary_addr s) in
  let b := write_be32 b SB_CSSIZE_OFF (pl_cssize p) in
  let b := write_be32 b SB_NCYL_OFF (pl_ncyl p) in
  let b := write_be32 b SB_NBFREE_OFF (free_block_count s + g_nbfree g) in
  let b := write_be32 b SB_NIFREE_OFF (free_inode_count s + g_nifree g) in
  let b := write_be32 b SB_NFFREE_OFF (free_frag_count s + g_nffree g) in
  write_be32 b SB_NDIR_OFF (dir_count s).

Section resize.
(** Why the n-th question to the host about [ftruncate] is answered with a failure. *)
Variable truncate_outcome : nat -> option errno.
Local Abbreviation M := (M (world file)).

(** ** The host file *)
Definition truncated (f : file) (size : Z) : file :=
  File (fun i => if i <? size then f_data f i else 0) size (f_script f) (f_sync f).
Definition ftruncate (size : Z) : M unit :=
  let! why := ask (fun _ => truncate_outcome) in
  match why with
  | Some e => fail e
  | None => if size <? 0 then fail EINVAL else lift (fun f => (Ok tt, truncated f size))
  end.

(** [st]: the outcome of [stat], whether the path is a regular file. *)
Definition file_size_bytes (st : result bool) : M Z :=
  let! regular := of_result st in
  if negb regular then fail EINVAL else fun w => (Ok (f_size (w_ctx w)), w).

(** [src]: the source as nextufs_init_backend leaves it. *)
Definition open_supported_image (st : result bool) (src : image) (for_writing : bool)
    : M (image * Z) :=
  let! backing_size := file_size_bytes st in
  let! img := open_with_mode src for_writing (-1) in
  if source_is_container img then fail ENOTSUP else ret (img, backing_size).

Definition validate_labeled_grow_layout (img : image) : M unit :=
  if negb (used_disk_label img) then ret tt
  else lift (label_validate_single_slice_fd (slice_base img)).

Definition patch_label_partition_size (img : image) (slice_bytes : Z) : M unit :=
  if negb (used_disk_label img) then ret tt
  else lift (label_patch_slice_size_fd (slice_base img) slice_bytes) ;;; ret tt.

(** ** Writing *)
Definition write_zeroes (img : image) (offset size : Z) : M unit :=
  for_each (seqZ 0 ((size + 8191) / 8192)) (fun k =>
    let at_ := k * 8192 in
    image_pwrite img zeros (Z.min 8192 (size - at_)) (offset + at_)).

Definition csum_entry (ndir nbfree nifree nffree : Z) : buf :=
  write_be32 (write_be32 (write_be32 (write_be32 zeros 0 ndir) 4 nbfree) 8 nifree) 12 nffree.
Definition write_csum_entry_at (img : image) (csum_addr cg ndir nbfree nifree nffree : Z)
    : M unit :=
  image_pwrite img (csum_entry ndir nbfree nifree nffree) CSUM_SIZE
    (csum_addr * frag_size (sb img) + cg * CSUM_SIZE).
Definition write_csum_entry (img : image) (cg ndir nbfree nifree nffree : Z) : M unit :=
  write_csum_entry_at img (cyl_summary_addr (sb img)) cg ndir nbfree nifree nffree.
Definition csum_of_header (img : image) (cg : Z) (b : buf) : M unit :=
  write_csum_entry img cg (read_be32 b CG_CS_NDIR_OFF) (read_be32 b CG_CS_NBFREE_OFF)
    (read_be32 b CG_CS_NIFREE_OFF) (read_be32 b CG_CS_NFFREE_OFF).

Definition cg_byte_offset (s : superblock) (cg : Z) : Z := s64 (w64 (cgtod s cg * frag_size s)).

Definition reserve_summary_extension (img : image) (new_cssize : Z) : M (Z * Z) :=
  let s := sb img in
  if new_cssize <=? csum_size s then ret (0, 0)
  else
    let pos := w32 (cyl_summary_addr s + round_frags s (csum_size s)) in
    let end_ := w32 (cyl_summary_addr s + round_frags s new_cssize) in
    if frags_per_group s <? end_ then fail ENOTSUP
    else
      malloc (cg_size s) ;;;
      let! b := image_pread img (cg_size s) (cg_byte_offset s 0) in
      let! '(b, d_nbfree, d_nffree) := of_result (reserve_blocks s b pos end_) in
      let! now := time_now in
      let b := close_counters b d_nbfree d_nffree now in
      image_pwrite img b (cg_size s) (cg_byte_offset s 0) ;;;
      csum_of_header img 0 b ;;;
      ret (d_nbfree, d_nffree).

(** ** Moving data out of the way *)

(** The inode afterwards, and whether the run was moved. *)
Definition move_direct_fragment_run (img : image) (inode_no : Z) (ino : inode)
    (slot frags protect_start protect_frags : Z) : M (inode * bool) :=
  let s := sb img in
  let old_frag := nth (Z.to_nat slot) (i_db ino) 0 in
  if (frags =? 0) || (old_frag =? 0) ||
     negb (frag_ranges_overlap old_frag frags protect_start protect_frags)
  then ret (ino, false)
  else
    let bytes := frags * frag_size s in
    malloc bytes ;;;
    let! buf := image_pread img bytes (old_frag * frag_size s) in
    let preferred_cg := old_frag / frags_per_group s in
    let preferred_cg := if 1 <? cg_count s then w32 (preferred_cg + 1) mod cg_count s
                        else preferred_cg in
    let! new_frag := allocate_frags_anycg img preferred_cg frags in
    if frag_ranges_overlap new_frag frags protect_start protect_frags
    then attempt (free_fragment_run img new_frag frags) ;;; fail ENOSPC
    else
      let! rc := attempt (image_pwrite img buf bytes (new_frag * frag_size s)) in
      match rc with
      | Err e => attempt (free_fragment_run img new_frag frags) ;;; fail e
      | Ok _ =>
          let! now := time_now in
          let ino := with_direct ino slot new_frag now in
          write_inode_raw img inode_no ino ;;;
          free_fragment_run img old_frag frags ;;;
          ret (ino, true)
      end.

Definition evacuate_inode (img : image) (protect_start protect_frags inode_no moves : Z) : M Z :=
  let s := sb img in
  let! '(ino, _) := inode_read img inode_no in
  if (i_mode ino =? 0) || (i_nlink ino =? 0) then ret moves
  else if existsb (fun ib => negb (ib =? 0) &&
                     frag_ranges_overlap ib (frags_per_block s) protect_start protect_frags)
            (i_ib ino)
  then fail ENOTSUP
  else
    let! '(_, moves) := fold_each (seqZ 0 12) (fun slot st =>
      let '(ino, moves) := st in
      let! '(ino, moved) := move_direct_fragment_run img inode_no ino slot
        (inode_direct_frags s ino slot) protect_start protect_frags in
      ret (ino, if (moved : bool) then moves + 1 else moves)) (ino, moves) in
    ret moves.

(** The number of runs moved. *)
Definition evacuate_summary_extension_range (img : image) (new_cssize : Z) : M Z :=
  let s := sb img in
  if new_cssize <=? csum_size s then ret 0
  else
    let old_summary_frags := round_frags s (csum_size s) in
    let new_summary_frags := round_frags s new_cssize in
    let protect_start := w32 (cyl_summary_addr s + old_summary_frags) in
    let protect_frags := w32 (new_summary_frags - old_summary_frags) in
    if frags_per_group s <? w32 (protect_start + protect_frags) then fail ENOTSUP
    else
      fold_each (seqZ 0 (w32 (cg_count s * inodes_per_group s)))
        (evacuate_inode img protect_start protect_frags) 0.

(** ** Groups *)
(** The changes of the totals and the data fragments gained. *)
Definition expand_old_last_cg (img : image) (cg old_frags target_frags ncyl : Z) : M gains :=
  let s := sb img in
  let cbase := frags_per_group s * cg in
  if (old_frags <=? cbase) || (cbase + frags_per_group s <? old_frags) ||
     (target_frags <? old_frags)
  then fail EINVAL
  else
    let start := w32 (old_frags - cbase) in
    let end_ := cg_frag_count s cg target_frags in
    malloc (cg_size s) ;;;
    let! b := image_pread img (cg_size s) (cg_byte_offset s cg) in
    let! '(b, nbfree, nffree) := of_result (add_free_frag_range s b start end_) in
    let! now := time_now in
    let b := resized_header b end_ ncyl nbfree nffree now in
    image_pwrite img b (cg_size s) (cg_byte_offset s cg) ;;;
    csum_of_header img cg b ;;;
    ret (Gains (w32 (end_ - start)) nbfree 0 nffree).

(** The header, its free blocks and its free fragments. *)
Definition build_new_cg (img : image) (cg ncyl ndblk : Z) : M (buf * Z * Z) :=
  let s := sb img in
  if (frags_per_group s <? ndblk) || (ndblk <? cg_dupper s cg) then fail ENOSPC
  else
    let! now := time_now in
    of_result (new_cg_header s cg ncyl ndblk now).

Definition add_gains (g h : gains) : gains :=
  Gains (w32 (g_dsize g + g_dsize h)) (g_nbfree g + g_nbfree h) (g_nifree g + g_nifree h)
    (g_nffree g + g_nffree h).

(** One round of the loop over the new groups. *)
Definition write_new_cg (img : image) (p : plan) (cg : Z) (g : gains) : M gains :=
  let s := sb img in
  let cg_ndblk := cg_frag_count s cg (pl_frags p) in
  let cg_ncyl := cg_cylinder_count s cg (pl_ncg p) (pl_ncyl p) in
  let! '(b, cg_nbfree, cg_nffree) := build_new_cg img cg cg_ncyl cg_ndblk in
  write_zeroes img (s64 (w64 (cgimin s cg * frag_size s))) (inodes_per_group s * 128) ;;;
  image_pwrite img b (cg_size s) (cg_byte_offset s cg) ;;;
  write_csum_entry img cg 0 cg_nbfree (inodes_per_group s) cg_nffree ;;;
  ret (add_gains g (Gains (cg_dlower s cg + (cg_ndblk - cg_dupper s cg)) cg_nbfree
                      (inodes_per_group s) cg_nffree)).

Definition patch_and_write_superblocks (img : image) (old_sb : buf) (p : plan) (g : gains) : M unit :=
  let s := sb img in
  malloc (super_size s) ;;;
  let! now := time_now in
  let b := patched_superblock s old_sb p g now in
  image_pwrite img b (super_size s) UFS_SBLOCK_OFFSET ;;;
  for_each (seqZ 0 (pl_ncg p)) (fun cg =>
    image_pwrite img b (super_size s) (s64 (w64 (cgsblock s cg * frag_size s)))).

(** ** One pass *)
Inductive pass :=
  | Grown
  | Evacuated (img : image) (moves : Z).   (* still to be committed *)

(** [nextufs_image_close(img); return 1]. *)
Definition abandon {A} (img : image) (e : errno) : M A :=
  let! rc := cancel_transaction img in
  match rc with Err EUCLEAN => fail EUCLEAN | _ => fail e end.
Definition or_abandon {A} (img : image) (m : M A) : M A :=
  let! rc := attempt m in
  match rc with Ok a => ret a | Err e => abandon img e end.

(** From the label to the clean mark: what [goto fail] undoes. *)
Definition grow_label (img : image) (p : plan) : M unit :=
  (if used_disk_label img then transaction_record img (w64 (slice_base img)) 0 else ret tt) ;;;
  patch_label_partition_size img (pl_slice p).
Definition grow_groups (img : image) (p : plan) (old_sb : buf) : M unit :=
  let s := sb img in
  let old_last_cg := w32 (cg_count s - 1) in
  let! g := expand_old_last_cg img old_last_cg (frag_count s) (pl_frags p)
              (cg_cylinder_count s old_last_cg (pl_ncg p) (pl_ncyl p)) in
  let g := add_gains (Gains (data_frag_count s) 0 0 0) g in
  let! g :=
    if csum_size s <? pl_cssize p then
      let! '(reserve_nbfree, reserve_nffree) := reserve_summary_extension img (pl_cssize p) in
      write_zeroes img (cyl_summary_addr s * frag_size s + csum_size s) (pl_cssize p - csum_size s) ;;;
      ret (add_gains g (Gains (round_frags s (csum_size s) - round_frags s (pl_cssize p))
                          reserve_nbfree 0 reserve_nffree))
    else ret g in
  let! g := fold_each (seqZ (cg_count s) (pl_ncg p - cg_count s)) (write_new_cg img p) g in
  patch_and_write_superblocks img old_sb p g ;;;
  image_fsync img.
(** The clean mark is written with the transaction put aside. *)
Definition finish_aside (img : image) : M unit :=
  let! t := get_tx in
  put_tx None ;;;
  let! rc := attempt (write_finish img true) in
  put_tx t ;;;
  match rc with Ok _ => ret tt | Err e => fail e end.
Definition grow_body (img : image) (p : plan) (old_sb : buf) : M unit :=
  grow_label img p ;;; grow_groups img p old_sb ;;; finish_aside img.

(** The label [fail:]. *)
Definition grow_failed (img : image) (backing_size : Z) (e : errno) : M unit :=
  let! rc := attempt (transaction_end (Err e)) in
  let unclean := match rc with Err EUCLEAN => true | _ => false end in
  let! unclean :=
    if unclean then ret true
    else let! r := attempt (ftruncate backing_size) in ret (negb (is_ok r)) in
  let! r := attempt (image_fsync img) in
  let unclean := unclean || negb (is_ok r) in
  attempt (write_finish img (negb unclean)) ;;;
  fail (if unclean then EUCLEAN else e).

(** Everything after the checks: the image is marked and the transaction is open. *)
Definition grow_opened (img : image) (backing_size : Z) (p : plan) : M pass :=
  let s := sb img in
  let! moves :=
    if csum_size s <? pl_cssize p
    then or_abandon img (
           let! moves := evacuate_summary_extension_range img (pl_cssize p) in
           (if moves =? 0 then ret tt else image_fsync img) ;;; ret moves)
    else ret 0 in
  if negb (moves =? 0) then ret (Evacuated img moves)
  else if (csum_size s <? pl_cssize p) &&
          (frags_per_group s <? w32 (cyl_summary_addr s + pl_cssize p / frag_size s))
  then abandon img ENOTSUP
  else
    let! old_sb := or_abandon img (
      let! a := attempt (malloc (super_size s)) in
      let! b := attempt (malloc (cg_size s)) in
      fail_if (negb (is_ok a) || negb (is_ok b)) ENOMEM ;;;
      let! old_sb := image_pread img (super_size s) UFS_SBLOCK_OFFSET in
      ftruncate (s64 (pl_backing p)) ;;;
      ret old_sb) in
    let img := with_extent img (s64 (pl_backing p)) (s64 (pl_slice p)) in
    let! rc := attempt (grow_body img p old_sb) in
    match rc with
    | Ok _ =>
        attempt (transaction_end (Ok tt)) ;;;
        ret Grown
    | Err e => grow_failed img backing_size e ;;; ret Grown
    end.

Definition check_size (target_backing_bytes : Z) (force : bool) : M unit :=
  if negb (target_backing_bytes mod NEXTUFS_KIB_BYTES =? 0) then fail EINVAL
  else if negb force && (NEXTUFS_COMPAT_MAX_BYTES <? target_backing_bytes) then fail EFBIG
  else ret tt.

(** Everything before the first write. *)
Definition grow_checks (st : result bool) (src : image) (target_backing_bytes : Z)
    : M (image * Z * plan) :=
  let! '(img, backing_size) := open_supported_image st src true in
  let! target_slice_bytes := of_result (slice_bytes_of img target_backing_bytes) in
  fail_if (target_slice_bytes <=? slice_size img) EINVAL ;;;
  validate_labeled_grow_layout img ;;;
  let! p := of_result (plan_of img target_backing_bytes target_slice_bytes) in
  ret (img, backing_size, p).
Definition grow_pass (st : result bool) (src : image) (target_backing_bytes : Z) : M pass :=
  let! '(img, backing_size, p) := grow_checks st src target_backing_bytes in
  let! img := write_begin img in
  transaction_begin ;;;
  grow_opened img backing_size p.

(** [fuel]: how often the grow may start over. *)
Fixpoint resize_grow (fuel : nat) (st : result bool) (src : image) (sectors_arg : name)
    (force : bool) : M unit :=
  match fuel with
  | O => fail EIO
  | S fuel =>
      match parse_size_bytes sectors_arg BARE_SIZE_1K_SECTORS with
      | None => fail EINVAL
      | Some target_backing_bytes =>
          check_size target_backing_bytes force ;;;
          let! r := grow_pass st src target_backing_bytes in
          match r with
          | Grown => ret tt
          | Evacuated img _ =>
              attempt (transaction_end (Ok tt)) ;;;
              write_finish img true ;;;
              resize_grow fuel st src sectors_arg force
          end
      end
  end.

(** ** The command line *)
Definition asks_help (arg : name) : bool := bool_decide (arg = str "-h"%string \/ arg = str "--help"%string).

(** Printing the usage with an exit status, or a grow. *)
Inductive resize_request :=
  | Usage (status : Z)
  | Grow (image_path sectors_arg : name) (force : bool).
(** [args]: [argv] after the command's name. *)
Definition resize_arguments (args : list name) : resize_request :=
  match args with
  | [] => Usage 2
  | command :: rest =>
      if asks_help command && bool_decide (rest = []) then Usage 0
      else if bool_decide (command = str "grow"%string) then
        match rest with
        | [arg] => if asks_help arg then Usage 0 else Usage 2
        | _ =>
            let force := match rest with arg :: _ => bool_decide (arg = str "--force-size"%string) | [] => false end in
            match (if (force : bool) then tl rest else rest) with
            | [image_path; sectors_arg] => Grow image_path sectors_arg force
            | _ => Usage 2
            end
        end
      else Usage 2
  end.
(** [host]: what [stat] and nextufs_init_backend make of a path. *)
Definition nextufs_resize_main (fuel : nat) (host : name -> result bool * image)
    (args : list name) : M Z :=
  match resize_arguments args with
  | Usage status => ret status
  | Grow path sectors_arg force =>
      let '(st, src) := host path in
      let! rc := attempt (resize_grow fuel st src sectors_arg force) in
      ret (if is_ok rc then 0 else 1)
  end.
End resize.
