(* ===== verification/GrowSafe.v ===== *)
(** * A grow that fails changes nothing

    Every step of a grow between its transaction's begin and end is either logged, or
    harmless, or -- the disk label -- shielded by a record taken beforehand; the proofs
    follow the rollback point through [grow_opened] and the path behind [goto fail]. *)
From S2P Require Import Prelude.
From S2P Require Import Bytes.
From S2P Require Import Backend.
From S2P Require Import Superblock.
From S2P Require Import Image.
From S2P Require Import Inode.
From S2P Require Import CylGroup.
From S2P Require Import Alloc.
From S2P Require Import Dirent.
From S2P Require Import Label.
From S2P Require Import Open.
From S2P Require Import Directory.
From S2P Require Import Transact.
From S2P Require Import GrowGroups.
From S2P Require Import Resize.

(** ** Preorders that the image accessors respect *)
Class ImageStep {C} `{Backend C} (img : image) (R : world C -> world C -> Prop) := {
  is_preorder :: PreOrder R;
  is_ask {A} (f : env -> nat -> A) : Stable R (ask f);
  is_read n off : Stable R (read_exact img n off);
  is_write b n off : Stable R (write_exact img b n off);
  is_fsync : Stable R (lift bk_fsync);
}.
#[export] Hint Resolve is_ask is_read is_write is_fsync : stable.

Section generic.
Context {C : Type} `{HB : Backend C} (img : image) (R : world C -> world C -> Prop).
Context `{HI : !ImageStep img R}.

Lemma malloc_step n : Stable R (malloc n).
Proof. unfold malloc. solve_stable. Qed.
Lemma time_step : Stable R time_now.
Proof. unfold time_now. solve_stable. Qed.
Local Hint Resolve malloc_step time_step : stable.
Lemma image_fsync_step : Stable R (image_fsync img).
Proof. unfold image_fsync. solve_stable. Qed.
Lemma pread_step n off : Stable R (image_pread img n off).
Proof. unfold image_pread. solve_stable. Qed.
Lemma pwrite_step b n off : Stable R (image_pwrite img b n off).
Proof. unfold image_pwrite. solve_stable. Qed.
Lemma inode_read_step n : Stable R (inode_read img n).
Proof. unfold inode_read. solve_stable. Qed.
Lemma write_inode_step n i : Stable R (write_inode_raw img n i).
Proof. unfold write_inode_raw. solve_stable. Qed.
Lemma read_group_step cg : Stable R (read_group img cg).
Proof. unfold read_group. solve_stable. Qed.
Lemma write_group_step cg b : Stable R (write_group img cg b).
Proof. unfold write_group. solve_stable. Qed.
Lemma update_summary_step cg a b c d : Stable R (update_summary_counts img cg a b c d).
Proof. unfold update_summary_counts. solve_stable. Qed.
Local Hint Resolve image_fsync_step pread_step pwrite_step inode_read_step write_inode_step
  read_group_step write_group_step update_summary_step : stable.
Lemma reserve_available_step n : Stable R (reserve_available img n).
Proof. unfold reserve_available. solve_stable. Qed.
Lemma allocate_frags_step cg n : Stable R (allocate_frags_anycg img cg n).
Proof.
  apply stable_bind; [apply _|apply reserve_available_step|]. intros _.
  apply stable_try_groups; [apply _|]. intros cg'. unfold allocate_frags_in_group. solve_stable.
Qed.
Lemma free_fragment_run_step f n : Stable R (free_fragment_run img f n).
Proof. unfold free_fragment_run. solve_stable. Qed.
Local Hint Resolve allocate_frags_step free_fragment_run_step : stable.
End generic.
#[export] Hint Resolve malloc_step time_step image_fsync_step pread_step pwrite_step
  inode_read_step write_inode_step allocate_frags_step free_fragment_run_step : stable.

Section file_steps.
Context (img : image) (R : world file -> world file -> Prop).
Context `{HI : !ImageStep img R}.

Lemma write_zeroes_step off n : Stable R (write_zeroes img off n).
Proof. unfold write_zeroes. solve_stable. Qed.
Lemma csum_entry_step cg a b c d : Stable R (write_csum_entry img cg a b c d).
Proof. unfold write_csum_entry, write_csum_entry_at. solve_stable. Qed.
Lemma csum_of_header_step cg b : Stable R (csum_of_header img cg b).
Proof. apply csum_entry_step. Qed.
Local Hint Resolve write_zeroes_step csum_entry_step csum_of_header_step : stable.
Lemma reserve_step n : Stable R (reserve_summary_extension img n).
Proof. unfold reserve_summary_extension. solve_stable. Qed.
Lemma move_step n i s k a b : Stable R (move_direct_fragment_run img n i s k a b).
Proof. unfold move_direct_fragment_run. solve_stable. Qed.
Local Hint Resolve reserve_step move_step : stable.
Lemma evacuate_step n : Stable R (evacuate_summary_extension_range img n).
Proof. unfold evacuate_summary_extension_range, evacuate_inode. solve_stable. Qed.
Lemma expand_step cg a b n : Stable R (expand_old_last_cg img cg a b n).
Proof. unfold expand_old_last_cg. solve_stable. Qed.
Lemma new_cg_step p cg g : Stable R (write_new_cg img p cg g).
Proof. unfold write_new_cg, build_new_cg. solve_stable. Qed.
Lemma superblocks_step b p g : Stable R (patch_and_write_superblocks img b p g).
Proof. unfold patch_and_write_superblocks. solve_stable. Qed.
End file_steps.
#[export] Hint Resolve write_zeroes_step csum_entry_step csum_of_header_step reserve_step
  evacuate_step expand_step new_cg_step superblocks_step : stable.

#[export] Instance carries_image_step {C} `{HB : Backend C, HS : !BackendSpec C} img
    (Himg : image_ok img) : ImageStep img (carries (C:=C)).
Proof.
  split; [apply _| | | |]; intros; first [by eauto with stable | by apply quiet_carries; eauto with stable
    | by apply write_exact_carries].
Qed.

(** ** The host file does not grow behind the image *)
Definition bounded (n : Z) (w w' : world file) : Prop :=
  f_size (w_ctx w) <= n -> f_size (w_ctx w') <= n.
#[export] Instance bounded_preorder n : PreOrder (bounded n).
Proof. split; [by intros ??|]. intros ??? H1 H2 ?. by apply H2, H1. Qed.

Lemma same_file_bounded {A} (m : M (world file) A) n :
  (forall w r w', m w = (r, w') -> w_ctx w' = w_ctx w) -> Stable (bounded n) m.
Proof. intros H w r w' Hm Hn. by rewrite (H _ _ _ Hm). Qed.

#[export] Instance bounded_image_step img n (Hn : image_size img <= n) :
  ImageStep img (bounded n).
Proof.
  assert (Hask : forall A (f : env -> nat -> A), Stable (bounded n) (ask f)).
  { intros. apply same_file_bounded. by intros w r w' [= _ <-]. }
  assert (Hread : forall k off, Stable (bounded n) (read_exact img k off)).
  { intros k off w r w' Hr Hle. unfold read_exact in Hr.
    destruct (negb _); [by injection Hr as _ <-|]. destruct (_ || _); [by injection Hr as _ <-|].
    unfold lift in Hr. destruct (bk_read _ _ _) as [r1 f1] eqn:E. injection Hr as _ <-. cbn.
    change (read_exact_fd (w64 k) off (w_ctx w) = (r1, f1)) in E.
    apply read_exact_fd_spec in E as (_ & -> & _). done. }
  assert (Hlog : forall (b : buf) k, Stable (bounded n) (log_append b k)).
  { intros b k. apply same_file_bounded. unfold log_append, bind, ask, get_tx, put_tx, ret.
    intros w r w' Hr. cbn in Hr. destruct (w_tx w); by injection Hr as _ <-. }
  assert (Hget : Stable (bounded n) get_tx) by (apply same_file_bounded; by intros w r w' [= _ <-]).
  assert (Hput : forall t, Stable (bounded n) (put_tx t))
    by (intros; apply same_file_bounded; by intros w r w' [= _ <-]).
  split; [apply _|done|done| |].
  - intros b k off w r w' Hr. unfold write_exact in Hr.
    destruct (negb _); [by injection Hr as _ <-|]. destruct (negb _); [by injection Hr as _ <-|].
    destruct (_ || _) eqn:E; [by injection Hr as _ <-|]. bool_to_prop.
    assert (Hrec : Stable (bounded n) (transaction_record img (w64 k) off)).
    { unfold transaction_record, malloc. solve_stable. }
    apply bind_inv in Hr as [(u & w1 & Hlogged & Hr)|(e & Hlogged & _)];
      apply Hrec in Hlogged; [|done].
    intros Hle. specialize (Hlogged Hle). unfold lift in Hr.
    destruct (bk_write _ _ _ _) as [r1 f1] eqn:Ew. injection Hr as _ <-. cbn.
    change (write_exact_fd b (w64 k) off (w_ctx w1) = (r1, f1)) in Ew.
    apply write_exact_fd_bound in Ew. lia.
  - intros w r w' Hr. unfold lift in Hr. destruct (bk_fsync _) as [r1 f1] eqn:E.
    injection Hr as _ <-. apply fsync_frame in E as [_ E]. unfold bounded. cbn. by rewrite E.
Qed.

(** ** The disk label under its shield *)
Definition inside (n : Z) (f f' : file) : Prop :=
  file_inv f -> file_inv f' /\ forall i, ~ (0 <= i < n) -> f_data f' i = f_data f i.
#[export] Instance inside_preorder n : PreOrder (inside n).
Proof.
  split; [by intros f Hf|]. intros f1 f2 f3 H1 H2 Hf. destruct (H1 Hf) as [Hf2 E1].
  destruct (H2 Hf2) as [Hf3 E2]. split; [done|]. intros i Hi. by rewrite E2, E1.
Qed.
Lemma read_fd_inside n size off : Stable (inside n) (read_exact_fd size off).
Proof.
  intros f r f' Hr Hf. apply read_exact_fd_spec in Hr as (Hd & Hs & _). unfold file_inv.
  by rewrite Hd, Hs.
Qed.
Lemma write_fd_inside n b size off :
  0 <= off -> off + size <= n -> Stable (inside n) (write_exact_fd b size off).
Proof.
  intros Ho Hn f r f' Hr Hf. apply write_exact_fd_spec in Hr as (Hf' & _ & Hout & _); [|done|done].
  split; [done|]. intros i Hi. apply Hout. lia.
Qed.
Lemma scan_offset_range size limit off : 0 <= size <= limit ->
  off ∈ scan_offsets size limit -> 0 <= off /\ off + size <= limit.
Proof.
  intros Hs. unfold scan_offsets. intros (k & -> & Hk)%list_elem_of_fmap.
  destruct (Z.ltb_spec limit size); [lia|]. apply elem_of_seqZ in Hk.
  pose proof (Z.mul_div_le (limit - size) DEV_SECTOR_SIZE ltac:(done)).
  unfold DEV_SECTOR_SIZE in *. lia.
Qed.
Lemma label_patch_inside base bytes :
  Stable (inside LABEL_SCAN_LIMIT) (label_patch_slice_size_fd base bytes).
Proof.
  unfold label_patch_slice_size_fd. apply stable_bind; [apply _| |].
  - apply stable_fold_each_in; [apply _|]. intros off k Hoff.
    apply scan_offset_range in Hoff; [|done]. unfold count_hits, patch_one_label_partition_size.
    repeat first [apply read_fd_inside | apply write_fd_inside; lia | stable_step].
  - intros k. solve_stable.
Qed.

Lemma patch_label_tx img bytes w r w' :
  patch_label_partition_size img bytes w = (r, w') ->
  w_tx w' = w_tx w /\ w_env w' = w_env w /\ inside LABEL_SCAN_LIMIT (w_ctx w) (w_ctx w') /\
  (used_disk_label img = false -> w' = w).
Proof.
  unfold patch_label_partition_size. destruct (used_disk_label img); cbn [negb].
  2: { intros [= _ <-]. by split_and!. }
  unfold bind, lift. destruct (label_patch_slice_size_fd _ _ _) as [r1 f1] eqn:E.
  apply label_patch_inside in E.
  destruct r1; intros [= _ <-]; by split_and!.
Qed.

(** Recording the label region, then changing the label: still undone. *)
Lemma label_shielded img p d0 w r w' :
  image_ok img -> 0 <= image_size img -> (used_disk_label img = true ->
    LABEL_SCAN_LIMIT <= slice_base img <= image_size img) ->
  undoable d0 w ->
  grow_label img p w = (r, w') -> undoable d0 w'.
Proof.
  intros Hok Hsz Hlab Hu Hr. unfold grow_label in Hr.
  destruct (used_disk_label img) eqn:El.
  2: { rewrite (bind_run (ret tt) _ w tt w) in Hr by done.
       apply patch_label_tx in Hr as (_ & _ & _ & Hw). by rewrite Hw. }
  specialize (Hlab eq_refl). unfold image_ok in Hok. unfold LABEL_SCAN_LIMIT in Hlab.
  rewrite w64_small in Hr by lia.
  apply bind_inv in Hr as [([] & w1 & Hrec & Hr)|(e & Hrec & _)];
    (edestruct (transaction_record_spec img (slice_base img) 0 w) as [Hu1 Hs];
     [done|lia|lia|lia|exact Hu|exact Hrec|]); [|done].
  specialize (Hs eq_refl). apply patch_label_tx in Hr as (Ht2 & He2 & Hin & _).
  destruct (Hin (proj1 Hs)) as [Hinv2 Hout].
  eapply restorable_step; [exact Hs| |done|done|by rewrite He2].
  intros rs HP. apply HP. intros i Hi. apply Hout. unfold LABEL_SCAN_LIMIT. lia.
Qed.

(** ** The transaction of a grow *)
Lemma grow_groups_carries img p b : image_ok img -> Stable carries (grow_groups img p b).
Proof.
  intros Hok. pose proof (carries_image_step img Hok) as Hi. unfold grow_groups. solve_stable.
Qed.

Lemma finish_aside_spec img o d0 w r w' :
  o = Some (state_off img) -> undoable d0 w -> finish_aside img w = (r, w') ->
  undoable_but o d0 w'.
Proof.
  intros Ho Hu Hr. unfold finish_aside in Hr.
  unfold bind at 1 2, get_tx, put_tx in Hr.
  destruct (write_finish img true (World (w_ctx w) None (w_env w))) as [rf w2] eqn:Hf.
  pose proof (write_finish_unlogged img true o Ho _ _ _ Hf) as Hul.
  pose proof (undoable_aside o d0 (w_tx w) w w2 (undoable_weaken _ _ _ Hu) eq_refl Hul) as Hd.
  unfold bind, attempt in Hr. rewrite Hf in Hr. unfold put_tx in Hr.
  destruct rf; by injection Hr as _ <-.
Qed.

Lemma grow_body_spec img p b d0 w r w' :
  image_ok img -> (used_disk_label img = true -> LABEL_SCAN_LIMIT <= slice_base img <= image_size img) ->
  undoable d0 w -> grow_body img p b w = (r, w') ->
  undoable_but (Some (state_off img)) d0 w'.
Proof.
  intros Hok Hlab Hu Hr. unfold grow_body in Hr.
  apply bind_inv in Hr as [(u & w1 & H1 & Hr)|(e & H1 & _)];
    apply (label_shielded _ _ d0) in H1; try done; try apply Hok; [|by apply undoable_weaken].
  apply bind_inv in Hr as [(u' & w2 & H2 & Hr)|(e & H2 & _)];
    apply (grow_groups_carries img p b Hok) in H2; specialize (H2 d0 H1);
    [|by apply undoable_weaken].
  by eapply finish_aside_spec.
Qed.

(** ** Failing *)
Section fails.
Variable (to : nat -> option errno).

Lemma truncated_inv f n : file_inv f -> 0 <= n -> file_inv (truncated f n).
Proof.
  intros (Hs & Hw & Hz) Hn. split_and!; cbn; [done| |].
  - intros i. case_match; [apply Hw|lia].
  - intros i Hi. destruct (Z.ltb_spec i n); [apply Hz; lia|done].
Qed.
Lemma ftruncate_spec n w r w' :
  ftruncate to n w = (r, w') ->
  w_tx w' = w_tx w /\ env_same (w_env w) (w_env w') /\
  match r with
  | Ok _ => 0 <= n /\ w_ctx w' = truncated (w_ctx w) n
  | Err _ => w_ctx w' = w_ctx w
  end.
Proof.
  unfold ftruncate, bind, ask. destruct (to _) as [e|]; [by intros [= <- <-]; split_and!|].
  destruct (Z.ltb_spec n 0); [by intros [= <- <-]; split_and!|].
  intros [= <- <-]. by split_and!.
Qed.

(** Lengthening the file changes no byte of it. *)
Lemma ftruncate_carries n d0 w r w' :
  f_size (w_ctx w) <= n -> ftruncate to n w = (r, w') -> undoable d0 w -> undoable d0 w'.
Proof.
  intros Hn Hr Hu. pose proof Hu as (Hinv & _). apply ftruncate_spec in Hr as (Ht & He & Hc).
  eapply quiet_undoable, Hu.
  destruct r as [u|e]; [destruct Hc as [H0 Hc]|]; constructor; rewrite ?Hc; try done.
  - intros _. by apply truncated_inv.
  - intros _ i. unfold view. rewrite Hc. cbn. destruct (Z.ltb_spec i n); [done|].
    destruct Hinv as (_ & _ & Hz). symmetry. apply Hz. lia.
  - intros _. unfold view. by rewrite Hc.
Qed.

(** What a failed grow leaves: [o] is where the clean mark is. *)
Definition failed_clean (o : option Z) (d0 : buf) (e : errno) (w : world file) : Prop :=
  bk_inv (w_ctx w) /\ w_tx w = None /\ (e = EUCLEAN \/ same_but o d0 (view w)).

Lemma abandon_spec {A} img e0 o d0 w r w' :
  o = Some (state_off img) -> undoable_but o d0 w -> abandon (A:=A) img e0 w = (r, w') ->
  exists e, r = Err e /\ failed_clean o d0 e w'.
Proof.
  intros Ho Hu Hr. pose proof Hu as (_ & _ & t & Ht & _).
  unfold abandon, cancel_transaction in Hr. unfold bind at 1 2, get_tx in Hr. rewrite Ht in Hr.
  unfold bind at 1 in Hr. destruct (transaction_end (Err ECANCELED) w) as [rc w1] eqn:E1.
  apply (transaction_end_but o _ d0) in E1 as E; [|done]. destruct E as (Hi1 & Ht1 & _ & Hend).
  unfold attempt at 1 in Hr. rewrite E1 in Hr. unfold bind, attempt, ret in Hr.
  destruct (write_finish img _ w1) as [rf w2] eqn:E2.
  pose proof (write_finish_unlogged img _ o Ho _ _ _ E2) as [Ui Uv Ut _].
  specialize (Ui Hi1). specialize (Uv Hi1 Ht1). specialize (Ut Ht1).
  destruct Hend as [[-> Hv]| ->]; injection Hr as <- <-; eexists; (split; [done|]);
    (split_and!; [done|done|]); [right|by left]. by etrans.
Qed.

Lemma or_abandon_spec {A} img (m : M (world file) A) o d0 w r w' :
  o = Some (state_off img) -> (forall x w1, m w = (x, w1) -> undoable d0 w1) ->
  or_abandon img m w = (r, w') ->
  match r with Ok a => m w = (Ok a, w') | Err e => failed_clean o d0 e w' end.
Proof.
  intros Ho Hm Hr. unfold or_abandon, bind, attempt in Hr.
  destruct (m w) as [[a|e] w1] eqn:E.
  - by injection Hr as <- <-.
  - apply (abandon_spec img e o d0) in Hr as (e' & -> & H); [done|done|].
    eapply undoable_weaken, Hm. reflexivity.
Qed.

Lemma grow_failed_spec img n e0 o d0 w r w' :
  o = Some (state_off img) -> undoable_but o d0 w -> (forall i, n <= i -> d0 i = 0) ->
  grow_failed to img n e0 w = (r, w') -> exists e, r = Err e /\ failed_clean o d0 e w'.
Proof.
  intros Ho Hu Hz Hr. unfold grow_failed in Hr. unfold bind at 1, attempt at 1 in Hr.
  destruct (transaction_end (Err e0) w) as [rc w1] eqn:E1.
  apply (transaction_end_but o _ d0) in E1 as (Hi1 & Ht1 & _ & Hend); [|done].
  set (unclean1 := match rc with Err EUCLEAN => true | _ => false end) in Hr.
  assert (Hcut : exists unclean2 w2,
    (if unclean1 then ret true
     else let! r := attempt (ftruncate to n) in ret (negb (is_ok r))) w1 = (Ok unclean2, w2) /\
    bk_inv (w_ctx w2) /\ w_tx w2 = None /\ (unclean2 = true \/ (rc = Err e0 /\ same_but o d0 (view w2)))).
  { destruct unclean1 eqn:Eu; [exists true, w1; by split_and!; try left|].
    unfold bind, attempt, ret. destruct (ftruncate to n w1) as [rt w2] eqn:Et.
    exists (negb (is_ok rt)), w2. split; [done|].
    apply ftruncate_spec in Et as (Ht2 & _ & Hc).
    destruct Hend as [[-> Hv]| ->]; [|done].
    destruct rt as [u|e]; cbn [is_ok negb].
    - destruct Hc as [H0 Hc]. rewrite Hc, Ht2. split_and!; [by apply truncated_inv|done|].
      right. split; [done|]. intros i Hi. unfold view. rewrite Hc. cbn.
      destruct (Z.ltb_spec i n); [by apply Hv|]. symmetry. apply Hz. lia.
    - rewrite Hc, Ht2. split_and!; [done|done|by left]. }
  destruct Hcut as (unclean2 & w2 & E2 & Hi2 & Ht2 & Hv2).
  rewrite (bind_run _ _ _ _ _ E2) in Hr. unfold bind, attempt in Hr.
  destruct (image_fsync img w2) as [rs w3] eqn:E3.
  apply image_fsync_quiet in E3 as [Qi Qv Qt _]. specialize (Qi Hi2). specialize (Qv Hi2).
  rewrite Ht2 in Qt.
  destruct (write_finish img _ w3) as [rf w4] eqn:E4.
  pose proof (write_finish_unlogged img _ o Ho _ _ _ E4) as [Ui Uv Ut _].
  specialize (Ui Qi). specialize (Uv Qi Qt). specialize (Ut Qt).
  unfold fail in Hr. injection Hr as <- <-.
  eexists. split; [done|]. split_and!; [done|done|].
  destruct (unclean2 || negb (is_ok rs)) eqn:Eu; [by left|].
  apply orb_false_iff in Eu as [-> _]. destruct Hv2 as [?|[_ Hv2]]; [done|].
  right. etrans; [exact Hv2|]. etrans; [apply equiv_same_but, Qv|done].
Qed.
End fails.

(** ** One pass *)
Lemma with_extent_ok img a b : 0 <= a < 2 ^ 62 -> image_ok (with_extent img a b).
Proof. unfold image_ok. cbn. lia. Qed.

Section pass.
Variable (to : nat -> option errno).

Lemma grow_opened_fails img backing p d0 w e w' :
  image_ok img -> f_size (w_ctx w) <= image_size img -> image_size img <= pl_backing p < 2 ^ 62 ->
  (used_disk_label img = true -> LABEL_SCAN_LIMIT <= slice_base img <= image_size img) ->
  (forall i, backing <= i -> d0 i = 0) -> undoable d0 w ->
  grow_opened to img backing p w = (Err e, w') ->
  failed_clean (Some (state_off img)) d0 e w'.
Proof.
  intros Hok Hf Hp Hlab Hz Hu Hr. pose proof Hok as Hok'. unfold image_ok in Hok'.
  pose proof (carries_image_step img Hok) as Hcar.
  pose proof (bounded_image_step img (image_size img) ltac:(lia)) as Hbnd.
  set (o := Some (state_off img)). unfold grow_opened in Hr.
  set (evac := let! moves := evacuate_summary_extension_range img (pl_cssize p) in
           (if moves =? 0 then ret tt else image_fsync img) ;;; ret moves) in Hr.
  assert (Hev : Stable carries evac) by (unfold evac; solve_stable).
  assert (Hevb : Stable (bounded (image_size img)) evac) by (unfold evac; solve_stable).
  apply bind_inv in Hr as [(moves & w1 & H1 & Hr)|(e' & H1 & Hr)].
  2: { injection Hr as ->. destruct (csum_size (sb img) <? pl_cssize p); [|done].
       apply (or_abandon_spec img evac o d0) in H1; [done|done|].
       intros x w2 Hx. by apply (Hev _ _ _ Hx). }
  assert (Hu1 : undoable d0 w1 /\ f_size (w_ctx w1) <= image_size img).
  { destruct (csum_size (sb img) <? pl_cssize p); [|by injection H1 as _ <-].
    apply (or_abandon_spec img evac o d0) in H1; [|done|intros x w2 Hx; by apply (Hev _ _ _ Hx)].
    split; [by apply (Hev _ _ _ H1)|by apply (Hevb _ _ _ H1)]. }
  clear H1. destruct Hu1 as [Hu1 Hf1]. destruct (negb (moves =? 0)); [done|].
  destruct (_ && _).
  { apply (abandon_spec img _ o d0) in Hr as (e' & [= ->] & H); [done|done|by apply undoable_weaken]. }
  set (prep := let! a := attempt (malloc (super_size (sb img))) in _) in Hr.
  assert (Hprep : forall x w2, prep w1 = (x, w2) -> undoable d0 w2).
  { set (before := let! a := attempt (malloc (super_size (sb img))) in
      let! b := attempt (malloc (cg_size (sb img))) in
      fail_if (negb (is_ok a) || negb (is_ok b)) ENOMEM ;;;
      image_pread img (super_size (sb img)) UFS_SBLOCK_OFFSET).
    assert (Heq : forall w, prep w = bind before (fun b => ftruncate to (s64 (pl_backing p)) ;;; ret b) w).
    { intros w0. unfold prep, before, bind. by repeat case_match. }
    assert (Hb1 : Stable carries before) by (unfold before; solve_stable).
    assert (Hb2 : Stable (bounded (image_size img)) before) by (unfold before; solve_stable).
    intros x w2 Hx. rewrite Heq in Hx.
    apply bind_inv in Hx as [(b & w3 & H3 & Hx)|(e' & H3 & _)];
      pose proof (Hb1 _ _ _ H3 d0 Hu1) as Hu3; [|done].
    pose proof (Hb2 _ _ _ H3 Hf1) as Hf3. rewrite s64_small in Hx by lia.
    apply bind_inv in Hx as [(u & w4 & H4 & Hx)|(e' & H4 & _)];
      apply (ftruncate_carries to (pl_backing p) d0) in H4; try done; try lia.
    by injection Hx as _ <-. }
  apply bind_inv in Hr as [(old & w2 & H2 & Hr)|(e' & H2 & Hr)];
    apply (or_abandon_spec img prep o d0) in H2; try done; [|by injection Hr as ->].
  apply Hprep in H2. rewrite (s64_small (pl_backing p)) in Hr by lia.
  set (img' := with_extent img _ _) in Hr.
  apply bind_inv in Hr as [(rc & w3 & H3 & Hr)|(e' & H3 & _)];
    apply attempt_inv in H3 as (y & Hy & H3); [|done]. injection Hy as ->.
  apply (grow_body_spec _ _ _ d0) in H3; [|apply with_extent_ok; lia|cbn; intros Hl; specialize (Hlab Hl); lia|done].
  destruct y as [u|e1].
  - apply bind_inv in Hr as [(x & w4 & _ & Hr)|(x & Hx & _)]; [done|].
    by apply attempt_inv in Hx as (? & ? & _).
  - apply bind_inv in Hr as [(x & w4 & _ & Hr)|(x & Hx & Hr)]; [done|]. injection Hr as ->.
    apply (grow_failed_spec to _ _ _ o d0) in Hx as (e2 & [= ->] & H); done.
Qed.
End pass.

Section opening.
Context {C : Type} `{HB : Backend C} (src : image) (R : world C -> world C -> Prop).
Context `{HI : !ImageStep src R}.
Lemma open_step fw sel : Stable R (open_with_mode src fw sel).
Proof.
  unfold open_with_mode, open_selected, try_label, try_magic, try_superblock, accept. solve_stable.
Qed.
Lemma write_begin_step : Stable R (write_begin src).
Proof. unfold write_begin, write_state. solve_stable. Qed.
End opening.

(** Looking at the label copies reads the file and no more. *)
Definition untouched (f f' : file) : Prop := f_data f' = f_data f /\ f_size f' = f_size f.
#[export] Instance untouched_preorder : PreOrder untouched.
Proof. split; [done|]. intros ??? [??] [??]. split; congruence. Qed.
Lemma read_fd_untouched size off : Stable untouched (read_exact_fd size off).
Proof. intros f r f' Hr. by apply read_exact_fd_spec in Hr as (? & ? & _). Qed.
Lemma label_validate_untouched base : Stable untouched (label_validate_single_slice_fd base).
Proof.
  unfold label_validate_single_slice_fd, count_hits, validate_one_label_copy.
  repeat first [apply read_fd_untouched | stable_step].
Qed.
Lemma validate_layout_quiet img : Stable quiet (validate_labeled_grow_layout img).
Proof.
  unfold validate_labeled_grow_layout. destruct (negb _); [solve_stable|].
  intros w r w' Hr. unfold lift in Hr.
  destruct (label_validate_single_slice_fd _ _) as [r1 f1] eqn:E. injection Hr as _ <-.
  apply label_validate_untouched in E as [Hd Hs]. constructor; cbn; try done.
  - intros Hi. change (file_inv f1). change (file_inv (w_ctx w)) in Hi. unfold file_inv in *.
    by rewrite Hd, Hs.
  - intros _. change (f_data f1 ≡ f_data (w_ctx w)). by rewrite Hd.
Qed.
Lemma validate_layout_bounded img n : Stable (bounded n) (validate_labeled_grow_layout img).
Proof.
  unfold validate_labeled_grow_layout. destruct (negb _); [solve_stable|].
  intros w r w' Hr. unfold lift in Hr.
  destruct (label_validate_single_slice_fd _ _) as [r1 f1] eqn:E. injection Hr as _ <-.
  apply label_validate_untouched in E as [_ Hs]. unfold bounded. cbn. by rewrite Hs.
Qed.
#[local] Hint Resolve validate_layout_quiet validate_layout_bounded : stable.

Lemma write_begin_image {C} `{Backend C} img (w : world C) img' w' :
  write_begin img w = (Ok img', w') -> exists c st,
  img' = with_sb (with_flags img (unprivileged img) c true) (with_state (sb img) st).
Proof.
  intros Hr. unfold write_begin in Hr. apply bind_ok in Hr as (rc & w1 & _ & Hr).
  destruct rc; [injection Hr as <- _; by eexists _, _|].
  apply bind_ok in Hr as (a & w2 & _ & Hr). by apply bind_ok in Hr as (b & w3 & _ & Hr).
Qed.

Lemma plan_of_backing img backing slice p :
  plan_of img backing slice = Ok p ->
  pl_backing p = backing /\ pl_slice p = slice /\ slice mod frag_size (sb img) = 0 /\
  pl_frags p = slice / frag_size (sb img) /\ pl_frags p <= UINT32_MAX.
Proof.
  unfold plan_of. destruct (Z.eqb_spec (slice mod frag_size (sb img)) 0); cbn [negb]; [|done].
  destruct (Z.ltb_spec UINT32_MAX (slice / frag_size (sb img))); [done|].
  destruct ((_ <? cg_count _) || _); [done|]. destruct ((_ =? 0) || _); [done|].
  destruct (UINT32_MAX <? _ / _ * _); [done|]. destruct (existsb _ _); [done|].
  intros [= <-]. by split_and!.
Qed.

(** The filesystem found in the source, and where its clean mark is. *)
Definition found (src : image) (w : world file) : option image :=
  match fst (image_open_rw src w) with Ok img => Some img | Err _ => None end.
Definition grow_state_byte (src : image) (w : world file) : option Z := state_off <$> found src w.

(** A label is cut off from its slice by the scanned area, as in every NeXT disk: the
    front porch has 160 sectors of 1024 bytes. *)
Definition label_clear (src : image) (w : world file) : Prop :=
  forall img, found src w = Some img -> used_disk_label img = true ->
    LABEL_SCAN_LIMIT <= slice_base img.

Section checks.
Variable (src : image).
Lemma file_size_same (st : result bool) w r w' :
  file_size_bytes st w = (r, w') -> w' = w /\ forall n, r = Ok n -> n = f_size (w_ctx w).
Proof.
  unfold file_size_bytes, bind, of_result. destruct st as [[]|]; intros [= <- <-]; cbn;
    split; try done. by intros n [= ->].
Qed.
Lemma grow_checks_step R st target : ImageStep src R ->
  (forall img, Stable R (validate_labeled_grow_layout img)) ->
  Stable R (grow_checks st src target).
Proof.
  intros HI Hv. unfold grow_checks, open_supported_image.
  assert (Stable R (file_size_bytes st)).
  { intros w r w' Hr. apply file_size_same in Hr as [-> _]. reflexivity. }
  assert (Stable R (open_with_mode src true (-1))) by apply (open_step src R).
  solve_stable.
Qed.
Lemma quiet_image_step {C} `{HB : Backend C, HS : !BackendSpec C} img :
  (forall b n off, Stable quiet (write_exact (C:=C) img b n off)) -> ImageStep img (quiet (C:=C)).
Proof. intros Hw. split; [apply _| | | |]; intros; solve [eauto with stable]. Qed.
Lemma grow_checks_quiet st target : Stable quiet (grow_checks st src target).
Proof.
  unfold grow_checks, open_supported_image.
  assert (Stable quiet (file_size_bytes st)).
  { intros w r w' Hr. apply file_size_same in Hr as [-> _]. reflexivity. }
  pose proof (open_with_mode_quiet (C:=file) src true (-1)) as Ho. solve_stable.
Qed.

(** What the checks establish before the first write. *)
Lemma grow_checks_ok st target w img backing p w' :
  bk_inv (w_ctx w) -> 0 <= image_size src < 2 ^ 61 ->
  grow_checks st src target w = (Ok (img, backing, p), w') ->
  backing = f_size (w_ctx w) /\ found src w = Some img /\ image_size img = image_size src /\
  0 <= slice_base img < image_size img /\ pl_backing p = target /\ target < 2 ^ 62 /\
  sb_wf (sb img) /\ image_validate (sb img) (slice_base img) (slice_size img) = Ok tt /\
  exists slice, slice_bytes_of img target = Ok slice /\ slice_size img < slice /\
    plan_of img target slice = Ok p.
Proof.
  intros Hinv Hsz Hr. unfold grow_checks, open_supported_image in Hr.
  apply bind_ok in Hr as ([img0 n] & w1 & H1 & Hr).
  apply bind_ok in H1 as (n0 & w0 & H0 & H1). apply file_size_same in H0 as [-> Hn].
  apply bind_ok in H1 as (img1 & w2 & Ho & H1).
  destruct (source_is_container img1); [done|]. injection H1 as -> -> <-.
  apply bind_ok in Hr as (slice & w3 & H3 & Hr). injection H3 as H3 ->.
  apply bind_ok in Hr as (u & w4 & H4 & Hr). apply fail_if_ok in H4 as [H4%Z.leb_gt ->].
  apply bind_ok in Hr as (u' & w5 & _ & Hr).
  apply bind_ok in Hr as (p0 & w6 & H6 & Hr). injection H6 as H6 ->. injection Hr as -> -> -> ->.
  pose proof (open_placed src _ _ _ _ _ Hinv Ho) as [Pz Pb Pf Pw Pv]. specialize (Pv eq_refl).
  pose proof (bytes_bound _ _ _ Pw Pv) as (_ & Hbytes & _).
  pose proof (plan_of_backing _ _ _ _ H6) as (Hpb & _ & Hmod & Hpf & Hmax).
  assert (Hp62 : target < 2 ^ 62).
  { pose proof (valid_geometry _ _ _ Pw Pv) as G. pose proof (geo_frag_min _ G).
    pose proof (geo_frag_size _ G). pose proof (geo_block_size _ G). pose proof (geo_fpb _ G).
    assert (slice < 2 ^ 46).
    { rewrite (Z.div_mod slice (frag_size (sb img))), Hmod, <- Hpf by lia.
      unfold UINT32_MAX in Hmax. assert (frag_size (sb img) <= 8192) by lia. nia. }
    unfold slice_bytes_of in H3. destruct (used_disk_label img); [|by injection H3 as ->; lia].
    destruct (target <=? slice_base img); [done|]. injection H3 as <-. lia. }
  split_and!; try done; try lia; [by apply Hn| |by exists slice].
  unfold found, image_open_rw. by rewrite Ho.
Qed.
End checks.

Lemma transaction_begin_bounded n : Stable (bounded n) transaction_begin.
Proof.
  intros w r w' Hr. unfold transaction_begin in Hr.
  assert (Hm : Stable (bounded n) (malloc 16)).
  { apply same_file_bounded. unfold malloc, bind, ask, fail_if, fail, ret. intros w1 r1 w2 H1.
    cbn in H1. destruct (_ || _); by injection H1 as _ <-. }
  apply bind_inv in Hr as [(x & w1 & H1 & Hr)|(e & H1 & _)]; apply Hm in H1; [|done].
  intros Hle. specialize (H1 Hle). unfold bind, ask, fail, put_tx in Hr.
  destruct (ev_tmpfile _ _); by injection Hr as _ <-.
Qed.

Lemma grow_pass_fails to st src target w e w' :
  bk_inv (w_ctx w) -> w_tx w = None -> log_sticky (w_env w) ->
  0 <= image_size src < 2 ^ 61 -> f_size (w_ctx w) = image_size src ->
  label_clear src w -> image_size src <= target ->
  grow_pass to st src target w = (Err e, w') ->
  failed_clean (grow_state_byte src w) (view w) e w'.
Proof.
  intros Hinv Htx Hlog Hsz Hfs Hlab Htarget Hr. unfold grow_pass in Hr.
  pose proof (bounded_image_step src (image_size src) ltac:(lia)) as Hbsrc.
  apply bind_inv in Hr as [([[img backing] p] & w1 & H1 & Hr)|(e' & H1 & [= ->])];
    pose proof (grow_checks_quiet _ _ _ _ _ _ H1) as [Qi Qv Qt Qe];
    specialize (Qi Hinv); specialize (Qv Hinv); rewrite Htx in Qt.
  2: { split_and!; [done|done|right; auto]. }
  pose proof (grow_checks_step src (bounded (image_size src)) _ _ _
    (fun i => validate_layout_bounded i _) _ _ _ H1 ltac:(lia)) as Hf1.
  apply grow_checks_ok in H1 as (-> & Hfound & Hz & Hb & Hpb & Hp62 & _); [|done|done].
  unfold grow_state_byte. rewrite Hfound. cbn [fmap option_fmap option_map].
  apply bind_inv in Hr as [(img2 & w5 & H5 & Hr)|(e' & H5 & [= ->])];
    pose proof (write_begin_unlogged _ _ _ _ H5) as [Ui Uv Ut Ue];
    specialize (Ui Qi); specialize (Uv Qi Qt); specialize (Ut Qt);
    assert (Hv5 : same_but (Some (state_off img)) (view w) (view w5))
      || assert (Hv5 : same_but (Some (state_off img)) (view w) (view w'));
    try (etrans; [apply equiv_same_but, Qv|done]).
  2: { split_and!; [done|done|by right]. }
  assert (Hf5 : f_size (w_ctx w5) <= image_size src).
  { pose proof (bounded_image_step img (image_size src) ltac:(lia)).
    by apply (write_begin_step img (bounded (image_size src)) _ _ _ H5). }
  apply write_begin_image in H5 as (c & stt & ->). set (img2 := with_sb _ _) in Hr.
  apply bind_inv in Hr as [(u6 & w6 & H6 & Hr)|(e' & H6 & [= ->])];
    pose proof (transaction_begin_bounded _ _ _ _ H6 Hf5) as Hf6;
    apply transaction_begin_spec in H6 as (Hi6 & Hv6 & _ & Hu6); try done;
    try (eapply log_sticky_same; [|done]; by etrans).
  2: { split_and!; [done|congruence|]. right. etrans; [exact Hv5|by apply equiv_same_but]. }
  apply (grow_opened_fails to img2 _ p (view w5)) in Hr as (? & ? & Hr); try done.
  - split_and!; [done|done|]. destruct Hr as [?|Hr]; [by left|right]. by etrans.
  - unfold image_ok. cbn. lia.
  - cbn. lia.
  - cbn. lia.
  - cbn. intros Hl. specialize (Hlab img Hfound Hl). lia.
  - intros i Hi. destruct Ui as (_ & _ & Hzero). apply Hzero. lia.
Qed.

(** ** Properties *)

(** C4. A grow that fails changes nothing, for an undo file that, once an fwrite to it
    has come up short, takes no further record ([log_sticky]), a target that is not below
    the size of the source file ([grow_below_file_size_loses_data]), a file that has the
    size the image says, below 2^61 bytes, and, where a disk label was used, a slice that
    begins beyond the area scanned for labels ([label_clear]).  Whatever goes wrong after the checks of
    resize_grow have begun (the clock, memory, a device write, the undo file filling up, the
    summary area, the label, a new group, truncation, the clean mark), a pass that fails
    leaves every byte of the file as it was, but for the mark of the filesystem's state,
    or else reports that it could not (EUCLEAN). *)
Theorem failed_grow_changes_nothing truncate_outcome st src target (w : world file) e w'
    (Hinv : bk_inv (w_ctx w)) (Htx : w_tx w = None) (Hfull : log_sticky (w_env w))
    (Hsz : 0 <= image_size src < 2 ^ 61) (Hfs : f_size (w_ctx w) = image_size src)
    (Hlab : label_clear src w) (Htarget : image_size src <= target)
    (Hr : grow_pass truncate_outcome st src target w = (Err e, w')) :
  w_tx w' = None /\
  (e <> EUCLEAN -> forall i, grow_state_byte src w <> Some i -> view w' i = view w i).
Proof.
  apply grow_pass_fails in Hr as (_ & Ht & Hcase); try done. split; [done|].
  intros Hne i Hi. destruct Hcase as [?|Hsame]; [done|by apply Hsame].
Qed.

(** A host that cannot give memory at the twelfth question. *)
Definition starved_world : world file :=
  World (w_ctx tree_world) None
    (Env (fun _ => 77) (fun n => negb (Nat.eqb n 12)) (fun _ => None) (fun _ => None)
      (fun _ => true) (fun _ => true) 0).
Lemma failed_grow_changes_nothing_witness :
  let run := grow_pass (fun _ => None) (Ok true) (blank_image true (512 * 1024)) (640 * 1024)
    starved_world in
  fst run = Err ENOMEM /\
  forall i, i <> 0x20d1 -> view (snd run) i = view starved_world i.
Proof.
  intros run. assert (Hr : fst run = Err ENOMEM) by (vm_compute; reflexivity). split; [exact Hr|].
  intros i Hi.
  assert (Hs : grow_state_byte (blank_image true (512 * 1024)) starved_world = Some 0x20d1)
    by (vm_compute; reflexivity).
  apply (failed_grow_changes_nothing (fun _ => None) (Ok true) (blank_image true (512 * 1024))
    (640 * 1024) starved_world ENOMEM (snd run)).
  - exact tree_world_inv.
  - reflexivity.
  - by apply log_reliable_sticky.
  - cbn. lia.
  - reflexivity.
  - intros img Hf Hu. unfold found in Hf.
    assert (Hn : used_disk_label <$> (match fst (image_open_rw (blank_image true (512 * 1024)) starved_world)
      with Ok img => Some img | Err _ => None end) = Some false) by (vm_compute; reflexivity).
    rewrite Hf in Hn. cbn in Hn. congruence.
  - cbn. lia.
  - rewrite <- Hr. apply surjective_pairing.
  - discriminate.
  - rewrite Hs. congruence.
Defined.

(** A bare filesystem 64 KiB into a file whose last byte is 7. *)
Definition shifted_file : file :=
  File (fun i => if i <? 65536 then 0 else if i =? 589823 then 7 else f_data (w_ctx tree_world) (i - 65536))
    589824 [] [].

(** The condition on the target is needed.  The target is compared with the size of the
    filesystem, not of the file, so resize_grow may cut the file before its first
    check against the device fails; the fail path gives the file its old length, but not
    the bytes cut off, and marks the filesystem clean. *)
Example grow_below_file_size_loses_data :
  let w := raw_world shifted_file in
  let run := grow_pass (fun _ => None) (Ok true) (blank_image true 589824) (560 * 1024) w in
  bk_inv (w_ctx w) /\ fst run = Err EINVAL /\ f_size (w_ctx (snd run)) = 589824 /\
  view w 589823 = 7 /\ view (snd run) 589823 = 0 /\
  grow_state_byte (blank_image true 589824) w = Some (65536 + 0x20d1) /\
  view (snd run) (65536 + 0x20d1) = 1.
Proof.
  intros w run. split.
  - destruct tree_world_inv as (_ & Hwf & Hz). split; [discriminate|]. split.
    + intros i. unfold w, shifted_file, raw_world. cbn [w_ctx f_data].
      destruct (i <? 65536); [lia|]. destruct (i =? 589823); [lia|apply Hwf].
    + intros i Hi. unfold w, shifted_file, raw_world in *. cbn [w_ctx f_data f_size] in *.
      destruct (Z.ltb_spec i 65536); [done|]. destruct (Z.eqb_spec i 589823); [lia|].
      apply Hz. cbn [w_ctx tree_world raw_world f_size]. lia.
  - vm_compute. repeat split.
Qed.
