(* ===== verification/GrowPlan.v ===== *)
(** * The superblock of a grown filesystem

    What the plan of a grow computes, the superblock it writes, and when that superblock
    passes the validation every later open applies. *)
From S2P Require Import Prelude.
From S2P Require Import Bytes.
From S2P Require Import Backend.
From S2P Require Import Superblock.
From S2P Require Import Image.
From S2P Require Import CylGroup.
From S2P Require Import Alloc.
From S2P Require Import Directory.
From S2P Require Import GrowGroups.
From S2P Require Import Resize.

(** ** The plan *)
Section plan.
Context (img : image) (backing slice : Z) (p : plan).
Hypothesis Hplan : plan_of img backing slice = Ok p.
Local Abbreviation s := (sb img).

Record plan_facts : Prop := PlanFacts {
  pf_backing : pl_backing p = backing;
  pf_slice : pl_slice p = slice;
  pf_aligned : slice mod frag_size s = 0;
  pf_frags : pl_frags p = slice / frag_size s /\ pl_frags p <= UINT32_MAX;
  pf_ncg : pl_ncg p = (pl_frags p + frags_per_group s - 1) / frags_per_group s /\
           cg_count s <= pl_ncg p <= UINT32_MAX;
  pf_ncyl : pl_ncyl p = (pl_frags p * cpg s + frags_per_group s - 1) / frags_per_group s /\
            pl_ncyl p <> 0 /\ pl_ncyl p <= UINT32_MAX;
  pf_cssize : pl_cssize p = (pl_ncg p * CSUM_SIZE + frag_size s - 1) / frag_size s * frag_size s /\
              pl_cssize p <= UINT32_MAX;
  pf_groups : forall cg, cg_count s <= cg < pl_ncg p ->
    cg_dupper s cg <= cg_frag_count s cg (pl_frags p);
}.
Lemma plan_of_facts : plan_facts.
Proof.
  unfold plan_of in Hplan. set (fr := slice / frag_size s) in *.
  set (ncg := (fr + frags_per_group s - 1) / frags_per_group s) in *.
  destruct (Z.eqb_spec (slice mod frag_size s) 0); cbn [negb] in Hplan; [|done].
  destruct (Z.ltb_spec UINT32_MAX fr); [done|].
  destruct (Z.ltb_spec ncg (cg_count s)); [done|]. destruct (Z.ltb_spec UINT32_MAX ncg); [done|].
  cbn [orb] in Hplan.
  destruct (Z.eqb_spec ((fr * cpg s + frags_per_group s - 1) / frags_per_group s) 0); [done|].
  destruct (Z.ltb_spec UINT32_MAX ((fr * cpg s + frags_per_group s - 1) / frags_per_group s));
    [done|]. cbn [orb] in Hplan.
  destruct (Z.ltb_spec UINT32_MAX ((ncg * CSUM_SIZE + frag_size s - 1) / frag_size s * frag_size s));
    [done|].
  destruct (existsb _ _) eqn:E; [done|]. injection Hplan as Hp.
  constructor; rewrite <- ?Hp; cbn [pl_backing pl_slice pl_frags pl_ncg pl_ncyl pl_cssize]; try done.
  intros cg Hcg. apply Z.nlt_ge. intros Hlt%Z.ltb_lt.
  enough (existsb (fun cg => cg_frag_count s cg fr <? cg_dupper s cg)
    (seqZ (cg_count s) (ncg - cg_count s)) = true) by congruence.
  apply existsb_exists. exists cg. split; [apply list_elem_of_In, elem_of_seqZ; lia|done].
Qed.
End plan.

(** ** The superblock written *)
Definition grown_sb (s : superblock) (p : plan) (g : gains) (now : Z) : superblock :=
  Superblock (sb_off s) (cg_off s) (ino_off s) (data_off s) (cg_delta s)
    (cg_cyc_mask s) (w32 now) (w32 (pl_frags p)) (w32 (g_dsize g)) (w32 (pl_ncg p))
    (block_size s) (frag_size s) (frags_per_block s) (minfree s) (rotdelay s)
    (rps s) (block_mask s) (frag_mask s) (block_shift s) (frag_shift_calc s)
    (maxcontig s) (maxbpg s) (frag_shift s) (fsbtodb s) (super_size s)
    (csum_mask s) (csum_shift s) (nindir s) (inodes_per_block s)
    (sectors_per_frag s) (optim s) (w32 (cyl_summary_addr s)) (w32 (pl_cssize p)) (cg_size s)
    (tracks_per_cyl s) (sectors_per_track s) (sectors_per_cyl s) (w32 (pl_ncyl p)) (cpg s)
    (inodes_per_group s) (frags_per_group s) (w32 (dir_count s))
    (w32 (free_block_count s + g_nbfree g)) (w32 (free_inode_count s + g_nifree g))
    (w32 (free_frag_count s + g_nffree g)) (sb_state s) (fs_magic s).

Lemma decode_eq_on a b : eq_on 0 0x560 a b -> decode_superblock a = decode_superblock b.
Proof.
  intros H.
  assert (Hw : forall o, 0 <= o -> o + 4 <= 0x560 -> read_be32 a o = read_be32 b o).
  { intros o ??. apply read_be32_eq_on. intros i Hi. apply H. lia. }
  unfold decode_superblock, UFS_SUPER_MAGIC_OFFSET. rewrite (H 0xd1) by lia.
  f_equal; apply Hw; lia.
Qed.
Lemma decode_grown old p g now (s := decode_superblock old) :
  decode_superblock (patched_superblock s old p g now) = grown_sb s p g now.
Proof.
  unfold grown_sb, s, decode_superblock, patched_superblock, SB_TIME_OFF, SB_SIZE_OFF, SB_DSIZE_OFF, SB_NCG_OFF,
    SB_CSADDR_OFF, SB_CSSIZE_OFF, SB_NCYL_OFF, SB_NBFREE_OFF, SB_NIFREE_OFF, SB_NFFREE_OFF,
    SB_NDIR_OFF, UFS_SUPER_MAGIC_OFFSET. cbv zeta.
  cbn [sb_off cg_off ino_off data_off cg_delta cg_cyc_mask block_size frag_size frags_per_block
    minfree rotdelay rps block_mask frag_mask block_shift frag_shift_calc maxcontig maxbpg frag_shift
    fsbtodb super_size csum_mask csum_shift nindir inodes_per_block sectors_per_frag optim
    cg_size tracks_per_cyl sectors_per_track sectors_per_cyl cpg inodes_per_group frags_per_group
    sb_state fs_magic].
  f_equal; rewrite ?read_be32_write_other by lia; rewrite ?read_write_be32; try done.
Qed.

(** The limits of nextufs_image_validate that a grow does not look at. *)
Record within_limits (s : superblock) (p : plan) : Prop := WithinLimits {
  wl_sectors : pl_ncyl p * sectors_per_cyl s <= INT32_MAX;
  wl_inodes : pl_ncg p * inodes_per_group s <= INT32_MAX;
  wl_bytes : pl_frags p * (frag_size s / 1024) <= INT32_MAX;
  wl_summary : pl_cssize p <= w32 (32 * block_size s);
}.

Section valid.
Context (img : image) (backing slice : Z) (p : plan) (g : gains) (now : Z).
Local Abbreviation s := (sb img).
Hypothesis Hwf : sb_wf s.
Hypothesis Hvalid : image_validate s (slice_base img) (slice_size img) = Ok tt.
Hypothesis Hplan : plan_of img backing slice = Ok p.
Hypothesis Hlarger : slice_size img < slice.

Lemma valid_super_size : 0x560 <= super_size s <= 8192.
Proof.
  unfold image_validate in Hvalid. destruct (bad_shapes s || bad_sizes s) eqn:E; [done|].
  apply orb_false_iff in E as [_ E]. unfold bad_sizes in E. split_orb E. bool_to_prop. lia.
Qed.
Lemma plan_sizes :
  frag_count s <= pl_frags p <= UINT32_MAX /\ pl_slice p = pl_frags p * frag_size s /\
  (pl_ncg p - 1) * frags_per_group s < pl_frags p <= pl_ncg p * frags_per_group s /\
  (pl_ncg p - 1) * cpg s < pl_ncyl p <= pl_ncg p * cpg s /\
  pl_ncg p * 16 <= pl_cssize p < pl_ncg p * 16 + frag_size s.
Proof.
  pose proof (valid_geometry _ _ _ Hwf Hvalid) as G.
  pose proof (bytes_bound _ _ _ Hwf Hvalid) as (_ & Hb & _).
  destruct (plan_of_facts _ _ _ _ Hplan) as [_ Ps Pa [Pf Pf'] [Pn Pn'] [Py Py'] [Pc Pc'] _].
  pose proof (geo_fpg _ G). pose proof (geo_frag_min _ G).
  assert (Hcpg : 0 < cpg s <= 32).
  { unfold image_validate in Hvalid. destruct (bad_shapes s || bad_sizes s) eqn:E; [done|].
    apply orb_false_iff in E as [_ E]. unfold bad_sizes in E. split_orb E. bool_to_prop.
    pose proof (wf_cpg _ Hwf). lia. }
  assert (Hs : pl_slice p = pl_frags p * frag_size s).
  { rewrite Ps, Pf. pose proof (Z.div_mod slice (frag_size s) ltac:(lia)). lia. }
  assert (Hfr : frag_count s <= pl_frags p) by (rewrite Pf; apply Z.div_le_lower_bound; lia).
  pose proof (Z.div_mod (pl_frags p + frags_per_group s - 1) (frags_per_group s) ltac:(lia)) as D1.
  pose proof (Z.mod_pos_bound (pl_frags p + frags_per_group s - 1) (frags_per_group s) ltac:(lia)) as M1.
  rewrite <- Pn in D1.
  assert (Hg : (pl_ncg p - 1) * frags_per_group s < pl_frags p <= pl_ncg p * frags_per_group s) by nia.
  pose proof (Z.div_mod (pl_frags p * cpg s + frags_per_group s - 1) (frags_per_group s) ltac:(lia)) as D2.
  pose proof (Z.mod_pos_bound (pl_frags p * cpg s + frags_per_group s - 1) (frags_per_group s) ltac:(lia)) as M2.
  rewrite <- Py in D2.
  pose proof (Z.div_mod (pl_ncg p * CSUM_SIZE + frag_size s - 1) (frag_size s) ltac:(lia)) as D3.
  pose proof (Z.mod_pos_bound (pl_ncg p * CSUM_SIZE + frag_size s - 1) (frag_size s) ltac:(lia)) as M3.
  unfold CSUM_SIZE in *. split_and!; try lia; try nia.
Qed.

Hypothesis Hlimits : within_limits s p.
Hypothesis Hdsize : 0 <= g_dsize g <= pl_frags p.
Hypothesis Hsummary : cyl_summary_addr s + pl_cssize p / frag_size s <= pl_frags p.
Local Abbreviation s' := (grown_sb s p g now).

Lemma grown_fields :
  frag_count s' = pl_frags p /\ data_frag_count s' = g_dsize g /\ cg_count s' = pl_ncg p /\
  ncyl s' = pl_ncyl p /\ csum_size s' = pl_cssize p /\ cyl_summary_addr s' = cyl_summary_addr s.
Proof.
  destruct plan_sizes as (H1 & _). destruct (plan_of_facts _ _ _ _ Hplan) as [_ _ _ _ [_ ?] [? ?] [_ ?] _].
  pose proof (wf_cyl_summary_addr _ Hwf). pose proof (wf_frag_count _ Hwf).
  pose proof (wf_cg_count _ Hwf).
  destruct plan_sizes as (_ & _ & _ & ? & ?). pose proof (wf_cpg _ Hwf).
  cbn [frag_count data_frag_count cg_count ncyl csum_size cyl_summary_addr grown_sb].
  pose proof (geo_cg_count _ (valid_geometry _ _ _ Hwf Hvalid)).
  unfold UINT32_MAX in *. rewrite (w32_small (pl_frags p)), (w32_small (g_dsize g)),
    (w32_small (pl_ncg p)), (w32_small (cyl_summary_addr s)), (w32_small (pl_cssize p)),
    (w32_small (pl_ncyl p)) by nia. done.
Qed.

Lemma grown_shapes : bad_shapes s' = false.
Proof.
  destruct plan_sizes as (H1 & _ & H2 & H3 & _). destruct grown_fields as (E1 & E2 & E3 & E4 & _).
  destruct Hlimits as [L1 L2 L3 _].
  pose proof Hvalid as Hv. unfold image_validate in Hv.
  destruct (bad_shapes s || bad_sizes s) eqn:E; [done|]. apply orb_false_iff in E as [E _].
  destruct (plan_of_facts _ _ _ _ Hplan) as [_ _ _ _ [_ ?] [? ?] _ _].
  pose proof (geo_cg_count _ (valid_geometry _ _ _ Hwf Hvalid)).
  unfold bad_shapes in E |- *. rewrite E1, E2, E3, E4. unfold grown_sb. cbn -[Z.shiftl not32 w32 INT32_MAX].
  split_orb E. repeat first [assumption | apply orb_false_iff; split]; try done;
    try (apply Z.ltb_ge; lia); try (apply Z.eqb_neq; lia).
  apply Z.leb_gt. unfold UINT32_MAX in *. rewrite w32_small by lia. lia.
Qed.

Lemma grown_sizes : bad_sizes s' = false.
Proof.
  destruct plan_sizes as (H1 & _ & H2 & _ & H4). destruct grown_fields as (E1 & _ & E3 & _ & E5 & _).
  destruct Hlimits as [_ _ _ L4]. pose proof Hvalid as Hv. unfold image_validate in Hv.
  destruct (bad_shapes s || bad_sizes s) eqn:E; [done|]. apply orb_false_iff in E as [_ E].
  destruct (plan_of_facts _ _ _ _ Hplan) as [_ _ _ _ [Pn ?] _ _ _].
  pose proof (valid_geometry _ _ _ Hwf Hvalid) as G.
  pose proof (geo_cg_count _ G). pose proof (geo_minmax _ G).
  unfold bad_sizes in E |- *. rewrite E1, E3, E5. unfold grown_sb.
  cbn -[Z.shiftl not32 w32 INT32_MAX CG_FREE_OFF UFS_INODE_SIZE Z.land].
  split_orb E. repeat first [assumption | apply orb_false_iff; split]; try done;
    try (apply Z.ltb_ge; lia); try (apply Z.eqb_neq; lia).
  rewrite <- Pn, Z.eqb_refl. done.
Qed.

(** The last group still has room for its data area to begin. *)
Lemma grown_last : cgstart s (pl_ncg p - 1) + data_off s <= pl_frags p.
Proof.
  destruct plan_sizes as (H1 & _ & H2 & _). pose proof (valid_geometry _ _ _ Hwf Hvalid) as G.
  destruct (plan_of_facts _ _ _ _ Hplan) as [_ _ _ _ [_ Pn] _ _ Pg].
  pose proof (geo_cg_count _ G). unfold UINT32_MAX in *.
  destruct (decide (pl_ncg p = cg_count s)) as [->|Hne].
  - pose proof (group_end _ _ _ Hwf Hvalid (cg_count s - 1) ltac:(lia)). lia.
  - specialize (Pg (pl_ncg p - 1) ltac:(lia)).
    destruct (cg_addresses s G Hwf (pl_ncg p - 1) ltac:(lia)) as (A1 & A2 & A3 & _ & _ & _ & A7).
    destruct (grow_sizes s G) as (_ & Hg & _).
    unfold cg_dupper in Pg. rewrite A7 in Pg. unfold cg_frag_count in Pg.
    pose proof (wf_data_off _ Hwf).
    rewrite (w32_small (_ - _)) in Pg by lia. rewrite w64_small in Pg by nia.
    destruct (Z.ltb_spec (pl_frags p - (pl_ncg p - 1) * frags_per_group s) (frags_per_group s)).
    + rewrite w32_small in Pg by lia. lia.
    + lia.
Qed.

Lemma grown_extent : bad_extent s' (slice_base img) slice = false.
Proof.
  destruct plan_sizes as (H1 & Hs & H2 & _). destruct grown_fields as (E1 & _ & E3 & _ & E5 & E6).
  pose proof (valid_geometry _ _ _ Hwf Hvalid) as G. pose proof (geo_frag_min _ G).
  pose proof (bytes_bound _ _ _ Hwf Hvalid) as (Hb & Hbytes & _).
  destruct (plan_of_facts _ _ _ _ Hplan) as [_ Ps _ _ [_ Pn] _ [Pc _] _].
  pose proof grown_last as Hlast. pose proof (wf_data_off _ Hwf).
  assert (Hc : pl_cssize p = pl_cssize p / frag_size s * frag_size s).
  { rewrite Pc at 2. rewrite Z.div_mul by lia. done. }
  unfold bad_extent. rewrite E1, E3, E5, E6.
  change (frag_size s') with (frag_size s). change (data_off s') with (data_off s).
  change (cgstart s' (pl_ncg p - 1)) with (cgstart s (pl_ncg p - 1)).
  pose proof (geo_cg_count _ G). unfold UINT32_MAX in *.
  destruct (cg_addresses s G Hwf (pl_ncg p - 1) ltac:(lia)) as (A1 & A2 & A3 & _).
  destruct (grow_sizes s G) as (_ & Hg & _).
  rewrite w64_small by nia.
  repeat (apply orb_false_iff; split); apply Z.ltb_ge; try lia; nia.
Qed.

Lemma grown_valid : image_validate s' (slice_base img) (pl_slice p) = Ok tt.
Proof.
  unfold image_validate. rewrite grown_shapes, grown_sizes. cbn [orb].
  destruct (plan_of_facts _ _ _ _ Hplan) as [_ Ps _ _ _ _ _ _].
  by rewrite Ps, grown_extent.
Qed.
End valid.

(** The limits are also needed. *)
Lemma valid_within s p g now base size :
  image_validate (grown_sb s p g now) base size = Ok tt ->
  0 <= pl_ncyl p < 2 ^ 32 -> 0 <= pl_ncg p < 2 ^ 32 -> 0 <= pl_frags p < 2 ^ 32 ->
  0 <= pl_cssize p < 2 ^ 32 -> within_limits s p.
Proof.
  intros Hv H1 H2 H3 H4. unfold image_validate in Hv.
  destruct (bad_shapes _ || bad_sizes _) eqn:E; [done|]. apply orb_false_iff in E as [E1 E2].
  unfold bad_shapes in E1. unfold bad_sizes in E2. split_orb E1. split_orb E2. bool_to_prop.
  cbn [ncyl sectors_per_cyl cg_count inodes_per_group frag_count frag_size csum_size block_size
    grown_sb] in *.
  rewrite !w32_small in * by done. constructor; done.
Qed.

(** ** Property *)

(** C32. The superblock a grow writes is one that the next open accepts exactly if the new
    size is within four limits of nextufs_image_validate that resize_grow does not look at:
    sectors, inodes and KiB as signed 32-bit numbers, and a summary area of at most 32
    blocks.  All its other conditions hold by what the grow has checked, whatever the
    gained counts and the time. *)
Theorem grown_superblock_valid img backing slice_bytes p old g now :
  wf_buf old -> sb img = decode_superblock old ->
  image_validate (sb img) (slice_base img) (slice_size img) = Ok tt ->
  plan_of img backing slice_bytes = Ok p -> slice_size img < slice_bytes ->
  0 <= g_dsize g <= pl_frags p ->
  cyl_summary_addr (sb img) + pl_cssize p / frag_size (sb img) <= pl_frags p ->
  image_validate (decode_superblock (patched_superblock (sb img) old p g now))
    (slice_base img) (pl_slice p) = Ok tt <-> within_limits (sb img) p.
Proof.
  intros Hold Hsb Hvalid Hplan Hlarger Hd Hsum.
  assert (Hwf : sb_wf (sb img)) by (rewrite Hsb; by apply decode_superblock_wf).
  rewrite Hsb at 1. rewrite decode_grown, <- Hsb. split.
  - intros Hv. destruct (plan_sizes _ _ _ _ Hwf Hvalid Hplan Hlarger) as (P1 & _ & P2 & P3 & P4).
    destruct (plan_of_facts _ _ _ _ Hplan) as [_ _ _ _ [_ ?] (_ & _ & ?) [_ ?] _].
    pose proof (wf_cpg _ Hwf). pose proof (wf_cg_count _ Hwf). pose proof (wf_frag_count _ Hwf).
    pose proof (geo_cg_count _ (valid_geometry _ _ _ Hwf Hvalid)).
    unfold UINT32_MAX in *. eapply valid_within; [exact Hv|nia|lia|lia|lia].
  - intros Hl. by eapply grown_valid.
Qed.

(** The small filesystem of the path lookups, and a plan to enlarge it to 640 KiB. *)
Definition tree_sb : superblock := decode_superblock (slice tree_disk UFS_SBLOCK_OFFSET).
Definition tree_image : image := with_sb mini_image tree_sb.
Definition tree_plan : plan := Plan (640 * 1024) (640 * 1024) 640 3 40 1024.
Lemma grown_superblock_valid_witness :
  image_validate (decode_superblock (patched_superblock tree_sb
      (slice tree_disk UFS_SBLOCK_OFFSET) tree_plan (Gains 518 11 64 0) 77)) 0 (640 * 1024) = Ok tt /\
  within_limits tree_sb tree_plan.
Proof.
  assert (H : image_validate (decode_superblock (patched_superblock tree_sb
    (slice tree_disk UFS_SBLOCK_OFFSET) tree_plan (Gains 518 11 64 0) 77)) 0 (640 * 1024) = Ok tt)
    by (vm_compute; reflexivity).
  split; [exact H|].
  apply (grown_superblock_valid tree_image (640 * 1024) (640 * 1024) tree_plan
    (slice tree_disk UFS_SBLOCK_OFFSET) (Gains 518 11 64 0) 77).
  - apply wf_slice, tree_disk_wf.
  - reflexivity.
  - vm_compute. reflexivity.
  - vm_compute. reflexivity.
  - reflexivity.
  - split; vm_compute; discriminate.
  - vm_compute. discriminate.
  - exact H.
Defined.

(** A filesystem of large groups that a forced grow can take past the limits. *)
Definition large_sb : superblock := {|
  sb_off := 2; cg_off := 3; ino_off := 4; data_off := 5; cg_delta := 0;
  cg_cyc_mask := 0xffffffff; write_time := 0; frag_count := 32768;
  data_frag_count := 32000; cg_count := 1; block_size := 8192; frag_size := 8192;
  frags_per_block := 1; minfree := 10; rotdelay := 0; rps := 60;
  block_mask := 0xffffe000; frag_mask := 0xffffe000; block_shift := 13;
  frag_shift_calc := 13; maxcontig := 1; maxbpg := 256; frag_shift := 0;
  fsbtodb := 3; super_size := 1380; csum_mask := 0xfffffe00; csum_shift := 9;
  nindir := 2048; inodes_per_block := 64; sectors_per_frag := 8; optim := 0;
  cyl_summary_addr := 5; csum_size := 8192; cg_size := 8192;
  tracks_per_cyl := 8; sectors_per_track := 2048; sectors_per_cyl := 16384;
  ncyl := 16; cpg := 16; inodes_per_group := 64; frags_per_group := 32768;
  dir_count := 1; free_block_count := 54; free_inode_count := 125;
  free_frag_count := 0; sb_state := 1; fs_magic := UFS_FS_MAGIC;
|}.
Definition large_image : image := with_extent (with_sb mini_image large_sb) (2 ^ 28) (2 ^ 28).
Example plan_past_the_limits :
  image_validate large_sb 0 (2 ^ 28) = Ok tt /\
  exists p, plan_of large_image (3 * 2 ^ 40) (3 * 2 ^ 40) = Ok p /\ ~ within_limits large_sb p.
Proof.
  split; [vm_compute; reflexivity|].
  exists (Plan (3 * 2 ^ 40) (3 * 2 ^ 40) 402653184 12288 196608 196608).
  split; [vm_compute; reflexivity|]. intros [_ _ H _]. vm_compute in H. by apply H.
Qed.
