(* ===== verification/GrowDisk.v ===== *)
(** * A grow keeps the filesystem's accounts

    The part of a grow between the label and the clean mark ([grow_groups]) on the disk:
    every group header, old or new, ends up in agreement with its map, with its entry of
    the summary area and with the totals of the superblock, at the new size. *)
From S2P Require Import Prelude.
From S2P Require Import Bytes.
From S2P Require Import Backend.
From S2P Require Import Superblock.
From S2P Require Import Image.
From S2P Require Import Inode.
From S2P Require Import CylGroup.
From S2P Require Import Alloc.
From S2P Require Import Directory.
From S2P Require Import GrowGroups.
From S2P Require Import Resize.
From S2P Require Import GrowPlan.

(** ** The layout newfs gives a filesystem *)

(** In every group the superblock copy, the header, the inodes and the data follow one
    another, and the summary area lies in the data of the first group. *)
Record newfs_layout (s : superblock) (p : plan) : Prop := NewfsLayout {
  nl_copy : sb_off s * frag_size s + super_size s <= cg_off s * frag_size s;
  nl_header : cg_off s * frag_size s + cg_size s <= ino_off s * frag_size s;
  nl_primary : UFS_SBLOCK_OFFSET + super_size s <= sb_off s * frag_size s;
  nl_summary : data_off s <= cyl_summary_addr s;
  nl_room : cyl_summary_addr s * frag_size s + pl_cssize p <=
            Z.min (frags_per_group s) (pl_frags p) * frag_size s;
}.

Lemma counter_field_small f c t : In (f, c, t) counter_fields ->
  0 <= f /\ f + 4 <= 40 /\ 0 <= c /\ c + 4 <= 16 /\ 0xc0 <= t /\ t + 4 <= 0xd0.
Proof. cbn. unfold CG_CS_NDIR_OFF, CG_CS_NBFREE_OFF, CG_CS_NIFREE_OFF, CG_CS_NFFREE_OFF,
  SB_NDIR_OFF, SB_NBFREE_OFF, SB_NIFREE_OFF, SB_NFFREE_OFF. intros H. naive_solver lia. Qed.

Section disk.
Context (img : image) (p : plan).
Local Abbreviation s := (sb img).
Local Abbreviation base := (slice_base img).
Context (Hwf : sb_wf s) (G : geometry s) (Hbase : 0 <= slice_base img).
Context (Hlay : newfs_layout s p).
Context (Hsuper : 0x560 <= super_size s <= 8192).
Context (Hncg : cg_count s <= pl_ncg p <= UINT32_MAX) (Hcs : pl_ncg p * 16 <= pl_cssize p).
Context (Hcs32 : pl_cssize p <= UINT32_MAX).
Context (Hfrags : frag_count s <= pl_frags p <= UINT32_MAX).
Context (Hlast : (pl_ncg p - 1) * frags_per_group s < pl_frags p <= pl_ncg p * frags_per_group s).
Implicit Types (v : buf) (w : world file).

(** ** Regions, as byte offsets in the filesystem *)
Definition group_base (cg : Z) : Z :=
  (frags_per_group s * cg + cg_delta s * Z.land cg (not32 (cg_cyc_mask s))) * frag_size s.
Definition at_header (cg : Z) : Z := base + (group_base cg + cg_off s * frag_size s).
Definition at_copy (cg : Z) : Z := base + (group_base cg + sb_off s * frag_size s).
Definition at_csum (cg : Z) : Z := base + (cyl_summary_addr s * frag_size s + cg * 16).
Definition header (v : buf) (cg : Z) : buf := slice v (at_header cg).

Lemma group_base_zero : group_base 0 = 0.
Proof. unfold group_base. rewrite Z.land_0_l. lia. Qed.
Lemma group_base_step cg cg' : 0 <= cg < cg' -> cg' < 2 ^ 32 ->
  group_base cg + data_off s * frag_size s <= group_base cg'.
Proof.
  intros Hc Hc'. destruct (cg_addresses s G Hwf cg ltac:(lia)) as (H1 & H2 & _).
  destruct (cg_addresses s G Hwf cg' ltac:(lia)) as (H3 & _).
  pose proof (geo_frag_min _ G). pose proof (geo_fpg _ G). unfold group_base.
  set (d := cg_delta s * Z.land cg _) in *. set (d' := cg_delta s * Z.land cg' _) in *.
  assert (frags_per_group s * cg + d + data_off s <= frags_per_group s * cg' + d') by nia. nia.
Qed.
Lemma group_base_beyond cg : 1 <= cg < 2 ^ 32 ->
  frags_per_group s * frag_size s <= group_base cg /\ group_base cg < 2 ^ 62.
Proof.
  intros Hc. destruct (cg_addresses s G Hwf cg ltac:(lia)) as (H1 & H2 & _).
  destruct (grow_sizes s G) as (_ & Hg & _). pose proof (geo_frag_min _ G).
  pose proof (geo_frag_size _ G). pose proof (geo_block_size _ G). pose proof (geo_fpb _ G).
  pose proof (wf_data_off _ Hwf). unfold group_base.
  set (d := cg_delta s * Z.land cg _) in *. assert (frag_size s <= 8192) by lia. nia.
Qed.

(** Everything the proofs need about the layout, linear in these offsets. *)
Record layout_facts : Prop := LayoutFacts {
  lf_sb : 0 <= sb_off s * frag_size s;
  lf_copy : sb_off s * frag_size s + super_size s <= cg_off s * frag_size s;
  lf_header : cg_off s * frag_size s + cg_size s <= ino_off s * frag_size s;
  lf_inodes : ino_off s * frag_size s + inodes_per_group s * 128 <= data_off s * frag_size s;
  lf_primary : UFS_SBLOCK_OFFSET + super_size s <= sb_off s * frag_size s;
  lf_summary : data_off s * frag_size s <= cyl_summary_addr s * frag_size s;
  lf_summary_end : cyl_summary_addr s * frag_size s + pl_cssize p <=
                   frags_per_group s * frag_size s;
  lf_summary_fits : cyl_summary_addr s * frag_size s + pl_cssize p <= pl_frags p * frag_size s;
  lf_data : data_off s * frag_size s <= 2 ^ 30;
  lf_fpg : frags_per_group s * frag_size s <= 2 ^ 30;
}.
Lemma layout : layout_facts.
Proof.
  destruct Hlay as [L1 L2 L3 L4 L5]. destruct (grow_sizes s G) as (_ & Hg & _).
  pose proof (geo_frag_min _ G). pose proof (geo_frag_size _ G). pose proof (geo_block_size _ G).
  pose proof (geo_fpb _ G). pose proof (wf_sb_off _ Hwf). pose proof (geo_inode_table _ G) as Ht.
  pose proof (geo_ipg _ G). pose proof (geo_stagger _ G).
  destruct (cg_addresses s G Hwf 0 ltac:(lia)) as (_ & Hd & _). rewrite Z.land_0_l in Hd.
  assert (frag_size s <= 8192) by lia.
  set (q := (inodes_per_group s * UFS_INODE_SIZE + frag_size s - 1) / frag_size s) in *.
  assert (inodes_per_group s * UFS_INODE_SIZE <= q * frag_size s).
  { pose proof (Z.mul_succ_div_gt
      (inodes_per_group s * UFS_INODE_SIZE + frag_size s - 1) (frag_size s)). nia. }
  unfold UFS_INODE_SIZE in *. constructor; try done; nia.
Qed.

Lemma cg_size_big : 984 <= cg_size s <= 8192.
Proof. pose proof (geo_cg_size _ G). pose proof (geo_block_size _ G). unfold CG_FREE_OFF in *. lia. Qed.
Lemma header_place cg : 0 <= cg < 2 ^ 32 ->
  base + cg_byte_offset s cg = at_header cg /\ 0 <= cg_byte_offset s cg /\
  cg_block_offset s base cg = at_header cg.
Proof.
  intros Hcg. destruct (cg_addresses s G Hwf cg Hcg) as (A1 & A2 & A3 & _ & A4 & _).
  destruct layout as [? ? ? ? ? ? ? ? ? ?]. pose proof cg_size_big. pose proof (geo_ipg _ G). pose proof (geo_cg_count _ G).
  assert (Hb : 0 <= group_base cg < 2 ^ 62).
  { destruct (decide (cg = 0)) as [->|]; [rewrite group_base_zero; lia|].
    destruct (group_base_beyond cg ltac:(lia)). lia. }
  unfold at_header, cg_byte_offset, cg_block_offset. rewrite A4, A3.
  replace ((frags_per_group s * cg + cg_delta s * Z.land cg (not32 (cg_cyc_mask s)) + cg_off s) *
    frag_size s) with (group_base cg + cg_off s * frag_size s) by (unfold group_base; lia).
  rewrite w64_small, s64_small by lia. split_and!; lia.
Qed.
Lemma csum_place cg : at_csum cg = csum_off img cg.
Proof. unfold at_csum, csum_off. lia. Qed.

(** ** One group on the disk *)
Record group_good (frags : Z) (v : buf) (cg : Z) : Prop := GroupGood {
  gg_ok : group_ok s (header v cg);
  gg_tail : clean_tail s (header v cg);
  gg_size : read_be32 (header v cg) CG_NDBLK_OFF = cg_frag_count s cg frags;
  gg_csum : forall f c t, In (f, c, t) counter_fields ->
    read_be32 v (at_csum cg + c) = read_be32 (header v cg) f;
}.

Lemma clean_tail_eq_on b b' : wf_buf b -> eq_on 0 (cg_size s) b' b -> clean_tail s b -> clean_tail s b'.
Proof.
  intros Hb Heq Ht i Hi. pose proof (geo_cg_map _ G) as Hmap. pose proof (geo_fpg _ G).
  unfold CG_FREE_OFF, CG_NDBLK_OFF in *.
  pose proof (Z.div_pos (frags_per_group s + 7) 8 ltac:(lia) ltac:(lia)).
  assert (Hn : read_be32 b' 20 = read_be32 b 20) by (apply read_be32_eq_on; intros j Hj; apply Heq; lia).
  rewrite Hn in Hi. pose proof (read_be32_range b Hb 20).
  rewrite (bit_test_byte b' b); [by apply Ht|]. apply Heq. unfold CG_FREE_OFF.
  pose proof (Z.div_pos i 8 ltac:(lia) ltac:(lia)).
  pose proof (Z.div_lt_upper_bound i 8 ((frags_per_group s + 7) / 8) ltac:(lia) ltac:(lia)). lia.
Qed.

(** A group that has been stored. *)
Lemma stored_good frags v cg b :
  wf_buf b -> eq_on 0 (cg_size s) (header v cg) b -> group_ok s b -> clean_tail s b ->
  read_be32 b CG_NDBLK_OFF = cg_frag_count s cg frags ->
  (forall f c t, In (f, c, t) counter_fields -> read_be32 v (at_csum cg + c) = read_be32 b f) ->
  group_good frags v cg.
Proof.
  intros Hb Heq Hok Ht Hn Hc. pose proof cg_size_big.
  assert (Hw : forall o, 0 <= o -> o + 4 <= 40 -> read_be32 (header v cg) o = read_be32 b o).
  { intros o ??. apply read_be32_eq_on. intros i Hi. apply Heq. lia. }
  constructor.
  - by apply (group_ok_eq_on s b).
  - by apply (clean_tail_eq_on b).
  - rewrite Hw; [done|unfold CG_NDBLK_OFF; lia..].
  - intros f c t Hin. pose proof (counter_field_small _ _ _ Hin). rewrite Hw by lia. by eapply Hc.
Qed.
Lemma good_ext frags v v' cg :
  wf_buf v -> eq_on (at_header cg) (cg_size s) v' v -> eq_on (at_csum cg) 16 v' v ->
  group_good frags v cg -> group_good frags v' cg.
Proof.
  intros Hv Hh Hc [A B C D]. apply (stored_good _ _ _ (header v cg)); try done.
  - by apply wf_slice.
  - intros i Hi. unfold header, slice. apply Hh. lia.
  - intros f c t Hin. rewrite <- (D f c t Hin). pose proof (counter_field_small _ _ _ Hin).
    apply read_be32_eq_on. intros i Hi. apply Hc. lia.
Qed.
Lemma header_word_ext v v' cg f c t : In (f, c, t) counter_fields ->
  eq_on (at_header cg) (cg_size s) v' v -> read_be32 (header v' cg) f = read_be32 (header v cg) f.
Proof.
  intros Hin Hh. pose proof (counter_field_small _ _ _ Hin). pose proof cg_size_big.
  apply read_be32_eq_on. intros i Hi. unfold header, slice. apply Hh. lia.
Qed.

(** ** What each write does *)
Definition frame (lo n : Z) (v v' : buf) : Prop := forall i, ~ (lo <= i < lo + n) -> v' i = v i.

Lemma image_pwrite_ok b n off w w' :
  image_pwrite img b n off w = (Ok tt, w') -> bk_inv (w_ctx w) -> 0 <= n < 2 ^ 64 ->
  bk_inv (w_ctx w') /\ view w' ≡ blit (view w) (base + off) (to_bytes b) n.
Proof.
  intros Hr Hi Hn. unfold image_pwrite in Hr. destruct (_ || _); [done|].
  rewrite <- (w64_small n) by done.
  apply write_exact_spec in Hr as (Hi' & _ & _ & Hok); [|done].
  split; [done|]. by apply Hok.
Qed.
Lemma image_pwrite_frame b n off w w' :
  image_pwrite img b n off w = (Ok tt, w') -> bk_inv (w_ctx w) -> 0 <= n < 2 ^ 64 ->
  bk_inv (w_ctx w') /\ frame (base + off) n (view w) (view w').
Proof.
  intros Hr Hi Hn. apply image_pwrite_ok in Hr as [Hi' Hv]; [|done|done]. split; [done|].
  intros i Hii. rewrite Hv. by apply blit_out.
Qed.
Lemma image_pread_ok n off w b w' :
  image_pread img n off w = (Ok b, w') -> bk_inv (w_ctx w) -> 0 <= n < 2 ^ 64 ->
  quiet w w' /\ wf_buf b /\ eq_on 0 n b (slice (view w) (base + off)).
Proof.
  intros Hr Hi Hn. unfold image_pread in Hr. destruct (_ || _); [done|].
  rewrite <- (w64_small n) by done. split; [by eapply read_exact_quiet|].
  split; [by eapply read_exact_wf|]. by eapply read_exact_ok.
Qed.

Lemma write_zeroes_ok off n w w' :
  write_zeroes img off n w = (Ok tt, w') -> bk_inv (w_ctx w) -> 0 <= n < 2 ^ 64 ->
  bk_inv (w_ctx w') /\ frame (base + off) n (view w) (view w').
Proof.
  intros Hr Hi Hn. unfold write_zeroes in Hr.
  assert (Hk : 0 <= (n + 8191) / 8192) by (apply Z.div_pos; lia).
  pose proof (Z.mul_div_le (n + 8191) 8192 ltac:(lia)) as Hdiv.
  apply (for_each_inv (fun _ x => bk_inv (w_ctx x) /\ frame (base + off) n (view w) (view x)))
    in Hr; [done|done|by split|].
  intros k x x' Hk' [Hix Hfx] Hx. apply image_pwrite_frame in Hx as [Hix' Hfx']; [|done|lia].
  split; [done|]. intros i Hii. rewrite Hfx', Hfx by lia. done.
Qed.

(** The words of a summary entry. *)
Lemma csum_entry_words a b c d (e := csum_entry a b c d) :
  wf_buf e /\ read_be32 e 0 = w32 a /\ read_be32 e 4 = w32 b /\ read_be32 e 8 = w32 c /\
  read_be32 e 12 = w32 d.
Proof.
  unfold e, csum_entry. split_and!; [auto 10 with bytes| | | |];
  by rewrite ?read_be32_write_other, read_write_be32 by lia.
Qed.
Lemma csum_of_header_ok cg b w w' :
  csum_of_header img cg b w = (Ok tt, w') -> bk_inv (w_ctx w) -> wf_buf b ->
  bk_inv (w_ctx w') /\ frame (at_csum cg) 16 (view w) (view w') /\
  forall f c t, In (f, c, t) counter_fields -> read_be32 (view w') (at_csum cg + c) = read_be32 b f.
Proof.
  intros Hr Hi Hb. unfold csum_of_header, write_csum_entry, write_csum_entry_at, CSUM_SIZE in Hr.
  apply image_pwrite_ok in Hr as [Hi' Hv]; [|done|lia].
  destruct (csum_entry_words (read_be32 b CG_CS_NDIR_OFF) (read_be32 b CG_CS_NBFREE_OFF)
    (read_be32 b CG_CS_NIFREE_OFF) (read_be32 b CG_CS_NFFREE_OFF)) as (We & E0 & E1 & E2 & E3).
  set (e := csum_entry _ _ _ _) in *.
  fold (at_csum cg) in Hv. split; [done|]. split.
  { intros i Hii. rewrite Hv. by apply blit_out. }
  intros f c t Hin. rewrite (read_be32_equiv _ _ _ Hv).
  pose proof (counter_field_small _ _ _ Hin).
  rewrite read_blit_in by lia.
  rewrite (read_be32_eq_on _ e) by (intros i Hii; by apply to_bytes_id).
  pose proof (read_be32_range b Hb) as Hrange.
  destruct Hin as [[= <- <- <-]|[[= <- <- <-]|[[= <- <- <-]|[[= <- <- <-]|[]]]]];
    rewrite ?E0, ?E1, ?E2, ?E3; apply w32_small, Hrange.
Qed.

(** Storing a header and its summary entry. *)
Lemma store_group_ok cg b w w' :
  (image_pwrite img b (cg_size s) (cg_byte_offset s cg) ;;; csum_of_header img cg b) w = (Ok tt, w') ->
  bk_inv (w_ctx w) -> wf_buf b -> 0 <= cg < 2 ^ 32 ->
  at_csum cg + 16 <= at_header cg \/ at_header cg + cg_size s <= at_csum cg ->
  bk_inv (w_ctx w') /\
  (forall i, ~ (at_header cg <= i < at_header cg + cg_size s) ->
     ~ (at_csum cg <= i < at_csum cg + 16) -> view w' i = view w i) /\
  eq_on 0 (cg_size s) (header (view w') cg) b /\
  forall f c t, In (f, c, t) counter_fields -> read_be32 (view w') (at_csum cg + c) = read_be32 b f.
Proof.
  intros Hr Hi Hb Hcg Hap. pose proof cg_size_big. destruct (header_place cg Hcg) as (Hp & _).
  apply bind_ok in Hr as ([] & w1 & H1 & Hr).
  apply image_pwrite_ok in H1 as [Hi1 Hv1]; [|done|lia]. rewrite Hp in Hv1.
  apply csum_of_header_ok in Hr as (Hi2 & Hf2 & Hw2); [|done|done].
  split_and!; [done| | |done].
  - intros i H1 H2. rewrite Hf2, Hv1 by done. by apply blit_out.
  - intros i Hii. unfold header, slice. rewrite Hf2, Hv1, blit_in by lia.
    unfold to_bytes. replace (at_header cg + i - at_header cg) with i by lia.
    apply wrap_small, Hb.
Qed.

(** The bytes a grow may write: the superblock and its copies, the headers, the summary
    area, and everything past the old end. *)
Inductive touched (i : Z) : Prop :=
  | touched_super : base + UFS_SBLOCK_OFFSET <= i < base + UFS_SBLOCK_OFFSET + super_size s ->
      touched i
  | touched_copy cg : 0 <= cg < pl_ncg p ->
      at_copy cg <= i < at_copy cg + super_size s -> touched i
  | touched_header cg : 0 <= cg < pl_ncg p ->
      at_header cg <= i < at_header cg + cg_size s -> touched i
  | touched_summary : at_csum 0 <= i < at_csum 0 + pl_cssize p -> touched i
  | touched_new : base + frag_count s * frag_size s <= i -> touched i.
Definition spared (v v' : buf) : Prop := forall i, ~ touched i -> v' i = v i.
Lemma spared_trans v1 v2 v3 : spared v1 v2 -> spared v2 v3 -> spared v1 v3.
Proof. intros H1 H2 i Hi. by rewrite H2, H1. Qed.
Lemma csum_touched cg i : 0 <= cg < pl_ncg p -> at_csum cg <= i < at_csum cg + 16 -> touched i.
Proof. intros Hc Hi. apply touched_summary. unfold at_csum in *. lia. Qed.
Lemma frame_spared lo n v v' :
  (forall i, lo <= i < lo + n -> touched i) -> frame lo n v v' -> spared v v'.
Proof. intros Ht Hf i Hi. apply Hf. intros Hin. by apply Hi, Ht. Qed.

(** ** All groups *)
Definition total (f n : Z) (v : buf) : Z := sumZ (fun cg => read_be32 (header v cg) f) n.
Definition all_good (frags n : Z) (v : buf) : Prop :=
  forall cg, 0 <= cg < n -> group_good frags v cg.
(** The totals of the headers moved by these amounts. *)
Record moved (n : Z) (v : buf) (n' : Z) (v' : buf) (g : gains) : Prop := Moved {
  mv_ndir : total CG_CS_NDIR_OFF n' v' = total CG_CS_NDIR_OFF n v;
  mv_nbfree : total CG_CS_NBFREE_OFF n' v' = total CG_CS_NBFREE_OFF n v + g_nbfree g;
  mv_nifree : total CG_CS_NIFREE_OFF n' v' = total CG_CS_NIFREE_OFF n v + g_nifree g;
  mv_nffree : total CG_CS_NFFREE_OFF n' v' = total CG_CS_NFFREE_OFF n v + g_nffree g;
}.
Lemma moved_refl n v d : moved n v n v (Gains d 0 0 0).
Proof. constructor; cbn; lia. Qed.
Lemma moved_trans n1 v1 n2 v2 n3 v3 g h :
  moved n1 v1 n2 v2 g -> moved n2 v2 n3 v3 h -> moved n1 v1 n3 v3 (add_gains g h).
Proof. intros [? ? ? ?] [? ? ? ?]. constructor; cbn; lia. Qed.

Lemma ncg_bound : pl_ncg p < 2 ^ 32.
Proof. unfold UINT32_MAX in *. lia. Qed.
Lemma header_bounds cg : 0 <= cg < pl_ncg p ->
  0 <= group_base cg /\ (cg = 0 -> group_base cg = 0) /\
  (1 <= cg -> frags_per_group s * frag_size s <= group_base cg).
Proof.
  intros Hc. pose proof ncg_bound. destruct layout as [? ? ? ? ? ? ? ? ? ?].
  pose proof (geo_ipg _ G). pose proof cg_size_big. split_and!.
  - destruct (decide (cg = 0)) as [->|]; [by rewrite group_base_zero|].
    destruct (group_base_beyond cg ltac:(lia)). lia.
  - intros ->. apply group_base_zero.
  - intros ?. apply group_base_beyond. lia.
Qed.
(** Headers and summary entries are separate. *)
Lemma headers_apart cg cg' : 0 <= cg < pl_ncg p -> 0 <= cg' < pl_ncg p -> cg <> cg' ->
  at_header cg + cg_size s <= at_header cg' \/ at_header cg' + cg_size s <= at_header cg.
Proof.
  intros Hc Hc' Hne. pose proof ncg_bound. destruct layout as [? ? ? ? ? ? ? ? ? ?].
  pose proof (geo_ipg _ G). unfold at_header.
  destruct (decide (cg < cg')).
  - pose proof (group_base_step cg cg' ltac:(lia) ltac:(lia)). lia.
  - pose proof (group_base_step cg' cg ltac:(lia) ltac:(lia)). lia.
Qed.
Lemma csum_header_apart cg cg' : 0 <= cg < pl_ncg p -> 0 <= cg' < pl_ncg p ->
  at_csum cg + 16 <= at_header cg' \/ at_header cg' + cg_size s <= at_csum cg.
Proof.
  intros Hc Hc'. destruct layout as [? ? ? ? ? ? ? ? ? ?]. pose proof (geo_ipg _ G).
  destruct (header_bounds cg' Hc') as (H1 & H2 & H3). unfold at_header, at_csum.
  destruct (decide (cg' = 0)) as [->|]; [specialize (H2 eq_refl)|specialize (H3 ltac:(lia))]; lia.
Qed.

(** One group is stored, the others are left alone. *)
Lemma after_store frags n cg b v v' :
  wf_buf v -> 0 <= cg < n -> n <= pl_ncg p ->
  (forall cg', 0 <= cg' < n -> cg' <> cg -> group_good frags v cg') ->
  wf_buf b -> group_ok s b -> clean_tail s b ->
  read_be32 b CG_NDBLK_OFF = cg_frag_count s cg frags ->
  (forall i, ~ (at_header cg <= i < at_header cg + cg_size s) ->
     ~ (at_csum cg <= i < at_csum cg + 16) -> v' i = v i) ->
  eq_on 0 (cg_size s) (header v' cg) b ->
  (forall f c t, In (f, c, t) counter_fields -> read_be32 v' (at_csum cg + c) = read_be32 b f) ->
  all_good frags n v' /\
  forall f c t, In (f, c, t) counter_fields ->
    total f n v' = total f n v - read_be32 (header v cg) f + read_be32 b f.
Proof.
  intros Hv Hcg Hn Hothers Hb Hok Htail Hnd Hframe Hhdr Hcsum.
  assert (Hsame : forall cg', 0 <= cg' < n -> cg' <> cg ->
    eq_on (at_header cg') (cg_size s) v' v /\ eq_on (at_csum cg') 16 v' v).
  { intros cg' Hc' Hne. pose proof (headers_apart cg cg' ltac:(lia) ltac:(lia) ltac:(lia)).
    pose proof (csum_header_apart cg cg' ltac:(lia) ltac:(lia)).
    pose proof (csum_header_apart cg' cg ltac:(lia) ltac:(lia)).
    split; intros i Hi; (apply Hframe; [lia|]); [lia|]. unfold at_csum in *. lia. }
  split.
  - intros cg' Hc'. destruct (decide (cg' = cg)) as [->|Hne].
    + by apply (stored_good _ _ _ b).
    + destruct (Hsame cg' Hc' Hne). by apply (good_ext _ v); [done..|apply Hothers].
  - intros f c t Hin. unfold total.
    rewrite (sumZ_update (fun cg => read_be32 (header v cg) f)
      (fun cg => read_be32 (header v' cg) f) n cg Hcg).
    + f_equal. pose proof (counter_field_small _ _ _ Hin). pose proof cg_size_big.
      apply read_be32_eq_on. intros i Hi. apply Hhdr. lia.
    + intros cg' Hc' Hne. destruct (Hsame cg' Hc' Hne) as [Hh _].
      symmetry. by eapply header_word_ext.
Qed.

Lemma frag_count_of_group cg F : 0 <= cg -> cg * frags_per_group s < F <= UINT32_MAX ->
  cg_frag_count s cg F = Z.min (F - cg * frags_per_group s) (frags_per_group s).
Proof.
  intros Hc HF. pose proof (geo_fpg _ G). unfold UINT32_MAX in *. unfold cg_frag_count.
  rewrite w64_small by nia.
  destruct (Z.ltb_spec (F - cg * frags_per_group s) (frags_per_group s)); [|lia].
  rewrite w32_small by nia. lia.
Qed.
Lemma old_size : (cg_count s - 1) * frags_per_group s < frag_count s <= cg_count s * frags_per_group s.
Proof.
  pose proof (geo_cg_count_eq _ G) as H. pose proof (geo_fpg _ G).
  pose proof (Z.div_mod (frag_count s + frags_per_group s - 1) (frags_per_group s) ltac:(lia)) as D.
  pose proof (Z.mod_pos_bound (frag_count s + frags_per_group s - 1) (frags_per_group s) ltac:(lia)).
  rewrite <- H in D. nia.
Qed.
(** A group that was full before stays so. *)
Lemma size_kept cg : 0 <= cg < cg_count s - 1 ->
  cg_frag_count s cg (pl_frags p) = cg_frag_count s cg (frag_count s).
Proof.
  intros Hc. pose proof old_size. pose proof (geo_fpg _ G).
  rewrite !frag_count_of_group by nia. nia.
Qed.

(** ** The steps of a grow *)
Lemma view_wf w : bk_inv (w_ctx w) -> wf_buf (view w).
Proof. apply bk_view_wf. Qed.
Local Hint Resolve view_wf : core.

(** A header that has been read. *)
Lemma header_read cg w b w' : 0 <= cg < 2 ^ 32 ->
  image_pread img (cg_size s) (cg_byte_offset s cg) w = (Ok b, w') -> bk_inv (w_ctx w) ->
  bk_inv (w_ctx w') /\ view w' ≡ view w /\ wf_buf b /\ eq_on 0 (cg_size s) b (header (view w) cg).
Proof.
  intros Hcg Hr Hi. pose proof cg_size_big. destruct (header_place cg Hcg) as (Hp & _).
  apply image_pread_ok in Hr as ([Qi Qv _ _] & Hb & Heq); [|done|lia].
  split_and!; [auto|auto|done|]. unfold header. by rewrite <- Hp.
Qed.
Lemma header_read_word cg v b f c t : In (f, c, t) counter_fields ->
  eq_on 0 (cg_size s) b (header v cg) -> read_be32 b f = read_be32 (header v cg) f.
Proof.
  intros Hin Heq. pose proof (counter_field_small _ _ _ Hin). pose proof cg_size_big.
  apply read_be32_eq_on. intros i Hi. apply Heq. lia.
Qed.

(** What moving the free counters of one group does to the totals. *)
Lemma moved_of_store frags n cg v v' b b0 nb nf d :
  eq_on 0 (cg_size s) b0 (header v cg) -> counters_move b0 b nb nf -> header_keeps b0 b ->
  all_good frags n v' ->
  (forall f c t, In (f, c, t) counter_fields ->
     total f n v' = total f n v - read_be32 (header v cg) f + read_be32 b f) ->
  moved n v n v' (Gains d nb 0 nf).
Proof.
  intros Heq [Hb1 Hb2] (_ & Hk1 & Hk2) _ Ht. unfold counter_fields in *.
  assert (Hin : forall f c t, In (f, c, t) counter_fields ->
    read_be32 (header v cg) f = read_be32 b0 f)
    by (intros; symmetry; by eapply header_read_word).
  constructor; cbn [g_nbfree g_nifree g_nffree].
  - rewrite (Ht _ _ _ (or_introl eq_refl)), (Hin CG_CS_NDIR_OFF 0 SB_NDIR_OFF) by (by left). lia.
  - rewrite (Ht _ _ _ (or_intror (or_introl eq_refl))),
      (Hin CG_CS_NBFREE_OFF 4 SB_NBFREE_OFF) by (by right; left). lia.
  - rewrite (Ht _ _ _ (or_intror (or_intror (or_introl eq_refl)))),
      (Hin CG_CS_NIFREE_OFF 8 SB_NIFREE_OFF) by (by right; right; left). lia.
  - rewrite (Ht _ _ _ (or_intror (or_intror (or_intror (or_introl eq_refl))))),
      (Hin CG_CS_NFFREE_OFF 12 SB_NFFREE_OFF) by (by right; right; right; left). lia.
Qed.

Lemma expand_ok ncyl w g w' :
  expand_old_last_cg img (w32 (cg_count s - 1)) (frag_count s) (pl_frags p) ncyl w = (Ok g, w') ->
  bk_inv (w_ctx w) -> all_good (frag_count s) (cg_count s) (view w) ->
  bk_inv (w_ctx w') /\ all_good (pl_frags p) (cg_count s) (view w') /\
  moved (cg_count s) (view w) (cg_count s) (view w') g /\ spared (view w) (view w').
Proof.
  intros Hr Hi Hgood. pose proof old_size as Hold. pose proof (geo_cg_count _ G). pose proof ncg_bound.
  destruct (grow_sizes s G) as (_ & Hg & _).
  rewrite w32_small in Hr by lia. set (cg := cg_count s - 1) in *.
  assert (Hcg : 0 <= cg < cg_count s) by lia. destruct (Hgood cg Hcg) as [Hok Htail Hsz _].
  rewrite frag_count_of_group in Hsz by (unfold UINT32_MAX in *; lia).
  unfold expand_old_last_cg in Hr. destruct (_ || _) in Hr; [done|].
  rewrite (w32_small (frag_count s - _)) in Hr by nia.
  apply bind_ok in Hr as (u & w1 & H1 & Hr). apply malloc_quiet in H1 as [Qi Qv _ _].
  specialize (Qi Hi). specialize (Qv Hi).
  apply bind_ok in Hr as (b0 & w2 & H2 & Hr).
  apply header_read in H2 as (Hi2 & Hv2 & Hb0 & Heq); [|lia|done].
  assert (Heq0 : eq_on 0 (cg_size s) b0 (header (view w) cg)).
  { intros i Hii. rewrite Heq by done. apply Qv. }
  assert (Hhw : wf_buf (header (view w) cg)) by (apply wf_slice; auto).
  set (start := frag_count s - frags_per_group s * cg) in *.
  set (end_ := cg_frag_count s cg (pl_frags p)) in *.
  assert (Hend : end_ = Z.min (pl_frags p - cg * frags_per_group s) (frags_per_group s)).
  { unfold end_. apply frag_count_of_group; unfold UINT32_MAX in *; lia. }
  assert (Hnd : start = read_be32 b0 CG_NDBLK_OFF).
  { rewrite (read_be32_eq_on b0 (header (view w) cg)).
    - rewrite Hsz. unfold start. nia.
    - pose proof cg_size_big. unfold CG_NDBLK_OFF. intros i Hii. apply Heq0. lia. }
  assert (Hbound : start <= end_ <= frags_per_group s) by (unfold start; nia).
  apply bind_ok in Hr as ([[b1 nb] nf] & w3 & H3 & Hr). injection H3 as H3 ->.
  apply bind_ok in Hr as (now & w4 & H4 & Hr). apply time_now_quiet in H4 as [Qi4 Qv4 _ _].
  destruct (resized_header_ok s G b0 start end_ ncyl now) as (b1' & nb' & nf' & E & Hw & Hok' & Htail' &
    Hnd' & _ & Hmove & Hkeep); try done.
  { by apply (group_ok_eq_on s (header (view w) cg)). }
  { by apply (clean_tail_eq_on (header (view w) cg)). }
  rewrite H3 in E. injection E as <- <- <-.
  rewrite bind_assoc in Hr. apply bind_ok in Hr as ([] & w5 & H5 & Hr). injection Hr as <- <-.
  apply store_group_ok in H5 as (Hi5 & Hfr & Hhdr & Hcsum); [|auto|done|lia|].
  2: { pose proof (csum_header_apart cg cg ltac:(lia) ltac:(lia)). lia. }
  assert (Hvw : view w4 ≡ view w) by (rewrite Qv4, Hv2 by done; exact Qv).
  destruct (after_store (pl_frags p) (cg_count s) cg (resized_header b1 end_ ncyl nb nf now)
    (view w) (view w5)) as [Hall Htot]; try done; try lia.
  { auto. }
  { intros cg' Hc' Hne. destruct (Hgood cg' Hc') as [? ? Hs' ?]. constructor; [done..| |done].
    rewrite Hs'. symmetry. apply size_kept. lia. }
  { intros i H5 H6. rewrite Hfr by done. apply Hvw. }
  split_and!; [done|done|by eapply moved_of_store|].
  intros i Hni. rewrite Hfr; [apply Hvw| |]; intros Hii; apply Hni;
    [by apply (touched_header i cg); [lia|]|by apply (csum_touched cg); [lia|]].
Qed.

(** What is true of the groups after a step that may add groups. *)
Record grown_to (n n' : Z) (v v' : buf) (g : gains) : Prop := GrownTo {
  gt_good : all_good (pl_frags p) n' v';
  gt_moved : moved n v n' v' g;
  gt_spared : spared v v';
}.
Lemma grown_to_trans n1 n2 n3 v1 v2 v3 g h :
  grown_to n1 n2 v1 v2 g -> grown_to n2 n3 v2 v3 h -> grown_to n1 n3 v1 v3 (add_gains g h).
Proof.
  intros [_ M1 S1] [A2 M2 S2]. constructor; [done|by eapply moved_trans|by eapply spared_trans].
Qed.

(** The count of data fragments plays no role here. *)
Lemma same_gains n n' v v' g h : grown_to n n' v v' g ->
  g_nbfree h = g_nbfree g -> g_nifree h = g_nifree g -> g_nffree h = g_nffree g ->
  grown_to n n' v v' h.
Proof. intros [A [M1 M2 M3 M4] C] E1 E2 E3. constructor; [done|constructor; congruence|done]. Qed.

(** A change that leaves the headers and the summary entries alone. *)
Lemma untouched_groups n v v' d :
  wf_buf v -> 0 <= n -> all_good (pl_frags p) n v -> spared v v' ->
  (forall cg, 0 <= cg < n -> eq_on (at_header cg) (cg_size s) v' v /\ eq_on (at_csum cg) 16 v' v) ->
  grown_to n n v v' (Gains d 0 0 0).
Proof.
  intros Hv Hn Hall Hsp Hsame. constructor; [|constructor; cbn; rewrite ?Z.add_0_r|done].
  { intros cg Hc. destruct (Hsame cg Hc). by apply (good_ext _ v); [done..|apply Hall]. }
  all: apply sumZ_ext; intros cg Hc; destruct (Hsame cg Hc) as [Hh _];
    eapply header_word_ext; [|done]; unfold counter_fields; cbn; eauto 6.
Qed.

Lemma summary_small : pl_cssize p <= 2 ^ 30 /\ 1024 <= frag_size s <= 8192.
Proof.
  destruct layout as [? ? ? ? ? ? ? ? ? ?]. pose proof (geo_frag_min _ G).
  pose proof (geo_frag_size _ G). pose proof (geo_block_size _ G). pose proof (geo_fpb _ G).
  pose proof (wf_data_off _ Hwf). nia.
Qed.
Lemma summary_frags x : 0 <= x <= pl_cssize p -> x mod frag_size s = 0 ->
  round_frags s x * frag_size s = x.
Proof.
  intros Hx Hm. destruct summary_small.
  unfold round_frags. rewrite w32_small by lia.
  pose proof (Z.div_mod x (frag_size s) ltac:(lia)) as D. rewrite Hm in D.
  replace (x + frag_size s - 1) with ((x / frag_size s) * frag_size s + (frag_size s - 1)) by lia.
  rewrite Z.div_add_l, (Z.div_small (frag_size s - 1)) by lia. lia.
Qed.
Lemma round_frags_bounds x : 0 <= x <= pl_cssize p ->
  0 <= round_frags s x <= round_frags s (pl_cssize p).
Proof.
  intros Hx. destruct summary_small.
  unfold round_frags. rewrite !w32_small by lia. split.
  - apply Z.div_pos; lia.
  - apply Z.div_le_mono; lia.
Qed.

Lemma reserve_ok w nb nf w' d :
  reserve_summary_extension img (pl_cssize p) w = (Ok (nb, nf), w') ->
  bk_inv (w_ctx w) -> all_good (pl_frags p) (cg_count s) (view w) -> 0 <= csum_size s ->
  pl_cssize p mod frag_size s = 0 ->
  bk_inv (w_ctx w') /\ grown_to (cg_count s) (cg_count s) (view w) (view w') (Gains d nb 0 nf).
Proof.
  intros Hr Hi Hgood Hcsz Hmod. pose proof (geo_cg_count _ G). pose proof ncg_bound.
  destruct (grow_sizes s G) as (_ & Hg & _). destruct layout as [? ? ? ? ? ? ? ? ? ?].
  pose proof (geo_frag_min _ G) as Hfm. pose proof (wf_cyl_summary_addr _ Hwf) as Hsa.
  unfold reserve_summary_extension in Hr. destruct (Z.leb_spec (pl_cssize p) (csum_size s)).
  { injection Hr as <- <- <-. split; [done|]. by apply untouched_groups; [auto|lia|..]. }
  pose proof (round_frags_bounds (csum_size s) ltac:(lia)) as Hrb.
  pose proof (summary_frags (pl_cssize p) ltac:(lia) Hmod) as Hrf.
  assert (Hend : cyl_summary_addr s + round_frags s (pl_cssize p) <=
    Z.min (frags_per_group s) (pl_frags p)) by nia.
  rewrite !w32_small in Hr by lia.
  set (pos := cyl_summary_addr s + round_frags s (csum_size s)) in *.
  set (end_ := cyl_summary_addr s + round_frags s (pl_cssize p)) in *.
  assert (Hpe : 0 <= pos <= end_) by (unfold pos, end_; lia).
  destruct (frags_per_group s <? end_) in Hr; [done|].
  destruct (Hgood 0 ltac:(lia)) as [Hok Htail Hsz _].
  rewrite frag_count_of_group in Hsz by lia.
  apply bind_ok in Hr as (u & w1 & R1 & Hr). apply malloc_quiet in R1 as [Qi Qv _ _].
  specialize (Qi Hi). specialize (Qv Hi).
  apply bind_ok in Hr as (b0 & w2 & R2 & Hr).
  apply header_read in R2 as (Hi2 & Hv2 & Hb0 & Heq); [|lia|done].
  assert (Heq0 : eq_on 0 (cg_size s) b0 (header (view w) 0)).
  { intros i Hii. rewrite Heq by done. apply Qv. }
  assert (Hhw : wf_buf (header (view w) 0)) by (apply wf_slice; auto).
  assert (Hnd : read_be32 b0 CG_NDBLK_OFF = Z.min (pl_frags p) (frags_per_group s)).
  { rewrite (read_be32_eq_on b0 (header (view w) 0)).
    - rewrite Hsz. lia.
    - pose proof cg_size_big. unfold CG_NDBLK_OFF. intros i Hii. apply Heq0. lia. }
  apply bind_ok in Hr as ([[b1 nb1] nf1] & w3 & R3 & Hr). injection R3 as R3 ->.
  apply bind_ok in Hr as (now & w4 & R4 & Hr). apply time_now_quiet in R4 as [Qi4 Qv4 _ _].
  pose proof (reserve_blocks_ok s G b0 pos end_ now Hb0) as Hrb'. rewrite R3 in Hrb'.
  destruct Hrb' as (_ & Hw & Hok' & Hnd' & Hbits & Hmove & Hkeep); [|lia|lia|].
  { by apply (group_ok_eq_on s (header (view w) 0)). }
  rewrite bind_assoc in Hr. apply bind_ok in Hr as ([] & w5 & R5 & Hr). injection Hr as <- <- <-.
  apply store_group_ok in R5 as (Hi5 & Hfr & Hhdr & Hcsum); [|auto|done|lia|].
  2: { pose proof (csum_header_apart 0 0 ltac:(lia) ltac:(lia)). lia. }
  assert (Hvw : view w4 ≡ view w) by (rewrite Qv4, Hv2 by done; exact Qv).
  split; [done|].
  destruct (after_store (pl_frags p) (cg_count s) 0 (close_counters b1 nb1 nf1 now)
    (view w) (view w5)) as [Hall Htot]; try done; try lia.
  { auto. }
  { intros cg' Hc' _. by apply Hgood. }
  { intros i Hii. rewrite Hnd', Hnd in Hii.
    assert (Ht0 : bit_test b0 CG_FREE_OFF i = false).
    { eapply (clean_tail_eq_on (header (view w) 0)); [done|done|done|]. by rewrite Hnd. }
    rewrite Hbits, Ht0 by lia. by destruct (_ && _). }
  { rewrite Hnd', Hnd, frag_count_of_group by lia. lia. }
  { intros i H5 H6. rewrite Hfr by done. apply Hvw. }
  constructor; [done|by eapply moved_of_store|].
  intros i Hni. rewrite Hfr; [apply Hvw| |]; intros Hii; apply Hni;
    [by apply (touched_header i 0); [lia|]|by apply (csum_touched 0); [lia|]].
Qed.

(** The rest of the enlarged summary area is cleared. *)
Lemma clear_summary_ok w w' d :
  write_zeroes img (cyl_summary_addr s * frag_size s + csum_size s)
    (pl_cssize p - csum_size s) w = (Ok tt, w') ->
  bk_inv (w_ctx w) -> all_good (pl_frags p) (cg_count s) (view w) -> csum_size s <= pl_cssize p ->
  bk_inv (w_ctx w') /\ grown_to (cg_count s) (cg_count s) (view w) (view w') (Gains d 0 0 0).
Proof.
  intros Hr Hi Hgood Hle. pose proof (geo_csum _ G). pose proof (geo_cg_count _ G).
  destruct summary_small. destruct layout as [? ? ? ? ? ? ? ? ? ?].
  apply write_zeroes_ok in Hr as [Hi' Hf]; [|done|lia]. split; [done|].
  assert (Hin : forall i, base + (cyl_summary_addr s * frag_size s + csum_size s) <= i <
      base + (cyl_summary_addr s * frag_size s + csum_size s) + (pl_cssize p - csum_size s) ->
    at_csum (cg_count s) <= i < base + frags_per_group s * frag_size s).
  { intros i Hii. unfold at_csum. lia. }
  apply untouched_groups; [auto|lia|done| |].
  - eapply frame_spared; [|exact Hf]. intros i Hii. apply touched_summary. unfold at_csum. lia.
  - intros cg Hcg. pose proof (geo_ipg _ G). pose proof cg_size_big.
    destruct (header_bounds cg ltac:(lia)) as (B1 & B2 & B3).
    split; intros i Hii; apply Hf; intros Hbad%Hin; unfold at_csum, at_header in *; [|lia].
    destruct (decide (cg = 0)); [specialize (B2 ltac:(lia))|specialize (B3 ltac:(lia))]; lia.
Qed.

(** ** New groups *)
Lemma group_base_lower cg : 0 <= cg < 2 ^ 32 -> cg * (frags_per_group s * frag_size s) <= group_base cg.
Proof.
  intros Hc. destruct (cg_addresses s G Hwf cg ltac:(lia)) as (A1 & _).
  pose proof (geo_frag_min _ G). unfold group_base. set (d := cg_delta s * Z.land cg _) in *. nia.
Qed.
Lemma new_group_touched cg i : cg_count s <= cg < pl_ncg p -> base + group_base cg <= i -> touched i.
Proof.
  intros Hc Hi. pose proof ncg_bound. pose proof old_size. pose proof (geo_cg_count _ G).
  pose proof (group_base_lower cg ltac:(lia)). pose proof (geo_fpg _ G). pose proof (geo_frag_min _ G).
  apply touched_new. assert (frag_count s <= cg * frags_per_group s) by nia. nia.
Qed.
(** An address inside a group, as the code computes it. *)
Lemma group_offset cg a : 0 <= cg < 2 ^ 32 -> 0 <= a <= data_off s ->
  s64 (w64 ((frags_per_group s * cg + cg_delta s * Z.land cg (not32 (cg_cyc_mask s)) + a) *
    frag_size s)) = group_base cg + a * frag_size s.
Proof.
  intros Hcg Ha. destruct layout as [? ? ? ? ? ? ? ? ? ?]. pose proof (geo_frag_min _ G).
  assert (Hb : 0 <= group_base cg < 2 ^ 62).
  { destruct (decide (cg = 0)) as [->|]; [rewrite group_base_zero; lia|].
    destruct (group_base_beyond cg ltac:(lia)).
    pose proof (group_base_lower cg ltac:(lia)). pose proof (geo_fpg _ G). nia. }
  replace ((_ + a) * frag_size s) with (group_base cg + a * frag_size s) by (unfold group_base; lia).
  rewrite w64_small, s64_small by nia. done.
Qed.
Lemma table_place cg : 0 <= cg < 2 ^ 32 ->
  s64 (w64 (cgimin s cg * frag_size s)) = group_base cg + ino_off s * frag_size s.
Proof.
  intros Hcg. destruct (cg_addresses s G Hwf cg Hcg) as (_ & _ & _ & _ & _ & -> & _).
  apply group_offset; [done|]. pose proof (geo_order _ G). pose proof (wf_sb_off _ Hwf). lia.
Qed.
Lemma copy_place cg : 0 <= cg < 2 ^ 32 ->
  base + s64 (w64 (cgsblock s cg * frag_size s)) = at_copy cg.
Proof.
  intros Hcg. destruct (cg_addresses s G Hwf cg Hcg) as (_ & _ & _ & -> & _).
  rewrite group_offset; [done|done|]. pose proof (geo_order _ G). pose proof (wf_sb_off _ Hwf). lia.
Qed.

(** Clearing the inodes of a new group. *)
Lemma clear_inodes_ok cg w w' :
  write_zeroes img (s64 (w64 (cgimin s cg * frag_size s))) (inodes_per_group s * 128) w = (Ok tt, w') ->
  bk_inv (w_ctx w) -> cg_count s <= cg < pl_ncg p -> all_good (pl_frags p) cg (view w) ->
  bk_inv (w_ctx w') /\ grown_to cg cg (view w) (view w') (Gains 0 0 0 0).
Proof.
  intros Hr Hi Hcg Hgood. pose proof ncg_bound. pose proof (geo_cg_count _ G). pose proof (geo_ipg _ G).
  pose proof cg_size_big. rewrite table_place in Hr by lia. destruct layout as [? ? ? ? ? ? ? ? ? ?].
  apply write_zeroes_ok in Hr as [Hi' Hf]; [|done|lia]. split; [done|].
  destruct (header_bounds cg ltac:(lia)) as (B1 & B2 & B3). specialize (B3 ltac:(lia)).
  apply untouched_groups; [auto|lia|done| |].
  - eapply frame_spared; [|exact Hf]. intros i Hii. apply (new_group_touched cg); lia.
  - intros cg' Hcg'. pose proof (group_base_step cg' cg ltac:(lia) ltac:(lia)).
    split; intros i Hii; apply Hf; unfold at_csum, at_header in *; lia.
Qed.

Lemma entry_of_header cg b nb nf :
  read_be32 b CG_CS_NDIR_OFF = 0 -> read_be32 b CG_CS_NBFREE_OFF = nb ->
  read_be32 b CG_CS_NIFREE_OFF = inodes_per_group s -> read_be32 b CG_CS_NFFREE_OFF = nf ->
  write_csum_entry img cg 0 nb (inodes_per_group s) nf = csum_of_header img cg b.
Proof. intros H1 H2 H3 H4. unfold csum_of_header. by rewrite H1, H2, H3, H4. Qed.

Lemma new_cg_ok cg g w g' w' :
  write_new_cg img p cg g w = (Ok g', w') ->
  bk_inv (w_ctx w) -> cg_count s <= cg < pl_ncg p -> all_good (pl_frags p) cg (view w) ->
  bk_inv (w_ctx w') /\ exists h, g' = add_gains g h /\ grown_to cg (cg + 1) (view w) (view w') h.
Proof.
  intros Hr Hi Hcg Hgood. pose proof ncg_bound. pose proof (geo_cg_count _ G).
  unfold write_new_cg, build_new_cg in Hr. set (ndblk := cg_frag_count s cg (pl_frags p)) in *.
  destruct (Z.ltb_spec (frags_per_group s) ndblk); [done|].
  destruct (Z.ltb_spec ndblk (cg_dupper s cg)); [done|]. cbn [orb] in Hr.
  apply bind_ok in Hr as ([[b nb] nf] & w1 & R1 & Hr).
  apply bind_ok in R1 as (now & w0 & R0 & R1). injection R1 as R1 ->.
  apply time_now_quiet in R0 as [Qi Qv _ _]. specialize (Qi Hi). specialize (Qv Hi).
  destruct (new_cg_header_ok s G Hwf cg
    (cg_cylinder_count s cg (pl_ncg p) (pl_ncyl p)) ndblk now) as (b' & nb' & nf' & E & Hb & Hok &
    Htail & Hnd & _ & F1 & F2 & F3 & F4 & _); [lia|lia|].
  rewrite R1 in E. injection E as <- <- <-.
  assert (Hgood1 : all_good (pl_frags p) cg (view w1)).
  { intros cg' Hc'. apply (good_ext _ (view w)); [by auto| | |by apply Hgood]; intros i _; apply Qv. }
  apply bind_ok in Hr as ([] & w2 & R2 & Hr).
  apply clear_inodes_ok in R2 as (Hi2 & [Hgood2 Hmoved2 Hsp2]); [|done|done|done].
  rewrite (entry_of_header cg b nb nf) in Hr by done.
  rewrite bind_assoc in Hr. apply bind_ok in Hr as ([] & w3 & R3 & Hr). injection Hr as <- <-.
  apply store_group_ok in R3 as (Hi3 & Hfr & Hhdr & Hcsum); [|done|done|lia|].
  2: { pose proof (csum_header_apart cg cg ltac:(lia) ltac:(lia)). lia. }
  split; [done|]. eexists. split; [reflexivity|].
  destruct (after_store (pl_frags p) (cg + 1) cg b (view w2) (view w3)) as [Hall Htot];
    try done; try lia.
  { auto. }
  { intros cg' Hc' Hne. apply Hgood2. lia. }
  assert (Hsp3 : spared (view w2) (view w3)).
  { intros i Hni. apply Hfr; intros Hii; apply Hni;
      [by apply (touched_header i cg); [lia|]|by apply (csum_touched cg); [lia|]]. }
  assert (Hadd : forall f c t, In (f, c, t) counter_fields ->
    total f (cg + 1) (view w3) = total f cg (view w) + read_be32 b f).
  { intros f c t Hin. rewrite (Htot f c t Hin). unfold total. rewrite sumZ_snoc by lia.
    enough (sumZ (fun cg => read_be32 (header (view w2) cg) f) cg =
            sumZ (fun cg => read_be32 (header (view w) cg) f) cg) by lia.
    change (total f cg (view w2) = total f cg (view w)).
    transitivity (total f cg (view w1)).
    - destruct Hmoved2 as [M1 M2 M3 M4]. cbn in M1, M2, M3, M4. unfold counter_fields in Hin.
      cbn in Hin. naive_solver lia.
    - apply sumZ_ext. intros k _. apply read_be32_equiv. intros i. unfold header, slice. apply Qv. }
  constructor; [done| |].
  - constructor; cbn [g_nbfree g_nifree g_nffree].
    + rewrite (Hadd _ _ _ (or_introl eq_refl)). lia.
    + rewrite (Hadd _ _ _ (or_intror (or_introl eq_refl))). lia.
    + rewrite (Hadd _ _ _ (or_intror (or_intror (or_introl eq_refl)))). lia.
    + rewrite (Hadd _ _ _ (or_intror (or_intror (or_intror (or_introl eq_refl))))). lia.
  - intros i Hni. rewrite Hsp3, Hsp2 by done. apply Qv.
Qed.

(** All of them. *)
Lemma new_groups_ok g w g' w' :
  fold_each (seqZ (cg_count s) (pl_ncg p - cg_count s)) (write_new_cg img p) g w = (Ok g', w') ->
  bk_inv (w_ctx w) -> all_good (pl_frags p) (cg_count s) (view w) ->
  bk_inv (w_ctx w') /\ exists h,
    g_nbfree g' = g_nbfree g + g_nbfree h /\ g_nifree g' = g_nifree g + g_nifree h /\
    g_nffree g' = g_nffree g + g_nffree h /\
    grown_to (cg_count s) (pl_ncg p) (view w) (view w') h.
Proof.
  intros Hr Hi Hgood.
  apply (fold_each_inv (fun n g1 w1 => bk_inv (w_ctx w1) /\ exists h,
    g_nbfree g1 = g_nbfree g + g_nbfree h /\ g_nifree g1 = g_nifree g + g_nifree h /\
    g_nffree g1 = g_nffree g + g_nffree h /\
    grown_to (cg_count s) n (view w) (view w1) h)) in Hr; [|lia| |].
  - replace (cg_count s + (pl_ncg p - cg_count s)) with (pl_ncg p) in Hr by lia.
    destruct Hr as (Hi' & h & ?). split; [done|]. by exists h.
  - split; [done|]. exists (Gains 0 0 0 0). cbn. split_and!; try lia.
    constructor; [done|apply moved_refl|by intros i].
  - intros cg g1 w1 g2 w2 Hcg (Hi1 & h & E1 & E2 & E3 & Hg1) Hstep.
    apply new_cg_ok in Hstep as (Hi2 & h' & -> & Hg2); [|done|lia|apply Hg1].
    split; [done|]. exists (add_gains h h'). cbn. split_and!; try lia.
    by eapply grown_to_trans.
Qed.

(** ** The superblock and its copies *)
Definition holds (v : buf) (off : Z) (b : buf) : Prop := eq_on 0 (super_size s) (slice v off) b.

Lemma write_super_ok b off w w' :
  image_pwrite img b (super_size s) off w = (Ok tt, w') -> bk_inv (w_ctx w) -> wf_buf b ->
  bk_inv (w_ctx w') /\ frame (base + off) (super_size s) (view w) (view w') /\
  holds (view w') (base + off) b.
Proof.
  intros Hr Hi Hb. apply image_pwrite_ok in Hr as [Hi' Hv]; [|done|lia]. split_and!; [done| |].
  - intros i Hii. rewrite Hv. by apply blit_out.
  - intros i Hii. unfold slice. rewrite Hv, blit_in by lia. unfold to_bytes.
    replace (base + off + i - (base + off)) with i by lia. apply wrap_small, Hb.
Qed.

(** The copies are apart from everything that matters to the accounts. *)
Lemma copy_apart cg cg' i : 0 <= cg < pl_ncg p -> 0 <= cg' < pl_ncg p ->
  at_copy cg <= i < at_copy cg + super_size s ->
  ~ (at_header cg' <= i < at_header cg' + cg_size s) /\ ~ (at_csum cg' <= i < at_csum cg' + 16) /\
  ~ (base + UFS_SBLOCK_OFFSET <= i < base + UFS_SBLOCK_OFFSET + super_size s) /\
  (cg' <> cg -> ~ (at_copy cg' <= i < at_copy cg' + super_size s)).
Proof.
  intros Hc Hc' Hi. pose proof ncg_bound. pose proof cg_size_big. pose proof (geo_ipg _ G).
  destruct layout as [? ? ? ? ? ? ? ? ? ?].
  destruct (header_bounds cg Hc) as (B1 & B2 & B3). unfold at_copy, at_header, at_csum in *.
  assert (Hap : ~ (base + (cyl_summary_addr s * frag_size s + cg' * 16) <= i <
    base + (cyl_summary_addr s * frag_size s + cg' * 16) + 16)).
  { destruct (decide (cg = 0)); [specialize (B2 ltac:(lia))|specialize (B3 ltac:(lia))]; lia. }
  destruct (Z.lt_trichotomy cg cg') as [Hlt|[<-|Hlt]].
  - pose proof (group_base_step cg cg' ltac:(lia) ltac:(lia)). split_and!; [lia|done|lia|lia].
  - split_and!; [lia|done|lia|done].
  - pose proof (group_base_step cg' cg ltac:(lia) ltac:(lia)). split_and!; [lia|done|lia|lia].
Qed.
Lemma primary_apart cg' i : 0 <= cg' < pl_ncg p ->
  base + UFS_SBLOCK_OFFSET <= i < base + UFS_SBLOCK_OFFSET + super_size s ->
  ~ (at_header cg' <= i < at_header cg' + cg_size s) /\ ~ (at_csum cg' <= i < at_csum cg' + 16).
Proof.
  intros Hc' Hi. pose proof cg_size_big. pose proof (geo_ipg _ G).
  destruct layout as [? ? ? ? ? ? ? ? ? ?].
  destruct (header_bounds cg' Hc') as (B1 & _). unfold at_header, at_csum in *. lia.
Qed.

Lemma patched_wf old g now : wf_buf old -> wf_buf (patched_superblock s old p g now).
Proof. intros H. unfold patched_superblock. auto 20 with bytes. Qed.

(** A write in one of these places keeps the groups. *)
Lemma aside_groups lo v v' :
  wf_buf v -> all_good (pl_frags p) (pl_ncg p) v -> 0 <= pl_ncg p ->
  (forall i, lo <= i < lo + super_size s -> touched i) ->
  (forall cg i, 0 <= cg < pl_ncg p -> lo <= i < lo + super_size s ->
     ~ (at_header cg <= i < at_header cg + cg_size s) /\ ~ (at_csum cg <= i < at_csum cg + 16)) ->
  frame lo (super_size s) v v' ->
  grown_to (pl_ncg p) (pl_ncg p) v v' (Gains 0 0 0 0).
Proof.
  intros Hv Hgood Hn Ht Hap Hf. apply untouched_groups; [done|done|done|by eapply frame_spared|].
  intros cg Hcg. split; intros i Hii; apply Hf; intros Hbad; by destruct (Hap cg i Hcg Hbad).
Qed.

Lemma still v v1 v' :
  grown_to (pl_ncg p) (pl_ncg p) v v1 (Gains 0 0 0 0) ->
  grown_to (pl_ncg p) (pl_ncg p) v1 v' (Gains 0 0 0 0) ->
  grown_to (pl_ncg p) (pl_ncg p) v v' (Gains 0 0 0 0).
Proof. intros H1 H2. exact (grown_to_trans _ _ _ _ _ _ _ _ H1 H2). Qed.

Lemma superblocks_ok old g w w' :
  patch_and_write_superblocks img old p g w = (Ok tt, w') -> bk_inv (w_ctx w) -> wf_buf old ->
  all_good (pl_frags p) (pl_ncg p) (view w) ->
  bk_inv (w_ctx w') /\ grown_to (pl_ncg p) (pl_ncg p) (view w) (view w') (Gains 0 0 0 0) /\
  exists now, let b := patched_superblock s old p g now in
    holds (view w') (base + UFS_SBLOCK_OFFSET) b /\
    forall cg, 0 <= cg < pl_ncg p -> holds (view w') (at_copy cg) b.
Proof.
  intros Hr Hi Hold Hgood. pose proof (geo_cg_count _ G). pose proof ncg_bound.
  unfold patch_and_write_superblocks in Hr.
  apply bind_ok in Hr as (u & w0 & R0 & Hr). apply malloc_quiet in R0 as [Qi0 Qv0 _ _].
  apply bind_ok in Hr as (now & w1 & R1 & Hr). apply time_now_quiet in R1 as [Qi1 Qv1 _ _].
  set (b := patched_superblock s old p g now) in *.
  assert (Hb : wf_buf b) by by apply patched_wf.
  assert (Hq : view w1 ≡ view w) by (rewrite Qv1 by auto; auto).
  assert (Hg1 : grown_to (pl_ncg p) (pl_ncg p) (view w) (view w1) (Gains 0 0 0 0)).
  { apply untouched_groups; [by auto|lia|done|by intros i|]. intros cg _. split; intros i _; apply Hq. }
  apply bind_ok in Hr as ([] & w2 & R2 & Hr).
  apply write_super_ok in R2 as (Hi2 & Hf2 & Hh2); [|auto|done].
  assert (Hg2 : grown_to (pl_ncg p) (pl_ncg p) (view w) (view w2) (Gains 0 0 0 0)).
  { apply (still _ (view w1)); [done|]. eapply aside_groups; [by auto|apply Hg1|lia| | |exact Hf2].
    - intros i Hii. by apply touched_super.
    - intros cg i Hcg Hii. by apply primary_apart. }
  apply (for_each_inv (fun k x => bk_inv (w_ctx x) /\
    grown_to (pl_ncg p) (pl_ncg p) (view w) (view x) (Gains 0 0 0 0) /\
    holds (view x) (base + UFS_SBLOCK_OFFSET) b /\
    forall cg, 0 <= cg < k -> holds (view x) (at_copy cg) b)) in Hr;
    [|lia|by split_and!; [..|lia]|].
  - rewrite Z.add_0_l in Hr. destruct Hr as (Hi' & Hg & Hp & Hc). split; [done|].
    split; [done|by exists now].
  - intros k x x' Hk (Hix & Hgx & Hp & Hc) Hx. rewrite Z.add_0_l in Hk.
    apply write_super_ok in Hx as (Hix' & Hfx & Hhx); [|done|done]. rewrite copy_place in * by lia.
    assert (Hk' : 0 <= k < pl_ncg p) by lia.
    assert (Hkeep : forall off, (forall i, at_copy k <= i < at_copy k + super_size s ->
        ~ (off <= i < off + super_size s)) -> holds (view x) off b -> holds (view x') off b).
    { intros off Hap Hho i Hii. unfold slice. rewrite Hfx; [by apply Hho|].
      intros Hbad. apply (Hap _ Hbad). lia. }
    split_and!; [done| | |].
    + apply (still _ (view x)); [done|]. eapply aside_groups; [by auto|apply Hgx|lia| | |exact Hfx].
      * intros i Hii. by apply (touched_copy i k).
      * intros cg i Hcg Hii. destruct (copy_apart k cg i) as (? & ? & _); done.
    + apply Hkeep; [|done]. intros i Hii. by destruct (copy_apart k k i) as (_ & _ & ? & _).
    + intros cg Hcg. destruct (decide (cg = k)) as [->|Hne]; [done|].
      apply Hkeep; [|apply Hc; lia]. intros i Hii.
      destruct (copy_apart k cg i) as (_ & _ & _ & Ha); [done|lia|done|by apply Ha].
Qed.

(** ** The whole *)
Lemma groups_ok old w w' :
  grow_groups img p old w = (Ok tt, w') -> bk_inv (w_ctx w) -> wf_buf old ->
  all_good (frag_count s) (cg_count s) (view w) -> 0 <= csum_size s ->
  pl_cssize p mod frag_size s = 0 ->
  bk_inv (w_ctx w') /\ exists g,
    grown_to (cg_count s) (pl_ncg p) (view w) (view w') g /\
    exists now, let b := patched_superblock s old p g now in
      holds (view w') (base + UFS_SBLOCK_OFFSET) b /\
      forall cg, 0 <= cg < pl_ncg p -> holds (view w') (at_copy cg) b.
Proof.
  intros Hr Hi Hold Hgood Hcsz Hmod. unfold grow_groups in Hr.
  apply bind_ok in Hr as (g1 & w1 & R1 & Hr).
  apply expand_ok in R1 as (Hi1 & Hgood1 & Hm1 & Hs1); [|done|done].
  pose proof (GrownTo _ _ _ _ _ Hgood1 Hm1 Hs1) as Hg1.
  apply bind_ok in Hr as (g2 & w2 & R2 & Hr).
  assert (Hg2 : bk_inv (w_ctx w2) /\ grown_to (cg_count s) (cg_count s) (view w) (view w2) g2).
  { destruct (Z.ltb_spec (csum_size s) (pl_cssize p)).
    - apply bind_ok in R2 as ([nb nf] & w3 & R3 & R2).
      eapply (reserve_ok _ _ _ _ (round_frags s (csum_size s) - round_frags s (pl_cssize p)))
        in R3 as (Hi3 & Hg3); [|done|done|done|done].
      apply bind_ok in R2 as ([] & w4 & R4 & R2). injection R2 as <- <-.
      apply (clear_summary_ok _ _ 0) in R4 as (Hi4 & Hg4); [|done|apply Hg3|lia].
      split; [done|].
      eapply (same_gains _ _ _ _ _ _ (grown_to_trans _ _ _ _ _ _ _ _
        (grown_to_trans _ _ _ _ _ _ _ _ Hg1 Hg3) Hg4)); cbn; lia.
    - injection R2 as <- <-. split; [done|].
      eapply (same_gains _ _ _ _ _ _ Hg1); cbn; lia. }
  destruct Hg2 as [Hi2 Hg2]. apply bind_ok in Hr as (g3 & w3 & R3 & Hr).
  apply new_groups_ok in R3 as (Hi3 & h & E1 & E2 & E3 & Hg3); [|done|apply Hg2].
  apply bind_ok in Hr as ([] & w4 & R4 & Hr).
  apply superblocks_ok in R4 as (Hi4 & Hg4 & now & Hp & Hc); [|done|done|apply Hg3].
  apply image_fsync_quiet in Hr as [Qi Qv _ _]. split; [auto|]. exists g3.
  specialize (Qv Hi4). assert (Hh : forall off b, holds (view w4) off b -> holds (view w') off b).
  { intros off b Hb i Hii. rewrite <- (Hb i Hii). apply Qv. }
  split; [|exists now; split; [by apply Hh|intros cg Hcg; by apply Hh, Hc]].
  pose proof (geo_cg_count _ G).
  assert (Hg5 : grown_to (pl_ncg p) (pl_ncg p) (view w4) (view w') (Gains 0 0 0 0)).
  { apply untouched_groups; [auto|lia|apply Hg4|by intros i _; apply Qv|].
    intros cg _. split; intros i _; apply Qv. }
  eapply (same_gains _ _ _ _ _ _ (grown_to_trans _ _ _ _ _ _ _ _
    (grown_to_trans _ _ _ _ _ _ _ _ Hg2 Hg3) (still _ _ _ Hg4 Hg5))); cbn; lia.
Qed.

Lemma header_group cg v : 0 <= cg < 2 ^ 32 -> group_at img v cg = header v cg.
Proof. intros Hc. unfold group_at, header. by destruct (header_place cg Hc) as (_ & _ & ->). Qed.
End disk.

(** ** The invariant of a filesystem's groups *)

(** The accounts agree, every header has the size of its group, and its map has no free
    fragment past that size. *)
Record groups_sound (img : image) (v : buf) : Prop := GroupsSound {
  gs_acct : fs_acct img v;
  gs_size : forall cg, 0 <= cg < cg_count (sb img) ->
    read_be32 (group_at img v cg) CG_NDBLK_OFF = cg_frag_count (sb img) cg (frag_count (sb img));
  gs_tail : forall cg, 0 <= cg < cg_count (sb img) -> clean_tail (sb img) (group_at img v cg);
}.

Section grown.
Context (img : image) (backing slice_bytes : Z) (p : plan) (v : buf).
Local Abbreviation s := (sb img).
Context (Hv : wf_buf v) (Hbase : 0 <= slice_base img).
Context (Hsb : s = decode_superblock (slice v (slice_base img + UFS_SBLOCK_OFFSET))).
Context (Hvalid : image_validate s (slice_base img) (slice_size img) = Ok tt).
Context (Hplan : plan_of img backing slice_bytes = Ok p) (Hlarger : slice_size img < slice_bytes).
Context (Hlay : newfs_layout s p) (Hsuper : 0x560 <= super_size s <= 8192).

Lemma opened_wf : sb_wf s.
Proof. rewrite Hsb. apply decode_superblock_wf. by apply wf_slice. Qed.
Local Hint Resolve opened_wf : core.
Lemma opened_geometry : geometry s.
Proof. by apply (valid_geometry s (slice_base img) (slice_size img)). Qed.

Definition enlarged : image := with_extent img (s64 (pl_backing p)) (s64 (pl_slice p)).
Definition grown_image (v' : buf) : image :=
  with_sb enlarged (decode_superblock (slice v' (slice_base img + UFS_SBLOCK_OFFSET))).

Lemma planned :
  (cg_count s <= pl_ncg p <= UINT32_MAX) /\ pl_ncg p * 16 <= pl_cssize p /\
  pl_cssize p <= UINT32_MAX /\ (frag_count s <= pl_frags p <= UINT32_MAX) /\
  ((pl_ncg p - 1) * frags_per_group s < pl_frags p <= pl_ncg p * frags_per_group s) /\
  pl_cssize p mod frag_size s = 0.
Proof.
  destruct (plan_sizes _ _ _ _ opened_wf Hvalid Hplan Hlarger) as (P1 & P2 & P3 & P4 & P5).
  destruct (plan_of_facts _ _ _ _ Hplan) as [_ _ _ _ [_ ?] _ [Pc ?] _].
  repeat (split; [lia|]). rewrite Pc. apply Z.mod_mul.
  pose proof (geo_frag_min _ opened_geometry). lia.
Qed.

Lemma enlarged_header cg x : 0 <= cg < pl_ncg p -> group_at img x cg = header enlarged x cg.
Proof.
  intros Hc. destruct planned as (P1 & P2 & P3 & P4 & P5 & P6). unfold UINT32_MAX in *.
  change (group_at enlarged x cg = header enlarged x cg).
  apply (header_group enlarged p); try done; [apply opened_geometry|lia].
Qed.
Lemma sound_good : groups_sound img v -> all_good enlarged (frag_count s) (cg_count s) v.
Proof.
  intros [[A B C] S T] cg Hcg. destruct planned as (P1 & _).
  constructor; rewrite <- ?enlarged_header by lia; [by apply A|by apply T|by apply S|].
  intros f c t Hin. rewrite <- (B cg f c t Hcg Hin). f_equal. unfold csum_off, at_csum. cbn. lia.
Qed.

(** The totals written are those of the headers. *)
Lemma patched_totals g now old v' :
  fs_acct img v -> 0 <= cg_count s ->
  eq_on 0 (super_size s) old (slice v (slice_base img + UFS_SBLOCK_OFFSET)) ->
  moved enlarged (cg_count s) v (pl_ncg p) v' g ->
  holds enlarged v' (slice_base img + UFS_SBLOCK_OFFSET) (patched_superblock s old p g now) ->
  forall f c t, In (f, c, t) counter_fields ->
    read_be32 v' (slice_base img + 0x2000 + t) = w32 (total enlarged f (pl_ncg p) v').
Proof.
  intros [_ _ Hacct] Hn Hold [M1 M2 M3 M4] Hprim f c t Hin. destruct planned as (P1 & _).
  set (b := patched_superblock s old p g now) in *.
  assert (Ht : total enlarged f (cg_count s) v = sumZ (fun cg => read_be32 (group_at img v cg) f) (cg_count s)).
  { apply sumZ_ext. intros cg Hc. by rewrite enlarged_header by lia. }
  specialize (Hacct f c t Hin). rewrite <- Ht in Hacct.
  assert (Hword : read_be32 v' (slice_base img + 0x2000 + t) = read_be32 b t).
  { unfold holds in Hprim. change (super_size (sb enlarged)) with (super_size s) in Hprim.
    pose proof (counter_field_small _ _ _ Hin).
    rewrite <- (read_be32_eq_on (slice v' (slice_base img + UFS_SBLOCK_OFFSET)) b t)
      by (intros i Hi; apply Hprim; lia).
    by rewrite slice_read_be32. }
  assert (Hs : read_be32 v (slice_base img + 0x2000 + t) =
      read_be32 (slice v (slice_base img + UFS_SBLOCK_OFFSET)) t) by (by rewrite slice_read_be32).
  rewrite Hs in Hacct. rewrite Hword. unfold b, patched_superblock, SB_TIME_OFF, SB_SIZE_OFF,
    SB_DSIZE_OFF, SB_NCG_OFF, SB_CSADDR_OFF, SB_CSSIZE_OFF, SB_NCYL_OFF.
  set (sbuf := slice v (slice_base img + UFS_SBLOCK_OFFSET)) in *.
  assert (Hfields : dir_count s = read_be32 sbuf SB_NDIR_OFF /\
    free_block_count s = read_be32 sbuf SB_NBFREE_OFF /\
    free_inode_count s = read_be32 sbuf SB_NIFREE_OFF /\
    free_frag_count s = read_be32 sbuf SB_NFFREE_OFF) by (rewrite Hsb; done).
  destruct Hfields as (F1 & F2 & F3 & F4).
  destruct Hin as [[= <- <- <-]|[[= <- <- <-]|[[= <- <- <-]|[[= <- <- <-]|[]]]]];
    unfold SB_NBFREE_OFF, SB_NIFREE_OFF, SB_NFFREE_OFF, SB_NDIR_OFF in *;
    rewrite ?read_be32_write_other, read_write_be32 by lia.
  - rewrite M1, F1, Hacct. apply w32_w32.
  - rewrite M2, F2, Hacct. apply w32_add_l.
  - rewrite M3, F3, Hacct. apply w32_add_l.
  - rewrite M4, F4, Hacct. apply w32_add_l.
Qed.

Lemma touched_enlarged i : touched enlarged p i -> touched img p i.
Proof.
  intros [H|cg Hc H|cg Hc H|H|H]; [exact (touched_super img p i H)|exact (touched_copy img p i cg Hc H)|
    exact (touched_header img p i cg Hc H)|exact (touched_summary img p i H)|exact (touched_new img p i H)].
Qed.

(** The group headers do not notice the new superblock. *)
Lemma group_ok_grown g now b : group_ok s b -> group_ok (grown_sb s p g now) b.
Proof. intros [A [B1 B2 B3 B4] C]. constructor; [exact A|constructor; assumption|exact C]. Qed.

Lemma good_sound g now v' (img' := grown_image v') :
  sb img' = grown_sb s p g now -> 0 <= pl_ncg p < 2 ^ 32 ->
  all_good enlarged (pl_frags p) (pl_ncg p) v' ->
  (forall f c t, In (f, c, t) counter_fields ->
     read_be32 v' (slice_base img + 0x2000 + t) = w32 (total enlarged f (pl_ncg p) v')) ->
  groups_sound img' v'.
Proof.
  intros Hsb' Hn Hgood Htot. destruct planned as (P1 & P2 & P3 & P4 & P5 & P6).
  pose proof (wf_cyl_summary_addr _ opened_wf).
  assert (Hcount : cg_count (sb img') = pl_ncg p) by (rewrite Hsb'; by apply w32_small).
  assert (Hgrp : forall cg, 0 <= cg < pl_ncg p -> group_at img' v' cg = header enlarged v' cg).
  { intros cg Hc. rewrite <- enlarged_header by done. unfold group_at. by rewrite Hsb'. }
  constructor.
  - constructor; rewrite Hcount.
    + intros cg Hc. rewrite Hgrp, Hsb' by done. by apply group_ok_grown, Hgood.
    + intros cg f c t Hc Hin. rewrite Hgrp by done.
      rewrite <- (gg_csum _ _ _ _ (Hgood cg Hc) f c t Hin). f_equal.
      unfold csum_off, at_csum. rewrite Hsb'.
      cbn [cyl_summary_addr frag_size grown_sb]. rewrite w32_small by done. cbn. lia.
    + intros f c t Hin. cbn [slice_base grown_image enlarged with_sb with_extent img'].
      rewrite (Htot f c t Hin). unfold total. f_equal. apply sumZ_ext. intros cg Hc. by rewrite Hgrp.
  - intros cg. rewrite Hcount. intros Hc. rewrite Hgrp, (gg_size _ _ _ _ (Hgood cg Hc)) by done.
    rewrite Hsb'. unfold cg_frag_count. cbn [frags_per_group frag_count grown_sb].
    unfold UINT32_MAX in *. by rewrite (w32_small (pl_frags p)) by (pose proof (wf_frag_count _ opened_wf); lia).
  - intros cg. rewrite Hcount. intros Hc. rewrite Hgrp, Hsb' by done.
    exact (gg_tail _ _ _ _ (Hgood cg Hc)).
Qed.
End grown.

(** ** Property *)

(** C6. Growing keeps the filesystem's books.  Take an opened image whose superblock is
    valid and whose groups are sound (the counters in each header follow its maps, the
    summary entry and the superblock's totals follow the headers, a header is as long as its
    group and has no free fragment past its end), and a target that the plan accepts.  When
    the group part of resize_grow succeeds (the old last group, the enlarged summary area,
    the new groups, the superblocks), the groups of the filesystem the disk now describes
    are sound at the new size, every copy of the superblock equals the primary, and no byte
    was written but the superblocks, the group headers, the summary area and the space past
    the old end: file data and old inodes are as they were. *)
Theorem grow_groups_sound img backing slice_bytes p old (w w' : world file) :
  bk_inv (w_ctx w) -> 0 <= slice_base img ->
  sb img = decode_superblock (slice (view w) (slice_base img + UFS_SBLOCK_OFFSET)) ->
  image_validate (sb img) (slice_base img) (slice_size img) = Ok tt ->
  plan_of img backing slice_bytes = Ok p -> slice_size img < slice_bytes ->
  newfs_layout (sb img) p -> wf_buf old ->
  eq_on 0 (super_size (sb img)) old (slice (view w) (slice_base img + UFS_SBLOCK_OFFSET)) ->
  groups_sound img (view w) ->
  grow_groups (enlarged img p) p old w = (Ok tt, w') ->
  let img' := grown_image img p (view w') in
  groups_sound img' (view w') /\
  frag_count (sb img') = slice_bytes / frag_size (sb img) /\ cg_count (sb img') = pl_ncg p /\
  (forall cg, 0 <= cg < pl_ncg p ->
     eq_on 0 (super_size (sb img)) (slice (view w') (at_copy img cg))
       (slice (view w') (slice_base img + UFS_SBLOCK_OFFSET))) /\
  (forall i, ~ touched img p i -> view w' i = view w i).
Proof.
  intros Hi Hbase Hsb Hvalid Hplan Hlarger Hlay Hold Heq Hsound Hr img'.
  assert (Hv : wf_buf (view w)) by by apply view_wf.
  pose proof (opened_wf img (view w) Hv Hsb) as Hwf.
  pose proof (valid_geometry _ _ _ Hwf Hvalid) as G.
  pose proof (valid_super_size _ Hvalid) as Hsuper.
  pose proof (sound_good img backing slice_bytes p (view w) Hv Hsb Hvalid Hplan Hlarger
    Hlay Hsuper Hsound) as Hgood.
  destruct (planned img backing slice_bytes p (view w) Hv Hsb Hvalid Hplan Hlarger)
    as (P1 & P2 & P3 & P4 & P5 & P6).
  pose proof (wf_csum_size _ Hwf) as Hcsz.
  apply (groups_ok (enlarged img p) p Hwf G Hlay Hsuper P1 P2 P3 P4 P5) in Hr
    as (Hi' & g & [Hgood' Hmoved Hsp] & now & Hprim & Hcopies); try done; [|exact (proj1 Hcsz)].
  change (sb (enlarged img p)) with (sb img) in *.
  change (slice_base (enlarged img p)) with (slice_base img) in *.
  set (b := patched_superblock (sb img) old p g now) in *.
  assert (Hdec : sb img = decode_superblock old).
  { rewrite Hsb. symmetry. apply decode_eq_on. intros i Hii. apply Heq. lia. }
  assert (Hsb' : sb img' = grown_sb (sb img) p g now).
  { unfold img', grown_image. cbn [sb with_sb]. rewrite (decode_eq_on _ b).
    - unfold b. rewrite Hdec. apply decode_grown.
    - intros i Hii. apply Hprim. change (sb (enlarged img p)) with (sb img). lia. }
  split; [|split; [|split; [|split]]].
  - apply (good_sound img backing slice_bytes p (view w) Hv Hsb Hvalid Hplan Hlarger Hlay Hsuper
      g now); try done; [unfold UINT32_MAX in *; pose proof (wf_cg_count _ Hwf); lia|].
    eapply (patched_totals img _ _ p (view w) Hv Hsb Hvalid Hplan Hlarger Hlay Hsuper g now old); try done;
      [apply Hsound|apply (wf_cg_count _ Hwf)].
  - rewrite Hsb'. cbn [frag_count grown_sb]. unfold UINT32_MAX in *.
    rewrite w32_small by (pose proof (wf_frag_count _ Hwf); lia).
    by destruct (plan_of_facts _ _ _ _ Hplan) as [_ _ _ [? _] _ _ _ _].
  - rewrite Hsb'. apply w32_small. unfold UINT32_MAX in *. pose proof (wf_cg_count _ Hwf). lia.
  - intros cg Hc i Hii. rewrite (Hprim i Hii). by apply Hcopies.
  - intros i Hni. apply Hsp. intros Ht. by apply Hni, touched_enlarged.
Qed.

(** A check of soundness that computes. *)
Definition clean_tail_check (s : superblock) (b : buf) : bool :=
  let n := read_be32 b CG_NDBLK_OFF in
  forallb (fun i => negb (bit_test b CG_FREE_OFF i))
    (seqZ n (8 * ((frags_per_group s + 7) / 8) - n)).
Definition groups_check (img : image) (v : buf) : bool :=
  fs_acct_check img v &&
  forallb (fun cg => (read_be32 (group_at img v cg) CG_NDBLK_OFF =?
      cg_frag_count (sb img) cg (frag_count (sb img))) &&
    clean_tail_check (sb img) (group_at img v cg)) (seqZ 0 (cg_count (sb img))).
Lemma groups_check_sound img v : groups_check img v = true -> groups_sound img v.
Proof.
  unfold groups_check. rewrite andb_true_iff, forallb_seqZ. intros [Ha Hg].
  assert (H : forall cg, 0 <= cg < cg_count (sb img) ->
    read_be32 (group_at img v cg) CG_NDBLK_OFF = cg_frag_count (sb img) cg (frag_count (sb img)) /\
    clean_tail_check (sb img) (group_at img v cg) = true).
  { intros cg Hc. specialize (Hg cg ltac:(lia)). apply andb_true_iff in Hg as [H1 H2].
    split; [by apply Z.eqb_eq|done]. }
  constructor; [by apply fs_acct_check_sound|intros cg Hc; by apply H|].
  intros cg Hc i Hi. destruct (H cg Hc) as [_ Ht]. unfold clean_tail_check in Ht.
  rewrite forallb_seqZ in Ht. apply negb_true_iff, Ht. lia.
Qed.

(** The small filesystem of the path lookups, with room for 640 KiB. *)
Definition roomy_world : world file := raw_world (File tree_disk (640 * 1024) [] []).
Lemma roomy_world_inv : bk_inv (w_ctx roomy_world).
Proof.
  destruct tree_world_inv as (_ & Hwf & Hz). split; [discriminate|]. split; [exact Hwf|].
  intros i Hi. cbn [w_ctx roomy_world raw_world f_data f_size] in *. apply Hz.
  cbn [w_ctx tree_world raw_world f_size]. lia.
Qed.

Lemma grow_groups_sound_witness :
  let run := grow_groups (enlarged tree_image tree_plan) tree_plan
    (slice tree_disk UFS_SBLOCK_OFFSET) roomy_world in
  fst run = Ok tt /\
  groups_sound (grown_image tree_image tree_plan (view (snd run))) (view (snd run)).
Proof.
  intros run. assert (Hr : fst run = Ok tt) by (vm_compute; reflexivity). split; [exact Hr|].
  apply (grow_groups_sound tree_image (640 * 1024) (640 * 1024) tree_plan
    (slice tree_disk UFS_SBLOCK_OFFSET) roomy_world (snd run)).
  - exact roomy_world_inv.
  - discriminate.
  - reflexivity.
  - vm_compute. reflexivity.
  - vm_compute. reflexivity.
  - reflexivity.
  - constructor; vm_compute; discriminate.
  - apply wf_slice, tree_disk_wf.
  - intros i _. reflexivity.
  - apply groups_check_sound. vm_compute. reflexivity.
  - rewrite <- Hr. apply surjective_pairing.
Defined.
