(* ===== verification/FormatPlan.v ===== *)
(** * Formatting: the geometry

    The part of [nextufs_format] (src/src/mkimg_format/format.c) that computes a
    superblock from the options, up to [validate_only], with the macros of
    mkimg_format/include/ufs/fs.h it uses.  [int] arithmetic is exact here: the ranges
    that nextufs_mkimg_main requires of the options keep it below 2^31, but for one
    product.  When the last group is given up, [trim_last] multiplies the cylinders left by
    the sectors of a cylinder, which passes the number of sectors asked for by less than one
    cylinder ([trim_product]): within one cylinder of 2 TiB, and with the last group cut
    short in its last cylinder only, the C product overflows, which C leaves undefined and
    which is exact here.  Such a plan does not fit ([fits] of FormatSuper bounds that very
    product).  Every refusal is the exit status 1; the errno only says why. *)
From S2P Require Import Prelude.
From S2P Require Import Bytes.
From S2P Require Import Superblock.
From S2P Require Import CylGroup.

Definition DEV_BSIZE : Z := 1024.
Definition MAXBSIZE : Z := 8192.
Definition MAXFRAG : Z := 8.
Definition NBBY : Z := 8.
Definition BBSIZE : Z := 8192.
Definition SBSIZE : Z := 8192.
Definition MINBSIZE : Z := 4096.
Definition MAXCPG : Z := 32.
Definition MAXCSBUFS : Z := 32.
Definition MAXIPG : Z := 2048.
Definition DESCPG : Z := 16.
Definition MINFREE : Z := 10.
Definition ROTDELAY : Z := 4.
Definition NBPI : Z := 2048.
Definition FORMAT_COMPAT_MAX_SECTORS : Z := 4294836224 / 1024.
(** [sizeof (struct fs)], [sizeof (struct cg)], [sizeof (struct csum)] *)
Definition SIZEOF_FS : Z := 1380.
Definition SIZEOF_CG : Z := 988.
Definition SIZEOF_CSUM : Z := 16.
Definition MAXBPC : Z := SBSIZE - SIZEOF_FS.
Definition FS_POSTBL_OFF : Z := 860.
Definition FS_ROTBL_OFF : Z := 1376.

Definition howmany (x y : Z) : Z := (x + (y - 1)) / y.
Definition roundup (x y : Z) : Z := howmany x y * y.
Definition POWEROF2 (n : Z) : bool := Z.land n (n - 1) =? 0.

(** [if (c) { ...; return 1; }] *)
Definition refuse {A} (c : bool) (k : result A) : result A := if c then Err EINVAL else k.

Record format_options := FormatOptions {
  fo_target : option (list Z);
  fo_size_1k_sectors : Z;
  fo_nsect : Z; fo_ntrak : Z; fo_bsize : Z; fo_fsize : Z; fo_cpg : Z;
  fo_minfree : Z; fo_rps : Z; fo_nbpi : Z;
  fo_opt : Z;                                 (* a character *)
  fo_dry_run : bool; fo_validate_only : bool; fo_force_size : bool; fo_no_create : bool;
  fo_base_offset : Z;
}.

(** ** Loops on shrinking numbers *)
(** [for (n = 0; i > 1; i >>= 1) n++] *)
Fixpoint halvings (fuel : nat) (i : Z) : Z :=
  match fuel with
  | O => 0
  | S fuel => if 1 <? i then 1 + halvings fuel (Z.shiftr i 1) else 0
  end.
Definition shift_of (i : Z) : Z := halvings 32 i.
(** The cylinders after which the rotational pattern repeats. *)
Fixpoint pattern (fuel : nat) (cpc i : Z) : Z :=
  match fuel with
  | O => cpc
  | S fuel =>
      if (1 <? cpc) && (Z.land i 1 =? 0) then pattern fuel (Z.shiftr cpc 1) (Z.shiftr i 1)
      else cpc
  end.
Definition cgmask_of (ntrak : Z) : Z :=
  let mask := w32 (Z.shiftl 0xffffffff (shift_of ntrak)) in
  if POWEROF2 ntrak then mask else w32 (Z.shiftl mask 1).

(** ** Blocks and tracks *)
Record disk := Disk {
  k_nsect : Z; k_ntrak : Z; k_spc : Z; k_bsize : Z; k_fsize : Z;
  k_bshift : Z; k_fshift : Z; k_frag : Z; k_fragshift : Z;
  k_nindir : Z; k_inopb : Z; k_nspf : Z; k_fsbtodb : Z;
  k_sblkno : Z; k_cblkno : Z; k_iblkno : Z; k_cgoffset : Z; k_cgmask : Z;
  k_cpc : Z;
}.
Definition disk_of (o : format_options) : result disk :=
  let nsect := fo_nsect o in
  let ntrak := fo_ntrak o in
  refuse (ntrak <=? 0) (refuse (nsect <=? 0)
  (refuse (INT32_MAX / MAXCPG <? ntrak * nsect) (
  let spc := ntrak * nsect in
  let bsize := fo_bsize o in
  let fsize := fo_fsize o in
  refuse (negb (POWEROF2 bsize)) (refuse (negb (POWEROF2 fsize))
  (refuse (fsize <? DEV_BSIZE) (refuse (bsize <? MINBSIZE) (refuse (bsize <? fsize) (
  let bshift := shift_of bsize in
  let fshift := shift_of fsize in
  let frag := Z.shiftr bsize fshift in
  let fragshift := shift_of frag in
  refuse (MAXFRAG <? frag) (
  let nspf := fsize / DEV_BSIZE in
  let sblkno := roundup (howmany (BBSIZE + SBSIZE) fsize) frag in
  let cblkno := sblkno + roundup (howmany SBSIZE fsize) frag in
  let iblkno := cblkno + frag in
  let cgoffset := roundup (howmany nsect (fsize / DEV_BSIZE)) frag in
  let cpc := pattern 32 (Z.shiftl nspf fragshift) spc in
  refuse (MAXCPG <? cpc)
  (Ok (Disk nsect ntrak spc bsize fsize bshift fshift frag fragshift (bsize / 4) (bsize / 128)
         nspf (shift_of nspf) sblkno cblkno iblkno cgoffset (cgmask_of ntrak) cpc))))))))))).

Definition NSPB (k : disk) : Z := Z.shiftl (k_nspf k) (k_fragshift k).
Definition MAXBPG (k : disk) : Z := Z.shiftr (NBBY * (k_bsize k - SIZEOF_CG)) (k_fragshift k).
Definition INOPF (k : disk) : Z := Z.shiftr (k_inopb k) (k_fragshift k).
Definition fragroundup (k : disk) (size : Z) : Z :=
  Z.land (size + k_fsize k - 1) (Z.lnot (k_fsize k - 1)).
Definition numfrags (k : disk) (loc : Z) : Z := Z.shiftr loc (k_fshift k).

(** ** Cylinders per group *)
Definition fpg_of (k : disk) (cpg : Z) : Z := cpg * k_spc k / k_nspf k.
Fixpoint shrink_cpg (fuel : nat) (k : disk) (cpg : Z) : Z :=
  match fuel with
  | O => cpg
  | S fuel =>
      if (MAXBPG k <? fpg_of k cpg / k_frag k) && (k_cpc k <? cpg)
      then shrink_cpg fuel k (cpg - k_cpc k) else cpg
  end.
Definition cpg_of (o : format_options) (k : disk) : result Z :=
  let cpg := if 0 <? fo_cpg o then fo_cpg o
             else shrink_cpg 32 k (Z.max (k_cpc k) DESCPG) in
  refuse (cpg <? 1) (refuse (MAXCPG <? cpg) (refuse (negb (cpg mod k_cpc k =? 0)) (Ok cpg))).

(** ** The rotational tables *)
Definition cbtocylno (k : disk) (bno : Z) : Z := bno * k_nspf k / k_spc k.
Definition cbtorpos (k : disk) (bno : Z) : Z :=
  bno * k_nspf k mod k_spc k mod k_nsect k * NRPOS / k_nsect k.
(** Whether the tables are kept, and for how many cylinders. *)
Definition table_cpc (k : disk) : Z :=
  if (k_ntrak k =? 1) || (MAXBPC * NSPB k <? k_spc k * k_cpc k) || (2 ^ NBBY * NSPB k <? k_nsect k)
  then 0 else k_cpc k.
Definition postbl_entry (k : disk) (i : Z) : Z :=
  FS_POSTBL_OFF + (cbtocylno k i * NRPOS + cbtorpos k i) * 2.
Definition table_step (k : disk) (t : buf) (blk : Z) : buf :=
  let i := blk * k_frag k in
  let head := read_be16 t (postbl_entry k i) in
  let t := upd t (FS_ROTBL_OFF + blk) (if head =? 0xffff then 0 else head - blk) in
  write_be16 t (postbl_entry k i) blk.
(** The superblock's bytes with the tables and nothing else. *)
Definition rotational_tables (k : disk) : buf :=
  if table_cpc k =? 0 then zeros
  else
    let t := fill zeros FS_POSTBL_OFF 255 (MAXCPG * NRPOS * 2) in
    let n := howmany (k_spc k * k_cpc k / k_nspf k) (k_frag k) in
    foldl (table_step k) t (rev (seqZ 0 n)).

(** ** Groups and inodes *)
Record plan := Plan {
  p_size : Z; p_ncyl : Z; p_ncg : Z; p_fpg : Z; p_cpg : Z; p_ipg : Z; p_dblkno : Z;
  p_cgsize : Z; p_cssize : Z; p_sbsize : Z;
}.
(** [cgdmin(c) - cgbase(c)] *)
Definition metadata_end (k : disk) (dblkno c : Z) : Z :=
  k_cgoffset k * Z.land c (not32 (k_cgmask k)) + dblkno.
Definition ipg_of (o : format_options) (k : disk) (size ncg : Z) : Z :=
  let per := if 0 <? fo_nbpi o then fo_nbpi o else Z.max NBPI (k_fsize k) in
  let i := k_iblkno k + MAXIPG / INOPF k in
  let inos := Z.quot (Z.quot ((size - ncg * i) * k_fsize k) per) (k_inopb k) in
  let inos := if inos <=? 0 then 1 else inos in
  let ipg := (inos / ncg + 1) * k_inopb k in
  if MAXIPG <? ipg then MAXIPG else ipg.
(** A last group that ends before its data begins is given up. *)
Definition trim_last (k : disk) (cpg fpg dblkno size ncyl ncg : Z) : Z * Z * Z :=
  let j := ncg - 1 in
  let i := size - j * fpg in
  if (i <? fpg) && (i <? metadata_end k dblkno j) then
    let ncyl := ncyl - ncyl mod cpg in
    (ncyl * k_spc k / k_nspf k, ncyl, ncg - 1)
  else (size, ncyl, ncg).

Definition plan_of (o : format_options) (k : disk) (cpg : Z) : result plan :=
  let fpg := fpg_of k cpg in
  let size := Z.shiftr (fo_size_1k_sectors o) (k_fsbtodb k) in
  let ncyl := howmany (size * k_nspf k) (k_spc k) in
  refuse (ncyl <? 1) (refuse (MAXBPG k * NSPB k <? k_spc k)
  (refuse (MAXBPG k * k_frag k <? fpg) (
  let cgsize := fragroundup k (SIZEOF_CG + howmany fpg NBBY) in
  let ncg := howmany ncyl cpg in
  refuse (negb ((k_spc k * cpg) mod k_nspf k =? 0)) (
  let ipg := ipg_of o k size ncg in
  let dblkno := k_iblkno k + ipg / INOPF k in
  refuse (fpg <=? metadata_end k dblkno (Z.min (not32 (k_cgmask k)) (ncg - 1))) (
  let '(size, ncyl, ncg) := trim_last k cpg fpg dblkno size ncyl ncg in
  let cssize := fragroundup k (ncg * SIZEOF_CSUM) in
  let sbsize := fragroundup k (SIZEOF_FS + howmany (k_spc k * table_cpc k) (NSPB k)) in
  refuse ((ncg <? 1) || (MAXCSBUFS * k_bsize k <? cssize)) (
  refuse ((Z.min fpg size <?
             roundup (dblkno + howmany cssize (k_fsize k)) (k_frag k) + 2 * k_frag k) ||
          (ipg <? 4))
  (Ok (Plan size ncyl ncg fpg cpg ipg dblkno cgsize cssize sbsize)))))))).

(** ** The superblock, before the groups are made *)
Definition minfree_of (o : format_options) : Z :=
  if (0 <=? fo_minfree o) && (fo_minfree o <=? 99) then fo_minfree o else MINFREE.
Definition new_superblock (o : format_options) (k : disk) (p : plan) : superblock := {|
  sb_off := k_sblkno k; cg_off := k_cblkno k; ino_off := k_iblkno k; data_off := p_dblkno p;
  cg_delta := k_cgoffset k; cg_cyc_mask := k_cgmask k; write_time := 0;
  frag_count := p_size p; data_frag_count := 0; cg_count := p_ncg p;
  block_size := k_bsize k; frag_size := k_fsize k; frags_per_block := k_frag k;
  minfree := minfree_of o; rotdelay := ROTDELAY; rps := fo_rps o;
  block_mask := not32 (k_bsize k - 1); frag_mask := not32 (k_fsize k - 1);
  block_shift := k_bshift k; frag_shift_calc := k_fshift k;
  maxcontig := 1; maxbpg := k_fsize k / 4; frag_shift := k_fragshift k; fsbtodb := k_fsbtodb k;
  super_size := p_sbsize p;
  csum_mask := not32 (k_bsize k / SIZEOF_CSUM - 1); csum_shift := shift_of (k_bsize k / SIZEOF_CSUM);
  nindir := k_nindir k; inodes_per_block := k_inopb k; sectors_per_frag := k_nspf k;
  optim := if fo_opt o =? 115 then 1 else 0;
  cyl_summary_addr := p_dblkno p; csum_size := p_cssize p; cg_size := p_cgsize p;
  tracks_per_cyl := k_ntrak k; sectors_per_track := k_nsect k; sectors_per_cyl := k_spc k;
  ncyl := p_ncyl p; cpg := p_cpg p; inodes_per_group := p_ipg p; frags_per_group := p_fpg p;
  dir_count := 0; free_block_count := 0; free_inode_count := 0; free_frag_count := 0;
  sb_state := 1; fs_magic := UFS_FS_MAGIC;
|}.

(** [nextufs_format] as far as [validate_only] goes; the calloc of the summaries is in
    Format. *)
Definition format_plan (o : format_options) : result (disk * plan * superblock) :=
  refuse ((match fo_target o with None => true | Some _ => false end) ||
          (fo_size_1k_sectors o =? 0) || (INT32_MAX <? fo_size_1k_sectors o)) (
  refuse (negb (fo_force_size o) && (FORMAT_COMPAT_MAX_SECTORS <? fo_size_1k_sectors o)) (
  match disk_of o with
  | Err e => Err e
  | Ok k =>
      match cpg_of o k with
      | Err e => Err e
      | Ok cpg =>
          match plan_of o k cpg with
          | Err e => Err e
          | Ok p => Ok (k, p, new_superblock o k p)
          end
      end
  end)).

(** The options nextufs_mkimg_main lets through. *)
Definition unsupported_geometry (o : format_options) : bool :=
  (fo_nsect o <=? 0) || (fo_ntrak o <=? 0) || (65535 <? fo_nsect o) || (65535 <? fo_ntrak o) ||
  (INT32_MAX <? fo_nsect o * fo_ntrak o) ||
  (negb (fo_bsize o =? 4096) && negb (fo_bsize o =? 8192)) || (fo_fsize o <? 1024) ||
  (fo_bsize o <? fo_fsize o) || negb (Z.land (fo_fsize o) (fo_fsize o - 1) =? 0) ||
  (8 <? fo_bsize o / fo_fsize o) || (fo_cpg o <? 0) || (32 <? fo_cpg o) ||
  (fo_minfree o <? 0) || (99 <? fo_minfree o) || (fo_rps o <=? 0) || (10000 <? fo_rps o) ||
  (fo_nbpi o <? 512).

(** ** The shifts *)
Lemma halvings_log2 n : forall i, 1 <= i < 2 ^ (Z.of_nat n + 1) -> halvings n i = Z.log2 i.
Proof.
  induction n as [|n IH]; intros i Hi; cbn [halvings].
  - assert (i = 1) as -> by lia. done.
  - destruct (Z.ltb_spec 1 i); [|by assert (i = 1) as -> by lia].
    rewrite Z.shiftr_div_pow2 by lia. change (2 ^ 1) with 2.
    replace (Z.of_nat (S n) + 1) with (Z.succ (Z.of_nat n + 1)) in Hi by lia.
    rewrite Z.pow_succ_r in Hi by lia.
    assert (1 <= i / 2) by (apply Z.div_le_lower_bound; lia).
    assert (i / 2 < 2 ^ (Z.of_nat n + 1)) by (apply Z.div_lt_upper_bound; lia).
    rewrite IH by lia. pose proof (Z.log2_shiftr i 1 ltac:(lia)) as Hl.
    rewrite Z.shiftr_div_pow2 in Hl by lia. change (2 ^ 1) with 2 in Hl.
    assert (1 <= Z.log2 i) by (apply Z.log2_le_pow2; lia). lia.
Qed.
Lemma shift_of_log2 i : 1 <= i < 2 ^ 32 -> shift_of i = Z.log2 i.
Proof. intros Hi. apply halvings_log2. lia. Qed.

(** The staggering mask is a run of low bits. *)
Lemma cgmask_low ntrak : 1 <= ntrak <= 65535 ->
  exists t, 0 <= t <= 17 /\ not32 (cgmask_of ntrak) = 2 ^ t - 1.
Proof.
  intros Hn. unfold cgmask_of. rewrite shift_of_log2 by lia.
  assert (Ht : 0 <= Z.log2 ntrak <= 15).
  { split; [apply Z.log2_nonneg|]. enough (Z.log2 ntrak < 16) by lia. apply Z.log2_lt_pow2; lia. }
  set (t := Z.log2 ntrak) in *.
  assert (H : forallb (fun t => (not32 (w32 (Z.shiftl 0xffffffff t)) =? 2 ^ t - 1) &&
    (not32 (w32 (Z.shiftl (w32 (Z.shiftl 0xffffffff t)) 1)) =? 2 ^ (t + 1) - 1)) (seqZ 0 16) = true)
    by (vm_compute; reflexivity).
  rewrite forallb_seqZ in H. specialize (H t ltac:(lia)).
  apply andb_true_iff in H as [H1%Z.eqb_eq H2%Z.eqb_eq].
  destruct (POWEROF2 ntrak); [exists t|exists (t + 1)]; (split; [lia|done]).
Qed.

(** ** What disk_of establishes *)
Definition shapes : list (Z * Z) :=
  [(4096, 1024); (4096, 2048); (4096, 4096); (8192, 1024); (8192, 2048); (8192, 4096); (8192, 8192)].
Lemma power_sizes f : 1024 <= f <= 8192 -> Z.land f (f - 1) = 0 ->
  f = 1024 \/ f = 2048 \/ f = 4096 \/ f = 8192.
Proof.
  intros Hf Hp.
  assert (H : forallb (fun f => negb (Z.land f (f - 1) =? 0) ||
    (f =? 1024) || (f =? 2048) || (f =? 4096) || (f =? 8192)) (seqZ 1024 7169) = true)
    by (vm_compute; reflexivity).
  rewrite forallb_forall in H. specialize (H f ltac:(apply list_elem_of_In, elem_of_seqZ; lia)).
  rewrite Hp in H. cbn [Z.eqb negb orb] in H. repeat rewrite orb_true_iff in H.
  rewrite !Z.eqb_eq in H. tauto.
Qed.
Lemma pattern_range n : forall cpc i, 1 <= cpc -> 1 <= pattern n cpc i <= cpc.
Proof.
  induction n as [|n IH]; intros cpc i Hc; cbn [pattern]; [lia|].
  destruct ((1 <? cpc) && _) eqn:E; [|lia]. apply andb_true_iff in E as [E%Z.ltb_lt _].
  rewrite Z.shiftr_div_pow2 by lia. change (2 ^ 1) with 2.
  assert (1 <= cpc / 2) by (apply Z.div_le_lower_bound; lia).
  pose proof (IH (cpc / 2) (Z.shiftr i 1) ltac:(lia)).
  pose proof (Z.div_le_upper_bound cpc 2 cpc ltac:(lia) ltac:(lia)). lia.
Qed.

Record disk_facts (o : format_options) (k : disk) : Prop := DiskFacts {
  df_tracks : k_nsect k = fo_nsect o /\ 1 <= k_nsect k <= 65535 /\ 1 <= k_ntrak k <= 65535;
  df_spc : k_spc k = k_ntrak k * k_nsect k /\ k_spc k <= INT32_MAX / 32;
  df_shape : In (k_bsize k, k_fsize k) shapes;
  df_frag : k_frag k = k_bsize k / k_fsize k;
  df_shifts : k_bshift k = Z.log2 (k_bsize k) /\ k_fshift k = Z.log2 (k_fsize k) /\
              k_fragshift k = Z.log2 (k_frag k);
  df_nspf : k_nspf k = k_fsize k / 1024 /\ k_fsbtodb k = Z.log2 (k_fsize k / 1024);
  df_per : k_nindir k = k_bsize k / 4 /\ k_inopb k = k_bsize k / 128;
  df_sblkno : k_sblkno k * k_fsize k = 16384;
  df_cblkno : k_cblkno k * k_fsize k = 16384 + 8192;
  df_iblkno : k_iblkno k = k_cblkno k + k_frag k;
  df_cgoffset : k_cgoffset k = roundup (howmany (k_nsect k) (k_nspf k)) (k_frag k);
  df_mask : exists t, 0 <= t <= 17 /\ not32 (k_cgmask k) = 2 ^ t - 1;
  df_mask_range : 0 <= k_cgmask k < 2 ^ 32;
  df_cpc : 1 <= k_cpc k <= 32;
}.
Lemma refuse_ok {A} c (r : result A) a : refuse c r = Ok a -> c = false /\ r = Ok a.
Proof. unfold refuse. by destruct c. Qed.
Lemma ok_inj {A} (a b : A) : Ok a = Ok b -> a = b.
Proof. by intros [= ->]. Qed.
Ltac unrefuse H :=
  repeat match type of H with
         | refuse _ _ = Ok _ => apply refuse_ok in H as [? H]
         end.
Record supported (o : format_options) : Prop := Supported {
  su_nsect : 1 <= fo_nsect o <= 65535;
  su_ntrak : 1 <= fo_ntrak o <= 65535;
  su_shape : In (fo_bsize o, fo_fsize o) shapes;
  su_cpg : 0 <= fo_cpg o <= 32;
  su_minfree : 0 <= fo_minfree o <= 99;
  su_rps : 1 <= fo_rps o <= 10000;
  su_nbpi : 512 <= fo_nbpi o;
}.
Lemma supported_of o : unsupported_geometry o = false -> supported o.
Proof.
  intros Hs. unfold unsupported_geometry in Hs. split_orb Hs.
  assert (Hb : fo_bsize o = 4096 \/ fo_bsize o = 8192).
  { match goal with H : negb _ && negb _ = false |- _ => rename H into Hb end.
    apply andb_false_iff in Hb as [Hb|Hb]; apply negb_false_iff, Z.eqb_eq in Hb; auto. }
  bool_to_prop. constructor; try lia.
  assert (Hf : fo_fsize o = 1024 \/ fo_fsize o = 2048 \/ fo_fsize o = 4096 \/ fo_fsize o = 8192)
    by (apply power_sizes; [lia|done]).
  unfold shapes. destruct Hb as [Eb|Eb], Hf as [Ef|[Ef|[Ef|Ef]]]; rewrite Eb, Ef in *; cbn; tauto || lia.
Qed.

Lemma disk_of_facts o k : supported o -> disk_of o = Ok k -> disk_facts o k.
Proof.
  intros [Hn Ht Hsh _ _ _ _] Hd. unfold disk_of in Hd.
  unrefuse Hd. apply ok_inj in Hd. bool_to_prop.
  assert (Hcpc : 1 <= Z.shiftl (fo_fsize o / DEV_BSIZE)
    (shift_of (Z.shiftr (fo_bsize o) (shift_of (fo_fsize o))))).
  { unfold shapes in Hsh. cbn in Hsh. destruct_or! Hsh; injection Hsh as <- <- || done; vm_compute; discriminate. }
  pose proof (pattern_range 32 _ (fo_ntrak o * fo_nsect o) Hcpc).
  destruct (cgmask_low (fo_ntrak o) Ht) as (t & Ht' & Hm).
  assert (Hmask : 0 <= cgmask_of (fo_ntrak o) < 2 ^ 32).
  { unfold cgmask_of. cbv zeta. destruct (POWEROF2 (fo_ntrak o)); apply w32_range. }
  constructor; rewrite <- Hd; cbn [k_nsect k_ntrak k_spc k_bsize k_fsize k_bshift k_fshift k_frag
    k_fragshift k_nindir k_inopb k_nspf k_fsbtodb k_sblkno k_cblkno k_iblkno k_cgoffset k_cgmask k_cpc];
    try done; try (unfold MAXCPG in *; lia); try (by exists t); clear Hd;
    set (b := fo_bsize o) in *; set (f := fo_fsize o) in *; clearbody b f;
    cbn in Hsh; destruct_or! Hsh; (injection Hsh as <- <- || done); try reflexivity;
    split_and!; reflexivity.
Qed.

(** ** Arithmetic of the macros *)
Lemma howmany_bounds x y : 0 < y -> x <= howmany x y * y < x + y.
Proof.
  intros Hy. unfold howmany. pose proof (Z.div_mod (x + (y - 1)) y ltac:(lia)).
  pose proof (Z.mod_pos_bound (x + (y - 1)) y Hy). nia.
Qed.
Lemma howmany_unique x y q : 0 < y -> (q - 1) * y < x <= q * y -> howmany x y = q.
Proof. intros Hy Hq. pose proof (howmany_bounds x y Hy). nia. Qed.
Lemma howmany_nonneg x y : 0 < y -> 0 <= x -> 0 <= howmany x y.
Proof. intros Hy Hx. pose proof (howmany_bounds x y Hy). nia. Qed.

Section disk.
Context (o : format_options) (k : disk) (D : disk_facts o k).
Local Abbreviation frag := (k_frag k).
Local Abbreviation fsize := (k_fsize k).

(** The numbers that depend on the block and fragment sizes only. *)
Record disk_nums : Prop := DiskNums {
  dn_bsize : k_bsize k = 4096 \/ k_bsize k = 8192;
  dn_frag : In frag block_sizes;
  dn_block : fsize * frag = k_bsize k;
  dn_fsize : fsize = 1024 \/ fsize = 2048 \/ fsize = 4096 \/ fsize = 8192;
  dn_fshift : 2 ^ k_fshift k = fsize /\ 0 <= k_fshift k <= 13;
  dn_bshift : 2 ^ k_bshift k = k_bsize k /\ 0 <= k_bshift k <= 13;
  dn_fragshift : 2 ^ k_fragshift k = frag /\ 0 <= k_fragshift k <= 3;
  dn_nspf : k_nspf k * 1024 = fsize /\ 2 ^ k_fsbtodb k = k_nspf k /\ 0 <= k_fsbtodb k <= 3;
  dn_nindir : k_nindir k * 4 = k_bsize k;
  dn_inopb : k_inopb k * 128 = k_bsize k;
  dn_INOPF : INOPF k * 128 = fsize;
  dn_NSPB : NSPB k * 1024 = k_bsize k;
  dn_MAXBPG : MAXBPG k * frag = 8 * (k_bsize k - SIZEOF_CG);
  dn_sblkno : k_sblkno k * fsize = 16384;
  dn_cblkno : k_cblkno k * fsize = 16384 + 8192;
  dn_iblkno : k_iblkno k * fsize = 16384 + 8192 + k_bsize k;
  dn_super : k_sblkno k mod frag = 0 /\ k_iblkno k mod frag = 0;
}.
Lemma disk_numbers : disk_nums.
Proof.
  destruct D as [_ _ Hsh Hf (Hb & Hfs & Hgs) [Hn Hn'] [Hi Hp] Hs Hc Hi' _ _ _ _].
  assert (Hpos : 0 < fsize).
  { clear -Hsh. cbn in Hsh. destruct_or! Hsh; (injection Hsh as _ <- || done); lia. }
  assert (Hs' : k_sblkno k = 16384 / fsize) by (apply Z.div_unique_exact; lia).
  assert (Hc' : k_cblkno k = 24576 / fsize) by (apply Z.div_unique_exact; lia).
  rewrite Hf in Hgs. rewrite Hc', Hf in Hi'.
  constructor; unfold INOPF, NSPB, MAXBPG; rewrite ?Hb, ?Hfs, ?Hgs, ?Hn, ?Hn', ?Hi, ?Hp, ?Hs', ?Hc', ?Hi', ?Hf;
    clear -Hsh; generalize (k_bsize k), (k_fsize k), Hsh; intros b f Hs; cbn in Hs;
    destruct_or! Hs; (injection Hs as <- <- || done); vm_compute; auto 6;
    repeat split; discriminate || done.
Qed.

Lemma fragroundup_howmany x : fragroundup k x = howmany x fsize * fsize.
Proof.
  destruct disk_numbers as [_ _ _ _ [Hf Hf'] _ _ _ _ _ _ _ _ _ _ _ _].
  unfold fragroundup, howmany. rewrite <- Hf.
  replace (2 ^ k_fshift k - 1) with (Z.ones (k_fshift k)) by (rewrite Z.ones_equiv; lia).
  rewrite <- Z.ldiff_land, Z.ldiff_ones_r, Z.shiftl_mul_pow2, Z.shiftr_div_pow2 by lia.
  by replace (x + 2 ^ k_fshift k - 1) with (x + Z.ones (k_fshift k)) by (rewrite Z.ones_equiv; lia).
Qed.

(** ** Cylinders *)
Lemma shrink_cpg_range n : forall c, k_cpc k <= c -> c mod k_cpc k = 0 ->
  k_cpc k <= shrink_cpg n k c <= c /\ shrink_cpg n k c mod k_cpc k = 0.
Proof.
  pose proof (df_cpc _ _ D) as Hc.
  induction n as [|n IH]; intros c Hle Hm; cbn [shrink_cpg]; [lia|].
  destruct (_ && _) eqn:E; [|lia]. apply andb_true_iff in E as [_ E%Z.ltb_lt].
  assert (Hm' : (c - k_cpc k) mod k_cpc k = 0).
  { replace (c - k_cpc k) with (c + (-1) * k_cpc k) by lia. by rewrite Z.mod_add by lia. }
  assert (k_cpc k <= c - k_cpc k).
  { pose proof (Z.div_mod c (k_cpc k) ltac:(lia)) as Hq. rewrite Hm, Z.add_0_r in Hq.
    assert (1 < c / k_cpc k) by (apply Z.nle_gt; intros ?; nia). nia. }
  pose proof (IH (c - k_cpc k) ltac:(lia) Hm'). lia.
Qed.
Lemma cpg_of_facts c : cpg_of o k = Ok c -> 1 <= c <= 32.
Proof. unfold cpg_of. intros H. unrefuse H. apply ok_inj in H as <-. bool_to_prop. unfold MAXCPG in *. lia. Qed.
End disk.

(** ** What plan_of establishes *)
(** The number of inodes in a group. *)
Lemma ipg_of_facts o k size ncg : disk_facts o k -> 1 <= ncg ->
  0 < ipg_of o k size ncg <= 2048 /\ ipg_of o k size ncg mod k_inopb k = 0.
Proof.
  intros D Hn. destruct (disk_numbers o k D) as [Hb _ _ _ _ _ _ _ _ Hi _ _ _ _ _ _ _].
  assert (Hinopb : k_inopb k = 32 \/ k_inopb k = 64) by lia.
  unfold ipg_of. cbv zeta. set (inos := Z.quot _ (k_inopb k)). unfold MAXIPG.
  set (inos' := if inos <=? 0 then 1 else inos).
  assert (1 <= inos') by (unfold inos'; destruct (Z.leb_spec inos 0); lia).
  assert (0 <= inos' / ncg) by (apply Z.div_pos; lia).
  destruct (Z.ltb_spec 2048 ((inos' / ncg + 1) * k_inopb k)).
  - split; [lia|]. by destruct Hinopb as [-> | ->].
  - split; [nia|]. apply Z.mod_mul. lia.
Qed.

Record plan_facts (o : format_options) (k : disk) (p : plan) : Prop := PlanFacts {
  pf_cpg : 1 <= p_cpg p <= 32;
  pf_fpg : p_fpg p * k_nspf k = p_cpg p * k_spc k /\ 0 < p_fpg p /\
           p_fpg p <= 8 * (k_bsize k - SIZEOF_CG);
  pf_ipg : 4 <= p_ipg p <= 2048 /\ p_ipg p mod k_inopb k = 0;
  pf_dblkno : p_dblkno p * k_fsize k = 16384 + 8192 + k_bsize k + p_ipg p * 128;
  pf_size : 0 < p_size p;
  pf_ncyl : (p_ncyl p - 1) * k_spc k < p_size p * k_nspf k <= p_ncyl p * k_spc k;
  pf_bound : p_ncyl p * k_spc k < fo_size_1k_sectors o + k_spc k;
  pf_ncg : 1 <= p_ncg p /\ (p_ncg p - 1) * p_cpg p < p_ncyl p;
  pf_device : p_ncyl p <= p_ncg p * p_cpg p ->
    p_size p * k_fsize k <= fo_size_1k_sectors o * 1024;
  pf_stagger : forall c, 0 <= c < p_ncg p -> metadata_end k (p_dblkno p) c <= p_fpg p;
  pf_last : metadata_end k (p_dblkno p) (p_ncg p - 1) + (p_ncg p - 1) * p_fpg p <= p_size p;
  pf_cgsize : SIZEOF_CG + howmany (p_fpg p) 8 <= p_cgsize p <= k_bsize k;
  pf_cssize : p_cssize p = howmany (p_ncg p * 16) (k_fsize k) * k_fsize k /\
              p_cssize p <= 32 * k_bsize k;
  pf_sbsize : 1380 <= p_sbsize p <= 8192;
  pf_room : roundup (p_dblkno p + howmany (p_cssize p) (k_fsize k)) (k_frag k) + 2 * k_frag k <=
            Z.min (p_fpg p) (p_size p);
}.

(** The staggering of a group grows with the low bits of its number. *)
Lemma stagger_le o k c n (mask := not32 (k_cgmask k)) : disk_facts o k -> 0 <= c <= n ->
  Z.land c mask <= Z.land (Z.min mask n) mask.
Proof.
  intros D Hc. destruct (df_mask _ _ D) as (t & Ht & Hm). fold mask in Hm.
  assert (Hl : forall x, Z.land x mask = x mod 2 ^ t).
  { intros x. rewrite Hm. replace (2 ^ t - 1) with (Z.ones t) by (rewrite Z.ones_equiv; lia).
    apply Z.land_ones. lia. }
  assert (0 < 2 ^ t) by (apply Z.pow_pos_nonneg; lia).
  rewrite !Hl. destruct (Z.le_ge_cases mask n).
  - rewrite Z.min_l, (Z.mod_small mask) by lia. pose proof (Z.mod_pos_bound c (2 ^ t) ltac:(lia)). lia.
  - rewrite Z.min_r, (Z.mod_small n) by lia.
    pose proof (Z.mod_le c (2 ^ t) ltac:(lia) ltac:(lia)). lia.
Qed.

Lemma trim_last_facts k cpg fpg dblkno size ncyl ncg size' ncyl' ncg' :
  trim_last k cpg fpg dblkno size ncyl ncg = (size', ncyl', ncg') ->
  (size', ncyl', ncg') = (size, ncyl, ncg) /\
    (fpg <= size - (ncg - 1) * fpg \/ metadata_end k dblkno (ncg - 1) <= size - (ncg - 1) * fpg) \/
  ncyl' = ncyl - ncyl mod cpg /\ size' = ncyl' * k_spc k / k_nspf k /\ ncg' = ncg - 1 /\
    size - (ncg - 1) * fpg < fpg.
Proof.
  unfold trim_last. cbv zeta.
  destruct (Z.ltb_spec (size - (ncg - 1) * fpg) fpg);
    destruct (Z.ltb_spec (size - (ncg - 1) * fpg) (metadata_end k dblkno (ncg - 1)));
    cbn [andb]; intros [= <- <- <-]; auto; try tauto; try lia.
Qed.

(** The one product of the plan that the sectors asked for do not bound. *)
Lemma trim_product k cpg fpg dblkno size ncg size' ncyl' ncg'
    (ncyl := howmany (size * k_nspf k) (k_spc k)) :
  0 < k_spc k -> 0 < cpg -> 0 <= size * k_nspf k ->
  trim_last k cpg fpg dblkno size ncyl ncg = (size', ncyl', ncg') ->
  ncyl' * k_spc k < size * k_nspf k + k_spc k.
Proof.
  intros Hs Hc Hn. pose proof (howmany_bounds (size * k_nspf k) (k_spc k) Hs) as Hb. fold ncyl in Hb.
  assert (0 <= ncyl) by by apply howmany_nonneg.
  pose proof (Z.mod_pos_bound ncyl cpg Hc).
  unfold trim_last. cbv zeta. destruct (_ && _); intros [= _ <- _]; nia.
Qed.

(** Sizes and cylinders, in whole numbers: as counted, or with the last group given up. *)
Record cylinder_facts (nspf spc cpg fpg size0 size ncyl ncg ncg0 : Z) : Prop := CylinderFacts {
  cf_size : 0 < size;
  cf_ncyl : (ncyl - 1) * spc < size * nspf <= ncyl * spc;
  cf_ncg : 1 <= ncg <= ncg0 /\ (ncg - 1) * cpg < ncyl;
  cf_bound : ncyl * spc < size0 * nspf + spc;
  cf_device : ncyl <= ncg * cpg -> size <= size0;
}.
Lemma counted_cylinders nspf spc cpg fpg size0 (ncyl0 := howmany (size0 * nspf) spc)
    (ncg0 := howmany ncyl0 cpg) :
  0 < nspf -> 0 < spc -> 0 < cpg -> 1 <= ncyl0 ->
  cylinder_facts nspf spc cpg fpg size0 size0 ncyl0 ncg0 ncg0.
Proof.
  intros Hn Hs Hc H1. pose proof (howmany_bounds (size0 * nspf) spc Hs) as B1. fold ncyl0 in B1.
  pose proof (howmany_bounds ncyl0 cpg Hc) as B2. fold ncg0 in B2.
  assert (0 < size0) by (apply Z.nle_gt; intros ?; nia).
  assert (1 <= ncg0) by nia. constructor; try done; nia.
Qed.
Lemma trimmed_cylinders nspf spc cpg fpg size0 (ncyl0 := howmany (size0 * nspf) spc)
    (ncg0 := howmany ncyl0 cpg) (ncyl := ncyl0 - ncyl0 mod cpg) (size := ncyl * spc / nspf) :
  0 < nspf -> 0 < spc -> 0 < cpg -> fpg * nspf = cpg * spc -> 1 <= ncg0 - 1 ->
  cylinder_facts nspf spc cpg fpg size0 size ncyl (ncg0 - 1) ncg0 /\ (ncg0 - 1) * fpg <= size.
Proof.
  intros Hn Hs Hc Hf H1. pose proof (howmany_bounds (size0 * nspf) spc Hs) as B1. fold ncyl0 in B1.
  pose proof (howmany_bounds ncyl0 cpg Hc) as B2. fold ncg0 in B2.
  pose proof (Z.div_mod ncyl0 cpg ltac:(lia)) as D. pose proof (Z.mod_pos_bound ncyl0 cpg Hc) as R.
  set (q := ncyl0 / cpg) in *. assert (Hncyl : ncyl = q * cpg) by (unfold ncyl; lia).
  assert (Hsize : size = q * fpg).
  { unfold size. rewrite Hncyl. replace (q * cpg * spc) with (q * fpg * nspf) by nia.
    apply Z.div_mul. lia. }
  assert (Hq : ncg0 - 1 <= q) by (apply Z.nlt_ge; intros ?; nia).
  assert (0 < fpg) by (apply Z.nle_gt; intros ?; nia).
  rewrite Hncyl, Hsize. split; [|nia]. constructor; [nia|nia|nia|nia|]. intros Hle.
  assert (q <= ncg0 - 1) by nia. assert (q * fpg * nspf < size0 * nspf) by nia. nia.
Qed.

Lemma howmany_mult x y m : 0 < y -> m mod y = 0 -> x <= m -> howmany x y * y <= m.
Proof.
  intros Hy Hm Hx. pose proof (Z.div_mod m y ltac:(lia)) as D. rewrite Hm, Z.add_0_r in D.
  pose proof (howmany_bounds x y Hy). set (h := howmany x y) in *. set (q := m / y) in *.
  assert (h <= q) by (apply Z.nlt_ge; intros ?; nia). nia.
Qed.

(** The rotational table fits behind the superblock's fields. *)
Lemma table_room o k : disk_facts o k ->
  0 <= howmany (k_spc k * table_cpc k) (NSPB k) <= MAXBPC.
Proof.
  intros D. destruct (disk_numbers o k D) as [N1 _ _ _ _ _ _ _ _ _ _ N13 _ _ _ _ _].
  pose proof (df_cpc _ _ D). pose proof (df_tracks _ _ D). pose proof (df_spc _ _ D) as [Hs _].
  assert (0 < NSPB k) by lia. unfold table_cpc.
  destruct (_ || _) eqn:E.
  - rewrite Z.mul_0_r. by rewrite (howmany_unique 0 (NSPB k) 0) by lia.
  - apply orb_false_iff in E as [[_ E]%orb_false_iff _]. bool_to_prop.
    assert (0 <= k_spc k * k_cpc k) by nia. split; [by apply howmany_nonneg|].
    pose proof (howmany_bounds (k_spc k * k_cpc k) (NSPB k) ltac:(lia)).
    unfold MAXBPC, SBSIZE, SIZEOF_FS in *. nia.
Qed.

Lemma format_plan_of_facts o k cpg p : supported o -> disk_facts o k -> 1 <= cpg <= 32 ->
  0 < fo_size_1k_sectors o -> plan_of o k cpg = Ok p -> plan_facts o k p.
Proof.
  intros S D Hcpg Hsz Hp. destruct (disk_numbers o k D) as [N1 N2 N3 N4 _ _ N7 [N8 [N9 N9']] _ N11 N12 N13 N14 _ N16 N17 _].
  pose proof (df_tracks _ _ D) as (_ & T1 & T2). pose proof (df_spc _ _ D) as [T3 T4].
  assert (Hspc : 0 < k_spc k) by nia. assert (Hnspf : 0 < k_nspf k) by lia.
  unfold plan_of in Hp. cbv zeta in Hp.
  set (size0 := Z.shiftr (fo_size_1k_sectors o) (k_fsbtodb k)) in *.
  set (ncyl0 := howmany (size0 * k_nspf k) (k_spc k)) in *. set (ncg0 := howmany ncyl0 cpg) in *.
  set (ipg := ipg_of o k size0 ncg0) in *. set (dblkno := k_iblkno k + ipg / INOPF k) in *.
  unrefuse Hp. destruct (trim_last _ _ _ _ _ _ _) as [[size ncyl] ncg] eqn:Et. unrefuse Hp.
  apply ok_inj in Hp.
  repeat match goal with H : _ || _ = false |- _ => apply orb_false_iff in H as [? ?] end. bool_to_prop.
  assert (Hfpg : fpg_of k cpg * k_nspf k = cpg * k_spc k).
  { unfold fpg_of. pose proof (Z.div_mod (cpg * k_spc k) (k_nspf k) ltac:(lia)).
    rewrite (Z.mul_comm (k_spc k)) in *. lia. }
  set (fpg := fpg_of k cpg) in *.
  assert (Hn0 : 1 <= ncg0) by (pose proof (howmany_bounds ncyl0 cpg ltac:(lia)) as B; fold ncg0 in B; nia).
  destruct (ipg_of_facts o k size0 ncg0 D Hn0) as [Hi Him]. fold ipg in Hi, Him.
  assert (Hdb : dblkno * k_fsize k = 16384 + 8192 + k_bsize k + ipg * 128).
  { assert (Hinopb : k_inopb k = INOPF k * k_frag k) by nia. assert (0 < INOPF k) by lia.
    assert (0 < k_frag k) by (pose proof (block_size_pos _ N2); lia).
    pose proof (Z.div_mod ipg (k_inopb k) ltac:(nia)) as Q. rewrite Him, Z.add_0_r, Hinopb in Q.
    assert (Q' : ipg / INOPF k = k_frag k * (ipg / (INOPF k * k_frag k))).
    { rewrite Q at 1. rewrite <- Z.mul_assoc, Z.mul_comm. apply Z.div_mul. lia. }
    unfold dblkno. rewrite Z.mul_add_distr_r, Q'. nia. }
  assert (Hmend : forall c, 0 <= c < ncg0 -> metadata_end k dblkno c < fpg).
  { intros c Hc. pose proof (stagger_le o k c (ncg0 - 1) D ltac:(lia)).
    assert (0 <= k_cgoffset k).
    { rewrite (df_cgoffset _ _ D). unfold roundup. pose proof (block_size_pos _ N2).
      apply Z.mul_nonneg_nonneg; [|lia]. apply howmany_nonneg; [lia|]. apply howmany_nonneg; lia. }
    unfold metadata_end in *. nia. }
  assert (Hcyl : cylinder_facts (k_nspf k) (k_spc k) cpg fpg size0 size ncyl ncg ncg0 /\
    metadata_end k dblkno (ncg - 1) + (ncg - 1) * fpg <= size).
  { apply trim_last_facts in Et as [[E Hl]|(E1 & E2 & E3 & _)].
    - apply pair_equal_spec in E as [E E3]. apply pair_equal_spec in E as [E1 E2].
      rewrite E1, E2, E3. split; [by apply counted_cylinders; lia|]. pose proof (Hmend (ncg0 - 1) ltac:(lia)). lia.
    - rewrite E1 in E2. rewrite E1, E2, E3 in *. destruct (trimmed_cylinders (k_nspf k) (k_spc k) cpg fpg size0) as [Hf Hl]; try lia; try done.
      split; [done|]. pose proof (Hmend (ncg0 - 1 - 1) ltac:(lia)). fold ncyl0 ncg0 in Hl. lia. }
  destruct Hcyl as [[C1 C2 [C3 C3'] Cb C4] Hlast].
  assert (Hsize0 : size0 * k_nspf k <= fo_size_1k_sectors o).
  { unfold size0. rewrite Z.shiftr_div_pow2, N9 by lia.
    pose proof (Z.mul_div_le (fo_size_1k_sectors o) (k_nspf k) ltac:(lia)). lia. }
  assert (Hmod : forall m, In m [k_bsize k; 8192; 32 * k_bsize k] -> m mod k_fsize k = 0).
  { pose proof (df_shape _ _ D) as Hs. clear -Hs. unfold shapes in Hs. cbn in Hs.
    destruct_or! Hs; (injection Hs as <- <- || done); intros m Hm; cbn in Hm; destruct_or! Hm; by subst. }
  rewrite <- Hp; constructor; cbn [p_size p_ncyl p_ncg p_fpg p_cpg p_ipg p_dblkno p_cgsize p_cssize p_sbsize]; try done.
  - split_and!; [done| |by rewrite <- N14]. apply Z.nle_gt. intros ?. nia.
  - split; [lia|done].
  - lia.
  - intros Hn. apply C4 in Hn. nia.
  - intros c Hc. pose proof (Hmend c ltac:(lia)). lia.
  - rewrite (fragroundup_howmany o k D). unfold NBBY.
    pose proof (howmany_bounds fpg 8 ltac:(lia)). unfold SIZEOF_CG in *.
    pose proof (howmany_bounds (988 + howmany fpg 8) (k_fsize k) ltac:(lia)). split; [lia|].
    apply howmany_mult; [lia|apply Hmod; cbn; auto|lia].
  - unfold SIZEOF_CSUM, MAXCSBUFS in *. by rewrite (fragroundup_howmany o k D) in *.
  - assert (HT : 0 <= howmany (k_spc k * table_cpc k) (NSPB k) <= MAXBPC) by exact (table_room o k D).
    rewrite (fragroundup_howmany o k D). unfold MAXBPC, SBSIZE, SIZEOF_FS in *.
    pose proof (howmany_bounds (1380 + howmany (k_spc k * table_cpc k) (NSPB k)) (k_fsize k) ltac:(lia)).
    split; [lia|]. apply howmany_mult; [lia|apply Hmod; cbn; auto|lia].
Qed.
