(* ===== verification/Format.v ===== *)
(** * Formatting: the groups, the first directories, the writes

    format_fsinit.c and format_io.c of src/src/mkimg_format, and the part of
    [nextufs_format] that writes.  [struct cg] and the summaries are kept in the byte
    order of the disk, so that the swapping of format_io.c happens in their accessors.
    An [Err] is the exit status 1, by a refusal or by [format_abort]. *)
From S2P Require Import Prelude.
From S2P Require Import Bytes.
From S2P Require Import Backend.
From S2P Require Import Superblock.
From S2P Require Import Image.
From S2P Require Import Inode.
From S2P Require Import CylGroup.
From S2P Require Import FormatPlan.

Definition CG_CGX_OFF : Z := 12.
Definition CG_NCYL_OFF : Z := 16.
Definition CG_NIBLK_OFF : Z := 18.
Definition CG_FROTOR_OFF : Z := 44.
Definition ROOTINO : Z := 2.
Definition LOSTFOUNDINO : Z := 3.
Definition PREDEFDIR : Z := 3.
Definition DIRBLKSIZ : Z := 1024.
Definition SBLOCK : Z := 8.
Definition IFDIR : Z := 0x4000.
Definition UMASK : Z := 0x1ed.

(** ** Blocks of the free map *)
(** The byte of block [h] and the bits of the block in it, by fragments per block. *)
Definition block_mask_of (frag h : Z) : option (Z * Z) :=
  if frag =? 8 then Some (h, 0xff)
  else if frag =? 4 then Some (Z.shiftr h 1, Z.shiftl 0x0f (Z.shiftl (Z.land h 1) 2))
  else if frag =? 2 then Some (Z.shiftr h 2, Z.shiftl 0x03 (Z.shiftl (Z.land h 3) 1))
  else if frag =? 1 then Some (Z.shiftr h 3, Z.shiftl 0x01 (Z.land h 7))
  else None.
Definition isblock (frag : Z) (cp : buf) (h : Z) : bool :=
  match block_mask_of frag h with
  | Some (i, mask) => Z.land (cp i) mask =? mask
  | None => false
  end.
Definition clrblock (frag : Z) (b : buf) (h : Z) : buf :=
  match block_mask_of frag h with
  | Some (i, mask) => upd b (CG_FREE_OFF + i) (Z.land (b (CG_FREE_OFF + i)) (w8 (Z.lnot mask)))
  | None => b
  end.
Definition setblock (frag : Z) (b : buf) (h : Z) : buf :=
  match block_mask_of frag h with
  | Some (i, mask) => upd b (CG_FREE_OFF + i) (Z.lor (b (CG_FREE_OFF + i)) mask)
  | None => b
  end.

(** ** The superblock on the disk *)
Definition superblock_fields (s : superblock) (cpc : Z) : list (Z * Z) :=
  [(0x08, sb_off s); (0x0c, cg_off s); (0x10, ino_off s); (0x14, data_off s);
   (0x18, cg_delta s); (0x1c, cg_cyc_mask s); (0x20, write_time s); (0x24, frag_count s);
   (0x28, data_frag_count s); (0x2c, cg_count s); (0x30, block_size s); (0x34, frag_size s);
   (0x38, frags_per_block s); (0x3c, minfree s); (0x40, rotdelay s); (0x44, rps s);
   (0x48, block_mask s); (0x4c, frag_mask s); (0x50, block_shift s); (0x54, frag_shift_calc s);
   (0x58, maxcontig s); (0x5c, maxbpg s); (0x60, frag_shift s); (0x64, fsbtodb s);
   (0x68, super_size s); (0x6c, csum_mask s); (0x70, csum_shift s); (0x74, nindir s);
   (0x78, inodes_per_block s); (0x7c, sectors_per_frag s); (0x80, optim s);
   (0x98, cyl_summary_addr s); (0x9c, csum_size s); (0xa0, cg_size s); (0xa4, tracks_per_cyl s);
   (0xa8, sectors_per_track s); (0xac, sectors_per_cyl s); (0xb0, ncyl s); (0xb4, cpg s);
   (0xb8, inodes_per_group s); (0xbc, frags_per_group s); (0xc0, dir_count s);
   (0xc4, free_block_count s); (0xc8, free_inode_count s); (0xcc, free_frag_count s);
   (0x358, cpc); (0x55c, fs_magic s)].
Definition encode_superblock (s : superblock) (cpc : Z) (tables : buf) : buf :=
  upd (foldr (fun x b => write_be32 b (fst x) (snd x)) tables (superblock_fields s cpc))
    0xd1 (sb_state s).

(** What [struct nextufs_format] holds besides the plan: the group header, the summaries,
    and the counts of the superblock. *)
Record format := Fmt {
  m_acg : buf; m_csums : buf;
  m_ndir : Z; m_nbfree : Z; m_nifree : Z; m_nffree : Z; m_dsize : Z;
}.
Definition with_acg (m : format) (b : buf) : format :=
  Fmt b (m_csums m) (m_ndir m) (m_nbfree m) (m_nifree m) (m_nffree m) (m_dsize m).

Section format.
Variable (o : format_options) (k : disk) (p : plan) (s : superblock) (utime : Z).
Local Abbreviation M := (M (world file)).
Local Abbreviation frag := (k_frag k).

(** ** Transfers *)
Definition disk_offset (bno : Z) : Z := fo_base_offset o + bno * DEV_BSIZE.
Definition rdfs (bno size : Z) : M buf :=
  let! '(n, b) := lift (pread size (disk_offset bno)) in
  if n =? size then ret b else fail EIO.
Definition wtfs (bno size : Z) (b : buf) : M unit :=
  if fo_dry_run o then ret tt
  else
    let! n := lift (pwrite b size (disk_offset bno)) in
    if n =? size then ret tt else fail EIO.
Definition fsbtodb_ (b : Z) : Z := Z.shiftl b (k_fsbtodb k).

(** ** Addresses *)
Definition cgbase (c : Z) : Z := p_fpg p * c.
Definition cgstart_ (c : Z) : Z := cgbase c + k_cgoffset k * Z.land c (not32 (k_cgmask k)).
Definition cgsblock (c : Z) : Z := cgstart_ c + k_sblkno k.
Definition cgtod (c : Z) : Z := cgstart_ c + k_cblkno k.
Definition cgimin (c : Z) : Z := cgstart_ c + k_iblkno k.
Definition cgdmin (c : Z) : Z := cgstart_ c + p_dblkno p.
Definition itod (ino : Z) : Z :=
  cgimin (ino / p_ipg p) + Z.shiftl (ino mod p_ipg p / k_inopb k) (k_fragshift k).
Definition itoo (ino : Z) : Z := ino mod k_inopb k.

Definition write_superblock (bno : Z) (sb : superblock) : M unit :=
  wtfs bno SBSIZE (encode_superblock sb (table_cpc k) (rotational_tables k)).
Definition write_csum_block (bno size : Z) (cs : buf) : M unit := wtfs bno size cs.
Definition write_cg_block (bno : Z) (cg : buf) : M unit := wtfs bno (k_bsize k) cg.
Definition write_inode_block (bno count : Z) (dp : buf) : M unit :=
  malloc (count * 128) ;;; wtfs bno (count * 128) dp.
Definition write_dir_block (bno size : Z) (b : buf) : M unit := wtfs bno size b.
(** The header read in place of the old one's first bytes. *)
Definition read_cg_block (bno : Z) (cg : buf) : M buf :=
  let! b := rdfs bno (p_cgsize p) in ret (blit cg 0 b (p_cgsize p)).
Definition read_inode_block (bno : Z) : M buf := rdfs bno (k_bsize k).

(** ** initcg *)
Definition group_size (c : Z) : Z := Z.min (cgbase c + p_fpg p) (p_size p) - cgbase c.
Definition group_ncyl (c : Z) : Z := if c =? p_ncg p - 1 then p_ncyl p mod p_cpg p else p_cpg p.
Definition zero_words (b : buf) (off n : Z) : buf :=
  foldl (fun b i => write_be32 b (off + i * 4) 0) b (seqZ 0 n).
Definition header_fields (b : buf) (c : Z) : buf :=
  let b := write_be32 b CG_TIME_OFF utime in
  let b := write_be32 b CG_MAGIC_OFF CG_MAGIC in
  let b := write_be32 b CG_CGX_OFF c in
  let b := write_be16 b CG_NCYL_OFF (group_ncyl c) in
  let b := write_be16 b CG_NIBLK_OFF (p_ipg p) in
  let b := write_be32 b CG_NDBLK_OFF (group_size c) in
  let b := write_be32 b CG_CS_NDIR_OFF 0 in
  let b := write_be32 b CG_CS_NFFREE_OFF 0 in
  let b := write_be32 b CG_CS_NBFREE_OFF 0 in
  let b := write_be32 b CG_CS_NIFREE_OFF 0 in
  let b := write_be32 b CG_ROTOR_OFF 0 in
  let b := write_be32 b CG_FROTOR_OFF 0 in
  let b := write_be32 b CG_IROTOR_OFF 0 in
  zero_words b CG_FRSUM_OFF frag.

Definition clear_bits_from (b : buf) (off i n : Z) : buf :=
  foldl (fun b i => bit_clear b off i) b (seqZ i n).
Definition inode_chunk (b : buf) (q : Z) : buf :=
  add_be32 (clear_bits_from b CG_IUSED_OFF (q * k_inopb k) (k_inopb k)) CG_CS_NIFREE_OFF (k_inopb k).
Definition reserve_inode (b : buf) (i : Z) : buf :=
  add_be32 (bit_set b CG_IUSED_OFF i) CG_CS_NIFREE_OFF (-1).
Definition inode_map (b : buf) (c : Z) : buf :=
  let chunks := howmany (p_ipg p) (k_inopb k) in
  let b := foldl inode_chunk b (seqZ 0 chunks) in
  let '(b, i) := if c =? 0 then (foldl reserve_inode b (seqZ 0 ROOTINO), ROOTINO)
                 else (b, chunks * k_inopb k) in
  clear_bits_from b CG_IUSED_OFF i (MAXIPG - i).
Definition position_tables (b : buf) : buf :=
  fill b CG_BTOT_OFF 0 (MAXCPG * 4 + MAXCPG * NRPOS * 2).

(** The block totals by cylinder and position. *)
Definition count_position (b : buf) (d delta : Z) : buf :=
  let cylno := cbtocylno k d in
  let b := add_be32 b (CG_BTOT_OFF + cylno * 4) delta in
  let at_ := CG_BPOS_OFF + (cylno * NRPOS + cbtorpos k d) * 2 in
  write_be16 b at_ (read_be16 b at_ + delta).
Definition free_block (b : buf) (h : Z) : buf :=
  count_position (add_be32 (setblock frag b h) CG_CS_NBFREE_OFF 1) (h * frag) 1.
Definition free_frag (b : buf) (i : Z) : buf :=
  add_be32 (bit_set b CG_FREE_OFF i) CG_CS_NFFREE_OFF 1.
Definition clear_blocks (b : buf) (h n : Z) : buf := foldl (clrblock frag) b (seqZ h n).

(** Where the data of a group begins: behind its inodes, in the first group behind the
    summary area too. *)
Definition data_begin (c : Z) : Z :=
  cgdmin c - cgbase c + (if c =? 0 then howmany (p_cssize p) (k_fsize k) else 0).
Definition data_lower (c : Z) : Z := cgsblock c - cgbase c.
(** The first blocks of the parts of the map: up to the superblock copy, up to the data,
    up to the last whole block. *)
Definition h_lower (c : Z) : Z := howmany (data_lower c) frag.
Definition h_data (c : Z) : Z := Z.max (h_lower c) (howmany (data_begin c) frag).
Definition h_whole (c : Z) : Z := Z.max (h_data c) (group_size c / frag).
Definition h_end (c : Z) : Z :=
  if h_whole c * frag <? group_size c then h_whole c + 1 else h_whole c.
Definition free_map (b : buf) (c : Z) : buf :=
  let b := if c =? 0 then clear_blocks b 0 (h_lower c)
           else foldl free_block b (seqZ 0 (h_lower c)) in
  let b := clear_blocks b (h_lower c) (h_data c - h_lower c) in
  let d := h_data c * frag in
  let b := if data_begin c <? d then
             foldl free_frag (add_be32 b (CG_FRSUM_OFF + (d - data_begin c) * 4) 1)
               (rev (seqZ (data_begin c) (d - data_begin c)))
           else b in
  let b := foldl free_block b (seqZ (h_data c) (h_whole c - h_data c)) in
  let d := h_whole c * frag in
  let b := if d <? group_size c then
             let b := add_be32 b (CG_FRSUM_OFF + (group_size c - d) * 4) 1 in
             let b := foldl free_frag b (seqZ d (group_size c - d)) in
             clear_bits_from b CG_FREE_OFF (group_size c) (h_end c * frag - group_size c)
           else b in
  clear_blocks b (h_end c) (MAXBPG k - h_end c).

Definition group_header (b : buf) (c : Z) : buf :=
  free_map (position_tables (inode_map (header_fields b c) c)) c.
Definition count_group (m : format) (b : buf) (c : Z) : format :=
  Fmt b (blit (m_csums m) (c * SIZEOF_CSUM) (slice b CG_CS_NDIR_OFF) SIZEOF_CSUM)
    (m_ndir m + read_be32 b CG_CS_NDIR_OFF) (m_nbfree m + read_be32 b CG_CS_NBFREE_OFF)
    (m_nifree m + read_be32 b CG_CS_NIFREE_OFF) (m_nffree m + read_be32 b CG_CS_NFFREE_OFF)
    (m_dsize m + (if c =? 0 then 0 else data_lower c) + (group_size c - data_begin c)).
Definition initcg (c : Z) (m : format) : M format :=
  write_inode_block (fsbtodb_ (cgimin c)) (p_ipg p) zeros ;;;
  let b := group_header (m_acg m) c in
  write_cg_block (fsbtodb_ (cgtod c)) b ;;;
  ret (count_group m b c).

(** ** The first directories *)
Definition put_dirent (b : buf) (dst ino reclen namlen : Z) (nm : list Z) : buf :=
  let b := fill b dst 0 reclen in
  let b := write_be32 b dst ino in
  let b := write_be16 b (dst + 4) reclen in
  let b := write_be16 b (dst + 6) namlen in
  blit b (dst + 8) (fun i => nth (Z.to_nat i) nm 0) namlen.
Definition DIRSIZ (namlen : Z) : Z := 8 + Z.land (namlen + 1 + 3) (Z.lnot 3).
(** All entries but the last take what they need, the last one the rest. *)
Fixpoint put_entries (b : buf) (cp spcleft : Z) (entries : list (Z * list Z)) : buf :=
  match entries with
  | [] => b
  | [(ino, nm)] => put_dirent b cp ino spcleft (Z.of_nat (length nm)) nm
  | (ino, nm) :: rest =>
      let namlen := Z.of_nat (length nm) in
      let reclen := DIRSIZ namlen in
      put_entries (put_dirent b cp ino reclen namlen nm) (cp + reclen) (spcleft - reclen) rest
  end.
Definition makedir (entries : list (Z * list Z)) : buf := put_entries zeros 0 DIRBLKSIZ entries.
Definition NAME_LOST_FOUND : list Z := [108; 111; 115; 116; 43; 102; 111; 117; 110; 100].
Definition root_dir : list (Z * list Z) :=
  [(ROOTINO, [46]); (ROOTINO, [46; 46]); (LOSTFOUNDINO, NAME_LOST_FOUND)].
Definition lost_found_dir : list (Z * list Z) :=
  [(LOSTFOUNDINO, [46]); (ROOTINO, [46; 46])].

(** One more directory or none, blocks and fragments moved, in the header, the totals
    and the summary of the first group. *)
Definition count_alloc (m : format) (b : buf) (ndir nbfree nifree nffree : Z) : format :=
  let cs := m_csums m in
  let cs := add_be32 cs 0 ndir in
  let cs := add_be32 cs 4 nbfree in
  let cs := add_be32 cs 8 nifree in
  let cs := add_be32 cs 12 nffree in
  Fmt b cs (m_ndir m + ndir) (m_nbfree m + nbfree) (m_nifree m + nifree) (m_nffree m + nffree)
    (m_dsize m).
(** The header when block [h] is taken, its last [nffree] fragments given back. *)
Definition alloc_header (b : buf) (h size ndir nffree : Z) : buf :=
  let d := h * frag in
  let b := add_be32 (clrblock frag b h) CG_CS_NBFREE_OFF (-1) in
  let b := add_be32 b CG_CS_NDIR_OFF ndir in
  let b := count_position b d (-1) in
  if size =? k_bsize k then b
  else
    let b := add_be32 b CG_CS_NFFREE_OFF nffree in
    let b := add_be32 b (CG_FRSUM_OFF + nffree * 4) 1 in
    foldl (fun b i => bit_set b CG_FREE_OFF (d + i)) b (seqZ (frag - nffree) nffree).
Definition alloc (m : format) (size mode : Z) : M (Z * format) :=
  let! b := read_cg_block (fsbtodb_ (cgtod 0)) (m_acg m) in
  if negb (read_be32 b CG_MAGIC_OFF =? CG_MAGIC) || (read_be32 b CG_CS_NBFREE_OFF =? 0)
  then ret (0, with_acg m b)
  else
    match find (isblock frag (slice b CG_FREE_OFF)) (seqZ 0 (howmany (read_be32 b CG_NDBLK_OFF) frag)) with
    | None => ret (0, with_acg m b)
    | Some h =>
        let ndir := if Z.land mode IFDIR =? 0 then 0 else 1 in
        let nffree := if size =? k_bsize k then 0 else frag - howmany size (k_fsize k) in
        let b := alloc_header b h size ndir nffree in
        write_cg_block (fsbtodb_ (cgtod 0)) b ;;;
        ret (h * frag, count_alloc m b ndir (-1) 0 nffree)
    end.

Definition iput (m : format) (number : Z) (ino : inode) : M format :=
  let! b := read_cg_block (fsbtodb_ (cgtod 0)) (m_acg m) in
  fail_if (negb (read_be32 b CG_MAGIC_OFF =? CG_MAGIC)) EIO ;;;
  let b := bit_set (add_be32 b CG_CS_NIFREE_OFF (-1)) CG_IUSED_OFF number in
  write_cg_block (fsbtodb_ (cgtod 0)) b ;;;
  let m := count_alloc m b 0 0 (-1) 0 in
  fail_if (p_ipg p * p_ncg p <=? number) EIO ;;;
  let d := fsbtodb_ (itod number) in
  let! block := read_inode_block d in
  write_inode_block d (k_inopb k) (blit block (itoo number * 128) (encode_inode ino) 128) ;;;
  ret m.

Definition dir_inode (nlink size db0 : Z) : inode :=
  Inode (Z.lor IFDIR UMASK) nlink 0 0 size utime utime utime
    (db0 :: replicate 11 0) (replicate 3 0) 0 (Z.shiftr (fragroundup k size) 10) 0.
Definition fsinit (m : format) : M format :=
  let b := makedir lost_found_dir in
  let b := foldl (fun b i => put_dirent b (i * DIRBLKSIZ) 0 DIRBLKSIZ 0 []) b
             (seqZ 1 (howmany (k_bsize k) DIRBLKSIZ - 1)) in
  let! '(db0, m) := alloc m (k_bsize k) (Z.lor IFDIR UMASK) in
  write_dir_block (fsbtodb_ db0) (k_bsize k) b ;;;
  let! m := iput m LOSTFOUNDINO (dir_inode 2 (k_bsize k) db0) in
  let b := makedir root_dir in
  let! '(db0, m) := alloc m (k_fsize k) (Z.lor IFDIR UMASK) in
  write_dir_block (fsbtodb_ db0) (k_fsize k) b ;;;
  iput m ROOTINO (dir_inode PREDEFDIR DIRBLKSIZ db0).

(** ** What nextufs_format writes *)
Definition final_superblock (m : format) : superblock :=
  Superblock (sb_off s) (cg_off s) (ino_off s) (data_off s) (cg_delta s)
    (cg_cyc_mask s) utime (frag_count s) (m_dsize m) (cg_count s)
    (block_size s) (frag_size s) (frags_per_block s) (minfree s) (rotdelay s)
    (rps s) (block_mask s) (frag_mask s) (block_shift s) (frag_shift_calc s)
    (maxcontig s) (maxbpg s) (frag_shift s) (fsbtodb s) (super_size s)
    (csum_mask s) (csum_shift s) (nindir s) (inodes_per_block s)
    (sectors_per_frag s) (optim s) (cyl_summary_addr s) (csum_size s) (cg_size s)
    (tracks_per_cyl s) (sectors_per_track s) (sectors_per_cyl s) (ncyl s) (cpg s)
    (inodes_per_group s) (frags_per_group s) (m_ndir m) (m_nbfree m) (m_nifree m) (m_nffree m)
    (sb_state s) (fs_magic s).
Definition write_summaries (m : format) : M unit :=
  for_each (seqZ 0 (howmany (p_cssize p) (k_bsize k))) (fun q =>
    let i := q * k_bsize k in
    write_csum_block (fsbtodb_ (p_dblkno p + numfrags k i)) (Z.min (k_bsize k) (p_cssize p - i))
      (slice (m_csums m) i)).
Definition format_writes : M unit :=
  wtfs (fo_size_1k_sectors o - 1) DEV_BSIZE zeros ;;;
  let! m := fold_each (seqZ 0 (p_ncg p)) initcg (Fmt zeros zeros 0 0 0 0 0) in
  if fo_dry_run o then ret tt
  else
    let! m := fsinit m in
    let sb := final_superblock m in
    write_superblock SBLOCK sb ;;;
    write_summaries m ;;;
    for_each (seqZ 0 (p_ncg p)) (fun c => write_superblock (fsbtodb_ (cgsblock c)) sb).
End format.

(** [opens]: whether the target can be created or opened for writing, and for reading. *)
Definition nextufs_format (opens : bool * bool) (o : format_options) : M (world file) unit :=
  let! utime := time_now in
  let! '(k, p, s) := of_result (format_plan o) in
  malloc (p_cssize p) ;;;
  if fo_validate_only o then ret tt
  else
    fail_if (negb (fo_dry_run o) && negb (fst opens)) EINVAL ;;;
    (if fo_dry_run o || fo_no_create o then ret tt
     else lift (fun f => (Ok tt, File zeros 0 (f_script f) (f_sync f)))) ;;;
    fail_if (negb (snd opens)) EINVAL ;;;
    fail_if (p_size p <=? 0) EINVAL ;;;
    format_writes o k p s utime.
