(* ===== verification/FormatSuper.v ===== *)
(** * Formatting: the superblock that is written

    What [write_superblock] puts on the disk is what nextufs_image_open decodes, and when
    nextufs_image_validate accepts it. *)
From S2P Require Import Prelude.
From S2P Require Import Bytes.
From S2P Require Import Superblock.
From S2P Require Import CylGroup.
From S2P Require Import FormatPlan.
From S2P Require Import Format.

(** ** Reading the written fields back *)
(** The totals as the superblock holds them, modulo 2^32. *)
Definition wrapped (m : format) : format :=
  Fmt (m_acg m) (m_csums m) (w32 (m_ndir m)) (w32 (m_nbfree m)) (w32 (m_nifree m)) (w32 (m_nffree m))
    (m_dsize m).

(** Fields of four bytes that do not overlap. *)
Fixpoint spaced (offs : list Z) : bool :=
  match offs with
  | [] => true
  | off :: rest => forallb (fun o => (o + 4 <=? off) || (off + 4 <=? o)) rest && spaced rest
  end.
Lemma read_fields l : forall t off v, spaced (map fst l) = true -> In (off, v) l ->
  read_be32 (foldr (fun x b => write_be32 b (fst x) (snd x)) t l) off = w32 v.
Proof.
  induction l as [|[o' v'] l IH]; intros t off v Hs Hin; [done|].
  cbn [map spaced fst] in Hs. apply andb_true_iff in Hs as [Hf Hs]. cbn [foldr fst snd].
  destruct Hin as [[= -> ->]|Hin]; [apply read_write_be32|].
  rewrite read_be32_write_other; [by apply IH|].
  rewrite forallb_forall in Hf. specialize (Hf off). cbn in Hf.
  assert (Hin' : In off (map fst l)) by (apply in_map_iff; by exists (off, v)).
  apply Hf, orb_true_iff in Hin'. rewrite !Z.leb_le in Hin'. lia.
Qed.
Lemma encoded_field s cpc t off v : In (off, v) (superblock_fields s cpc) ->
  read_be32 (encode_superblock s cpc t) off = w32 v.
Proof.
  intros Hin. unfold encode_superblock. rewrite read_be32_upd_other.
  - by apply read_fields.
  - assert (Hf : forallb (fun o => (o + 4 <=? 0xd1) || (0xd1 <? o)) (map fst (superblock_fields s cpc)) = true)
      by reflexivity.
    rewrite forallb_forall in Hf. specialize (Hf off).
    assert (Hin' : In off (map fst (superblock_fields s cpc))) by (apply in_map_iff; by exists (off, v)).
    apply Hf, orb_true_iff in Hin'. rewrite Z.leb_le, Z.ltb_lt in Hin'. lia.
Qed.

(** Whatever tables lie between the fields, decoding gives the superblock again, its totals
    modulo 2^32. *)
Lemma decode_encode_superblock s utime m cpc t (f := final_superblock s utime (wrapped m)) :
  sb_wf f -> 0 <= fs_magic s < 2 ^ 32 ->
  decode_superblock (encode_superblock (final_superblock s utime m) cpc t) = f.
Proof.
  intros W Hm. transitivity (Superblock (sb_off f) (cg_off f) (ino_off f) (data_off f) (cg_delta f)
    (cg_cyc_mask f) (write_time f) (frag_count f) (data_frag_count f) (cg_count f)
    (block_size f) (frag_size f) (frags_per_block f) (minfree f) (rotdelay f)
    (rps f) (block_mask f) (frag_mask f) (block_shift f) (frag_shift_calc f)
    (maxcontig f) (maxbpg f) (frag_shift f) (fsbtodb f) (super_size f)
    (csum_mask f) (csum_shift f) (nindir f) (inodes_per_block f)
    (sectors_per_frag f) (optim f) (cyl_summary_addr f) (csum_size f) (cg_size f)
    (tracks_per_cyl f) (sectors_per_track f) (sectors_per_cyl f) (ncyl f) (cpg f)
    (inodes_per_group f) (frags_per_group f) (dir_count f) (free_block_count f)
    (free_inode_count f) (free_frag_count f) (sb_state f) (fs_magic f)); [|by destruct f].
  unfold decode_superblock.
  f_equal;
    first [ erewrite encoded_field by (cbn [In superblock_fields]; repeat first [left; reflexivity | right]);
            solve [apply w32_small; solve [assumption | by apply W] | reflexivity]
          | unfold encode_superblock; rewrite upd_same; apply Z.mod_small, W ].
Qed.

(** ** When it is accepted *)
(** What the options may still get wrong: room for the staggering of the largest number of
    groups, a signed 32-bit number of sectors, and groups for all cylinders. *)
Record fits (k : disk) (p : plan) : Prop := Fits {
  fit_stagger : k_cgoffset k * not32 (k_cgmask k) + p_dblkno p <= p_fpg p;
  fit_sectors : p_ncyl p * k_spc k <= INT32_MAX;
  fit_groups : p_ncyl p <= p_ncg p * p_cpg p;
}.
Definition fitsb (k : disk) (p : plan) : bool :=
  (k_cgoffset k * not32 (k_cgmask k) + p_dblkno p <=? p_fpg p) &&
  (p_ncyl p * k_spc k <=? INT32_MAX) && (p_ncyl p <=? p_ncg p * p_cpg p).
Lemma fitsb_spec k p : fitsb k p = true <-> fits k p.
Proof.
  unfold fitsb. rewrite !andb_true_iff, !Z.leb_le.
  split; [intros [[? ?] ?]; by constructor|intros [? ? ?]; auto].
Qed.

Section valid.
Context (o : format_options) (k : disk) (p : plan) (m : format) (utime base size : Z).
Hypothesis S : supported o.
Hypothesis D : disk_facts o k.
Hypothesis F : plan_facts o k p.
Hypothesis Hsectors : 0 < fo_size_1k_sectors o <= INT32_MAX.
Hypothesis Hbase : 0 <= base.
Hypothesis Hsize : fo_size_1k_sectors o * 1024 <= size.
Hypothesis Hdsize : 0 <= m_dsize m <= p_size p.
Local Abbreviation s := (final_superblock (new_superblock o k p) utime m).

(** The conditions that depend on the block and fragment sizes only. *)
Lemma shape_conditions :
  (32 <=? k_bshift k) || (32 <=? k_fshift k) || (32 <=? shift_of (k_bsize k / 16)) ||
  negb (Z.shiftl 1 (k_bshift k) =? k_bsize k) || negb (Z.shiftl 1 (k_fshift k) =? k_fsize k) ||
  negb (not32 (k_bsize k - 1) =? not32 (w32 (k_bsize k - 1))) ||
  negb (not32 (k_fsize k - 1) =? not32 (w32 (k_fsize k - 1))) ||
  negb (Z.shiftl 1 (shift_of (k_bsize k / 16)) =? k_bsize k / 16) ||
  negb (not32 (k_bsize k / 16 - 1) =? not32 (w32 (k_bsize k / 16 - 1))) ||
  (negb (k_nspf k =? k_fsize k / 1024) && negb (k_nspf k =? k_fsize k / 2048)) ||
  (k_inopb k =? 0) ||
  (k_bsize k <? 4096) || (8192 <? k_bsize k) || negb (Z.land (k_bsize k) (k_bsize k - 1) =? 0) ||
  (k_fsize k <? 1024) || (k_bsize k <? k_fsize k) || negb (Z.land (k_fsize k) (k_fsize k - 1) =? 0) ||
  negb (k_frag k =? k_bsize k / k_fsize k) || (8 <? k_frag k) || (3 <? k_fragshift k) ||
  negb (Z.shiftl 1 (k_fragshift k) =? k_frag k) || negb (k_inopb k =? k_bsize k / 128) ||
  negb (k_nindir k =? k_bsize k / 4) || (k_nspf k =? 0) || (16 <? k_nspf k) ||
  (4 <? k_fsbtodb k) || negb (Z.shiftl 1 (k_fsbtodb k) =? k_nspf k) = false /\
  w32 (32 * k_bsize k) = 32 * k_bsize k /\ 1 <= k_fsize k / 1024 /\ 0 < k_nspf k <= 8 /\
  k_nspf k * 1024 = k_fsize k.
Proof.
  destruct D as [_ _ Hsh Hf (Hb & Hfs & Hgs) [Hn Hn'] [Hi Hp] _ _ _ _ _ _ _].
  rewrite Hf in Hgs. rewrite Hb, Hfs, Hgs, Hn, Hn', Hi, Hp, Hf. clear -Hsh.
  generalize (k_bsize k), (k_fsize k), Hsh. intros b f Hs. unfold shapes in Hs. cbn in Hs.
  destruct_or! Hs; (injection Hs as <- <- || done); vm_compute; repeat split; discriminate.
Qed.

(** The counts against each other. *)
Record counts : Prop := Counts {
  ct_frag : 0 < k_frag k <= 8;
  ct_spc : 0 < k_spc k;
  ct_ipb : p_ipg p mod k_inopb k = 0;
  ct_fsize : 1024 <= k_fsize k <= k_bsize k /\ k_bsize k <= 8192;
  ct_ncg : 1 <= p_ncg p <= 16384 /\ p_cssize p <= 32 * k_bsize k /\ p_ncg p * 16 <= p_cssize p;
  ct_below : (p_ncg p - 1) * p_fpg p < p_size p;
  ct_dblkno : k_iblkno k < p_dblkno p < 2 ^ 16 /\
              p_dblkno p = k_iblkno k + (p_ipg p * 128 + k_fsize k - 1) / k_fsize k;
  ct_offsets : k_sblkno k <= k_cblkno k < k_iblkno k /\ 0 <= k_sblkno k;
  ct_delta : 0 <= k_cgoffset k < 2 ^ 17;
  ct_fpg : p_fpg p < 2 ^ 16;
}.
Lemma plan_counts : counts.
Proof.
  destruct (disk_numbers o k D) as [N1 N2 N3 N4 _ _ _ [N8 _] _ N11 _ _ _ N15 N16 N17 _].
  destruct F as [_ (F1 & F2 & F3) [F4 F5] Fd Fs Fy _ [Fg Fg'] _ _ _ _ [Fc Fc'] _ _].
  pose proof (df_tracks _ _ D) as (_ & T1 & T2). pose proof (df_spc _ _ D) as [T3 _].
  assert (Hfr : 0 < k_frag k <= 8).
  { pose proof (block_size_pos _ N2). split; [lia|]. apply Z.nlt_ge. intros ?. nia. }
  assert (Hf : 1024 <= k_fsize k <= k_bsize k) by nia.
  pose proof (howmany_bounds (p_ncg p * 16) (k_fsize k) ltac:(lia)) as Hh.
  assert (Hdb : k_fsize k * (p_dblkno p - k_iblkno k) = p_ipg p * 128) by nia.
  assert (0 < k_spc k) by nia. assert (Hp : 0 < k_nspf k) by lia.
  constructor; try done; try lia.
  - unfold SIZEOF_CG in *.
    assert ((p_ncg p - 1) * p_cpg p * k_spc k <= (p_ncyl p - 1) * k_spc k) by nia.
    apply (Z.mul_lt_mono_pos_r (k_nspf k)); [lia|]. rewrite <- Z.mul_assoc, F1, Z.mul_assoc. lia.
  - split.
    + split; [nia|]. apply Z.nle_gt. intros ?. nia.
    + assert (E : (p_ipg p * 128 + k_fsize k - 1) / k_fsize k = p_dblkno p - k_iblkno k).
      { symmetry. apply Z.div_unique with (k_fsize k - 1); lia. }
      lia.
  - rewrite (df_cgoffset _ _ D). unfold roundup.
    pose proof (howmany_bounds (k_nsect k) (k_nspf k) Hp) as B1.
    pose proof (howmany_bounds (howmany (k_nsect k) (k_nspf k)) (k_frag k) ltac:(lia)) as B2.
    assert (0 <= howmany (k_nsect k) (k_nspf k)) by (apply howmany_nonneg; lia).
    assert (howmany (k_nsect k) (k_nspf k) <= 65536) by nia. lia.
  - unfold SIZEOF_CG in *. lia.
Qed.

Lemma formatted_shapes : bad_shapes s = false <-> fits k p.
Proof.
  destruct plan_counts as [C1 C2 C3 C4 C5 _ C7 _ C9 _]. destruct F as [F1 [F2 _] [F3 _] _ _ F4 _ [_ F5] F6 _ _ _ _ _ _].
  destruct shape_conditions as (Hc & _ & Hf & Hn & Hn'). split_orb Hc.
  unfold bad_shapes, final_superblock, new_superblock.
  cbn [fs_magic block_shift frag_shift_calc csum_shift block_size frag_size block_mask frag_mask csum_mask
    sectors_per_frag cpg sectors_per_cyl frags_per_group ncyl cg_count frag_count data_frag_count
    inodes_per_block inodes_per_group cg_delta cg_cyc_mask data_off].
  unfold SIZEOF_CSUM. rewrite Z.eqb_refl. cbn [negb].
  rewrite (w32_small (p_ncg p - 1)) by lia. split.
  - intros Hx. split_orb Hx. bool_to_prop. constructor; lia.
  - intros [Ha Hb Hg]. pose proof (F6 Hg) as Hdev.
    assert (p_ncg p * p_ipg p <= 16384 * 2048) by nia.
    assert (1 <= p_ncyl p) by nia.
    repeat first [assumption | apply orb_false_iff; split]; try (apply Z.ltb_ge; lia);
      try (apply Z.leb_gt; lia); try (apply Z.eqb_neq; lia);
      try (apply negb_false_iff, Z.eqb_eq; lia).
    + apply Z.ltb_ge. unfold INT32_MAX. lia.
    + apply Z.ltb_ge. rewrite <- Hn', Z.div_mul by lia. lia.
Qed.

Lemma formatted_sizes : fits k p -> bad_sizes s = false.
Proof.
  intros [_ _ Hg]. destruct plan_counts as [C1 C2 C3 C4 [C5 [C6 C7]] C8 [C9 C10] C11 _ C12].
  destruct F as [F1 [F2 [F3 F4]] [F5 _] _ F6 F7 _ _ _ _ _ F8 _ F9 _].
  destruct shape_conditions as (Hc & Hw & _ & Hn & Hn'). split_orb Hc.
  pose proof (df_tracks _ _ D) as (_ & T1 & _).
  assert (Hcount : p_ncg p = (p_size p + p_fpg p - 1) / p_fpg p).
  { apply Z.div_unique with (p_size p - (p_ncg p - 1) * p_fpg p - 1); [|lia].
    left. split; [lia|].
    assert (p_ncyl p * k_spc k <= p_ncg p * p_cpg p * k_spc k)
      by (apply Z.mul_le_mono_nonneg_r; lia).
    assert (p_size p * k_nspf k <= p_ncg p * p_fpg p * k_nspf k).
    { replace (p_ncg p * p_fpg p * k_nspf k) with (p_ncg p * (p_fpg p * k_nspf k)) by lia.
      rewrite F2. lia. }
    assert (p_size p <= p_ncg p * p_fpg p) by (apply (Z.mul_le_mono_pos_r _ _ (k_nspf k)); lia). lia. }
  assert (Hmap : (p_fpg p + 7) / 8 = howmany (p_fpg p) 8) by (unfold howmany; f_equal; lia).
  unfold bad_sizes, final_superblock, new_superblock.
  cbn [block_size frag_size frags_per_block frag_shift inodes_per_block nindir inodes_per_group
    frags_per_group frag_count cg_count cg_size super_size cpg sectors_per_cyl sectors_per_track
    sectors_per_frag fsbtodb csum_size cg_off sb_off ino_off data_off].
  unfold UFS_INODE_SIZE, CG_FREE_OFF, SIZEOF_CG in *.
  pose proof (howmany_nonneg (p_fpg p) 8 ltac:(lia) ltac:(lia)).
  rewrite Hw, Hmap, <- Hcount, Z.eqb_refl. clear Hcount Hmap Hw.
  repeat first [assumption | apply orb_false_iff; split]; try done;
    try (apply Z.ltb_ge; lia); try (apply Z.leb_gt; lia); try (apply Z.eqb_neq; lia).
Qed.

Lemma formatted_extent : fits k p -> bad_extent s base size = false.
Proof.
  intros [_ _ Hg]. destruct plan_counts as [C1 _ _ C4 C5 C8 [C9 _] C12 C10 C11].
  destruct F as [_ [_ [F0 _]] _ _ F1 _ _ _ F2 F3 F4 _ [F5 F6] _ F7]. apply F2 in Hg.
  unfold bad_extent, cgstart, final_superblock, new_superblock.
  cbn [frag_count frag_size cg_count data_off cyl_summary_addr csum_size frags_per_group cg_delta cg_cyc_mask].
  unfold metadata_end in F4. set (g := k_cgoffset k * Z.land _ _) in *.
  assert (0 <= g).
  { unfold g. apply Z.mul_nonneg_nonneg; [lia|]. apply Z.land_nonneg. lia. }
  assert (p_size p * k_fsize k <= INT32_MAX * 1024) by lia.
  assert (p_size p <= INT32_MAX) by (unfold INT32_MAX in *; nia).
  assert (0 <= p_fpg p * (p_ncg p - 1)) by nia.
  assert (0 <= k_iblkno k) by lia.
  rewrite (w64_small (p_fpg p * (p_ncg p - 1) + g)) by (unfold INT32_MAX in *; lia).
  rewrite w64_small by (unfold INT32_MAX in *; lia).
  assert (Hcs : howmany (p_cssize p) (k_fsize k) * k_fsize k = p_cssize p).
  { rewrite F5 at 1. unfold howmany at 1. rewrite Z.div_add_l by lia.
    rewrite Z.div_small by lia. lia. }
  assert (p_dblkno p + howmany (p_cssize p) (k_fsize k) <= p_size p).
  { unfold roundup in F7. pose proof (howmany_bounds (p_dblkno p + howmany (p_cssize p) (k_fsize k)) (k_frag k) ltac:(lia)). lia. }
  repeat (apply orb_false_iff; split); apply Z.ltb_ge; try lia; nia.
Qed.
End valid.


(** *** From the options *)
Lemma format_plan_facts o k p s : unsupported_geometry o = false ->
  0 <= fo_size_1k_sectors o -> format_plan o = Ok (k, p, s) ->
  supported o /\ disk_facts o k /\ plan_facts o k p /\ s = new_superblock o k p /\
  0 < fo_size_1k_sectors o <= INT32_MAX.
Proof.
  intros Hu H0 Hp. apply supported_of in Hu as S. unfold format_plan in Hp. unrefuse Hp.
  destruct (disk_of o) as [k'|] eqn:Ek; [|done]. destruct (cpg_of o k') as [c|] eqn:Ec; [|done].
  destruct (plan_of o k' c) as [p'|] eqn:Ep; [|done]. injection Hp as <- <- <-.
  pose proof (disk_of_facts o k' S Ek) as D. bool_to_prop.
  assert (Hs : 0 < fo_size_1k_sectors o <= INT32_MAX) by lia.
  split_and!; try done; try lia.
  by apply (format_plan_of_facts o k' c p' S D); [by apply (cpg_of_facts o k' )| lia|].
Qed.

Section wf.
Context (o : format_options) (k : disk) (p : plan) (m : format) (utime : Z).
Hypothesis S : supported o.
Hypothesis D : disk_facts o k.
Hypothesis F : plan_facts o k p.
Hypothesis Hsectors : 0 < fo_size_1k_sectors o <= INT32_MAX.
Hypothesis T : 0 <= m_dsize m <= p_size p.
Hypothesis Htime : 0 <= utime < 2 ^ 32.

Lemma shape_ranges : Forall (fun x => 0 <= x < 2 ^ 32)
  [k_bsize k; k_fsize k; k_bshift k; k_fshift k; k_frag k; k_fragshift k; k_nindir k; k_inopb k;
   k_nspf k; k_fsbtodb k; k_sblkno k; k_cblkno k; k_iblkno k; k_fsize k / 4;
   shift_of (k_bsize k / 16)].
Proof.
  destruct D as [_ _ Hsh Hf (Hb & Hfs & Hgs) [Hn Hn'] [Hi Hp] Hs Hc Hi' _ _ _ _].
  assert (Hpos : 0 < k_fsize k).
  { clear -Hsh. cbn in Hsh. destruct_or! Hsh; (injection Hsh as _ <- || done); lia. }
  assert (Hs' : k_sblkno k = 16384 / k_fsize k) by (apply Z.div_unique_exact; lia).
  assert (Hc' : k_cblkno k = 24576 / k_fsize k) by (apply Z.div_unique_exact; lia).
  rewrite Hf in Hgs. rewrite Hc', Hf in Hi'.
  rewrite ?Hb, ?Hfs, ?Hgs, ?Hn, ?Hn', ?Hi, ?Hp, ?Hs', ?Hc', ?Hi', ?Hf.
  clear -Hsh. generalize (k_bsize k), (k_fsize k), Hsh. intros b f Hs. unfold shapes in Hs. cbn in Hs.
  destruct_or! Hs; (injection Hs as <- <- || done);
    apply (bool_decide_unpack _); vm_compute; exact I.
Qed.

Lemma final_wf : sb_wf (final_superblock (new_superblock o k p) utime (wrapped m)).
Proof.
  destruct (plan_counts o k p) as [C1 C2 C3 C4 C5 C6 C7 C8 C9 C10]; try done.
  destruct F as [F1 F2 F3 F4 F5 F6 Fb F7 F8 F9 F10 F11 F12 F13 F14]. destruct S.
  pose proof (df_tracks _ _ D) as (_ & T1 & T2). pose proof (df_spc _ _ D) as [_ T3].
  pose proof (df_mask_range _ _ D) as Hm.
  assert (p_ncyl p * k_spc k < 2 ^ 32).
  { change (INT32_MAX / 32) with 67108863 in T3. clear -Fb T3 Hsectors. unfold INT32_MAX in *. lia. }
  assert (Hn : 0 < k_nspf k).
  { destruct (disk_numbers o k D) as [_ _ _ _ _ _ _ [? _] _ _ _ _ _ _ _ _ _]. lia. }
  assert (Hy : 0 < p_ncyl p) by (clear -F6 F5 Hn C2; nia).
  assert (p_size p <= p_size p * k_nspf k) by (clear -F5 Hn; nia).
  assert (p_ncyl p <= p_ncyl p * k_spc k) by (clear -C2 Hy; nia).
  pose proof shape_ranges as R. repeat (apply Forall_cons in R as [? R]).
  constructor; unfold final_superblock, new_superblock, wrapped;
   cbn [m_ndir m_nbfree m_nifree m_nffree m_dsize sb_off cg_off ino_off data_off cg_delta cg_cyc_mask write_time frag_count data_frag_count cg_count
    block_size frag_size frags_per_block minfree rotdelay rps block_mask frag_mask block_shift
    frag_shift_calc maxcontig maxbpg frag_shift fsbtodb super_size csum_mask csum_shift nindir
    inodes_per_block sectors_per_frag optim cyl_summary_addr csum_size cg_size tracks_per_cyl
    sectors_per_track sectors_per_cyl ncyl cpg inodes_per_group frags_per_group dir_count
    free_block_count free_inode_count free_frag_count sb_state]; try apply w32_range; try done; try lia.
  - unfold minfree_of. destruct (_ && _); lia || (split; [discriminate|done]).
  - by destruct (fo_opt o =? 115).
  - pose proof (howmany_nonneg (p_fpg p) 8 ltac:(lia) ltac:(lia)). unfold SIZEOF_CG in *. lia.
Qed.

(** What is written, read back, and when it is accepted. *)
Lemma written_decodes cpc t :
  decode_superblock (encode_superblock (final_superblock (new_superblock o k p) utime m) cpc t) =
  final_superblock (new_superblock o k p) utime (wrapped m).
Proof. apply decode_encode_superblock; [by apply final_wf|by split]. Qed.
Lemma written_valid base size
    (written := encode_superblock (final_superblock (new_superblock o k p) utime m) (table_cpc k)
      (rotational_tables k)) :
  0 <= base -> fo_size_1k_sectors o * 1024 <= size ->
  decode_superblock written = final_superblock (new_superblock o k p) utime (wrapped m) /\
  (image_validate (decode_superblock written) base size = Ok tt <-> fits k p).
Proof.
  intros Hb Hs. split; [apply written_decodes|]. unfold written. rewrite written_decodes.
  pose proof (T : 0 <= m_dsize (wrapped m) <= p_size p) as T'. unfold image_validate. split.
  - destruct (bad_shapes _ || bad_sizes _) eqn:Eb; [done|]. apply orb_false_iff in Eb as [Eb _].
    intros _. by eapply (formatted_shapes o k p (wrapped m) utime D F Hsectors), Eb.
  - intros Hf. rewrite (proj2 (formatted_shapes o k p (wrapped m) utime D F Hsectors T')) by done.
    rewrite (formatted_sizes o k p (wrapped m) utime) by done. cbn [orb].
    by rewrite (formatted_extent o k p (wrapped m) utime base size).
Qed.
End wf.

(** ** Property *)

(** C13. For options nextufs_mkimg_main supports and a format that passes every check of
    nextufs_format, the superblock written - whatever totals the groups gave it - is
    decoded again field by field, and nextufs_image_validate accepts it in a slice of the
    requested size exactly if three conditions hold that nextufs_format does not check: the
    full staggering fits in a group, the cylinders are at most 2^31 - 1 sectors, and the
    groups contain all cylinders. *)
Theorem formatted_superblock_valid o k p s m utime base size
    (written := encode_superblock (final_superblock s utime m) (table_cpc k) (rotational_tables k)) :
  unsupported_geometry o = false -> 0 <= fo_size_1k_sectors o -> format_plan o = Ok (k, p, s) ->
  0 <= m_dsize m <= p_size p -> 0 <= utime < 2 ^ 32 -> 0 <= base ->
  fo_size_1k_sectors o * 1024 <= size ->
  decode_superblock written = final_superblock s utime (wrapped m) /\
  (image_validate (decode_superblock written) base size = Ok tt <-> fits k p).
Proof.
  intros Hu H0 Hp T Ht Hb Hs. destruct (format_plan_facts _ _ _ _ Hu H0 Hp) as (S & D & F & -> & Hz).
  by apply written_valid.
Qed.

(** A filesystem of 400 KiB in two groups. *)
Definition small_options : format_options :=
  FormatOptions (Some [97]) 400 16 1 8192 1024 16 10 60 4096 116 false false true true 0.
Definition small_disk : disk :=
  Disk 16 1 16 8192 1024 13 10 8 3 2048 64 1 0 16 24 32 16 (2 ^ 32 - 1) 1.
Definition small_plan : plan := Plan 400 25 2 256 16 64 40 1024 1024 2048.
Lemma small_plan_ok :
  format_plan small_options = Ok (small_disk, small_plan, new_superblock small_options small_disk small_plan).
Proof. vm_compute. reflexivity. Qed.
Lemma formatted_superblock_valid_witness :
  image_validate (decode_superblock (encode_superblock (final_superblock
    (new_superblock small_options small_disk small_plan) 77 (Fmt zeros zeros 2 39 124 13 350))
    (table_cpc small_disk) (rotational_tables small_disk))) 0 (400 * 1024) = Ok tt /\
  fits small_disk small_plan.
Proof.
  assert (H : fits small_disk small_plan) by (apply fitsb_spec; vm_compute; reflexivity).
  split; [|exact H].
  apply (formatted_superblock_valid small_options small_disk small_plan
    (new_superblock small_options small_disk small_plan) (Fmt zeros zeros 2 39 124 13 350) 77 0 (400 * 1024)).
  - reflexivity.
  - cbn. lia.
  - exact small_plan_ok.
  - split; vm_compute; discriminate.
  - split; vm_compute; done.
  - lia.
  - cbn. lia.
  - exact H.
Defined.
