(* ===== verification/FormatGroups.v ===== *)
(** * Formatting: the group headers

    What [initcg] puts into the header of a group: a map with exactly the fragments before
    the superblock copy (not in the first group) and behind the metadata free, and counters
    that agree with it. *)
From S2P Require Import Prelude.
From S2P Require Import Bytes.
From S2P Require Import Superblock.
From S2P Require Import CylGroup.
From S2P Require Import Alloc.
From S2P Require Import GrowGroups.
From S2P Require Import FormatPlan.
From S2P Require Import Format.
From S2P Require Import FormatSuper.

(** ** Blocks of the map as bits *)
Lemma block_mask_shape f h : In f block_sizes -> 0 <= h ->
  block_mask_of f h = Some (h * f / 8, Z.shiftl (Z.ones f) (h * f mod 8)).
Proof.
  intros Hf Hh. unfold block_mask_of. cbn in Hf. destruct_or! Hf; subst f; cbn [Z.eqb Pos.eqb]; do 2 f_equal;
    rewrite ?Z.shiftr_div_pow2, ?Z.mul_1_r by lia; try done.
  - f_equal. change 7 with (Z.ones 3). by rewrite Z.land_ones by lia.
  - change (2 ^ 2) with 4. change 8 with (4 * 2). by rewrite Z.div_mul_cancel_r by lia.
  - f_equal. change 3 with (Z.ones 2). rewrite Z.land_ones, Z.shiftl_mul_pow2 by lia.
    change (2 ^ 2) with 4. change (2 ^ 1) with 2. change 8 with (4 * 2). by rewrite Z.mul_mod_distr_r by lia.
  - change (2 ^ 1) with 2. change 8 with (2 * 4). by rewrite Z.div_mul_cancel_r by lia.
  - f_equal. change 1 with (Z.ones 1) at 1. rewrite Z.land_ones, Z.shiftl_mul_pow2 by lia.
    change (2 ^ 1) with 2. change (2 ^ 2) with 4. change 8 with (2 * 4). by rewrite Z.mul_mod_distr_r by lia.
  - by rewrite Z.div_mul by lia.
  - by rewrite Z_mod_mult.
Qed.
Lemma mask_bit f e n : 0 < f -> 0 <= e -> 0 <= n ->
  Z.testbit (Z.shiftl (Z.ones f) e) n = (e <=? n) && (n <? e + f).
Proof.
  intros Hf He Hn. rewrite Z.shiftl_spec by done.
  destruct (Z.leb_spec e n); cbn [andb]; [|by rewrite Z.testbit_neg_r by lia].
  rewrite Z.testbit_ones_nonneg by lia. destruct (Z.ltb_spec (n - e) f), (Z.ltb_spec n (e + f)); done || lia.
Qed.
(** A block lies in one byte of the map. *)
Lemma block_in_byte f h j : In f block_sizes -> 0 <= h -> 0 <= j ->
  (j / 8 = h * f / 8 -> (h * f mod 8 <=? j mod 8) && (j mod 8 <? h * f mod 8 + f) =
                        (h * f <=? j) && (j <? h * f + f)) /\
  (j / 8 <> h * f / 8 -> (h * f <=? j) && (j <? h * f + f) = false).
Proof.
  intros Hf Hh Hj. pose proof (block_size_pos _ Hf).
  assert (Hr : h * f mod 8 + f <= 8).
  { cbn in Hf. destruct_or! Hf; subst f; try lia.
    - pose proof (Z.mod_pos_bound (h * 1) 8). lia.
    - change 8 with (4 * 2). rewrite Z.mul_mod_distr_r by lia. pose proof (Z.mod_pos_bound h 4). lia.
    - change 8 with (2 * 4). rewrite Z.mul_mod_distr_r by lia. pose proof (Z.mod_pos_bound h 2). lia.
    - rewrite Z_mod_mult. lia. }
  pose proof (Z.div_mod (h * f) 8 ltac:(lia)). pose proof (Z.div_mod j 8 ltac:(lia)).
  pose proof (Z.mod_pos_bound (h * f) 8 ltac:(lia)). pose proof (Z.mod_pos_bound j 8 ltac:(lia)).
  split; intros He.
  - lia.
  - lia.
Qed.

Definition in_block (f h j : Z) : bool := (h * f <=? j) && (j <? h * f + f).
Lemma setblock_bit f b h j : In f block_sizes -> 0 <= h -> 0 <= j ->
  bit_test (setblock f b h) CG_FREE_OFF j = in_block f h j || bit_test b CG_FREE_OFF j.
Proof.
  intros Hf Hh Hj. unfold setblock. rewrite block_mask_shape by done.
  destruct (block_in_byte f h j Hf Hh Hj) as [H1 H2]. pose proof (block_size_pos _ Hf).
  rewrite !bit_test_testbit. unfold in_block, upd.
  pose proof (Z.mod_pos_bound j 8 ltac:(lia)). pose proof (Z.mod_pos_bound (h * f) 8 ltac:(lia)).
  destruct (Z.eqb_spec (CG_FREE_OFF + j / 8) (CG_FREE_OFF + h * f / 8)).
  - assert (Heq : j / 8 = h * f / 8) by lia. rewrite w8_testbit, Z.lor_spec, mask_bit, H1, Heq by lia.
    apply orb_comm.
  - by rewrite H2 by lia.
Qed.
Lemma clrblock_bit f b h j : In f block_sizes -> 0 <= h -> 0 <= j ->
  bit_test (clrblock f b h) CG_FREE_OFF j = negb (in_block f h j) && bit_test b CG_FREE_OFF j.
Proof.
  intros Hf Hh Hj. unfold clrblock. rewrite block_mask_shape by done.
  destruct (block_in_byte f h j Hf Hh Hj) as [H1 H2]. pose proof (block_size_pos _ Hf).
  rewrite !bit_test_testbit. unfold in_block, upd.
  pose proof (Z.mod_pos_bound j 8 ltac:(lia)). pose proof (Z.mod_pos_bound (h * f) 8 ltac:(lia)).
  destruct (Z.eqb_spec (CG_FREE_OFF + j / 8) (CG_FREE_OFF + h * f / 8)).
  - assert (Heq : j / 8 = h * f / 8) by lia.
    rewrite w8_testbit, Z.land_spec, w8_testbit, Z.lnot_spec, mask_bit, H1, Heq by lia. apply andb_comm.
  - by rewrite H2 by lia.
Qed.
Lemma isblock_free f b h : In f block_sizes -> 0 <= h ->
  isblock f (slice b CG_FREE_OFF) h = block_is_free b (h * f) f.
Proof.
  intros Hf Hh. unfold isblock. rewrite block_mask_shape by done. pose proof (block_size_pos _ Hf).
  pose proof (Z.mod_pos_bound (h * f) 8 ltac:(lia)).
  apply Bool.eq_iff_eq_true. rewrite Z.eqb_eq. unfold block_is_free. rewrite forallb_seqZ.
  unfold slice. split.
  - intros E i Hi. rewrite bit_test_testbit.
    destruct (block_in_byte f h (h * f + i) Hf Hh ltac:(nia)) as [H1 H2].
    assert (Hin : (h * f <=? h * f + i) && (h * f + i <? h * f + f) = true)
      by (apply andb_true_iff; rewrite Z.leb_le, Z.ltb_lt; lia).
    destruct (decide ((h * f + i) / 8 = h * f / 8)) as [Eq|Ne]; [|by rewrite H2 in Hin].
    rewrite Hin in H1. specialize (H1 Eq). rewrite Eq.
    assert (E' : Z.testbit (Z.shiftl (Z.ones f) (h * f mod 8)) ((h * f + i) mod 8) = true)
      by (rewrite mask_bit; [done|lia|lia|apply Z.mod_pos_bound; lia]).
    rewrite <- E, Z.land_spec in E'. by apply andb_true_iff in E' as [? _].
  - intros Hall. apply Z.bits_inj'. intros n Hn. rewrite Z.land_spec, mask_bit by lia.
    destruct ((h * f mod 8 <=? n) && (n <? h * f mod 8 + f)) eqn:E; [|by rewrite andb_false_r].
    apply andb_true_iff in E as [E1%Z.leb_le E2%Z.ltb_lt]. rewrite andb_true_r.
    specialize (Hall (n - h * f mod 8) ltac:(lia)). rewrite bit_test_testbit in Hall.
    assert (Hr : n < 8).
    { destruct (block_in_byte f h (h * f + f - 1) Hf Hh ltac:(nia)) as [_ H2].
      destruct (decide ((h * f + f - 1) / 8 = h * f / 8)) as [Eq|Ne].
      - pose proof (Z.div_mod (h * f + f - 1) 8 ltac:(lia)). pose proof (Z.div_mod (h * f) 8 ltac:(lia)).
        pose proof (Z.mod_pos_bound (h * f + f - 1) 8 ltac:(lia)). lia.
      - specialize (H2 Ne). apply andb_false_iff in H2. rewrite Z.leb_gt, Z.ltb_ge in H2. lia. }
    pose proof (Z.div_mod (h * f) 8 ltac:(lia)).
    replace (h * f + (n - h * f mod 8)) with (n + (h * f / 8) * 8) in Hall by lia.
    rewrite Z.div_add, Z_mod_plus_full, (Z.div_small n), (Z.mod_small n) in Hall by lia. done.
Qed.

(** ** Loops over the map *)
Lemma foldl_seqZ_inv {A} (P : Z -> A -> Prop) (f : A -> Z -> A) lo n a : 0 <= n -> P lo a ->
  (forall i x, lo <= i < lo + n -> P i x -> P (i + 1) (f x i)) -> P (lo + n) (foldl f a (seqZ lo n)).
Proof.
  intros Hn Ha Hf. revert n Hn Hf. apply (natlike_ind (fun n => (forall i x, lo <= i < lo + n ->
    P i x -> P (i + 1) (f x i)) -> P (lo + n) (foldl f a (seqZ lo n)))).
  - intros _. by rewrite Z.add_0_r.
  - intros n Hn IH Hf. rewrite <- Z.add_1_r, seqZ_snoc, foldl_app by done. cbn [foldl].
    rewrite Z.add_assoc. apply Hf; [lia|]. apply IH. intros i x Hi. apply Hf. lia.
Qed.

Lemma clear_bits_spec off i n : 0 <= i -> 0 <= n -> forall b (b' := clear_bits_from b off i n),
  (wf_buf b -> wf_buf b') /\
  (forall j, bit_test b' off j = negb ((i <=? j) && (j <? i + n)) && bit_test b off j) /\
  (forall o, o < off \/ off + (i + n + 7) / 8 <= o -> b' o = b o).
Proof.
  intros Hi Hn b. cbv zeta. unfold clear_bits_from.
  enough (H : (fun e b' => (wf_buf b -> wf_buf b') /\
    (forall j, bit_test b' off j = negb ((i <=? j) && (j <? e)) && bit_test b off j) /\
    (forall o, o < off \/ off + (e + 7) / 8 <= o -> b' o = b o))
    (i + n) (foldl (fun b i => bit_clear b off i) b (seqZ i n))) by exact H.
  apply foldl_seqZ_inv; [done| |].
  - split_and!; [done| |done]. intros j. destruct (Z.leb_spec i j), (Z.ltb_spec j i); done || lia.
  - intros e x He (W & B & F). split_and!.
    + auto with bytes.
    + intros j. rewrite bit_test_clear, B, andb_assoc. f_equal. lia.
    + intros o Ho. pose proof (Z.div_pos e 8 ltac:(lia) ltac:(lia)).
      pose proof (Z.div_le_mono (e + 7) (e + 1 + 7) 8 ltac:(lia) ltac:(lia)).
      pose proof (Z.div_le_lower_bound (e + 1 + 7) 8 (e / 8 + 1) ltac:(lia)) as Hb.
      pose proof (Z.mul_div_le e 8 ltac:(lia)).
      rewrite bit_clear_out by lia. apply F. lia.
Qed.

(** Freeing single fragments, in any order. *)
Lemma free_frags_spec l : Forall (fun i => 0 <= i) l -> forall b (b' := foldl free_frag b l),
  wf_buf b ->
  wf_buf b' /\ (forall j, 0 <= j ->
    bit_test b' CG_FREE_OFF j = bool_decide (j ∈ l) || bit_test b CG_FREE_OFF j) /\
  read_be32 b' CG_CS_NFFREE_OFF = w32 (read_be32 b CG_CS_NFFREE_OFF + Z.of_nat (length l)) /\
  (forall o, o < CG_FREE_OFF -> ~ (36 <= o < 40) -> b' o = b o).
Proof.
  induction 1 as [|i l Hi Hl IH]; intros b b' Hb; unfold b'; cbn [foldl].
  - split_and!; [done|by intros|by rewrite Z.add_0_r, w32_small by by apply read_be32_range|done].
  - assert (Hw : wf_buf (free_frag b i)) by (unfold free_frag; auto with bytes).
    destruct (IH (free_frag b i) Hw) as (W & B & N & F). pose proof (Z.div_pos i 8 Hi ltac:(lia)).
    split_and!; [done| | |].
    + intros j Hj. rewrite B by done. unfold free_frag.
      rewrite (bit_test_high _ (bit_set b CG_FREE_OFF i)) by
        (done || intros o Ho; apply add_be32_out; unfold CG_FREE_OFF, CG_CS_NFFREE_OFF in *; lia).
      rewrite bit_test_set. destruct (decide (j = i)) as [->|Hne].
      * rewrite Z.eqb_refl, (bool_decide_eq_true_2 (i ∈ i :: l)) by by left. by rewrite orb_true_r.
      * rewrite (proj2 (Z.eqb_neq j i)) by done. cbn [orb]. f_equal.
        apply bool_decide_ext. rewrite elem_of_cons. tauto.
    + rewrite N. unfold free_frag. rewrite read_add_be32, w32_add_l.
      rewrite (read_be32_eq_on (bit_set b CG_FREE_OFF i) b).
      * f_equal. cbn [length]. lia.
      * intros o Ho. apply bit_set_out. unfold CG_FREE_OFF, CG_CS_NFFREE_OFF in *. lia.
    + intros o Ho Ho'. rewrite F by done. unfold free_frag.
      rewrite add_be32_out by (unfold CG_CS_NFFREE_OFF; lia). apply bit_set_out. lia.
Qed.

(** ** Building the map block by block *)
Section group.
Context (o : format_options) (k : disk) (p : plan) (mm : format) (utime : Z).
Hypothesis D : disk_facts o k.
Hypothesis F : plan_facts o k p.
Local Abbreviation s := (final_superblock (new_superblock o k p) utime mm).
Local Abbreviation frag := (k_frag k).

Lemma frag_sizes : In frag block_sizes.
Proof. apply (dn_frag _ (disk_numbers o k D)). Qed.
Lemma frag_pos : 1 <= frag <= 8.
Proof. apply block_size_pos, frag_sizes. Qed.

(** The first [n] blocks of the map are as [free] says and the counters count them; the
    rest of the header is that of [b0]. *)
Record built (free : Z -> bool) (b0 b : buf) (n : Z) : Prop := Built {
  bt_wf : wf_buf b;
  bt_bits : forall j, 0 <= j < n * frag -> bit_test b CG_FREE_OFF j = free j;
  bt_whole : read_be32 b CG_CS_NBFREE_OFF = tally whole_count s b n;
  bt_frags : read_be32 b CG_CS_NFFREE_OFF = tally frag_count_of s b n;
  bt_runs : forall j, 1 <= j < frag -> read_be32 b (CG_FRSUM_OFF + j * 4) = tally (run_count j) s b n;
  bt_frame : forall x, x < CG_FREE_OFF -> ~ (28 <= x < 32) -> ~ (36 <= x < 40) -> ~ (56 <= x < 84) ->
    ~ (CG_BTOT_OFF <= x < CG_IUSED_OFF) -> b x = b0 x;
}.

(** One more block, whose counts the step adds. *)
Lemma built_step free b0 b b' n (l := blk b' frag n) :
  built free b0 b n -> 0 <= n < 2 ^ 20 -> wf_buf b' ->
  (forall j, 0 <= j < n * frag -> bit_test b' CG_FREE_OFF j = bit_test b CG_FREE_OFF j) ->
  (forall j, n * frag <= j < n * frag + frag -> bit_test b' CG_FREE_OFF j = free j) ->
  read_be32 b' CG_CS_NBFREE_OFF = w32 (read_be32 b CG_CS_NBFREE_OFF + whole_count l) ->
  read_be32 b' CG_CS_NFFREE_OFF = w32 (read_be32 b CG_CS_NFFREE_OFF + frag_count_of l) ->
  (forall j, 1 <= j < frag -> read_be32 b' (CG_FRSUM_OFF + j * 4) =
     w32 (read_be32 b (CG_FRSUM_OFF + j * 4) + run_count j l)) ->
  (forall x, x < CG_FREE_OFF -> ~ (28 <= x < 32) -> ~ (36 <= x < 40) -> ~ (56 <= x < 84) ->
    ~ (CG_BTOT_OFF <= x < CG_IUSED_OFF) -> b' x = b x) ->
  built free b0 b' (n + 1).
Proof.
  intros [W B N1 N2 R Fr] Hn Hw Hsame Hnew H1 H2 H3 Hf. pose proof frag_pos. pose proof frag_sizes as Hfs.
  assert (Ht : forall f, tally f s b' (n + 1) = tally f s b n + f l).
  { intros f. unfold tally. rewrite sumZ_snoc by lia. f_equal. apply sumZ_ext. intros i Hi. f_equal.
    apply blk_ext. intros j Hj. apply Hsame. change (frags_per_block s) with frag in *. nia. }
  pose proof (fun j => tally_bounds s b' (n + 1) j Hfs ltac:(lia)) as Hb.
  constructor; [done| | | | |].
  - intros j Hj. destruct (decide (j < n * frag)); [rewrite Hsame by lia; apply B; lia|].
    apply Hnew. lia.
  - rewrite H1, N1, <- Ht. apply w32_small. destruct (Hb 0) as (? & _). lia.
  - rewrite H2, N2, <- Ht. apply w32_small. destruct (Hb 0) as (_ & ? & _). lia.
  - intros j Hj. rewrite H3, R, <- Ht by done. apply w32_small. destruct (Hb j) as (_ & _ & ?). lia.
  - intros x ?????. rewrite Hf, Fr; done.
Qed.

(** A block whose bits are known. *)
Lemma check_runs_of : every_range (fun n l st m =>
  negb ((st =? 0) || (st + m =? n)) || (m =? n) || negb (forallb (fun i =>
    Bool.eqb (nth (Z.to_nat i) l false) ((st <=? i) && (i <? st + m))) (seqZ 0 n)) ||
  ((whole_count l =? 0) && (frag_count_of l =? m) &&
   forallb (fun j => run_count j l =? (if j =? m then 1 else 0)) (seqZ 1 (n - 1)))) = true.
Proof. vm_compute. reflexivity. Qed.
Lemma partial_block b n st m : 0 <= st -> 0 < m < frag -> (st = 0 /\ m <= frag \/ st + m = frag) ->
  (forall j, n * frag <= j < n * frag + frag ->
     bit_test b CG_FREE_OFF j = (n * frag + st <=? j) && (j <? n * frag + st + m)) ->
  whole_count (blk b frag n) = 0 /\ frag_count_of (blk b frag n) = m /\
  forall j, 1 <= j < frag -> run_count j (blk b frag n) = if j =? m then 1 else 0.
Proof.
  intros Hs Hm Hend Hbits.
  pose proof (every_range_spec _ frag (blk b frag n) st m check_runs_of frag_sizes (blk_length b frag n)
    Hs ltac:(lia) ltac:(lia)) as H. cbn beta in H.
  assert (H1 : (st =? 0) || (st + m =? frag) = true) by lia. rewrite H1 in H.
  rewrite (proj2 (Z.eqb_neq m frag)) in H by lia. cbn [negb orb] in H.
  assert (H2 : forallb (fun i => Bool.eqb (nth (Z.to_nat i) (blk b frag n) false)
      ((st <=? i) && (i <? st + m))) (seqZ 0 frag) = true).
  { apply forallb_seqZ. intros i Hi. rewrite blk_nth, Hbits by lia. apply eqb_true_iff. lia. }
  rewrite H2 in H. cbn [negb orb] in H. rewrite !andb_true_iff, !Z.eqb_eq, forallb_seqZ in H.
  destruct H as [[Ha Hb] Hc]. split_and!; [done|done|]. intros j Hj. apply Z.eqb_eq, Hc. lia.
Qed.
Lemma check_full : every_block (fun n l => negb (entire l) ||
  ((whole_count l =? 1) && (frag_count_of l =? 0) &&
   forallb (fun j => run_count j l =? 0) (seqZ 1 (n - 1)))) = true.
Proof. vm_compute. reflexivity. Qed.
Lemma full_block b n :
  (forall j, n * frag <= j < n * frag + frag -> bit_test b CG_FREE_OFF j = true) ->
  whole_count (blk b frag n) = 1 /\ frag_count_of (blk b frag n) = 0 /\
  forall j, 1 <= j < frag -> run_count j (blk b frag n) = 0.
Proof.
  intros Hbits. pose proof (every_block_spec _ frag (blk b frag n) check_full frag_sizes
    (blk_length b frag n)) as H. cbn beta in H. pose proof frag_pos.
  rewrite <- block_is_free_blk in H. unfold block_is_free in H.
  rewrite (proj2 (forallb_seqZ _ 0 frag)) in H by (intros i Hi; apply Hbits; lia).
  cbn [negb orb] in H. rewrite !andb_true_iff, !Z.eqb_eq, forallb_seqZ in H.
  destruct H as [[Ha Hb] Hc]. split_and!; [done|done|]. intros j Hj. apply Z.eqb_eq, Hc. lia.
Qed.

(** The steps of [free_map]. *)
Lemma map_edit_low b b' : (forall x, x < CG_FREE_OFF -> b' x = b x) ->
  forall x, 0 <= x -> x + 4 <= CG_FREE_OFF -> read_be32 b' x = read_be32 b x.
Proof. intros H x Hx Hx'. apply read_be32_eq_on. intros i Hi. apply H. lia. Qed.
Lemma run_word j : 1 <= j < frag -> 56 <= CG_FRSUM_OFF + j * 4 /\ CG_FRSUM_OFF + j * 4 + 4 <= 84.
Proof. pose proof frag_pos. unfold CG_FRSUM_OFF. lia. Qed.
Lemma clrblock_out b h x : 0 <= h -> x < CG_FREE_OFF -> clrblock frag b h x = b x.
Proof.
  intros Hh Hx. unfold clrblock. rewrite block_mask_shape by (done || apply frag_sizes).
  pose proof frag_pos. pose proof (Z.div_pos (h * frag) 8 ltac:(nia) ltac:(lia)).
  apply upd_other. lia.
Qed.
Lemma setblock_out b h x : 0 <= h -> x < CG_FREE_OFF -> setblock frag b h x = b x.
Proof.
  intros Hh Hx. unfold setblock. rewrite block_mask_shape by (done || apply frag_sizes).
  pose proof frag_pos. pose proof (Z.div_pos (h * frag) 8 ltac:(nia) ltac:(lia)).
  apply upd_other. lia.
Qed.
Lemma wf_clrblock b h : wf_buf b -> wf_buf (clrblock frag b h).
Proof. intros H. unfold clrblock. destruct (block_mask_of frag h) as [[]|]; auto with bytes. Qed.
Lemma wf_setblock b h : wf_buf b -> wf_buf (setblock frag b h).
Proof. intros H. unfold setblock. destruct (block_mask_of frag h) as [[]|]; auto with bytes. Qed.

Lemma built_clear free b0 b n : built free b0 b n -> 0 <= n < 2 ^ 20 ->
  (forall j, n * frag <= j < n * frag + frag -> free j = false) ->
  built free b0 (clrblock frag b n) (n + 1).
Proof.
  intros B Hn Hf. pose proof (bt_wf _ _ _ _ B) as W. pose proof frag_pos. pose proof frag_sizes as Hs.
  assert (Hbit : forall j, 0 <= j -> bit_test (clrblock frag b n) CG_FREE_OFF j =
    negb (in_block frag n j) && bit_test b CG_FREE_OFF j) by (intros; apply clrblock_bit; done || lia).
  assert (Hlow : forall x, x < CG_FREE_OFF -> clrblock frag b n x = b x) by (intros; apply clrblock_out; lia).
  assert (Hc : whole_count (blk (clrblock frag b n) frag n) = 0 /\
    frag_count_of (blk (clrblock frag b n) frag n) = 0 /\
    forall j, run_count j (blk (clrblock frag b n) frag n) = 0).
  { apply empty_block_counts; [done|]. intros i Hi. rewrite Hbit by nia. unfold in_block.
    by replace ((n * frag <=? n * frag + i) && (n * frag + i <? n * frag + frag)) with true by lia. }
  destruct Hc as (C1 & C2 & C3). pose proof (map_edit_low _ _ Hlow) as Hr.
  apply (built_step free b0 b); rewrite ?C1, ?C2; try done.
  - by apply wf_clrblock.
  - intros j Hj. rewrite Hbit by lia. unfold in_block.
    by replace ((n * frag <=? j) && (j <? n * frag + frag)) with false by lia.
  - intros j Hj. rewrite Hbit, Hf by nia. unfold in_block.
    by replace ((n * frag <=? j) && (j <? n * frag + frag)) with true by lia.
  - rewrite Hr, Z.add_0_r, w32_small by (done || by apply read_be32_range). done.
  - rewrite Hr, Z.add_0_r, w32_small by (done || by apply read_be32_range). done.
  - intros j Hj. pose proof (run_word j Hj). rewrite C3, Hr, Z.add_0_r, w32_small
      by (unfold CG_FREE_OFF; lia || by apply read_be32_range). done.
  - intros x Hx _ _ _ _. by apply Hlow.
Qed.

(** The positions of a block in its group. *)
Lemma count_position_spec b d e : wf_buf b -> 0 <= d < p_fpg p ->
  wf_buf (count_position k b d e) /\
  forall x, ~ (CG_BTOT_OFF <= x < CG_IUSED_OFF) -> count_position k b d e x = b x.
Proof.
  intros Hb Hd. destruct F as [Hc (Hf & _ & _) _ _ _ _ _ _ _ _ _ _ _ _ _].
  pose proof (df_spc _ _ D) as [Hs _]. pose proof (df_tracks _ _ D) as (_ & T1 & T2).
  destruct (disk_numbers o k D) as [_ _ _ N4 _ _ _ [N8 _] _ _ _ _ _ _ _ _ _].
  assert (Hspc : 0 < k_spc k) by nia. assert (Hn : 0 < k_nspf k) by lia.
  assert (Hcyl : 0 <= cbtocylno k d < 32).
  { unfold cbtocylno. split; [apply Z.div_pos; nia|]. apply Z.div_lt_upper_bound; [lia|].
    assert (d * k_nspf k < p_fpg p * k_nspf k) by nia. nia. }
  assert (Hpos : 0 <= cbtorpos k d < 8).
  { unfold cbtorpos, NRPOS. pose proof (Z.mod_pos_bound (d * k_nspf k mod k_spc k) (k_nsect k) ltac:(lia)).
    split; [apply Z.div_pos; lia|]. apply Z.div_lt_upper_bound; lia. }
  unfold count_position. unfold CG_BTOT_OFF, CG_BPOS_OFF, CG_IUSED_OFF, NRPOS in *.
  split; [auto with bytes|]. intros x Hx. rewrite write_be16_out, add_be32_out by lia. done.
Qed.

Lemma built_free free b0 b n : built free b0 b n -> 0 <= n < 2 ^ 20 -> n * frag < p_fpg p ->
  (forall j, n * frag <= j < n * frag + frag -> free j = true) ->
  built free b0 (free_block k b n) (n + 1).
Proof.
  intros B Hn Hg Hf. pose proof (bt_wf _ _ _ _ B) as W. pose proof frag_pos. pose proof frag_sizes as Hs.
  set (b1 := add_be32 (setblock frag b n) CG_CS_NBFREE_OFF 1).
  assert (W1 : wf_buf b1) by (unfold b1; apply wf_add_be32, wf_setblock, W).
  destruct (count_position_spec b1 (n * frag) 1 W1 ltac:(nia)) as [W2 Hout].
  change (count_position k b1 (n * frag) 1) with (free_block k b n) in W2, Hout.
  set (b2 := free_block k b n) in *.
  assert (Hlow : forall x, x < CG_FREE_OFF -> setblock frag b n x = b x) by (intros; apply setblock_out; lia).
  assert (Hbit : forall j, 0 <= j -> bit_test b2 CG_FREE_OFF j = in_block frag n j || bit_test b CG_FREE_OFF j).
  { intros j Hj. rewrite <- setblock_bit by (done || lia). apply bit_test_high; [|done]. intros x Hx.
    unfold CG_FREE_OFF, CG_IUSED_OFF, CG_BTOT_OFF in *. rewrite Hout by lia. unfold b1. apply add_be32_out.
    unfold CG_CS_NBFREE_OFF. lia. }
  assert (Hr : forall x, 0 <= x -> x + 4 <= CG_BTOT_OFF -> ~ (24 < x < 32) -> read_be32 b2 x = read_be32 b x).
  { intros x H1 H2 H3. apply read_be32_eq_on. intros i Hi. unfold CG_BTOT_OFF, CG_IUSED_OFF in *.
    rewrite Hout by lia. unfold b1, CG_CS_NBFREE_OFF. rewrite add_be32_out by lia. apply Hlow. unfold CG_FREE_OFF. lia. }
  destruct (full_block b2 n) as (C1 & C2 & C3).
  { intros j Hj. rewrite Hbit by nia. unfold in_block.
    by replace ((n * frag <=? j) && (j <? n * frag + frag)) with true by lia. }
  apply (built_step free b0 b); rewrite ?C1, ?C2; try done.
  - intros j Hj. rewrite Hbit by lia. unfold in_block.
    by replace ((n * frag <=? j) && (j <? n * frag + frag)) with false by lia.
  - intros j Hj. rewrite Hbit, Hf by nia. unfold in_block.
    by replace ((n * frag <=? j) && (j <? n * frag + frag)) with true by lia.
  - unfold CG_CS_NBFREE_OFF in *. rewrite (read_be32_eq_on b2 b1) by
      (intros i Hi; apply Hout; unfold CG_BTOT_OFF; lia).
    unfold b1. rewrite read_add_be32. f_equal. f_equal. apply map_edit_low; [done|lia|unfold CG_FREE_OFF; lia].
  - unfold CG_CS_NFFREE_OFF, CG_BTOT_OFF in *.
    rewrite Hr, Z.add_0_r, w32_small by (lia || by apply read_be32_range). done.
  - intros j Hj. pose proof (run_word j Hj). unfold CG_BTOT_OFF in *. rewrite C3, Hr, Z.add_0_r, w32_small
      by (unfold CG_FREE_OFF; lia || by apply read_be32_range). done.
  - intros x H1 H2 H3 H4 H5. rewrite Hout by done. unfold b1, CG_CS_NBFREE_OFF. rewrite add_be32_out by lia.
    by apply Hlow.
Qed.

(** A block freed in part, at its beginning or its end. *)
Lemma built_part free b0 b n l b' st (q := Z.of_nat (length l))
    (b2 := foldl free_frag (add_be32 b (CG_FRSUM_OFF + q * 4) 1) l) :
  built free b0 b n -> 0 <= n < 2 ^ 20 -> 0 <= st -> 0 < q < frag -> st = 0 \/ st + q = frag ->
  Forall (fun j => n * frag <= j) l -> wf_buf b' -> (forall x, x < CG_FREE_OFF -> b' x = b2 x) ->
  (forall j, 0 <= j < n * frag -> bit_test b' CG_FREE_OFF j = bit_test b2 CG_FREE_OFF j) ->
  (forall j, n * frag <= j < n * frag + frag ->
     bit_test b' CG_FREE_OFF j = (n * frag + st <=? j) && (j <? n * frag + st + q)) ->
  (forall j, n * frag <= j < n * frag + frag ->
     free j = (n * frag + st <=? j) && (j <? n * frag + st + q)) ->
  built free b0 b' (n + 1).
Proof.
  intros B Hn Hst Hq Hend Hl W' Hlow Hsame Hnew Hfree. pose proof (bt_wf _ _ _ _ B) as W.
  pose proof frag_pos. pose proof frag_sizes as Hs. pose proof (run_word q ltac:(lia)) as Hw.
  set (b1 := add_be32 b (CG_FRSUM_OFF + q * 4) 1) in *.
  assert (W1 : wf_buf b1) by by apply wf_add_be32.
  destruct (free_frags_spec l) with (b := b1) as (W2 & B2 & N2 & F2); [|done|].
  { eapply Forall_impl; [exact Hl|]. intros j Hj. cbn in Hj. nia. }
  fold b2 in W2, B2, N2, F2.
  assert (Hout1 : forall x, ~ (CG_FRSUM_OFF + q * 4 <= x < CG_FRSUM_OFF + q * 4 + 4) -> b1 x = b x)
    by (intros; apply add_be32_out; lia).
  assert (Hword : forall x, 0 <= x -> x + 4 <= CG_FREE_OFF -> ~ (32 < x < 40) ->
    read_be32 b' x = read_be32 b1 x).
  { intros x H1 H2 H3. apply read_be32_eq_on. intros i Hi. rewrite Hlow, F2; [done|lia..]. }
  assert (Hkeep : forall x, 0 <= x -> x + 4 <= CG_FREE_OFF ->
    ~ (CG_FRSUM_OFF + q * 4 - 4 < x < CG_FRSUM_OFF + q * 4 + 4) -> read_be32 b1 x = read_be32 b x).
  { intros x H1 H2 H3. apply read_be32_eq_on. intros i Hi. apply Hout1. lia. }
  destruct (partial_block b' n st q Hst Hq) as (C1 & C2 & C3); [lia|done|].
  unfold CG_FREE_OFF, CG_CS_NBFREE_OFF, CG_CS_NFFREE_OFF in *.
  apply (built_step free b0 b); rewrite ?C1, ?C2; try done.
  - intros j Hj. rewrite Hsame, B2 by lia. rewrite bool_decide_eq_false_2.
    + cbn [orb]. apply bit_test_high; [|lia]. intros x Hx. unfold CG_FREE_OFF in Hx. apply Hout1. lia.
    + intros Hin. rewrite Forall_forall in Hl. apply Hl in Hin. lia.
  - intros j Hj. rewrite Hnew by lia. by rewrite Hfree.
  - unfold CG_CS_NBFREE_OFF. rewrite Hword, Hkeep, Z.add_0_r, w32_small by (lia || by apply read_be32_range). done.
  - unfold CG_CS_NFFREE_OFF. rewrite (read_be32_eq_on b' b2) by (intros i Hi; apply Hlow; lia).
    rewrite N2. f_equal. f_equal. apply Hkeep; lia.
  - intros j Hj. pose proof (run_word j Hj). rewrite Hword, C3 by lia. destruct (Z.eqb_spec j q) as [->|].
    + unfold b1. apply read_add_be32.
    + rewrite Z.add_0_r, w32_small by by apply read_be32_range. apply Hkeep; lia.
  - intros x H1 H2 H3 H4 H5. unfold CG_FREE_OFF in H1. rewrite Hlow, F2, Hout1; [done|lia..].
Qed.

Lemma elem_rev (j : Z) l : j ∈ rev l <-> j ∈ l.
Proof. rewrite !list_elem_of_In. by rewrite <- in_rev. Qed.
(** Before the first block of data: the end of a block that was not free. *)
Lemma built_head free b0 b n q :
  built free b0 b n -> 0 <= n < 2 ^ 20 -> 0 < q < frag ->
  (forall j, n * frag <= j < n * frag + frag -> bit_test b CG_FREE_OFF j = false) ->
  (forall j, n * frag <= j < n * frag + frag -> free j = (n * frag + frag - q <=? j)) ->
  built free b0 (foldl free_frag (add_be32 b (CG_FRSUM_OFF + q * 4) 1)
                   (rev (seqZ (n * frag + frag - q) q))) (n + 1).
Proof.
  intros B Hn Hq Hclear Hfree. pose proof (bt_wf _ _ _ _ B) as W. pose proof frag_pos.
  assert (Hlen : Z.of_nat (length (rev (seqZ (n * frag + frag - q) q))) = q)
    by (rewrite length_rev, length_seqZ; lia).
  assert (Hin : forall j, j ∈ rev (seqZ (n * frag + frag - q) q) <-> n * frag + frag - q <= j < n * frag + frag).
  { intros j. rewrite elem_rev, elem_of_seqZ. lia. }
  pose proof (run_word q ltac:(lia)) as Hw.
  set (l := rev (seqZ (n * frag + frag - q) q)) in *.
  destruct (free_frags_spec l) with (b := add_be32 b (CG_FRSUM_OFF + q * 4) 1) as (W2 & B2 & _ & _).
  { apply Forall_forall. intros j Hj. apply Hin in Hj. nia. }
  { by apply wf_add_be32. }
  apply (built_part free b0 b n l _ (frag - q)); rewrite ?Hlen; try done; try lia.
  - apply Forall_forall. intros j Hj. apply Hin in Hj. lia.
  - intros j Hj. rewrite B2 by lia.
    rewrite (bit_test_high _ b) by (lia || (intros x Hx; apply add_be32_out; unfold CG_FREE_OFF in *; lia)).
    rewrite Hclear, orb_false_r by done. apply Bool.eq_iff_eq_true.
    rewrite bool_decide_eq_true, Hin. lia.
  - intros j Hj. rewrite Hfree by done. lia.
Qed.
(** The beginning of a last block that is not complete. *)
Lemma built_tail free b0 b n q :
  built free b0 b n -> 0 <= n < 2 ^ 20 -> 0 < q < frag ->
  (forall j, n * frag <= j < n * frag + frag -> free j = (j <? n * frag + q)) ->
  built free b0 (clear_bits_from (foldl free_frag (add_be32 b (CG_FRSUM_OFF + q * 4) 1)
                   (seqZ (n * frag) q)) CG_FREE_OFF (n * frag + q) (frag - q)) (n + 1).
Proof.
  intros B Hn Hq Hfree. pose proof (bt_wf _ _ _ _ B) as W. pose proof frag_pos.
  assert (Hlen : Z.of_nat (length (seqZ (n * frag) q)) = q) by (rewrite length_seqZ; lia).
  pose proof (run_word q ltac:(lia)) as Hw.
  destruct (free_frags_spec (seqZ (n * frag) q)) with (b := add_be32 b (CG_FRSUM_OFF + q * 4) 1)
    as (W2 & B2 & _ & _).
  { apply Forall_forall. intros j Hj. apply elem_of_seqZ in Hj. nia. }
  { by apply wf_add_be32. }
  set (b2 := foldl free_frag _ _) in *.
  destruct (clear_bits_spec CG_FREE_OFF (n * frag + q) (frag - q) ltac:(nia) ltac:(lia) b2) as (W3 & B3 & F3).
  apply (built_part free b0 b n (seqZ (n * frag) q) _ 0); rewrite ?Hlen; fold b2; try done; try lia.
  - apply Forall_forall. intros j Hj. apply elem_of_seqZ in Hj. lia.
  - by apply W3.
  - intros x Hx. apply F3. lia.
  - intros j Hj. rewrite B3. by replace (n * frag + q <=? j) with false by lia.
  - intros j Hj. rewrite B3, B2 by lia. apply Bool.eq_iff_eq_true.
    rewrite andb_true_iff, orb_true_iff, bool_decide_eq_true, elem_of_seqZ. lia.
  - intros j Hj. rewrite Hfree by done. lia.
Qed.

(** ** The parts of a group *)
(** Free exactly are the fragments before the superblock copy, not in the first group, and
    those from the beginning of the data to the end of the group. *)
Definition free_at (c j : Z) : bool :=
  (negb (c =? 0) && (j <? data_lower k p c)) || ((data_begin k p c <=? j) && (j <? group_size p c)).
Record group_shape (c : Z) : Prop := GroupShape {
  gs_lower : 0 < data_lower k p c /\ h_lower k p c * frag = data_lower k p c;
  gs_begin : data_lower k p c < data_begin k p c;
  gs_data : h_data k p c * frag - frag < data_begin k p c <= h_data k p c * frag /\
            h_lower k p c < h_data k p c;
  gs_whole : h_data k p c <= h_whole k p c /\
             h_whole k p c * frag <= group_size p c < h_whole k p c * frag + frag;
  gs_end : h_end k p c * frag - frag < group_size p c <= h_end k p c * frag /\
           h_whole k p c <= h_end k p c <= MAXBPG k;
  gs_group : 0 < group_size p c <= p_fpg p;
  gs_map : p_fpg p <= MAXBPG k * frag /\ MAXBPG k * frag <= 2 ^ 16 /\
           8 * ((p_fpg p + 7) / 8) <= MAXBPG k * frag;
}.
Lemma aligned_howmany x : x mod frag = 0 -> howmany x frag * frag = x.
Proof.
  intros H. pose proof frag_pos. pose proof (Z.div_mod x frag ltac:(lia)) as E.
  rewrite (howmany_unique x frag (x / frag)) by lia. lia.
Qed.

(** The last group may be short, but not shorter than its metadata. *)
Lemma group_size_eq c : 0 <= c < p_ncg p ->
  group_size p c = (if c =? p_ncg p - 1 then Z.min (p_fpg p) (p_size p - c * p_fpg p) else p_fpg p).
Proof.
  intros Hc. destruct (plan_counts o k p D F) as [_ _ _ _ _ Hb _ _ _ _].
  destruct F as [_ (_ & Hf & _) _ _ _ _ _ _ _ _ _ _ _ _ _]. unfold group_size, cgbase.
  destruct (Z.eqb_spec c (p_ncg p - 1)) as [->|]; [lia|].
  assert ((c + 1) * p_fpg p <= (p_ncg p - 1) * p_fpg p) by nia. lia.
Qed.
Lemma stagger_facts c : 0 <= c ->
  let g := k_cgoffset k * Z.land c (not32 (k_cgmask k)) in
  0 <= g /\ g mod frag = 0 /\ data_lower k p c = g + k_sblkno k /\
  metadata_end k (p_dblkno p) c = g + p_dblkno p /\ (c = 0 -> g = 0) /\
  data_begin k p c = g + p_dblkno p + (if c =? 0 then howmany (p_cssize p) (k_fsize k) else 0).
Proof.
  intros Hc. cbv zeta. destruct (plan_counts o k p D F) as [_ _ _ _ _ _ _ _ Hd _].
  pose proof frag_pos. set (g := k_cgoffset k * Z.land c (not32 (k_cgmask k))). split_and!.
  - unfold g. apply Z.mul_nonneg_nonneg; [lia|]. apply Z.land_nonneg. lia.
  - unfold g. rewrite (df_cgoffset _ _ D). unfold roundup.
    replace (howmany (howmany (k_nsect k) (k_nspf k)) frag * frag * Z.land c (not32 (k_cgmask k)))
      with (howmany (howmany (k_nsect k) (k_nspf k)) frag * Z.land c (not32 (k_cgmask k)) * frag) by lia.
    apply Z_mod_mult.
  - unfold data_lower, cgsblock, cgstart_. fold g. lia.
  - unfold metadata_end. by fold g.
  - intros ->. unfold g. rewrite Z.land_0_l. lia.
  - unfold data_begin, cgdmin, cgstart_. fold g. lia.
Qed.
Lemma dblkno_aligned : p_dblkno p mod frag = 0.
Proof.
  destruct (disk_numbers o k D) as [_ _ N3 N4 _ _ _ _ _ N11 N12 _ _ _ _ _ [_ N17]].
  destruct F as [_ _ [_ Hi] Hd _ _ _ _ _ _ _ _ _ _ _]. pose proof frag_pos.
  destruct (plan_counts o k p D F) as [_ _ _ _ _ _ [_ Hdb] _ _ _].
  pose proof (Z.div_mod (k_iblkno k) frag ltac:(lia)) as E1. rewrite N17 in E1.
  pose proof (Z.div_mod (p_ipg p) (k_inopb k) ltac:(lia)) as E2. rewrite Hi in E2.
  assert (E : p_dblkno p = (k_iblkno k / frag + p_ipg p / k_inopb k) * frag).
  { apply (Z.mul_cancel_r _ _ (k_fsize k)); [lia|]. rewrite Hd.
    destruct (disk_numbers o k D) as [_ _ _ _ _ _ _ _ _ _ _ _ _ _ _ N16 _]. nia. }
  rewrite E. apply Z_mod_mult.
Qed.

Lemma group_begin c : 0 <= c < p_ncg p ->
  roundup (data_begin k p c) frag <= group_size p c /\ (c = 0 -> data_begin k p c < group_size p c).
Proof.
  intros Hc. destruct (stagger_facts c ltac:(lia)) as (G1 & G2 & G3 & G4 & G5 & G6).
  destruct F as [_ (_ & F1 & _) _ _ _ _ _ _ _ Fs Fl _ _ _ Fr]. pose proof frag_pos.
  rewrite G6, group_size_eq by done. destruct (Z.eqb_spec c 0) as [->|Hne].
  - rewrite G5, Z.add_0_l by done. fold (roundup (p_dblkno p + howmany (p_cssize p) (k_fsize k)) frag).
    pose proof (howmany_bounds (p_dblkno p + howmany (p_cssize p) (k_fsize k)) frag ltac:(lia)).
    unfold roundup in *. destruct (0 =? p_ncg p - 1); lia.
  - rewrite Z.add_0_r. unfold roundup. rewrite aligned_howmany.
    + rewrite <- G4. split; [|lia]. destruct (Z.eqb_spec c (p_ncg p - 1)) as [->|]; [|by apply Fs].
      pose proof (Fs (p_ncg p - 1) ltac:(lia)). lia.
    + pose proof dblkno_aligned as Ha. rewrite Z.add_mod, G2, Ha by lia. done.
Qed.
Lemma group_parts c : 0 <= c < p_ncg p -> group_shape c.
Proof.
  intros Hc. destruct (stagger_facts c ltac:(lia)) as (G1 & G2 & G3 & G4 & G5 & G6).
  destruct (group_begin c Hc) as [Hb _]. pose proof frag_pos as Hf.
  destruct (disk_numbers o k D) as [Nb _ _ N4 _ _ _ _ _ _ _ _ N13 N14 _ _ [N17 _]].
  destruct (plan_counts o k p D F) as [_ _ _ _ _ Hlt [Hd _] Ho _ _].
  destruct F as [_ (_ & F1 & F2) _ _ _ _ _ _ _ _ _ _ [Fc _] _ _].
  assert (Hsz : 0 < group_size p c <= p_fpg p).
  { rewrite group_size_eq by done. destruct (Z.eqb_spec c (p_ncg p - 1)) as [->|]; lia. }
  assert (Hs0 : 0 < k_sblkno k) by nia.
  assert (Hlow : h_lower k p c * frag = data_lower k p c).
  { apply aligned_howmany. rewrite G3, Z.add_mod, G2, N17 by lia. done. }
  assert (Hcs : 0 <= howmany (p_cssize p) (k_fsize k)).
  { apply howmany_nonneg; [lia|]. rewrite Fc. pose proof (howmany_nonneg (p_ncg p * 16) (k_fsize k)). nia. }
  assert (Hlt' : data_lower k p c < data_begin k p c) by (rewrite G3, G6; destruct (c =? 0); lia).
  pose proof (howmany_bounds (data_begin k p c) frag ltac:(lia)) as Hh.
  assert (Hdata : h_data k p c = howmany (data_begin k p c) frag).
  { unfold h_data. apply Z.max_r. apply Z.nlt_ge. intros ?. nia. }
  assert (Hl' : h_lower k p c < h_data k p c) by (rewrite Hdata; nia).
  unfold roundup in Hb. rewrite <- Hdata in Hb, Hh.
  assert (Hwh : h_whole k p c = group_size p c / frag).
  { unfold h_whole. apply Z.max_r. apply Z.div_le_lower_bound; lia. }
  pose proof (Z.div_mod (group_size p c) frag ltac:(lia)) as E. pose proof (Z.mod_pos_bound (group_size p c) frag ltac:(lia)).
  unfold SIZEOF_CG in *.
  assert (Hmap : 8 * ((p_fpg p + 7) / 8) <= MAXBPG k * frag).
  { rewrite N13. apply Z.mul_le_mono_nonneg_l; [lia|].
    pose proof (Z.div_lt_upper_bound (p_fpg p + 7) 8 (k_bsize k - 988 + 1) ltac:(lia) ltac:(lia)). lia. }
  constructor; try lia; rewrite <- ?Hwh in *; unfold h_end.
  - assert (h_data k p c <= h_whole k p c) by (apply Z.lt_succ_r, (Z.mul_lt_mono_pos_r frag); lia).
    lia.
  - assert (h_whole k p c * frag < MAXBPG k * frag + 1) by lia.
    destruct (Z.ltb_spec (h_whole k p c * frag) (group_size p c)); split; try lia; split; try lia.
    + apply Z.le_succ_l, (Z.mul_lt_mono_pos_r frag); lia.
    + apply (Z.mul_le_mono_pos_r _ _ frag); lia.
Qed.

(** ** The map *)
Definition map_frame (b b' : buf) : Prop := forall x, x < CG_FREE_OFF -> ~ (28 <= x < 32) ->
  ~ (36 <= x < 40) -> ~ (56 <= x < 84) -> ~ (CG_BTOT_OFF <= x < CG_IUSED_OFF) -> b' x = b x.

Lemma built_blocks free b0 lo n b (step : buf -> Z -> buf) : 0 <= n ->
  (forall b i, lo <= i < lo + n -> built free b0 b i -> built free b0 (step b i) (i + 1)) ->
  built free b0 b lo -> built free b0 (foldl step b (seqZ lo n)) (lo + n).
Proof.
  intros Hn Hs Hb. apply (foldl_seqZ_inv (fun i b => built free b0 b i)); [done|done|].
  intros i x Hi. by apply Hs.
Qed.
Lemma built_weaken free free' b0 b n : (forall j, 0 <= j < n * frag -> free j = free' j) ->
  built free b0 b n -> built free' b0 b n.
Proof. intros H [? B ? ? ? ?]. constructor; try done. intros j Hj. rewrite B, H; done. Qed.
(** A block that counts nothing may be forgotten. *)
Lemma built_back free b0 b n : 0 <= n -> built free b0 b (n + 1) ->
  (forall j, n * frag <= j < n * frag + frag -> free j = false) -> built free b0 b n.
Proof.
  intros Hn [W B N1 N2 R Fr] Hf. pose proof frag_pos.
  destruct (empty_block_counts b frag n frag_sizes) as (C1 & C2 & C3).
  { intros i Hi. rewrite B, Hf; [done|nia..]. }
  assert (Ht : forall f, tally f s b (n + 1) = tally f s b n + f (blk b frag n))
    by (intros f; unfold tally; by rewrite sumZ_snoc by lia).
  constructor; [done| | | | |done].
  - intros j Hj. apply B. nia.
  - rewrite N1, Ht, C1. lia.
  - rewrite N2, Ht, C2. lia.
  - intros j Hj. rewrite R, Ht, C3 by done. lia.
Qed.

Lemma block_below i n : i < n -> i * frag + frag <= n * frag.
Proof. pose proof frag_pos. nia. Qed.
Lemma free_map_built c b : 0 <= c < p_ncg p -> wf_buf b ->
  read_be32 b CG_CS_NBFREE_OFF = 0 -> read_be32 b CG_CS_NFFREE_OFF = 0 ->
  (forall j, 1 <= j < frag -> read_be32 b (CG_FRSUM_OFF + j * 4) = 0) ->
  built (free_at c) b (free_map k p b c) (MAXBPG k).
Proof.
  intros Hc W Z1 Z2 Z3. destruct (group_parts c Hc) as [[S1 S2] S3 [S4 S5] [S6 S7] [S8 S9] S10 [S11 S12]].
  pose proof frag_pos.
  set (free1 := fun j => (negb (c =? 0) && (j <? data_lower k p c)) ||
                         ((h_data k p c * frag <=? j) && (j <? group_size p c))).
  pose proof (block_below _ _ S5) as M1. pose proof (block_below (h_data k p c) (h_whole k p c + 1) ltac:(lia)) as M2.
  assert (M3 : MAXBPG k <= 2 ^ 16) by nia. assert (M4 : 0 < h_lower k p c) by nia.
  assert (B0 : built free1 b b 0).
  { constructor; try done. intros j Hj. lia. }
  unfold free_map.
  set (b1 := if c =? 0 then _ else _).
  assert (B1 : built free1 b b1 (h_lower k p c)).
  { replace (h_lower k p c) with (0 + h_lower k p c) by lia. unfold b1, clear_blocks.
    destruct (Z.eqb_spec c 0) as [E|E]; apply built_blocks; try done; try lia; intros x i Hi Bi.
    - pose proof (block_below i _ (proj2 Hi)). apply built_clear; [done|lia|]. intros j Hj. unfold free1. lia.
    - pose proof (block_below i _ (proj2 Hi)). apply built_free; [done|lia|lia|]. intros j Hj. unfold free1. lia. }
  set (b2 := clear_blocks k b1 _ _).
  assert (B2 : built free1 b b2 (h_data k p c)).
  { replace (h_data k p c) with (h_lower k p c + (h_data k p c - h_lower k p c)) by lia.
    apply built_blocks; [lia| |done]. intros x i Hi Bi. pose proof (block_below i (h_data k p c) ltac:(lia)).
    assert (h_lower k p c * frag <= i * frag) by (apply Z.mul_le_mono_nonneg_r; lia).
    apply built_clear; [done|lia|]. intros j Hj. unfold free1. lia. }
  set (b3 := if data_begin k p c <? _ then _ else _).
  assert (B3 : built (free_at c) b b3 (h_data k p c)).
  { unfold b3. destruct (Z.ltb_spec (data_begin k p c) (h_data k p c * frag)).
    - set (n := h_data k p c - 1). set (q := h_data k p c * frag - data_begin k p c).
      replace (data_begin k p c) with (n * frag + frag - q) by lia.
      replace (h_data k p c) with (n + 1) in B2 |- * by lia.
      assert (Hclear : forall j, n * frag <= j < n * frag + frag -> free1 j = false)
        by (intros j Hj; unfold free1; lia).
      apply built_head; [|lia|lia| |].
      + eapply built_weaken; [|apply (built_back free1); [lia|exact B2|exact Hclear]].
        intros j Hj. unfold free1, free_at. lia.
      + intros j Hj. rewrite (bt_bits _ _ _ _ B2) by lia. by apply Hclear.
      + intros j Hj. unfold free_at. lia.
    - eapply built_weaken; [|exact B2]. intros j Hj. unfold free1, free_at.
      replace (data_begin k p c) with (h_data k p c * frag) by lia. done. }
  set (b4 := foldl (free_block k) b3 _).
  assert (B4 : built (free_at c) b b4 (h_whole k p c)).
  { replace (h_whole k p c) with (h_data k p c + (h_whole k p c - h_data k p c)) by lia.
    apply built_blocks; [lia| |done]. intros x i Hi Bi. pose proof (block_below i (h_whole k p c) ltac:(lia)).
    assert (h_data k p c * frag <= i * frag) by (apply Z.mul_le_mono_nonneg_r; lia).
    apply built_free; [done|lia|lia|]. intros j Hj. unfold free_at. lia. }
  set (b5 := if h_whole k p c * frag <? _ then _ else _).
  assert (B5 : built (free_at c) b b5 (h_end k p c)).
  { unfold b5, h_end in *. destruct (Z.ltb_spec (h_whole k p c * frag) (group_size p c)); [|done].
    set (n := h_whole k p c) in *. set (q := group_size p c - n * frag).
    pose proof (built_tail (free_at c) b b4 n q B4 ltac:(lia) ltac:(lia)) as Bt.
    replace (n * frag + q) with (group_size p c) in Bt by lia.
    replace (frag - q) with ((n + 1) * frag - group_size p c) in Bt by lia.
    apply Bt. intros j Hj. unfold free_at. lia. }
  replace (MAXBPG k) with (h_end k p c + (MAXBPG k - h_end k p c)) at 2 by lia.
  apply built_blocks; [lia| |done]. intros x i Hi Bi. pose proof (block_below i (MAXBPG k) ltac:(lia)).
  assert (h_end k p c * frag <= i * frag) by (apply Z.mul_le_mono_nonneg_r; lia).
  apply built_clear; [done|lia|]. intros j Hj. unfold free_at. lia.
Qed.

(** ** The other fields *)
Lemma word_out b off v x : 0 <= x -> x + 4 <= off \/ off + 4 <= x ->
  read_be32 (write_be32 b off v) x = read_be32 b x.
Proof. intros Hx H. apply read_be32_write_other. lia. Qed.
Lemma zero_words_spec n : 0 <= n -> forall b (b' := zero_words b CG_FRSUM_OFF n), wf_buf b ->
  wf_buf b' /\ (forall j, 0 <= j < n -> read_be32 b' (CG_FRSUM_OFF + j * 4) = 0) /\
  forall x, ~ (CG_FRSUM_OFF <= x < CG_FRSUM_OFF + n * 4) -> b' x = b x.
Proof.
  intros Hn b b' Hb. unfold b', zero_words.
  enough (H : (fun m b' => wf_buf b' /\
      (forall j, 0 <= j < m -> read_be32 b' (CG_FRSUM_OFF + j * 4) = 0) /\
      forall x, ~ (CG_FRSUM_OFF <= x < CG_FRSUM_OFF + m * 4) -> b' x = b x)
    (0 + n) (foldl (fun b i => write_be32 b (CG_FRSUM_OFF + i * 4) 0) b (seqZ 0 n))).
  { rewrite Z.add_0_l in H. exact H. }
  apply foldl_seqZ_inv; [done| |].
  - split_and!; [done|lia|done].
  - intros m x Hm (W & Z0 & Fx). unfold CG_FRSUM_OFF in *. split_and!.
    + auto with bytes.
    + intros j Hj. destruct (decide (j = m)) as [->|].
      * by rewrite read_write_be32.
      * rewrite word_out by lia. apply Z0. lia.
    + intros y Hy. rewrite write_be32_out by lia. apply Fx. lia.
Qed.

Record header_start (c : Z) (b : buf) : Prop := HeaderStart {
  hs_wf : wf_buf b;
  hs_size : read_be32 b CG_NDBLK_OFF = group_size p c;
  hs_magic : read_be32 b CG_MAGIC_OFF = CG_MAGIC;
  hs_ndir : read_be32 b CG_CS_NDIR_OFF = 0;
  hs_nffree : read_be32 b CG_CS_NFFREE_OFF = 0;
  hs_nbfree : read_be32 b CG_CS_NBFREE_OFF = 0;
  hs_nifree : read_be32 b CG_CS_NIFREE_OFF = 0;
  hs_runs : forall j, 0 <= j < frag -> read_be32 b (CG_FRSUM_OFF + j * 4) = 0;
}.
Lemma header_fields_ok c b0 : 0 <= c < p_ncg p -> wf_buf b0 ->
  header_start c (header_fields k p utime b0 c).
Proof.
  intros Hc Hb. destruct (group_parts c Hc) as [_ _ _ _ _ Hg [Hm1 [Hm2 _]]]. pose proof frag_pos.
  unfold header_fields. set (b1 := write_be32 _ CG_IROTOR_OFF 0).
  assert (W1 : wf_buf b1) by (unfold b1; auto 20 with bytes).
  destruct (zero_words_spec frag ltac:(lia) b1 W1) as (W & Hr & Hf).
  assert (Hw : forall x, 0 <= x -> x + 4 <= CG_FRSUM_OFF \/ CG_FRSUM_OFF + frag * 4 <= x ->
    read_be32 (zero_words b1 CG_FRSUM_OFF frag) x = read_be32 b1 x).
  { intros x H1 H2. apply read_be32_eq_on. intros i Hi. apply Hf. lia. }
  unfold CG_FRSUM_OFF, CG_NDBLK_OFF, CG_MAGIC_OFF, CG_CS_NDIR_OFF, CG_CS_NFFREE_OFF, CG_CS_NBFREE_OFF,
    CG_CS_NIFREE_OFF, CG_ROTOR_OFF, CG_IROTOR_OFF, CG_FROTOR_OFF in *.
  constructor; unfold CG_NDBLK_OFF, CG_MAGIC_OFF, CG_CS_NDIR_OFF, CG_CS_NFFREE_OFF, CG_CS_NBFREE_OFF,
    CG_CS_NIFREE_OFF; try done; rewrite Hw by lia; unfold b1.
  - rewrite !word_out, read_write_be32, w32_small by lia. done.
  - rewrite !word_out by lia. rewrite read_be32_write16_other by (unfold CG_NIBLK_OFF; lia).
    rewrite read_be32_write16_other by (unfold CG_NCYL_OFF; lia). rewrite word_out by (unfold CG_CGX_OFF; lia).
    by rewrite read_write_be32.
  - rewrite !word_out by lia. by rewrite read_write_be32.
  - rewrite !word_out by lia. by rewrite read_write_be32.
  - rewrite !word_out by lia. by rewrite read_write_be32.
  - rewrite !word_out by lia. by rewrite read_write_be32.
Qed.

(** Which inodes of a group are in use. *)
Definition reserved (c i : Z) : bool := (c =? 0) && (0 <=? i) && (i <? 2).
Record inodes_mapped (n : Z) (used : Z -> bool) (free : Z) (b b' : buf) : Prop := InodesMapped {
  im_wf : wf_buf b';
  im_bits : forall i, 0 <= i < n -> bit_test b' CG_IUSED_OFF i = used i;
  im_free : read_be32 b' CG_CS_NIFREE_OFF = w32 free;
  im_frame : forall x, ~ (32 <= x < 36) -> ~ (CG_IUSED_OFF <= x < CG_MAGIC_OFF) -> b' x = b x;
}.
Lemma inodes_frame b b' x : (forall y, ~ (32 <= y < 36) -> ~ (CG_IUSED_OFF <= y < CG_MAGIC_OFF) -> b' y = b y) ->
  0 <= x -> x + 4 <= 32 \/ 36 <= x /\ x + 4 <= CG_IUSED_OFF \/ CG_MAGIC_OFF <= x ->
  read_be32 b' x = read_be32 b x.
Proof.
  intros H Hx Hr. unfold CG_IUSED_OFF, CG_MAGIC_OFF in *. apply read_be32_eq_on. intros i Hi. apply H; lia.
Qed.
Lemma clear_inodes b off i n j : off = CG_IUSED_OFF -> 0 <= i -> 0 <= n -> i + n <= 2048 ->
  let b' := clear_bits_from b off i n in
  bit_test b' off j = negb ((i <=? j) && (j <? i + n)) && bit_test b off j /\
  (wf_buf b -> wf_buf b') /\ forall x, ~ (CG_IUSED_OFF <= x < CG_MAGIC_OFF) -> b' x = b x.
Proof.
  intros -> Hi Hn Hs b'. destruct (clear_bits_spec CG_IUSED_OFF i n Hi Hn b) as (W & B & Fr).
  split_and!; [apply B|done|]. intros x Hx. apply Fr. unfold CG_IUSED_OFF, CG_MAGIC_OFF in *.
  pose proof (Z.div_lt_upper_bound (i + n + 7) 8 257 ltac:(lia) ltac:(lia)). lia.
Qed.

Lemma set_word_iused b x v i : 0 <= i < 2048 -> x + 4 <= CG_IUSED_OFF ->
  bit_test (write_be32 b x v) CG_IUSED_OFF i = bit_test b CG_IUSED_OFF i.
Proof. intros Hi Hx. pose proof (iused_byte i Hi). apply bit_test_byte, write_be32_out. lia. Qed.

Lemma chunks_mapped b n : wf_buf b -> read_be32 b CG_CS_NIFREE_OFF = 0 -> 0 <= n ->
  0 < k_inopb k -> n * k_inopb k <= 2048 ->
  inodes_mapped (n * k_inopb k) (fun _ => false) (n * k_inopb k) b (foldl (inode_chunk k) b (seqZ 0 n)).
Proof.
  intros Hb H0 Hn Hi Hm. set (ipb := k_inopb k) in *.
  enough (H : (fun m b' => inodes_mapped (m * ipb) (fun _ => false) (m * ipb) b b')
    (0 + n) (foldl (inode_chunk k) b (seqZ 0 n))) by (rewrite Z.add_0_l in H; exact H).
  apply foldl_seqZ_inv; [done| |].
  - constructor; try done. intros i Hi'. lia.
  - intros m x Hm' [W B N Fr]. assert (m * ipb + ipb <= 2048) by nia.
    unfold inode_chunk. fold ipb. set (x1 := clear_bits_from x CG_IUSED_OFF (m * ipb) ipb).
    assert (Hc : forall j, bit_test x1 CG_IUSED_OFF j =
      negb ((m * ipb <=? j) && (j <? m * ipb + ipb)) && bit_test x CG_IUSED_OFF j)
      by (intros j; apply clear_inodes; done || nia).
    destruct (clear_inodes x CG_IUSED_OFF (m * ipb) ipb 0) as (_ & W1 & F1); [done|nia|lia|lia|].
    fold x1 in W1, F1. unfold CG_CS_NIFREE_OFF, CG_IUSED_OFF, CG_MAGIC_OFF in *. constructor.
    + auto with bytes.
    + intros i Hi'. unfold add_be32. rewrite set_word_iused by (unfold CG_IUSED_OFF; nia). rewrite Hc.
      destruct (decide (i < m * ipb)); [rewrite B by lia; apply andb_false_r|].
      by replace ((m * ipb <=? i) && (i <? m * ipb + ipb)) with true by nia.
    + unfold CG_CS_NIFREE_OFF. rewrite read_add_be32, (read_be32_eq_on x1 x) by (intros i Hi'; apply F1; lia).
      rewrite N, w32_add_l. f_equal. lia.
    + intros y H1 H2. rewrite add_be32_out by lia. rewrite F1 by done. by apply Fr.
Qed.

Lemma reserve_mapped n used free b x i : inodes_mapped n used free b x -> 0 <= i < n -> n <= 2048 ->
  inodes_mapped n (fun j => (j =? i) || used j) (free - 1) b (reserve_inode x i).
Proof.
  intros [W B N Fr] Hi Hn. pose proof (iused_byte i ltac:(lia)).
  unfold reserve_inode, CG_CS_NIFREE_OFF, CG_IUSED_OFF, CG_MAGIC_OFF in *. constructor.
  - auto with bytes.
  - intros j Hj. unfold add_be32. rewrite set_word_iused by (unfold CG_IUSED_OFF; lia).
    unfold CG_IUSED_OFF in *. by rewrite bit_test_set, B.
  - unfold CG_CS_NIFREE_OFF. rewrite read_add_be32, (read_be32_eq_on _ x) by (intros y Hy; apply bit_set_out; lia).
    by rewrite N, w32_add_l.
  - intros y H1 H2. unfold CG_IUSED_OFF, CG_MAGIC_OFF in *. rewrite add_be32_out, bit_set_out by lia. apply Fr; lia.
Qed.
Lemma clear_mapped n used free b x i : inodes_mapped n used free b x -> 0 <= i <= n -> n <= 2048 ->
  inodes_mapped 2048 (fun j => (j <? i) && used j) free b (clear_bits_from x CG_IUSED_OFF i (2048 - i)).
Proof.
  intros [W B N Fr] Hi Hn.
  assert (Hc : forall j, bit_test (clear_bits_from x CG_IUSED_OFF i (2048 - i)) CG_IUSED_OFF j =
    negb ((i <=? j) && (j <? i + (2048 - i))) && bit_test x CG_IUSED_OFF j)
    by (intros j; apply clear_inodes; done || lia).
  destruct (clear_inodes x CG_IUSED_OFF i (2048 - i) 0) as (_ & W1 & F1); try done; try lia.
  unfold CG_CS_NIFREE_OFF, CG_IUSED_OFF, CG_MAGIC_OFF in *. constructor.
  - by apply W1.
  - intros j Hj. unfold CG_IUSED_OFF. rewrite Hc. destruct (Z.ltb_spec j i); cbn [andb].
    + rewrite B by lia. by replace (i <=? j) with false by lia.
    + by replace ((i <=? j) && (j <? i + (2048 - i))) with true by lia.
  - rewrite <- N. apply read_be32_eq_on. unfold CG_CS_NIFREE_OFF. intros y Hy. apply F1. lia.
  - intros y H1 H2. unfold CG_IUSED_OFF, CG_MAGIC_OFF in *. rewrite F1 by done. by apply Fr.
Qed.

Lemma inode_map_ok c b : 0 <= c < p_ncg p -> wf_buf b -> read_be32 b CG_CS_NIFREE_OFF = 0 ->
  inodes_mapped 2048 (reserved c) (p_ipg p - (if c =? 0 then 2 else 0)) b (inode_map k p b c).
Proof.
  intros Hc Hb H0. destruct (plan_counts o k p D F) as [_ _ Hmod _ _ _ _ _ _ _].
  destruct F as [_ _ [Hi _] _ _ _ _ _ _ _ _ _ _ _ _].
  destruct (disk_numbers o k D) as [_ _ _ _ _ _ _ _ _ N10 _ _ _ _ _ _ _].
  assert (Hpos : 0 < k_inopb k) by (pose proof (dn_bsize _ (disk_numbers o k D)); lia).
  set (chunks := howmany (p_ipg p) (k_inopb k)).
  assert (Hch : chunks * k_inopb k = p_ipg p).
  { unfold chunks. pose proof (Z.div_mod (p_ipg p) (k_inopb k) ltac:(lia)) as E.
    rewrite (howmany_unique _ _ (p_ipg p / k_inopb k)) by lia. lia. }
  assert (Hc0 : 0 <= chunks) by (apply howmany_nonneg; lia).
  pose proof (chunks_mapped b chunks Hb H0 Hc0 Hpos ltac:(lia)) as Hm. rewrite Hch in Hm.
  unfold inode_map. fold chunks. set (x := foldl (inode_chunk k) b (seqZ 0 chunks)) in *.
  unfold MAXIPG, ROOTINO. destruct (Z.eqb_spec c 0) as [->|Hne].
  - change (seqZ 0 2) with [0; 1]. cbn [foldl].
    apply (reserve_mapped _ _ _ _ _ 0) in Hm; [|lia|lia].
    apply (reserve_mapped _ _ _ _ _ 1) in Hm; [|lia|lia].
    apply (clear_mapped _ _ _ _ _ 2) in Hm; [|lia|lia]. destruct Hm as [W B N Fr]. constructor; [done| | |done].
    + intros i Hi'. rewrite B by done. unfold reserved. cbn. lia.
    + rewrite N. f_equal. lia.
  - rewrite Hch. apply (clear_mapped _ _ _ _ _ (p_ipg p)) in Hm; [|lia|lia].
    destruct Hm as [W B N Fr]. constructor; [done| | |done].
    + intros i Hi'. rewrite B by done. unfold reserved. rewrite (proj2 (Z.eqb_neq c 0)) by done. apply andb_false_r.
    + rewrite N. f_equal. lia.
Qed.

(** ** The whole header *)
Record group_made (c : Z) (b : buf) : Prop := GroupMade {
  gm_wf : wf_buf b;
  gm_ok : group_ok s b;
  gm_tail : clean_tail s b;
  gm_size : read_be32 b CG_NDBLK_OFF = group_size p c;
  gm_magic : read_be32 b CG_MAGIC_OFF = CG_MAGIC;
  gm_ndir : read_be32 b CG_CS_NDIR_OFF = 0;
  gm_map : forall j, 0 <= j < p_fpg p -> bit_test b CG_FREE_OFF j = free_at c j;
  gm_inodes : forall i, 0 <= i < 2048 -> bit_test b CG_IUSED_OFF i = reserved c i;
}.
Lemma sum_reserved c n : 0 <= n ->
  sumZ (fun i => if reserved c i then 0 else 1) n = n - (if c =? 0 then Z.min n 2 else 0).
Proof.
  revert n. apply natlike_ind; [by destruct (c =? 0)|]. intros n Hn IH.
  rewrite <- Z.add_1_r, sumZ_snoc, IH by done. unfold reserved.
  destruct (c =? 0); cbn [andb]; [|lia]. destruct (Z.leb_spec 0 n), (Z.ltb_spec n 2); cbn [andb]; lia.
Qed.
(** The accounts follow from the map. *)
Lemma header_made_of_map c b3 b : 0 <= c < p_ncg p -> built (free_at c) b3 b (MAXBPG k) ->
  read_be32 b CG_NDBLK_OFF = group_size p c -> read_be32 b CG_MAGIC_OFF = CG_MAGIC ->
  read_be32 b CG_CS_NDIR_OFF = 0 ->
  read_be32 b CG_CS_NIFREE_OFF = w32 (p_ipg p - (if c =? 0 then 2 else 0)) ->
  (forall i, 0 <= i < 2048 -> bit_test b CG_IUSED_OFF i = reserved c i) ->
  group_made c b.
Proof.
  intros Hc [W B N1 N2 R _] Hs Hm Hd Hi Hu. pose proof frag_pos as Hf.
  destruct (group_parts c Hc) as [[S1 S2] S3 _ [_ S7] [S8 S9] S10 [S11 [S12 S13]]].
  assert (Hclear : forall j, group_size p c <= j < MAXBPG k * frag -> bit_test b CG_FREE_OFF j = false).
  { intros j Hj. rewrite B by lia. unfold free_at. destruct (group_begin c Hc) as [Hb _].
    unfold roundup in Hb. pose proof (howmany_bounds (data_begin k p c) frag ltac:(lia)). lia. }
  assert (Hend : (group_size p c + frag - 1) / frag = h_end k p c).
  { symmetry. apply Z.div_unique with (group_size p c - (h_end k p c * frag - frag) - 1); lia. }
  assert (Ht : forall f, f = whole_count \/ f = frag_count_of \/ (exists j, f = run_count j) ->
    tally f s b (MAXBPG k) = tally f s b (h_end k p c)).
  { intros f Hcase. apply tally_tail; [apply frag_sizes|lia| |done]. intros j Hj. apply Hclear.
    change (frags_per_block s) with frag in Hj. lia. }
  assert (Hb : blocks s b = h_end k p c) by (unfold blocks; rewrite Hs; exact Hend).
  destruct F as [_ _ [Hi0 _] _ _ _ _ _ _ _ _ _ _ _ _].
  constructor; try done.
  - constructor.
    + rewrite Hs. exact (proj2 S10).
    + constructor; rewrite ?Hb, ?Hs.
      * rewrite N1. apply Ht. auto.
      * rewrite N2. apply Ht. auto.
      * intros j Hj. rewrite R by exact Hj. apply Ht. eauto.
      * intros j Hj. apply Hclear. change (frags_per_block s) with frag in Hj. nia.
    + unfold iacct. change (inodes_per_group s) with (p_ipg p).
      rewrite Hi, (sumZ_ext _ (fun i => if reserved c i then 0 else 1)).
      * rewrite sum_reserved by lia. rewrite w32_small by (destruct (c =? 0); lia).
        destruct (c =? 0); lia.
      * intros i Hi'. rewrite Hu by lia. done.
  - intros j Hj. rewrite Hs in Hj. apply Hclear. change (frags_per_group s) with (p_fpg p) in Hj. lia.
  - intros j Hj. apply B. lia.
Qed.
Lemma group_header_made c b0 : 0 <= c < p_ncg p -> wf_buf b0 ->
  group_made c (group_header k p utime b0 c).
Proof.
  intros Hc Hb. pose proof (header_fields_ok c b0 Hc Hb) as [W1 H1 H2 H3 H4 H5 H6 H7].
  unfold group_header. set (b1 := header_fields k p utime b0 c) in *.
  destruct (inode_map_ok c b1 Hc W1 H6) as [W2 I2 N2 F2]. set (b2 := inode_map k p b1 c) in *.
  assert (Hw2 : forall x, 0 <= x -> x + 4 <= 32 \/ 36 <= x /\ x + 4 <= CG_IUSED_OFF \/ CG_MAGIC_OFF <= x ->
    read_be32 b2 x = read_be32 b1 x) by (intros x; by apply inodes_frame).
  set (b3 := position_tables b2).
  assert (W3 : wf_buf b3) by (unfold b3, position_tables; auto with bytes).
  assert (F3 : forall x, ~ (CG_BTOT_OFF <= x < CG_IUSED_OFF) -> b3 x = b2 x).
  { intros x Hx. unfold b3, position_tables, fill, MAXCPG, NRPOS, CG_BTOT_OFF, CG_IUSED_OFF in *. apply blit_out. lia. }
  assert (Hw3 : forall x, 0 <= x -> x + 4 <= CG_BTOT_OFF \/ CG_IUSED_OFF <= x ->
    read_be32 b3 x = read_be32 b2 x) by (intros x Hx Hr; apply read_be32_eq_on; intros i Hi; apply F3; lia).
  pose proof frag_pos as Hf. unfold CG_BTOT_OFF, CG_IUSED_OFF, CG_MAGIC_OFF in Hw2, Hw3, F3.
  assert (B4 : built (free_at c) b3 (free_map k p b3 c) (MAXBPG k)).
  { apply free_map_built; [done|done| | |].
    - unfold CG_CS_NBFREE_OFF in *. rewrite Hw3, Hw2 by lia. done.
    - unfold CG_CS_NFFREE_OFF in *. rewrite Hw3, Hw2 by lia. done.
    - intros j Hj. pose proof (run_word j Hj). rewrite Hw3, Hw2 by lia. apply H7. lia. }
  set (b4 := free_map k p b3 c) in *. clearbody b4.
  assert (Hw4 : forall x, 0 <= x -> x + 4 <= 28 \/ 32 <= x /\ x + 4 <= 36 \/ 724 <= x /\ x + 4 <= 984 ->
    read_be32 b4 x = read_be32 b3 x).
  { intros x Hx Hr. apply read_be32_eq_on. intros i Hi. apply (bt_frame _ _ _ _ B4);
    unfold CG_FREE_OFF, CG_BTOT_OFF, CG_IUSED_OFF; lia. }
  assert (Hused : forall i, 0 <= i < 2048 -> bit_test b4 CG_IUSED_OFF i = reserved c i).
  { intros i Hi. rewrite <- I2 by done. pose proof (iused_byte i Hi). apply bit_test_byte.
    rewrite (bt_frame _ _ _ _ B4) by (unfold CG_FREE_OFF, CG_BTOT_OFF, CG_IUSED_OFF, CG_MAGIC_OFF in *; lia).
    apply F3. unfold CG_IUSED_OFF in *. lia. }
  assert (Hsize : read_be32 b4 CG_NDBLK_OFF = group_size p c).
  { unfold CG_NDBLK_OFF in *. rewrite Hw4, Hw3, Hw2 by lia. done. }
  assert (Hni : read_be32 b4 CG_CS_NIFREE_OFF = w32 (p_ipg p - (if c =? 0 then 2 else 0))).
  { unfold CG_CS_NIFREE_OFF in *. by rewrite Hw4, Hw3 by lia. }
  assert (Hmagic : read_be32 b4 CG_MAGIC_OFF = CG_MAGIC).
  { unfold CG_MAGIC_OFF in *. rewrite Hw4, Hw3, Hw2 by lia. done. }
  assert (Hnd : read_be32 b4 CG_CS_NDIR_OFF = 0).
  { unfold CG_CS_NDIR_OFF in *. rewrite Hw4, Hw3, Hw2 by lia. done. }
  apply (header_made_of_map c b3 b4); done.
Qed.

(** ** The first directories in the first header *)
Record group_live (free used : Z -> bool) (ndir : Z) (b : buf) : Prop := GroupLive {
  gl_wf : wf_buf b;
  gl_ok : group_ok s b;
  gl_tail : clean_tail s b;
  gl_size : read_be32 b CG_NDBLK_OFF = group_size p 0;
  gl_magic : read_be32 b CG_MAGIC_OFF = CG_MAGIC;
  gl_ndir : read_be32 b CG_CS_NDIR_OFF = ndir;
  gl_map : forall j, 0 <= j < p_fpg p -> bit_test b CG_FREE_OFF j = free j;
  gl_inodes : forall i, 0 <= i < 2048 -> bit_test b CG_IUSED_OFF i = used i;
}.
Lemma made_live b : group_made 0 b -> group_live (free_at 0) (reserved 0) 0 b.
Proof. intros [? ? ? ? ? ? ? ?]. by constructor. Qed.

Lemma first_group : 0 <= 0 < p_ncg p.
Proof. destruct (plan_counts o k p D F) as [_ _ _ _ ? _ _ _ _ _]. lia. Qed.
Lemma small_group b : read_be32 b CG_NDBLK_OFF = group_size p 0 -> group_small s b.
Proof.
  intros Hs. destruct (group_parts 0 first_group) as [_ _ _ _ _ Hg [Hm [Hm' _]]].
  split; [apply frag_sizes|]. rewrite Hs. change (2 ^ 20) with 1048576. lia.
Qed.

(** The bytes of a header outside the map are few. *)
Record take_spec (b b' : buf) (d m : Z) : Prop := TakeSpec {
  tk_wf : wf_buf b';
  tk_bits : bits_after b' b d m false;
  tk_nbfree : read_be32 b' CG_CS_NBFREE_OFF = w32 (read_be32 b CG_CS_NBFREE_OFF - 1);
  tk_nffree : read_be32 b' CG_CS_NFFREE_OFF = w32 (read_be32 b CG_CS_NFFREE_OFF + (frag - m));
  tk_runs : forall j, 1 <= j < frag -> read_be32 b' (CG_FRSUM_OFF + j * 4) =
    w32 (read_be32 b (CG_FRSUM_OFF + j * 4) + (if j =? frag - m then 1 else 0));
  tk_ndir : read_be32 b' CG_CS_NDIR_OFF = w32 (read_be32 b CG_CS_NDIR_OFF + 1);
  tk_frame : forall x, x < CG_FREE_OFF -> ~ (24 <= x < 32) -> ~ (36 <= x < 40) -> ~ (56 <= x < 84) ->
    ~ (CG_BTOT_OFF <= x < CG_IUSED_OFF) -> b' x = b x;
}.
Lemma set_bits_spec d l : 0 <= d -> Forall (fun i => 0 <= i) l -> forall b
    (b' := foldl (fun b i => bit_set b CG_FREE_OFF (d + i)) b l),
  (wf_buf b -> wf_buf b') /\ (forall x, x < CG_FREE_OFF -> b' x = b x) /\
  forall j, bit_test b' CG_FREE_OFF j = bool_decide (j - d ∈ l) || bit_test b CG_FREE_OFF j.
Proof.
  intros Hd. induction 1 as [|i l Hi Hl IH]; intros b b'; unfold b'; cbn [foldl].
  - split_and!; done.
  - destruct (IH (bit_set b CG_FREE_OFF (d + i))) as (W & Fr & B).
    pose proof (Z.div_pos (d + i) 8 ltac:(lia) ltac:(lia)). split_and!.
    + intros Hb. apply W. auto with bytes.
    + intros x Hx. rewrite Fr by done. apply bit_set_out. lia.
    + intros j. rewrite B, bit_test_set. apply Bool.eq_iff_eq_true.
      rewrite !orb_true_iff, !bool_decide_eq_true, elem_of_cons, Z.eqb_eq.
      assert (j = d + i <-> j - d = i) by lia. tauto.
Qed.

Lemma alloc_header_spec b h size nffree (b' := alloc_header k b h size 1 nffree) :
  wf_buf b -> 0 <= h -> h * frag < p_fpg p ->
  (forall j, h * frag <= j < h * frag + frag -> bit_test b CG_FREE_OFF j = true) ->
  (if size =? k_bsize k then nffree = 0 else 1 <= nffree < frag) ->
  take_spec b b' (h * frag) (frag - nffree).
Proof.
  intros W Hh Hg Hfree Hn. pose proof frag_pos. unfold b', alloc_header.
  set (b1 := add_be32 (clrblock frag b h) CG_CS_NBFREE_OFF (-1)).
  set (b2 := add_be32 b1 CG_CS_NDIR_OFF 1).
  assert (W2 : wf_buf b2) by (unfold b2, b1; do 2 apply wf_add_be32; by apply wf_clrblock).
  destruct (count_position_spec b2 (h * frag) (-1) W2 ltac:(nia)) as [W3 F3].
  set (b3 := count_position k b2 (h * frag) (-1)) in *. clearbody b3.
  assert (Hclr : forall x, x < CG_FREE_OFF -> clrblock frag b h x = b x) by (intros; apply clrblock_out; lia).
  unfold CG_FREE_OFF in Hclr. unfold CG_BTOT_OFF, CG_IUSED_OFF in F3.
  assert (F2 : forall x, x < 984 -> ~ (24 <= x < 32) -> b2 x = b x).
  { intros x H1 H2. unfold b2, b1, CG_CS_NDIR_OFF, CG_CS_NBFREE_OFF. rewrite !add_be32_out by lia. by apply Hclr. }
  assert (Hbits : forall j, 0 <= j -> bit_test b3 CG_FREE_OFF j = negb (in_block frag h j) && bit_test b CG_FREE_OFF j).
  { intros j Hj. rewrite <- (clrblock_bit frag b h j) by (done || apply frag_sizes).
    apply bit_test_high; [|done]. unfold CG_FREE_OFF. intros x Hx. rewrite F3 by lia.
    unfold b2, b1, CG_CS_NDIR_OFF, CG_CS_NBFREE_OFF. by rewrite !add_be32_out by lia. }
  assert (R3 : forall x, 0 <= x -> x + 4 <= 84 -> read_be32 b3 x = read_be32 b2 x).
  { intros x H1 H2. apply read_be32_eq_on. intros i Hi. apply F3. lia. }
  assert (Rb : forall x, 0 <= x -> x + 4 <= 24 \/ 32 <= x /\ x + 4 <= 84 -> read_be32 b3 x = read_be32 b x).
  { intros x H1 H2. rewrite R3 by lia. apply read_be32_eq_on. intros i Hi. apply F2; lia. }
  assert (Rnb : read_be32 b3 CG_CS_NBFREE_OFF = w32 (read_be32 b CG_CS_NBFREE_OFF - 1)).
  { unfold CG_CS_NBFREE_OFF in *. rewrite R3 by lia. unfold b2, CG_CS_NDIR_OFF, add_be32 at 1. rewrite word_out by lia.
    unfold b1. rewrite read_add_be32, (read_be32_eq_on (clrblock frag b h) b) by (intros i Hi; apply Hclr; lia).
    f_equal. }
  assert (Rnd : read_be32 b3 CG_CS_NDIR_OFF = w32 (read_be32 b CG_CS_NDIR_OFF + 1)).
  { unfold CG_CS_NDIR_OFF in *. rewrite R3 by lia. unfold b2. rewrite read_add_be32. do 2 f_equal.
    unfold b1, CG_CS_NBFREE_OFF, add_be32. rewrite word_out by lia. apply read_be32_eq_on. intros i Hi. apply Hclr. lia. }
  destruct (Z.eqb_spec size (k_bsize k)) as [Es|Es].
  - subst nffree. rewrite Z.sub_0_r. constructor; rewrite ?Z.sub_diag; try done.
    + intros j Hj. rewrite Hbits by done. unfold in_block. by destruct ((h * frag <=? j) && _).
    + unfold CG_CS_NFFREE_OFF. rewrite Rb, Z.add_0_r, w32_small by (lia || by apply read_be32_range). done.
    + intros j Hj. pose proof (run_word j Hj). rewrite Rb by lia. rewrite (proj2 (Z.eqb_neq j 0)) by lia.
      rewrite Z.add_0_r, w32_small by by apply read_be32_range. done.
    + intros x H1 H2 H3 H4 H5. unfold CG_FREE_OFF, CG_BTOT_OFF, CG_IUSED_OFF in *. rewrite F3 by lia. apply F2; lia.
  - pose proof (run_word nffree Hn) as Hrw.
    set (b4 := add_be32 b3 CG_CS_NFFREE_OFF nffree). set (b5 := add_be32 b4 (CG_FRSUM_OFF + nffree * 4) 1).
    assert (W5 : wf_buf b5) by (unfold b5, b4; auto with bytes).
    destruct (set_bits_spec (h * frag) (seqZ (frag - nffree) nffree) ltac:(nia)) with (b := b5) as (W6 & F6 & B6).
    { apply Forall_forall. intros j Hj. apply elem_of_seqZ in Hj. lia. }
    set (b6 := foldl _ b5 _) in *. clearbody b6. unfold CG_FREE_OFF in F6.
    assert (F5 : forall x, ~ (36 <= x < 40) -> ~ (CG_FRSUM_OFF + nffree * 4 <= x < CG_FRSUM_OFF + nffree * 4 + 4) -> b5 x = b3 x).
    { intros x H1 H2. unfold b5, b4, CG_CS_NFFREE_OFF. by rewrite !add_be32_out by lia. }
    assert (R6 : forall x, 0 <= x -> x + 4 <= 984 -> read_be32 b6 x = read_be32 b5 x).
    { intros x H1 H2. apply read_be32_eq_on. intros i Hi. apply F6. lia. }
    assert (R5 : forall x, 0 <= x -> x + 4 <= 36 -> read_be32 b6 x = read_be32 b3 x).
    { intros x H1 H2. rewrite R6 by lia. apply read_be32_eq_on. intros i Hi. apply F5; lia. }
    constructor; try (by apply W6).
    + intros j Hj. rewrite B6. apply Bool.eq_iff_eq_true. rewrite orb_true_iff, bool_decide_eq_true, elem_of_seqZ.
      rewrite (bit_test_high b5 b3) by (done || (intros x Hx; unfold CG_FREE_OFF in Hx; apply F5; lia)).
      rewrite Hbits by done. unfold in_block.
      assert (Hin : h * frag <= j < h * frag + frag -> bit_test b CG_FREE_OFF j = true) by apply Hfree.
      destruct (bit_test b CG_FREE_OFF j); rewrite ?andb_true_r, ?andb_false_r;
        destruct ((h * frag <=? j) && (j <? h * frag + (frag - nffree))) eqn:E; lia.
    + unfold CG_CS_NBFREE_OFF in *. rewrite R5 by lia. exact Rnb.
    + unfold CG_CS_NFFREE_OFF in *. rewrite R6 by lia. unfold b5, add_be32 at 1. rewrite word_out by lia.
      unfold b4. rewrite read_add_be32, Rb by lia. f_equal. lia.
    + intros j Hj. pose proof (run_word j Hj). rewrite R6 by lia. replace (frag - (frag - nffree)) with nffree by lia.
      destruct (Z.eqb_spec j nffree) as [->|Hne].
      * unfold b5. rewrite read_add_be32. do 2 f_equal. unfold b4, CG_CS_NFFREE_OFF, add_be32. rewrite word_out by lia.
        apply Rb; lia.
      * rewrite Z.add_0_r, w32_small by by apply read_be32_range. unfold b5, b4, add_be32, CG_CS_NFFREE_OFF.
        rewrite !word_out by (unfold CG_FRSUM_OFF in *; lia). apply Rb; lia.
    + unfold CG_CS_NDIR_OFF in *. rewrite R5 by lia. exact Rnd.
    + intros x H1 H2 H3 H4 H5. unfold CG_FREE_OFF, CG_BTOT_OFF, CG_IUSED_OFF in *.
      rewrite F6, F5, F3 by lia. apply F2; lia.
Qed.

Lemma alloc_live free used ndir b h size nffree (d := h * frag) (n := frag - nffree)
    (b' := alloc_header k b h size 1 nffree) :
  group_live free used ndir b -> 0 <= ndir < 2 ^ 31 -> 0 <= h -> d + frag <= group_size p 0 ->
  (forall j, d <= j < d + frag -> free j = true) ->
  (if size =? k_bsize k then nffree = 0 else 1 <= nffree < frag) ->
  group_live (fun j => free j && negb ((d <=? j) && (j <? d + n))) used (ndir + 1) b' /\
  read_be32 b' CG_CS_NIFREE_OFF = read_be32 b CG_CS_NIFREE_OFF.
Proof.
  intros [W [Ho Ha Hi] Ht Hs Hm Hd B I] Hnd Hh Hroom Hfree Hn. pose proof frag_pos.
  destruct (group_parts 0 first_group) as [_ _ _ _ _ Hg [Hm1 [Hm2 Hm3]]].
  assert (Hwhole : forall j, h * frag <= j < h * frag + frag -> bit_test b CG_FREE_OFF j = true).
  { intros j Hj. unfold d in *. rewrite B by lia. by apply Hfree. }
  destruct (alloc_header_spec b h size nffree W Hh) as [W' B' T1 T2 T3 T4 T5]; [lia|done|done|].
  fold b' in W', B', T1, T2, T3, T4, T5.
  assert (Hnr : 0 <= nffree < frag) by (destruct (size =? k_bsize k); lia).
  assert (Hent : entire (blk b frag h) = true).
  { rewrite <- block_is_free_blk. unfold block_is_free. apply forallb_seqZ. intros i Hi'. apply Hwhole. lia. }
  assert (Hlen : length (blk b frag h) = Z.to_nat frag) by apply blk_length.
  destruct (whole_counts frag _ n frag_sizes Hlen ltac:(lia) Hent) as (C1 & C2 & C3 & C4).
  assert (C0 : whole_count (blk b frag h) = 1) by (unfold whole_count; by rewrite Hent).
  assert (Hlow : forall x, 0 <= x -> x + 4 <= 24 \/ 32 <= x /\ x + 4 <= 36 \/ 724 <= x /\ x + 4 <= 984 ->
    read_be32 b' x = read_be32 b x).
  { intros x Hx Hr. apply read_be32_eq_on. intros i Hi'. apply T5;
    unfold CG_FREE_OFF, CG_BTOT_OFF, CG_IUSED_OFF; lia. }
  assert (Hnd' : read_be32 b' CG_NDBLK_OFF = read_be32 b CG_NDBLK_OFF)
    by (apply Hlow; unfold CG_NDBLK_OFF; lia).
  assert (Hni : read_be32 b' CG_CS_NIFREE_OFF = read_be32 b CG_CS_NIFREE_OFF)
    by (apply Hlow; unfold CG_CS_NIFREE_OFF; lia).
  assert (Hused : forall i, 0 <= i < 2048 -> bit_test b' CG_IUSED_OFF i = bit_test b CG_IUSED_OFF i).
  { intros i Hi'. pose proof (iused_byte i Hi'). apply bit_test_byte. unfold CG_IUSED_OFF, CG_MAGIC_OFF in *.
    apply T5; unfold CG_FREE_OFF, CG_BTOT_OFF, CG_IUSED_OFF; lia. }
  assert (Hbl : 0 <= h < blocks s b).
  { unfold blocks. change (frags_per_block s) with frag. rewrite Hs. split; [done|].
    apply Z.lt_le_trans with (h + 1); [lia|]. apply Z.div_le_lower_bound; lia. }
  destruct F as [_ _ [Hi0 _] _ _ _ _ _ _ _ _ _ _ _ _].
  split; [|done]. constructor; rewrite ?Hnd'; try done.
  - constructor; [by rewrite Hnd'| |].
    + apply (acct_step s b b' d n false h 0); change (frags_per_block s) with frag; try done; try lia.
      * by apply small_group.
      * intros f c [[= <- <-]|[[= <- <-]|[]]].
        -- rewrite T1, C1, C0. f_equal.
        -- rewrite T2, C2, C3. f_equal. lia.
      * intros j Hj. rewrite T3 by done. f_equal. f_equal. by rewrite C4.
    + unfold iacct in *. rewrite Hni, Hi. apply sumZ_ext. intros i Hi'.
      change (inodes_per_group s) with (p_ipg p) in Hi'. rewrite Hused by lia. done.
  - intros j Hj. rewrite Hnd' in Hj. pose proof (read_be32_range b W CG_NDBLK_OFF).
    rewrite B' by lia. destruct (_ && _); [done|]. by apply Ht.
  - unfold CG_MAGIC_OFF in *. rewrite Hlow by lia. done.
  - rewrite T4, Hd, w32_small by lia. done.
  - intros j Hj. rewrite B' by lia. fold d n. rewrite <- B by done.
    destruct ((d <=? j) && (j <? d + n)); [by rewrite andb_false_r|by rewrite andb_true_r].
  - intros i Hi'. rewrite Hused by done. by apply I.
Qed.

Lemma iput_live free used ndir b i
    (b' := bit_set (add_be32 b CG_CS_NIFREE_OFF (-1)) CG_IUSED_OFF i) :
  group_live free used ndir b -> 0 <= i < p_ipg p -> used i = false ->
  group_live free (fun j => (j =? i) || used j) ndir b' /\
  read_be32 b' CG_CS_NBFREE_OFF = read_be32 b CG_CS_NBFREE_OFF /\
  read_be32 b' CG_CS_NFFREE_OFF = read_be32 b CG_CS_NFFREE_OFF /\
  read_be32 b' CG_CS_NIFREE_OFF = w32 (read_be32 b CG_CS_NIFREE_OFF - 1).
Proof.
  intros [W [Ho [A1 A2 A3 A4] Hi] Ht Hs Hm Hd B I] Hir Hu. pose proof frag_pos.
  destruct F as [_ _ [Hi0 _] _ _ _ _ _ _ _ _ _ _ _ _]. pose proof (iused_byte i ltac:(lia)) as Hib.
  assert (Hout : forall x, ~ (32 <= x < 36) -> ~ (CG_IUSED_OFF <= x < CG_MAGIC_OFF) -> b' x = b x).
  { intros x H1 H2. unfold b'. rewrite bit_set_out by lia. apply add_be32_out. unfold CG_CS_NIFREE_OFF. lia. }
  assert (Hw : forall x, 0 <= x -> x + 4 <= 32 \/ 36 <= x /\ x + 4 <= CG_IUSED_OFF \/ CG_MAGIC_OFF <= x ->
    read_be32 b' x = read_be32 b x) by (intros x; by apply inodes_frame).
  assert (Hused : forall j, 0 <= j < 2048 -> bit_test b' CG_IUSED_OFF j = (j =? i) || bit_test b CG_IUSED_OFF j).
  { intros j Hj. unfold b'. rewrite bit_test_set. f_equal. unfold add_be32. apply set_word_iused; [done|].
    unfold CG_CS_NIFREE_OFF, CG_IUSED_OFF. lia. }
  assert (Hbits : forall j, 0 <= j -> bit_test b' CG_FREE_OFF j = bit_test b CG_FREE_OFF j).
  { intros j Hj. apply bit_test_high; [|done]. unfold CG_FREE_OFF, CG_IUSED_OFF, CG_MAGIC_OFF in *.
    intros x Hx. apply Hout; unfold CG_IUSED_OFF, CG_MAGIC_OFF; lia. }
  unfold CG_IUSED_OFF, CG_MAGIC_OFF, CG_NDBLK_OFF, CG_CS_NBFREE_OFF, CG_CS_NFFREE_OFF, CG_CS_NDIR_OFF in *.
  assert (Hni : read_be32 b' CG_CS_NIFREE_OFF = w32 (read_be32 b CG_CS_NIFREE_OFF - 1)).
  { unfold b'. rewrite (read_be32_eq_on _ (add_be32 b CG_CS_NIFREE_OFF (-1))).
    - by rewrite read_add_be32.
    - intros x Hx. apply bit_set_out. unfold CG_CS_NIFREE_OFF in Hx. lia. }
  assert (Hblk : forall q, 0 <= q -> blk b' frag q = blk b frag q).
  { intros q Hq. apply blk_ext. intros x Hx. apply Hbits. nia. }
  assert (Hbl : blocks s b' = blocks s b) by (unfold blocks, CG_NDBLK_OFF; by rewrite Hw by lia).
  assert (Hnn : 0 <= blocks s b).
  { unfold blocks. change (frags_per_block s) with frag. apply Z.div_pos; [|lia].
    pose proof (read_be32_range b W CG_NDBLK_OFF). lia. }
  split; [|split_and!; [apply Hw; lia..|done]].
  constructor; unfold CG_NDBLK_OFF, CG_MAGIC_OFF, CG_CS_NDIR_OFF; try (rewrite Hw by lia; done).
  - unfold b'. auto with bytes.
  - constructor; [unfold CG_NDBLK_OFF; by rewrite Hw by lia| |].
    + constructor; rewrite ?Hbl; unfold CG_CS_NBFREE_OFF, CG_CS_NFFREE_OFF, CG_NDBLK_OFF; change (frags_per_block s) with frag in *.
      * rewrite Hw, A1 by lia. apply sumZ_ext. intros q Hq. by rewrite Hblk by lia.
      * rewrite Hw, A2 by lia. apply sumZ_ext. intros q Hq. by rewrite Hblk by lia.
      * intros j Hj. pose proof (run_word j Hj). rewrite Hw, A3 by (done || lia). apply sumZ_ext.
        intros q Hq. by rewrite Hblk by lia.
      * intros j Hj. rewrite Hw in Hj by lia. pose proof (read_be32_range b W 20). rewrite Hbits by lia. by apply A4.
    + unfold iacct in *. change (inodes_per_group s) with (p_ipg p) in *. rewrite Hni, Hi.
      set (f := fun j => if bit_test b CG_IUSED_OFF j then 0 else 1).
      set (g := fun j => if bit_test b' CG_IUSED_OFF j then 0 else 1).
      assert (Hup : sumZ g (p_ipg p) = sumZ f (p_ipg p) - f i + g i).
      { apply sumZ_update; [done|]. intros j Hj Hne. unfold f, g, CG_IUSED_OFF. rewrite Hused by lia.
        by rewrite (proj2 (Z.eqb_neq j i)). }
      assert (Ef : f i = 1) by (unfold f, CG_IUSED_OFF; by rewrite I, Hu by lia).
      assert (Eg : g i = 0) by (unfold g, CG_IUSED_OFF; by rewrite Hused, Z.eqb_refl by lia).
      rewrite Ef, Eg in Hup.
      pose proof (sumZ_bounds g 1 (p_ipg p) ltac:(lia) ltac:(intros q; unfold g; destruct (bit_test b' CG_IUSED_OFF q); lia)).
      rewrite w32_small by lia. lia.
  - intros j Hj. unfold CG_NDBLK_OFF in Hj. rewrite Hw in Hj by lia. pose proof (read_be32_range b W 20).
    rewrite Hbits by lia. apply Ht. exact Hj.
  - intros j Hj. rewrite Hbits by lia. by apply B.
  - intros j Hj. unfold CG_IUSED_OFF. rewrite Hused by done. f_equal. by apply I.
Qed.

(** What both operations do to the four counters. *)
Definition counters_change (b b' : buf) (ndir nbfree nifree nffree : Z) : Prop :=
  forall f e t d, In (f, e, t, d) (field_changes ndir nbfree nifree nffree) ->
    read_be32 b' f = w32 (read_be32 b f + d).
Lemma alloc_changes b h size nffree (b' := alloc_header k b h size 1 nffree) :
  take_spec b b' (h * frag) (frag - nffree) -> wf_buf b -> counters_change b b' 1 (-1) 0 nffree.
Proof.
  intros [W' _ T1 T2 _ T4 T5] W f e t d Hin. cbn in Hin.
  destruct_or! Hin; try done; injection Hin as <- <- <- <-; [done|done| |].
  - rewrite Z.add_0_r, w32_small by by apply read_be32_range. apply read_be32_eq_on. intros i Hi.
    unfold CG_CS_NIFREE_OFF in Hi. apply T5; unfold CG_FREE_OFF, CG_BTOT_OFF, CG_IUSED_OFF; lia.
  - rewrite T2. f_equal. lia.
Qed.
Lemma iput_changes b i (b' := bit_set (add_be32 b CG_CS_NIFREE_OFF (-1)) CG_IUSED_OFF i) :
  wf_buf b -> 0 <= i < 2048 -> counters_change b b' 0 0 (-1) 0.
Proof.
  intros W Hi f e t d Hin. pose proof (iused_byte i Hi) as Hb. unfold CG_IUSED_OFF, CG_MAGIC_OFF in Hb.
  assert (Hset : read_be32 b' f = read_be32 (add_be32 b CG_CS_NIFREE_OFF (-1)) f).
  { apply read_be32_eq_on. intros x Hx. apply bit_set_out. cbn in Hin.
    unfold CG_CS_NDIR_OFF, CG_CS_NBFREE_OFF, CG_CS_NIFREE_OFF, CG_CS_NFFREE_OFF, CG_IUSED_OFF in *.
    destruct_or! Hin; try done; injection Hin as <- <- <- <-; lia. }
  rewrite Hset. unfold add_be32.
  destruct (decide (f = CG_CS_NIFREE_OFF)) as [->|Hne].
  - rewrite read_write_be32. cbn in Hin. destruct_or! Hin; try done; by injection Hin as <- <- <-.
  - assert (d = 0 /\ 0 <= f /\ (f + 4 <= 32 \/ 36 <= f)) as (-> & Hf & Hr).
    { cbn in Hin. destruct_or! Hin; try done; injection Hin as <- <- <- <-; try done;
      unfold CG_CS_NDIR_OFF, CG_CS_NBFREE_OFF, CG_CS_NFFREE_OFF; lia. }
    rewrite word_out by (unfold CG_CS_NIFREE_OFF; lia). rewrite Z.add_0_r, w32_small by by apply read_be32_range. done.
Qed.
End group.
