(* ===== verification/FormatDisk.v ===== *)
(** * Formatting: the disk

    The whole of [nextufs_format] on a host file: the image it leaves is one the next open
    accepts and whose accounts agree. *)
From S2P Require Import Prelude.
From S2P Require Import Bytes.
From S2P Require Import Backend.
From S2P Require Import Superblock.
From S2P Require Import Image.
From S2P Require Import Inode.
From S2P Require Import CylGroup.
From S2P Require Import Alloc.
From S2P Require Import GrowGroups.
From S2P Require Import GrowDisk.
From S2P Require Import FormatPlan.
From S2P Require Import Format.
From S2P Require Import FormatSuper.
From S2P Require Import FormatGroups.

Definition no_counts : format := Fmt zeros zeros 0 0 0 0 0.

Section disk.
Context (o : format_options) (k : disk) (p : plan) (utime : Z).
Hypothesis S : supported o.
Hypothesis D : disk_facts o k.
Hypothesis F : plan_facts o k p.
Hypothesis Hsectors : 0 < fo_size_1k_sectors o <= INT32_MAX.
Hypothesis Htime : 0 <= utime < 2 ^ 32.
Hypothesis Hfits : fits k p.
Hypothesis Hbase : 0 <= fo_base_offset o.
Hypothesis Hwrite : fo_dry_run o = false.
Local Abbreviation s := (final_superblock (new_superblock o k p) utime no_counts).
Local Abbreviation frag := (k_frag k).
Local Abbreviation fsize := (k_fsize k).
Local Abbreviation base := (fo_base_offset o).
Implicit Types (v : buf) (w : world file).

Lemma made_geometry : geometry s.
Proof.
  apply (valid_geometry s 0 (fo_size_1k_sectors o * 1024)).
  - apply (final_wf o k p no_counts utime); try done. cbn. pose proof (pf_size _ _ _ F). lia.
  - assert (Hd : 0 <= m_dsize no_counts <= p_size p) by (cbn; pose proof (pf_size _ _ _ F); lia).
    unfold image_validate. rewrite (proj2 (formatted_shapes o k p no_counts utime D F Hsectors Hd)) by done.
    rewrite (formatted_sizes o k p no_counts utime) by done. cbn [orb].
    rewrite (formatted_extent o k p no_counts utime) by (done || lia). done.
Qed.

Lemma wf_encode_inode ino : wf_buf (encode_inode ino).
Proof.
  unfold encode_inode. cbv zeta.
  repeat first [apply wf_write_be32 | apply wf_write_be32s | apply wf_write_be64 | apply wf_write_be16]. apply wf_zeros.
Qed.

(** ** Transfers *)
Lemma wtfs_ok bno n b w w' : wtfs o bno n b w = (Ok tt, w') -> bk_inv (w_ctx w) ->
  0 <= bno -> 0 <= n ->
  bk_inv (w_ctx w') /\ view w' = blit (view w) (disk_offset o bno) (to_bytes b) n.
Proof.
  intros Hr Hi Hb Hn. unfold wtfs in Hr. rewrite Hwrite in Hr.
  apply bind_ok in Hr as (c & w1 & H1 & Hr). destruct (Z.eqb_spec c n) as [->|]; [|done].
  injection Hr as <-. unfold lift in H1. destruct (pwrite b n (disk_offset o bno) (w_ctx w)) as [r f] eqn:E.
  injection H1 as -> <-. cbn [w_ctx]. unfold view. cbn [w_ctx bk_view bk_inv raw_backend_spec] in *.
  assert (Ho : 0 <= disk_offset o bno) by (unfold disk_offset, DEV_BSIZE; lia).
  split; [by destruct (pwrite_inv _ _ _ _ _ _ Hi Hn Ho E)|]. by apply pwrite_data in E as [_ E].
Qed.
Lemma rdfs_ok bno n w b w' : rdfs o bno n w = (Ok b, w') -> bk_inv (w_ctx w) -> 0 <= n ->
  bk_inv (w_ctx w') /\ view w' = view w /\ b = slice (view w) (disk_offset o bno).
Proof.
  intros Hr Hi Hn. unfold rdfs in Hr. apply bind_ok in Hr as ([c b1] & w1 & H1 & Hr).
  destruct (Z.eqb_spec c n) as [->|]; [|done]. injection Hr as <- <-.
  unfold lift in H1. destruct (pread n (disk_offset o bno) (w_ctx w)) as [r f] eqn:E.
  injection H1 as -> <-. cbn [w_ctx]. unfold view. cbn [w_ctx bk_view bk_inv raw_backend_spec] in *.
  pose proof (pread_frame _ _ _ _ _ E) as (Hd & Hs & Hy). apply pread_ok in E as [_ ->]; [|done].
  split_and!; [|by rewrite Hd|done]. unfold file_inv in *. by rewrite Hd, Hs.
Qed.

(** [n] bytes at [lo] were written, and nothing else. *)
Record wrote (w w' : world file) (lo n : Z) (b : buf) : Prop := Wrote {
  wr_inv : bk_inv (w_ctx w');
  wr_in : forall i, 0 <= i < n -> view w' (lo + i) = b i;
  wr_out : forall i, ~ (lo <= i < lo + n) -> view w' i = view w i;
}.
Lemma wtfs_wrote bno n b w w' : wtfs o bno n b w = (Ok tt, w') -> bk_inv (w_ctx w) ->
  0 <= bno -> 0 <= n -> wf_buf b -> wrote w w' (disk_offset o bno) n b.
Proof.
  intros Hr Hi Hb Hn Hw. apply wtfs_ok in Hr as [Hi' Hv]; try done. constructor; [done| |].
  - intros i Hii. rewrite Hv, blit_in by lia. replace (disk_offset o bno + i - disk_offset o bno) with i by lia.
    by apply to_bytes_id.
  - intros i Hii. rewrite Hv. by apply blit_out.
Qed.

(** ** Places *)
Definition at_group (c : Z) : Z := base + cgstart_ k p c * fsize.
Lemma disk_offset_frag d : disk_offset o (fsbtodb_ k d) = base + d * fsize.
Proof.
  destruct (disk_numbers o k D) as [_ _ _ _ _ _ _ [N8 [N9 N9']] _ _ _ _ _ _ _ _ _].
  unfold disk_offset, fsbtodb_, DEV_BSIZE. rewrite Z.shiftl_mul_pow2, N9 by lia. lia.
Qed.
Definition data_bytes : Z := 24576 + k_bsize k + p_ipg p * 128.
Record places : Prop := Places {
  pl_bsize : k_bsize k = 4096 \/ k_bsize k = 8192;
  pl_fsize : 1024 <= fsize /\ fsize * frag = k_bsize k /\ 1 <= frag <= 8;
  pl_ipg : 4 <= p_ipg p <= 2048;
  pl_dblkno : p_dblkno p * fsize = data_bytes;
  pl_first : at_group 0 = base;
  pl_start : forall c, 0 <= c < p_ncg p -> base <= at_group c;
  pl_next : forall c c', 0 <= c < c' -> c' < p_ncg p -> at_group c + data_bytes <= at_group c';
  pl_beyond : forall c, 1 <= c < p_ncg p -> base + p_fpg p * fsize <= at_group c;
  pl_copy : forall c, base + cgsblock k p c * fsize = at_group c + 16384;
  pl_header : forall c, base + cgtod k p c * fsize = at_group c + 24576;
  pl_inodes : forall c, base + cgimin k p c * fsize = at_group c + 24576 + k_bsize k;
  pl_ncg : 1 <= p_ncg p <= 16384;
}.
Lemma group_places : places.
Proof.
  destruct (disk_numbers o k D) as [N1 N2 N3 _ _ _ _ _ _ _ _ _ _ N15 N16 N17 _].
  destruct (plan_counts o k p D F) as [_ _ _ C4 [C5 _] _ _ _ _ _].
  destruct F as [_ (_ & F1 & _) [Fi _] Fd _ _ _ _ _ Fs _ _ _ _ _].
  pose proof (block_size_pos _ N2).
  assert (Hst : forall c, 0 <= c -> 0 <= k_cgoffset k * Z.land c (not32 (k_cgmask k)))
    by (intros c Hc; by apply (stagger_facts o k p D F c Hc)).
  constructor; try done; try lia; unfold at_group, cgsblock, cgtod, cgimin, cgstart_, cgbase, data_bytes.
  - rewrite Z.land_0_l. lia.
  - intros c Hc. pose proof (Hst c ltac:(lia)). nia.
  - intros c c' Hc Hc'. pose proof (Hst c' ltac:(lia)). pose proof (Fs c ltac:(lia)) as Hm.
    unfold metadata_end in Hm. set (g := k_cgoffset k * Z.land c _) in *. set (g' := k_cgoffset k * Z.land c' _) in *.
    assert (p_fpg p * c + g + p_dblkno p <= p_fpg p * c' + g') by nia. nia.
  - intros c Hc. pose proof (Hst c ltac:(lia)). nia.
  - intros c. lia.
  - intros c. lia.
  - intros c. lia.
Qed.

Definition header (v : buf) (c : Z) : buf := slice v (at_group c + 24576).
Local Abbreviation made := (group_made o k p no_counts utime).

(** What a header means lies in its first [p_cgsize] bytes. *)
Local Abbreviation live := (group_live o k p no_counts utime).
Lemma header_sizes : 988 + (p_fpg p + 7) / 8 <= p_cgsize p <= k_bsize k.
Proof.
  destruct F as [_ _ _ _ _ _ _ _ _ _ _ Fc _ _ _]. unfold SIZEOF_CG, howmany in Fc.
  by replace (p_fpg p + (8 - 1)) with (p_fpg p + 7) in Fc by lia.
Qed.
Lemma header_ext b b' : eq_on 0 (p_cgsize p) b' b -> wf_buf b ->
  (forall x, 0 <= x -> x + 4 <= 984 -> read_be32 b' x = read_be32 b x) /\
  (forall j, 0 <= j < 8 * ((p_fpg p + 7) / 8) -> bit_test b' CG_FREE_OFF j = bit_test b CG_FREE_OFF j) /\
  (forall i, 0 <= i < 2048 -> bit_test b' CG_IUSED_OFF i = bit_test b CG_IUSED_OFF i) /\
  (group_ok s b -> group_ok s b') /\ (clean_tail s b -> clean_tail s b').
Proof.
  intros Heq W. pose proof header_sizes as Hs. pose proof made_geometry as G.
  pose proof (Z.div_pos (p_fpg p + 7) 8 ltac:(pose proof (pf_fpg _ _ _ F); lia) ltac:(lia)).
  assert (Hw : forall x, 0 <= x -> x + 4 <= 984 -> read_be32 b' x = read_be32 b x).
  { intros x H1 H2. apply read_be32_eq_on. intros i Hi. apply Heq. lia. }
  assert (Hb : forall j, 0 <= j < 8 * ((p_fpg p + 7) / 8) -> bit_test b' CG_FREE_OFF j = bit_test b CG_FREE_OFF j).
  { intros j Hj. apply bit_test_byte, Heq. unfold CG_FREE_OFF. pose proof (Z.div_pos j 8 ltac:(lia) ltac:(lia)).
    pose proof (Z.div_lt_upper_bound j 8 ((p_fpg p + 7) / 8) ltac:(lia) ltac:(lia)). lia. }
  split_and!; [done|done| | |].
  - intros i Hi. pose proof (iused_byte i Hi) as Hbb. unfold CG_IUSED_OFF, CG_MAGIC_OFF in *.
    apply bit_test_byte, Heq. unfold CG_IUSED_OFF. lia.
  - intros Ho. apply (group_ok_eq_on s b b'); done.
  - intros Ht j Hj. unfold CG_NDBLK_OFF in Hj. rewrite Hw in Hj by lia. pose proof (read_be32_range b W 20).
    rewrite Hb by (change (frags_per_group s) with (p_fpg p) in Hj; lia). by apply Ht.
Qed.
Lemma group_bytes : p_fpg p <= 8 * ((p_fpg p + 7) / 8).
Proof. pose proof (Z.div_mod (p_fpg p + 7) 8 ltac:(lia)). pose proof (Z.mod_pos_bound (p_fpg p + 7) 8 ltac:(lia)). lia. Qed.
Lemma made_ext c b b' : eq_on 0 (p_cgsize p) b' b -> wf_buf b' -> made c b -> made c b'.
Proof.
  intros Heq W' [W Ho Ht Hs Hm Hd B I]. destruct (header_ext b b' Heq W) as (Hw & Hb & Hi & H1 & H2).
  pose proof group_bytes. constructor; auto; unfold CG_NDBLK_OFF, CG_MAGIC_OFF, CG_CS_NDIR_OFF in *;
    rewrite ?Hw by lia; try done.
  - intros j Hj. rewrite Hb by lia. by apply B.
  - intros i Hii. rewrite Hi by done. by apply I.
Qed.
Lemma live_ext free used nd b b' : eq_on 0 (p_cgsize p) b' b -> wf_buf b' ->
  live free used nd b -> live free used nd b'.
Proof.
  intros Heq W' [W Ho Ht Hs Hm Hd B I]. destruct (header_ext b b' Heq W) as (Hw & Hb & Hi & H1 & H2).
  pose proof group_bytes. constructor; auto; unfold CG_NDBLK_OFF, CG_MAGIC_OFF, CG_CS_NDIR_OFF in *;
    rewrite ?Hw by lia; try done.
  - intros j Hj. rewrite Hb by lia. by apply B.
  - intros i Hii. rewrite Hi by done. by apply I.
Qed.
Lemma whole_header b b' : eq_on 0 (k_bsize k) b' b -> eq_on 0 (p_cgsize p) b' b.
Proof. intros H i Hi. pose proof header_sizes. apply H. lia. Qed.

(** ** The groups *)
Definition total_of (f n : Z) (v : buf) : Z := sumZ (fun c => read_be32 (header v c) f) n.
Record groups_done (n : Z) (m : format) (w : world file) : Prop := GroupsDone {
  gd_inv : bk_inv (w_ctx w);
  gd_acg : wf_buf (m_acg m);
  gd_csums : wf_buf (m_csums m);
  gd_made : forall c, 0 <= c < n -> made c (header (view w) c);
  gd_inodes : forall c i, 0 <= c < n -> 0 <= i < p_ipg p * 128 ->
    view w (at_group c + 24576 + k_bsize k + i) = 0;
  gd_csum : forall c f e t, 0 <= c < n -> In (f, e, t) counter_fields ->
    read_be32 (m_csums m) (c * 16 + e) = read_be32 (header (view w) c) f;
  gd_ndir : m_ndir m = total_of CG_CS_NDIR_OFF n (view w);
  gd_nbfree : m_nbfree m = total_of CG_CS_NBFREE_OFF n (view w);
  gd_nifree : m_nifree m = total_of CG_CS_NIFREE_OFF n (view w);
  gd_nffree : m_nffree m = total_of CG_CS_NFFREE_OFF n (view w);
  gd_dsize : 0 <= m_dsize m <= Z.min (n * p_fpg p) (p_size p);
}.

Lemma data_of_group c : 0 <= c < p_ncg p ->
  0 <= (if c =? 0 then 0 else data_lower k p c) + (group_size p c - data_begin k p c) <= group_size p c /\
  Z.min (c * p_fpg p) (p_size p) + group_size p c = Z.min ((c + 1) * p_fpg p) (p_size p).
Proof.
  intros Hc. destruct (group_parts o k p D F c Hc) as [[S1 S2] S3 [S4 _] [S6 S7] _ Hg _].
  destruct (group_begin o k p D F c Hc) as [Hb _]. unfold roundup in Hb.
  destruct (plan_counts o k p D F) as [C1 _ _ _ _ Hlt _ _ _ _].
  pose proof (howmany_bounds (data_begin k p c) frag ltac:(lia)).
  split; [destruct (c =? 0); lia|]. unfold group_size, cgbase in *.
  assert (c * p_fpg p <= (p_ncg p - 1) * p_fpg p) by nia. lia.
Qed.

Lemma header_kept v v' c : (forall i, at_group c + 24576 <= i < at_group c + 24576 + k_bsize k -> v' i = v i) ->
  eq_on 0 (k_bsize k) (header v' c) (header v c).
Proof. intros H i Hi. unfold header, slice. apply H. lia. Qed.
Lemma counter_word f e t b b' : In (f, e, t) counter_fields -> eq_on 0 (k_bsize k) b' b ->
  read_be32 b' f = read_be32 b f.
Proof.
  intros Hin Heq. destruct (counter_field_small _ _ _ Hin). destruct group_places as [P1 _ _ _ _ _ _ _ _ _ _ _].
  apply read_be32_eq_on. intros i Hi. apply Heq. lia.
Qed.
Lemma total_of_ext f e t n v v' : In (f, e, t) counter_fields ->
  (forall c, 0 <= c < n -> eq_on 0 (k_bsize k) (header v' c) (header v c)) ->
  total_of f n v' = total_of f n v.
Proof. intros Hin H. apply sumZ_ext. intros c Hc. eapply counter_word; [done|]. by apply H. Qed.

Lemma quiet_view w w' i : quiet w w' -> bk_inv (w_ctx w) -> view w' i = view w i.
Proof. intros [_ Q _ _] Hi. apply (Q Hi). Qed.
Lemma write_inode_block_wrote bno count b w w' : write_inode_block o bno count b w = (Ok tt, w') ->
  bk_inv (w_ctx w) -> 0 <= bno -> 0 <= count -> wf_buf b ->
  wrote w w' (disk_offset o bno) (count * 128) b.
Proof.
  intros Hr Hi Hb Hc Hw. unfold write_inode_block in Hr. apply bind_ok in Hr as ([] & w1 & H1 & Hr).
  apply malloc_quiet in H1 as Hq. apply wtfs_wrote in Hr as [Hi' Hin Hout]; try done; [|by apply Hq|lia].
  constructor; [done..|]. intros i Hii. rewrite Hout by done. by apply quiet_view.
Qed.
Lemma frag_sector d : 0 <= d -> 0 <= fsbtodb_ k d.
Proof. intros Hd. unfold fsbtodb_. by apply Z.shiftl_nonneg. Qed.
(** The addresses that are written. *)
Lemma group_sectors c : 0 <= c < p_ncg p ->
  0 <= cgsblock k p c /\ 0 <= cgtod k p c /\ 0 <= cgimin k p c.
Proof.
  intros Hc. destruct group_places as [P1 P2 _ _ _ P5 _ _ P6 P7 P8 _]. pose proof (P5 c Hc).
  pose proof (P6 c). pose proof (P7 c). pose proof (P8 c). nia.
Qed.

Lemma initcg_writes c m w m' w' (b := group_header k p utime (m_acg m) c) :
  initcg o k p utime c m w = (Ok m', w') -> bk_inv (w_ctx w) -> 0 <= c < p_ncg p -> wf_buf (m_acg m) ->
  m' = count_group k p m b c /\ bk_inv (w_ctx w') /\ made c b /\
  (forall i, 0 <= i < p_ipg p * 128 -> view w' (at_group c + 24576 + k_bsize k + i) = 0) /\
  eq_on 0 (k_bsize k) (header (view w') c) b /\
  forall i, ~ (at_group c + 24576 <= i < at_group c + data_bytes) -> view w' i = view w i.
Proof.
  intros Hr Hi Hc Hw. unfold initcg in Hr. apply bind_ok in Hr as ([] & w1 & H1 & Hr). fold b in Hr.
  apply bind_ok in Hr as ([] & w2 & H2 & Hr). injection Hr as <- <-.
  destruct (group_sectors c Hc) as (_ & G1 & G2). destruct group_places as [P1 _ P3 _ _ _ _ _ _ P7 P8 _].
  pose proof (group_header_made o k p no_counts utime D F c (m_acg m) Hc Hw) as Hm. fold b in Hm.
  apply write_inode_block_wrote in H1 as [I1 A1 O1]; [|done|by apply frag_sector|lia|apply wf_zeros].
  unfold write_cg_block in H2.
  apply wtfs_wrote in H2 as [I2 A2 O2]; [|done|by apply frag_sector|lia|by apply Hm].
  rewrite disk_offset_frag, P8 in A1, O1. rewrite disk_offset_frag, P7 in A2, O2.
  unfold data_bytes in *. split_and!; [done..| | |].
  - intros i Hii. rewrite O2 by lia. by apply A1.
  - intros i Hii. unfold header, slice. by apply A2.
  - intros i Hii. rewrite O2, O1 by lia. done.
Qed.

Lemma csum_copy cs b c f e t : wf_buf cs -> wf_buf b -> In (f, e, t) counter_fields ->
  read_be32 (blit cs (c * SIZEOF_CSUM) (slice b CG_CS_NDIR_OFF) SIZEOF_CSUM) (c * 16 + e) = read_be32 b f.
Proof.
  intros Hc Hb Hin.
  assert (Hf : f = CG_CS_NDIR_OFF + e /\ 0 <= e /\ e + 4 <= 16).
  { cbn in Hin. unfold CG_CS_NDIR_OFF, CG_CS_NBFREE_OFF, CG_CS_NIFREE_OFF, CG_CS_NFFREE_OFF in *.
    destruct_or! Hin; try done; injection Hin as <- <- <-; lia. }
  destruct Hf as (-> & He). unfold SIZEOF_CSUM.
  rewrite read_blit_in by lia. by rewrite slice_read_be32.
Qed.

Lemma total_snoc f n v : 0 <= n -> total_of f (n + 1) v = total_of f n v + read_be32 (header v n) f.
Proof. intros Hn. unfold total_of. by rewrite sumZ_snoc. Qed.
Lemma counter_in f : In f [CG_CS_NDIR_OFF; CG_CS_NBFREE_OFF; CG_CS_NIFREE_OFF; CG_CS_NFFREE_OFF] ->
  exists e t, In (f, e, t) counter_fields.
Proof. cbn. intros H. destruct_or! H; subst; do 2 eexists; eauto 6. Qed.

Lemma initcg_done n m w m' w' : groups_done n m w -> 0 <= n < p_ncg p ->
  initcg o k p utime n m w = (Ok m', w') -> groups_done (n + 1) m' w'.
Proof.
  intros [I Wa Wc Gm Gi Gc G1 G2 G3 G4 G5] Hn Hr.
  apply initcg_writes in Hr as (-> & I' & Hm & Hz & Hh & Hout); try done.
  set (b := group_header k p utime (m_acg m) n) in *. pose proof (gm_wf _ _ _ _ _ _ _ Hm) as Wb.
  destruct group_places as [P1 _ P3 _ _ _ P6 _ _ _ _ P12]. unfold data_bytes in *.
  assert (Hkeep : forall c i, 0 <= c < n -> at_group c + 24576 <= i < at_group c + data_bytes ->
    view w' i = view w i).
  { intros c i Hc Hii. unfold data_bytes in *. apply Hout. pose proof (P6 c n ltac:(lia) ltac:(lia)). lia. }
  assert (Hhk : forall c, 0 <= c < n -> eq_on 0 (k_bsize k) (header (view w') c) (header (view w) c)).
  { intros c Hc. apply header_kept. intros i Hii. apply (Hkeep c); unfold data_bytes; lia. }
  assert (Wv : wf_buf (view w')) by by apply bk_view_wf.
  assert (Hmade : forall c, 0 <= c < n + 1 -> made c (header (view w') c)).
  { intros c Hc. destruct (decide (c = n)) as [->|Hne].
    - apply (made_ext n b); [by apply whole_header|by apply wf_slice|done].
    - apply (made_ext c (header (view w) c)); [apply whole_header, Hhk; lia|by apply wf_slice|apply Gm; lia]. }
  assert (Htot : forall f, In f [CG_CS_NDIR_OFF; CG_CS_NBFREE_OFF; CG_CS_NIFREE_OFF; CG_CS_NFFREE_OFF] ->
    total_of f (n + 1) (view w') = total_of f n (view w) + read_be32 b f).
  { intros f Hf. destruct (counter_in f Hf) as (e & t & Hin). rewrite total_snoc by lia. f_equal.
    - by apply (total_of_ext f e t).
    - by apply (counter_word f e t). }
  unfold count_group. constructor; cbn [m_acg m_csums m_ndir m_nbfree m_nifree m_nffree m_dsize]; try done.
  - apply wf_blit; [done|by apply wf_slice].
  - intros c i Hc Hii. destruct (decide (c = n)) as [->|Hne]; [by apply Hz|].
    rewrite (Hkeep c) by (unfold data_bytes; lia). apply Gi; [lia|done].
  - intros c f e t Hc Hin. destruct (decide (c = n)) as [->|Hne].
    + rewrite (csum_copy _ b n f e t) by done. symmetry. by apply (counter_word f e t).
    + pose proof (counter_field_small _ _ _ Hin). rewrite (read_be32_eq_on _ (m_csums m)).
      * rewrite (Gc c f e t) by (done || lia). symmetry. apply (counter_word f e t); [done|]. apply Hhk. lia.
      * intros i Hii. apply blit_out. unfold SIZEOF_CSUM. lia.
  - rewrite Htot, <- G1 by (cbn; auto). done.
  - rewrite Htot, <- G2 by (cbn; auto). done.
  - rewrite Htot, <- G3 by (cbn; auto). done.
  - rewrite Htot, <- G4 by (cbn; auto). done.
  - pose proof (data_of_group n Hn). lia.
Qed.

Lemma all_groups_done m w m' w' : groups_done 0 m w ->
  fold_each (seqZ 0 (p_ncg p)) (initcg o k p utime) m w = (Ok m', w') -> groups_done (p_ncg p) m' w'.
Proof.
  intros H0 Hr. pose proof (pl_ncg group_places).
  apply (fold_each_inv (fun n m w => groups_done n m w)) in Hr;
    [by rewrite Z.add_0_l in Hr|lia|done|].
  intros n b x b' x' Hn Hd Hx. eapply initcg_done; [exact Hd|lia|exact Hx].
Qed.

(** ** The first directories *)
Definition totals (m : format) : list (Z * Z) :=
  [(CG_CS_NDIR_OFF, m_ndir m); (CG_CS_NBFREE_OFF, m_nbfree m); (CG_CS_NIFREE_OFF, m_nifree m);
   (CG_CS_NFFREE_OFF, m_nffree m)].
Record started (free used : Z -> bool) (ndir : Z) (m : format) (w : world file) : Prop := Started {
  st_inv : bk_inv (w_ctx w);
  st_acg : wf_buf (m_acg m);
  st_csums : wf_buf (m_csums m);
  st_live : live free used ndir (header (view w) 0);
  st_made : forall c, 1 <= c < p_ncg p -> made c (header (view w) c);
  st_csum : forall c f e t, 0 <= c < p_ncg p -> In (f, e, t) counter_fields ->
    read_be32 (m_csums m) (c * 16 + e) = read_be32 (header (view w) c) f;
  st_total : forall f x, In (f, x) (totals m) -> w32 x = w32 (total_of f (p_ncg p) (view w));
  st_dsize : 0 <= m_dsize m <= p_size p;
}.
Lemma groups_started m w : groups_done (p_ncg p) m w -> started (free_at k p 0) (reserved 0) 0 m w.
Proof.
  intros [I Wa Wc Gm Gi Gc G1 G2 G3 G4 G5]. pose proof (pl_ncg group_places).
  constructor; try done.
  - apply made_live, Gm. lia.
  - intros c Hc. apply Gm. lia.
  - intros f x Hin. cbn in Hin. destruct_or! Hin; try done; injection Hin as <- <-; by f_equal.
  - lia.
Qed.

(** One operation on the first header, as [alloc] and [iput] do it. *)
Lemma count_words cs a b c d f e t x : wf_buf cs -> In (f, e, t, x) (field_changes a b c d) ->
  let cs' := add_be32 (add_be32 (add_be32 (add_be32 cs 0 a) 4 b) 8 c) 12 d in
  wf_buf cs' /\ read_be32 cs' e = w32 (read_be32 cs e + x) /\
  forall i, ~ (0 <= i < 16) -> cs' i = cs i.
Proof.
  intros W Hin cs'. split; [unfold cs'; auto 10 with bytes|]. split.
  - cbn in Hin. unfold cs', add_be32. destruct_or! Hin; try done; injection Hin as <- <- <- <-;
      repeat first [rewrite word_out by lia | rewrite read_write_be32]; done.
  - intros i Hi. unfold cs'. by rewrite !add_be32_out by lia.
Qed.
Lemma started_step free used nd free' used' nd' m w b' w' a c d e :
  started free used nd m w -> live free' used' nd' b' -> counters_change (header (view w) 0) b' a c d e ->
  bk_inv (w_ctx w') -> (forall i, 0 <= i < k_bsize k -> view w' (at_group 0 + 24576 + i) = b' i) ->
  (forall i, ~ (at_group 0 + 24576 <= i < at_group 0 + data_bytes) -> view w' i = view w i) ->
  started free' used' nd' (count_alloc m b' a c d e) w'.
Proof.
  intros [I Wa Wc L Gm Gc Gt Gd] L' Hch I' Hin Hout. assert (Wb : wf_buf b') by apply L'.
  destruct group_places as [P1 _ P3 _ _ _ P6 _ _ _ _ P12]. unfold data_bytes in *.
  assert (Wv : wf_buf (view w')) by by apply bk_view_wf.
  assert (H0 : eq_on 0 (k_bsize k) (header (view w') 0) b').
  { intros i Hi. unfold header, slice. by apply Hin. }
  assert (Hk : forall g, 1 <= g < p_ncg p -> eq_on 0 (k_bsize k) (header (view w') g) (header (view w) g)).
  { intros g Hg. apply header_kept. intros i Hi. apply Hout. pose proof (P6 0 g ltac:(lia) ltac:(lia)). lia. }
  assert (Hf : forall f i t x, In (f, i, t, x) (field_changes a c d e) -> In (f, i, t) counter_fields)
    by (intros f0 e0 t0 x0 H; cbn in H |- *; destruct_or! H; try done; injection H as <- <- <- <-; auto).
  assert (Hd : forall f e0 t, In (f, e0, t) counter_fields -> exists x, In (f, e0, t, x) (field_changes a c d e))
    by (intros f0 e0 t0 H; cbn in H |- *; destruct_or! H; try done; injection H as <- <- <-; eauto 6).
  constructor; cbn [count_alloc m_acg m_csums m_dsize]; try done.
  - apply (count_words _ a c d e CG_CS_NDIR_OFF 0 SB_NDIR_OFF a); [done|by left].
  - apply (live_ext _ _ _ b'); [by apply whole_header|by apply wf_slice|done].
  - intros g Hg. apply (made_ext g (header (view w) g)); [by apply whole_header, Hk|by apply wf_slice|by apply Gm].
  - intros g f e0 t Hg Hc. destruct (Hd f e0 t Hc) as [x Hx].
    destruct (count_words (m_csums m) a c d e f e0 t x Wc Hx) as (_ & E1 & E2).
    destruct (decide (g = 0)) as [->|Hne].
    + rewrite Z.mul_0_l, Z.add_0_l, E1. rewrite (counter_word f e0 t b') by done.
      rewrite (Hch f e0 t x Hx), <- (Gc 0 f e0 t) by done. done.
    + pose proof (counter_field_small _ _ _ Hc). rewrite (read_be32_eq_on _ (m_csums m)).
      * rewrite (Gc g f e0 t) by done. symmetry. apply (counter_word f e0 t); [done|]. apply Hk. lia.
      * intros i Hi. apply E2. lia.
  - assert (Htot : forall f e0 t x y, In (f, e0, t, x) (field_changes a c d e) -> In (f, y) (totals m) ->
      w32 (y + x) = w32 (total_of f (p_ncg p) (view w'))).
    { intros f e0 t x y Hx Hy. unfold total_of.
      rewrite (sumZ_update (fun g => read_be32 (header (view w) g) f) _ _ 0); [|lia|].
      - rewrite (counter_word f e0 t b' (header (view w') 0)) by (done || exact (Hf _ _ _ _ Hx)). rewrite (Hch f e0 t x Hx).
        pose proof (Gt f y Hy) as Ht. unfold total_of in Ht.
        rewrite <- (w32_add_l y), Ht, w32_add_l.
        set (sum := sumZ _ _). set (r := read_be32 (header (view w) 0) f).
        replace (sum - r + w32 (r + x)) with (w32 (r + x) + (sum - r)) by lia. rewrite w32_add_l. f_equal. lia.
      - intros g Hg Hne. symmetry. apply (counter_word f e0 t); [by eapply Hf|]. apply Hk. lia. }
    intros f y Hy. cbn in Hy.
    destruct_or! Hy; try done; injection Hy as <- <-; eapply Htot; cbn; eauto 6.
Qed.

Lemma read_header m w b w' : read_cg_block o p (fsbtodb_ k (cgtod k p 0)) (m_acg m) w = (Ok b, w') ->
  bk_inv (w_ctx w) -> wf_buf (m_acg m) ->
  bk_inv (w_ctx w') /\ view w' = view w /\ wf_buf b /\ eq_on 0 (p_cgsize p) b (header (view w) 0).
Proof.
  intros Hr Hi Ha. unfold read_cg_block in Hr. apply bind_ok in Hr as (x & w1 & H1 & Hr).
  injection Hr as <- <-. pose proof header_sizes as Hs. pose proof group_bytes.
  pose proof (pf_fpg _ _ _ F) as (_ & Hf & _).
  apply rdfs_ok in H1 as (Hi' & Hv & ->); [|done|lia].
  rewrite disk_offset_frag, (pl_header group_places).
  split_and!; [done|done| |].
  - apply wf_blit; [done|]. by apply wf_slice, bk_view_wf.
  - intros i Hii. rewrite blit_in by lia. unfold header, slice. f_equal. lia.
Qed.

Lemma free_block_counted free used nd b h : live free used nd b -> 0 <= h ->
  h * frag + frag <= group_size p 0 -> (forall j, h * frag <= j < h * frag + frag -> free j = true) ->
  0 < read_be32 b CG_CS_NBFREE_OFF.
Proof.
  intros [W [_ [A1 _ _ _] _] _ Hs _ _ B _] Hh Hroom Hfree.
  destruct (group_parts o k p D F 0 (first_group o k p D F)) as [_ _ _ _ _ Hg _].
  pose proof (frag_pos o k D) as Hf. rewrite A1.
  assert (Hin : 0 <= h < blocks s b).
  { unfold blocks. change (frags_per_block s) with frag. rewrite Hs. split; [done|].
    apply Z.lt_le_trans with (h + 1); [lia|]. apply Z.div_le_lower_bound; lia. }
  pose proof (sumZ_term (fun q => whole_count (blk b frag q)) _ h Hin
    ltac:(intros q; apply (counts_bounded frag b q 0), (frag_sizes o k D))) as Ht.
  cbn beta in Ht. destruct (full_block o k D b h) as (E & _); [|rewrite E in Ht; cbn in Ht |- *; lia].
  intros j Hj. rewrite B by nia. by apply Hfree.
Qed.

Definition takeable (free : Z -> bool) : Prop := exists h, 0 <= h /\ h * frag + frag <= group_size p 0 /\
  forall j, h * frag <= j < h * frag + frag -> free j = true.
Lemma dir_alloc_ok free used nd m w size d m' w' (n := howmany size fsize) :
  started free used nd m w -> 0 <= nd < 2 ^ 31 -> size = k_bsize k \/ size = fsize -> takeable free ->
  alloc o k p m size (Z.lor IFDIR UMASK) w = (Ok (d, m'), w') ->
  exists h, d = h * frag /\ 0 <= h /\ d + frag <= group_size p 0 /\
    (forall j, d <= j < d + frag -> free j = true) /\
    started (fun j => free j && negb ((d <=? j) && (j <? d + n))) used (nd + 1) m' w' /\
    forall i, ~ (at_group 0 + 24576 <= i < at_group 0 + 24576 + k_bsize k) -> view w' i = view w i.
Proof.
  intros Hst Hnd Hsize (h0 & Hh0 & Hroom0 & Hfree0) Hr. pose proof Hst as [I Wa Wc L _ _ _ _].
  unfold alloc in Hr. apply bind_ok in Hr as (b & w1 & H1 & Hr).
  apply read_header in H1 as (I1 & V1 & Wb & Eb); [|done|done].
  pose proof (live_ext _ _ _ _ b Eb Wb L) as Lb. pose proof (frag_pos o k D) as Hf.
  pose proof (free_block_counted _ _ _ b h0 Lb Hh0 Hroom0 Hfree0) as Hpos.
  rewrite (gl_magic _ _ _ _ _ _ _ _ _ Lb), Z.eqb_refl in Hr. cbn [negb orb] in Hr.
  rewrite (proj2 (Z.eqb_neq _ 0)) in Hr by lia.
  destruct (find _ _) as [h|] eqn:Ef.
  2: { exfalso. apply find_none with (x := h0) in Ef.
    - rewrite isblock_free in Ef by (done || apply (frag_sizes o k D)).
      unfold block_is_free in Ef. apply not_true_iff_false in Ef. apply Ef. apply forallb_seqZ. intros i Hi.
      destruct (group_parts o k p D F 0 (first_group o k p D F)) as [_ _ _ _ _ Hg _].
      rewrite (gl_map _ _ _ _ _ _ _ _ _ Lb) by nia. apply Hfree0. lia.
    - apply list_elem_of_In, elem_of_seqZ. rewrite (gl_size _ _ _ _ _ _ _ _ _ Lb).
      pose proof (howmany_bounds (group_size p 0) frag ltac:(lia)). nia. }
  apply find_some in Ef as [Hin Hfree]. apply list_elem_of_In, elem_of_seqZ in Hin.
  rewrite isblock_free in Hfree by (lia || apply (frag_sizes o k D)).
  unfold block_is_free in Hfree. rewrite forallb_seqZ in Hfree.
  destruct (group_parts o k p D F 0 (first_group o k p D F)) as [_ _ _ _ _ Hg _].
  pose proof (howmany_bounds (group_size p 0) frag ltac:(lia)) as Hhb.
  rewrite (gl_size _ _ _ _ _ _ _ _ _ Lb), Z.add_0_l in Hin.
  assert (Hroom : h * frag + frag <= group_size p 0).
  { apply Z.nlt_ge. intros Hlt. destruct (go_acct _ _ (gl_ok _ _ _ _ _ _ _ _ _ Lb)) as [_ _ _ A4].
    specialize (A4 (group_size p 0)). rewrite (gl_size _ _ _ _ _ _ _ _ _ Lb) in A4.
    assert (h * frag + frag <= howmany (group_size p 0) frag * frag) by nia.
    assert (Hb : blocks s b = howmany (group_size p 0) frag).
    { unfold blocks, howmany. rewrite (gl_size _ _ _ _ _ _ _ _ _ Lb). change (frags_per_block s) with frag.
      f_equal. lia. }
    rewrite Hb in A4. change (frags_per_block s) with frag in A4.
    specialize (Hfree (group_size p 0 - h * frag) ltac:(nia)).
    replace (h * frag + (group_size p 0 - h * frag)) with (group_size p 0) in Hfree by lia.
    rewrite A4 in Hfree by nia. done. }
  assert (Hall : forall j, h * frag <= j < h * frag + frag -> free j = true).
  { intros j Hj. rewrite <- (gl_map _ _ _ _ _ _ _ _ _ Lb) by nia.
    rewrite <- (Hfree (j - h * frag)) by lia. f_equal. lia. }
  destruct group_places as [P1 [P2 [P2' _]] P3 _ _ _ _ _ _ P7 _ _].
  set (nff := if size =? k_bsize k then 0 else frag - howmany size fsize) in *.
  assert (Hn : n = frag - nff /\ (if size =? k_bsize k then nff = 0 else 1 <= nff < frag)).
  { unfold nff, n. destruct (Z.eqb_spec size (k_bsize k)) as [->|Hne].
    - rewrite (howmany_unique _ _ frag) by nia. lia.
    - destruct Hsize as [?| ->]; [done|]. rewrite (howmany_unique _ _ 1) by nia. split; [lia|]. nia. }
  destruct Hn as [Hn Hnff]. change (Z.land (Z.lor IFDIR UMASK) IFDIR =? 0) with false in Hr. cbn match in Hr.
  apply bind_ok in Hr as ([] & w2 & H2 & Hr). injection Hr as <- <- <-.
  destruct (alloc_live o k p no_counts utime D F free used nd b h size nff Lb Hnd (proj1 Hin) Hroom Hall Hnff) as [L' _].
  rewrite <- Hn in L'.
  unfold write_cg_block in H2. destruct (group_sectors 0 (first_group o k p D F)) as (_ & G1 & _).
  apply wtfs_wrote in H2; [|done|by apply frag_sector|lia|by apply L'].
  rewrite disk_offset_frag, P7 in H2. destruct H2 as [I2 A2 O2].
  assert (Hw : wrote w w2 (at_group 0 + 24576) (k_bsize k) (alloc_header k b h size 1 nff)).
  { constructor; [done|done|]. intros i Hi. rewrite O2 by done. by rewrite V1. }
  exists h. split_and!; [done|lia|done|done| |by apply Hw].
  apply (started_step free used nd _ _ _ m w _ w2 1 (-1) 0 nff Hst L');
    [|by apply Hw|by apply Hw|intros i Hi; apply Hw; unfold data_bytes in *; lia].
  assert (Hch : counters_change b (alloc_header k b h size 1 nff) 1 (-1) 0 nff).
  { apply alloc_changes; [|done]. apply (alloc_header_spec o k p D F); try done; try lia.
    intros j Hj. rewrite <- (Hfree (j - h * frag)) by lia. f_equal. lia. }
  intros f e t x Hx. rewrite (Hch f e t x Hx). f_equal. f_equal.
  destruct (header_ext _ _ Eb) as (Hw' & _); [by apply L|]. apply Hw'; cbn in Hx;
  destruct_or! Hx; try done; injection Hx as <- <- <- <-; unfold CG_CS_NDIR_OFF, CG_CS_NBFREE_OFF, CG_CS_NIFREE_OFF, CG_CS_NFFREE_OFF; lia.
Qed.

Definition at_inodes : Z := at_group 0 + 24576 + k_bsize k.
Lemma iput_ok free used nd m w number ino m' w' :
  started free used nd m w -> 2 <= number <= 3 -> used number = false ->
  iput o k p m number ino w = (Ok m', w') ->
  started free (fun j => (j =? number) || used j) nd m' w' /\
  (forall i, at_inodes <= i < at_inodes + k_bsize k -> view w' i =
     if (number * 128 <=? i - at_inodes) && (i - at_inodes <? number * 128 + 128)
     then encode_inode ino (i - at_inodes - number * 128) else view w i) /\
  forall i, ~ (at_group 0 + 24576 <= i < at_inodes + k_bsize k) -> view w' i = view w i.
Proof.
  intros Hst Hn Hu Hr. pose proof Hst as [I Wa Wc L _ _ _ _].
  destruct group_places as [P1 P2 P3 _ _ _ _ _ _ P7 P8 _]. unfold at_inodes in *.
  destruct (disk_numbers o k D) as [_ _ _ _ _ _ _ _ _ N10 _ _ _ _ _ _ _].
  destruct (group_sectors 0 (first_group o k p D F)) as (_ & G1 & G2).
  unfold iput in Hr. apply bind_ok in Hr as (b & w1 & H1 & Hr).
  apply read_header in H1 as (I1 & V1 & Wb & Eb); [|done|done].
  pose proof (live_ext _ _ _ _ b Eb Wb L) as Lb.
  rewrite (gl_magic _ _ _ _ _ _ _ _ _ Lb), Z.eqb_refl in Hr. cbn [negb fail_if] in Hr.
  apply bind_ok in Hr as ([] & w1' & Hf & Hr). injection Hf as <-.
  destruct (iput_live o k p no_counts utime D F free used nd b number Lb ltac:(lia) Hu) as [L' _].
  set (b' := bit_set _ CG_IUSED_OFF number) in *.
  apply bind_ok in Hr as ([] & w2 & H2 & Hr). unfold write_cg_block in H2.
  apply wtfs_wrote in H2 as [I2 A2 O2]; [|done|by apply frag_sector|lia|by apply L'].
  rewrite disk_offset_frag, P7 in A2, O2.
  apply bind_ok in Hr as ([] & w2' & Hf & Hr). apply fail_if_ok in Hf as [_ ->].
  assert (Hd : itod k p number = cgimin k p 0 /\ itoo k number = number).
  { unfold itod, itoo. rewrite (Z.div_small number), (Z.mod_small number (p_ipg p)), (Z.mod_small number (k_inopb k)),
      (Z.div_small number (k_inopb k)), Z.shiftl_0_l by lia. split; [lia|done]. }
  destruct Hd as [Hd1 Hd2]. rewrite Hd1, Hd2 in Hr.
  apply bind_ok in Hr as (blk' & w3 & H3 & Hr). unfold read_inode_block in H3.
  apply rdfs_ok in H3 as (I3 & V3 & ->); [|done|lia]. rewrite disk_offset_frag, P8 in Hr.
  apply bind_ok in Hr as ([] & w4 & H4 & Hr). injection Hr as <- <-.
  apply write_inode_block_wrote in H4 as [I4 A4 O4]; [|done|by apply frag_sector|lia|].
  2: { apply wf_blit; [by apply wf_slice, bk_view_wf|apply wf_encode_inode]. }
  rewrite disk_offset_frag, P8, N10 in A4, O4.
  assert (Hipb : k_inopb k <= p_ipg p).
  { destruct (plan_counts o k p D F) as [_ _ Hm _ _ _ _ _ _ _]. apply Z.nlt_ge. intros Hlt.
    rewrite Z.mod_small in Hm by lia. lia. }
  split_and!.
  - apply (started_step free used nd _ _ _ m w b' w4 0 0 (-1) 0 Hst L'); [|done| |].
    + intros f e t x Hx. unfold b'. rewrite (iput_changes b number Wb ltac:(lia) f e t x Hx). f_equal. f_equal.
      destruct (header_ext _ _ Eb) as (Hw' & _); [by apply L|]. apply Hw'; cbn in Hx;
      destruct_or! Hx; try done; injection Hx as <- <- <- <-;
      unfold CG_CS_NDIR_OFF, CG_CS_NBFREE_OFF, CG_CS_NIFREE_OFF, CG_CS_NFFREE_OFF; lia.
    + intros i Hi. rewrite O4, V3 by lia. by apply A2.
    + intros i Hi. unfold data_bytes in Hi. rewrite O4, V3, O2, V1 by lia. done.
  - intros i Hi. set (x := i - (at_group 0 + 24576 + k_bsize k)).
    replace i with (at_group 0 + 24576 + k_bsize k + x) at 1 by lia.
    rewrite A4 by lia. unfold blit, slice. destruct (_ && _); [done|]. rewrite O2, V1 by lia. f_equal. unfold x. lia.
  - intros i Hi. rewrite O4, V3, O2, V1 by lia. done.
Qed.

(** The first data of the first group. *)
Definition data_start : Z := base + data_begin k p 0 * fsize.
Lemma first_data : data_start = base + data_bytes + p_cssize p /\ 0 <= p_cssize p /\
  data_begin k p 0 <= h_data k p 0 * frag /\
  (h_data k p 0 + 2) * frag <= group_size p 0 <= p_fpg p.
Proof.
  pose proof (first_group o k p D F) as H0.
  destruct (stagger_facts o k p D F 0 ltac:(lia)) as (_ & _ & _ & _ & G5 & G6).
  destruct (group_parts o k p D F 0 H0) as [_ _ [S4 S5] _ _ Hg _].
  destruct group_places as [_ [P2 _] _ P4 _ _ _ _ _ _ _ P12].
  pose proof (frag_pos o k D) as Hf. rewrite G5, Z.add_0_l in G6 by done. cbn [Z.eqb] in G6.
  destruct F as [_ _ _ _ _ _ _ _ _ _ _ _ [Fc _] _ Fr].
  pose proof (howmany_bounds (p_ncg p * 16) fsize ltac:(lia)) as Hc.
  assert (Hcs : howmany (p_cssize p) fsize * fsize = p_cssize p).
  { rewrite Fc at 2. f_equal. apply howmany_unique; [lia|]. rewrite Fc. nia. }
  split_and!.
  - unfold data_start. rewrite G6, Z.mul_add_distr_r, P4, Hcs. lia.
  - rewrite Fc. lia.
  - lia.
  - rewrite <- G6 in Fr. unfold roundup in Fr.
    pose proof (howmany_bounds (data_begin k p 0) frag ltac:(lia)) as Hb.
    assert (E : h_data k p 0 = howmany (data_begin k p 0) frag).
    { unfold h_data. apply Z.max_r. apply Z.nlt_ge. intros Hlt.
      assert (h_lower k p 0 = h_data k p 0) by (unfold h_data; lia). lia. }
    rewrite E. assert (Hm : Z.min (p_fpg p) (p_size p) = group_size p 0).
    { unfold group_size, cgbase. lia. }
    lia.
  - lia.
Qed.
Lemma free_data j : free_at k p 0 j = true -> data_begin k p 0 <= j < group_size p 0.
Proof. unfold free_at. cbn. lia. Qed.
Lemma data_free j : data_begin k p 0 <= j < group_size p 0 -> free_at k p 0 j = true.
Proof. unfold free_at. cbn. lia. Qed.

(** A write into the data of the first group. *)
Lemma started_keep free used nd m w w' : started free used nd m w -> bk_inv (w_ctx w') ->
  (forall c i, 0 <= c < p_ncg p -> at_group c + 24576 <= i < at_group c + data_bytes -> view w' i = view w i) ->
  started free used nd m w'.
Proof.
  intros [I Wa Wc L Gm Gc Gt Gd] I' Hk. destruct group_places as [P1 _ P3 _ _ _ _ _ _ _ _ P12].
  assert (Wv : wf_buf (view w')) by by apply bk_view_wf.
  assert (Hh : forall c, 0 <= c < p_ncg p -> eq_on 0 (k_bsize k) (header (view w') c) (header (view w) c)).
  { intros c Hc. apply header_kept. intros i Hi. apply (Hk c); [done|]. unfold data_bytes. lia. }
  constructor; try done.
  - apply (live_ext _ _ _ (header (view w) 0)); [apply whole_header, Hh; lia|by apply wf_slice|done].
  - intros c Hc. apply (made_ext c (header (view w) c)); [apply whole_header, Hh; lia|by apply wf_slice|by apply Gm].
  - intros c f e t Hc Hin. rewrite (Gc c f e t) by done. symmetry. apply (counter_word f e t); [done|by apply Hh].
  - intros f x Hx. rewrite (Gt f x Hx). f_equal. symmetry. cbn in Hx. unfold total_of.
    apply sumZ_ext. intros c Hc. destruct (counter_in f) as (e & t & Hin).
    { cbn. destruct_or! Hx; try done; injection Hx as <- <-; auto. }
    apply (counter_word f e t); [done|by apply Hh].
Qed.
Lemma write_dir_ok d n b w w' : write_dir_block o (fsbtodb_ k d) n b w = (Ok tt, w') -> bk_inv (w_ctx w) ->
  0 <= d -> 0 <= n <= frag * fsize -> data_begin k p 0 <= d -> d + frag <= group_size p 0 -> wf_buf b ->
  wrote w w' (base + d * fsize) n b /\
  data_start <= base + d * fsize /\ base + d * fsize + frag * fsize <= base + p_fpg p * fsize.
Proof.
  intros Hr Hi Hd Hn Hb He Hw. unfold write_dir_block in Hr.
  apply wtfs_wrote in Hr; [|done|by apply frag_sector|lia|done]. rewrite disk_offset_frag in Hr.
  destruct first_data as (_ & _ & _ & H). destruct group_places as [_ [P2 _] _ _ _ _ _ _ _ _ _ _].
  split; [done|]. unfold data_start. split; nia.
Qed.
Lemma dir_write_keeps free used nd m w w' d n b : started free used nd m w ->
  wrote w w' (base + d * fsize) n b -> 0 <= n <= frag * fsize -> data_start <= base + d * fsize ->
  base + d * fsize + frag * fsize <= base + p_fpg p * fsize -> started free used nd m w'.
Proof.
  intros Hst [I A O] Hn H1 H2. apply (started_keep _ _ _ _ w); [done|done|]. intros c i Hc Hi. apply O.
  destruct first_data as (E1 & E2 & _). destruct group_places as [_ _ _ _ P5 _ _ P8 _ _ _ _].
  destruct (decide (c = 0)) as [->|Hne]; [lia|]. pose proof (P8 c ltac:(lia)). lia.
Qed.

(** *** fsinit *)
Lemma wf_put_dirent b dst ino reclen namlen nm : wf_buf b -> Forall (fun x => 0 <= x < 256) nm ->
  wf_buf (put_dirent b dst ino reclen namlen nm).
Proof.
  intros W Hn. unfold put_dirent. apply wf_blit; [auto 10 with bytes|]. intros i. cbn.
  destruct (nth_in_or_default (Z.to_nat i) nm 0) as [Hin| ->]; [|lia].
  rewrite Forall_forall in Hn. by apply Hn, list_elem_of_In.
Qed.
Lemma wf_put_entries l : forall b cp left, wf_buf b -> Forall (fun e => Forall (fun x => 0 <= x < 256) (snd e)) l ->
  wf_buf (put_entries b cp left l).
Proof.
  induction l as [|[ino nm] l IH]; intros b cp left W Hl; [done|]. apply Forall_cons in Hl as [Hn Hl].
  cbn [put_entries]. destruct l as [|e l]; [by apply wf_put_dirent|]. apply IH; [by apply wf_put_dirent|done].
Qed.
Definition lost_found_block : buf :=
  foldl (fun b i => put_dirent b (i * DIRBLKSIZ) 0 DIRBLKSIZ 0 []) (makedir lost_found_dir)
    (seqZ 1 (howmany (k_bsize k) DIRBLKSIZ - 1)).
Lemma dir_bytes_wf : wf_buf lost_found_block /\ wf_buf (makedir root_dir).
Proof.
  assert (H : forall l, Forall (fun e : Z * list Z => Forall (fun x => 0 <= x < 256) (snd e)) l -> wf_buf (makedir l))
    by (intros l Hl; apply wf_put_entries; [apply wf_zeros|done]).
  split; [|apply H; apply (bool_decide_unpack _); vm_compute; exact I].
  unfold lost_found_block. generalize (seqZ 1 (howmany (k_bsize k) DIRBLKSIZ - 1)). intros l.
  assert (H0 : wf_buf (makedir lost_found_dir)) by (apply H; apply (bool_decide_unpack _); vm_compute; exact I).
  revert H0. generalize (makedir lost_found_dir). induction l as [|i l IH]; intros b Hb; cbn [foldl]; [done|].
  apply IH. by apply wf_put_dirent.
Qed.

Lemma first_takeable : takeable (free_at k p 0).
Proof.
  destruct first_data as (_ & _ & H1 & H2). pose proof (frag_pos o k D).
  destruct (group_parts o k p D F 0 (first_group o k p D F)) as [[S1 S2] _ [_ S5] _ _ _ _].
  exists (h_data k p 0). split; [nia|]. split; [lia|]. intros j Hj. apply data_free. lia.
Qed.
Lemma second_takeable h : takeable (fun j => free_at k p 0 j && negb ((h * frag <=? j) && (j <? h * frag + frag))).
Proof.
  destruct first_data as (_ & _ & H1 & H2). pose proof (frag_pos o k D).
  destruct (group_parts o k p D F 0 (first_group o k p D F)) as [[S1 S2] _ [_ S5] _ _ _ _].
  assert (0 <= h_data k p 0) by nia.
  destruct (decide (h = h_data k p 0)) as [->|Hne].
  - exists (h_data k p 0 + 1). split; [lia|]. split; [lia|]. intros j Hj. rewrite data_free by lia. lia.
  - exists (h_data k p 0). split; [lia|]. split; [lia|]. intros j Hj. rewrite data_free by lia.
    cbn [andb]. apply negb_true_iff, andb_false_iff. destruct (decide (h < h_data k p 0)); [right|left]; nia.
Qed.

(** What [fsinit] leaves. *)
Definition dirs_taken (d1 d2 j : Z) : bool :=
  (free_at k p 0 j && negb ((d1 <=? j) && (j <? d1 + frag))) && negb ((d2 <=? j) && (j <? d2 + 1)).
Definition inodes_taken (i : Z) : bool := (i =? ROOTINO) || ((i =? LOSTFOUNDINO) || reserved 0 i).
Record initialised (m : format) (w0 w : world file) (d1 d2 : Z) : Prop := Initialised {
  ii_started : started (dirs_taken d1 d2) inodes_taken 2 m w;
  ii_d1 : data_begin k p 0 <= d1 /\ d1 + frag <= group_size p 0 /\ d1 mod frag = 0;
  ii_d2 : data_begin k p 0 <= d2 /\ d2 + frag <= group_size p 0 /\ d2 mod frag = 0;
  ii_apart : d1 + frag <= d2 \/ d2 + frag <= d1;
  ii_lost : forall i, 0 <= i < k_bsize k -> view w (base + d1 * fsize + i) = lost_found_block i;
  ii_root : forall i, 0 <= i < fsize -> view w (base + d2 * fsize + i) = makedir root_dir i;
  ii_inodes : forall i, 0 <= i < k_bsize k -> view w (at_inodes + i) =
    (if (256 <=? i) && (i <? 384) then encode_inode (dir_inode k utime PREDEFDIR DIRBLKSIZ d2) (i - 256)
     else if (384 <=? i) && (i <? 512) then encode_inode (dir_inode k utime 2 (k_bsize k) d1) (i - 384)
     else view w0 (at_inodes + i));
  ii_out : forall i, ~ (at_group 0 + 24576 <= i < at_inodes + k_bsize k) ->
    ~ (data_start <= i < base + p_fpg p * fsize) -> view w i = view w0 i;
}.
Lemma inode_block_inside : k_bsize k <= p_ipg p * 128.
Proof.
  destruct (plan_counts o k p D F) as [_ _ Hm _ _ _ _ _ _ _].
  destruct (disk_numbers o k D) as [N1 _ _ _ _ _ _ _ _ N10 _ _ _ _ _ _ _].
  pose proof (pl_ipg group_places). enough (k_inopb k <= p_ipg p) by lia. apply Z.nlt_ge. intros Hlt.
  rewrite Z.mod_small in Hm by lia. lia.
Qed.
Lemma fsinit_ok m w m' w' : started (free_at k p 0) (reserved 0) 0 m w ->
  fsinit o k p utime m w = (Ok m', w') -> exists d1 d2, initialised m' w w' d1 d2.
Proof.
  intros Hst Hr. unfold fsinit in Hr. fold lost_found_block in Hr. destruct dir_bytes_wf as [Wl Wr].
  destruct group_places as [P1 [P2 [P2' P2'']] P3 _ P5 _ _ _ _ _ _ _].
  destruct first_data as (E1 & E2 & E3 & E4).
  apply bind_ok in Hr as ([d1 m1] & w1 & H1 & Hr).
  apply (dir_alloc_ok _ _ _ _ _ _ _ _ _ Hst) in H1 as (h1 & Ed1 & Hh1 & Hr1 & Hf1 & St1 & O1);
    [|lia|by left|apply first_takeable].
  rewrite (howmany_unique (k_bsize k) fsize frag) in St1 by nia.
  apply bind_ok in Hr as ([] & w2 & H2 & Hr).
  pose proof (free_data d1 (Hf1 d1 ltac:(lia))) as B1.
  destruct (write_dir_ok d1 (k_bsize k) _ w1 w2 H2) as (Wt2 & A1 & A2); [by apply St1|lia|lia|lia|done|done|].
  pose proof (dir_write_keeps _ _ _ _ _ _ _ _ _ St1 Wt2 ltac:(lia) A1 A2) as St2. destruct Wt2 as [_ I2 O2].
  apply bind_ok in Hr as (m3 & w3 & H3 & Hr).
  apply (iput_ok _ _ _ _ _ _ _ _ _ St2) in H3 as (St3 & I3 & O3); [|unfold LOSTFOUNDINO; lia|done].
  apply bind_ok in Hr as ([d2 m4] & w4 & H4 & Hr).
  apply (dir_alloc_ok _ _ _ _ _ _ _ _ _ St3) in H4 as (h2 & Ed2 & Hh2 & Hr2 & Hf2 & St4 & O4);
    [|lia|by right|rewrite Ed1; apply second_takeable].
  rewrite (howmany_unique fsize fsize 1) in St4 by nia.
  apply bind_ok in Hr as ([] & w5 & H5 & Hr).
  pose proof (Hf2 d2 ltac:(lia)) as B2. apply andb_true_iff in B2 as [B2 B2']. apply free_data in B2.
  destruct (write_dir_ok d2 fsize _ w4 w5 H5) as (Wt5 & A3 & A4); [by apply St4|lia|nia|lia|done|done|].
  pose proof (dir_write_keeps _ _ _ _ _ _ _ _ _ St4 Wt5 ltac:(nia) A3 A4) as St5. destruct Wt5 as [_ I5 O5].
  apply (iput_ok _ _ _ _ _ _ _ _ _ St5) in Hr as (St6 & I6 & O6); [|unfold ROOTINO; lia|done].
  assert (Hap : h1 <> h2).
  { intros ->. apply negb_true_iff in B2'. lia. }
  pose proof inode_block_inside as Hib. unfold data_bytes, at_inodes in *. rewrite P5 in *.
  assert (Hsep : d1 + frag <= d2 \/ d2 + frag <= d1) by (destruct (Z.lt_ge_cases h1 h2); nia).
  assert (Hbytes : d1 * fsize + k_bsize k <= d2 * fsize \/ d2 * fsize + k_bsize k <= d1 * fsize) by nia.
  assert (Hfb : fsize <= k_bsize k) by nia. exists d1, d2. clear Hf1 Hf2. constructor.
  - exact St6.
  - split_and!; [lia|lia|rewrite Ed1; apply Z_mod_mult].
  - split_and!; [lia|lia|rewrite Ed2; apply Z_mod_mult].
  - done.
  - intros i Hi. rewrite O6, O5, O4, O3 by lia. by apply I2.
  - intros i Hi. rewrite O6 by nia. by apply I5.
  - intros i Hi. unfold at_inodes. rewrite P5, I6 by lia. unfold ROOTINO, LOSTFOUNDINO in *.
    set (x := base + 24576 + k_bsize k) in *. replace (x + i - x) with i by lia.
    change (2 * 128) with 256. change (256 + 128) with 384.
    destruct ((256 <=? i) && (i <? 384)); [done|]. rewrite O5, O4, I3 by lia.
    replace (x + i - x) with i by lia. change (3 * 128) with 384. change (384 + 128) with 512.
    destruct ((384 <=? i) && (i <? 512)); [done|]. by rewrite O2, O1 by lia.
  - intros i Hi1 Hi2. rewrite P5 in Hi1. unfold at_inodes in Hi1. rewrite P5 in Hi1.
    rewrite O6, O5, O4, O3, O2, O1 by lia. done.
Qed.

(** *** The superblocks and the summaries *)
Definition superblock_bytes (m : format) : buf :=
  encode_superblock (final_superblock (new_superblock o k p) utime m) (table_cpc k) (rotational_tables k).
Lemma foldl_wf {A} (f : buf -> A -> buf) l : (forall b x, wf_buf b -> wf_buf (f b x)) ->
  forall b, wf_buf b -> wf_buf (foldl f b l).
Proof. intros Hf. induction l as [|x l IH]; intros b Hb; cbn [foldl]; auto. Qed.
Lemma wf_superblock_bytes m : wf_buf (superblock_bytes m).
Proof.
  assert (Ht : wf_buf (rotational_tables k)).
  { unfold rotational_tables. destruct (table_cpc k =? 0); [apply wf_zeros|]. apply foldl_wf; [|auto with bytes].
    intros b x Hb. unfold table_step. auto with bytes. }
  unfold superblock_bytes, encode_superblock. apply wf_upd.
  generalize (superblock_fields (final_superblock (new_superblock o k p) utime m) (table_cpc k)).
  intros l. induction l as [|x l IH]; cbn [foldr]; [done|]. by apply wf_write_be32.
Qed.
Lemma write_superblock_ok bno m w w' :
  write_superblock o k bno (final_superblock (new_superblock o k p) utime m) w = (Ok tt, w') ->
  bk_inv (w_ctx w) -> 0 <= bno -> wrote w w' (disk_offset o bno) 8192 (superblock_bytes m).
Proof.
  intros Hr Hi Hb. unfold write_superblock in Hr. apply wtfs_wrote in Hr; try done.
  apply wf_superblock_bytes.
Qed.

(** The summary area in blocks. *)
Record summaries_written (m : format) (n : Z) (w0 w : world file) : Prop := SummariesWritten {
  sw_inv : bk_inv (w_ctx w);
  sw_in : forall i, 0 <= i < Z.min (n * k_bsize k) (p_cssize p) -> view w (base + data_bytes + i) = m_csums m i;
  sw_out : forall i, ~ (base + data_bytes <= i < data_start) -> view w i = view w0 i;
}.
Lemma numfrags_block q : 0 <= q -> numfrags k (q * k_bsize k) = q * frag.
Proof.
  intros Hq. destruct (disk_numbers o k D) as [_ _ N3 _ [N5 N5'] _ _ _ _ _ _ _ _ _ _ _ _].
  destruct group_places as [_ [P2 _] _ _ _ _ _ _ _ _ _ _].
  unfold numfrags. rewrite Z.shiftr_div_pow2, N5 by lia. rewrite <- N3.
  replace (q * (fsize * frag)) with (q * frag * fsize) by lia. apply Z.div_mul. lia.
Qed.
Lemma write_summaries_ok m w w' : write_summaries o k p m w = (Ok tt, w') -> bk_inv (w_ctx w) ->
  wf_buf (m_csums m) -> summaries_written m (howmany (p_cssize p) (k_bsize k)) w w'.
Proof.
  intros Hr Hi Hc. destruct first_data as (E1 & E2 & _). destruct group_places as [P1 [P2 [P2' _]] _ P4 _ _ _ _ _ _ _ _].
  unfold write_summaries in Hr.
  apply (for_each_inv (fun n x => summaries_written m n w x)) in Hr.
  - by rewrite Z.add_0_l in Hr.
  - apply howmany_nonneg; lia.
  - constructor; [done|lia|done].
  - intros q x x' Hq [I A O] Hx. unfold write_csum_block in Hx.
    destruct (plan_counts o k p D F) as [_ _ _ _ _ _ [Hd _] Ho _ _].
    pose proof (howmany_bounds (p_cssize p) (k_bsize k) ltac:(lia)) as Hh. rewrite Z.add_0_l in Hq.
    assert (Hlast : q * k_bsize k < p_cssize p) by nia.
    apply wtfs_wrote in Hx as [I' A' O']; [|done| |lia|by apply wf_slice].
    2: { apply frag_sector. rewrite numfrags_block by lia. pose proof (frag_pos o k D). nia. }
    rewrite disk_offset_frag, numfrags_block in A', O' by lia.
    replace (base + (p_dblkno p + q * frag) * fsize) with (base + data_bytes + q * k_bsize k) in A', O' by nia.
    constructor; [done| |].
    + intros i Hii. destruct (decide (i < q * k_bsize k)).
      * rewrite O' by lia. apply A. lia.
      * replace (base + data_bytes + i) with (base + data_bytes + q * k_bsize k + (i - q * k_bsize k)) by lia.
        rewrite A' by lia. unfold slice. f_equal. lia.
    + intros i Hii. rewrite O' by lia. by apply O.
Qed.

Record copies_written (m : format) (n : Z) (w0 w : world file) : Prop := CopiesWritten {
  cw_inv : bk_inv (w_ctx w);
  cw_in : forall c i, 0 <= c < n -> 0 <= i < 8192 -> view w (at_group c + 16384 + i) = superblock_bytes m i;
  cw_out : forall i, (forall c, 0 <= c < p_ncg p -> ~ (at_group c + 16384 <= i < at_group c + 24576)) ->
    view w i = view w0 i;
}.
Lemma superblock_copies_ok m w w' :
  for_each (seqZ 0 (p_ncg p)) (fun c => write_superblock o k (fsbtodb_ k (cgsblock k p c))
    (final_superblock (new_superblock o k p) utime m)) w = (Ok tt, w') -> bk_inv (w_ctx w) ->
  copies_written m (p_ncg p) w w'.
Proof.
  intros Hr Hi. destruct group_places as [P1 _ P3 _ _ _ P6 _ P7 _ _ P12]. unfold data_bytes in *.
  apply (for_each_inv (fun n x => copies_written m n w x)) in Hr.
  - by rewrite Z.add_0_l in Hr.
  - lia.
  - constructor; [done|lia|done].
  - intros c x x' Hc [I A O] Hx. rewrite Z.add_0_l in Hc.
    destruct (group_sectors c Hc) as (G & _).
    apply write_superblock_ok in Hx as [I' A' O']; [|done|by apply frag_sector].
    rewrite disk_offset_frag, P7 in A', O'. constructor; [done| |].
    + intros g i Hg Hii. destruct (decide (g = c)) as [->|Hne]; [by apply A'|].
      rewrite O' by (pose proof (P6 g c ltac:(lia) ltac:(lia)); lia). apply A; lia.
    + intros i Hii. pose proof (Hii c Hc). rewrite O' by lia. by apply O.
Qed.

(** ** The whole image *)
(** Inodes 2 and 3 are the first directories, all others are zero. *)
Definition inode_table (d1 d2 c i : Z) : Z :=
  if (c =? 0) && (256 <=? i) && (i <? 384)
  then encode_inode (dir_inode k utime PREDEFDIR DIRBLKSIZ d2) (i - 256)
  else if (c =? 0) && (384 <=? i) && (i <? 512)
  then encode_inode (dir_inode k utime 2 (k_bsize k) d1) (i - 384) else 0.
Record formatted (m : format) (v : buf) (d1 d2 : Z) : Prop := Formatted {
  fm_live : live (dirs_taken d1 d2) inodes_taken 2 (header v 0);
  fm_made : forall c, 1 <= c < p_ncg p -> made c (header v c);
  fm_csum : forall c f e t, 0 <= c < p_ncg p -> In (f, e, t) counter_fields ->
    read_be32 v (base + data_bytes + c * 16 + e) = read_be32 (header v c) f;
  fm_total : forall f x, In (f, x) (totals m) -> w32 x = w32 (total_of f (p_ncg p) v);
  fm_dsize : 0 <= m_dsize m <= p_size p;
  fm_super : forall i, 0 <= i < 8192 -> v (base + 8192 + i) = superblock_bytes m i;
  fm_copy : forall c i, 0 <= c < p_ncg p -> 0 <= i < 8192 -> v (at_group c + 16384 + i) = superblock_bytes m i;
  fm_inodes : forall c i, 0 <= c < p_ncg p -> 0 <= i < p_ipg p * 128 ->
    v (at_group c + 24576 + k_bsize k + i) = inode_table d1 d2 c i;
  fm_d1 : data_begin k p 0 <= d1 /\ d1 + frag <= group_size p 0 /\ d1 mod frag = 0;
  fm_d2 : data_begin k p 0 <= d2 /\ d2 + frag <= group_size p 0 /\ d2 mod frag = 0;
  fm_apart : d1 + frag <= d2 \/ d2 + frag <= d1;
  fm_lost : forall i, 0 <= i < k_bsize k -> v (base + d1 * fsize + i) = lost_found_block i;
  fm_root : forall i, 0 <= i < fsize -> v (base + d2 * fsize + i) = makedir root_dir i;
}.
Lemma dir_place d : data_begin k p 0 <= d -> d + frag <= group_size p 0 ->
  data_start <= base + d * fsize /\ base + d * fsize + k_bsize k <= base + p_fpg p * fsize.
Proof.
  intros H1 H2. destruct first_data as (_ & _ & _ & H3). destruct group_places as [_ [P2 [P2' _]] _ _ _ _ _ _ _ _ _ _].
  unfold data_start. split; nia.
Qed.

(** The last writes change neither the headers nor the inodes nor the directories. *)
Lemma last_writes_keep m w0 w1 w2 w i :
  wrote w0 w1 (base + 8192) 8192 (superblock_bytes m) -> summaries_written m (howmany (p_cssize p) (k_bsize k)) w1 w2 ->
  copies_written m (p_ncg p) w2 w ->
  (exists c, 0 <= c < p_ncg p /\ at_group c + 24576 <= i < at_group c + data_bytes) \/
  data_start <= i < base + p_fpg p * fsize -> view w i = view w0 i.
Proof.
  intros [_ _ O1] [_ _ O2] [_ _ O3] Hi.
  destruct first_data as (E1 & E2 & _). destruct group_places as [P1 [P2 _] P3 _ P5 P6 P7 P8 _ _ _ P12].
  assert (Hsep : forall c, 0 <= c < p_ncg p -> ~ (at_group c + 16384 <= i < at_group c + 24576)).
  { intros c Hc. unfold data_bytes in *. destruct Hi as [(g & Hg & Hi)|Hi].
    - destruct (Z.lt_trichotomy g c) as [Hl|[->|Hl]]; [pose proof (P7 g c ltac:(lia) ltac:(lia))| |
        pose proof (P7 c g ltac:(lia) ltac:(lia))]; lia.
    - destruct (decide (c = 0)) as [->|]; [lia|]. pose proof (P8 c ltac:(lia)). lia. }
  rewrite O3 by done. unfold data_bytes in *.
  assert (Hs : ~ (base + (24576 + k_bsize k + p_ipg p * 128) <= i < data_start) /\ ~ (base + 8192 <= i < base + 8192 + 8192)).
  { destruct Hi as [(g & Hg & Hi)|Hi]; [|lia]. destruct (decide (g = 0)) as [->|]; [lia|].
    pose proof (P8 g ltac:(lia)). pose proof (P6 g ltac:(lia)). split; [|lia].
    destruct first_data as (_ & _ & F1 & F2). pose proof (frag_pos o k D).
    assert (data_begin k p 0 <= p_fpg p) by lia.
    assert (data_start <= base + p_fpg p * fsize) by (unfold data_start; nia). lia. }
  rewrite O2, O1 by lia. done.
Qed.

Lemma summary_apart i : base + 8192 <= i < base + 16384 \/ base + data_bytes <= i < data_start ->
  forall c, 0 <= c < p_ncg p -> ~ (at_group c + 16384 <= i < at_group c + 24576).
Proof.
  intros Hi c Hc. destruct first_data as (E1 & _ & F1 & F2). pose proof (frag_pos o k D).
  destruct group_places as [P1 [P2 _] P3 _ P5 P6 P7 P8 _ _ _ P12]. unfold data_bytes in *.
  assert (data_begin k p 0 <= p_fpg p) by lia.
  assert (data_start <= base + p_fpg p * fsize) by (unfold data_start; nia).
  destruct (decide (c = 0)) as [->|]; [lia|]. pose proof (P8 c ltac:(lia)). pose proof (P6 c ltac:(lia)). lia.
Qed.
Lemma format_writes_ok w w' : format_writes o k p (new_superblock o k p) utime w = (Ok tt, w') ->
  bk_inv (w_ctx w) -> exists m d1 d2, bk_inv (w_ctx w') /\ formatted m (view w') d1 d2.
Proof.
  intros Hr Hi. unfold format_writes in Hr. rewrite Hwrite in Hr.
  apply bind_ok in Hr as ([] & w1 & H1 & Hr). apply wtfs_wrote in H1 as [I1 _ _]; [|done|lia|unfold DEV_BSIZE; lia|apply wf_zeros].
  apply bind_ok in Hr as (m1 & w2 & H2 & Hr).
  apply all_groups_done in H2 as G.
  2: { constructor; cbn; try done; try (apply wf_zeros); try lia. pose proof (pf_size _ _ _ F). lia. }
  pose proof (groups_started _ _ G) as St. apply bind_ok in Hr as (m & w3 & H3 & Hr).
  apply (fsinit_ok _ _ _ _ St) in H3 as (d1 & d2 & [St3 D1 D2 Ap Lo Ro Ino Out]).
  apply bind_ok in Hr as ([] & w4 & H4 & Hr).
  apply write_superblock_ok in H4 as W4; [|by apply St3|unfold SBLOCK; lia].
  change (disk_offset o SBLOCK) with (base + 8192) in W4. pose proof W4 as [I4 A4 O4].
  apply bind_ok in Hr as ([] & w5 & H5 & Hr).
  apply write_summaries_ok in H5 as W5; [|done|by apply St3]. pose proof W5 as [I5 A5 O5].
  apply superblock_copies_ok in Hr as W6; [|done]. pose proof W6 as [I6 A6 O6].
  pose proof (fun i => last_writes_keep m w3 w4 w5 w' i W4 W5 W6) as Hk.
  destruct first_data as (E1 & E2 & E3 & E4). destruct group_places as [P1 [P2 [P2' P2'']] P3 _ P5 P6 P7 P8 _ _ _ P12].
  destruct (dir_place d1 (proj1 D1) (proj1 (proj2 D1))) as [L1 L2].
  destruct (dir_place d2 (proj1 D2) (proj1 (proj2 D2))) as [R1 R2].
  assert (Hst : started (dirs_taken d1 d2) inodes_taken 2 m w').
  { apply (started_keep _ _ _ _ w3 w' St3 I6). intros c i Hc Hii. apply Hk. left. eauto. }
  pose proof inode_block_inside as Hib.
  pose proof (howmany_bounds (p_cssize p) (k_bsize k) ltac:(lia)) as Hcs.
  assert (Hncg : p_ncg p * 16 <= p_cssize p) by (destruct (plan_counts o k p D F) as [_ _ _ _ ? _ _ _ _ _]; lia).
  assert (Hnext : forall c, 1 <= c < p_ncg p -> base + p_fpg p * fsize <= at_group c) by done.
  assert (Hstart : data_start <= base + p_fpg p * fsize) by lia.
  exists m, d1, d2. split; [done|]. destruct Hst as [_ _ Wc L Gm Gc Gt Gd]. constructor; try done.
  - intros c f e t Hc Hin. rewrite <- (Gc c f e t) by done. pose proof (counter_field_small _ _ _ Hin).
    replace (base + data_bytes + c * 16 + e) with (base + data_bytes + (c * 16 + e)) by lia.
    rewrite <- slice_read_be32. apply read_be32_eq_on. intros i Hii. unfold slice.
    rewrite O6, A5 by (lia || apply summary_apart; lia). done.
  - intros i Hii. rewrite O6, O5 by (unfold data_bytes; lia || apply summary_apart; unfold data_bytes; lia). by apply A4.
  - intros c i Hc Hii. destruct (decide (c = 0)) as [->|Hne].
    + unfold inode_table. cbn [Z.eqb andb]. rewrite Hk by (left; exists 0; unfold data_bytes; lia).
      destruct (Z.lt_ge_cases i (k_bsize k)).
      * fold at_inodes. rewrite Ino by lia. destruct ((256 <=? i) && (i <? 384)); [done|].
        destruct ((384 <=? i) && (i <? 512)); [done|]. apply (gd_inodes _ _ _ G 0); lia.
      * replace ((256 <=? i) && (i <? 384)) with false by lia. replace ((384 <=? i) && (i <? 512)) with false by lia.
        rewrite Out by (unfold at_inodes, data_bytes in *; lia). apply (gd_inodes _ _ _ G 0); lia.
    + unfold inode_table. rewrite (proj2 (Z.eqb_neq c 0)) by done. cbn [andb].
      rewrite Hk by (left; exists c; unfold data_bytes; lia). pose proof (Hnext c ltac:(lia)).
      rewrite Out by (unfold at_inodes, data_bytes in *; lia). by apply (gd_inodes _ _ _ G c).
  - intros i Hii. rewrite Hk by lia. by apply Lo.
  - intros i Hii. rewrite Hk by (right; nia). by apply Ro.
Qed.
End disk.
