(* ===== verification/FormatFrame.v ===== *)
(** * Formatting: what it leaves alone

    No run of nextufs_format, failing or not, writes before the offset the filesystem
    begins at, or shortens the file. *)
From S2P Require Import Prelude.
From S2P Require Import Bytes.
From S2P Require Import Backend.
From S2P Require Import Superblock.
From S2P Require Import Image.
From S2P Require Import Inode.
From S2P Require Import CylGroup.
From S2P Require Import FormatPlan.
From S2P Require Import Format.
From S2P Require Import FormatSuper.
From S2P Require Import FormatGroups.
From S2P Require Import FormatDisk.

(** [w'] is as [w] below [n], and not shorter. *)
Record kept (n : Z) (w w' : world file) : Prop := Kept {
  kp_inv : bk_inv (w_ctx w');
  kp_low : forall i, i < n -> view w' i = view w i;
  kp_size : f_size (w_ctx w) <= f_size (w_ctx w');
  kp_sync : f_sync (w_ctx w') = f_sync (w_ctx w);
}.
(** Every run keeps, and a result satisfies [P]. *)
Definition keeps {A} (n : Z) (P : A -> Prop) (m : M (world file) A) : Prop :=
  forall w r w', bk_inv (w_ctx w) -> m w = (r, w') -> kept n w w' /\ forall a, r = Ok a -> P a.
Definition any {A} (_ : A) : Prop := True.

Lemma kept_unchanged n w w' : bk_inv (w_ctx w) -> w_ctx w' = w_ctx w -> kept n w w'.
Proof. intros I E. constructor; unfold view; rewrite E; done. Qed.
Lemma keeps_ret {A} n (P : A -> Prop) a : P a -> keeps n P (ret a).
Proof. intros Ha w r w' I [= <- <-]. split; [by apply kept_unchanged|by intros b [= <-]]. Qed.
Lemma keeps_fail {A} n (P : A -> Prop) e : keeps n P (fail e).
Proof. intros w r w' I [= <- <-]. split; [by apply kept_unchanged|done]. Qed.
Lemma keeps_fail_if n b e : keeps n (fun _ => b = false) (fail_if b e).
Proof. unfold fail_if. destruct b; [apply keeps_fail|by apply keeps_ret]. Qed.
Lemma keeps_bind {A B} n (P : A -> Prop) (Q : B -> Prop) m (f : A -> M _ B) :
  keeps n P m -> (forall a, P a -> keeps n Q (f a)) -> keeps n Q (bind m f).
Proof.
  intros Hm Hf w r w' I Hr. unfold bind in Hr. destruct (m w) as [[a|e] w1] eqn:E.
  - destruct (Hm _ _ _ I E) as [[I1 L1 S1 Y1] Ha].
    destruct (Hf a (Ha a eq_refl) _ _ _ I1 Hr) as [[I2 L2 S2 Y2] Hq]. split; [|done].
    constructor; [done| |lia|congruence]. intros i Hi. by rewrite L2, L1.
  - injection Hr as <- <-. destruct (Hm _ _ _ I E) as [K _]. by split.
Qed.
Lemma keeps_any {A} n (P : A -> Prop) m : keeps n P m -> keeps n any m.
Proof. intros H w r w' I Hr. destruct (H _ _ _ I Hr). by split. Qed.
Lemma keeps_malloc n size : keeps n any (malloc size).
Proof.
  intros w r w' I Hr. split; [|done]. apply kept_unchanged; [done|]. unfold malloc, bind, ask in Hr.
  by destruct (fail_if _ _ _) as [x y] eqn:E in Hr; injection Hr as _ <-; unfold fail_if in E; destruct (_ || _) in E;
    injection E as _ <-.
Qed.
Lemma keeps_time n : keeps n any time_now.
Proof. intros w r w' I [= <- <-]. split; [by apply kept_unchanged|done]. Qed.
Lemma keeps_for_each {A} n (f : A -> M _ unit) l : (forall a, In a l -> keeps n any (f a)) ->
  keeps n any (for_each l f).
Proof.
  induction l as [|a l IH]; intros Hf; cbn [for_each]; [by apply keeps_ret|].
  apply (keeps_bind _ any); [apply Hf; by left|]. intros _ _. apply IH. intros b Hb. apply Hf. by right.
Qed.
Lemma keeps_fold_each {A B} n (f : A -> B -> M _ B) l : (forall a b, In a l -> keeps n any (f a b)) ->
  forall b, keeps n any (fold_each l f b).
Proof.
  induction l as [|a l IH]; intros Hf b; cbn [fold_each]; [by apply keeps_ret|].
  apply (keeps_bind _ any); [apply Hf; by left|]. intros b' _. apply IH. intros x y Hx. apply Hf. by right.
Qed.

Section frame.
Context (o : format_options).
Hypothesis Hbase : 0 <= fo_base_offset o.
Local Abbreviation base := (fo_base_offset o).

Lemma keeps_wtfs bno len b : 0 <= bno -> 0 <= len -> keeps base any (wtfs o bno len b).
Proof.
  intros Hb Hl. unfold wtfs. destruct (fo_dry_run o); [by apply keeps_ret|].
  apply (keeps_bind _ any); [|intros c _; destruct (c =? len); [by apply keeps_ret|apply keeps_fail]].
  intros w r w' I Hr. split; [|done]. unfold lift in Hr.
  destruct (pwrite b len (disk_offset o bno) (w_ctx w)) as [x f] eqn:E. injection Hr as <- <-.
  assert (Ho : base <= disk_offset o bno) by (unfold disk_offset, DEV_BSIZE; lia).
  assert (H0 : 0 <= disk_offset o bno) by lia.
  constructor; cbn [w_ctx].
  - by destruct (pwrite_inv _ _ _ _ _ _ I Hl H0 E).
  - intros i Hi. unfold view. cbn [w_ctx bk_view raw_backend_spec]. unfold pwrite in E.
    destruct (next_outcome (w_ctx w) len) as [[c|e] f'] eqn:En; injection E as <- <-.
    + cbn [f_data]. by rewrite blit_out by lia.
    + by apply next_outcome_frame in En as [-> _].
  - unfold pwrite in E. destruct (next_outcome (w_ctx w) len) as [[c|e] f'] eqn:En; injection E as <- <-.
    + cbn [f_size]. destruct (c =? 0); lia.
    + apply next_outcome_frame in En as (_ & -> & _). lia.
  - by destruct (pwrite_inv _ _ _ _ _ _ I Hl H0 E).
Qed.
Lemma keeps_rdfs bno len : keeps base any (rdfs o bno len).
Proof.
  unfold rdfs. apply (keeps_bind _ any).
  - intros w r w' I Hr. split; [|done]. unfold lift in Hr.
    destruct (pread len (disk_offset o bno) (w_ctx w)) as [x f] eqn:E. injection Hr as <- <-.
    pose proof (pread_frame _ _ _ _ _ E) as (Hd & Hs & Hy). constructor; cbn [w_ctx].
    + cbn in I |- *. unfold file_inv in *. by rewrite Hd, Hs.
    + intros i _. unfold view. cbn. by rewrite Hd.
    + lia.
    + done.
  - intros [c b] _. destruct (c =? len); [by apply keeps_ret|apply keeps_fail].
Qed.

Section steps.
Context (k : disk) (p : plan) (utime : Z).
Hypothesis D : disk_facts o k.
Hypothesis F : plan_facts o k p.
Hypothesis Htime : 0 <= utime < 2 ^ 32.

Lemma keeps_write_inode bno count b : 0 <= bno -> 0 <= count -> keeps base any (write_inode_block o bno count b).
Proof.
  intros Hb Hc. unfold write_inode_block. apply (keeps_bind _ any); [apply keeps_malloc|]. intros _ _.
  apply keeps_wtfs; lia.
Qed.
Lemma keeps_initcg c m : 0 <= c < p_ncg p -> keeps base any (initcg o k p utime c m).
Proof.
  intros Hc. destruct (group_sectors o k p utime D F Htime c Hc) as (_ & G1 & G2).
  pose proof (pf_ipg _ _ _ F). destruct (group_places o k p utime D F Htime) as [P1 _ _ _ _ _ _ _ _ _ _ _].
  unfold initcg. apply (keeps_bind _ any); [apply keeps_write_inode; [by apply frag_sector|lia]|]. intros _ _.
  apply (keeps_bind _ any); [|intros _ _; by apply keeps_ret]. apply keeps_wtfs; [by apply frag_sector|lia].
Qed.
Lemma keeps_alloc m size mode : keeps base (fun r => 0 <= fst r) (alloc o k p m size mode).
Proof.
  destruct (group_sectors o k p utime D F Htime 0 (first_group o k p D F)) as (_ & G1 & _).
  destruct (group_places o k p utime D F Htime) as [P1 [P2 P2'] _ _ _ _ _ _ _ _ _ _].
  unfold alloc. apply (keeps_bind _ any).
  { unfold read_cg_block. apply (keeps_bind _ any); [apply keeps_rdfs|]. intros b _. by apply keeps_ret. }
  intros b _. destruct (_ || _); [by apply keeps_ret|].
  destruct (find _ _) as [h|] eqn:Ef; [|by apply keeps_ret].
  apply find_some in Ef as [Hin _]. apply list_elem_of_In, elem_of_seqZ in Hin.
  apply (keeps_bind _ any); [apply keeps_wtfs; [by apply frag_sector|lia]|]. intros _ _. apply keeps_ret.
  cbn [fst]. apply Z.mul_nonneg_nonneg; lia.
Qed.
Lemma keeps_iput m number ino : 0 <= number -> keeps base any (iput o k p m number ino).
Proof.
  intros Hn. destruct (group_sectors o k p utime D F Htime 0 (first_group o k p D F)) as (_ & G1 & G2).
  destruct (group_places o k p utime D F Htime) as [P1 [P2 P2'] P3 _ _ P6 _ _ _ P9 P10 P11].
  destruct (disk_numbers o k D) as [_ _ _ _ _ _ _ _ _ N10 _ _ _ _ _ _ _].
  unfold iput. apply (keeps_bind _ any).
  { unfold read_cg_block. apply (keeps_bind _ any); [apply keeps_rdfs|]. intros b _. by apply keeps_ret. }
  intros b _. eapply keeps_bind; [apply keeps_fail_if|]. intros _ _.
  apply (keeps_bind _ any); [apply keeps_wtfs; [by apply frag_sector|lia]|]. intros _ _.
  eapply keeps_bind; [apply keeps_fail_if|]. cbn beta. intros _ Hroom%Z.leb_gt.
  assert (Hd : 0 <= fsbtodb_ k (itod k p number)).
  { apply frag_sector. unfold itod. assert (Hc : 0 <= number / p_ipg p < p_ncg p).
    { split; [apply Z.div_pos; lia|apply Z.div_lt_upper_bound; lia]. }
    destruct (group_sectors o k p utime D F Htime _ Hc) as (_ & _ & G3).
    assert (0 <= Z.shiftl (number mod p_ipg p / k_inopb k) (k_fragshift k)).
    { apply Z.shiftl_nonneg, Z.div_pos; [apply Z.mod_pos_bound; lia|lia]. }
    lia. }
  apply (keeps_bind _ any); [apply keeps_rdfs|]. intros x _.
  apply (keeps_bind _ any); [apply keeps_write_inode; lia|]. intros _ _. by apply keeps_ret.
Qed.
Lemma keeps_fsinit m : keeps base any (fsinit o k p utime m).
Proof.
  destruct (group_places o k p utime D F Htime) as [P1 [P2 P2'] P3 _ _ P6 _ _ _ P9 P10 P11].
  unfold fsinit. eapply keeps_bind; [apply keeps_alloc|]. intros [d1 m1] H1. cbn [fst] in H1.
  apply (keeps_bind _ any); [apply keeps_wtfs; [by apply frag_sector|lia]|]. intros _ _.
  apply (keeps_bind _ any); [by apply keeps_iput|]. intros m2 _.
  eapply keeps_bind; [apply keeps_alloc|]. intros [d2 m3] H2. cbn [fst] in H2.
  apply (keeps_bind _ any); [apply keeps_wtfs; [by apply frag_sector|lia]|]. intros _ _. by apply keeps_iput.
Qed.
Lemma keeps_format_writes s : 0 < fo_size_1k_sectors o -> keeps base any (format_writes o k p s utime).
Proof.
  intros Hs. destruct (group_places o k p utime D F Htime) as [P1 [P2 P2'] P3 P4 _ P6 _ _ _ P9 P10 P11].
  destruct (pf_cssize _ _ _ F) as [Hc _]. destruct (plan_counts o k p D F) as [_ _ _ _ [_ [_ C5]] _ _ _ _ _].
  unfold format_writes. apply (keeps_bind _ any); [apply keeps_wtfs; [lia|done]|]. intros _ _.
  apply (keeps_bind _ any).
  { apply keeps_fold_each. intros c m Hin. apply list_elem_of_In, elem_of_seqZ in Hin. apply keeps_initcg. lia. }
  intros m _. destruct (fo_dry_run o) eqn:Hd; [by apply keeps_ret|].
  apply (keeps_bind _ any); [apply keeps_fsinit|]. intros m' _.
  apply (keeps_bind _ any); [by apply keeps_wtfs|]. intros _ _.
  apply (keeps_bind _ any); [|intros _ _].
  - apply keeps_for_each. intros q Hq. apply list_elem_of_In, elem_of_seqZ in Hq.
    pose proof (howmany_bounds (p_cssize p) (k_bsize k) ltac:(lia)) as Hh.
    unfold write_csum_block. apply keeps_wtfs; [|nia]. apply frag_sector.
    rewrite (numfrags_block o k p utime D F Htime) by lia. unfold data_bytes in P4. nia.
  - apply keeps_for_each. intros c Hin. apply list_elem_of_In, elem_of_seqZ in Hin.
    apply keeps_wtfs; [|done]. apply frag_sector. by apply (group_sectors o k p utime D F Htime c).
Qed.
End steps.

(** What the formatter may do to the file: all of [kept], unless it creates the file. *)
Lemma keeps_nextufs_format opens : unsupported_geometry o = false -> 0 <= fo_size_1k_sectors o ->
  fo_no_create o = true -> keeps base any (nextufs_format opens o).
Proof.
  intros Hu Hz Hc. unfold nextufs_format. rewrite Hc, orb_true_r.
  apply (keeps_bind _ (fun t => 0 <= t < 2 ^ 32)).
  { intros w r w' I [= <- <-]. split; [by apply kept_unchanged|]. intros a [= <-]. apply w32_range. }
  intros utime Ht. destruct (format_plan o) as [[[k p] s]|e] eqn:Ep.
  - destruct (format_plan_facts o k p s Hu Hz Ep) as (S & D & F & -> & Hn).
    apply (keeps_bind _ (fun x => x = (k, p, new_superblock o k p))); [by apply keeps_ret|].
    intros _ ->. apply (keeps_bind _ any); [apply keeps_malloc|]. intros _ _.
    destruct (fo_validate_only o); [by apply keeps_ret|].
    eapply keeps_bind; [apply keeps_fail_if|]. intros _ _.
    apply (keeps_bind _ any); [by apply keeps_ret|]. intros _ _.
    eapply keeps_bind; [apply keeps_fail_if|]. intros _ _.
    eapply keeps_bind; [apply keeps_fail_if|]. intros _ _.
    apply keeps_format_writes; [done..|lia].
  - apply (keeps_bind _ (fun _ => False)); [apply keeps_fail|done].
Qed.
End frame.
