(* ===== verification/FormatRuns.v ===== *)
(** * Formatting: that it succeeds

    On a host that transfers what it is asked for and has memory, no step of nextufs_format
    fails: not a transfer, not a check of a magic number, not the search for a block. *)
From S2P Require Import Prelude.
From S2P Require Import Bytes.
From S2P Require Import Backend.
From S2P Require Import Superblock.
From S2P Require Import Image.
From S2P Require Import Inode.
From S2P Require Import CylGroup.
From S2P Require Import FormatPlan.
From S2P Require Import Format.
From S2P Require Import FormatSuper.
From S2P Require Import FormatGroups.
From S2P Require Import FormatDisk.

(** A file of at least [n] bytes on such a host. *)
Record healthy (n : Z) (w : world file) : Prop := Healthy {
  hl_inv : bk_inv (w_ctx w);
  hl_script : f_script (w_ctx w) = [];
  hl_malloc : forall i, ev_malloc (w_env w) i = true;
  hl_size : n <= f_size (w_ctx w);
}.
(** Every run from such a world succeeds and ends in one. *)
Definition runs {A} (n : Z) (m : M (world file) A) : Prop :=
  forall w, healthy n w -> exists a w', m w = (Ok a, w') /\ healthy n w'.

Lemma runs_ret {A} n (a : A) : runs n (ret a).
Proof. intros w H. by exists a, w. Qed.
Lemma runs_bind {A B} n (m : M _ A) (f : A -> M _ B) : runs n m -> (forall a, runs n (f a)) -> runs n (bind m f).
Proof.
  intros Hm Hf w H. destruct (Hm w H) as (a & w1 & E1 & H1). destruct (Hf a w1 H1) as (b & w2 & E2 & H2).
  exists b, w2. unfold bind. by rewrite E1.
Qed.
Lemma runs_malloc n size : 0 <= size < 2 ^ 63 -> runs n (malloc size).
Proof.
  intros Hs w [I S M L]. unfold malloc, bind, ask. rewrite M, w64_small by lia. cbn [negb orb].
  rewrite (proj2 (Z.ltb_ge _ _)) by lia. eexists _, _. split; [done|]. by constructor.
Qed.
Lemma runs_time n : runs n time_now.
Proof. intros w [I S M L]. eexists _, _. split; [done|]. by constructor. Qed.
Lemma runs_for_each {A} n (f : A -> M _ unit) l : (forall a, In a l -> runs n (f a)) -> runs n (for_each l f).
Proof.
  induction l as [|a l IH]; intros Hf; cbn [for_each]; [apply runs_ret|].
  apply runs_bind; [apply Hf; by left|]. intros _. apply IH. intros b Hb. apply Hf. by right.
Qed.
Lemma runs_fold_each {A B} n (f : A -> B -> M _ B) l : (forall a b, In a l -> runs n (f a b)) ->
  forall b, runs n (fold_each l f b).
Proof.
  induction l as [|a l IH]; intros Hf b; cbn [fold_each]; [apply runs_ret|].
  apply runs_bind; [apply Hf; by left|]. intros b'. apply IH. intros x y Hx. apply Hf. by right.
Qed.

Section transfers.
Context (o : format_options) (n : Z).
Hypothesis Hbase : 0 <= fo_base_offset o.

Lemma wtfs_grows bno len b w : healthy n w -> 0 <= bno -> 0 <= len -> fo_dry_run o = false ->
  exists w', wtfs o bno len b w = (Ok tt, w') /\
    healthy (if len =? 0 then n else Z.max n (disk_offset o bno + len)) w'.
Proof.
  intros [I S M L] Hb Hl Hd. unfold wtfs, lift, bind, pwrite, next_outcome. rewrite Hd, S. cbn [w_ctx].
  rewrite Z.eqb_refl. eexists. split; [done|].
  assert (Ho : 0 <= disk_offset o bno) by (unfold disk_offset, DEV_BSIZE; lia).
  constructor; cbn [w_ctx w_env f_script f_size]; try done.
  - destruct (pwrite b len (disk_offset o bno) (w_ctx w)) as [r f] eqn:E. pose proof E as E'.
    unfold pwrite, next_outcome in E'. rewrite S in E'. injection E' as <- <-.
    by destruct (pwrite_inv _ _ _ _ _ _ I Hl Ho E).
  - destruct (len =? 0); lia.
Qed.
Lemma runs_wtfs bno len b : 0 <= bno -> 0 <= len -> runs n (wtfs o bno len b).
Proof.
  intros Hb Hl w H. destruct (fo_dry_run o) eqn:Hd.
  - unfold wtfs. rewrite Hd. by apply runs_ret.
  - destruct (wtfs_grows bno len b w H Hb Hl Hd) as (w' & E & [I S M L]). exists tt, w'. split; [done|].
    constructor; try done. destruct (len =? 0); lia.
Qed.
Lemma runs_rdfs bno len : 0 <= bno -> 0 <= len -> disk_offset o bno + len <= n -> runs n (rdfs o bno len).
Proof.
  intros Hb Hl Hn w H. pose proof H as [I S M L]. unfold rdfs, lift, bind, pread, next_outcome. rewrite S. cbn [w_ctx].
  rewrite Z.min_l, Z.eqb_refl by lia. eexists _, _. split; [done|]. by constructor.
Qed.
End transfers.

Section steps.
Context (o : format_options) (k : disk) (p : plan) (utime : Z).
Hypothesis S : supported o.
Hypothesis D : disk_facts o k.
Hypothesis F : plan_facts o k p.
Hypothesis Hsectors : 0 < fo_size_1k_sectors o <= INT32_MAX.
Hypothesis Htime : 0 <= utime < 2 ^ 32.
Hypothesis Hfits : fits k p.
Hypothesis Hbase : 0 <= fo_base_offset o.
Hypothesis Hwrite : fo_dry_run o = false.
Local Abbreviation base := (fo_base_offset o).
Local Abbreviation lim := (fo_base_offset o + fo_size_1k_sectors o * 1024).
Local Abbreviation started := (started o k p utime).
Implicit Types (w : world file).

(** The sizes are moderate and what is read back lies inside the target. *)
Record room : Prop := Room {
  rm_bsize : 4096 <= k_bsize k <= 8192 /\ 0 < k_fsize k <= k_bsize k;
  rm_frag : k_fsize k * k_frag k = k_bsize k /\ 1 <= k_frag k;
  rm_ipg : 0 <= p_ipg p <= 2048 /\ k_inopb k * 128 = k_bsize k;
  rm_cgsize : 0 <= p_cgsize p <= k_bsize k;
  rm_cssize : 0 <= p_cssize p;
  rm_read : base + 24576 + 2 * k_bsize k <= lim;
  rm_first : at_group o k p 0 = base;
}.
Lemma format_room : room.
Proof.
  destruct (group_places o k p utime D F Htime) as [P1 [P2 [P3 P3']] P4 _ P5 _ _ _ _ _ _ _].
  destruct (disk_numbers o k D) as [_ _ _ _ _ _ _ _ _ N10 _ _ _ _ _ _ _].
  destruct (first_data o k p utime D F Htime) as (E1 & E2 & E3 & E4).
  pose proof (inode_block_inside o k p utime D F Htime) as Hib.
  pose proof (header_sizes o k p F) as Hh. pose proof (pf_fpg _ _ _ F) as (_ & Hf & _).
  pose proof (Z.div_pos (p_fpg p + 7) 8 ltac:(lia) ltac:(lia)).
  pose proof (pf_device _ _ _ F (fit_groups _ _ Hfits)) as Hdev.
  assert (Hg : group_size p 0 <= p_size p) by (unfold group_size, cgbase; lia).
  unfold data_start, data_bytes in E1.
  assert (data_begin k p 0 * k_fsize k <= p_size p * k_fsize k) by (apply Z.mul_le_mono_nonneg_r; lia).
  constructor; try done; try lia. split; [lia|]. nia.
Qed.

Lemma runs_write_inode bno count b : 0 <= bno -> 0 <= count <= 2048 -> runs lim (write_inode_block o bno count b).
Proof.
  intros Hb Hc. unfold write_inode_block. apply runs_bind; [apply runs_malloc; lia|]. intros _.
  apply runs_wtfs; lia.
Qed.
Lemma runs_initcg c m : 0 <= c < p_ncg p -> runs lim (initcg o k p utime c m).
Proof.
  intros Hc. destruct format_room as [R1 _ R2 _ _ _ _]. destruct (group_sectors o k p utime D F Htime c Hc) as (_ & G1 & G2).
  unfold initcg. apply runs_bind; [apply runs_write_inode; [by apply frag_sector|lia]|]. intros _.
  apply runs_bind; [|intros _; apply runs_ret]. apply runs_wtfs; [done|by apply frag_sector|lia].
Qed.
Lemma runs_read_header b : runs lim (read_cg_block o p (fsbtodb_ k (cgtod k p 0)) b).
Proof.
  destruct format_room as [R1 _ _ R4 _ R6 R7].
  destruct (group_sectors o k p utime D F Htime 0 (first_group o k p D F)) as (_ & G1 & _).
  pose proof (pl_header _ _ _ (group_places o k p utime D F Htime) 0) as P7.
  unfold read_cg_block. apply runs_bind; [|intros x; apply runs_ret].
  apply runs_rdfs; [by apply frag_sector|lia|]. rewrite (disk_offset_frag o k D). lia.
Qed.
Lemma runs_alloc m size mode : runs lim (alloc o k p m size mode).
Proof.
  destruct format_room as [R1 _ _ _ _ _ _].
  destruct (group_sectors o k p utime D F Htime 0 (first_group o k p D F)) as (_ & G1 & _).
  unfold alloc. apply runs_bind; [apply runs_read_header|]. intros b.
  destruct (_ || _); [apply runs_ret|]. destruct (find _ _); [|apply runs_ret].
  apply runs_bind; [|intros _; apply runs_ret]. apply runs_wtfs; [done|by apply frag_sector|lia].
Qed.
Lemma runs_iput free used nd m w number ino : started free used nd m w -> healthy lim w -> 2 <= number <= 3 ->
  exists m' w', iput o k p m number ino w = (Ok m', w') /\ healthy lim w'.
Proof.
  intros Hst Hw Hn. destruct format_room as [R1 R2 R3 _ _ R6 R7].
  destruct (group_sectors o k p utime D F Htime 0 (first_group o k p D F)) as (_ & G1 & G2).
  destruct (group_places o k p utime D F Htime) as [_ _ P3 _ _ _ _ _ _ _ P8 P12].
  destruct (runs_read_header (m_acg m) w Hw) as (b & w1 & E1 & H1).
  apply (read_header o k p utime D F Htime) in E1 as Hb; [|apply Hw|apply Hst]. destruct Hb as (_ & _ & Wb & Eb).
  pose proof (live_ext o k p utime S D F Hsectors Htime Hfits _ _ _ _ b Eb Wb (st_live _ _ _ _ _ _ _ _ _ Hst)) as Lb.
  unfold iput, bind at 1. rewrite E1, (gl_magic _ _ _ _ _ _ _ _ _ Lb), Z.eqb_refl. cbn [negb fail_if].
  unfold bind at 1. unfold ret at 1.
  assert (Hroom : (p_ipg p * p_ncg p <=? number) = false) by (apply Z.leb_gt; nia).
  rewrite Hroom. cbn [fail_if].
  assert (Hd : itod k p number = cgimin k p 0).
  { unfold itod. rewrite (Z.div_small number), (Z.mod_small number (p_ipg p)), (Z.div_small number (k_inopb k)),
      Z.shiftl_0_l by lia. lia. }
  rewrite Hd. revert w1 H1 E1. intros w1 H1 _. match goal with |- context [?f w1] => enough (Hr : runs lim f) by by apply Hr end.
  apply runs_bind; [apply runs_wtfs; [done|by apply frag_sector|lia]|]. intros _.
  apply runs_bind; [apply runs_ret|]. intros _.
  apply runs_bind; [|intros x].
  - apply runs_rdfs; [by apply frag_sector|lia|]. rewrite (disk_offset_frag o k D), P8. lia.
  - apply runs_bind; [|intros _; apply runs_ret]. apply runs_write_inode; [by apply frag_sector|lia].
Qed.

(** One of the two first directories. *)
Definition put_dir (m : format) (size number nlink len : Z) (b : buf) : M (world file) format :=
  let! '(db0, m) := alloc o k p m size (Z.lor IFDIR UMASK) in
  write_dir_block o (fsbtodb_ k db0) size b ;;;
  iput o k p m number (dir_inode k utime nlink len db0).
Lemma runs_put_dir free used nd m w size number nlink len b :
  started free used nd m w -> healthy lim w -> 0 <= nd < 2 ^ 31 -> size = k_bsize k \/ size = k_fsize k ->
  takeable k p free -> (forall j, free j = true -> data_begin k p 0 <= j) -> 2 <= number <= 3 -> used number = false -> wf_buf b ->
  exists h m' w', put_dir m size number nlink len b w = (Ok m', w') /\ healthy lim w' /\
    started (fun j => free j && negb ((h * k_frag k <=? j) && (j <? h * k_frag k + howmany size (k_fsize k))))
      (fun j => (j =? number) || used j) (nd + 1) m' w'.
Proof.
  intros Hst Hw Hnd Hs Ht Hfree Hn Hu Wb. destruct format_room as [R1 R2 _ _ _ _ _].
  destruct (runs_alloc m size (Z.lor IFDIR UMASK) w Hw) as ([d m1] & w1 & E1 & H1).
  pose proof E1 as A. apply (dir_alloc_ok o k p utime S D F Hsectors Htime Hfits Hbase Hwrite _ _ _ _ _ _ _ _ _ Hst) in A
    as (h & -> & Hh & Hroom & Hall & St1 & _); try done.
  pose proof (Hfree _ (Hall (h * k_frag k) ltac:(lia))) as Hd.
  assert (Hd0 : 0 <= h * k_frag k) by (apply Z.mul_nonneg_nonneg; lia).
  destruct (runs_wtfs o lim Hbase (fsbtodb_ k (h * k_frag k)) size b (frag_sector k _ Hd0) ltac:(lia) w1 H1)
    as ([] & w2 & E2 & H2).
  destruct (write_dir_ok o k p utime D F Htime Hbase Hwrite (h * k_frag k) size b w1 w2 E2 (hl_inv _ _ H1) Hd0)
    as (W2 & A2 & A3); try done; [lia|].
  pose proof (dir_write_keeps o k p utime S D F Hsectors Htime Hfits _ _ _ _ _ _ _ _ _ St1 W2 ltac:(lia) A2 A3) as St2.
  set (ino := dir_inode k utime nlink len (h * k_frag k)).
  destruct (runs_iput _ _ _ _ _ number ino St2 H2 Hn) as (m3 & w3 & E3 & H3).
  pose proof E3 as A4. apply (iput_ok o k p utime S D F Hsectors Htime Hfits Hbase Hwrite _ _ _ _ _ _ _ _ _ St2) in A4
    as (St3 & _); try done.
  exists h, m3, w3. split_and!; [|done|exact St3].
  unfold put_dir, bind, write_dir_block. rewrite E1, E2. exact E3.
Qed.
Lemma fsinit_dirs m w : fsinit o k p utime m w =
  (let! m := put_dir m (k_bsize k) LOSTFOUNDINO 2 (k_bsize k) (lost_found_block k) in
   put_dir m (k_fsize k) ROOTINO PREDEFDIR DIRBLKSIZ (makedir root_dir)) w.
Proof.
  unfold fsinit, put_dir, bind. fold (lost_found_block k).
  destruct (alloc o k p m (k_bsize k) (Z.lor IFDIR UMASK) w) as [[[d m1]|e] w1]; [|done].
  destruct (write_dir_block o (fsbtodb_ k d) (k_bsize k) (lost_found_block k) w1) as [[[]|e] w2]; done.
Qed.
Lemma runs_fsinit m w : started (free_at k p 0) (reserved 0) 0 m w -> healthy lim w ->
  exists m' w', fsinit o k p utime m w = (Ok m', w') /\ healthy lim w'.
Proof.
  intros Hst Hw. rewrite fsinit_dirs. destruct (dir_bytes_wf k) as [Wl Wr]. destruct format_room as [R1 R2 _ _ _ _ _].
  assert (Hfr : howmany (k_bsize k) (k_fsize k) = k_frag k) by (apply howmany_unique; lia).
  destruct (runs_put_dir _ _ _ _ _ (k_bsize k) LOSTFOUNDINO 2 (k_bsize k) (lost_found_block k) Hst Hw)
    as (h & m1 & w1 & E1 & H1 & St1); first [done|lia|by left|by apply (first_takeable o k p utime)|unfold LOSTFOUNDINO; lia|idtac].
  { intros j Hj. apply free_data in Hj. lia. }
  rewrite Hfr in St1.
  destruct (runs_put_dir _ _ _ _ _ (k_fsize k) ROOTINO PREDEFDIR DIRBLKSIZ (makedir root_dir) St1 H1)
    as (h2 & m2 & w2 & E2 & H2 & _); first [done|lia|by right|by apply (second_takeable o k p utime)|unfold ROOTINO; lia|idtac].
  { intros j Hj. apply andb_true_iff in Hj as [Hj _]. apply free_data in Hj. lia. }
  exists m2, w2. split; [|done]. unfold bind at 1. by rewrite E1.
Qed.

Lemma runs_write_superblock bno sb : 0 <= bno -> runs lim (write_superblock o k bno sb).
Proof. intros Hb. unfold write_superblock. apply runs_wtfs; [done|done|unfold SBSIZE; lia]. Qed.
Lemma format_writes_run w : healthy 0 w ->
  exists w', format_writes o k p (new_superblock o k p) utime w = (Ok tt, w') /\ healthy lim w'.
Proof.
  intros Hw. destruct format_room as [R1 R2 _ _ R5 _ _]. unfold format_writes. rewrite Hwrite.
  destruct (wtfs_grows o 0 Hbase (fo_size_1k_sectors o - 1) DEV_BSIZE zeros w Hw ltac:(lia) ltac:(done) Hwrite)
    as (w1 & E1 & [I1 S1 M1 L1]).
  assert (H1 : healthy lim w1).
  { constructor; try done. unfold disk_offset, DEV_BSIZE in L1. cbn in L1. lia. }
  unfold bind at 1. rewrite E1.
  assert (Hg : runs lim (fold_each (seqZ 0 (p_ncg p)) (initcg o k p utime) no_counts)).
  { apply runs_fold_each. intros c m Hc. apply runs_initcg. apply list_elem_of_In, elem_of_seqZ in Hc. lia. }
  destruct (Hg w1 H1) as (m2 & w2 & E2 & H2). unfold bind at 1. fold no_counts. rewrite E2.
  apply (all_groups_done o k p utime S D F Hsectors Htime Hfits Hbase Hwrite) in E2 as G.
  2: { constructor; cbn; try done; try (apply wf_zeros); try lia. pose proof (pf_size _ _ _ F). lia. }
  destruct (runs_fsinit m2 w2 (groups_started o k p utime D F Htime _ _ G) H2) as (m3 & w3 & E3 & H3).
  unfold bind at 1. rewrite E3.
  match goal with |- context [?f w3] => enough (Hr : runs lim f) end.
  { destruct (Hr w3 H3) as ([] & w' & E & H'). eauto. }
  apply runs_bind; [apply runs_write_superblock; unfold SBLOCK; lia|]. intros _.
  apply runs_bind; [|intros _].
  - apply runs_for_each. intros q Hq. apply list_elem_of_In, elem_of_seqZ in Hq.
    pose proof (howmany_bounds (p_cssize p) (k_bsize k) ltac:(lia)) as Hh.
    unfold write_csum_block. apply runs_wtfs; [done| |nia]. apply frag_sector.
    destruct (plan_counts o k p D F) as [_ _ _ _ _ _ [Hd _] _ _ _].
    destruct (disk_numbers o k D) as [_ _ _ _ _ _ _ _ _ _ _ _ _ _ _ Ni _].
    rewrite (numfrags_block o k p utime D F Htime) by lia. nia.
  - apply runs_for_each. intros c Hc. apply list_elem_of_In, elem_of_seqZ in Hc.
    apply runs_write_superblock, frag_sector. by apply (group_sectors o k p utime D F Htime c).
Qed.
End steps.

(** Options and plan of a format that writes an image the next open accepts. *)
Record formats (o : format_options) (k : disk) (p : plan) : Prop := Formats {
  fr_supported : unsupported_geometry o = false;
  fr_sectors : 0 <= fo_size_1k_sectors o;
  fr_base : 0 <= fo_base_offset o;
  fr_writes : fo_dry_run o = false /\ fo_validate_only o = false;
  fr_plan : format_plan o = Ok (k, p, new_superblock o k p);
  fr_fits : fits k p;
}.
Lemma nextufs_format_runs o k p w : formats o k p -> healthy 0 w ->
  exists w', nextufs_format (true, true) o w = (Ok tt, w') /\
    healthy (fo_base_offset o + fo_size_1k_sectors o * 1024) w'.
Proof.
  intros [Hu Hz Hb [Hd Hvo] Hp Hf] Hw. destruct (format_plan_facts _ _ _ _ Hu Hz Hp) as (S & D & F & _ & Hn).
  unfold nextufs_format. rewrite Hp, Hd, Hvo. cbn [of_result fst snd negb andb orb fail_if].
  destruct (runs_time 0 w Hw) as (utime & w1 & E1 & H1). unfold bind at 1. rewrite E1.
  assert (Ht : 0 <= utime < 2 ^ 32) by (injection E1 as <- _; apply w32_range).
  unfold bind at 1. cbn [of_result].
  assert (Hcs : 0 <= p_cssize p < 2 ^ 63).
  { destruct (plan_counts o k p D F) as [_ _ _ ? [? ?] _ _ _ _ _]. lia. }
  destruct (runs_malloc 0 (p_cssize p) Hcs w1 H1) as ([] & w2 & E2 & H2). unfold bind at 1. rewrite E2.
  unfold bind at 1. unfold ret at 1.
  assert (Hcreat : exists w3, (if fo_no_create o then ret tt
     else lift (fun f => (Ok tt, File zeros 0 (f_script f) (f_sync f)))) w2 = (Ok tt, w3) /\ healthy 0 w3).
  { destruct (fo_no_create o); eexists; (split; [reflexivity|]); [done|].
    destruct H2 as [I2 S2 M2 L2]. constructor; [by apply file_inv_zeros|done|done|done]. }
  destruct Hcreat as (w3 & E3 & H3). unfold bind at 1. rewrite E3. unfold bind at 1. unfold ret at 1.
  rewrite (proj2 (Z.leb_gt _ _)) by apply (pf_size _ _ _ F). unfold bind at 1. cbn [fail_if]. unfold ret at 1.
  by apply format_writes_run.
Qed.

(** ** Property *)

(** C8. Formatting succeeds.  For supported options whose plan fits, with the target opened
    and a host that has memory and makes whole transfers, nextufs_format returns success,
    whatever the file held, and the file is then at least as long as the filesystem.  No
    check it makes along the way - magic numbers, counts of bytes, a free block for each of
    the first directories, the range of the inode numbers - can fail on what it has
    written itself. *)
Theorem format_succeeds o k p (w : world file) :
  formats o k p -> bk_inv (w_ctx w) -> f_script (w_ctx w) = [] -> (forall i, ev_malloc (w_env w) i = true) ->
  exists w', nextufs_format (true, true) o w = (Ok tt, w') /\ bk_inv (w_ctx w') /\
    fo_base_offset o + fo_size_1k_sectors o * 1024 <= f_size (w_ctx w').
Proof.
  intros Hf Hi Hs Hm. destruct (nextufs_format_runs o k p w Hf) as (w' & E & [I _ _ L]).
  - constructor; try done. apply Hi.
  - exists w'. auto.
Qed.

Lemma small_formats : formats small_options small_disk small_plan.
Proof.
  constructor; [reflexivity|cbn; lia|cbn; lia|done|exact small_plan_ok|]. apply fitsb_spec. vm_compute. reflexivity.
Qed.
Lemma format_succeeds_witness :
  exists w', nextufs_format (true, true) small_options (raw_world (File zeros 0 [] [])) = (Ok tt, w') /\
    bk_inv (w_ctx w') /\ 0 + 400 * 1024 <= f_size (w_ctx w').
Proof.
  apply (format_succeeds small_options small_disk small_plan (raw_world (File zeros 0 [] []))).
  - exact small_formats.
  - split; [vm_compute; discriminate|]. split; [apply wf_zeros|]. reflexivity.
  - reflexivity.
  - reflexivity.
Defined.
