(* ===== verification/FormatImage.v ===== *)
(** * Formatting: the filesystem that is made

    What nextufs_format leaves, seen as an opened image: groups whose accounts agree,
    equal superblock copies, and a root directory that holds lost+found. *)
From S2P Require Import Prelude.
From S2P Require Import Bytes.
From S2P Require Import Backend.
From S2P Require Import Superblock.
From S2P Require Import Image.
From S2P Require Import Inode.
From S2P Require Import CylGroup.
From S2P Require Import Alloc.
From S2P Require Import BlockMap.
From S2P Require Import BlockLookup.
From S2P Require Import FileIO.
From S2P Require Import Dirent.
From S2P Require Import Directory.
From S2P Require Import Attributes.
From S2P Require Import GrowGroups.
From S2P Require Import GrowPlan.
From S2P Require Import GrowDisk.
From S2P Require Import FormatPlan.
From S2P Require Import Format.
From S2P Require Import FormatSuper.
From S2P Require Import FormatGroups.
From S2P Require Import FormatDisk.
From S2P Require Import FormatRuns.

Section made.
Context (o : format_options) (k : disk) (p : plan) (utime : Z).
Hypothesis S : supported o.
Hypothesis D : disk_facts o k.
Hypothesis F : plan_facts o k p.
Hypothesis Hsectors : 0 < fo_size_1k_sectors o <= INT32_MAX.
Hypothesis Htime : 0 <= utime < 2 ^ 32.
Hypothesis Hfits : fits k p.
Hypothesis Hbase : 0 <= fo_base_offset o.
Context (m : format) (v : buf) (d1 d2 : Z) (img : image).
Hypothesis Hmade : formatted o k p utime m v d1 d2.
Hypothesis Hv : wf_buf v.
Hypothesis Himg : slice_base img = fo_base_offset o.
Hypothesis Hsb : sb img = decode_superblock (slice v (fo_base_offset o + UFS_SBLOCK_OFFSET)).
Local Abbreviation base := (fo_base_offset o).
Local Abbreviation made_sb := (final_superblock (new_superblock o k p) utime (wrapped m)).

Lemma made_decoded : sb img = made_sb.
Proof.
  destruct Hmade as [_ _ _ _ Hd Hs _ _ _ _ _ _ _]. rewrite Hsb.
  rewrite (decode_eq_on _ (superblock_bytes o k p utime m)); [by apply written_decodes|].
  intros i Hi. unfold slice. change UFS_SBLOCK_OFFSET with 8192. apply Hs. lia.
Qed.
Lemma made_wf : sb_wf (sb img).
Proof. rewrite made_decoded. destruct Hmade as [_ _ _ _ Hd _ _ _ _ _ _ _ _]. by apply final_wf. Qed.
Lemma made_valid size : fo_size_1k_sectors o * 1024 <= size -> image_validate (sb img) base size = Ok tt.
Proof.
  intros Hs. destruct Hmade as [_ _ _ _ Hd _ _ _ _ _ _ _ _].
  destruct (written_valid o k p m utime S D F Hsectors Hd Htime base size Hbase Hs) as [E H].
  rewrite E in H. rewrite made_decoded. by apply H.
Qed.
Lemma made_start c : 0 <= c < p_ncg p -> base + cgstart (sb img) c * k_fsize k = at_group o k p c.
Proof.
  intros Hc. pose proof (made_valid _ ltac:(reflexivity)) as Hval.
  assert (Hc' : 0 <= c < cg_count (sb img)) by by rewrite made_decoded.
  destruct (cgstart_bounds _ _ _ made_wf Hval c Hc') as (-> & _). rewrite made_decoded. done.
Qed.

(** ** The groups *)
Lemma made_group c : 0 <= c < p_ncg p -> group_at img v c = header o k p v c.
Proof.
  intros Hc. pose proof (made_valid _ ltac:(reflexivity)) as Hval.
  assert (Hc' : 0 <= c < cg_count (sb img)) by by rewrite made_decoded.
  unfold group_at, header. f_equal. rewrite Himg, (cg_block_offset_eq _ _ _ made_wf Hval c Hc').
  rewrite <- made_start by done. rewrite made_decoded.
  pose proof (pl_header _ _ _ (group_places o k p utime D F Htime) c) as H. unfold cgtod, at_group in *.
  change (frag_size made_sb) with (k_fsize k). change (cg_off made_sb) with (k_cblkno k). lia.
Qed.
Lemma made_group_ok b : group_ok (final_superblock (new_superblock o k p) utime no_counts) b ->
  group_ok (sb img) b.
Proof. rewrite made_decoded. intros [L [A1 A2 A3 A4] I]. constructor; [done|by constructor|done]. Qed.
Lemma made_tail b : clean_tail (final_superblock (new_superblock o k p) utime no_counts) b ->
  clean_tail (sb img) b.
Proof. rewrite made_decoded. by intros H. Qed.
Lemma made_sound_group c : 0 <= c < p_ncg p ->
  group_ok (sb img) (header o k p v c) /\ clean_tail (sb img) (header o k p v c) /\
  read_be32 (header o k p v c) CG_NDBLK_OFF = group_size p c.
Proof.
  intros Hc. destruct Hmade as [L M _ _ _ _ _ _ _ _ _ _ _].
  destruct (decide (c = 0)) as [->|].
  - destruct L as [_ ? ? ? _ _ _ _]. eauto using made_group_ok, made_tail.
  - destruct (M c ltac:(lia)) as [_ ? ? ? _ _ _ _]. eauto using made_group_ok, made_tail.
Qed.
Lemma made_totals f e t : In (f, e, t) counter_fields ->
  read_be32 v (base + 0x2000 + t) = w32 (total_of o k p f (p_ncg p) v).
Proof.
  intros Hin. destruct Hmade as [_ _ _ Ht _ Hs _ _ _ _ _ _ _].
  assert (Hw : exists x, In (f, x) (totals m) /\ read_be32 v (base + 0x2000 + t) = w32 x).
  { pose proof (counter_field_small _ _ _ Hin).
    replace (read_be32 v (base + 0x2000 + t)) with (read_be32 (superblock_bytes o k p utime m) t).
    2: { rewrite <- slice_read_be32. symmetry. apply read_be32_eq_on. intros i Hi. unfold slice.
         change 0x2000 with 8192. apply Hs. lia. }
    cbn [In counter_fields] in Hin. unfold superblock_bytes.
    destruct_or! Hin; try done; injection Hin as <- <- <-; eexists;
      (split; [cbn; eauto|apply encoded_field; cbn; eauto 50]). }
  destruct Hw as (x & Hx & ->). by apply Ht.
Qed.
Lemma made_groups_sound : groups_sound img v.
Proof.
  assert (Hn : cg_count (sb img) = p_ncg p) by by rewrite made_decoded.
  constructor; [constructor|..]; rewrite Hn.
  - intros c Hc. rewrite made_group by done. by apply made_sound_group.
  - intros c f e t Hc Hin. rewrite made_group by done.
    destruct Hmade as [_ _ Hcs _ _ _ _ _ _ _ _ _ _]. rewrite <- (Hcs c f e t Hc Hin). f_equal.
    unfold csum_off, data_bytes. rewrite Himg, made_decoded.
    pose proof (pl_dblkno _ _ _ (group_places o k p utime D F Htime)) as H. unfold data_bytes in H.
    change (cyl_summary_addr made_sb) with (p_dblkno p). change (frag_size made_sb) with (k_fsize k). lia.
  - intros f e t Hin. rewrite Himg, (made_totals f e t) by done. f_equal. apply sumZ_ext. intros c Hc.
    by rewrite made_group.
  - intros c Hc. rewrite made_group by done. destruct (made_sound_group c Hc) as (_ & _ & ->).
    rewrite made_decoded. unfold cg_frag_count.
    change (frags_per_group made_sb) with (p_fpg p). change (frag_count made_sb) with (p_size p).
    destruct (plan_counts o k p D F) as [_ _ _ _ [C5 _] Hlt _ _ _ Cf].
    pose proof (pf_fpg _ _ _ F) as (_ & Hf & _). pose proof (pf_device _ _ _ F (fit_groups _ _ Hfits)).
    assert (p_size p < 2 ^ 31) by (destruct (group_places o k p utime D F Htime) as [_ [? _] _ _ _ _ _ _ _ _ _ _]; unfold INT32_MAX in *; nia).
    assert (0 <= c * p_fpg p <= (p_ncg p - 1) * p_fpg p) by nia.
    rewrite w64_small by lia. unfold group_size, cgbase.
    destruct (Z.ltb_spec (p_size p - c * p_fpg p) (p_fpg p)); [rewrite w32_small by lia|]; lia.
  - intros c Hc. rewrite made_group by done. by apply made_sound_group.
Qed.

(** ** The inodes and the directories *)
Local Abbreviation root := (dir_inode k utime PREDEFDIR DIRBLKSIZ d2).
Local Abbreviation lost := (dir_inode k utime 2 (k_bsize k) d1).

Lemma places_small d : data_begin k p 0 <= d -> d + k_frag k <= group_size p 0 -> 0 < d < 2 ^ 16.
Proof.
  intros H1 H2. destruct (plan_counts o k p D F) as [C1 _ _ _ _ _ _ _ _ C10].
  destruct (group_parts o k p D F 0 (first_group o k p D F)) as [[S1 _] S2 _ _ _ _ _].
  pose proof (pf_fpg _ _ _ F) as (_ & Hf & _).
  assert (group_size p 0 <= p_fpg p) by (unfold group_size, cgbase; lia). lia.
Qed.
Lemma dir_inode_wf nlink size d : 0 <= nlink < 2 ^ 16 -> 0 <= size <= 8192 -> 0 <= d < 2 ^ 32 ->
  inode_wf (dir_inode k utime nlink size d).
Proof.
  intros H1 H2 H3.
  assert (Hr : 0 <= fragroundup k size < 2 ^ 16).
  { rewrite (fragroundup_howmany o k D). destruct (group_places o k p utime D F Htime) as [P1 [P2 _] _ _ _ _ _ _ _ _ _ _].
    pose proof (howmany_bounds size (k_fsize k) ltac:(lia)).
    assert (k_fsize k <= 8192) by (destruct (plan_counts o k p D F) as [_ _ _ ? _ _ _ _ _ _]; lia). nia. }
  constructor; cbn [dir_inode i_mode i_nlink i_uid i_gid i_size i_atime i_mtime i_ctime i_db i_ib
    i_flags i_blocks i_gen]; try done; try lia.
  - constructor; [done|]. apply Forall_replicate. lia.
  - apply Forall_replicate. lia.
  - rewrite Z.shiftr_div_pow2 by lia. split; [apply Z.div_pos; lia|].
    apply Z.div_lt_upper_bound; lia.
Qed.

Lemma made_inode n : 0 <= n < p_ncg p * p_ipg p ->
  decode_inode (slice v (inode_offset (sb img) (slice_base img) n)) =
  if n =? ROOTINO then root else if n =? LOSTFOUNDINO then lost else decode_inode zeros.
Proof.
  intros Hn. pose proof (made_valid _ ltac:(reflexivity)) as Hval.
  pose proof (pf_ipg _ _ _ F) as [Hi _].
  set (c := n / p_ipg p). set (r := n mod p_ipg p).
  assert (Hc : 0 <= c < p_ncg p) by (split; [apply Z.div_pos|apply Z.div_lt_upper_bound]; lia).
  assert (Hr : 0 <= r < p_ipg p) by (apply Z.mod_pos_bound; lia).
  assert (Hnr : n = p_ipg p * c + r) by (apply Z.div_mod; lia).
  assert (Hoff : inode_offset (sb img) (slice_base img) n = at_group o k p c + 24576 + k_bsize k + r * 128).
  { rewrite Himg, (inode_offset_eq _ _ _ made_wf Hval) by by rewrite made_decoded.
    pose proof (made_start c Hc) as Hs. rewrite made_decoded in *.
    change (inodes_per_group made_sb) with (p_ipg p). fold c r.
    change (frag_size made_sb) with (k_fsize k). change (ino_off made_sb) with (k_iblkno k).
    pose proof (pl_inodes _ _ _ (group_places o k p utime D F Htime) c) as H.
    unfold cgimin, at_group, UFS_INODE_SIZE in *. lia. }
  rewrite Hoff. destruct Hmade as [_ _ _ _ _ _ _ It D1 D2 _ _ _].
  assert (Hall : forall i, 0 <= i < UFS_INODE_SIZE ->
    slice v (at_group o k p c + 24576 + k_bsize k + r * 128) i = inode_table k utime d1 d2 c (r * 128 + i)).
  { intros i Hii. unfold slice, UFS_INODE_SIZE in *. rewrite <- It by lia. f_equal. lia. }
  destruct (places_small d1 (proj1 D1) (proj1 (proj2 D1))).
  destruct (places_small d2 (proj1 D2) (proj1 (proj2 D2))).
  destruct (plan_counts o k p D F) as [_ _ _ Hbs _ _ _ _ _ _].
  destruct (Z.eqb_spec n ROOTINO) as [->|Hn2]; [|destruct (Z.eqb_spec n LOSTFOUNDINO) as [->|Hn3]].
  - rewrite (decode_inode_eq_on _ (encode_inode root)).
    { apply decode_encode, dir_inode_wf; unfold PREDEFDIR, DIRBLKSIZ; lia. }
    intros i Hii. rewrite Hall by done. unfold inode_table, ROOTINO, UFS_INODE_SIZE in *.
    assert (c = 0) as -> by nia. assert (r = 2) as -> by lia.
    replace ((0 =? 0) && (256 <=? 2 * 128 + i) && (2 * 128 + i <? 384)) with true by lia. f_equal. lia.
  - rewrite (decode_inode_eq_on _ (encode_inode lost)).
    { apply decode_encode, dir_inode_wf; lia. }
    intros i Hii. rewrite Hall by done. unfold inode_table, LOSTFOUNDINO, UFS_INODE_SIZE in *.
    assert (c = 0) as -> by nia. assert (r = 3) as -> by lia.
    replace ((0 =? 0) && (256 <=? 3 * 128 + i) && (3 * 128 + i <? 384)) with false by lia.
    replace ((0 =? 0) && (384 <=? 3 * 128 + i) && (3 * 128 + i <? 512)) with true by lia. f_equal. lia.
  - apply decode_inode_eq_on. intros i Hii. rewrite Hall by done.
    unfold inode_table, ROOTINO, LOSTFOUNDINO, UFS_INODE_SIZE in *.
    replace ((c =? 0) && (256 <=? r * 128 + i) && (r * 128 + i <? 384)) with false
      by (destruct (Z.eqb_spec c 0); cbn [andb]; lia).
    replace ((c =? 0) && (384 <=? r * 128 + i) && (r * 128 + i <? 512)) with false
      by (destruct (Z.eqb_spec c 0); cbn [andb]; lia). done.
Qed.

(** The block of a directory of one block, read as the directory code reads it. *)
Lemma made_records ino d b n :
  i_size ino = n -> 0 < n <= k_bsize k -> nth 0 (i_db ino) 0 = d -> 0 < d < 2 ^ 32 -> wf_buf b ->
  (forall i, 0 <= i < n -> v (base + d * k_fsize k + i) = b i) ->
  dir_blocks img ino = [0] /\ dir_records img v ino 0 = scan b n.
Proof.
  intros Hn Hb Hd Hd0 W Hi.
  assert (Hbs : block_size (sb img) = k_bsize k) by by rewrite made_decoded.
  assert (Hfs : frag_size (sb img) = k_fsize k) by by rewrite made_decoded.
  split.
  - unfold dir_blocks, block_total. rewrite Hn, Hbs.
    by rewrite <- (Z.div_unique (n + k_bsize k - 1) (k_bsize k) 1 (n - 1)) by lia.
  - assert (Hsz : chunk_bytes img (i_size ino) 0 = n) by (unfold chunk_bytes; rewrite Hn, Hbs; lia).
    unfold dir_records. rewrite Hsz.
    assert (Hin : forall i, 0 <= i < n -> slice (file_byte img v ino) (0 * block_size (sb img)) i = b i).
    { intros i Hii. unfold slice, file_byte, inode_block. rewrite Hbs, Z.mul_0_l, Z.add_0_l.
      rewrite Z.div_small, Z.mod_small by lia. cbn [Z.ltb Z.compare]. change (db_at ino 0) with (nth 0 (i_db ino) 0).
      rewrite Hd, (proj2 (Z.eqb_neq d 0)) by lia. unfold frag_offset. rewrite Hfs, Himg. by apply Hi. }
    apply scan_eq_on; [done| |lia|done]. intros i.
    unfold slice, file_byte. case_match; [lia|]. apply Hv.
Qed.
Lemma made_root_records : dir_blocks img root = [0] /\ dir_records img v root 0 = scan (makedir root_dir) DIRBLKSIZ.
Proof.
  destruct Hmade as [_ _ _ _ _ _ _ _ _ D2 _ _ R].
  destruct (places_small d2 (proj1 D2) (proj1 (proj2 D2))).
  destruct (plan_counts o k p D F) as [_ _ _ Hbs _ _ _ _ _ _].
  apply (made_records _ d2); [done|unfold DIRBLKSIZ; lia|done|lia|apply dir_bytes_wf; exact k|].
  intros i Hi. apply R. unfold DIRBLKSIZ in *. lia.
Qed.
Lemma made_lost_records : dir_blocks img lost = [0] /\ dir_records img v lost 0 = scan (lost_found_block k) (k_bsize k).
Proof.
  destruct Hmade as [_ _ _ _ _ _ _ _ D1 _ _ L _].
  destruct (places_small d1 (proj1 D1) (proj1 (proj2 D1))).
  destruct (plan_counts o k p D F) as [_ _ _ Hbs _ _ _ _ _ _].
  apply (made_records _ d1); [done|lia|done|lia|apply dir_bytes_wf|done].
Qed.

(** The entries of the two directories. *)
Lemma root_entries : let r := scan (makedir root_dir) DIRBLKSIZ in
  live (fst r) = root_dir /\ snd r = true.
Proof. vm_compute. done. Qed.
Lemma lost_entries : let r := scan (lost_found_block k) (k_bsize k) in
  live (fst r) = lost_found_dir /\ snd r = true.
Proof.
  unfold lost_found_block. destruct (pl_bsize _ _ _ (group_places o k p utime D F Htime)) as [-> | ->];
    vm_compute; done.
Qed.

(** ** What is in use *)
(** Fragments of the two directories. *)
Definition dir_frag (c j : Z) : bool :=
  (c =? 0) && ((d1 <=? j) && (j <? d1 + k_frag k) || (j =? d2)).
Lemma made_maps c : 0 <= c < p_ncg p ->
  (forall j, 0 <= j < p_fpg p ->
     bit_test (group_at img v c) CG_FREE_OFF j = free_at k p c j && negb (dir_frag c j)) /\
  (forall i, 0 <= i < p_ipg p -> bit_test (group_at img v c) CG_IUSED_OFF i = (c =? 0) && (i <? 4)).
Proof.
  intros Hc. rewrite made_group by done. pose proof (pf_ipg _ _ _ F) as [Hi _].
  destruct Hmade as [L M _ _ _ _ _ _ _ _ _ _ _]. destruct (decide (c = 0)) as [->|Hne].
  - destruct L as [_ _ _ _ _ _ B I]. split.
    + intros j Hj. rewrite B by done. unfold dirs_taken, dir_frag. cbn [Z.eqb andb].
      rewrite negb_orb, andb_assoc. f_equal. f_equal. lia.
    + intros i Hii. rewrite I by lia. unfold inodes_taken, reserved, ROOTINO, LOSTFOUNDINO. lia.
  - destruct (M c ltac:(lia)) as [_ _ _ _ _ _ B I]. unfold dir_frag.
    rewrite (proj2 (Z.eqb_neq c 0)) by done. cbn [andb negb]. split.
    + intros j Hj. rewrite B by done. by rewrite andb_true_r.
    + intros i Hii. rewrite I by lia. unfold reserved. by rewrite (proj2 (Z.eqb_neq c 0)).
Qed.

(** Every copy of the superblock is the primary. *)
Lemma made_copies c i : 0 <= c < p_ncg p -> 0 <= i < 8192 ->
  v (at_group o k p c + 16384 + i) = v (base + UFS_SBLOCK_OFFSET + i).
Proof.
  intros Hc Hi. destruct Hmade as [_ _ _ _ _ Hs Hcp _ _ _ _ _ _].
  rewrite Hcp by done. change UFS_SBLOCK_OFFSET with 8192. by rewrite Hs.
Qed.
End made.

(** ** nextufs_format *)
Lemma nextufs_format_writes opens o k p s w w' :
  fo_dry_run o = false -> fo_validate_only o = false -> format_plan o = Ok (k, p, s) ->
  bk_inv (w_ctx w) -> nextufs_format opens o w = (Ok tt, w') ->
  exists utime w1, 0 <= utime < 2 ^ 32 /\ bk_inv (w_ctx w1) /\ format_writes o k p s utime w1 = (Ok tt, w').
Proof.
  intros Hd Hvo Hp Hi Hr. unfold nextufs_format in Hr. rewrite Hp, Hd, Hvo in Hr.
  apply bind_ok in Hr as (utime & w1 & H1 & Hr).
  pose proof (time_now_range _ _ _ H1) as Ht. apply time_now_quiet in H1 as [Q1 _ _ _].
  apply bind_ok in Hr as ([[k' p'] s'] & w2 & [= <- <- <- <-] & Hr).
  apply bind_ok in Hr as ([] & w3 & H3 & Hr). apply malloc_quiet in H3 as [Q3 _ _ _].
  destruct (negb (fst opens)); [done|]. apply bind_ok in Hr as ([] & w4 & [= <-] & Hr).
  apply bind_ok in Hr as ([] & w5 & H5 & Hr).
  assert (I5 : bk_inv (w_ctx w5)).
  { destruct (fo_no_create o); injection H5 as <-; [by auto|]. by apply file_inv_zeros. }
  destruct (negb (snd opens)); [done|]. apply bind_ok in Hr as ([] & w6 & [= <-] & Hr).
  destruct (p_size p <=? 0); [done|]. apply bind_ok in Hr as ([] & w7 & [= <-] & Hr). eauto.
Qed.

Lemma formats_ok opens o k p w w' : formats o k p -> bk_inv (w_ctx w) ->
  nextufs_format opens o w = (Ok tt, w') ->
  (supported o /\ disk_facts o k /\ plan_facts o k p /\ 0 < fo_size_1k_sectors o <= INT32_MAX) /\
  wf_buf (view w') /\
  exists utime m d1 d2, 0 <= utime < 2 ^ 32 /\ formatted o k p utime m (view w') d1 d2.
Proof.
  intros [Hu Hz Hb [Hd Hvo] Hp Hf] Hi Hr. destruct (format_plan_facts _ _ _ _ Hu Hz Hp) as (S & D & F & _ & Hn).
  apply (nextufs_format_writes _ _ _ _ _ _ _ Hd Hvo Hp Hi) in Hr as (utime & w1 & Ht & I1 & Hr).
  apply (format_writes_ok o k p utime S D F Hn Ht Hf Hb Hd) in Hr as (m & d1 & d2 & I' & Hm); [|done].
  split_and!; try done; try lia; [by apply view_wf|]. by exists utime, m, d1, d2.
Qed.

(** ** Properties *)

(** C7. Formatting makes a filesystem the rest of the library can trust, when its plan
    [fits].  The formatter does not check that: a group must have room for the full
    staggering, the cylinders must be at most 2^31 - 1 sectors and the groups must contain
    all cylinders, which is exactly when a later open accepts the superblock
    ([formatted_superblock_valid]); formats that do not fit also end with success.  For
    options nextufs_mkimg_main supports and a plan that fits, a run of nextufs_format that
    succeeds on any file leaves an image whose superblock nextufs_image_validate accepts,
    and whose groups are sound: in every group the counters are those of its maps, header,
    summary area and superblock agree, and the map is clear past the end of the group.
    Every copy of the superblock equals the primary. *)
Theorem format_makes_sound_groups opens o k p s (w w' : world file) img :
  unsupported_geometry o = false -> 0 <= fo_size_1k_sectors o -> 0 <= fo_base_offset o ->
  fo_dry_run o = false /\ fo_validate_only o = false ->
  format_plan o = Ok (k, p, s) -> fits k p ->
  bk_inv (w_ctx w) -> nextufs_format opens o w = (Ok tt, w') ->
  slice_base img = fo_base_offset o ->
  sb img = decode_superblock (slice (view w') (slice_base img + UFS_SBLOCK_OFFSET)) ->
  image_validate (sb img) (slice_base img) (fo_size_1k_sectors o * 1024) = Ok tt /\
  cg_count (sb img) = p_ncg p /\ frag_count (sb img) = p_size p /\
  groups_sound img (view w') /\
  (forall cg, 0 <= cg < p_ncg p ->
     eq_on 0 8192 (slice (view w') (at_copy img cg))
       (slice (view w') (slice_base img + UFS_SBLOCK_OFFSET))).
Proof.
  intros Hu Hz Hb0 Hdry Hp Hf Hi Hr Hb Hsb.
  destruct (format_plan_facts _ _ _ _ Hu Hz Hp) as (_ & _ & _ & -> & _).
  destruct (formats_ok opens o k p w w') as ((S & D & F & Hn) & Hv & utime & m & d1 & d2 & Ht & Hm);
    [by constructor|done|done|]. rewrite Hb in *.
  pose proof (made_decoded o k p utime S D F Hn Ht m _ d1 d2 img Hm Hsb) as E.
  split_and!; [by eapply made_valid|by rewrite E|by rewrite E|by eapply made_groups_sound|].
  intros cg Hc i Hii.
  assert (Hat : at_copy img cg = at_group o k p cg + 16384).
  { pose proof (pl_copy _ _ _ (group_places o k p utime D F Ht) cg) as H. rewrite <- H.
    unfold at_copy, group_base. rewrite Hb, E. unfold cgsblock, cgstart_, cgbase.
    cbn [final_superblock new_superblock frags_per_group cg_delta cg_cyc_mask frag_size sb_off]. lia. }
  rewrite Hat. unfold slice. replace (at_group o k p cg + 16384 + (0 + i)) with (at_group o k p cg + 16384 + i) by lia.
  apply (made_copies o k p utime m _ d1 d2 Hm); lia.
Qed.

(** The image of the small filesystem as the next open sees it. *)
Definition small_made : world file :=
  snd (nextufs_format (true, true) small_options (raw_world (File zeros 0 [] []))).
Definition small_image : image :=
  Image true true false false false false SOURCE_RAW (400 * 1024) 0 (400 * 1024) 0 0 0 0 [] 0 false
    (decode_superblock (slice (view small_made) (0 + UFS_SBLOCK_OFFSET))).
Lemma run_ended {W} {r : result unit * W} {w} : r = (Ok tt, w) -> r = (Ok tt, snd r).
Proof. by intros ->. Qed.
Lemma small_run : bk_inv (w_ctx (raw_world (File zeros 0 [] []))) /\
  nextufs_format (true, true) small_options (raw_world (File zeros 0 [] [])) = (Ok tt, small_made).
Proof.
  assert (I : file_inv (File zeros 0 [] [])) by by apply file_inv_zeros.
  split; [exact I|]. unfold small_made.
  destruct (nextufs_format_runs small_options small_disk small_plan (raw_world (File zeros 0 [] [])))
    as (w' & E & _); [exact small_formats|by constructor|exact (run_ended E)].
Qed.
Lemma format_makes_sound_groups_witness :
  image_validate (sb small_image) 0 (400 * 1024) = Ok tt /\
  cg_count (sb small_image) = 2 /\ frag_count (sb small_image) = 400 /\
  groups_sound small_image (view small_made) /\
  (forall cg, 0 <= cg < 2 ->
     eq_on 0 8192 (slice (view small_made) (at_copy small_image cg))
       (slice (view small_made) (0 + UFS_SBLOCK_OFFSET))).
Proof.
  destruct small_run as [Hi Hr].
  destruct small_formats as [Hu Hz Hb Hd Hp Hf].
  exact (format_makes_sound_groups (true, true) small_options small_disk small_plan _ _ small_made small_image
    Hu Hz Hb Hd Hp Hf Hi Hr eq_refl eq_refl).
Defined.

(** C9. Formatting makes an empty tree.  After the same runs inode 2 is the root directory,
    inode 3 is lost+found, every other inode is zero, and exactly the inodes below 4 are
    marked in use.  Each directory has one block: the root, read as the directory code
    reads it, holds dot, dot-dot and lost+found; lost+found holds dot and dot-dot.  The free
    maps have every fragment of the data areas free but the root's fragment and the block
    of lost+found, which are apart. *)
Theorem format_makes_empty_tree opens o k p (w w' : world file) img :
  formats o k p -> bk_inv (w_ctx w) -> nextufs_format opens o w = (Ok tt, w') ->
  slice_base img = fo_base_offset o ->
  sb img = decode_superblock (slice (view w') (slice_base img + UFS_SBLOCK_OFFSET)) ->
  exists utime d1 d2,
  let root := dir_inode k utime PREDEFDIR DIRBLKSIZ d2 in
  let lost := dir_inode k utime 2 (k_bsize k) d1 in
  (forall n, 0 <= n < p_ncg p * p_ipg p ->
     decode_inode (slice (view w') (inode_offset (sb img) (slice_base img) n)) =
     if n =? 2 then root else if n =? 3 then lost else decode_inode zeros) /\
  (forall dir entries, In (dir, entries)
     [(root, [(2, [dot]); (2, [dot; dot]); (3, NAME_LOST_FOUND)]); (lost, [(3, [dot]); (2, [dot; dot])])] ->
     dir_blocks img dir = [0] /\
     live (fst (dir_records img (view w') dir 0)) = entries /\ snd (dir_records img (view w') dir 0) = true) /\
  (forall c, 0 <= c < p_ncg p ->
     (forall j, 0 <= j < p_fpg p -> bit_test (group_at img (view w') c) CG_FREE_OFF j =
        free_at k p c j && negb (dir_frag k d1 d2 c j)) /\
     (forall i, 0 <= i < p_ipg p -> bit_test (group_at img (view w') c) CG_IUSED_OFF i = (c =? 0) && (i <? 4))) /\
  (forall j, d1 <= j < d1 + k_frag k \/ j = d2 -> free_at k p 0 j = true) /\ (d2 < d1 \/ d1 + k_frag k <= d2).
Proof.
  intros Hf Hi Hr Hb Hsb. destruct (formats_ok _ _ _ _ _ _ Hf Hi Hr) as ((S & D & F & Hn) & Hv & utime & m & d1 & d2 & Ht & Hm).
  destruct Hf as [_ _ Hb0 _ _ Hf]. exists utime, d1, d2. cbv zeta.
  assert (Hsb' : sb img = decode_superblock (slice (view w') (fo_base_offset o + UFS_SBLOCK_OFFSET)))
    by by rewrite <- Hb.
  pose proof Hm as [_ _ _ _ _ _ _ _ D1 D2 Ap _ _]. pose proof (frag_pos o k D) as Hfr. split_and!.
  - intros n Hc. by apply (made_inode o k p utime S D F Hn Ht Hf Hb0 m).
  - intros dir entries [[= <- <-]|[[= <- <-]|[]]].
    + edestruct (made_root_records o k p utime) as [-> ->]; [done..|].
      split; [reflexivity|]. exact root_entries.
    + edestruct (made_lost_records o k p utime) as [-> ->]; [done..|].
      split; [reflexivity|]. by apply (lost_entries o k p utime).
  - intros c Hc. by apply (made_maps o k p utime S D F Hn Ht Hf Hb0 m).
  - intros j Hj. apply (data_free k p). lia.
  - lia.
Qed.
Lemma format_makes_empty_tree_witness :
  exists utime d1 d2, forall n, 0 <= n < 2 * 64 ->
    decode_inode (slice (view small_made) (inode_offset (sb small_image) 0 n)) =
    if n =? 2 then dir_inode small_disk utime PREDEFDIR DIRBLKSIZ d2
    else if n =? 3 then dir_inode small_disk utime 2 8192 d1 else decode_inode zeros.
Proof.
  destruct small_run as [Hi Hr].
  destruct (format_makes_empty_tree (true, true) small_options small_disk small_plan _ small_made small_image
    small_formats Hi Hr eq_refl eq_refl) as (utime & d1 & d2 & H & _).
  exists utime, d1, d2. exact H.
Defined.
