(* ===== verification/MkImg.v ===== *)
(** * The mkimg command

    src/src/commands/mkimg.c and src/src/core/source.c: the arguments, the target file, and
    the command that puts label and filesystem on it.  [strtol] is the C function in base
    10, [basename] the POSIX one.  What the host answers to [open], [flock], [ftruncate]
    and [close] on the target is a record. *)
From Stdlib Require Import String.
From S2P Require Import Prelude.
From S2P Require Import Bytes.
From S2P Require Import Backend.
From S2P Require Import Superblock.
From S2P Require Import Image.
From S2P Require Import Dirent.
From S2P Require Import Label.
From S2P Require Import Resize.
From S2P Require Import Size.
From S2P Require Import FormatPlan.
From S2P Require Import Format.

Definition UFS_SECTOR_SIZE : Z := 1024.
Definition LONG_MAX : Z := 2 ^ 63 - 1.

(** ** Arguments *)
Record options := Options {
  mk_raw : bool;
  mk_dry_run : bool;
  mk_force_size : bool;
  mk_force_overwrite : bool;
  mk_help : bool;
  mk_label : option name;
  mk_target : option name;
  mk_bytes : Z;
  mk_extra : list name;
}.
Definition no_options : options := Options false false false false false None None 0 [].

Definition isspace (c : Z) : bool := (c =? 32) || ((9 <=? c) && (c <=? 13)).
Fixpoint skip_space (s : name) : name :=
  match s with c :: s' => if isspace c then skip_space s' else s | [] => [] end.
(** The exact value and [end]. *)
Definition strtol (s : name) : Z * name :=
  let t := skip_space s in
  let '(neg, t) := match t with
                   | c :: t' => if c =? 45 then (true, t') else if c =? 43 then (false, t') else (false, t)
                   | [] => (false, t)
                   end in
  if starts_with_digit t
  then let '(v, rest) := digits 10 0 t in (if (neg : bool) then - v else v, rest)
  else (0, s).
Definition parse_int_arg (s : name) : option Z :=
  let '(value, rest) := strtol s in
  if (value <? - 2 ^ 63) || (LONG_MAX <? value) || (length rest =? length s)%nat ||
     negb (bool_decide (rest = [])) || (value <? - 2 ^ 31) || (INT32_MAX <? value)
  then None else Some value.

(** The characters after the last slash that is not at the end. *)
Fixpoint strip_slashes (rev_path : name) : name :=
  match rev_path with c :: s => if c =? slash then strip_slashes s else rev_path | [] => [] end.
Fixpoint upto_slash (s : name) : name :=
  match s with c :: s' => if c =? slash then [] else c :: upto_slash s' | [] => [] end.
Definition basename (path : name) : name :=
  if bool_decide (path = []) then [dot]
  else
    let t := strip_slashes (rev path) in
    if bool_decide (t = []) then [slash] else rev (upto_slash t).
Definition default_label (path : name) : name := firstn 24 (basename (firstn 1023 path)).

Definition is_arg (arg : name) (s : string) : bool := bool_decide (arg = str s).
(** The loop; [None] is -1, and [mk_help] ends it. *)
Fixpoint parse_loop (args : list name) (o : options) : option options :=
  let '(Options raw dry force over help label target bytes extra) := o in
  match args with
  | [] => Some o
  | arg :: rest =>
      if is_arg arg "--raw" then parse_loop rest (Options true dry force over help label target bytes extra)
      else if is_arg arg "--dry-run" then parse_loop rest (Options raw true force over help label target bytes extra)
      else if is_arg arg "--force-size" then parse_loop rest (Options raw dry true over help label target bytes extra)
      else if is_arg arg "--force-overwrite" then parse_loop rest (Options raw dry force true help label target bytes extra)
      else if is_arg arg "--label" then
        match rest with
        | [] => None
        | l :: rest => parse_loop rest (Options raw dry force over help (Some l) target bytes extra)
        end
      else if is_arg arg "-h" || is_arg arg "--help" then
        Some (Options raw dry force over true label target bytes extra)
      else if match arg with c :: _ => c =? 45 | [] => false end then None
      else
        match target with
        | None => parse_loop rest (Options raw dry force over help label (Some arg) bytes extra)
        | Some _ =>
            if bytes =? 0 then
              match parse_size_bytes arg BARE_SIZE_1K_SECTORS with
              | None => None
              | Some n => parse_loop rest (Options raw dry force over help label target n extra)
              end
            else if raw then Some (Options raw dry force over help label target bytes args)
            else None
        end
  end.
Definition parse_args (args : list name) : option options :=
  match parse_loop args no_options with
  | None => None
  | Some (Options raw dry force over help label target bytes extra as o) =>
      if help then Some o
      else
        match target with
        | None => None
        | Some path =>
            if (bytes =? 0) || (raw && bool_decide (label <> None)) ||
               (negb raw && negb (length extra =? 0)%nat) then None
            else
              let label := match label with Some l => l | None => default_label path end in
              Some (Options raw dry force over help (Some label) target bytes extra)
        end
  end.

(** ** Options of the formatter *)
Definition nextufs_format_defaults : format_options :=
  FormatOptions None 0 32 16 8192 1024 0 MINFREE 60 NBPI 116 false false false false 0.
Definition int_arg (extra : list name) (i : nat) (default : Z) : option Z :=
  match nth_error extra i with Some s => parse_int_arg s | None => Some default end.
Definition char_arg (extra : list name) (default : Z) : option Z :=
  match nth_error extra 8 with Some [c] => Some c | Some _ => None | None => Some default end.
Notation "'try' x ':=' m 'in' k" := (match m with Some x => k | None => None end)
  (at level 10, x name, m at level 100, k at level 200) : nextufs_scope.
Definition format_options_from_cli (opts : options) (fs_sectors : Z) : option format_options :=
  let d := nextufs_format_defaults in
  let extra := mk_extra opts in
  if negb (mk_raw opts) then
    Some (FormatOptions (mk_target opts) fs_sectors 32 4 8192 1024 16 10 60 4096 116
            (mk_dry_run opts) false (mk_force_size opts) true LABEL_FRONT_PORCH_BYTES)
  else if (9 <? length extra)%nat then None
  else
    try nsect := int_arg extra 0 (fo_nsect d) in
    try ntrak := int_arg extra 1 (fo_ntrak d) in
    try bsize := int_arg extra 2 (fo_bsize d) in
    try fsize := int_arg extra 3 (fo_fsize d) in
    try cpg := int_arg extra 4 (fo_cpg d) in
    try minfree := int_arg extra 5 (fo_minfree d) in
    try rps := int_arg extra 6 (fo_rps d) in
    try nbpi := int_arg extra 7 (fo_nbpi d) in
    try opt := char_arg extra (fo_opt d) in
    Some (FormatOptions (mk_target opts) fs_sectors nsect ntrak bsize fsize cpg minfree rps nbpi opt
            (mk_dry_run opts) false (mk_force_size opts) true 0).
Definition validating (o : format_options) : format_options :=
  FormatOptions (fo_target o) (fo_size_1k_sectors o) (fo_nsect o) (fo_ntrak o) (fo_bsize o)
    (fo_fsize o) (fo_cpg o) (fo_minfree o) (fo_rps o) (fo_nbpi o) (fo_opt o) (fo_dry_run o)
    true (fo_force_size o) (fo_no_create o) (fo_base_offset o).

(** ** The target file *)
Inductive open_policy := OPEN_READ_ONLY | OPEN_READ_WRITE | OPEN_CREATE | OPEN_OVERWRITE.
(** What the host says about the target: whether it exists, and why calls on it fail. *)
Record target_host := TargetHost {
  th_exists : bool;
  th_open : option errno;           (* open in nextufs_target_open *)
  th_lock : option errno;           (* flock *)
  th_empty : option errno;          (* ftruncate to zero *)
  th_resize : option errno;         (* ftruncate to the size *)
  th_label : option errno;          (* open in nextufs_label_write_path *)
  th_format : bool * bool;          (* open for writing and for reading in nextufs_format *)
  th_close : option errno;
}.

Section command.
Variable h : target_host.
Local Abbreviation M := (M (world file)).

Definition answer (why : option errno) : M unit :=
  match why with Some e => fail e | None => ret tt end.
Definition set_size (why : option errno) (size : Z) : M unit :=
  answer why ;;;
  if s64 size <? 0 then fail EINVAL else lift (fun f => (Ok tt, truncated f (s64 size))).
Definition nextufs_target_open (policy : open_policy) : M unit :=
  let creating (excl : bool) :=
    answer (if th_exists h && excl then Some EEXIST else th_open h) ;;;
    (if th_exists h then ret tt
     else lift (fun f => (Ok tt, File zeros 0 (f_script f) (f_sync f)))) ;;;
    answer (th_lock h) in
  match policy with
  | OPEN_CREATE => creating true
  | OPEN_OVERWRITE => creating false ;;; set_size (th_empty h) 0
  | _ => fail EINVAL
  end.
Definition nextufs_target_create_sized (policy : open_policy) (bytes : Z) : M unit :=
  nextufs_target_open policy ;;; set_size (th_resize h) bytes ;;; answer (th_close h).
Definition create_output (opts : options) : M unit :=
  nextufs_target_open (if mk_force_overwrite opts then OPEN_OVERWRITE else OPEN_CREATE) ;;;
  set_size (th_resize h) (mk_bytes opts).

(** ** The command: the exit status *)
(** Goes on if [m] succeeds, exits with [status] if not. *)
Definition or_exit (m : M unit) (status : Z) (k : M Z) : M Z :=
  let! rc := attempt m in if is_ok rc then k else ret status.
Definition label_of (opts : options) : name := match mk_label opts with Some l => l | None => [] end.
Definition slice_bytes_of (opts : options) : Z :=
  if mk_raw opts then mk_bytes opts else mk_bytes opts - LABEL_FRONT_PORCH_BYTES.
(** The label's file is opened before its size checks here: only the errno, which is not
    reported, depends on the order. *)
Definition write_image (opts : options) (fmt : format_options) : M Z :=
  or_exit (create_output opts) 1 (
  or_exit (if mk_raw opts then ret tt
           else answer (th_label h) ;;;
                lift (label_write_path (mk_bytes opts) (slice_bytes_of opts) (label_of opts))) 1 (
  let! rc := attempt (nextufs_format (th_format h) fmt) in
  let! synced := attempt (lift fsync) in
  ret (if is_ok rc && is_ok synced && bool_decide (th_close h = None) then 0 else 1))).
(** [args]: [argv] after the command's name. *)
Definition nextufs_mkimg_main (args : list name) : M Z :=
  match parse_args args with
  | None => ret 2
  | Some opts =>
      let bytes := mk_bytes opts in
      if mk_help opts then ret 0
      else if negb (mk_force_size opts) && (NEXTUFS_COMPAT_MAX_BYTES <? bytes) then ret 1
      else if negb (bytes mod UFS_SECTOR_SIZE =? 0) then ret 1
      else if negb (mk_raw opts) && (bytes <=? LABEL_FRONT_PORCH_BYTES) then ret 1
      else
        let fs_sectors := slice_bytes_of opts / UFS_SECTOR_SIZE in
        if LONG_MAX <? fs_sectors then ret 1
        else
          match format_options_from_cli opts fs_sectors with
          | None => ret 1
          | Some fmt =>
              if unsupported_geometry fmt then ret 2
              else
                or_exit (nextufs_format (th_format h) (validating fmt)) 1 (
                if mk_dry_run opts then ret 0 else write_image opts fmt)
          end
  end.
End command.
