(* ===== verification/MkImgDisk.v ===== *)
(** * The mkimg command: the image it makes

    A labelled image is one the library opens: the label names the slice, the filesystem in
    it is valid and its groups are sound. *)
From Stdlib Require Import String.
From S2P Require Import Prelude.
From S2P Require Import Bytes.
From S2P Require Import Backend.
From S2P Require Import Superblock.
From S2P Require Import Image.
From S2P Require Import Inode.
From S2P Require Import CylGroup.
From S2P Require Import Dirent.
From S2P Require Import Label.
From S2P Require Import Open.
From S2P Require Import Size.
From S2P Require Import GrowPlan.
From S2P Require Import GrowDisk.
From S2P Require Import Resize.
From S2P Require Import GrowSafe.
From S2P Require Import FormatPlan.
From S2P Require Import Format.
From S2P Require Import FormatSuper.
From S2P Require Import FormatDisk.
From S2P Require Import FormatFrame.
From S2P Require Import FormatRuns.
From S2P Require Import FormatImage.
From S2P Require Import MkImg.

(** ** The geometry of labelled images always fits *)
Definition labeled (opts : options) (n : Z) : format_options :=
  FormatOptions (mk_target opts) n 32 4 8192 1024 16 10 60 4096 116
    (mk_dry_run opts) false (mk_force_size opts) true LABEL_FRONT_PORCH_BYTES.
Definition labeled_disk : disk :=
  Disk 32 4 128 8192 1024 13 10 8 3 2048 64 1 0 16 24 32 32 (2 ^ 32 - 4) 1.
Lemma labeled_disk_of opts n : disk_of (labeled opts n) = Ok labeled_disk.
Proof. vm_compute. reflexivity. Qed.

Lemma labeled_groups opts n p : plan_of (labeled opts n) labeled_disk 16 = Ok p ->
  plan_facts (labeled opts n) labeled_disk p -> p_ncyl p <= p_ncg p * p_cpg p.
Proof.
  intros Hp F. pose proof (pf_ipg _ _ _ F) as [Hi _]. pose proof (pf_dblkno _ _ _ F) as Hd.
  unfold plan_of in Hp. cbv zeta in Hp. change (fo_size_1k_sectors (labeled opts n)) with n in Hp.
  set (size := Z.shiftr n (k_fsbtodb labeled_disk)) in *.
  set (ncyl := howmany (size * k_nspf labeled_disk) (k_spc labeled_disk)) in *.
  set (ncg := howmany ncyl 16) in *. set (ipg := ipg_of _ _ _ _) in *. set (dblkno := k_iblkno labeled_disk + _) in *.
  unrefuse Hp. destruct (trim_last _ _ _ _ _ _ _) as [[size' ncyl'] ncg'] eqn:Et.
  unrefuse Hp. apply ok_inj in Hp. subst p. cbn [p_ncyl p_ncg p_cpg p_ipg p_dblkno] in *.
  change (k_fsize labeled_disk) with 1024 in Hd. change (k_bsize labeled_disk) with 8192 in Hd.
  assert (Hn : ncyl * 128 - 128 < size <= ncyl * 128).
  { pose proof (howmany_bounds (size * 1) 128 ltac:(lia)) as Hb. subst ncyl.
    change (k_nspf labeled_disk) with 1. change (k_spc labeled_disk) with 128. lia. }
  pose proof (howmany_bounds ncyl 16 ltac:(lia)) as Hg. fold ncg in Hg.
  unfold trim_last in Et. change (fpg_of labeled_disk 16) with 2048 in Et.
  destruct (_ && _) eqn:E in Et; injection Et as <- <- <-; [|lia].
  apply andb_true_iff in E as [_ E%Z.ltb_lt].
  assert (Hm : metadata_end labeled_disk dblkno (ncg - 1) <= 96 + dblkno).
  { unfold metadata_end. change (not32 (k_cgmask labeled_disk)) with (Z.ones 2).
    rewrite Z.land_ones by lia. pose proof (Z.mod_pos_bound (ncg - 1) (2 ^ 2) ltac:(lia)).
    change (k_cgoffset labeled_disk) with 32. lia. }
  pose proof (Z.div_mod ncyl 16 ltac:(lia)). pose proof (Z.mod_pos_bound ncyl 16 ltac:(lia)). lia.
Qed.
Lemma labeled_formats opts n k p s : mk_dry_run opts = false -> 0 <= n <= 2 ^ 31 - 256 ->
  format_plan (labeled opts n) = Ok (k, p, s) ->
  formats (labeled opts n) k p /\ s = new_superblock (labeled opts n) k p.
Proof.
  intros Hd Hn Hp. assert (Hu : unsupported_geometry (labeled opts n) = false) by reflexivity.
  destruct (format_plan_facts _ _ _ _ Hu (proj1 Hn) Hp) as (S & D & F & -> & Hz).
  split; [|done]. constructor; try done; try lia.
  pose proof Hp as Hq. unfold format_plan in Hq. unrefuse Hq. rewrite labeled_disk_of in Hq.
  change (cpg_of (labeled opts n) labeled_disk) with (@Ok Z 16) in Hq.
  cbv iota in Hq. destruct (plan_of (labeled opts n) labeled_disk 16) as [p'|] eqn:Ep; [|done].
  injection Hq as <- <-.
  pose proof (pf_ipg _ _ _ F) as [Hi _]. pose proof (pf_dblkno _ _ _ F) as Hb.
  pose proof (pf_bound _ _ _ F) as Hc. pose proof (pf_fpg _ _ _ F) as (Hf & _).
  pose proof (labeled_groups opts n p' Ep F) as Hg.
  assert (Hcpg : p_cpg p' = 16).
  { unfold plan_of in Ep. cbv zeta in Ep. unrefuse Ep. destruct (trim_last _ _ _ _ _ _ _) as [[? ?] ?]. unrefuse Ep.
    apply ok_inj in Ep. by subst p'. }
  cbn [labeled_disk k_fsize k_bsize k_nspf k_spc fo_size_1k_sectors labeled] in *.
  constructor; cbn [labeled_disk k_cgoffset k_cgmask k_spc]; [|unfold INT32_MAX; lia|done].
  change (not32 (2 ^ 32 - 4)) with 3. lia.
Qed.

(** ** The run of the command *)
(** Where the next command goes on. *)
Lemma or_exit_zero (m : M (world file) unit) status q w w' : status <> 0 ->
  or_exit m status q w = (Ok 0, w') -> exists w1, m w = (Ok tt, w1) /\ q w1 = (Ok 0, w').
Proof.
  intros Hs Hr. unfold or_exit, bind, attempt in Hr. destruct (m w) as [[[]|e] w1]; cbn [is_ok] in Hr.
  - by exists w1.
  - unfold ret in Hr. by injection Hr as [= ->].
Qed.
Lemma answer_ok (why : option errno) (w w' : world file) : answer why w = (Ok tt, w') -> why = None /\ w' = w.
Proof. unfold answer. destruct why; [done|]. by intros [= <-]. Qed.

Lemma set_size_ok why n (w w' : world file) : set_size why n w = (Ok tt, w') -> bk_inv (w_ctx w) ->
  0 <= s64 n /\ bk_inv (w_ctx w') /\ f_size (w_ctx w') = s64 n.
Proof.
  intros Hr I. unfold set_size in Hr. apply bind_ok in Hr as ([] & w1 & H1 & Hr). apply answer_ok in H1 as [_ ->].
  destruct (Z.ltb_spec (s64 n) 0); [done|]. injection Hr as <-. split_and!; [done| |done].
  by apply truncated_inv.
Qed.
Lemma target_open_ok h policy w w' : nextufs_target_open h policy w = (Ok tt, w') -> bk_inv (w_ctx w) ->
  bk_inv (w_ctx w').
Proof.
  intros Hr I.
  assert (Hc : forall excl w1, (answer (if th_exists h && excl then Some EEXIST else th_open h) ;;;
    (if th_exists h then ret tt
     else lift (fun f => (Ok tt, File zeros 0 (f_script f) (f_sync f)))) ;;; answer (th_lock h)) w = (Ok tt, w1) ->
    bk_inv (w_ctx w1)).
  { intros excl w1 H. apply bind_ok in H as ([] & w2 & H1 & H). apply answer_ok in H1 as [_ ->].
    apply bind_ok in H as ([] & w3 & H2 & H). apply answer_ok in H as [_ ->].
    destruct (th_exists h); injection H2 as <-; [done|]. by apply file_inv_zeros. }
  unfold nextufs_target_open in Hr. destruct policy; try done; [by eapply Hc|].
  apply bind_ok in Hr as ([] & w1 & H1 & Hr). apply Hc in H1. by apply set_size_ok in Hr as (_ & ? & _).
Qed.
Lemma create_output_ok h opts w w' : create_output h opts w = (Ok tt, w') -> bk_inv (w_ctx w) ->
  0 <= mk_bytes opts < 2 ^ 63 -> bk_inv (w_ctx w') /\ f_size (w_ctx w') = mk_bytes opts.
Proof.
  intros Hr I Hb. unfold create_output in Hr. apply bind_ok in Hr as ([] & w1 & H1 & Hr).
  apply target_open_ok in H1; [|done]. apply set_size_ok in Hr as (_ & I' & Hs); [|done].
  split; [done|]. by rewrite Hs, s64_small by lia.
Qed.

(** The four copies, and how long the file is. *)
Definition labels_written (n slice ncyl : Z) (label : name) (v : buf) : Prop :=
  forall q, 0 <= q < LABEL_COPY_COUNT ->
    eq_on 0 LABEL_WRITE_SIZE (Bytes.slice v (q * LABEL_COPY_STRIDE)) (label_copy (q * LABEL_COPY_STRIDE) n slice ncyl label).
Lemma label_write_keeps bytes sl label (f f' : file) : file_inv f ->
  label_write_path bytes sl label f = (Ok tt, f') -> file_inv f' /\ f_size f <= f_size f'.
Proof.
  intros I Hr. unfold label_write_path in Hr. destruct (_ || _); [done|]. destruct (_ <? _); [done|].
  apply (for_each_inv (fun _ f1 => file_inv f1 /\ f_size f <= f_size f1)) in Hr; [done|unfold LABEL_COPY_COUNT; lia|done|].
  intros i f1 f2 Hi [I1 S1] Hstep. unfold write_label_copy in Hstep.
  pose proof (write_exact_fd_size _ _ _ _ _ _ Hstep) as [HS _].
  apply write_exact_fd_spec in Hstep as (I2 & _); [|done|unfold LABEL_COPY_STRIDE; lia]. split; [done|lia].
Qed.
Lemma label_write_ok bytes sl label (f f' : file) : file_inv f -> Forall (fun c => 0 < c < 256) label ->
  label_write_path bytes sl label f = (Ok tt, f') ->
  let total := w32 (bytes / LABEL_SECTOR_SIZE) in
  let blocks := w32 (sl / LABEL_SECTOR_SIZE) in
  total <= UNUSED24 /\ blocks <= UNUSED24 /\ file_inv f' /\ f_size f <= f_size f' /\
  labels_written total blocks (total / (4 * 32)) label (f_data f').
Proof.
  intros I Hl Hr. cbv zeta. destruct (label_write_keeps _ _ _ _ _ I Hr) as [I' S']. unfold label_write_path in Hr.
  set (total := w32 (bytes / _)) in *. set (blocks := w32 (sl / _)) in *.
  destruct (Z.ltb_spec UNUSED24 total); [done|]. destruct (Z.ltb_spec UNUSED24 blocks); [done|].
  cbn [orb] in Hr. destruct (Z.ltb_spec 0xffff (total / (4 * 32))); [done|].
  pose proof (write_copies_ok _ _ _ _ _ _ I Hl Hr) as Hc. done.
Qed.

Lemma validated_plan opens o w w' : nextufs_format opens (validating o) w = (Ok tt, w') ->
  exists k p s, format_plan o = Ok (k, p, s).
Proof.
  intros Hr. unfold nextufs_format in Hr. apply bind_ok in Hr as (t & w1 & _ & Hr).
  change (format_plan (validating o)) with (format_plan o) in Hr.
  destruct (format_plan o) as [[[k p] s]|e]; [by exists k, p, s|done].
Qed.

(** What an exit status of 0 means for a labelled image. *)
Record image_made (opts : options) (w' : world file) : Prop := ImageMade {
  im_inv : bk_inv (w_ctx w');
  im_bytes : LABEL_FRONT_PORCH_BYTES < mk_bytes opts /\ mk_bytes opts mod 1024 = 0;
  im_blocks : mk_bytes opts / 1024 <= UNUSED24;
  im_size : mk_bytes opts <= f_size (w_ctx w');
  im_labels : labels_written (mk_bytes opts / 1024) (slice_bytes_of opts / 1024)
                (mk_bytes opts / 1024 / (4 * 32)) (label_of opts) (view w');
  im_formatted : exists k p utime m d1 d2, 0 <= utime < 2 ^ 32 /\
    formats (labeled opts (slice_bytes_of opts / 1024)) k p /\
    formatted (labeled opts (slice_bytes_of opts / 1024)) k p utime m (view w') d1 d2;
}.
Lemma write_image_ok h opts k p s w w' (fmt := labeled opts (slice_bytes_of opts / 1024)) :
  mk_raw opts = false -> mk_dry_run opts = false -> Forall (fun c => 0 < c < 256) (label_of opts) ->
  bk_inv (w_ctx w) -> LABEL_FRONT_PORCH_BYTES < mk_bytes opts -> mk_bytes opts mod 1024 = 0 ->
  format_plan fmt = Ok (k, p, s) -> write_image h opts fmt w = (Ok 0, w') -> image_made opts w'.
Proof.
  intros Hraw Hdry Hl I Hb Hm Hp Hr. unfold LABEL_FRONT_PORCH_BYTES in Hb.
  assert (Hsl : slice_bytes_of opts = mk_bytes opts - 160 * 1024) by (unfold slice_bytes_of; by rewrite Hraw).
  pose proof (Z.div_mod (mk_bytes opts) 1024 ltac:(lia)) as Hdm.
  assert (Hsd : slice_bytes_of opts / 1024 = mk_bytes opts / 1024 - 160).
  { rewrite Hsl. symmetry. apply (Z.div_unique _ _ _ 0); lia. }
  assert (Hz : fo_size_1k_sectors fmt = mk_bytes opts / 1024 - 160) by exact Hsd.
  assert (Hz0 : 0 <= fo_size_1k_sectors fmt) by lia.
  destruct (format_plan_facts fmt k p s eq_refl Hz0 Hp) as (_ & _ & _ & _ & Hmax).
  unfold write_image in Hr. rewrite Hraw in Hr.
  apply or_exit_zero in Hr as (w1 & H1 & Hr); [|done].
  apply create_output_ok in H1 as [I1 S1]; [|done|unfold INT32_MAX in *; lia].
  apply or_exit_zero in Hr as (w2 & H2 & Hr); [|done].
  apply bind_ok in H2 as ([] & w2' & Ha & H2). apply answer_ok in Ha as [_ ->]. unfold lift in H2.
  destruct (label_write_path _ _ _ (w_ctx w1)) as [r f] eqn:El. injection H2 as -> <-.
  destruct (label_write_ok _ _ _ _ _ I1 Hl El) as (T1 & T2 & I2 & S2 & L2).
  unfold LABEL_SECTOR_SIZE in *. unfold INT32_MAX in Hmax.
  rewrite (w32_small (mk_bytes opts / 1024)) in T1, L2 by lia. rewrite (w32_small (slice_bytes_of opts / 1024)) in T2, L2 by lia.
  assert (Hn : 0 <= slice_bytes_of opts / 1024 <= 2 ^ 31 - 256) by (unfold UNUSED24 in *; lia).
  destruct (labeled_formats opts _ k p s Hdry Hn Hp) as [Hf ->].
  set (w2 := World f (w_tx w1) (w_env w1)) in *.
  apply bind_ok in Hr as (rc & w3 & H3 & Hr). apply attempt_inv in H3 as (r3 & [= ->] & H3).
  apply bind_ok in Hr as (rs & w4 & H4 & Hr). apply attempt_inv in H4 as (r4 & [= ->] & H4).
  destruct r3 as [[]|e]; [|by destruct r4]. injection Hr as Hr <-.
  pose proof (formats_ok _ _ _ _ w2 w3 Hf I2 H3) as (_ & _ & utime & m & d1 & d2 & Ht & Hfm).
  destruct (keeps_nextufs_format fmt ltac:(done) (th_format h) eq_refl Hz0 eq_refl w2 _ _ I2 H3)
    as [[I3 L3 S3 _] _].
  unfold lift in H4. destruct (fsync (w_ctx w3)) as [r5 f4] eqn:E4. injection H4 as _ <-.
  apply fsync_frame in E4 as [D4 S4].
  assert (Hv4 : view (World f4 (w_tx w3) (w_env w3)) = view w3) by exact D4.
  constructor; rewrite ?Hv4; cbn [w_ctx]; try done.
  - cbn in I3 |- *. unfold file_inv in *. by rewrite D4, S4.
  - cbn [w_ctx w2] in *. lia.
  - intros q Hq i Hi. rewrite <- (L2 q Hq i Hi). unfold Bytes.slice. change (f_data f) with (view w2). apply L3.
    unfold LABEL_COPY_COUNT, LABEL_COPY_STRIDE, LABEL_WRITE_SIZE in *. cbn [fo_base_offset fmt labeled].
    unfold LABEL_FRONT_PORCH_BYTES. lia.
  - by exists k, p, utime, m, d1, d2.
Qed.
Lemma mkimg_run h args opts w w' : parse_args args = Some opts ->
  mk_help opts = false -> mk_raw opts = false -> mk_dry_run opts = false ->
  Forall (fun c => 0 < c < 256) (label_of opts) -> bk_inv (w_ctx w) ->
  nextufs_mkimg_main h args w = (Ok 0, w') -> image_made opts w'.
Proof.
  intros Ha Hh Hraw Hdry Hl I Hr. unfold nextufs_mkimg_main in Hr. rewrite Ha, Hh, Hdry in Hr.
  destruct (_ && _) in Hr; [done|].
  destruct (Z.eqb_spec (mk_bytes opts mod UFS_SECTOR_SIZE) 0) as [Hm|]; [|done].
  rewrite Hraw in Hr. destruct (Z.leb_spec (mk_bytes opts) LABEL_FRONT_PORCH_BYTES); [done|].
  cbn [negb andb] in Hr. destruct (_ <? _) in Hr; [done|].
  unfold format_options_from_cli in Hr. rewrite Hraw in Hr. cbn [negb] in Hr.
  destruct (unsupported_geometry _) in Hr; [done|].
  apply or_exit_zero in Hr as (w1 & H1 & Hr); [|done].
  destruct (validated_plan _ _ _ _ H1) as (k & p & s & Hp).
  assert (Hz : 0 <= slice_bytes_of opts / UFS_SECTOR_SIZE).
  { apply Z.div_pos; [|done]. unfold slice_bytes_of. rewrite Hraw. lia. }
  match type of H1 with nextufs_format _ (validating ?f) _ = _ =>
    destruct (keeps_nextufs_format (validating f) ltac:(done) (th_format h) eq_refl Hz eq_refl w _ _ I H1) as [[I1 _ _ _] _]
  end.
  by apply (write_image_ok h opts k p s w1).
Qed.

(** ** Opening the image *)
Lemma read_whole img n off (w : world file) : backend_open img = true -> image_size img = f_size (w_ctx w) ->
  f_script (w_ctx w) = [] -> 0 <= off -> 0 < n < 2 ^ 63 -> off + n <= f_size (w_ctx w) ->
  exists b, read_exact img n off w = (Ok b, w) /\ eq_on 0 n b (Bytes.slice (view w) off).
Proof.
  intros Ho Hz Hs H0 Hn Hr. unfold read_exact. rewrite Ho, w64_small by lia. cbn [negb].
  rewrite (proj2 (Z.ltb_ge off 0)), (proj2 (Z.ltb_ge (image_size img) off)),
    (proj2 (Z.ltb_ge (image_size img - off) n)) by lia. cbn [orb].
  exists (blit zeros 0 (Bytes.slice (f_data (w_ctx w)) (off + 0)) n). split.
  - unfold lift. cbn [bk_read raw_backend]. unfold raw_backend_read, read_exact_fd, io_fuel. rewrite Hs. cbn [length read_loop].
    rewrite (proj2 (Z.ltb_lt 0 n)) by lia. unfold pread, next_outcome. rewrite Hs, Z.sub_0_r, Z.min_l by lia.
    rewrite (proj2 (Z.eqb_neq n 0)) by lia. rewrite Z.add_0_l, Z.ltb_irrefl. by destruct w.
  - intros i Hi. rewrite blit_in by lia. unfold Bytes.slice, view. cbn. f_equal. lia.
Qed.
Lemma decoded_version b size off dl : label_decode b size off = Some dl -> label_is_version (read_be32 b 0) = true.
Proof. unfold label_decode. destruct (_ <? _); [done|]. by destruct (label_is_version _). Qed.

Lemma fold_until_hit {W A B} (x : A) l (f : A -> B -> M W (B * bool)) b0 b (w w' : W) :
  f x b0 w = (Ok (b, true), w') -> fold_until (x :: l) f b0 w = (Ok (b, true), w').
Proof. intros E. cbn [fold_until]. unfold bind. by rewrite E. Qed.

Section opened.
Context (opts : options) (w w2 : world file) (k : disk) (p : plan) (utime : Z) (m : format) (d1 d2 : Z).
Local Abbreviation fmt := (labeled opts (slice_bytes_of opts / 1024)).
Hypothesis Hmade : image_made opts w.
Hypothesis Hraw : mk_raw opts = false.
Hypothesis Hlabel : Forall (fun c => 0 < c < 256) (label_of opts).
Hypothesis Ht : 0 <= utime < 2 ^ 32.
Hypothesis Hf : formats fmt k p.
Hypothesis Hd : formatted fmt k p utime m (view w) d1 d2.
(** A later process with the same file and no failures. *)
Hypothesis Hsame : f_data (w_ctx w2) = f_data (w_ctx w) /\ f_size (w_ctx w2) = f_size (w_ctx w).
Hypothesis Hscript : f_script (w_ctx w2) = [].
Hypothesis Hmalloc : forall i, ev_malloc (w_env w2) i = true.
Local Abbreviation base := LABEL_FRONT_PORCH_BYTES.
Local Abbreviation super := (decode_superblock (Bytes.slice (view w) (base + UFS_SBLOCK_OFFSET))).

Lemma made_slice : slice_bytes_of opts = mk_bytes opts - base /\ mk_bytes opts / 1024 * 1024 = mk_bytes opts /\
  slice_bytes_of opts / 1024 * 1024 = slice_bytes_of opts /\ 0 < slice_bytes_of opts / 1024 < UNUSED24.
Proof.
  destruct Hmade as [_ [B1 B2] B3 _ _ _]. pose proof (Z.div_mod (mk_bytes opts) 1024 ltac:(lia)) as Hdm.
  assert (Hsl : slice_bytes_of opts = mk_bytes opts - base) by (unfold slice_bytes_of; by rewrite Hraw).
  unfold LABEL_FRONT_PORCH_BYTES in *.
  assert (Hsd : slice_bytes_of opts / 1024 = mk_bytes opts / 1024 - 160).
  { rewrite Hsl. symmetry. apply (Z.div_unique _ _ _ 0); lia. }
  split_and!; lia.
Qed.
Lemma made_image img : slice_base img = base -> sb img = super ->
  sb_wf (sb img) /\ fs_magic (sb img) = UFS_FS_MAGIC /\ block_size (sb img) = k_bsize k /\ frag_size (sb img) = k_fsize k /\
  image_validate (sb img) base (slice_bytes_of opts) = Ok tt /\ groups_sound img (view w) /\
  base + 32768 <= mk_bytes opts.
Proof.
  intros Hb Hs. destruct made_slice as (M1 & M2 & M3 & M4). destruct Hmade as [I _ _ _ _ _].
  destruct Hf as [Hu Hz Hb0 _ Hp Hfit]. destruct (format_plan_facts _ _ _ _ Hu Hz Hp) as (S & D & F & _ & Hn).
  assert (Hbase : 0 <= base) by done. assert (Wv : wf_buf (view w)) by by apply bk_view_wf.
  pose proof (made_decoded fmt k p utime S D F Hn Ht m (view w) d1 d2 img Hd Hs) as E.
  split_and!.
  - by apply (made_wf fmt k p utime S D F Hn Ht m (view w) d1 d2 img).
  - by rewrite E.
  - by rewrite E.
  - by rewrite E.
  - apply (made_valid fmt k p utime S D F Hn Ht Hfit Hbase m (view w) d1 d2 img Hd Hs). cbn [fo_size_1k_sectors labeled]. lia.
  - by apply (made_groups_sound fmt k p utime S D F Hn Ht Hfit Hbase m (view w) d1 d2).
  - destruct (format_room fmt k p utime D F Ht Hfit) as [R1 _ _ _ _ R6 _].
    cbn [fo_base_offset fo_size_1k_sectors labeled] in R6. lia.
Qed.

(** The first label is taken. *)
Lemma label_taken (w3 : world file) scanbuf scan_size : w_ctx w3 = w_ctx w2 ->
  let img := blank_image true (f_size (w_ctx w)) in
  base + 32768 <= scan_size -> scan_size <= f_size (w_ctx w) -> scan_size < 2 ^ 63 ->
  eq_on 0 scan_size scanbuf (Bytes.slice (view w2) 0) ->
  exists dl, try_label img scanbuf scan_size true (-1) 0 None w3 =
    (Ok (Some (with_label (with_slice img base (slice_bytes_of opts) super) dl), true), w3) /\
    dl_name dl = firstn 23 (label_of opts).
Proof.
  intros Hw img Hlo Hhi Hscan Heq. destruct made_slice as (M1 & M2 & M3 & M4).
  destruct Hmade as [I _ _ Hsz Hlab _]. destruct Hsame as [Hs1 Hs2].
  assert (Hv2 : view w2 = view w) by exact Hs1.
  destruct (made_image (with_slice img base (slice_bytes_of opts) super) eq_refl eq_refl)
    as (Wf & Mg & Bs & Fs & Val & _ & _). cbn [sb with_slice] in *.
  assert (Hpl : plausible super = true).
  { unfold plausible. rewrite Mg, Bs, Fs, Z.eqb_refl. destruct Hf as [Hu Hz _ _ Hp _].
    destruct (format_plan_facts _ _ _ _ Hu Hz Hp) as (_ & D & _ & _ & _).
    pose proof (df_shape _ _ D) as Hsh. cbn in Hsh. destruct_or! Hsh; try done; by injection Hsh as <- <-. }
  assert (Hcopy : eq_on 0 LABEL_WRITE_SIZE (Bytes.slice scanbuf 0) (label_copy 0 (mk_bytes opts / 1024)
    (slice_bytes_of opts / 1024) (mk_bytes opts / 1024 / (4 * 32)) (label_of opts))).
  { intros i Hi. unfold LABEL_WRITE_SIZE, LABEL_FRONT_PORCH_BYTES in *.
    pose proof (Hlab 0 ltac:(done) i Hi) as Hb. change (0 * LABEL_COPY_STRIDE) with 0 in Hb. rewrite <- Hb. unfold Bytes.slice.
    rewrite Heq by lia. unfold Bytes.slice. rewrite Hv2. f_equal. }
  assert (Hb24 : 0 <= slice_bytes_of opts / 1024 < 2 ^ 24) by (unfold UNUSED24 in *; lia).
  destruct (copy_decodes _ _ _ _ _ _ Hcopy Hb24 (scan_size - 0) ltac:(unfold LABEL_DECODE_SIZE, LABEL_FRONT_PORCH_BYTES in *; lia)
    ltac:(done) eq_refl Hlabel) as (dl & Hdec & _ & _ & Hsec & Hfront & Hname & Hroot & Hpart).
  pose proof (copy_slice _ _ _ _ _ _ Hcopy Hb24 dl Hroot Hsec Hfront Hpart) as Hpick.
  rewrite (proj2 (Z.eqb_neq _ 0)), (proj2 (Z.eqb_neq _ UNUSED24)) in Hpick by lia. cbn [orb] in Hpick.
  rewrite M3 in Hpick. exists dl. split; [|done].
  pose proof (decoded_version _ _ _ _ Hdec) as Hver. rewrite slice_read_be32, Z.add_0_l in Hver.
  unfold try_label. rewrite Hver. cbn [negb]. rewrite Hdec, Hpick.
  assert (Hfit : slice_fits img (-1) base (slice_bytes_of opts) = true).
  { unfold slice_fits. cbn [image_size img blank_image]. rewrite !andb_true_iff, !Z.leb_le, !Z.ltb_lt.
    unfold LABEL_FRONT_PORCH_BYTES in *. split_and!; try lia; done. }
  rewrite Hfit. cbn [negb]. change (-1 <? 0) with true. cbn [andb].
  assert (Hmagic : magic_at scanbuf scan_size base = true).
  { unfold magic_at, UFS_SBLOCK_OFFSET, UFS_SUPER_MAGIC_OFFSET. rewrite (proj2 (Z.leb_le _ _)) by lia. cbn [andb].
    apply Z.eqb_eq. rewrite <- Mg. unfold super. cbn [fs_magic decode_superblock].
    rewrite slice_read_be32. apply read_be32_eq_on. intros i Hi.
    unfold UFS_SBLOCK_OFFSET, UFS_SUPER_MAGIC_OFFSET, LABEL_FRONT_PORCH_BYTES in *. rewrite Heq by lia. unfold Bytes.slice. by rewrite Hv2. }
  rewrite Hmagic. cbn [negb].
  assert (Hsup : try_superblock img base (slice_bytes_of opts) (base + UFS_SBLOCK_OFFSET) w3 =
    (Ok (Some (with_slice img base (slice_bytes_of opts) super)), w3)).
  { destruct (read_whole img 2048 (base + UFS_SBLOCK_OFFSET) w3) as (b & Hr & Hbe);
      [done|by rewrite Hw|by rewrite Hw|done|lia|rewrite Hw; unfold UFS_SBLOCK_OFFSET, LABEL_FRONT_PORCH_BYTES in *; lia|].
    unfold try_superblock, bind, attempt. rewrite Hr.
    rewrite (decode_eq_on b (Bytes.slice (view w) (base + UFS_SBLOCK_OFFSET))).
    - by rewrite Hpl.
    - intros i Hi. rewrite Hbe by lia. unfold view. rewrite Hw. change (bk_view (w_ctx w2)) with (view w2). by rewrite Hv2. }
  unfold bind at 1. rewrite Hsup. unfold accept. cbn [sb slice_base slice_size with_label with_slice].
  rewrite Val. done.
Qed.
Lemma made_opens (img := blank_image true (f_size (w_ctx w))) :
  exists dl w3, image_open_rw img w2 =
    (Ok (with_label (with_slice img base (slice_bytes_of opts) super) dl), w3) /\
    dl_name dl = firstn 23 (label_of opts).
Proof.
  destruct Hsame as [Hs1 Hs2]. pose proof (im_size _ _ Hmade) as Hsz.
  destruct (made_image (with_slice img base (slice_bytes_of opts) super) eq_refl eq_refl) as (_ & _ & _ & _ & _ & _ & Hroom).
  unfold image_open_rw, open_with_mode. change (0 <=? -1) with false. cbn [andb].
  set (scan := if image_size img <? DEFAULT_SCAN_LIMIT then image_size img else DEFAULT_SCAN_LIMIT).
  assert (Hscan : base + 32768 <= scan <= f_size (w_ctx w) /\ scan <= 2 ^ 25).
  { unfold scan, LABEL_FRONT_PORCH_BYTES, DEFAULT_SCAN_LIMIT in *. cbn [image_size img blank_image].
    destruct (Z.ltb_spec (f_size (w_ctx w)) (32 * 1024 * 1024)); lia. }
  clearbody scan. unfold LABEL_FRONT_PORCH_BYTES in Hscan.
  set (w2' := World (w_ctx w2) (w_tx w2) (tick (w_env w2))).
  destruct (read_whole img scan 0 w2') as (b & Hr & Hb); [done|cbn; lia|done|done|lia|cbn; lia|].
  destruct (label_taken w2' b scan eq_refl) as (dl & Htry & Hname);
    [unfold LABEL_FRONT_PORCH_BYTES; lia|lia|lia|done|].
  exists dl, w2'. split; [|done]. fold img in Htry.
  assert (Hoffs : exists l, label_offsets scan = 0 :: l).
  { unfold label_offsets, scan_offsets, LABEL_DECODE_SIZE, LABEL_SCAN_LIMIT, DEV_SECTOR_SIZE.
    match goal with |- context [if ?l <? 0x1c5a then _ else _] => set (lim := l); assert (Hlim : 0x1c5a <= lim) end.
    { unfold lim. destruct (Z.ltb_spec scan (128 * 1024)); lia. }
    rewrite (proj2 (Z.ltb_ge lim _)) by lia. pose proof (Z.div_pos (lim - 0x1c5a) 512 ltac:(lia) ltac:(lia)).
    rewrite seqZ_cons by lia.
    cbn [map]. by eexists. }
  destruct Hoffs as (l & ->).
  unfold bind at 1, malloc, ask, bind at 1. rewrite Hmalloc, w64_small, (proj2 (Z.ltb_ge _ _)) by lia.
  cbn [negb orb fail_if]. unfold ret at 1. fold w2'. unfold bind at 1, map_err. rewrite Hr.
  unfold bind at 1. rewrite (fold_until_hit _ _ _ _ _ _ _ Htry). done.
Qed.
End opened.

(** ** The command succeeds *)
(** A host that lets the command have its target. *)
Definition willing (h : target_host) (over : bool) : Prop :=
  (th_exists h = false \/ over = true) /\ th_open h = None /\ th_lock h = None /\ th_empty h = None /\
  th_resize h = None /\ th_label h = None /\ th_format h = (true, true) /\ th_close h = None.
Lemma write_whole b size off (f : file) : f_script f = [] -> 0 < size ->
  exists f', write_exact_fd b size off f = (Ok tt, f') /\ f_script f' = [] /\ f_sync f' = f_sync f.
Proof.
  intros Hs Hn. unfold write_exact_fd, io_fuel. rewrite Hs. cbn [length write_loop].
  rewrite (proj2 (Z.ltb_lt 0 size)) by lia. unfold pwrite, next_outcome. rewrite Hs, Z.sub_0_r.
  rewrite (proj2 (Z.eqb_neq size 0)) by lia. rewrite Z.add_0_l, Z.ltb_irrefl. eexists. split; [reflexivity|]. by split.
Qed.
Lemma label_runs bytes sl label (f : file) : f_script f = [] -> 0 <= sl <= bytes -> bytes / 1024 < 2 ^ 23 ->
  exists f', label_write_path bytes sl label f = (Ok tt, f') /\ f_script f' = [] /\ f_sync f' = f_sync f.
Proof.
  intros Hs Hb Hn. unfold label_write_path, LABEL_SECTOR_SIZE.
  pose proof (Z.div_pos sl 1024 ltac:(lia) ltac:(lia)).
  pose proof (Z.div_le_mono sl bytes 1024 ltac:(lia) ltac:(lia)).
  rewrite (w32_small (bytes / 1024)), (w32_small (sl / 1024)) by lia.
  rewrite !(proj2 (Z.ltb_ge UNUSED24 _)) by (unfold UNUSED24; lia). cbn [orb].
  rewrite (proj2 (Z.ltb_ge 0xffff _)).
  2: { enough (bytes / 1024 / (4 * 32) < 0x10000) by lia. apply Z.div_lt_upper_bound; lia. }
  generalize (seqZ 0 LABEL_COPY_COUNT). intros l. revert f Hs. induction l as [|q l IH]; intros f Hs.
  { exists f. by split_and!. }
  cbn [for_each]. destruct (write_whole (label_copy (q * LABEL_COPY_STRIDE) (bytes / 1024) (sl / 1024)
    (bytes / 1024 / (4 * 32)) label) LABEL_WRITE_SIZE (q * LABEL_COPY_STRIDE) f Hs ltac:(done)) as (f1 & E1 & S1 & Y1).
  destruct (IH f1 S1) as (f2 & E2 & S2 & Y2). exists f2. split; [|split; [done|congruence]].
  unfold bind, write_label_copy at 1. by rewrite E1.
Qed.

Lemma create_runs h opts w : willing h (mk_force_overwrite opts) -> healthy 0 w ->
  0 <= mk_bytes opts < 2 ^ 63 ->
  exists w', create_output h opts w = (Ok tt, w') /\ healthy 0 w' /\ f_sync (w_ctx w') = f_sync (w_ctx w).
Proof.
  intros (Hx & Ho & Hk & He & Hr & _) Hw Hb.
  assert (Hset : forall why n w, why = None -> 0 <= n < 2 ^ 63 -> healthy 0 w ->
    exists w', set_size why n w = (Ok tt, w') /\ healthy 0 w' /\ f_sync (w_ctx w') = f_sync (w_ctx w)).
  { intros why n w0 -> Hn [I S M L]. unfold set_size, answer, bind, ret. rewrite s64_small by lia.
    rewrite (proj2 (Z.ltb_ge n 0)) by lia. eexists. split; [reflexivity|]. split; [|done].
    constructor; [apply truncated_inv; [done|lia]|done|done|cbn; lia]. }
  assert (Hc : forall excl, th_exists h && excl = false ->
    exists w', (answer (if th_exists h && excl then Some EEXIST else th_open h) ;;;
      (if th_exists h then ret tt
       else lift (fun f => (Ok tt, File zeros 0 (f_script f) (f_sync f)))) ;;; answer (th_lock h)) w = (Ok tt, w') /\
      healthy 0 w' /\ f_sync (w_ctx w') = f_sync (w_ctx w)).
  { intros excl ->. rewrite Ho, Hk. unfold answer, bind, ret, lift. destruct (th_exists h); eexists; (split; [reflexivity|]); [by split|].
    destruct Hw as [I S M L]. split; [|done]. constructor; [by apply file_inv_zeros|done|done|done]. }
  unfold create_output, nextufs_target_open. unfold bind at 1. destruct (mk_force_overwrite opts).
  - destruct (Hc false) as (w1 & E1 & H1 & Y1); [by rewrite andb_false_r|].
    destruct (Hset (th_empty h) 0 w1 He ltac:(done) H1) as (w2 & E2 & H2 & Y2).
    destruct (Hset (th_resize h) (mk_bytes opts) w2 Hr Hb H2) as (w3 & E3 & H3 & Y3).
    exists w3. split; [|split; [done|congruence]]. unfold bind at 1. rewrite E1, E2. done.
  - destruct Hx as [Hx|]; [|done]. destruct (Hc true) as (w1 & E1 & H1 & Y1); [by rewrite Hx|].
    destruct (Hset (th_resize h) (mk_bytes opts) w1 Hr Hb H1) as (w2 & E2 & H2 & Y2).
    exists w2. split; [|split; [done|congruence]]. rewrite E1. done.
Qed.
Lemma or_exit_run (m : M (world file) unit) status q w w1 : m w = (Ok tt, w1) -> or_exit m status q w = q w1.
Proof. intros E. unfold or_exit, bind, attempt. by rewrite E. Qed.
Lemma validate_runs opens o k p s w : unsupported_geometry o = false -> 0 <= fo_size_1k_sectors o ->
  format_plan o = Ok (k, p, s) -> healthy 0 w ->
  exists w', nextufs_format opens (validating o) w = (Ok tt, w') /\ healthy 0 w' /\
    f_sync (w_ctx w') = f_sync (w_ctx w).
Proof.
  intros Hu Hz Hp Hw. destruct (format_plan_facts o k p s Hu Hz Hp) as (S & D & F & -> & _).
  unfold nextufs_format. change (format_plan (validating o)) with (format_plan o). rewrite Hp.
  unfold time_now, of_result, malloc, ask, bind, ret. destruct Hw as [I Sc M L]. cbn [w_env tick ev_malloc w_ctx]. rewrite M.
  assert (Hcs : 0 <= p_cssize p < 2 ^ 63).
  { pose proof (pf_cssize _ _ _ F) as [_ Hc]. destruct (plan_counts o k p D F) as [_ _ _ ? [? ?] _ _ _ _ _]. lia. }
  rewrite w64_small by lia. cbn [negb orb]. rewrite (proj2 (Z.ltb_ge _ _)) by lia. cbn [fail_if fo_validate_only validating].
  eexists. split; [reflexivity|]. split; [by constructor|done].
Qed.

Lemma mkimg_runs h args opts k p s w : parse_args args = Some opts ->
  mk_help opts = false -> mk_raw opts = false -> mk_dry_run opts = false ->
  willing h (mk_force_overwrite opts) -> (mk_force_size opts = true \/ mk_bytes opts <= NEXTUFS_COMPAT_MAX_BYTES) ->
  LABEL_FRONT_PORCH_BYTES < mk_bytes opts -> mk_bytes opts mod 1024 = 0 -> mk_bytes opts / 1024 < 2 ^ 23 ->
  format_plan (labeled opts (slice_bytes_of opts / 1024)) = Ok (k, p, s) ->
  bk_inv (w_ctx w) -> f_script (w_ctx w) = [] -> f_sync (w_ctx w) = [] -> (forall i, ev_malloc (w_env w) i = true) ->
  exists w', nextufs_mkimg_main h args w = (Ok 0, w').
Proof.
  intros Ha Hh Hraw Hdry Hwill Hforce Hb Hm Hn Hp I Hs Hy Hmal. pose proof Hwill as (_ & _ & _ & _ & _ & Hl & Hf & Hc).
  assert (Hw : healthy 0 w) by (constructor; [done|done|done|apply I]).
  unfold LABEL_FRONT_PORCH_BYTES in Hb. pose proof (Z.div_mod (mk_bytes opts) 1024 ltac:(lia)) as Hdm.
  assert (Hsl : slice_bytes_of opts = mk_bytes opts - 160 * 1024) by (unfold slice_bytes_of; by rewrite Hraw).
  assert (Hz : 0 <= slice_bytes_of opts / 1024 <= mk_bytes opts / 1024).
  { split; [apply Z.div_pos; lia|apply Z.div_le_mono; lia]. }
  destruct (labeled_formats opts (slice_bytes_of opts / 1024) k p s Hdry ltac:(lia) Hp) as [Hfm ->].
  set (fmt := labeled opts (slice_bytes_of opts / 1024)) in *.
  unfold nextufs_mkimg_main. rewrite Ha, Hh, Hraw, Hdry. unfold UFS_SECTOR_SIZE.
  assert (Hcompat : negb (mk_force_size opts) && (NEXTUFS_COMPAT_MAX_BYTES <? mk_bytes opts) = false).
  { destruct Hforce as [-> |Hle]; [done|]. rewrite (proj2 (Z.ltb_ge _ _)) by lia. apply andb_false_r. }
  rewrite Hcompat, Hm. cbn [Z.eqb negb andb].
  rewrite (proj2 (Z.leb_gt (mk_bytes opts) LABEL_FRONT_PORCH_BYTES)) by (unfold LABEL_FRONT_PORCH_BYTES; lia).
  rewrite (proj2 (Z.ltb_ge LONG_MAX _)) by (unfold LONG_MAX; lia).
  unfold format_options_from_cli. rewrite Hraw. cbn [negb]. fold (labeled opts (slice_bytes_of opts / 1024)). fold fmt.
  change (unsupported_geometry fmt) with false. cbv iota.
  destruct (validate_runs (th_format h) fmt k p _ w eq_refl (proj1 Hz) Hp Hw) as (w1 & E1 & H1 & Y1).
  rewrite (or_exit_run _ _ _ _ _ E1). unfold write_image. rewrite Hraw.
  destruct (create_runs h opts w1 Hwill H1 ltac:(lia)) as (w2 & E2 & H2 & Y2). rewrite (or_exit_run _ _ _ _ _ E2).
  destruct (label_runs (mk_bytes opts) (slice_bytes_of opts) (label_of opts) (w_ctx w2) (hl_script _ _ H2) ltac:(lia) Hn)
    as (f3 & E3 & S3 & Y3).
  set (w3 := World f3 (w_tx w2) (w_env w2)).
  destruct (label_write_keeps _ _ _ _ _ (hl_inv _ _ H2) E3) as [I3 L3].
  assert (H3 : healthy 0 w3) by (constructor; [exact I3|exact S3|apply H2|cbn; pose proof (hl_size _ _ H2); lia]).
  assert (El : (answer (th_label h) ;;; lift (label_write_path (mk_bytes opts) (slice_bytes_of opts) (label_of opts))) w2 =
    (Ok tt, w3)) by (rewrite Hl; unfold answer, bind, ret, lift; by rewrite E3).
  rewrite (or_exit_run _ _ _ _ _ El). destruct (nextufs_format_runs fmt k p w3 Hfm H3) as (w4 & E4 & _).
  destruct (keeps_nextufs_format fmt ltac:(done) (true, true) eq_refl (proj1 Hz) eq_refl w3 _ _ I3 E4) as [[_ _ _ Y4] _].
  exists w4. rewrite Hf, Hc. unfold bind at 1, attempt at 1. rewrite E4. unfold bind, attempt, lift, fsync, ret.
  rewrite Y4. cbn [w_ctx w3]. rewrite Y3, Y2, Y1, Hy. cbn [is_ok andb]. rewrite bool_decide_true by done. by destruct w4.
Qed.

(** ** A sample run: a labelled image of 800 KiB *)
Definition sample_args : list name := [str "d.img"; str "800K"].
Definition sample_options : options :=
  Options false false false false false (Some (str "d.img")) (Some (str "d.img")) (800 * 1024) [].
Definition sample_host : target_host :=
  TargetHost false None None None None None (true, true) None.
Definition sample_before : world file := raw_world (File zeros 0 [] []).
Definition sample_after : world file := snd (nextufs_mkimg_main sample_host sample_args sample_before).
(** A later process has the file. *)
Definition reopened (w : world file) : world file :=
  raw_world (File (f_data (w_ctx w)) (f_size (w_ctx w)) [] []).
Lemma reopened_same w : f_data (w_ctx (reopened w)) = f_data (w_ctx w) /\ f_size (w_ctx (reopened w)) = f_size (w_ctx w).
Proof. done. Qed.
Lemma reopened_quiet w : f_script (w_ctx (reopened w)) = [] /\ forall i, ev_malloc (w_env (reopened w)) i = true.
Proof. done. Qed.
Lemma sample_parsed : parse_args sample_args = Some sample_options.
Proof. vm_compute. reflexivity. Qed.
Lemma sample_label : Forall (fun c => 0 < c < 256) (label_of sample_options).
Proof. vm_compute. repeat constructor. Qed.
Lemma sample_inv : bk_inv (w_ctx sample_before).
Proof. by apply file_inv_zeros. Qed.
Lemma sample_planned : exists k p s,
  format_plan (labeled sample_options (slice_bytes_of sample_options / 1024)) = Ok (k, p, s).
Proof. eexists _, _, _. vm_compute. reflexivity. Qed.
Lemma run_ended_status {W} {r : result Z * W} {w} : r = (Ok 0, w) -> r = (Ok 0, snd r).
Proof. by intros ->. Qed.
Lemma sample_ends k p s : format_plan (labeled sample_options (slice_bytes_of sample_options / 1024)) = Ok (k, p, s) ->
  exists w', nextufs_mkimg_main sample_host sample_args sample_before = (Ok 0, w').
Proof.
  intros Hp. apply (mkimg_runs sample_host sample_args sample_options k p s sample_before sample_parsed).
  - reflexivity.
  - reflexivity.
  - reflexivity.
  - split_and!; try reflexivity. by left.
  - by right.
  - reflexivity.
  - reflexivity.
  - reflexivity.
  - exact Hp.
  - exact sample_inv.
  - reflexivity.
  - reflexivity.
  - reflexivity.
Qed.
Lemma sample_run : nextufs_mkimg_main sample_host sample_args sample_before = (Ok 0, sample_after).
Proof.
  destruct sample_planned as (k & p & s & Hp). unfold sample_after.
  destruct (sample_ends k p s Hp) as [w' E]. exact (run_ended_status E).
Qed.

(** ** Properties *)

(** C10. An image that mkimg made can be used.  If the command ends with status 0 for a
    labelled image, then whoever opens the file for writing afterwards (no call fails)
    gets an image: its slice is the part of the file behind the front porch, its name is
    the label of the command line, or the target's base name, cut to 23 characters, its
    geometry is valid, its cylinder groups are sound, and unless the file is within 16
    bytes of 2^63 it is what the mutation theorems ask for. *)
Theorem mkimg_image_opens h args opts (w w' w2 : world file)
    (Hargs : parse_args args = Some opts) (Hhelp : mk_help opts = false)
    (Hraw : mk_raw opts = false) (Hdry : mk_dry_run opts = false)
    (Hlabel : Forall (fun c => 0 < c < 256) (label_of opts)) (Hinv : bk_inv (w_ctx w))
    (Hrun : nextufs_mkimg_main h args w = (Ok 0, w'))
    (Hsame : f_data (w_ctx w2) = f_data (w_ctx w') /\ f_size (w_ctx w2) = f_size (w_ctx w'))
    (Hscript : f_script (w_ctx w2) = []) (Hmalloc : forall i, ev_malloc (w_env w2) i = true) :
  exists img w3, image_open_rw (blank_image true (f_size (w_ctx w'))) w2 = (Ok img, w3) /\
    slice_base img = LABEL_FRONT_PORCH_BYTES /\ slice_size img = mk_bytes opts - LABEL_FRONT_PORCH_BYTES /\
    used_disk_label img = true /\ label_name img = firstn 23 (label_of opts) /\
    image_validate (sb img) (slice_base img) (slice_size img) = Ok tt /\
    (image_ok img -> image_sane img) /\ groups_sound img (view w').
Proof.
  pose proof (mkimg_run _ _ _ _ _ Hargs Hhelp Hraw Hdry Hlabel Hinv Hrun) as Hm.
  destruct (im_formatted _ _ Hm) as (k & p & utime & m & d1 & d2 & Ht & Hf & Hd).
  destruct (made_opens opts w' w2 k p utime m d1 d2) as (dl & w3 & Ho & Hname); try done.
  destruct (made_slice opts w' Hm Hraw) as (Hsl & _).
  match type of Ho with _ = (Ok ?i, _) => set (img := i) in * end.
  destruct (made_image opts w' k p utime m d1 d2 Hm Hraw Ht Hf Hd img) as (_ & _ & _ & _ & Hv & Hg & _); [done..|].
  exists img, w3. split; [done|]. split_and!; try done. intros Hok.
  apply (placed_sane (blank_image true (f_size (w_ctx w')))); [done|]. eapply open_placed; [|exact Ho].
  destruct Hsame as [D S]. pose proof (im_inv _ _ Hm) as I. cbn in I |- *. unfold file_inv in *. by rewrite D, S.
Qed.
Lemma mkimg_image_opens_witness :
  let blank := blank_image true (f_size (w_ctx sample_after)) in
  exists img w3, image_open_rw blank (reopened sample_after) = (Ok img, w3) /\
    slice_base img = LABEL_FRONT_PORCH_BYTES /\ slice_size img = 800 * 1024 - LABEL_FRONT_PORCH_BYTES /\
    used_disk_label img = true /\ label_name img = str "d.img" /\
    image_validate (sb img) (slice_base img) (slice_size img) = Ok tt /\
    (image_ok img -> image_sane img) /\ groups_sound img (view sample_after).
Proof.
  destruct (reopened_quiet sample_after) as [Hs Hm].
  exact (mkimg_image_opens sample_host sample_args sample_options sample_before sample_after (reopened sample_after)
    sample_parsed eq_refl eq_refl eq_refl sample_label sample_inv sample_run (reopened_same _) Hs Hm).
Defined.

(** C11. The command ends with status 0 whenever it should.  If the arguments name a labelled
    image of a size the planner accepts, below 8 GiB (the label's cylinder count is 16 bits
    wide), within the compatibility limit or forced, the target does not exist or may be
    overwritten, and no call fails, then mkimg exits with 0 and the file it leaves has the
    requested size, the four labels and the filesystem. *)
Theorem mkimg_succeeds h args opts k p s w
    (Hargs : parse_args args = Some opts) (Hhelp : mk_help opts = false)
    (Hraw : mk_raw opts = false) (Hdry : mk_dry_run opts = false)
    (Hlabel : Forall (fun c => 0 < c < 256) (label_of opts))
    (Hhost : willing h (mk_force_overwrite opts))
    (Hforce : mk_force_size opts = true \/ mk_bytes opts <= NEXTUFS_COMPAT_MAX_BYTES)
    (Hporch : LABEL_FRONT_PORCH_BYTES < mk_bytes opts) (Hsectors : mk_bytes opts mod 1024 = 0)
    (Hcyl : mk_bytes opts / 1024 < 2 ^ 23)
    (Hplan : format_plan (labeled opts (slice_bytes_of opts / 1024)) = Ok (k, p, s))
    (Hinv : bk_inv (w_ctx w)) (Hscript : f_script (w_ctx w) = []) (Hsync : f_sync (w_ctx w) = [])
    (Hmalloc : forall i, ev_malloc (w_env w) i = true) :
  exists w', nextufs_mkimg_main h args w = (Ok 0, w') /\ image_made opts w'.
Proof.
  destruct (mkimg_runs h args opts k p s w) as [w' E]; try done.
  exists w'. split; [exact E|]. by apply (mkimg_run h args opts w).
Qed.
Lemma mkimg_succeeds_witness :
  exists w', nextufs_mkimg_main sample_host sample_args sample_before = (Ok 0, w') /\ image_made sample_options w'.
Proof.
  destruct sample_planned as (k & p & s & Hp).
  refine (mkimg_succeeds sample_host sample_args sample_options k p s sample_before sample_parsed eq_refl eq_refl eq_refl
    sample_label _ (or_intror _) eq_refl eq_refl eq_refl Hp sample_inv eq_refl eq_refl (fun _ => eq_refl)).
  - split_and!; try reflexivity. left. reflexivity.
  - discriminate.
Defined.

(** Checking the geometry touches nothing. *)
Lemma validating_quiet opens o w r w' : nextufs_format opens (validating o) w = (r, w') -> w_ctx w' = w_ctx w.
Proof.
  unfold nextufs_format, time_now, malloc, ask, of_result, bind, ret.
  destruct (format_plan _) as [[[k p] s]|e]; [|by intros [= <- <-]].
  cbn [w_ctx w_env]. unfold fail_if. destruct (_ || _); by intros [= <- <-].
Qed.
Lemma open_refused h opts w : th_exists h = true ->
  mk_force_overwrite opts = false \/ th_open h <> None \/ th_lock h <> None ->
  exists e, create_output h opts w = (Err e, w).
Proof.
  intros Hx Hno. unfold create_output, nextufs_target_open, answer, bind, ret, fail. rewrite Hx. cbn [andb].
  destruct (mk_force_overwrite opts); [|by eexists].
  destruct (th_open h); [by eexists|]. destruct (th_lock h); [by eexists|].
  by destruct Hno as [|[|]].
Qed.

(** C12. The command does not touch a file it should not.  A dry run, whatever its arguments,
    leaves the target as it is; so does any run whose target exists when the command was
    not told to overwrite it, or when the target cannot be opened or another process holds
    its lock (truncation comes after the lock): such a run ends with a nonzero status. *)
Theorem mkimg_keeps_existing h args opts (w w' : world file) r
    (Hargs : parse_args args = Some opts)
    (Hkeep : mk_dry_run opts = true \/ th_exists h = true /\
       (mk_force_overwrite opts = false \/ th_open h <> None \/ th_lock h <> None))
    (Hrun : nextufs_mkimg_main h args w = (r, w')) :
  w_ctx w' = w_ctx w /\
  (mk_help opts = false -> mk_dry_run opts = false -> exists status, r = Ok status /\ status <> 0).
Proof.
  unfold nextufs_mkimg_main in Hrun. rewrite Hargs in Hrun.
  assert (Hret : forall q, ret q w = (r, w') -> q <> 0 -> w_ctx w' = w_ctx w /\
    (mk_help opts = false -> mk_dry_run opts = false -> exists status, r = Ok status /\ status <> 0)).
  { intros q [= <- <-] Hq. eauto. }
  destruct (mk_help opts); [injection Hrun as <- <-; by split|].
  destruct (_ && _) in Hrun; [by eapply Hret|]. destruct (negb (_ =? 0)) in Hrun; [by eapply Hret|].
  destruct (_ && _) in Hrun; [by eapply Hret|]. destruct (_ <? _) in Hrun; [by eapply Hret|].
  destruct (format_options_from_cli _ _) as [fmt|]; [|by eapply Hret].
  destruct (unsupported_geometry fmt); [by eapply Hret|]. clear Hret.
  unfold or_exit at 1, bind, attempt in Hrun.
  destruct (nextufs_format _ (validating fmt) w) as [r1 w1] eqn:E. pose proof (validating_quiet _ _ _ _ _ E) as E1.
  destruct r1; cbn [is_ok] in Hrun; [|injection Hrun as <- <-; split; [done|by exists 1]].
  destruct (mk_dry_run opts); [injection Hrun as <- <-; by split|].
  destruct Hkeep as [|[Hx Hno]]; [done|]. destruct (open_refused h opts w1 Hx Hno) as [e Hc].
  unfold write_image, or_exit, bind, attempt in Hrun. rewrite Hc in Hrun. cbn [is_ok] in Hrun.
  injection Hrun as <- <-. split; [done|by exists 1].
Qed.
Definition taken_host : target_host := TargetHost true None None None None None (true, true) None.
Lemma mkimg_keeps_existing_witness :
  let w' := snd (nextufs_mkimg_main taken_host sample_args sample_before) in
  w_ctx w' = w_ctx sample_before /\
  exists status, fst (nextufs_mkimg_main taken_host sample_args sample_before) = Ok status /\ status <> 0.
Proof.
  intros w'.
  destruct (mkimg_keeps_existing taken_host sample_args sample_options sample_before w' _ sample_parsed
    (or_intror (conj eq_refl (or_introl eq_refl))) (surjective_pairing _)) as [H1 H2].
  split; [exact H1|exact (H2 eq_refl eq_refl)].
Defined.
